(* ===== verification/_CoqProject ===== *)
-Q . S2P
Prelude.v
RustStd.v
Externals.v
Money.v
Chain.v
Effects.v
Futures.v
Observations.v
PaymentIntent.v
Quote.v
Price.v
Verification.v
VerificationService.v
Settlement.v
SettlementService.v
Database.v
StorageSettlement.v
SettlementBooks.v
Operations.v
StorageOperations.v
OperationsBooks.v
DecisionBooks.v
StorageObservations.v
StorageVerification.v
EvidenceBooks.v
EvidenceTruth.v
TronAddress.v
Merchant.v
StorageMerchant.v
MerchantBooks.v
MerchantReplay.v
WebhookSign.v
RustNet.v
WebhookSender.v
Outbox.v
StorageOutbox.v
OutboxBooks.v
TronEvent.v
TronSource.v
Observer.v
TronOwnership.v
Oversight.v
StorageOversight.v
OversightBooks.v
RateLimit.v
Http.v
HttpBooks.v
