(* ===== verification/Prelude.v ===== *)
(** * A verification library for the crypto gateway

    The program is a self-hosted gateway that takes USDT payments on TRON for
    merchants.  It is a Rust workspace in layers:

    - [gateway-domain] holds the pure rules: money, quotes, prices, what a
      chain reading claims, how readings become a verified transfer, which
      payment attempt a transfer belongs to, when it may settle, and how
      events are signed;
    - [gateway-application] holds the services: each walks a batch, asks a
      repository and a chain reader (traits) for data, calls a domain rule and
      hands the decision back to the repository;
    - [gateway-tron] reads the chain: addresses, event logs, the two scan
      lanes, the direct read, and the proof that a merchant owns an address;
    - [gateway-webhook] delivers events to merchants;
    - [gateway-storage] (SQL), [gateway-http], [gateway-scheduler],
      [gateway-telemetry] and the two binaries put them to work.

    A payment goes through the parts in this order: a merchant's request
    creates an intent and asks for a quote (Http, Merchant, StorageMerchant,
    with the rules of PaymentIntent, Price and Quote); a scan of the chain
    finds a transfer (TronAddress, TronEvent, TronSource); the observer hands
    it to the intake, which stores the reading (Observer, Observations,
    StorageObservations); the verifier re-reads the
    event and decides on all the evidence (Verification, VerificationService,
    StorageVerification); settlement matches the transfer to an attempt and
    moves the money in one transaction (Settlement, SettlementService,
    StorageSettlement); operators decide on what could not be settled
    (Operations, StorageOperations); the merchant is told (Outbox,
    StorageOutbox, WebhookSign, WebhookSender); and reconciliation compares
    the books and closes a rail that does not add up (Oversight,
    StorageOversight).

    ** Files

    Foundations
    - [Prelude]: Rust's [Result] as the monad [result], the tactics that take
      apart chains of [?] and boolean guards, shared list lemmas.
    - [RustStd]: what the sources use of the language and its library:
      integers of a width kept in [Z] with checked and saturating operations,
      big-endian bytes, decimal printing and parsing, ASCII and UTF-8 text,
      [sort_by], [max_by_key], [BTreeSet] and [BTreeMap] as sorted lists.
    - [RustNet]: [std::net] addresses with their parser and printer, and
      [String::from_utf8_lossy].
    - [Externals]: third-party crates as classes of functions with the laws
      their documentation states: [U256Lib] (alloy-primitives), [TimeLib]
      (time), [HashLib] (sha2, hmac, tiny-keccak), [Base58Lib], [UuidLib],
      [JsonLib] (serde_json).  The module [ReferenceInstances] gives each a
      concrete instance, which shows that its laws can hold and lets the
      witnesses compute.
    - [Effects]: the repositories, readers and clocks are state transformers
      [W -> result E A * W] over a world of any type; [for_each] is the [for]
      loop that stops at the first error; [holds] is what a call keeps,
      however it ends.
    - [Futures]: [buffer_unordered] over interleaved futures, each of which
      ends after finitely many steps.
    - [Database]: the tables as [gmap]s of rows, statements as partial
      functions on them that may violate a constraint, transactions, and a
      server (class [Postgres]) that may fail at any statement and may lose a
      commit before or after it took effect.  [transacts] says what a
      transaction does to the committed tables in every such case.

    Domain ([src/crates/gateway-domain/src])
    - [Money] = money.rs, [Chain] = chain.rs, [PaymentIntent] =
      payment_intent.rs, [Quote] = quote.rs ([QuotePlan::build] and its
      guards), [Price] = price.rs, [Verification] = verification.rs,
      [Settlement] = settlement.rs, [WebhookSign] = webhook.rs.

    Application ([src/crates/gateway-application/src])
    - [Observations] = observations.rs and the error type of ports.rs,
      [VerificationService] = verification.rs, [SettlementService] =
      settlement.rs, [Outbox] = outbox.rs, [Merchant] = payment_intents.rs and
      quotes.rs, [Operations] = operations.rs, honor_approval.rs and
      redelivery.rs, [Oversight] = reconciliation.rs and health.rs.  A trait of
      the source is a class of operations here, and the theorems about a
      service hold for every implementation of it.

    Storage ([src/crates/gateway-storage/src])
    - [StorageSettlement] = settlement.rs, [StorageOperations] = operations.rs
      and honor_proposals.rs, [StorageObservations] = observations.rs,
      [StorageVerification] = verification.rs, [StorageMerchant] =
      postgres.rs, postgres/intents.rs and postgres/quotes.rs, [StorageOutbox]
      = outbox.rs and redelivery.rs, [StorageOversight] = oversight.rs.  Each
      gives the instances of the application's classes for a session with the
      server, so that the theorems below are about service and SQL together.

    Chain and delivery
    - [TronAddress], [TronEvent], [TronSource], [TronOwnership] = the files of
      those names in [src/crates/gateway-tron/src]; [TronSource] also gives
      the instances of the application's [ChainScanner] and [ChainReader].
    - [Observer] = the batch of [src/crates/gateway-scheduler/src/observer.rs],
      over any [ChainScanner].
    - [WebhookSender] = [src/crates/gateway-webhook/src/lib.rs].

    HTTP ([src/crates/gateway-http/src])
    - [RateLimit] = the budgets of rate_limit.rs; [Http] = its middlewares,
      auth.rs, error.rs, the handlers that change state, and the order of the
      layers in lib.rs.  The class [Framework] stands for axum's extractors:
      one decoder for each type of body a handler takes.

    The [..Books] files hold the theorems about the tables: [SettlementBooks],
    [OperationsBooks], [DecisionBooks], [EvidenceBooks], [EvidenceTruth],
    [MerchantBooks], [MerchantReplay], [OutboxBooks], [OversightBooks],
    [HttpBooks].

    ** What the theorems show

    Money is never made, lost or guessed.  Conversions round up by less than
    one unit and refuse overflow ([Money], [Quote]); an automatic allocation
    happens exactly under the stated conditions and credit plus remainder is
    the amount received; a transfer is matched only when one attempt fits, the
    order of the candidates does not matter ([Settlement]).  In the tables,
    whatever fails, a settlement pass keeps the books balanced, a transfer is
    settled once, and the record a pass returns is what happened
    ([SettlementBooks]); money that an operator moves takes two keys above the
    threshold, and is exactly what is owed, on whichever of the two ways it
    is honored ([OperationsBooks]); decisions,
    fulfilments and allocations agree with each other ([DecisionBooks]).

    Evidence is believed only when it agrees: a verified transfer is what
    every genuine reading says, with enough distinct provider groups behind
    it, conflicts are reported exactly, an
    impersonated reading changes nothing, finality is what the policy asks
    ([Verification]); the verdict that is committed was decided on evidence
    that is stored ([VerificationService]).  Intake appends a reading once, a
    cursor never moves back, a holder that was replaced writes nothing, the
    states of a transfer walk forward ([EvidenceBooks]); every canonical
    transfer rests on recorded readings, and settlement is handed proven money
    only ([EvidenceTruth]).

    Orders live their lifecycle over any calls, and an exact amount names one
    attempt ([MerchantBooks]); a request under its key is answered once,
    and a repeat is answered only if it asks for the same, up to a collision
    of SHA-256 ([MerchantReplay]).

    The chain is read faithfully: logs decode to exactly the transfers they
    encode, byte by byte ([TronEvent]); the block lane reads every block
    from the one after its cursor on, whole and irreversible, and the direct read stays on its own chain ([TronSource]); an
    address has one canonical form that survives every written form
    ([TronAddress]); an ownership proof binds merchant and address
    ([TronOwnership]); hashes identify claims ([Chain]).

    Prices come from distinct provider groups that agree ([Price]), and a
    quote needs all its evidence ([Quote]).

    Deliveries go to public addresses only, over HTTPS, without redirects or
    proxies ([WebhookSender]); a signature covers timestamp and body, and
    every endpoint has its own secret ([WebhookSign]); an event is marked
    delivered when every endpoint it goes to took it and there is one, every
    event that a pass claims is decided in it once, is claimed by one worker, and a
    redelivery is the same event once ([Outbox], [OutboxBooks]).

    Reconciliation closes every rail that a finding about money names, and on
    books the gateway has kept each finding about money is an overpaid order
    or an allocation on a transfer marked invalidated ([OversightBooks]).

    The HTTP API changes the tables only behind a live key of the right kind,
    a merchant reaches only its own orders, any requests keep the books, and
    failed authentications are rationed per client address, and once the
    ration is spent no key is looked up; a refusal names a wait that is long
    enough, and the shortest one where it spends a token ([RateLimit],
    [HttpBooks]).

    Some theorems state where the code departs from its intent or its
    comments: overflowing rates hide a divergence ([Price]), a zero-value
    transfer stops the block lane ([Observer]), registration accepts an
    address that delivery refuses, 6to4 addresses count as public
    ([WebhookSender]), an event can be counted in two buckets
    ([VerificationService]), an upper-case hash prefix survives normalisation
    ([Chain]), every overpaid order closes its rail at the next reconciliation
    ([OversightBooks]), and a key that is asked for more than once per
    millisecond never refills ([RateLimit]).

    ** Bounds and fuel

    Every fuel is computed from the input and proved enough: decimal printing
    takes one more step than the binary logarithm of the number, Euclid's
    algorithm takes 513 steps on 256-bit numbers (each two steps halve the
    larger), UTF-8 decoding takes as many steps as there are bytes, the block
    lane takes as many as there are blocks in its range, and the loop that
    advances a transfer's state takes three ([advance_loop_spec]: there are
    two steps between the three states).  Lengths and counters of the source
    that saturate at 32 bits saturate in the model.

    ** What is not modelled

    A call runs from begin to end before the next one: transactions of other
    workers between its statements, and the locks that order them, do not
    appear; the uniqueness constraints and fences they rely on do.  Where SQL
    leaves an order open (RETURNING, ties, LIMIT without ORDER BY) the model
    takes the order of the map.  A timestamp keeps its nanoseconds, which the
    server rounds to microseconds,
    and row security is that of a role it applies to.  The network itself is
    outside: transport, resolver and TLS are parameters, as are the HTTP
    framework's own extractors, routing by path and rejections.  Logging,
    metrics (the clock is read where the code reads it for one) and the format check of a checkout token are left out of the
    functions that have them.  Cancellation and timeouts of the asynchronous
    runtime appear only as the errors they produce, and a future that stays
    pending for ever has no model.  Serde's derived codecs of
    records are not modelled; the hand-written ones of [Money] are.

    Whole parts without a model: the hosted payment page, accounting exports,
    retention, the self-check, provisioning of merchants and keys, the
    operators' read models, the scheduler's loops and telemetry (its observer's batch apart), the two
    binaries, and the integrations in other languages. *)

From stdpp Require Export base tactics list strings.
From Stdlib Require Export ZArith Lia.

#[global] Open Scope Z_scope.

(** ** Results

    Rust's [Result<T, E>].  The error type comes first so that [result E] is
    a monad; [x ← e; k] is the [?] operator. *)

Inductive result (E A : Type) : Type :=
  | Ok (a : A)
  | Err (e : E).
Arguments Ok {E A} a.
Arguments Err {E A} e.

#[export] Instance result_ret {E} : MRet (result E) := fun A a => Ok a.
#[export] Instance result_bind {E} : MBind (result E) :=
  fun A B f r => match r with Ok a => f a | Err e => Err e end.
#[export] Instance result_fmap {E} : FMap (result E) :=
  fun A B f r => match r with Ok a => Ok (f a) | Err e => Err e end.

(** [Option::ok_or], [Result::map_err] and [Result::ok]. *)
Definition ok_or {E A} (o : option A) (e : E) : result E A :=
  match o with Some a => Ok a | None => Err e end.

Definition map_err {E F A} (f : E -> F) (r : result E A) : result F A :=
  match r with Ok a => Ok a | Err e => Err (f e) end.

Definition result_ok {E A} (r : result E A) : option A :=
  match r with Ok a => Some a | Err _ => None end.

Definition is_ok {E A} (r : result E A) : bool :=
  match r with Ok _ => true | Err _ => false end.

(** [Iterator::collect::<Result<Vec<_>, _>>], and the [for] loop that pushes
    what each step returns and leaves at the first error. *)
Fixpoint collect {E A B} (f : A -> result E B) (l : list A) : result E (list B) :=
  match l with
  | [] => Ok []
  | x :: l => y ← f x; ys ← collect f l; Ok (y :: ys)
  end.

(** [if guard { return Err(e) }] *)
Definition guard_err {E} (b : bool) (e : E) : result E unit :=
  if b then Err e else Ok tt.

(** Two inputs of a function are a collision: distinct, with one image.
    Theorems about hashes name the two inputs; that a collision exists
    somewhere is true of every hash of a fixed length and says nothing. *)
Definition collision {A B} (h : A -> B) (x y : A) : Prop := x <> y /\ h x = h y.

(** ** Automation

    [inv_res] takes apart a hypothesis that says a chain of [?] operators and
    guards returned [Ok] or [Err]: every match it goes through is split and
    the impossible branches are closed. *)

Ltac unfold_res :=
  repeat match goal with
  | H : context [@mbind (result _) _ _ _ _ _] |- _ => unfold mbind, result_bind in H
  | H : context [@fmap (result _) _ _ _ _ _] |- _ => unfold fmap, result_fmap in H
  | H : context [@mret (result _) _ _ _] |- _ => unfold mret, result_ret in H
  | H : context [ok_or _ _] |- _ => unfold ok_or in H
  | H : context [map_err _ _] |- _ => unfold map_err in H
  | H : context [guard_err _ _] |- _ => unfold guard_err in H
  | |- context [@mbind (result _) _ _ _ _ _] => unfold mbind, result_bind
  | |- context [@fmap (result _) _ _ _ _ _] => unfold fmap, result_fmap
  | |- context [@mret (result _) _ _ _] => unfold mret, result_ret
  | |- context [ok_or _ _] => unfold ok_or
  | |- context [map_err _ _] => unfold map_err
  | |- context [guard_err _ _] => unfold guard_err
  end.

Ltac inv_res :=
  unfold_res;
  repeat (case_match; simplify_eq/=; try discriminate).

(** Boolean tests of the source, turned into the propositions they decide. *)
Ltac bool_to_prop :=
  repeat match goal with
  | H : (_ && _) = true |- _ => apply andb_prop in H as [? ?]
  | H : (_ && _) = false |- _ => apply andb_false_iff in H as [?|?]
  | H : (_ || _) = true |- _ => apply orb_prop in H as [?|?]
  | H : (_ || _) = false |- _ => apply orb_false_elim in H as [? ?]
  | H : negb _ = true |- _ => apply negb_true_iff in H
  | H : negb _ = false |- _ => apply negb_false_iff in H
  | H : (_ =? _) = true |- _ => apply Z.eqb_eq in H
  | H : (_ =? _) = false |- _ => apply Z.eqb_neq in H
  | H : (_ <? _) = true |- _ => apply Z.ltb_lt in H
  | H : (_ <? _) = false |- _ => apply Z.ltb_ge in H
  | H : (_ <=? _) = true |- _ => apply Z.leb_le in H
  | H : (_ <=? _) = false |- _ => apply Z.leb_gt in H
  | H : (_ >? _) = true |- _ => rewrite Z.gtb_ltb in H
  | H : (_ >? _) = false |- _ => rewrite Z.gtb_ltb in H
  | H : (_ >=? _) = true |- _ => rewrite Z.geb_leb in H
  | H : (_ >=? _) = false |- _ => rewrite Z.geb_leb in H
  | H : bool_decide _ = true |- _ => apply bool_decide_eq_true_1 in H
  | H : bool_decide _ = false |- _ => apply bool_decide_eq_false_1 in H
  end.

(** Splits on the booleans a [lia]-style goal tests. *)
Ltac zcases :=
  repeat match goal with
  | |- context [?a =? ?b] => destruct (Z.eqb_spec a b)
  | |- context [?a <? ?b] => destruct (Z.ltb_spec a b)
  | |- context [?a <=? ?b] => destruct (Z.leb_spec a b)
  end.

(** The database of this development: facts a component proves about the
    ranges and shapes of its values, for [auto with gateway]. *)
Create HintDb gateway.

(** ** Generic lemmas *)

Lemma res_bind_Ok {E A B} (r : result E A) (k : A -> result E B) b :
  mbind k r = Ok b <-> exists a, r = Ok a /\ k a = Ok b.
Proof. destruct r as [a|e]; split; [by exists a|by intros (? & [= <-] & ?)|done|by intros (? & [=] & _)]. Qed.
Lemma ok_or_Ok {E A} (o : option A) (e : E) a : ok_or o e = Ok a <-> o = Some a.
Proof. destruct o; split; by intros [= ->]. Qed.
Lemma guard_err_Ok {E} (b : bool) (e : E) u : guard_err b e = Ok u <-> b = false.
Proof. destruct b, u; by split. Qed.
Lemma map_err_Ok {E F A} (f : E -> F) (r : result E A) a : map_err f r = Ok a <-> r = Ok a.
Proof. destruct r; split; by intros [= ->]. Qed.

Lemma collect_Ok {E A B} (f : A -> result E B) l ys :
  collect f l = Ok ys <-> Forall2 (fun x y => f x = Ok y) l ys.
Proof.
  revert ys; induction l as [|x l IH]; intros ys; simpl.
  - split; [intros [= <-]; constructor | intros H; by inversion H].
  - split.
    + intros H. inv_res. constructor; [done|]. by apply IH.
    + intros H. inversion H as [|? ? ? ? Hx Hl]; subst.
      apply IH in Hl. cbn. by rewrite Hx; cbn; rewrite Hl.
Qed.

Lemma collect_Err {E A B} (f : A -> result E B) l e :
  collect f l = Err e ->
  exists l1 x l2, l = l1 ++ x :: l2 /\ f x = Err e /\ Forall (fun y => is_ok (f y)) l1.
Proof.
  induction l as [|x l IH]; simpl; [done|]. intros H.
  destruct (f x) as [y|e'] eqn:Hx; cbn in H.
  - destruct (collect f l) as [ys|e'] eqn:Hl; cbn in H; simplify_eq.
    destruct IH as (l1 & z & l2 & -> & Hz & Hl1); [done|].
    exists (x :: l1), z, l2. split_and!; [done..|].
    constructor; [by rewrite Hx | done].
  - simplify_eq. exists [], x, l. by split_and!.
Qed.

Lemma collect_length {E A B} (f : A -> result E B) l ys :
  collect f l = Ok ys -> length ys = length l.
Proof. intros H%collect_Ok. symmetry. by eapply Forall2_length. Qed.

(** The single, none, many split of [match slice { [x] => .., [] => .., many => .. }]. *)
Lemma list_one_or_more {A} (l : list A) :
  l = [] \/ (exists x, l = [x]) \/ (1 < Z.of_nat (length l)).
Proof.
  destruct l as [|x [|y l]]; [by left | by right; left; exists x | right; right].
  simpl; lia.
Qed.
