(* ===== verification/RustStd.v ===== *)
(** * The Rust standard library, as far as the gateway uses it

    Fixed-width integers as [Z] with their checked and saturating forms,
    bytes, UTF-8 strings as byte strings, decimal text, and the sorting,
    selection and ordered-collection routines of [Vec], [Iterator],
    [BTreeSet] and [BTreeMap]. *)

From Stdlib Require Import Ascii String Strings.Byte Sorting.Sorted Permutation.
From stdpp Require Import gmap sorting.
From S2P Require Import Prelude.

Local Open Scope Z_scope.

(** ** Integers *)

Definition U8_MAX : Z := 2 ^ 8 - 1.
Definition U16_MAX : Z := 2 ^ 16 - 1.
Definition U32_MAX : Z := 2 ^ 32 - 1.
Definition U64_MAX : Z := 2 ^ 64 - 1.
Definition I32_MAX : Z := 2 ^ 31 - 1.
Definition I64_MIN : Z := - 2 ^ 63.
Definition I64_MAX : Z := 2 ^ 63 - 1.
Definition I128_MIN : Z := - 2 ^ 127.
Definition I128_MAX : Z := 2 ^ 127 - 1.

Definition in_range (lo hi z : Z) : bool := (lo <=? z) && (z <=? hi).
Definition checked (lo hi z : Z) : option Z := if in_range lo hi z then Some z else None.
Definition saturate (lo hi z : Z) : Z := Z.max lo (Z.min hi z).

Definition u32_try_from (z : Z) : option Z := checked 0 U32_MAX z.
Definition u64_try_from (z : Z) : option Z := checked 0 U64_MAX z.
Definition i32_try_from (z : Z) : option Z := checked (- 2 ^ 31) I32_MAX z.
Definition u32_saturating_add (a b : Z) : Z := saturate 0 U32_MAX (a + b).
Definition i32_saturating_add (a b : Z) : Z := saturate (- I32_MAX - 1) I32_MAX (a + b).
Definition i32_saturating_sub (a b : Z) : Z := saturate (- I32_MAX - 1) I32_MAX (a - b).
Definition i64_saturating_add (a b : Z) : Z := saturate I64_MIN I64_MAX (a + b).
Definition i64_saturating_sub (a b : Z) : Z := saturate I64_MIN I64_MAX (a - b).
Definition i128_checked_mul (a b : Z) : option Z := checked I128_MIN I128_MAX (a * b).

(** [u32::try_from(v.len()).unwrap_or(u32::MAX)] *)
Definition len_u32 {A} (l : list A) : Z :=
  default U32_MAX (u32_try_from (Z.of_nat (length l))).

(** ** Bytes *)

#[export] Instance byte_eq_decision : EqDecision byte := Byte.byte_eq_dec.

Definition byte_Z (b : byte) : Z := Z.of_N (Byte.to_N b).
Definition byte_of_Z (z : Z) : byte :=
  default x00 (Byte.of_N (Z.to_N (z mod 256))).

(** [to_be_bytes]: the [n] low bytes of the two's complement, high first. *)
Fixpoint be_bytes (n : nat) (z : Z) : list byte :=
  match n with
  | O => []
  | S n => byte_of_Z (Z.shiftr z (8 * Z.of_nat n)) :: be_bytes n z
  end.

(** The big-endian value of a byte string. *)
Definition be_value (l : list byte) : Z :=
  fold_left (fun acc b => acc * 256 + byte_Z b) l 0.

(** ** Strings

    A [String] is its UTF-8 bytes, one [ascii] per byte. *)

Definition str_len (s : string) : Z := Z.of_nat (String.length s).
Definition as_bytes (s : string) : list byte := list_byte_of_string s.
Definition ascii_Z (c : ascii) : Z := Z.of_N (N_of_ascii c).

Fixpoint str_forallb (p : ascii -> bool) (s : string) : bool :=
  match s with
  | EmptyString => true
  | String c s => p c && str_forallb p s
  end.

Fixpoint str_map (f : ascii -> ascii) (s : string) : string :=
  match s with
  | EmptyString => EmptyString
  | String c s => String (f c) (str_map f s)
  end.

Definition is_ascii_digit (c : ascii) : bool := in_range 48 57 (ascii_Z c).
Definition is_ascii_uppercase (c : ascii) : bool := in_range 65 90 (ascii_Z c).
Definition is_ascii_lowercase (c : ascii) : bool := in_range 97 122 (ascii_Z c).
Definition is_ascii_alphanumeric (c : ascii) : bool :=
  is_ascii_digit c || is_ascii_uppercase c || is_ascii_lowercase c.

Definition ascii_of_Z (z : Z) : ascii := ascii_of_N (Z.to_N z).
Definition ascii_to_upper (c : ascii) : ascii :=
  if is_ascii_lowercase c then ascii_of_Z (ascii_Z c - 32) else c.
Definition ascii_to_lower (c : ascii) : ascii :=
  if is_ascii_uppercase c then ascii_of_Z (ascii_Z c + 32) else c.
Definition to_ascii_uppercase (s : string) : string := str_map ascii_to_upper s.
Definition to_ascii_lowercase (s : string) : string := str_map ascii_to_lower s.
Definition eq_ignore_ascii_case (a b : string) : bool :=
  bool_decide (to_ascii_lowercase a = to_ascii_lowercase b).

Fixpoint strip_prefix (p s : string) : option string :=
  match p, s with
  | EmptyString, _ => Some s
  | String a p, String b s => if Ascii.eqb a b then strip_prefix p s else None
  | String _ _, EmptyString => None
  end.

(** [str::trim] on UTF-8: the Unicode [White_Space] characters as their
    encodings, read from the front, and backwards from the end. *)
Definition ws1 (a : Z) : bool := in_range 9 13 a || (a =? 32).
Definition ws2 (a b : Z) : bool := (a =? 0xC2) && ((b =? 0x85) || (b =? 0xA0)).
Definition ws3 (a b c : Z) : bool :=
  ((a =? 0xE1) && (b =? 0x9A) && (c =? 0x80))
  || ((a =? 0xE2) && (b =? 0x80)
      && (in_range 0x80 0x8A c || (c =? 0xA8) || (c =? 0xA9) || (c =? 0xAF)))
  || ((a =? 0xE2) && (b =? 0x81) && (c =? 0x9F))
  || ((a =? 0xE3) && (b =? 0x80) && (c =? 0x80)).

Fixpoint trim_front (fuel : nat) (l : list ascii) : list ascii :=
  match fuel with
  | O => l
  | S fuel =>
      match l with
      | a :: t =>
          if ws1 (ascii_Z a) then trim_front fuel t
          else match t with
               | b :: t2 =>
                   if ws2 (ascii_Z a) (ascii_Z b) then trim_front fuel t2
                   else match t2 with
                        | c :: t3 =>
                            if ws3 (ascii_Z a) (ascii_Z b) (ascii_Z c)
                            then trim_front fuel t3 else l
                        | [] => l
                        end
               | [] => l
               end
      | [] => []
      end
  end.

Fixpoint trim_back (fuel : nat) (l : list ascii) : list ascii :=
  match fuel with
  | O => l
  | S fuel =>
      match l with
      | c :: t =>
          if ws1 (ascii_Z c) then trim_back fuel t
          else match t with
               | b :: t2 =>
                   if ws2 (ascii_Z b) (ascii_Z c) then trim_back fuel t2
                   else match t2 with
                        | a :: t3 =>
                            if ws3 (ascii_Z a) (ascii_Z b) (ascii_Z c)
                            then trim_back fuel t3 else l
                        | [] => l
                        end
               | [] => l
               end
      | [] => []
      end
  end.

Definition trim (s : string) : string :=
  let l := list_ascii_of_string s in
  let front := trim_front (length l) l in
  string_of_list_ascii (rev (trim_back (length front) (rev front))).

(** [str::chars().count()]: every byte that is not a UTF-8 continuation. *)
Definition chars_count (s : string) : Z :=
  Z.of_nat (length (List.filter (fun c => negb (in_range 0x80 0xBF (ascii_Z c)))
                                (list_ascii_of_string s))).

(** [str::chars().take(n)], on the same reading of UTF-8. *)
Fixpoint chars_take (n : nat) (s : string) : string :=
  match s with
  | EmptyString => EmptyString
  | String c s =>
      if in_range 0x80 0xBF (ascii_Z c) then String c (chars_take n s)
      else match n with
           | O => EmptyString
           | S n => String c (chars_take n s)
           end
  end.

(** ** Decimal text *)

Definition digit_char (d : Z) : ascii := ascii_of_Z (48 + d).
Definition digit_value (c : ascii) : Z := ascii_Z c - 48.

(** The value of a digit string read after [acc]. *)
Fixpoint digits_value (acc : Z) (s : string) : Z :=
  match s with
  | EmptyString => acc
  | String c s => digits_value (acc * 10 + digit_value c) s
  end.

Fixpoint dec_digits (fuel : nat) (n : Z) (acc : string) : string :=
  match fuel with
  | O => acc
  | S fuel =>
      let acc := String (digit_char (n mod 10)) acc in
      if n / 10 =? 0 then acc else dec_digits fuel (n / 10) acc
  end.

(** [to_string] of an unsigned and of a signed integer. *)
Definition dec_unsigned (n : Z) : string := dec_digits (S (Z.to_nat (Z.log2 n))) n "".
Definition dec_signed (n : Z) : string :=
  if n <? 0 then String "-"%char (dec_unsigned (- n)) else dec_unsigned n.

Definition all_digits (s : string) : bool := str_forallb is_ascii_digit s.

(** [str::parse::<i64>]: an optional sign, at least one digit, in range. *)
Definition parse_i64 (s : string) : option Z :=
  match s with
  | EmptyString => None
  | String c t =>
      if Ascii.eqb c "-"%char then
        if bool_decide (t = "") then None
        else if all_digits t then checked I64_MIN I64_MAX (- digits_value 0 t) else None
      else if Ascii.eqb c "+"%char then
        if bool_decide (t = "") then None
        else if all_digits t then checked I64_MIN I64_MAX (digits_value 0 t) else None
      else if all_digits s then checked I64_MIN I64_MAX (digits_value 0 s) else None
  end.

(** [trim_end_matches('0')], [trim_start_matches('0')] and left padding. *)
Fixpoint drop_zeros (l : list ascii) : list ascii :=
  match l with
  | c :: t => if Ascii.eqb c "0"%char then drop_zeros t else l
  | [] => []
  end.
Definition trim_start_zeros (s : string) : string :=
  string_of_list_ascii (drop_zeros (list_ascii_of_string s)).
Definition trim_end_zeros (s : string) : string :=
  string_of_list_ascii (rev (drop_zeros (rev (list_ascii_of_string s)))).
Fixpoint zeros (n : nat) : string :=
  match n with O => "" | S n => String "0"%char (zeros n) end.
Definition pad_zeros (width : nat) (s : string) : string :=
  String.append (zeros (width - String.length s)) s.

(** ** Ordering *)

(** [slice::sort_by]: a stable sort. *)
Fixpoint insert_by {A} (cmp : A -> A -> comparison) (x : A) (l : list A) : list A :=
  match l with
  | [] => [x]
  | y :: l' => match cmp x y with
               | Gt => y :: insert_by cmp x l'
               | _ => x :: y :: l'
               end
  end.
Definition sort_by {A} (cmp : A -> A -> comparison) (l : list A) : list A :=
  foldr (insert_by cmp) [] l.

(** [Iterator::max_by_key] keeps the last maximum, [min_by_key] the first
    minimum. *)
Definition max_by_key {A} (key : A -> Z) (l : list A) : option A :=
  fold_left (fun acc x =>
    match acc with
    | None => Some x
    | Some y => if key y <=? key x then Some x else acc
    end) l None.
Definition min_by_key {A} (key : A -> Z) (l : list A) : option A :=
  fold_left (fun acc x =>
    match acc with
    | None => Some x
    | Some y => if key x <? key y then Some x else acc
    end) l None.
Definition max_Z (l : list Z) : option Z := max_by_key (fun z => z) l.

(** [BTreeMap::insert] on a list of entries sorted by key, and
    [BTreeSet::insert]. *)
Fixpoint btree_insert {K V} (cmp : K -> K -> comparison) (k : K) (v : V)
    (l : list (K * V)) : list (K * V) :=
  match l with
  | [] => [(k, v)]
  | (k', v') :: l' =>
      match cmp k k' with
      | Lt => (k, v) :: (k', v') :: l'
      | Eq => (k', v) :: l'
      | Gt => (k', v') :: btree_insert cmp k v l'
      end
  end.
Definition btree_set {K} (cmp : K -> K -> comparison) (l : list K) : list K :=
  (fold_left (fun acc k => btree_insert cmp k tt acc) l []).*1.

(** The number of distinct strings: [BTreeSet<&str>::len]. *)
Definition distinct_count (l : list string) : Z :=
  Z.of_nat (size (list_to_set l : gset string)).

(** * Lemmas *)

(** ** Integers *)

Lemma in_range_spec lo hi z : in_range lo hi z = true <-> lo <= z <= hi.
Proof. unfold in_range. rewrite andb_true_iff, !Z.leb_le. done. Qed.

Lemma checked_Some lo hi z z' : checked lo hi z = Some z' <-> z' = z /\ lo <= z <= hi.
Proof.
  unfold checked. rewrite <- in_range_spec.
  destruct (in_range lo hi z); intuition congruence.
Qed.

Lemma checked_None lo hi z : checked lo hi z = None <-> ~ (lo <= z <= hi).
Proof. unfold checked. rewrite <- in_range_spec. destruct (in_range lo hi z); intuition congruence. Qed.

Lemma saturate_id lo hi z : lo <= z <= hi -> saturate lo hi z = z.
Proof. unfold saturate; lia. Qed.

Lemma saturate_range lo hi z : lo <= hi -> lo <= saturate lo hi z <= hi.
Proof. unfold saturate; lia. Qed.

Lemma saturate_le lo hi z z' : z <= z' -> saturate lo hi z <= saturate lo hi z'.
Proof. unfold saturate; lia. Qed.

Lemma len_u32_le {A} (l : list A) : 0 <= len_u32 l <= U32_MAX.
Proof.
  unfold len_u32, u32_try_from. destruct (checked _ _ _) as [z|] eqn:E; simpl.
  - apply checked_Some in E. lia.
  - unfold U32_MAX; lia.
Qed.

Lemma len_u32_min {A} (l : list A) : len_u32 l = Z.min U32_MAX (Z.of_nat (length l)).
Proof.
  unfold len_u32, u32_try_from. destruct (checked _ _ _) as [z|] eqn:E; simpl.
  - apply checked_Some in E. lia.
  - apply checked_None in E. lia.
Qed.

#[export] Hint Resolve len_u32_le saturate_range : gateway.

(** ** Bytes *)

Lemma byte_Z_range b : 0 <= byte_Z b < 256.
Proof. by destruct b. Qed.

Lemma byte_of_byte_Z b : byte_of_Z (byte_Z b) = b.
Proof. by destruct b. Qed.

Lemma byte_Z_of_Z z : byte_Z (byte_of_Z z) = z mod 256.
Proof.
  unfold byte_Z, byte_of_Z.
  pose proof (Z.mod_pos_bound z 256 ltac:(lia)) as Hz.
  destruct (Byte.of_N (Z.to_N (z mod 256))) as [b|] eqn:E; simpl.
  - apply Byte.to_of_N in E. rewrite E. lia.
  - apply Byte.of_N_None_iff in E. lia.
Qed.

Lemma byte_Z_inj a b : byte_Z a = byte_Z b -> a = b.
Proof. intros H. by rewrite <- (byte_of_byte_Z a), H, byte_of_byte_Z. Qed.

Lemma be_bytes_length n z : length (be_bytes n z) = n.
Proof. induction n as [|n IH]; simpl; congruence. Qed.

Lemma be_value_acc l acc :
  fold_left (fun acc b => acc * 256 + byte_Z b) l acc
  = acc * 256 ^ Z.of_nat (length l) + be_value l.
Proof.
  unfold be_value. revert acc. induction l as [|b l IH]; intros acc; simpl fold_left.
  - simpl. lia.
  - rewrite IH, (IH (0 * 256 + byte_Z b)).
    change (length (b :: l)) with (S (length l)).
    rewrite Nat2Z.inj_succ, Z.pow_succ_r by lia. ring.
Qed.

Lemma be_value_cons b l :
  be_value (b :: l) = byte_Z b * 256 ^ Z.of_nat (length l) + be_value l.
Proof. unfold be_value at 1. simpl. rewrite be_value_acc. f_equal. Qed.

Lemma be_value_range l : 0 <= be_value l < 256 ^ Z.of_nat (length l).
Proof.
  induction l as [|b l IH]; [by vm_compute|].
  rewrite be_value_cons. change (length (b :: l)) with (S (length l)).
  rewrite Nat2Z.inj_succ, Z.pow_succ_r by lia.
  pose proof (byte_Z_range b). nia.
Qed.

Lemma be_value_be_bytes n z : be_value (be_bytes n z) = z mod 256 ^ Z.of_nat n.
Proof.
  induction n as [|n IH]; [by rewrite Z.mod_1_r|].
  cbn [be_bytes]. rewrite be_value_cons, be_bytes_length, IH, byte_Z_of_Z.
  rewrite Z.shiftr_div_pow2 by lia.
  replace (2 ^ (8 * Z.of_nat n)) with (256 ^ Z.of_nat n)
    by (rewrite Z.pow_mul_r by lia; done).
  rewrite Nat2Z.inj_succ, Z.pow_succ_r by lia.
  rewrite (Z.mul_comm 256), Z.rem_mul_r by lia. ring.
Qed.

Lemma be_bytes_inj n a b :
  0 <= a < 256 ^ Z.of_nat n -> 0 <= b < 256 ^ Z.of_nat n ->
  be_bytes n a = be_bytes n b -> a = b.
Proof.
  intros Ha Hb H. apply (f_equal be_value) in H.
  rewrite !be_value_be_bytes, !Z.mod_small in H by lia. done.
Qed.

(** Two's complement: the signed values of the width are told apart. *)
Lemma be_bytes_inj_signed n a b (half := 256 ^ Z.of_nat n / 2) :
  (0 < n)%nat -> - half <= a < half -> - half <= b < half ->
  be_bytes n a = be_bytes n b -> a = b.
Proof.
  intros Hn Ha Hb H. apply (f_equal be_value) in H.
  rewrite !be_value_be_bytes in H.
  set (m := 256 ^ Z.of_nat n) in *.
  assert (Hm : 0 < m) by (unfold m; lia).
  pose proof (Z.div_mod a m ltac:(lia)). pose proof (Z.div_mod b m ltac:(lia)).
  assert (2 * half <= m) by (unfold half; pose proof (Z.mul_div_le m 2); lia).
  assert (a - b = m * (a / m - b / m)) by lia.
  assert (- m < m * (a / m - b / m) < m) by lia.
  assert (a / m - b / m = 0) by nia. lia.
Qed.

(** ** Strings *)

Lemma ascii_Z_range c : 0 <= ascii_Z c < 256.
Proof. unfold ascii_Z. pose proof (N_ascii_bounded c). lia. Qed.

Lemma ascii_Z_of_Z z : 0 <= z < 256 -> ascii_Z (ascii_of_Z z) = z.
Proof. intros Hz. unfold ascii_Z, ascii_of_Z. rewrite N_ascii_embedding; lia. Qed.

Lemma ascii_of_ascii_Z c : ascii_of_Z (ascii_Z c) = c.
Proof. unfold ascii_of_Z, ascii_Z. rewrite N2Z.id. apply ascii_N_embedding. Qed.

Lemma ascii_Z_inj a b : ascii_Z a = ascii_Z b -> a = b.
Proof. intros H. by rewrite <- (ascii_of_ascii_Z a), H, ascii_of_ascii_Z. Qed.

Lemma str_app_cons c a b : String.append (String c a) b = String c (String.append a b).
Proof. done. Qed.

Lemma str_length_app a b : String.length (String.append a b) = (String.length a + String.length b)%nat.
Proof. induction a as [|c a IH]; [done|]. rewrite str_app_cons. simpl. congruence. Qed.

Lemma str_app_nil_r a : String.append a "" = a.
Proof. induction a as [|c a IH]; [done|]. rewrite str_app_cons. congruence. Qed.

Lemma str_app_assoc a b c :
  String.append a (String.append b c) = String.append (String.append a b) c.
Proof. induction a as [|x a IH]; [done|]. rewrite !str_app_cons. congruence. Qed.

Lemma str_forallb_app p a b : str_forallb p (String.append a b) = str_forallb p a && str_forallb p b.
Proof.
  induction a as [|c a IH]; [done|]. rewrite str_app_cons. simpl. by rewrite IH, andb_assoc.
Qed.

Lemma str_forallb_map p f s : str_forallb p (str_map f s) = str_forallb (fun c => p (f c)) s.
Proof. induction s as [|c s IH]; simpl; congruence. Qed.

Lemma str_map_length f s : String.length (str_map f s) = String.length s.
Proof. induction s as [|c s IH]; simpl; congruence. Qed.

Lemma str_map_map_id f s : (forall c, f (f c) = f c) -> str_map f (str_map f s) = str_map f s.
Proof. intros Hf. induction s as [|c s IH]; simpl; congruence. Qed.

Lemma str_forallb_impl (p q : ascii -> bool) s :
  (forall c, p c = true -> q c = true) -> str_forallb p s = true -> str_forallb q s = true.
Proof.
  intros Hpq. induction s as [|c s IH]; simpl; [done|].
  rewrite !andb_true_iff. intros [? ?]; auto.
Qed.

Lemma str_map_id_on f p s :
  (forall c, p c = true -> f c = c) -> str_forallb p s = true -> str_map f s = s.
Proof.
  intros Hf. induction s as [|c s IH]; simpl; [done|].
  rewrite andb_true_iff. intros [? ?]. f_equal; auto.
Qed.

(** A fact about one byte, checked on all 256 of them. *)
Lemma ascii_upper_idem c : ascii_to_upper (ascii_to_upper c) = ascii_to_upper c.
Proof. by destruct c as [[] [] [] [] [] [] [] []]. Qed.

Lemma ascii_lower_idem c : ascii_to_lower (ascii_to_lower c) = ascii_to_lower c.
Proof. by destruct c as [[] [] [] [] [] [] [] []]. Qed.

Lemma to_ascii_lowercase_idem s : to_ascii_lowercase (to_ascii_lowercase s) = to_ascii_lowercase s.
Proof. apply str_map_map_id, ascii_lower_idem. Qed.

Lemma to_ascii_uppercase_idem s : to_ascii_uppercase (to_ascii_uppercase s) = to_ascii_uppercase s.
Proof. apply str_map_map_id, ascii_upper_idem. Qed.

Lemma list_ascii_forallb p s : forallb p (list_ascii_of_string s) = str_forallb p s.
Proof. induction s as [|c s IH]; simpl; congruence. Qed.

Lemma as_bytes_inj a b : as_bytes a = as_bytes b -> a = b.
Proof.
  intros H. rewrite <- (string_of_list_byte_of_string a), <- (string_of_list_byte_of_string b).
  unfold as_bytes in H. by rewrite H.
Qed.

Lemma as_bytes_length s : length (as_bytes s) = String.length s.
Proof.
  unfold as_bytes, list_byte_of_string. rewrite List.length_map.
  induction s as [|c s IH]; simpl; congruence.
Qed.

Lemma strip_prefix_Some p s t : strip_prefix p s = Some t <-> s = String.append p t.
Proof.
  revert s. induction p as [|a p IH]; intros s; simpl.
  - change (String.append "" t) with t. split; congruence.
  - destruct s as [|b s]; [done|].
    destruct (Ascii.eqb_spec a b) as [->|Hne].
    + rewrite IH, str_app_cons. split; congruence.
    + rewrite str_app_cons. split; [done|]. intros [=]; congruence.
Qed.

(** *** Trimming *)

(** Text made of non-blank ASCII is left alone. *)
Definition not_blank (c : ascii) : bool := in_range 33 126 (ascii_Z c).

Lemma trim_front_id fuel l : forallb not_blank l = true -> trim_front fuel l = l.
Proof.
  destruct fuel as [|fuel], l as [|a t]; simpl; try done.
  rewrite andb_true_iff. unfold not_blank at 1. rewrite in_range_spec. intros [Ha _].
  assert (ws1 (ascii_Z a) = false) as ->.
  { unfold ws1, in_range. zcases; simpl; try lia; done. }
  destruct t as [|b t2]; [done|].
  assert (ws2 (ascii_Z a) (ascii_Z b) = false) as ->.
  { unfold ws2. zcases; simpl; try lia; done. }
  destruct t2 as [|c t3]; [done|].
  assert (ws3 (ascii_Z a) (ascii_Z b) (ascii_Z c) = false) as ->; [|done].
  unfold ws3. destruct (Z.eqb_spec (ascii_Z a) 0xE1), (Z.eqb_spec (ascii_Z a) 0xE2),
    (Z.eqb_spec (ascii_Z a) 0xE3); simpl; try lia; done.
Qed.

Lemma trim_back_id fuel l : forallb not_blank l = true -> trim_back fuel l = l.
Proof.
  destruct fuel as [|fuel], l as [|c t]; simpl; try done.
  rewrite andb_true_iff. unfold not_blank at 1. rewrite in_range_spec. intros [Hc Ht].
  assert (ws1 (ascii_Z c) = false) as ->.
  { unfold ws1, in_range. zcases; simpl; try lia; done. }
  destruct t as [|b t2]; [done|]. simpl in Ht. apply andb_prop in Ht as [Hb Ht].
  unfold not_blank in Hb. apply in_range_spec in Hb.
  assert (ws2 (ascii_Z b) (ascii_Z c) = false) as ->.
  { unfold ws2. zcases; simpl; try lia; done. }
  destruct t2 as [|a t3]; [done|]. simpl in Ht. apply andb_prop in Ht as [Ha _].
  unfold not_blank in Ha. apply in_range_spec in Ha.
  assert (ws3 (ascii_Z a) (ascii_Z b) (ascii_Z c) = false) as ->; [|done].
  unfold ws3. destruct (Z.eqb_spec (ascii_Z a) 0xE1), (Z.eqb_spec (ascii_Z a) 0xE2),
    (Z.eqb_spec (ascii_Z a) 0xE3); simpl; try lia; done.
Qed.

Lemma trim_id s : str_forallb not_blank s = true -> trim s = s.
Proof.
  intros H. unfold trim. rewrite <- list_ascii_forallb in H.
  rewrite trim_front_id by done. rewrite trim_back_id.
  - by rewrite rev_involutive, string_of_list_ascii_of_string.
  - rewrite forallb_forall in *. intros x Hx%in_rev. auto.
Qed.

(** ** Decimal text *)

Lemma digits_value_acc s acc :
  digits_value acc s = acc * 10 ^ str_len s + digits_value 0 s.
Proof.
  unfold str_len. revert acc. induction s as [|c s IH]; intros acc.
  - simpl. lia.
  - cbn [digits_value String.length]. rewrite IH, (IH (0 * 10 + _)).
    rewrite Nat2Z.inj_succ, Z.pow_succ_r by lia. ring.
Qed.

Lemma digits_value_cons c s :
  digits_value 0 (String c s) = digit_value c * 10 ^ str_len s + digits_value 0 s.
Proof. cbn [digits_value]. rewrite digits_value_acc. f_equal. Qed.

Lemma digits_value_app a b :
  digits_value 0 (String.append a b) = digits_value 0 a * 10 ^ str_len b + digits_value 0 b.
Proof.
  induction a as [|c a IH]; [simpl; rewrite Z.mul_0_l; done|].
  rewrite str_app_cons, !digits_value_cons, IH. unfold str_len. rewrite str_length_app.
  rewrite Nat2Z.inj_add, Z.pow_add_r by lia. ring.
Qed.

Lemma digit_value_range c : is_ascii_digit c = true -> 0 <= digit_value c <= 9.
Proof. unfold is_ascii_digit, digit_value. rewrite in_range_spec. lia. Qed.

Lemma digit_value_char d : 0 <= d <= 9 -> digit_value (digit_char d) = d.
Proof. intros. unfold digit_value, digit_char. rewrite ascii_Z_of_Z; lia. Qed.

Lemma digit_char_digit d : 0 <= d <= 9 -> is_ascii_digit (digit_char d) = true.
Proof.
  intros. unfold is_ascii_digit, digit_char. rewrite in_range_spec, ascii_Z_of_Z; lia.
Qed.

Lemma digits_value_range s : all_digits s = true -> 0 <= digits_value 0 s < 10 ^ str_len s.
Proof.
  induction s as [|c s IH]; [by vm_compute|]. unfold all_digits. simpl.
  rewrite andb_true_iff. intros [Hc%digit_value_range Hs%IH]. rewrite digits_value_acc.
  unfold str_len in *. cbn [String.length]. rewrite Nat2Z.inj_succ, Z.pow_succ_r by lia. nia.
Qed.

Lemma digits_value_inj a b :
  all_digits a = true -> all_digits b = true -> String.length a = String.length b ->
  digits_value 0 a = digits_value 0 b -> a = b.
Proof.
  revert b. induction a as [|x a IH]; intros [|y b]; try done.
  unfold all_digits. cbn [str_forallb String.length].
  rewrite !andb_true_iff. intros [Hx Ha] [Hy Hb] Hlen.
  rewrite !digits_value_cons. intros Hv.
  pose proof (digits_value_range _ Ha). pose proof (digits_value_range _ Hb).
  assert (Hl : str_len a = str_len b) by (unfold str_len; lia). rewrite Hl in *.
  assert (Hd : digit_value x = digit_value y) by nia.
  f_equal; [|apply IH; try done; lia].
  apply ascii_Z_inj. unfold digit_value in Hd. lia.
Qed.

Lemma dec_digits_value fuel n acc :
  0 <= n < 2 ^ Z.of_nat fuel ->
  digits_value 0 (dec_digits fuel n acc) = n * 10 ^ str_len acc + digits_value 0 acc.
Proof.
  revert n acc. induction fuel as [|fuel IH]; intros n acc Hn.
  - replace n with 0 by (simpl in Hn; lia). simpl. lia.
  - cbn [dec_digits]. rewrite Nat2Z.inj_succ, Z.pow_succ_r in Hn by lia.
    pose proof (Z.mod_pos_bound n 10 ltac:(lia)). pose proof (Z.div_mod n 10 ltac:(lia)).
    assert (0 <= n / 10 <= n / 2) by (split; [apply Z.div_pos|apply Z.div_le_compat_l]; lia).
    assert (n / 2 < 2 ^ Z.of_nat fuel) by (apply Z.div_lt_upper_bound; lia).
    destruct (Z.eqb_spec (n / 10) 0) as [E|E].
    + rewrite digits_value_cons, digit_value_char by lia.
      rewrite E in *. nia.
    + rewrite IH by lia. rewrite digits_value_cons, digit_value_char by lia.
      unfold str_len. cbn [String.length]. rewrite Nat2Z.inj_succ, Z.pow_succ_r by lia.
      nia.
Qed.

Lemma dec_digits_digits fuel n acc :
  all_digits acc = true -> all_digits (dec_digits fuel n acc) = true.
Proof.
  revert n acc. induction fuel as [|fuel IH]; intros n acc Hacc; [done|].
  cbn [dec_digits]. pose proof (Z.mod_pos_bound n 10 ltac:(lia)).
  assert (all_digits (String (digit_char (n mod 10)) acc) = true).
  { unfold all_digits in *. simpl. rewrite digit_char_digit by lia. done. }
  destruct (n / 10 =? 0); auto.
Qed.

(** A printed number starts with its leading digit, never with a zero. *)
Lemma dec_digits_head fuel n acc :
  0 < n < 2 ^ Z.of_nat fuel ->
  exists c t, dec_digits fuel n acc = String c t /\ 0 < digit_value c.
Proof.
  revert n acc. induction fuel as [|fuel IH]; intros n acc Hn; [simpl in Hn; lia|].
  cbn [dec_digits]. rewrite Nat2Z.inj_succ, Z.pow_succ_r in Hn by lia.
  pose proof (Z.mod_pos_bound n 10 ltac:(lia)). pose proof (Z.div_mod n 10 ltac:(lia)).
  assert (0 <= n / 10 <= n / 2) by (split; [apply Z.div_pos|apply Z.div_le_compat_l]; lia).
  assert (n / 2 < 2 ^ Z.of_nat fuel) by (apply Z.div_lt_upper_bound; lia).
  destruct (Z.eqb_spec (n / 10) 0) as [E|E].
  - eexists _, _. split; [done|]. rewrite digit_value_char by lia. lia.
  - apply IH. lia.
Qed.

Lemma log2_fuel n : 0 <= n -> n < 2 ^ Z.of_nat (S (Z.to_nat (Z.log2 n))).
Proof.
  intros Hn. rewrite Nat2Z.inj_succ, Z2Nat.id by apply Z.log2_nonneg.
  destruct (Z.eq_dec n 0) as [->|]; [by vm_compute|]. apply Z.log2_spec. lia.
Qed.

Lemma dec_unsigned_value n : 0 <= n -> digits_value 0 (dec_unsigned n) = n.
Proof.
  intros Hn. unfold dec_unsigned. pose proof (log2_fuel n Hn).
  rewrite dec_digits_value by lia. change (n * 1 + 0 = n). lia.
Qed.

Lemma dec_unsigned_digits n : all_digits (dec_unsigned n) = true.
Proof. by apply dec_digits_digits. Qed.

Lemma dec_unsigned_head n : 0 < n -> exists c t, dec_unsigned n = String c t /\ 0 < digit_value c.
Proof. intros Hn. apply dec_digits_head. pose proof (log2_fuel n). lia. Qed.

Lemma dec_unsigned_nonempty n : 0 <= n -> dec_unsigned n <> "".
Proof.
  intros Hn. destruct (Z.eq_dec n 0) as [->|]; [done|].
  destruct (dec_unsigned_head n) as (c & t & -> & _); [lia|done].
Qed.

Lemma dec_unsigned_inj a b : 0 <= a -> 0 <= b -> dec_unsigned a = dec_unsigned b -> a = b.
Proof.
  intros Ha Hb H. rewrite <- (dec_unsigned_value a), <- (dec_unsigned_value b) by done.
  by rewrite H.
Qed.

(** The canonical digit string of a value is the only one without a leading
    zero. *)
Lemma dec_unsigned_canonical c t :
  all_digits (String c t) = true -> 0 < digit_value c ->
  dec_unsigned (digits_value 0 (String c t)) = String c t.
Proof.
  intros Hd Hc. set (s := String c t) in *. set (n := digits_value 0 s).
  pose proof (digits_value_range s Hd) as [Hn0 Hn1].
  assert (Hlow : 10 ^ str_len t <= n).
  { unfold n, s. rewrite digits_value_cons.
    unfold all_digits in Hd. cbn [str_forallb] in Hd. apply andb_prop in Hd as [_ Hd].
    pose proof (digits_value_range t Hd). nia. }
  destruct (dec_unsigned_head n) as (d & u & Hu & Hd'); [unfold str_len in *; lia|].
  pose proof (dec_unsigned_digits n) as Hdig. pose proof (dec_unsigned_value n Hn0) as Hval.
  rewrite Hu in *.
  pose proof (digits_value_range _ Hdig) as [_ Hu1].
  assert (Hu2 : 10 ^ str_len u <= n).
  { rewrite <- Hval, digits_value_cons.
    unfold all_digits in Hdig. cbn [str_forallb] in Hdig. apply andb_prop in Hdig as [_ Hdig].
    pose proof (digits_value_range u Hdig). nia. }
  fold n in Hn1. rewrite Hval in Hu1.
  assert (str_len (String d u) = str_len s).
  { unfold str_len in *. cbn [String.length s] in *. unfold s in *. cbn [String.length] in *.
    rewrite !Nat2Z.inj_succ in *.
    destruct (Z.lt_trichotomy (Z.of_nat (String.length u)) (Z.of_nat (String.length t)))
      as [Hl|[Hl|Hl]]; [|lia|].
    - pose proof (Z.pow_le_mono_r 10 (Z.succ (Z.of_nat (String.length u)))
        (Z.of_nat (String.length t)) ltac:(lia) ltac:(lia)). lia.
    - pose proof (Z.pow_le_mono_r 10 (Z.succ (Z.of_nat (String.length t)))
        (Z.of_nat (String.length u)) ltac:(lia) ltac:(lia)). lia. }
  apply digits_value_inj; try done. unfold str_len in *; lia.
Qed.

Lemma zeros_length n : String.length (zeros n) = n.
Proof. induction n; simpl; congruence. Qed.

Lemma zeros_value n : digits_value 0 (zeros n) = 0.
Proof. induction n as [|n IH]; [done|]. cbn [zeros]. rewrite digits_value_cons, IH. done. Qed.

Lemma zeros_digits n : all_digits (zeros n) = true.
Proof. by induction n. Qed.

Lemma drop_zeros_split l :
  exists k, l = repeat "0"%char k ++ drop_zeros l
            /\ (forall c t, drop_zeros l = c :: t -> c <> "0"%char).
Proof.
  induction l as [|c l IH]; simpl; [by exists O|].
  destruct (Ascii.eqb_spec c "0"%char) as [->|Hne].
  - destruct IH as (k & Hk & Hh). exists (S k). split; [simpl; congruence|done].
  - exists O. split; [done|]. intros ? ? [= <- <-]. done.
Qed.

Lemma string_of_zeros k : string_of_list_ascii (repeat "0"%char k) = zeros k.
Proof. induction k as [|k IH]; simpl; congruence. Qed.

Lemma string_of_list_ascii_app a b :
  string_of_list_ascii (a ++ b) = String.append (string_of_list_ascii a) (string_of_list_ascii b).
Proof. induction a as [|c a IH]; simpl; [done|]. by rewrite IH, str_app_cons. Qed.

Lemma trim_start_zeros_split s :
  exists k, s = String.append (zeros k) (trim_start_zeros s)
            /\ (forall c t, trim_start_zeros s = String c t -> c <> "0"%char).
Proof.
  destruct (drop_zeros_split (list_ascii_of_string s)) as (k & Hk & Hh).
  exists k. unfold trim_start_zeros. split.
  - rewrite <- (string_of_list_ascii_of_string s) at 1. rewrite Hk at 1.
    by rewrite string_of_list_ascii_app, string_of_zeros.
  - intros c t Ht. destruct (drop_zeros _) as [|x l] eqn:E; [done|].
    simpl in Ht. simplify_eq. by eapply Hh.
Qed.

Lemma list_ascii_of_string_app a b :
  list_ascii_of_string (String.append a b) = list_ascii_of_string a ++ list_ascii_of_string b.
Proof. induction a as [|c a IH]; [done|]. rewrite str_app_cons. simpl. congruence. Qed.

Lemma trim_end_zeros_split s :
  exists k, s = String.append (trim_end_zeros s) (zeros k).
Proof.
  destruct (drop_zeros_split (rev (list_ascii_of_string s))) as (k & Hk & _).
  exists k. unfold trim_end_zeros.
  rewrite <- (string_of_list_ascii_of_string s) at 1.
  rewrite <- (rev_involutive (list_ascii_of_string s)) at 1. rewrite Hk at 1.
  rewrite rev_app_distr, string_of_list_ascii_app. f_equal.
  rewrite <- string_of_zeros. f_equal. clear. induction k as [|k IH]; [done|].
  simpl. rewrite IH. clear IH. induction k as [|k IH]; simpl; congruence.
Qed.

Lemma trim_end_zeros_idem s : trim_end_zeros (trim_end_zeros s) = trim_end_zeros s.
Proof.
  unfold trim_end_zeros. rewrite list_ascii_of_string_of_list_ascii, rev_involutive.
  do 2 f_equal. set (l := rev _). clearbody l. induction l as [|c l IH]; simpl; [done|].
  destruct (Ascii.eqb c "0") eqn:E; [done|]. simpl. by rewrite E.
Qed.

(** [str::split_at]. *)
Lemma substring_split n s :
  (n <= String.length s)%nat ->
  s = String.append (String.substring 0 n s) (String.substring n (String.length s - n) s)
  /\ String.length (String.substring 0 n s) = n
  /\ String.length (String.substring n (String.length s - n) s) = (String.length s - n)%nat.
Proof.
  assert (forall t, String.substring 0 (String.length t) t = t) as Hall
    by (induction t as [|a t IHt]; simpl; congruence).
  revert n. induction s as [|c s IH]; intros [|n] Hn; try (simpl in Hn; lia); try done.
  - rewrite Nat.sub_0_r, Hall. done.
  - simpl in Hn. destruct (IH n) as (H1 & H2 & H3); [lia|].
    cbn [String.substring String.length]. rewrite Nat.sub_succ, str_app_cons, <- H1, H2, H3.
    done.
Qed.

(** Printing what a digit string means drops its leading zeros and changes
    nothing else. *)
Lemma dec_unsigned_trim s :
  all_digits s = true -> 0 < digits_value 0 s ->
  dec_unsigned (digits_value 0 s) = trim_start_zeros s.
Proof.
  intros Hd Hv. destruct (trim_start_zeros_split s) as (k & Hs & Hh).
  rewrite Hs in Hd, Hv |- * at 1. unfold all_digits in Hd. rewrite str_forallb_app in Hd.
  apply andb_prop in Hd as [_ Hd].
  rewrite digits_value_app, zeros_value in *.
  destruct (trim_start_zeros s) as [|c t] eqn:E; [simpl in Hv; lia|].
  rewrite Z.mul_0_l, Z.add_0_l. apply dec_unsigned_canonical; [done|].
  assert (Hc : is_ascii_digit c = true) by (simpl in Hd; by apply andb_prop in Hd as [? _]).
  pose proof (digit_value_range c Hc). specialize (Hh c t eq_refl).
  destruct (Z.eq_dec (digit_value c) 0) as [E0|]; [|lia].
  contradict Hh. apply ascii_Z_inj. unfold digit_value in E0.
  change (ascii_Z "0") with 48. lia.
Qed.

Lemma parse_i64_digits s :
  s <> "" -> all_digits s = true ->
  parse_i64 s = checked I64_MIN I64_MAX (digits_value 0 s).
Proof.
  intros Hne Hd. destruct s as [|c t]; [done|]. unfold parse_i64.
  assert (Hc : is_ascii_digit c = true).
  { unfold all_digits in Hd. simpl in Hd. by apply andb_prop in Hd as [? _]. }
  destruct (Ascii.eqb_spec c "-") as [->|]; [done|].
  destruct (Ascii.eqb_spec c "+") as [->|]; [done|].
  by rewrite Hd.
Qed.

Lemma parse_i64_dec_signed n : I64_MIN <= n <= I64_MAX -> parse_i64 (dec_signed n) = Some n.
Proof.
  intros Hn. unfold dec_signed. destruct (Z.ltb_spec n 0) as [Hlt|Hge].
  - unfold parse_i64. simpl. rewrite bool_decide_eq_false_2 by (apply dec_unsigned_nonempty; lia).
    rewrite dec_unsigned_digits, dec_unsigned_value by lia.
    apply checked_Some. lia.
  - rewrite parse_i64_digits by (try apply dec_unsigned_digits; apply dec_unsigned_nonempty; lia).
    rewrite dec_unsigned_value by lia. apply checked_Some. lia.
Qed.

(** ** Ordering *)

Section sort_by.
Context {A : Type} (cmp : A -> A -> comparison).

Lemma insert_by_perm x l : insert_by cmp x l ≡ₚ x :: l.
Proof.
  induction l as [|y l IH]; simpl; [done|].
  destruct (cmp x y); [done..|]. rewrite IH. apply Permutation_swap.
Qed.

Lemma sort_by_perm l : sort_by cmp l ≡ₚ l.
Proof.
  induction l as [|x l IH]; simpl; [done|]. by rewrite insert_by_perm, IH.
Qed.

Lemma sort_by_length l : length (sort_by cmp l) = length l.
Proof. by rewrite sort_by_perm. Qed.

(** A comparator that is a total preorder on the elements of a list. *)
Definition cmp_le (x y : A) : Prop := cmp x y <> Gt.
Definition total_preorder_on (l : list A) : Prop :=
  (forall x y, x ∈ l -> y ∈ l -> cmp x y = Gt -> cmp_le y x)
  /\ (forall x y z, x ∈ l -> y ∈ l -> z ∈ l -> cmp_le x y -> cmp_le y z -> cmp_le x z).

Lemma total_preorder_tail x l : total_preorder_on (x :: l) -> total_preorder_on l.
Proof. intros [H1 H2]. split; intros; [apply H1|eapply H2]; set_solver. Qed.

Lemma insert_by_sorted x l :
  total_preorder_on (x :: l) -> StronglySorted cmp_le l ->
  StronglySorted cmp_le (insert_by cmp x l).
Proof.
  induction l as [|y l IH]; intros Hpo Hs; simpl; [by repeat constructor|].
  apply StronglySorted_inv in Hs as [Hs Hy]. pose proof Hpo as [Htot Htr].
  destruct (cmp x y) eqn:Exy.
  3: {
    constructor.
    - apply IH; [|done]. split; intros; [apply Htot|eapply Htr]; set_solver.
    - rewrite Forall_forall in *. intros z Hz. rewrite insert_by_perm in Hz.
      apply elem_of_cons in Hz as [->|Hz]; [|by apply Hy].
      apply Htot; set_solver. }
  all: (constructor; [by constructor|]; constructor; [unfold cmp_le; congruence|];
        rewrite Forall_forall in *; intros z Hz;
        eapply (Htr x y z); [set_solver..|unfold cmp_le; congruence|by apply Hy]).
Qed.

Lemma sort_by_sorted l : total_preorder_on l -> StronglySorted cmp_le (sort_by cmp l).
Proof.
  induction l as [|x l IH]; intros Hpo; simpl; [constructor|].
  apply insert_by_sorted; [|by apply IH, total_preorder_tail with x].
  destruct Hpo as [H1 H2].
  assert (forall z, z ∈ x :: sort_by cmp l -> z ∈ x :: l) as Hsub.
  { intros z. by rewrite !elem_of_cons, sort_by_perm. }
  split; [intros a b Ha Hb; apply H1|intros a b c Ha Hb Hc; apply (H2 a b c)]; auto.
Qed.
End sort_by.

Section select.
Context {A : Type} (key : A -> Z).

Definition sel_max (acc : option A) (x : A) : option A :=
  match acc with None => Some x | Some y => if key y <=? key x then Some x else acc end.
Definition sel_min (acc : option A) (x : A) : option A :=
  match acc with None => Some x | Some y => if key x <? key y then Some x else acc end.

Lemma max_by_key_fold l acc m :
  fold_left sel_max l acc = Some m ->
  (acc = Some m \/ m ∈ l)
  /\ (forall y, acc = Some y -> key y <= key m) /\ (forall y, y ∈ l -> key y <= key m).
Proof.
  revert acc. induction l as [|x l IH]; intros acc; simpl.
  - intros ->. split_and!; [by left|intros ? [=]; subst; lia|set_solver].
  - intros (Hm & Hacc & Hl)%IH.
    assert (exists z, sel_max acc x = Some z /\ (z = x \/ acc = Some z) /\ key x <= key z
                      /\ (forall y, acc = Some y -> key y <= key z)) as (z & Hz & Hor & Hx & Hy).
    { destruct acc as [y|]; simpl; [|exists x; split_and!; auto; lia || done].
      destruct (Z.leb_spec (key y) (key x)); eexists; split_and!; eauto; try lia;
        intros ? [= <-]; lia. }
    pose proof (Hacc z Hz). rewrite Hz in Hm. split_and!.
    + destruct Hm as [Hm|Hm]; [|by right; right]. simplify_eq.
      destruct Hor as [-> | ->]; [right; left|by left].
    + intros y Hy'%Hy. lia.
    + intros y Hin%elem_of_cons. destruct Hin as [->|Hin]; [lia|by apply Hl].
Qed.

Lemma max_by_key_Some l m :
  max_by_key key l = Some m -> m ∈ l /\ forall y, y ∈ l -> key y <= key m.
Proof. intros (Hm & _ & Hl)%(max_by_key_fold l None). by destruct Hm. Qed.

Lemma max_fold_is_Some l acc : is_Some acc \/ l <> [] -> is_Some (fold_left sel_max l acc).
Proof.
  revert acc. induction l as [|x l IH]; intros acc H; simpl; [by destruct H|].
  apply IH. left. destruct acc as [y|]; simpl; [destruct (_ <=? _)|]; eauto.
Qed.

Lemma max_by_key_None l : max_by_key key l = None <-> l = [].
Proof.
  split; [|by intros ->]. intros H. destruct l as [|x l]; [done|].
  destruct (max_fold_is_Some (x :: l) None) as [m Hm]; [by right|].
  unfold max_by_key in H. unfold sel_max in Hm. congruence.
Qed.

Lemma min_by_key_fold l acc m :
  fold_left sel_min l acc = Some m ->
  (acc = Some m \/ m ∈ l)
  /\ (forall y, acc = Some y -> key m <= key y) /\ (forall y, y ∈ l -> key m <= key y).
Proof.
  revert acc. induction l as [|x l IH]; intros acc; simpl.
  - intros ->. split_and!; [by left|intros ? [=]; subst; lia|set_solver].
  - intros (Hm & Hacc & Hl)%IH.
    assert (exists z, sel_min acc x = Some z /\ (z = x \/ acc = Some z) /\ key z <= key x
                      /\ (forall y, acc = Some y -> key z <= key y)) as (z & Hz & Hor & Hx & Hy).
    { destruct acc as [y|]; simpl; [|exists x; split_and!; auto; lia || done].
      destruct (Z.ltb_spec (key x) (key y)); eexists; split_and!; eauto; try lia;
        intros ? [= <-]; lia. }
    pose proof (Hacc z Hz). rewrite Hz in Hm. split_and!.
    + destruct Hm as [Hm|Hm]; [|by right; right]. simplify_eq.
      destruct Hor as [-> | ->]; [right; left|by left].
    + intros y Hy'%Hy. lia.
    + intros y Hin%elem_of_cons. destruct Hin as [->|Hin]; [lia|by apply Hl].
Qed.

Lemma min_by_key_Some l m :
  min_by_key key l = Some m -> m ∈ l /\ forall y, y ∈ l -> key m <= key y.
Proof. intros (Hm & _ & Hl)%(min_by_key_fold l None). by destruct Hm. Qed.

Lemma min_by_key_None l : min_by_key key l = None <-> l = [].
Proof.
  split; [|by intros ->]. destruct l as [|x l]; [done|]. unfold min_by_key. simpl.
  assert (forall l acc, is_Some acc -> is_Some (fold_left sel_min l acc)) as Hs.
  { clear. induction l as [|x l IH]; intros acc [y ->]; simpl; [by eauto|].
    apply IH. destruct (_ <? _); eauto. }
  destruct (Hs l (Some x)) as [m Hm]; [by eauto|]. unfold sel_min in Hm. congruence.
Qed.
End select.

Lemma max_Z_Some l m : max_Z l = Some m -> m ∈ l /\ forall y, y ∈ l -> y <= m.
Proof. apply max_by_key_Some. Qed.

(** ** Ordered collections *)

Section btree.
Context {K V : Type} (cmp : K -> K -> comparison).
Hypothesis cmp_eq : forall a b, cmp a b = Eq <-> a = b.

Lemma btree_insert_lookup k v (l : list (K * V)) k' v' :
  (k', v') ∈ btree_insert cmp k v l -> (k', v') = (k, v) \/ (k', v') ∈ l.
Proof.
  induction l as [|[a b] l IH]; simpl; [set_solver|].
  destruct (cmp k a) eqn:E.
  - apply cmp_eq in E as ->. set_solver.
  - set_solver.
  - rewrite !elem_of_cons. intros [?|?%IH]; tauto.
Qed.

Lemma btree_insert_keys k v (l : list (K * V)) k' :
  k' ∈ (btree_insert cmp k v l).*1 <-> k' = k \/ k' ∈ l.*1.
Proof.
  induction l as [|[a b] l IH]; simpl; [set_solver|].
  destruct (cmp k a) eqn:E; simpl; rewrite ?elem_of_cons.
  - apply cmp_eq in E as ->. tauto.
  - tauto.
  - rewrite IH. tauto.
Qed.
End btree.

Lemma btree_fold_keys {K} (cmp : K -> K -> comparison) (l : list K) acc k :
  (forall a b, cmp a b = Eq <-> a = b) ->
  k ∈ (fold_left (fun acc k => btree_insert cmp k tt acc) l acc).*1 <-> k ∈ l \/ k ∈ acc.*1.
Proof.
  intros Heq. revert acc. induction l as [|x l IH]; intros acc; simpl; [set_solver|].
  rewrite IH, btree_insert_keys, elem_of_cons by done. tauto.
Qed.

Lemma btree_set_elem {K} (cmp : K -> K -> comparison) (l : list K) k :
  (forall a b, cmp a b = Eq <-> a = b) -> k ∈ btree_set cmp l <-> k ∈ l.
Proof. intros Heq. unfold btree_set. rewrite btree_fold_keys by done. set_solver. Qed.

Lemma distinct_count_le l : 0 <= distinct_count l <= Z.of_nat (length l).
Proof.
  unfold distinct_count. split; [lia|]. apply inj_le. induction l as [|x l IH]; simpl; [done|].
  rewrite size_union_alt. rewrite size_singleton.
  transitivity (1 + size (list_to_set l : gset string))%nat; [|lia].
  apply Nat.add_le_mono_l, subseteq_size. set_solver.
Qed.

(** More than one distinct value: two of them differ. *)
Lemma distinct_count_gt_1 l :
  1 < distinct_count l <-> exists a b, a ∈ l /\ b ∈ l /\ a <> b.
Proof.
  unfold distinct_count. split.
  - intros H. destruct l as [|x l]; [by vm_compute in H|].
    destruct (decide (Exists (fun y => y <> x) l)) as [He|Hn].
    + apply Exists_exists in He as (y & Hy & Hne). exists x, y. set_solver.
    + exfalso. apply not_Exists_Forall in Hn; [|intros y; apply _].
      assert (list_to_set (x :: l) = ({[x]} : gset string)) as E.
      { apply set_eq. intros z. rewrite elem_of_list_to_set, elem_of_cons, elem_of_singleton.
        rewrite Forall_forall in Hn. split; [|by left]. intros [->|Hz]; [done|].
        destruct (decide (z = x)); [done|]. by destruct (Hn z Hz). }
      rewrite E, size_singleton in H. lia.
  - intros (a & b & Ha & Hb & Hne).
    assert ({[a; b]} ⊆ (list_to_set l : gset string)) as Hsub%subseteq_size by set_solver.
    rewrite size_union, !size_singleton in Hsub by set_solver. lia.
Qed.

Lemma distinct_count_pos l : l <> [] -> 0 < distinct_count l.
Proof.
  intros Hl. destruct l as [|x l]; [done|]. unfold distinct_count.
  assert ({[x]} ⊆ (list_to_set (x :: l) : gset string)) as Hsub%subseteq_size by set_solver.
  rewrite size_singleton in Hsub. lia.
Qed.

Lemma distinct_count_spec l :
  exists k, NoDup k /\ (forall x, x ∈ k <-> x ∈ l) /\ distinct_count l = Z.of_nat (length k).
Proof.
  exists (elements (list_to_set l : gset string)). split_and!; [apply NoDup_elements| |done].
  intros x. by rewrite elem_of_elements, elem_of_list_to_set.
Qed.

Lemma distinct_count_NoDup l : distinct_count l = Z.of_nat (length l) <-> NoDup l.
Proof.
  split; [|intros Hl; unfold distinct_count; by rewrite size_list_to_set].
  induction l as [|x l IH]; [constructor|]. pose proof (distinct_count_le l) as [_ Hle].
  unfold distinct_count in *. cbn [length list_to_set foldr]. intros Hs.
  change (list_to_set (x :: l) : gset string) with ({[x]} ∪ list_to_set l : gset string) in Hs.
  destruct (decide (x ∈ l)) as [Hin|Hin].
  - replace ({[x]} ∪ list_to_set l : gset string) with (list_to_set l : gset string) in Hs
      by set_solver. lia.
  - rewrite size_union, size_singleton in Hs by set_solver.
    constructor; [done|]. apply IH. lia.
Qed.

Lemma omap_full_length {A B} (f : A -> option B) l :
  length (omap f l) = length l -> Forall2 (fun x y => f x = Some y) l (omap f l).
Proof.
  assert (forall l, (length (omap f l) <= length l)%nat) as Hle.
  { clear l. induction l as [|x l IH]; [done|]. csimpl. destruct (f x); csimpl; lia. }
  induction l as [|x l IH]; intros Hl; [constructor|]. specialize (Hle l). csimpl in *.
  destruct (f x) eqn:E; csimpl in *; [|lia]. constructor; [done|]. apply IH. lia.
Qed.

Lemma omap_of_Forall2 {A B} (f : A -> option B) l ys :
  Forall2 (fun x y => f x = Some y) l ys -> omap f l = ys.
Proof. induction 1 as [|x y l ys Hx _ IH]; csimpl; [done|]. by rewrite Hx, IH. Qed.
