(* ===== verification/Externals.v ===== *)
(** * Interfaces to third-party code

    The gateway calls crates whose sources are not part of the repository.
    Each is a type class: the operations the gateway calls, and as laws the
    documented behaviour its code relies on.  The components are defined and
    proved against the classes.  Each class has a reference instance, which
    shows that the laws can hold and lets examples run; [ReferenceInstances]
    makes them available where a file wants to compute. *)

From Stdlib Require Import Ascii String Strings.Byte.
From S2P Require Import Prelude RustStd.

Local Open Scope Z_scope.

(** ** [alloy_primitives::U256]

    A value is read as the integer it denotes. *)

Definition U256_MAX : Z := 2 ^ 256 - 1.
Definition is_u256 (z : Z) : Prop := 0 <= z <= U256_MAX.

Class U256Lib := {
  u256_checked_add : Z -> Z -> option Z;
  u256_checked_sub : Z -> Z -> option Z;
  u256_checked_mul : Z -> Z -> option Z;
  u256_checked_div : Z -> Z -> option Z;
  u256_checked_rem : Z -> Z -> option Z;
  u256_saturating_sub : Z -> Z -> Z;
  u256_from_str : string -> option Z;
  u256_to_string : Z -> string;
  u256_from_be_slice : list byte -> Z;

  u256_checked_add_law a b : is_u256 a -> is_u256 b ->
    u256_checked_add a b = checked 0 U256_MAX (a + b);
  u256_checked_sub_law a b : is_u256 a -> is_u256 b ->
    u256_checked_sub a b = checked 0 U256_MAX (a - b);
  u256_checked_mul_law a b : is_u256 a -> is_u256 b ->
    u256_checked_mul a b = checked 0 U256_MAX (a * b);
  u256_checked_div_law a b : is_u256 a -> is_u256 b ->
    u256_checked_div a b = if b =? 0 then None else Some (a / b);
  u256_checked_rem_law a b : is_u256 a -> is_u256 b ->
    u256_checked_rem a b = if b =? 0 then None else Some (a mod b);
  u256_saturating_sub_law a b : is_u256 a -> is_u256 b ->
    u256_saturating_sub a b = Z.max 0 (a - b);
  (** a plain decimal string is read in base ten, or refused on overflow *)
  u256_from_str_law s : s <> "" -> all_digits s = true ->
    u256_from_str s = checked 0 U256_MAX (digits_value 0 s);
  u256_to_string_law a : is_u256 a -> u256_to_string a = dec_unsigned a;
  u256_from_be_slice_law l : (length l <= 32)%nat -> u256_from_be_slice l = be_value l;
}.

#[refine, local] Instance u256_reference : U256Lib := {|
  u256_checked_add a b := checked 0 U256_MAX (a + b);
  u256_checked_sub a b := checked 0 U256_MAX (a - b);
  u256_checked_mul a b := checked 0 U256_MAX (a * b);
  u256_checked_div a b := if b =? 0 then None else Some (a / b);
  u256_checked_rem a b := if b =? 0 then None else Some (a mod b);
  u256_saturating_sub a b := Z.max 0 (a - b);
  u256_from_str s :=
    if bool_decide (s <> "") && all_digits s
    then checked 0 U256_MAX (digits_value 0 s) else None;
  u256_to_string a := dec_unsigned a;
  u256_from_be_slice l := be_value l;
|}.
Proof.
  all: try done.
  intros s Hne ->. by rewrite bool_decide_eq_true_2.
Defined.

(** ** [time::OffsetDateTime]

    An instant is its number of nanoseconds since the Unix epoch; instants
    compare by that number.  A [Duration] is a number of nanoseconds. *)

Definition duration_seconds (s : Z) : Z := s * 1000000000.
Definition duration_minutes (m : Z) : Z := duration_seconds (m * 60).
Definition duration_hours (h : Z) : Z := duration_minutes (h * 60).
Definition UNIX_EPOCH : Z := 0.

Class TimeLib := {
  odt_min : Z;
  odt_max : Z;
  odt_checked_add : Z -> Z -> option Z;
  odt_from_unix_nanos : Z -> option Z;
  odt_format_rfc3339 : Z -> option string;

  odt_epoch_law : odt_min <= UNIX_EPOCH <= odt_max;
  odt_checked_add_law t d : odt_min <= t <= odt_max ->
    odt_checked_add t d = checked odt_min odt_max (t + d);
  odt_from_unix_nanos_law n : odt_from_unix_nanos n = checked odt_min odt_max n;
}.

Definition is_instant `{TimeLib} (t : Z) : Prop := odt_min <= t <= odt_max.

(** Years -9999 to 9999, the range [time] has by default. *)
#[refine, local] Instance time_reference : TimeLib := {|
  odt_min := -377705116800 * 1000000000;
  odt_max := 253402300800 * 1000000000 - 1;
  odt_checked_add t d :=
    checked (-377705116800 * 1000000000) (253402300800 * 1000000000 - 1) (t + d);
  odt_from_unix_nanos n :=
    checked (-377705116800 * 1000000000) (253402300800 * 1000000000 - 1) n;
  odt_format_rfc3339 t := Some (dec_signed t);
|}.
Proof. all: done. Defined.

(** ** [sha2], [hmac] and [keccak256]

    Only the output length is relied on.  Theorems about hashed encodings
    conclude "equal, or here are two inputs that collide". *)

Class HashLib := {
  sha256 : list byte -> list byte;
  hmac_sha256 : list byte -> list byte -> list byte;
  keccak256 : list byte -> list byte;

  sha256_length m : length (sha256 m) = 32%nat;
  hmac_sha256_length k m : length (hmac_sha256 k m) = 32%nat;
  keccak256_length m : length (keccak256 m) = 32%nat;
}.

#[refine, local] Instance hash_reference : HashLib := {|
  sha256 m := firstn 32 (m ++ repeat x00 32);
  hmac_sha256 k m := firstn 32 ((k ++ m) ++ repeat x00 32);
  keccak256 m := firstn 32 (m ++ repeat x00 32);
|}.
Proof.
  all: intros; rewrite length_firstn, length_app, repeat_length; lia.
Defined.

(** ** [bs58] *)

Class Base58Lib := {
  bs58_decode : string -> option (list byte);
  bs58_encode : list byte -> string;

  bs58_decode_encode l : bs58_decode (bs58_encode l) = Some l;
  bs58_encode_not_blank l : str_forallb not_blank (bs58_encode l) = true;
}.

(** The reference instance writes each byte as two letters. *)
Definition letter_of_nibble (n : Z) : ascii := ascii_of_Z (97 + n).
Fixpoint letters_encode (l : list byte) : string :=
  match l with
  | [] => ""
  | b :: l => String (letter_of_nibble (byte_Z b / 16))
                (String (letter_of_nibble (byte_Z b mod 16)) (letters_encode l))
  end.
Fixpoint letters_decode (s : string) : option (list byte) :=
  match s with
  | "" => Some []
  | String a (String b t) =>
      cons (byte_of_Z ((ascii_Z a - 97) * 16 + (ascii_Z b - 97))) <$> letters_decode t
  | String _ "" => None
  end.

#[refine, local] Instance base58_reference : Base58Lib := {|
  bs58_decode := letters_decode;
  bs58_encode := letters_encode;
|}.
Proof.
  - intros l. induction l as [|b l IH]; simpl; [done|]. rewrite IH. simpl.
    f_equal. f_equal. by destruct b.
  - intros l. induction l as [|b l IH]; simpl; [done|]. rewrite IH. by destruct b.
Defined.

(** ** [uuid::Uuid]

    A UUID is its 128-bit value: it orders, compares and has its bytes as that
    number does. *)

Definition is_uuid (u : Z) : Prop := 0 <= u < 2 ^ 128.
Definition uuid_as_bytes (u : Z) : list byte := be_bytes 16 u.

Class UuidLib := {
  uuid_to_string : Z -> string;
  uuid_to_string_inj a b : is_uuid a -> is_uuid b ->
    uuid_to_string a = uuid_to_string b -> a = b;
  uuid_to_string_length a : is_uuid a -> String.length (uuid_to_string a) = 36%nat;
}.

#[refine, local] Instance uuid_reference : UuidLib := {|
  uuid_to_string u := letters_encode (x00 :: x00 :: uuid_as_bytes u);
|}.
Proof.
  - intros a b Ha Hb H. apply (be_bytes_inj 16); [exact Ha|exact Hb|].
    apply (f_equal letters_decode) in H.
    pose proof (@bs58_decode_encode base58_reference) as Hrt.
    cbn [bs58_decode bs58_encode base58_reference] in Hrt. rewrite !Hrt in H.
    unfold uuid_as_bytes in H. congruence.
  - intros a _.
    assert (forall l, String.length (letters_encode l) = 2 * length l)%nat as ->
      by (induction l; simpl; lia).
    cbn [length]. unfold uuid_as_bytes. by rewrite be_bytes_length.
Defined.

(** ** [serde_json::Value] *)

Inductive json : Type :=
  | JNull
  | JBool (b : bool)
  | JNumber (text : string)
  | JString (s : string)
  | JArray (items : list json)
  | JObject (fields : list (string * json)).

Class JsonLib := { json_to_string : json -> string }.

#[local] Instance json_reference : JsonLib :=
  {| json_to_string v := match v with JString s => s | _ => "{}" end |}.

Definition json_is_object (v : json) : bool :=
  match v with JObject _ => true | _ => false end.
Definition json_as_array (v : json) : option (list json) :=
  match v with JArray items => Some items | _ => None end.
Definition json_as_str (v : json) : option string :=
  match v with JString s => Some s | _ => None end.
Fixpoint assoc_string {V} (k : string) (l : list (string * V)) : option V :=
  match l with
  | [] => None
  | (k', v) :: l => if bool_decide (k = k') then Some v else assoc_string k l
  end.
(** [Value::get] with a string index: a field of an object. *)
Definition json_get (v : json) (k : string) : option json :=
  match v with JObject fields => assoc_string k fields | _ => None end.

(** How [time]'s serde implementation writes an instant. *)
Class TimeSerde := { odt_serialize : Z -> json }.
#[local] Instance time_serde_reference : TimeSerde :=
  {| odt_serialize t := JString (dec_signed t) |}.

#[export] Hint Unfold is_u256 is_uuid is_instant : gateway.

Module ReferenceInstances.
#[export] Existing Instances u256_reference time_reference hash_reference
  base58_reference uuid_reference json_reference time_serde_reference.
End ReferenceInstances.
