(* ===== verification/Money.v ===== *)
(** * Money

    [gateway-domain/src/money.rs]: currency codes, fiat minor units, and
    256-bit raw token amounts with checked arithmetic and decimal text. *)

From Stdlib Require Import Ascii String.
From S2P Require Import Prelude RustStd Externals.

Local Open Scope Z_scope.

Inductive MoneyError :=
  | InvalidCurrencyCode
  | AmountMustBePositive
  | InvalidFiatAmount
  | InvalidRawAmount
  | RawAmountOverflow
  | DivisionByZero.

#[export] Instance MoneyError_eq_dec : EqDecision MoneyError.
Proof. solve_decision. Defined.

Definition MoneyError_to_string (e : MoneyError) : string :=
  match e with
  | InvalidCurrencyCode => "currency must be exactly three ASCII letters"
  | AmountMustBePositive => "amount must be greater than zero"
  | InvalidFiatAmount => "fiat amount must be a base-10 positive signed 64-bit integer string"
  | InvalidRawAmount => "raw amount must be a base-10 unsigned 256-bit integer string"
  | RawAmountOverflow => "raw amount arithmetic overflowed 256 bits"
  | DivisionByZero => "raw amount division by zero"
  end.

(** ** Currency codes *)

Record CurrencyCode := mkCurrencyCode { CurrencyCode_as_str : string }.

#[export] Instance CurrencyCode_eq_dec : EqDecision CurrencyCode.
Proof. solve_decision. Defined.

Definition CurrencyCode_new (value : string) : result MoneyError CurrencyCode :=
  let value := to_ascii_uppercase value in
  let valid := (str_len value =? 3) && str_forallb is_ascii_uppercase value in
  if negb valid then Err InvalidCurrencyCode else Ok (mkCurrencyCode value).

Definition CurrencyCode_serialize (c : CurrencyCode) : string := CurrencyCode_as_str c.
Definition CurrencyCode_deserialize (value : string) : result MoneyError CurrencyCode :=
  CurrencyCode_new value.

(** ** Fiat amounts *)

Record FiatAmount := mkFiatAmount {
  fiat_currency : CurrencyCode;
  minor_units : Z;  (* i64 *)
}.

#[export] Instance FiatAmount_eq_dec : EqDecision FiatAmount.
Proof. solve_decision. Defined.

Definition FiatAmount_positive (currency : CurrencyCode) (units : Z) : result MoneyError FiatAmount :=
  if units <=? 0 then Err AmountMustBePositive else Ok (mkFiatAmount currency units).

Definition FiatAmount_parse_positive (currency : CurrencyCode) (units : string)
    : result MoneyError FiatAmount :=
  if bool_decide (units = "") || negb (all_digits units) then Err InvalidFiatAmount
  else
    units ← ok_or (parse_i64 units) InvalidFiatAmount;
    FiatAmount_positive currency units.

(** The [decimal_i64] field codec. *)
Definition decimal_i64_serialize (value : Z) : string := dec_signed value.
Definition decimal_i64_deserialize (value : string) : option Z := parse_i64 value.

(** ** Raw token amounts *)

Record RawAmount := mkRawAmount { as_u256 : Z }.

#[export] Instance RawAmount_eq_dec : EqDecision RawAmount.
Proof. solve_decision. Defined.

Definition RawAmount_ZERO : RawAmount := mkRawAmount 0.
Definition RawAmount_is_zero (a : RawAmount) : bool := as_u256 a =? 0.

Definition RawAmount_positive (value : Z) : result MoneyError RawAmount :=
  if value =? 0 then Err AmountMustBePositive else Ok (mkRawAmount value).

(** The type's invariant: the integer fits in 256 bits. *)
Definition RawAmount_wf (a : RawAmount) : Prop := is_u256 (as_u256 a).

Section ops.
Context `{U256Lib}.

Definition RawAmount_to_string (a : RawAmount) : string := u256_to_string (as_u256 a).

Definition RawAmount_to_decimal_string (a : RawAmount) (decimals : Z) : string :=
  let digits := u256_to_string (as_u256 a) in
  let decimals := Z.to_nat decimals in
  if (decimals =? 0)%nat then digits
  else
    let padded := pad_zeros (decimals + 1) digits in
    let point := (String.length padded - decimals)%nat in
    let whole := String.substring 0 point padded in
    let fraction := String.substring point decimals padded in
    let fraction := trim_end_zeros fraction in
    if bool_decide (fraction = "") then whole
    else String.append whole (String "."%char fraction).

Definition RawAmount_checked_add (a b : RawAmount) : result MoneyError RawAmount :=
  ok_or (mkRawAmount <$> u256_checked_add (as_u256 a) (as_u256 b)) RawAmountOverflow.

Definition RawAmount_checked_add_u32 (a : RawAmount) (other : Z) : result MoneyError RawAmount :=
  ok_or (mkRawAmount <$> u256_checked_add (as_u256 a) other) RawAmountOverflow.

Definition RawAmount_mul_div_ceil (multiplier : Z) (numerator denominator : RawAmount)
    : result MoneyError RawAmount :=
  if as_u256 denominator =? 0 then Err DivisionByZero
  else
    product ← ok_or (u256_checked_mul multiplier (as_u256 numerator)) RawAmountOverflow;
    quotient ← ok_or (u256_checked_div product (as_u256 denominator)) DivisionByZero;
    remainder ← ok_or (u256_checked_rem product (as_u256 denominator)) DivisionByZero;
    rounded ← (if remainder =? 0 then Ok quotient
               else ok_or (u256_checked_add quotient 1) RawAmountOverflow);
    RawAmount_positive rounded.

Definition RawAmount_from_str (value : string) : result MoneyError RawAmount :=
  if bool_decide (value = "") || negb (all_digits value) then Err InvalidRawAmount
  else
    parsed ← ok_or (u256_from_str value) InvalidRawAmount;
    RawAmount_positive parsed.

Definition RawAmount_serialize (a : RawAmount) : string := RawAmount_to_string a.
Definition RawAmount_deserialize (value : string) : result MoneyError RawAmount :=
  RawAmount_from_str value.
End ops.

(** * Lemmas and properties *)

Lemma upper_letter c : is_ascii_uppercase c = true -> ascii_to_upper c = c.
Proof. by destruct c as [[] [] [] [] [] [] [] []]. Qed.

Lemma CurrencyCode_new_Ok value c :
  CurrencyCode_new value = Ok c ->
  CurrencyCode_as_str c = to_ascii_uppercase value
  /\ str_len (CurrencyCode_as_str c) = 3
  /\ str_forallb is_ascii_uppercase (CurrencyCode_as_str c) = true.
Proof.
  unfold CurrencyCode_new. intros H. inv_res. bool_to_prop. done.
Qed.

Lemma RawAmount_positive_Ok value a :
  RawAmount_positive value = Ok a <-> value <> 0 /\ a = mkRawAmount value.
Proof.
  unfold RawAmount_positive. destruct (Z.eqb_spec value 0); intuition congruence.
Qed.

(** Ceiling division, the reading of "rounding any remainder upward". *)
Definition ceil_div (a b : Z) : Z := - ((- a) / b).

Lemma ceil_div_spec a b : 0 < b -> b * (ceil_div a b - 1) < a <= b * ceil_div a b.
Proof.
  intros Hb. unfold ceil_div. pose proof (Z.div_mod (- a) b ltac:(lia)).
  pose proof (Z.mod_pos_bound (- a) b Hb). nia.
Qed.

Lemma ceil_div_round a b :
  0 < b -> ceil_div a b = if a mod b =? 0 then a / b else a / b + 1.
Proof.
  intros Hb. pose proof (ceil_div_spec a b Hb). pose proof (Z.div_mod a b ltac:(lia)).
  pose proof (Z.mod_pos_bound a b Hb). destruct (Z.eqb_spec (a mod b) 0); nia.
Qed.

Lemma U256_MAX_pos : 0 < U256_MAX.
Proof. done. Qed.

Section props.
Context `{U256Lib}.

Lemma RawAmount_to_string_dec a : RawAmount_wf a -> RawAmount_to_string a = dec_unsigned (as_u256 a).
Proof. apply u256_to_string_law. Qed.

Lemma RawAmount_to_string_inj a b :
  RawAmount_wf a -> RawAmount_wf b -> RawAmount_to_string a = RawAmount_to_string b -> a = b.
Proof.
  intros Ha Hb. rewrite !RawAmount_to_string_dec by done. destruct a as [a], b as [b].
  unfold RawAmount_wf, is_u256 in *; simpl in *. intros ?%dec_unsigned_inj; [congruence|lia..].
Qed.

(** What the parser accepts: a digit string whose value is a positive
    256-bit integer, and nothing else. *)
Lemma RawAmount_from_str_Ok value a :
  RawAmount_from_str value = Ok a <->
  value <> "" /\ all_digits value = true
  /\ 0 < digits_value 0 value <= U256_MAX /\ a = mkRawAmount (digits_value 0 value).
Proof.
  unfold RawAmount_from_str. split.
  - intros Hok. inv_res. bool_to_prop. rewrite u256_from_str_law in * by done.
    match goal with E : checked _ _ _ = Some _ |- _ => apply checked_Some in E as [-> ?] end.
    match goal with E : RawAmount_positive _ = Ok _ |- _ =>
      apply RawAmount_positive_Ok in E as [? ->] end.
    split_and!; [done..|lia|lia|done].
  - intros (Hne & Hd & Hr & ->). rewrite bool_decide_eq_false_2, Hd by done. simpl.
    rewrite u256_from_str_law by done.
    assert (checked 0 U256_MAX (digits_value 0 value) = Some (digits_value 0 value)) as ->.
    { apply checked_Some. lia. }
    apply RawAmount_positive_Ok. split; [lia|done].
Qed.

Lemma RawAmount_from_str_wf value a : RawAmount_from_str value = Ok a -> RawAmount_wf a /\ 0 < as_u256 a.
Proof.
  intros (_ & _ & Hr & ->)%RawAmount_from_str_Ok. unfold RawAmount_wf, is_u256; simpl. lia.
Qed.

(** Printing then parsing gives the amount back; parsing then printing gives
    the text back without its leading zeros. *)
Lemma RawAmount_parse_print a :
  RawAmount_wf a -> 0 < as_u256 a -> RawAmount_from_str (RawAmount_to_string a) = Ok a.
Proof.
  intros Hwf Hpos. rewrite RawAmount_to_string_dec by done. apply RawAmount_from_str_Ok.
  unfold RawAmount_wf, is_u256 in Hwf.
  rewrite dec_unsigned_value, dec_unsigned_digits by lia.
  split_and!; [apply dec_unsigned_nonempty; lia|done|lia|lia|by destruct a].
Qed.

Lemma RawAmount_print_parse value a :
  RawAmount_from_str value = Ok a -> RawAmount_to_string a = trim_start_zeros value.
Proof.
  intros Hok. pose proof (RawAmount_from_str_wf _ _ Hok) as [Hwf _].
  rewrite RawAmount_to_string_dec by done.
  apply RawAmount_from_str_Ok in Hok as (_ & Hd & Hr & ->). simpl.
  apply dec_unsigned_trim; [done|lia].
Qed.

Lemma RawAmount_checked_add_eq a b :
  RawAmount_wf a -> RawAmount_wf b ->
  RawAmount_checked_add a b =
    if as_u256 a + as_u256 b <=? U256_MAX then Ok (mkRawAmount (as_u256 a + as_u256 b))
    else Err RawAmountOverflow.
Proof.
  intros Ha Hb. unfold RawAmount_checked_add. rewrite u256_checked_add_law by done.
  unfold RawAmount_wf, is_u256, checked, in_range in *. zcases; simpl; try lia; done.
Qed.

Lemma mul_div_ceil_eq m n d :
  is_u256 m -> RawAmount_wf n -> RawAmount_wf d ->
  RawAmount_mul_div_ceil m n d =
    if as_u256 d =? 0 then Err DivisionByZero
    else if U256_MAX <? m * as_u256 n then Err RawAmountOverflow
    else if m * as_u256 n =? 0 then Err AmountMustBePositive
    else Ok (mkRawAmount (ceil_div (m * as_u256 n) (as_u256 d))).
Proof.
  unfold RawAmount_wf. intros Hm Hn Hd. destruct n as [n], d as [d]; simpl in *.
  unfold RawAmount_mul_div_ceil; simpl. destruct (Z.eqb_spec d 0) as [->|Hd0]; [done|].
  rewrite u256_checked_mul_law by done.
  destruct (Z.ltb_spec U256_MAX (m * n)) as [Hov|Hov].
  { assert (checked 0 U256_MAX (m * n) = None) as -> by (apply checked_None; lia). done. }
  unfold is_u256 in *.
  assert (checked 0 U256_MAX (m * n) = Some (m * n)) as -> by (apply checked_Some; nia).
  simpl. set (p := m * n) in *. assert (Hp : is_u256 p) by (unfold is_u256; nia).
  rewrite u256_checked_div_law, u256_checked_rem_law by done.
  destruct (Z.eqb_spec d 0); [done|]. simpl.
  pose proof (ceil_div_round p d ltac:(lia)) as Hround.
  pose proof (Z.div_mod p d ltac:(lia)). pose proof (Z.mod_pos_bound p d ltac:(lia)).
  unfold is_u256 in Hp. assert (0 <= p / d <= p) by (split; [apply Z.div_pos|apply Z.div_le_upper_bound]; nia).
  destruct (Z.eqb_spec (p mod d) 0) as [Hr|Hr]; simpl.
  - unfold RawAmount_positive. destruct (Z.eqb_spec p 0) as [Hp0|Hp0].
    + by rewrite Hp0, Z.div_0_l by lia.
    + destruct (Z.eqb_spec (p / d) 0); [nia|]. by rewrite Hround.
  - assert (2 <= d) by (destruct (Z.eq_dec d 1) as [->|]; [rewrite Z.mod_1_r in Hr; done|lia]).
    rewrite u256_checked_add_law by (unfold is_u256; pose proof U256_MAX_pos; nia).
    assert (checked 0 U256_MAX (p / d + 1) = Some (p / d + 1)) as ->
      by (apply checked_Some; nia).
    simpl. unfold RawAmount_positive.
    destruct (Z.eqb_spec (p / d + 1) 0); [lia|].
    destruct (Z.eqb_spec p 0) as [Hp0|]; [rewrite Hp0, Z.mod_0_l in Hr by lia; done|].
    by rewrite Hround.
Qed.

(** The display form of an amount reads back as exactly that amount: a whole
    part and at most [decimals] fraction digits, none of them a trailing
    zero. *)
Lemma to_decimal_string_split a d :
  RawAmount_wf a -> 0 <= d ->
  exists whole frac k,
    RawAmount_to_decimal_string a d
      = (if bool_decide (frac = "") then whole
         else String.append whole (String "."%char frac))
    /\ whole <> "" /\ all_digits whole = true /\ all_digits frac = true
    /\ trim_end_zeros frac = frac /\ 0 <= k /\ str_len frac + k = d
    /\ digits_value 0 whole * 10 ^ d + digits_value 0 frac * 10 ^ k = as_u256 a.
Proof.
  intros Hwf Hd. unfold RawAmount_to_decimal_string.
  change (u256_to_string (as_u256 a)) with (RawAmount_to_string a).
  rewrite RawAmount_to_string_dec by done. unfold RawAmount_wf, is_u256 in Hwf.
  pose proof (dec_unsigned_value (as_u256 a) ltac:(lia)) as Hv.
  pose proof (dec_unsigned_digits (as_u256 a)) as Hdig.
  pose proof (dec_unsigned_nonempty (as_u256 a) ltac:(lia)) as Hne.
  set (digits := dec_unsigned (as_u256 a)) in *. clearbody digits.
  destruct (Nat.eqb_spec (Z.to_nat d) 0) as [E0|E0].
  { exists digits, "", 0. replace d with 0 by lia. simpl. split_and!; try done. lia. }
  set (n := Z.to_nat d) in *. set (padded := pad_zeros (n + 1) digits).
  assert (Hpl : String.length padded = Nat.max (n + 1) (String.length digits)).
  { unfold padded, pad_zeros. rewrite str_length_app, zeros_length. lia. }
  assert (Hpv : digits_value 0 padded = as_u256 a).
  { unfold padded, pad_zeros. rewrite digits_value_app, zeros_value. lia. }
  assert (Hpd : all_digits padded = true).
  { unfold padded, pad_zeros, all_digits. rewrite str_forallb_app.
    fold (all_digits digits). rewrite Hdig, andb_true_r. apply zeros_digits. }
  clearbody padded.
  destruct (substring_split (String.length padded - n) padded) as (Hs & Hwl & Hfl); [lia|].
  replace (String.length padded - (String.length padded - n))%nat with n in * by lia.
  set (whole := String.substring 0 _ padded) in *.
  set (fraction := String.substring _ n padded) in *. clearbody whole fraction.
  destruct (trim_end_zeros_split fraction) as [k Hk].
  rewrite Hs in Hpd, Hpv. unfold all_digits in Hpd. rewrite str_forallb_app in Hpd.
  apply andb_prop in Hpd as [Hwd Hfd].
  rewrite digits_value_app in Hpv. rewrite Hk in Hfd, Hfl, Hpv.
  rewrite str_forallb_app in Hfd. apply andb_prop in Hfd as [Hfd _].
  rewrite str_length_app, zeros_length in Hfl.
  rewrite digits_value_app, zeros_value in Hpv. unfold str_len in Hpv.
  rewrite str_length_app, zeros_length, Hfl in Hpv.
  exists whole, (trim_end_zeros fraction), (Z.of_nat k). split_and!; try done.
  - intros ->. simpl in Hwl. lia.
  - apply trim_end_zeros_idem.
  - lia.
  - unfold str_len. lia.
  - replace d with (Z.of_nat n) by lia. lia.
Qed.

(** ** Properties *)

(** [RawAmount::mul_div_ceil], on every branch: it refuses a zero
    denominator, refuses a product over 256 bits, refuses a zero result, and
    otherwise returns the least amount that is at least the exact rational
    [multiplier * numerator / denominator], which fits in 256 bits. *)
Theorem mul_div_ceil_spec m n d :
  0 <= m <= U64_MAX -> RawAmount_wf n -> RawAmount_wf d ->
  match RawAmount_mul_div_ceil m n d with
  | Ok r => RawAmount_wf r /\ 0 < as_u256 r
            /\ as_u256 d * (as_u256 r - 1) < m * as_u256 n <= as_u256 d * as_u256 r
  | Err DivisionByZero => as_u256 d = 0
  | Err RawAmountOverflow => as_u256 d <> 0 /\ U256_MAX < m * as_u256 n
  | Err AmountMustBePositive => as_u256 d <> 0 /\ m * as_u256 n = 0
  | Err _ => False
  end.
Proof.
  intros Hm Hn Hd. assert (is_u256 m) by (unfold is_u256, U256_MAX, U64_MAX in *; lia).
  rewrite mul_div_ceil_eq by done. unfold RawAmount_wf, is_u256 in *.
  destruct (Z.eqb_spec (as_u256 d) 0); [done|].
  destruct (Z.ltb_spec U256_MAX (m * as_u256 n)); [done|].
  destruct (Z.eqb_spec (m * as_u256 n) 0); [done|]. simpl.
  pose proof (ceil_div_spec (m * as_u256 n) (as_u256 d) ltac:(lia)). nia.
Qed.

(** The text codec of [RawAmount]: an amount survives printing and
    parsing; what parses prints as the same digits without leading zeros;
    and exactly the digit strings of positive 256-bit integers parse. *)
Theorem raw_amount_text_codec :
  (forall a, RawAmount_wf a -> 0 < as_u256 a ->
     RawAmount_deserialize (RawAmount_serialize a) = Ok a)
  /\ (forall s a, RawAmount_deserialize s = Ok a ->
     RawAmount_wf a /\ 0 < as_u256 a /\ RawAmount_serialize a = trim_start_zeros s)
  /\ (forall s, is_ok (RawAmount_deserialize s) = true <->
     s <> "" /\ all_digits s = true /\ 0 < digits_value 0 s <= U256_MAX).
Proof.
  split_and!.
  - apply RawAmount_parse_print.
  - intros s a Hs. pose proof (RawAmount_from_str_wf _ _ Hs) as [? ?].
    split_and!; [done..|by apply RawAmount_print_parse].
  - intros s. pose proof (RawAmount_from_str_Ok s) as Hok. unfold RawAmount_deserialize.
    destruct (RawAmount_from_str s) as [a|e] eqn:E; simpl.
    + split; [|done]. intros _. destruct (proj1 (Hok a) eq_refl) as (? & ? & ? & _). done.
    + split; [done|]. intros (? & ? & ?).
      by assert (Err e = Ok (mkRawAmount (digits_value 0 s))) by (by apply Hok).
Qed.

(** [to_decimal_string] is exact: the whole part and the fraction it
    prints recombine to the integer, for every scale, with no rounding. *)
Theorem to_decimal_string_exact a d :
  RawAmount_wf a -> 0 <= d <= U8_MAX ->
  exists whole frac k,
    RawAmount_to_decimal_string a d
      = (if bool_decide (frac = "") then whole
         else String.append whole (String "."%char frac))
    /\ whole <> "" /\ all_digits whole = true /\ all_digits frac = true
    /\ trim_end_zeros frac = frac /\ 0 <= k /\ str_len frac + k = d
    /\ digits_value 0 whole * 10 ^ d + digits_value 0 frac * 10 ^ k = as_u256 a.
Proof. intros Ha [Hd _]. by apply to_decimal_string_split. Qed.
End props.

(** [FiatAmount::parse_positive] accepts exactly the digit strings of
    positive signed 64-bit integers, keeps their value and the currency, and
    names zero apart from malformed or oversized text. *)
Theorem fiat_parse_positive_spec c s :
  match FiatAmount_parse_positive c s with
  | Ok f => f = mkFiatAmount c (digits_value 0 s)
            /\ s <> "" /\ all_digits s = true /\ 0 < digits_value 0 s <= I64_MAX
  | Err AmountMustBePositive => s <> "" /\ all_digits s = true /\ digits_value 0 s = 0
  | Err InvalidFiatAmount => s = "" \/ all_digits s = false \/ I64_MAX < digits_value 0 s
  | Err _ => False
  end.
Proof.
  unfold FiatAmount_parse_positive. case_bool_decide as Hs; [by left|]. simpl.
  destruct (all_digits s) eqn:Hd; simpl; [|by right; left].
  rewrite parse_i64_digits by done. pose proof (digits_value_range s Hd).
  unfold_res. destruct (checked _ _ _) as [v|] eqn:E; simpl.
  - apply checked_Some in E as [-> ?]. unfold FiatAmount_positive.
    destruct (Z.leb_spec (digits_value 0 s) 0); split_and!; try done; lia.
  - apply checked_None in E. right; right. unfold I64_MIN in E. lia.
Qed.

(** ** Witnesses *)

Import ReferenceInstances.

Lemma mul_div_ceil_spec_witness :
  RawAmount_mul_div_ceil 3 (mkRawAmount 5) (mkRawAmount 2) = Ok (mkRawAmount 8)
  /\ 2 * (8 - 1) < 3 * 5 <= 2 * 8.
Proof.
  split; [by vm_compute|].
  assert (RawAmount_wf (mkRawAmount 5)) as H5 by (unfold RawAmount_wf, is_u256, U256_MAX; simpl; lia).
  assert (RawAmount_wf (mkRawAmount 2)) as H2 by (unfold RawAmount_wf, is_u256, U256_MAX; simpl; lia).
  pose proof (mul_div_ceil_spec 3 (mkRawAmount 5) (mkRawAmount 2) ltac:(vm_compute; intuition congruence) H5 H2)
    as H.
  change (RawAmount_mul_div_ceil 3 (mkRawAmount 5) (mkRawAmount 2)) with
    (@Ok MoneyError RawAmount (mkRawAmount 8)) in H.
  apply H.
Defined.

Lemma to_decimal_string_exact_witness :
  RawAmount_to_decimal_string (mkRawAmount 1500000) 6 = "1.5"
  /\ exists whole frac k,
      RawAmount_to_decimal_string (mkRawAmount 1500000) 6
        = (if bool_decide (frac = "") then whole
           else String.append whole (String "."%char frac))
      /\ whole <> "" /\ all_digits whole = true /\ all_digits frac = true
      /\ trim_end_zeros frac = frac /\ 0 <= k /\ str_len frac + k = 6
      /\ digits_value 0 whole * 10 ^ 6 + digits_value 0 frac * 10 ^ k = 1500000.
Proof.
  split; [by vm_compute|].
  apply (to_decimal_string_exact (mkRawAmount 1500000) 6);
    [unfold RawAmount_wf, is_u256, U256_MAX; simpl; lia | unfold U8_MAX; lia].
Defined.
