(* ===== verification/Chain.v ===== *)
(** * Chain facts

    [gateway-domain/src/chain.rs]: the normalised identifiers of a chain
    (addresses, transaction hashes, memos), the enumerations stored as text,
    one source's reading of a transfer with the hash that identifies its
    claim, and the lifecycle of a canonical transfer. *)

From Stdlib Require Import Ascii String Strings.Byte.
From stdpp Require Import relations.
From S2P Require Import Prelude RustStd Externals Money.

Local Open Scope Z_scope.

Definition MAX_ADDRESS_KEY_BYTES : Z := 64.
Definition MAX_TX_HASH_CHARS : Z := 200.
Definition MAX_MEMO_CHARS : Z := 200.

Inductive ChainError :=
  | InvalidAddressKey
  | InvalidTxHash
  | InvalidMemo
  | UnknownChainEnvironment (s : string)
  | UnknownObservationKind (s : string)
  | UnknownExecutionStatus (s : string)
  | UnknownSourceFinality (s : string)
  | UnknownTransferState (s : string).

#[export] Instance ChainError_eq_dec : EqDecision ChainError.
Proof. solve_decision. Defined.
Definition ChainError_to_string (e : ChainError) : string :=
  match e with
  | InvalidAddressKey => "an address key must contain between 1 and 64 canonical bytes"
  | InvalidTxHash => "a transaction hash must be a short alphanumeric identifier"
  | InvalidMemo => "a memo must contain between 1 and 200 characters"
  | UnknownChainEnvironment s => String.append "unknown chain environment: " s
  | UnknownObservationKind s => String.append "unknown observation kind: " s
  | UnknownExecutionStatus s => String.append "unknown execution status: " s
  | UnknownSourceFinality s => String.append "unknown source finality: " s
  | UnknownTransferState s => String.append "unknown transfer state: " s
  end.

(** ** Enumerations and their database text

    The interface every stored enumeration implements: a name per value, a
    parser that inverts it, and an error that carries the unknown text. *)

Class TextEnum (E A : Type) := {
  text_as_str : A -> string;
  text_parse : string -> result E A;
  text_unknown : string -> E;
  text_parse_as_str a : text_parse (text_as_str a) = Ok a;
  text_parse_sound s a : text_parse s = Ok a -> s = text_as_str a;
  text_parse_unknown s e : text_parse s = Err e -> e = text_unknown s;
}.

(** A parser that is a match on string literals. *)
Definition parse_table {E A} (table : list (string * A)) (unknown : string -> E)
    (s : string) : result E A :=
  ok_or (assoc_string s table) (unknown s).

Inductive ChainEnvironment := Testnet | Mainnet.
#[export] Instance ChainEnvironment_eq_dec : EqDecision ChainEnvironment.
Proof. solve_decision. Defined.
Definition ChainEnvironment_as_str (e : ChainEnvironment) : string :=
  match e with Testnet => "testnet" | Mainnet => "mainnet" end.
Definition ChainEnvironment_from_str : string -> result ChainError ChainEnvironment :=
  parse_table [("testnet", Testnet); ("mainnet", Mainnet)] UnknownChainEnvironment.

Inductive ObservationKind := FastDetect | CursorScan | TargetedLookup.
#[export] Instance ObservationKind_eq_dec : EqDecision ObservationKind.
Proof. solve_decision. Defined.
Definition ObservationKind_as_str (k : ObservationKind) : string :=
  match k with
  | FastDetect => "fast_detect"
  | CursorScan => "cursor_scan"
  | TargetedLookup => "targeted_lookup"
  end.
Definition ObservationKind_from_str : string -> result ChainError ObservationKind :=
  parse_table [("fast_detect", FastDetect); ("cursor_scan", CursorScan);
               ("targeted_lookup", TargetedLookup)] UnknownObservationKind.

Inductive ExecutionStatus := Success | Failed.
#[export] Instance ExecutionStatus_eq_dec : EqDecision ExecutionStatus.
Proof. solve_decision. Defined.
Definition ExecutionStatus_as_str (s : ExecutionStatus) : string :=
  match s with Success => "success" | Failed => "failed" end.
Definition ExecutionStatus_from_str : string -> result ChainError ExecutionStatus :=
  parse_table [("success", Success); ("failed", Failed)] UnknownExecutionStatus.

Inductive SourceFinality := Seen | SrcConfirmed | SrcFinalized.
#[export] Instance SourceFinality_eq_dec : EqDecision SourceFinality.
Proof. solve_decision. Defined.
Definition SourceFinality_as_str (f : SourceFinality) : string :=
  match f with Seen => "seen" | SrcConfirmed => "confirmed" | SrcFinalized => "finalized" end.
Definition SourceFinality_from_str : string -> result ChainError SourceFinality :=
  parse_table [("seen", Seen); ("confirmed", SrcConfirmed); ("finalized", SrcFinalized)]
    UnknownSourceFinality.
(** The derived [Ord]: the order of the declaration. *)
Definition SourceFinality_rank (f : SourceFinality) : Z :=
  match f with Seen => 0 | SrcConfirmed => 1 | SrcFinalized => 2 end.

Inductive TransferState := Observed | Canonical | Confirmed | Finalized | Invalidated.
#[export] Instance TransferState_eq_dec : EqDecision TransferState.
Proof. solve_decision. Defined.
Definition TransferState_as_str (s : TransferState) : string :=
  match s with
  | Observed => "observed"
  | Canonical => "canonical"
  | Confirmed => "confirmed"
  | Finalized => "finalized"
  | Invalidated => "invalidated"
  end.
Definition TransferState_from_str : string -> result ChainError TransferState :=
  parse_table [("observed", Observed); ("canonical", Canonical); ("confirmed", Confirmed);
               ("finalized", Finalized); ("invalidated", Invalidated)] UnknownTransferState.
Definition can_transition_to (self next : TransferState) : bool :=
  match self, next with
  | Observed, (Canonical | Invalidated) => true
  | Canonical, (Confirmed | Invalidated) => true
  | Confirmed, (Finalized | Invalidated) => true
  | Finalized, Invalidated => true
  | _, _ => false
  end.

(** ** Hex *)

Definition hex_digit (nibble : Z) : ascii :=
  match Z.land nibble 0x0f with
  | 0 => "0" | 1 => "1" | 2 => "2" | 3 => "3" | 4 => "4" | 5 => "5" | 6 => "6" | 7 => "7"
  | 8 => "8" | 9 => "9" | 10 => "a" | 11 => "b" | 12 => "c" | 13 => "d" | 14 => "e"
  | _ => "f"
  end%char.

Fixpoint hex_of_bytes (bytes : list byte) : string :=
  match bytes with
  | [] => ""
  | b :: bytes =>
      String (hex_digit (Z.shiftr (byte_Z b) 4))
        (String (hex_digit (Z.land (byte_Z b) 0x0f)) (hex_of_bytes bytes))
  end.

(** ** Identifiers *)

Record AddressKey := mkAddressKey { AddressKey_as_bytes : list byte }.
#[export] Instance AddressKey_eq_dec : EqDecision AddressKey.
Proof. solve_decision. Defined.

Definition AddressKey_new (bytes : list byte) : result ChainError AddressKey :=
  if bool_decide (bytes = []) || (MAX_ADDRESS_KEY_BYTES <? Z.of_nat (length bytes))
  then Err InvalidAddressKey else Ok (mkAddressKey bytes).
Definition AddressKey_to_hex (k : AddressKey) : string := hex_of_bytes (AddressKey_as_bytes k).

Record TxHash := mkTxHash { TxHash_as_str : string }.
#[export] Instance TxHash_eq_dec : EqDecision TxHash.
Proof. solve_decision. Defined.

Definition tx_hash_char (c : ascii) : bool :=
  is_ascii_alphanumeric c || Ascii.eqb c "-" || Ascii.eqb c "_".
Definition TxHash_new (value : string) : result ChainError TxHash :=
  let trimmed := trim value in
  let trimmed := default trimmed (strip_prefix "0x" trimmed) in
  let normalized := to_ascii_lowercase trimmed in
  let valid := negb (bool_decide (normalized = ""))
    && (str_len normalized <=? MAX_TX_HASH_CHARS) && str_forallb tx_hash_char normalized in
  if negb valid then Err InvalidTxHash else Ok (mkTxHash normalized).

Record Memo := mkMemo { Memo_as_str : string }.
#[export] Instance Memo_eq_dec : EqDecision Memo.
Proof. solve_decision. Defined.

Definition Memo_new (value : string) : result ChainError Memo :=
  let trimmed := trim value in
  if bool_decide (trimmed = "") || (MAX_MEMO_CHARS <? chars_count trimmed)
  then Err InvalidMemo else Ok (mkMemo trimmed).

(** ** One source's reading *)

Record ObservedTransfer := mkObservedTransfer {
  ot_chain : string;
  ot_network : string;
  ot_chain_environment : ChainEnvironment;
  ot_tx_hash : TxHash;
  ot_event_index : Z;                (* i32 *)
  ot_block_number : option Z;        (* i64 *)
  ot_block_hash : option string;
  ot_parent_hash : option string;
  ot_block_time : option Z;          (* OffsetDateTime *)
  ot_token_key : AddressKey;
  ot_token_display : string;
  ot_from_address : AddressKey;
  ot_from_address_text : string;
  ot_to_address : AddressKey;
  ot_to_address_text : string;
  ot_amount_raw : RawAmount;
  ot_decimals : Z;                   (* i16 *)
  ot_memo : option Memo;
  ot_execution_status : ExecutionStatus;
  ot_source_finality : SourceFinality;
  ot_source_head : option Z;         (* i64 *)
  ot_evidence_sha256 : string;
  ot_evidence_uri : option string;
}.

#[export] Instance ObservedTransfer_eq_dec : EqDecision ObservedTransfer.
Proof. solve_decision. Defined.

(** One call of the closure [field]: the length as four bytes, then the
    bytes. *)
Definition hash_field (bytes : list byte) : list byte :=
  be_bytes 4 (default U32_MAX (u32_try_from (Z.of_nat (length bytes)))) ++ bytes.

Section semantic_hash.
Context `{U256Lib} `{HashLib}.

Definition claim_fields (t : ObservedTransfer) (source_id : Z) (kind : ObservationKind)
    : list (list byte) :=
  [ uuid_as_bytes source_id;
    as_bytes (ot_chain t);
    as_bytes (ot_network t);
    as_bytes (ChainEnvironment_as_str (ot_chain_environment t));
    as_bytes (ObservationKind_as_str kind);
    as_bytes (TxHash_as_str (ot_tx_hash t));
    be_bytes 4 (ot_event_index t);
    as_bytes (default "" (ot_block_hash t));
    as_bytes (ExecutionStatus_as_str (ot_execution_status t));
    as_bytes (SourceFinality_as_str (ot_source_finality t));
    AddressKey_as_bytes (ot_token_key t);
    AddressKey_as_bytes (ot_to_address t);
    as_bytes (RawAmount_to_string (ot_amount_raw t));
    as_bytes (default "" (Memo_as_str <$> ot_memo t)) ]
  ++ (if decide (kind = TargetedLookup)
      then [be_bytes 8 (default (-1) (ot_source_head t))] else []).

(** What the hasher is fed, field after field. *)
Definition claim_bytes (t : ObservedTransfer) (source_id : Z) (kind : ObservationKind)
    : list byte :=
  mjoin (hash_field <$> claim_fields t source_id kind).

Definition semantic_hash (t : ObservedTransfer) (source_id : Z) (kind : ObservationKind)
    : list byte :=
  sha256 (claim_bytes t source_id kind).
End semantic_hash.

(** * Lemmas *)

Lemma assoc_string_elem {V} k (l : list (string * V)) v :
  assoc_string k l = Some v -> (k, v) ∈ l.
Proof.
  induction l as [|[k' v'] l IH]; simpl; [done|]. case_bool_decide; [|set_solver].
  intros [= ->]. subst. left.
Qed.

Lemma parse_table_Ok {E A} (table : list (string * A)) (unknown : string -> E) s a :
  parse_table table unknown s = Ok a -> (s, a) ∈ table.
Proof. unfold parse_table. intros ?. inv_res. by apply assoc_string_elem. Qed.

Lemma parse_table_Err {E A} (table : list (string * A)) (unknown : string -> E) s e :
  parse_table table unknown s = Err e -> e = unknown s.
Proof. unfold parse_table. intros ?. by inv_res. Qed.

Lemma parse_table_sound {E A} (table : list (string * A)) (unknown : string -> E) (as_str : A -> string) s a :
  Forall (fun '(k, v) => k = as_str v) table ->
  parse_table table unknown s = Ok a -> s = as_str a.
Proof. intros Ht Hs%parse_table_Ok. rewrite Forall_forall in Ht. by apply (Ht (s, a)). Qed.

(** Proves the laws of a [TextEnum] whose parser is a table. *)
Ltac solve_text_enum :=
  first [ solve [intros []; reflexivity]
        | solve [intros ? ?; apply parse_table_sound; repeat constructor]
        | intros ? ?; apply parse_table_Err ].

#[refine, export] Instance ChainEnvironment_text : TextEnum ChainError ChainEnvironment := {|
  text_as_str := ChainEnvironment_as_str; text_parse := ChainEnvironment_from_str;
  text_unknown := UnknownChainEnvironment |}.
Proof. all: solve_text_enum. Defined.
#[refine, export] Instance ObservationKind_text : TextEnum ChainError ObservationKind := {|
  text_as_str := ObservationKind_as_str; text_parse := ObservationKind_from_str;
  text_unknown := UnknownObservationKind |}.
Proof. all: solve_text_enum. Defined.
#[refine, export] Instance ExecutionStatus_text : TextEnum ChainError ExecutionStatus := {|
  text_as_str := ExecutionStatus_as_str; text_parse := ExecutionStatus_from_str;
  text_unknown := UnknownExecutionStatus |}.
Proof. all: solve_text_enum. Defined.
#[refine, export] Instance SourceFinality_text : TextEnum ChainError SourceFinality := {|
  text_as_str := SourceFinality_as_str; text_parse := SourceFinality_from_str;
  text_unknown := UnknownSourceFinality |}.
Proof. all: solve_text_enum. Defined.
#[refine, export] Instance TransferState_text : TextEnum ChainError TransferState := {|
  text_as_str := TransferState_as_str; text_parse := TransferState_from_str;
  text_unknown := UnknownTransferState |}.
Proof. all: solve_text_enum. Defined.

Lemma text_as_str_inj {E A} `{TextEnum E A} (a b : A) : text_as_str a = text_as_str b -> a = b.
Proof.
  intros Hab. pose proof (text_parse_as_str a) as Ha. rewrite Hab, text_parse_as_str in Ha.
  congruence.
Qed.

(** ** Hex *)

Definition unhex (c : ascii) : Z := if is_ascii_digit c then ascii_Z c - 48 else ascii_Z c - 87.

Lemma hex_byte_value b :
  unhex (hex_digit (Z.shiftr (byte_Z b) 4)) * 16 + unhex (hex_digit (Z.land (byte_Z b) 0x0f))
  = byte_Z b.
Proof. by destruct b. Qed.

Lemma hex_of_bytes_inj a b : hex_of_bytes a = hex_of_bytes b -> a = b.
Proof.
  revert b. induction a as [|x a IH]; intros [|y b]; try done. cbn [hex_of_bytes].
  intros [= H1 H2 H3]. f_equal; [|by apply IH].
  apply byte_Z_inj. by rewrite <- (hex_byte_value x), <- (hex_byte_value y), H1, H2.
Qed.

Lemma AddressKey_to_hex_inj a b : AddressKey_to_hex a = AddressKey_to_hex b -> a = b.
Proof. destruct a, b. intros H%hex_of_bytes_inj. simpl in H. congruence. Qed.

Lemma hex_of_bytes_length l : String.length (hex_of_bytes l) = (2 * length l)%nat.
Proof. induction l as [|b l IH]; cbn [hex_of_bytes String.length length]; lia. Qed.

(** ** Identifiers *)

Definition AddressKey_wf (k : AddressKey) : Prop :=
  AddressKey_as_bytes k <> [] /\ Z.of_nat (length (AddressKey_as_bytes k)) <= MAX_ADDRESS_KEY_BYTES.

Lemma AddressKey_new_Ok bytes k :
  AddressKey_new bytes = Ok k <-> k = mkAddressKey bytes /\ AddressKey_wf (mkAddressKey bytes).
Proof.
  unfold AddressKey_new, AddressKey_wf. simpl. case_bool_decide; simpl; [intuition congruence|].
  destruct (Z.ltb_spec MAX_ADDRESS_KEY_BYTES (Z.of_nat (length bytes)));
    split; intros; destruct_and?; simplify_eq; try lia; done.
Qed.

Definition TxHash_wf (h : TxHash) : Prop :=
  let s := TxHash_as_str h in
  s <> "" /\ str_len s <= MAX_TX_HASH_CHARS /\ str_forallb tx_hash_char s = true
  /\ to_ascii_lowercase s = s.

Lemma TxHash_new_wf value h : TxHash_new value = Ok h -> TxHash_wf h.
Proof.
  unfold TxHash_new. set (trimmed := default _ _). intros Hh.
  inv_res. bool_to_prop. split_and!; simpl; [done..|]. apply to_ascii_lowercase_idem.
Qed.

Lemma tx_hash_char_not_blank c : tx_hash_char c = true -> not_blank c = true.
Proof. by destruct c as [[] [] [] [] [] [] [] []]. Qed.

(** A well-formed hash without a [0x] prefix is its own normal form. *)
Lemma TxHash_new_id h :
  TxHash_wf h -> strip_prefix "0x" (TxHash_as_str h) = None ->
  TxHash_new (TxHash_as_str h) = Ok h.
Proof.
  intros (Hne & Hlen & Hch & Hlow) Hp. unfold TxHash_new.
  rewrite trim_id by (eapply str_forallb_impl; [apply tx_hash_char_not_blank|done]).
  rewrite Hp. cbn [default]. rewrite Hlow, Hch, bool_decide_eq_false_2 by done.
  apply Z.leb_le in Hlen. rewrite Hlen. by destruct h.
Qed.

Definition Memo_wf (m : Memo) : Prop :=
  Memo_as_str m <> "" /\ chars_count (Memo_as_str m) <= MAX_MEMO_CHARS.

Lemma Memo_new_wf value m : Memo_new value = Ok m -> Memo_wf m.
Proof. unfold Memo_new. intros Hm. inv_res. bool_to_prop. by split; simpl. Qed.

(** ** The claim hash *)

Definition short (l : list byte) : Prop := Z.of_nat (length l) < U32_MAX.

Lemma hash_field_short l : short l -> hash_field l = be_bytes 4 (Z.of_nat (length l)) ++ l.
Proof.
  intros Hl. unfold hash_field, u32_try_from, short in *.
  assert (checked 0 U32_MAX (Z.of_nat (length l)) = Some (Z.of_nat (length l))) as ->; [|done].
  apply checked_Some. lia.
Qed.

Lemma hash_fields_cons f fs :
  mjoin (hash_field <$> f :: fs) = hash_field f ++ mjoin (hash_field <$> fs).
Proof. done. Qed.

(** Length-prefixed fields cannot be shifted between neighbours: the
    concatenation determines the fields. *)
Lemma hash_fields_inj fs gs :
  Forall short fs -> Forall short gs ->
  mjoin (hash_field <$> fs) = mjoin (hash_field <$> gs) -> fs = gs.
Proof.
  intros Hfs. revert gs. induction Hfs as [|f fs Hf _ IH]; intros gs Hgs.
  - destruct Hgs as [|g gs Hg _]; [done|].
    rewrite hash_fields_cons, hash_field_short by done. done.
  - destruct Hgs as [|g gs Hg Hgs]; rewrite !hash_fields_cons, !hash_field_short by done; [done|].
    rewrite <- !app_assoc. intros Heq.
    apply app_inj_1 in Heq as [Hl Heq]; [|by rewrite !be_bytes_length].
    unfold short, U32_MAX in *. apply be_bytes_inj in Hl; [|simpl; lia..].
    apply app_inj_1 in Heq as [-> Heq]; [|lia]. f_equal. by apply IH.
Qed.

(** The transitions as a relation, and the progress they measure. *)
Definition transition (a b : TransferState) : Prop := can_transition_to a b = true.
Definition state_rank (s : TransferState) : Z :=
  match s with
  | Observed => 0 | Canonical => 1 | Confirmed => 2 | Finalized => 3 | Invalidated => 4
  end.

Lemma transition_rank a b : transition a b -> state_rank a < state_rank b.
Proof. by destruct a, b. Qed.

Lemma transitions_rank a b : tc transition a b -> state_rank a < state_rank b.
Proof. induction 1 as [? ? ?%transition_rank|? ? ? ?%transition_rank]; lia. Qed.

Lemma invalidated_final a : ~ transition Invalidated a.
Proof. by destruct a. Qed.

(** Short of invalidation every step climbs exactly one rank. *)
Lemma transition_one_rank a b : transition a b -> b <> Invalidated -> state_rank b = state_rank a + 1.
Proof. by destruct a, b. Qed.

Lemma nsteps_rank n a b :
  nsteps transition n a b -> b <> Invalidated -> state_rank b = state_rank a + Z.of_nat n.
Proof.
  induction 1 as [|n x y z Hxy Hyz IH]; intros Hb; [lia|].
  assert (y <> Invalidated).
  { intros ->. inversion Hyz; subst; [done|]. by eapply invalidated_final. }
  rewrite IH by done. rewrite (transition_one_rank x y) by done. lia.
Qed.

(** What a claim says, field by field: the data [semantic_hash] covers. *)
Definition same_claim (s1 s2 : Z) (k1 k2 : ObservationKind) (t1 t2 : ObservedTransfer) : Prop :=
  s1 = s2 /\ k1 = k2
  /\ ot_chain t1 = ot_chain t2 /\ ot_network t1 = ot_network t2
  /\ ot_chain_environment t1 = ot_chain_environment t2
  /\ ot_tx_hash t1 = ot_tx_hash t2 /\ ot_event_index t1 = ot_event_index t2
  /\ default "" (ot_block_hash t1) = default "" (ot_block_hash t2)
  /\ ot_execution_status t1 = ot_execution_status t2
  /\ ot_source_finality t1 = ot_source_finality t2
  /\ ot_token_key t1 = ot_token_key t2 /\ ot_to_address t1 = ot_to_address t2
  /\ ot_amount_raw t1 = ot_amount_raw t2
  /\ default "" (Memo_as_str <$> ot_memo t1) = default "" (Memo_as_str <$> ot_memo t2)
  /\ (k1 = TargetedLookup ->
      default (-1) (ot_source_head t1) = default (-1) (ot_source_head t2)).

(** The ranges of a reading's fields: the widths of its integers, and texts
    shorter than 4 GiB. *)
Definition ObservedTransfer_wf (t : ObservedTransfer) : Prop :=
  RawAmount_wf (ot_amount_raw t)
  /\ - 2 ^ 31 <= ot_event_index t < 2 ^ 31
  /\ - 2 ^ 63 <= default (-1) (ot_source_head t) < 2 ^ 63
  /\ AddressKey_wf (ot_token_key t) /\ AddressKey_wf (ot_to_address t)
  /\ str_len (ot_chain t) < U32_MAX /\ str_len (ot_network t) < U32_MAX
  /\ str_len (TxHash_as_str (ot_tx_hash t)) < U32_MAX
  /\ str_len (default "" (ot_block_hash t)) < U32_MAX
  /\ str_len (default "" (Memo_as_str <$> ot_memo t)) < U32_MAX.

Lemma short_string s : str_len s < U32_MAX -> short (as_bytes s).
Proof. unfold short, str_len. by rewrite as_bytes_length. Qed.

Lemma dec_digits_length fuel n acc :
  (String.length (dec_digits fuel n acc) <= fuel + String.length acc)%nat.
Proof.
  revert n acc. induction fuel as [|fuel IH]; intros n acc; cbn [dec_digits]; [lia|].
  destruct (_ =? 0); [simpl; lia|]. specialize (IH (n / 10) (String (digit_char (n mod 10)) acc)).
  cbn [String.length] in IH. lia.
Qed.

Lemma dec_unsigned_short a : is_u256 a -> str_len (dec_unsigned a) <= 257.
Proof.
  intros [H0 H1]. unfold str_len, dec_unsigned.
  pose proof (dec_digits_length (S (Z.to_nat (Z.log2 a))) a "") as H.
  change (String.length "") with 0%nat in H.
  assert (Z.log2 a <= Z.log2 U256_MAX) as Hlog by (apply Z.log2_le_mono; lia).
  change (Z.log2 U256_MAX) with 255 in Hlog. pose proof (Z.log2_nonneg a). lia.
Qed.

Section claim_hash.
Context `{U256Lib} `{HashLib}.

Lemma claim_fields_short t s k : ObservedTransfer_wf t -> Forall short (claim_fields t s k).
Proof.
  intros (Ham & _ & _ & [_ Htok] & [_ Hto] & ? & ? & ? & ? & ?).
  assert (forall n z, (Z.of_nat n < 100) -> short (be_bytes n z)) as Hbe.
  { intros n z Hn. unfold short. rewrite be_bytes_length. unfold U32_MAX. lia. }
  unfold claim_fields. apply Forall_app. split.
  - rewrite !Forall_cons. split_and!; try (apply short_string; done).
    + by apply Hbe.
    + apply short_string. by destruct (ot_chain_environment t).
    + apply short_string. by destruct k.
    + by apply Hbe.
    + apply short_string. by destruct (ot_execution_status t).
    + apply short_string. by destruct (ot_source_finality t).
    + unfold short, MAX_ADDRESS_KEY_BYTES, U32_MAX in *; lia.
    + unfold short, MAX_ADDRESS_KEY_BYTES, U32_MAX in *; lia.
    + apply short_string. rewrite RawAmount_to_string_dec by done.
      pose proof (dec_unsigned_short _ Ham). unfold U32_MAX. lia.
    + by apply Forall_nil.
  - case_decide; rewrite ?Forall_cons, Forall_nil; [|done]. split; [by apply Hbe|done].
Qed.

Lemma claim_fields_same s1 s2 k1 k2 t1 t2 :
  is_uuid s1 -> is_uuid s2 -> ObservedTransfer_wf t1 -> ObservedTransfer_wf t2 ->
  claim_fields t1 s1 k1 = claim_fields t2 s2 k2 -> same_claim s1 s2 k1 k2 t1 t2.
Proof.
  intros Hs1 Hs2 (Ham1 & Hev1 & Hh1 & _) (Ham2 & Hev2 & Hh2 & _).
  unfold claim_fields. cbn [app].
  do 14 (let E := fresh "E" in intros [E%(f_equal id) Heq]%cons_eq_inj; revert Heq).
  unfold id in *. intros Htail.
  assert (k1 = k2) as <- by (apply (text_as_str_inj k1 k2), as_bytes_inj; done).
  unfold same_claim. split_and!; try done; try (by apply as_bytes_inj);
    try (by apply text_as_str_inj, as_bytes_inj).
  - apply (be_bytes_inj 16); [exact Hs1|exact Hs2|done].
  - destruct (ot_tx_hash t1), (ot_tx_hash t2). f_equal. by apply as_bytes_inj.
  - apply (be_bytes_inj_signed 4); [lia|exact Hev1|exact Hev2|done].
  - destruct (ot_token_key t1), (ot_token_key t2). by f_equal.
  - destruct (ot_to_address t1), (ot_to_address t2). by f_equal.
  - apply RawAmount_to_string_inj; [done..|]. by apply as_bytes_inj.
  - intros Hk. rewrite !decide_True in Htail by done. apply cons_eq_inj in Htail as [Htail _].
    apply (be_bytes_inj_signed 8); [lia|exact Hh1|exact Hh2|done].
Qed.
End claim_hash.

(** * Properties *)

(** C39: [semantic_hash] identifies a claim: two readings that make the same
    claim hash alike, and two readings that hash alike make the same claim,
    field by field, unless the two texts that were hashed are themselves a SHA-256
    collision. *)
Theorem semantic_hash_identifies_claim `{U256Lib} `{HashLib} s1 s2 k1 k2 t1 t2 :
  is_uuid s1 -> is_uuid s2 -> ObservedTransfer_wf t1 -> ObservedTransfer_wf t2 ->
  (same_claim s1 s2 k1 k2 t1 t2 -> semantic_hash t1 s1 k1 = semantic_hash t2 s2 k2)
  /\ (semantic_hash t1 s1 k1 = semantic_hash t2 s2 k2 ->
      same_claim s1 s2 k1 k2 t1 t2
      \/ collision sha256 (claim_bytes t1 s1 k1) (claim_bytes t2 s2 k2)).
Proof.
  intros Hs1 Hs2 Ht1 Ht2. split.
  - intros (-> & -> & ? & ? & ? & ? & ? & ? & ? & ? & ? & ? & ? & ? & Hhead).
    unfold semantic_hash, claim_bytes, claim_fields. repeat (f_equal; try congruence).
    case_decide; [|done]. by rewrite Hhead.
  - unfold semantic_hash. intros Heq.
    destruct (decide (claim_bytes t1 s1 k1 = claim_bytes t2 s2 k2)) as [Hpre|Hpre].
    + left. apply claim_fields_same; [done..|].
      apply hash_fields_inj; [by apply claim_fields_short..|done].
    + right. by split.
Qed.

(** Every stored chain enumeration round-trips through its database text,
    its parser accepts no other text, and an unknown text is reported
    verbatim. *)
Theorem chain_enums_round_trip :
  (forall a, ChainEnvironment_from_str (ChainEnvironment_as_str a) = Ok a)
  /\ (forall a, ObservationKind_from_str (ObservationKind_as_str a) = Ok a)
  /\ (forall a, ExecutionStatus_from_str (ExecutionStatus_as_str a) = Ok a)
  /\ (forall a, SourceFinality_from_str (SourceFinality_as_str a) = Ok a)
  /\ (forall a, TransferState_from_str (TransferState_as_str a) = Ok a)
  /\ (forall s a, ChainEnvironment_from_str s = Ok a -> s = ChainEnvironment_as_str a)
  /\ (forall s a, ObservationKind_from_str s = Ok a -> s = ObservationKind_as_str a)
  /\ (forall s a, ExecutionStatus_from_str s = Ok a -> s = ExecutionStatus_as_str a)
  /\ (forall s a, SourceFinality_from_str s = Ok a -> s = SourceFinality_as_str a)
  /\ (forall s a, TransferState_from_str s = Ok a -> s = TransferState_as_str a)
  /\ (forall s e, TransferState_from_str s = Err e -> e = UnknownTransferState s).
Proof.
  split_and!; first [ intros a; exact (text_parse_as_str a)
                    | intros s a; exact (text_parse_sound s a)
                    | intros s; exact (text_parse_unknown (A := TransferState) s) ].
Qed.

(** The lifecycle of a canonical transfer is monotonic: no sequence of
    allowed transitions returns to a state it left, [Finalized] is reached
    from [Observed] only in three steps through [Canonical] and [Confirmed],
    every live state may be invalidated, and an invalidated transfer stays
    invalidated. *)
Theorem transfer_state_monotonic :
  (forall a b, tc transition a b -> a <> b /\ ~ tc transition b a)
  /\ (forall n, nsteps transition n Observed Finalized -> n = 3%nat)
  /\ (forall a, a <> Invalidated -> can_transition_to a Invalidated = true)
  /\ (forall a, can_transition_to Invalidated a = false).
Proof.
  split_and!.
  - intros a b H%transitions_rank. split; [intros ->; lia|]. intros ?%transitions_rank. lia.
  - intros n H%nsteps_rank; [|done]. simpl in H. lia.
  - by intros [].
  - by intros [].
Qed.

(** Normalising a transaction hash yields a nonempty lowercase identifier
    of at most 200 characters of [a-z 0-9 - _], and normalising the result again
    changes nothing when it does not itself begin with [0x]. *)
Theorem tx_hash_normal_form value h :
  TxHash_new value = Ok h ->
  TxHash_wf h
  /\ (strip_prefix "0x" (TxHash_as_str h) = None -> TxHash_new (TxHash_as_str h) = Ok h).
Proof. intros Hh%TxHash_new_wf. split; [done|]. by apply TxHash_new_id. Qed.

(** The normal form is not stable on every input: the prefix is removed
    before the text is lowercased and only once, so an upper-case [0X] prefix
    survives as [0x] and is removed by the next normalisation.  The same
    identifier written [0xAB] and [0XAB] gives two different hashes. *)
Theorem tx_hash_upper_prefix_survives :
  TxHash_new "0xAB" = Ok (mkTxHash "ab")
  /\ TxHash_new "0XAB" = Ok (mkTxHash "0xab")
  /\ TxHash_new "0xab" = Ok (mkTxHash "ab").
Proof. by vm_compute. Qed.

(** ** Witnesses *)

Import ReferenceInstances.

Definition sample_transfer : ObservedTransfer := {|
  ot_chain := "tron"; ot_network := "mainnet"; ot_chain_environment := Mainnet;
  ot_tx_hash := mkTxHash "abcdef01"; ot_event_index := 0;
  ot_block_number := Some 100; ot_block_hash := Some "block-1";
  ot_parent_hash := Some "block-0"; ot_block_time := Some 0;
  ot_token_key := mkAddressKey (repeat x01 20); ot_token_display := "USDT";
  ot_from_address := mkAddressKey (repeat x02 20); ot_from_address_text := "TFrom";
  ot_to_address := mkAddressKey (repeat x03 20); ot_to_address_text := "TTo";
  ot_amount_raw := mkRawAmount 1000; ot_decimals := 6; ot_memo := None;
  ot_execution_status := Success; ot_source_finality := Seen; ot_source_head := Some 120;
  ot_evidence_sha256 := ""; ot_evidence_uri := None |}.

Lemma sample_transfer_wf : ObservedTransfer_wf sample_transfer.
Proof.
  unfold ObservedTransfer_wf, RawAmount_wf, AddressKey_wf, is_u256, U256_MAX, U32_MAX.
  simpl. unfold MAX_ADDRESS_KEY_BYTES. split_and!; try done; lia.
Qed.

Lemma semantic_hash_identifies_claim_witness :
  same_claim 1 1 CursorScan CursorScan sample_transfer sample_transfer
  /\ semantic_hash sample_transfer 1 CursorScan = semantic_hash sample_transfer 1 CursorScan.
Proof.
  assert (is_uuid 1) as Hu by (unfold is_uuid; lia).
  destruct (semantic_hash_identifies_claim 1 1 CursorScan CursorScan sample_transfer
    sample_transfer Hu Hu sample_transfer_wf sample_transfer_wf) as [Hsame _].
  assert (same_claim 1 1 CursorScan CursorScan sample_transfer sample_transfer) as Hc
    by (unfold same_claim; split_and!; done).
  split; [exact Hc|exact (Hsame Hc)].
Defined.

Lemma tx_hash_normal_form_witness :
  TxHash_new "  0xAbCd " = Ok (mkTxHash "abcd") /\ TxHash_wf (mkTxHash "abcd").
Proof.
  assert (TxHash_new "  0xAbCd " = Ok (mkTxHash "abcd")) as H by (by vm_compute).
  split; [exact H|]. exact (proj1 (tx_hash_normal_form _ _ H)).
Defined.
