(* ===== verification/Effects.v ===== *)
(** * Effects

    The services call repositories, chain sources and clocks through traits.
    Such a call is a function of a world [W] that returns a result and the
    next world; the traits are classes over an arbitrary [W]. *)

From S2P Require Import Prelude RustStd Externals.

Local Open Scope Z_scope.

Definition eff (W E A : Type) : Type := W -> result E A * W.

#[export] Instance eff_ret {W E} : MRet (eff W E) := fun A a w => (Ok a, w).
#[export] Instance eff_bind {W E} : MBind (eff W E) :=
  fun A B k m w => match m w with
                   | (Ok a, w) => k a w
                   | (Err e, w) => (Err e, w)
                   end.

(** A pure result inside an effect, and [map_err]. *)
Definition lift {W E A} (r : result E A) : eff W E A := fun w => (r, w).
Definition eff_map_err {W E F A} (f : E -> F) (m : eff W E A) : eff W F A :=
  fun w => let '(r, w) := m w in (map_err f r, w).
(** The result of a call as a value: [match call.await { Ok(..) .., Err(..) .. }]. *)
Definition attempt {W E F A} (m : eff W E A) : eff W F (result E A) :=
  fun w => let '(r, w) := m w in (Ok r, w).

(** [for x in l { state = step(state, x)?; }] *)
Fixpoint for_each {W E A S} (step : S -> A -> eff W E S) (l : list A) (s : S) : eff W E S :=
  match l with
  | [] => mret s
  | x :: l => s ← step s x; for_each step l s
  end.

Class Clock (W : Type) := { clock_now : W -> Z * W }.
Definition read_clock {W E} `{Clock W} : eff W E Z := fun w => let '(t, w) := clock_now w in (Ok t, w).

(** ** Reasoning *)

(** Unfolds the bind of an effect in a hypothesis and keeps the successful
    branch. *)
Lemma eff_bind_Ok {W E A B} (m : eff W E A) (k : A -> eff W E B) w b w' :
  mbind k m w = (Ok b, w') <-> exists a w1, m w = (Ok a, w1) /\ k a w1 = (Ok b, w').
Proof.
  unfold mbind, eff_bind. destruct (m w) as [[a|e] w1]; split.
  - intros H. by exists a, w1.
  - by intros (? & ? & [= <- <-] & ?).
  - done.
  - by intros (? & ? & [=] & ?).
Qed.

Lemma eff_bind_Err {W E A B} (m : eff W E A) (k : A -> eff W E B) w e w' :
  mbind k m w = (Err e, w') <->
  m w = (Err e, w') \/ exists a w1, m w = (Ok a, w1) /\ k a w1 = (Err e, w').
Proof.
  unfold mbind, eff_bind. destruct (m w) as [[a|x] w1]; split.
  - intros ?. right. by exists a, w1.
  - by intros [?|(? & ? & [= <- <-] & ?)].
  - intros [= <- <-]. by left.
  - intros [[= <- <-]|(? & ? & [=] & ?)]. done.
Qed.

Lemma lift_Ok {W E A} (r : result E A) (w : W) a w' : lift r w = (Ok a, w') <-> r = Ok a /\ w' = w.
Proof. unfold lift. split; [by intros [= -> ->]|by intros [-> ->]]. Qed.

Lemma lift_Err {W E A} (r : result E A) (w : W) e w' : lift r w = (Err e, w') <-> r = Err e /\ w' = w.
Proof. unfold lift. split; [by intros [= -> ->]|by intros [-> ->]]. Qed.

Lemma mret_Ok {W E A} (a b : A) (w w' : W) : (mret a : eff W E A) w = (Ok b, w') <-> b = a /\ w' = w.
Proof. unfold mret, eff_ret. split; [by intros [= -> ->]|by intros [-> ->]]. Qed.

Lemma attempt_Ok {W E F A} (m : eff W E A) w r w' :
  (attempt m : eff W F _) w = (Ok r, w') <-> m w = (r, w').
Proof. unfold attempt. destruct (m w) as [x w1]. split; [by intros [= -> ->]|by intros [= -> ->]]. Qed.

Lemma eff_map_err_Ok {W E F A} (f : E -> F) (m : eff W E A) w a w' :
  eff_map_err f m w = (Ok a, w') <-> m w = (Ok a, w').
Proof.
  unfold eff_map_err. destruct (m w) as [[x|e] w1]; simpl; split; intros; simplify_eq; done.
Qed.

(** Takes a successful run apart into the runs of its calls. *)
Ltac inv_eff H :=
  repeat match type of H with
  | mbind _ _ _ = (Ok _, _) =>
      let a := fresh "v" in let w := fresh "w" in let Hm := fresh "Hm" in
      apply eff_bind_Ok in H as (a & w & Hm & H);
      first [ apply (proj1 (attempt_Ok _ _ _ _)) in Hm
            | apply (proj1 (eff_map_err_Ok _ _ _ _ _)) in Hm
            | idtac ]
  | lift _ _ = (Ok _, _) => apply lift_Ok in H as [H ?]; subst
  | mret _ _ = (Ok _, _) => apply mret_Ok in H as [? ?]; subst
  end.

(** A loop invariant: what every step keeps, the loop keeps. *)
Lemma for_each_inv {W E A S} (step : S -> A -> eff W E S) (I : list A -> S -> W -> Prop) l :
  (forall seen x s w s' w', I seen s w -> x ∈ l -> step s x w = (Ok s', w') -> I (seen ++ [x]) s' w') ->
  forall s w s' w', I [] s w -> for_each step l s w = (Ok s', w') -> I l s' w'.
Proof.
  intros Hstep.
  assert (forall rest seen s w s' w', (forall x, x ∈ rest -> x ∈ l) ->
    I seen s w -> for_each step rest s w = (Ok s', w') -> I (seen ++ rest) s' w') as Hgen.
  { induction rest as [|x rest IH]; intros seen s w s' w' Hin HI Hrun; cbn [for_each] in Hrun.
    - inv_eff Hrun. by rewrite app_nil_r.
    - inv_eff Hrun. rewrite (cons_middle x seen rest), app_assoc. eapply IH; [|by eapply Hstep; [|apply Hin; left|]|done].
      intros y Hy. apply Hin. by right. }
  intros s w s' w' HI Hrun. by eapply (Hgen l []).
Qed.

(** ** Triples

    [holds I m Q]: whether [m] succeeds or fails, it keeps the invariant [I]
    of the world, and a value it returns satisfies [Q].  The rules follow the
    combinators, so a service is verified along its code, early returns and
    error exits included. *)
Definition holds {W E A} (I : W -> Prop) (m : eff W E A) (Q : A -> Prop) : Prop :=
  forall w, I w -> I (m w).2 /\ forall a, (m w).1 = Ok a -> Q a.

(** A value that some run of a call has returned. *)
Definition returned_by {W E A} (m : eff W E A) (a : A) : Prop := exists w w', m w = (Ok a, w').

Section triples.
Context {W E : Type} (I : W -> Prop).

Lemma holds_ret {A} (a : A) (Q : A -> Prop) : Q a -> holds I (mret a : eff W E A) Q.
Proof. intros HQ w Hw. split; [done|]. by intros ? [= <-]. Qed.

Lemma holds_lift {A} (r : result E A) : holds I (lift r) (fun a => r = Ok a).
Proof. intros w Hw. by split. Qed.

Lemma holds_weaken {A} (m : eff W E A) (P Q : A -> Prop) :
  holds I m P -> (forall a, P a -> Q a) -> holds I m Q.
Proof. intros Hm HPQ w Hw. destruct (Hm w Hw) as [? HP]. split; [done|]. intros a Ha. by apply HPQ, HP. Qed.

Lemma holds_bind {A B} (m : eff W E A) (k : A -> eff W E B) P Q :
  holds I m P -> (forall a, P a -> holds I (k a) Q) -> holds I (mbind k m) Q.
Proof.
  intros Hm Hk w Hw. unfold mbind, eff_bind. destruct (Hm w Hw) as [Hi HP].
  destruct (m w) as [[a|e] w1]; simpl in *; [|split; [done|by intros ? [=]]].
  apply Hk; [|done]. by apply HP.
Qed.

Lemma holds_map_err {F A} (f : F -> E) (m : eff W F A) Q : holds I m Q -> holds I (eff_map_err f m) Q.
Proof.
  intros Hm w Hw. unfold eff_map_err. destruct (Hm w Hw) as [Hi HQ].
  destruct (m w) as [[a|e] w1]; simpl in *; (split; [done|]); [|by intros ? [=]].
  intros b [= <-]. by apply HQ.
Qed.

Lemma holds_attempt {F A} (m : eff W F A) Q :
  holds I m Q -> holds I (attempt m : eff W E _) (fun r => forall a, r = Ok a -> Q a).
Proof.
  intros Hm w Hw. unfold attempt. destruct (Hm w Hw) as [Hi HQ]. destruct (m w) as [r w1].
  split; [done|]. intros r' [= <-]. exact HQ.
Qed.

Lemma holds_for_each {A S} (step : S -> A -> eff W E S) l s :
  (forall s x, x ∈ l -> holds I (step s x) (fun _ => True)) ->
  holds I (for_each step l s) (fun _ => True).
Proof.
  revert s. induction l as [|x l IH]; intros s Hstep; cbn [for_each]; [by apply holds_ret|].
  eapply holds_bind; [apply Hstep; left|]. intros s' _. apply IH. intros. apply Hstep. by right.
Qed.

Lemma holds_clock `{Clock W} : (forall w, I w -> I (clock_now w).2) ->
  holds I (read_clock : eff W E Z) (fun _ => True).
Proof.
  intros Hc w Hw. unfold read_clock. specialize (Hc w Hw). destruct (clock_now w). by split.
Qed.
End triples.

(** [triple P m Q X]: from a world where [P] holds, [m] returns a value and a
    world that satisfy [Q], or fails in a world where [X] holds. *)
Definition triple {W E A} (P : W -> Prop) (m : eff W E A) (Q : A -> W -> Prop) (X : W -> Prop) : Prop :=
  forall w, P w -> match (m w).1 with Ok a => Q a (m w).2 | Err _ => X (m w).2 end.

Section world_triples.
Context {W E : Type} (X : W -> Prop).

Lemma triple_ret {A} (a : A) (P : W -> Prop) (Q : A -> W -> Prop) :
  (forall w, P w -> Q a w) -> triple P (mret a : eff W E A) Q X.
Proof. intros HQ w Hw. by apply HQ. Qed.

Lemma triple_lift {A} (r : result E A) (P : W -> Prop) :
  (forall w, P w -> X w) -> triple P (lift r) (fun a w => r = Ok a /\ P w) X.
Proof. intros HX w Hw. unfold lift. simpl. destruct r; [done|by apply HX]. Qed.

Lemma triple_bind {A B} (m : eff W E A) (k : A -> eff W E B) P Q S :
  triple P m Q X -> (forall a, triple (Q a) (k a) S X) -> triple P (mbind k m) S X.
Proof.
  intros Hm Hk w Hw. specialize (Hm w Hw). unfold mbind, eff_bind.
  destruct (m w) as [[a|e] w1]; simpl in *; [|done]. by apply Hk.
Qed.

Lemma triple_weaken {A} (m : eff W E A) (P P' : W -> Prop) (Q Q' : A -> W -> Prop) :
  triple P m Q X -> (forall w, P' w -> P w) -> (forall a w, Q a w -> Q' a w) -> triple P' m Q' X.
Proof.
  intros Hm HP HQ w Hw. specialize (Hm w (HP w Hw)). destruct (m w) as [[a|e] w1]; simpl in *; auto.
Qed.

Lemma triple_map_err {F A} (f : F -> E) (m : eff W F A) P Q :
  triple P m Q X -> triple P (eff_map_err f m) Q X.
Proof. intros Hm w Hw. specialize (Hm w Hw). unfold eff_map_err. by destruct (m w) as [[a|e] w1]. Qed.

(** A failure that is looked at. *)
Lemma triple_attempt {F A} (m : eff W F A) P (Q : result F A -> W -> Prop) :
  triple P m (fun a => Q (Ok a)) (fun w => forall e, Q (Err e) w) ->
  triple P (attempt m : eff W E _) Q X.
Proof. intros Hm w Hw. specialize (Hm w Hw). unfold attempt. by destruct (m w) as [[a|e] w1]; simpl in *. Qed.

Lemma triple_for_each {A S} (step : S -> A -> eff W E S) (P : W -> Prop) l s :
  (forall s x, triple P (step s x) (fun _ => P) X) -> triple P (for_each step l s) (fun _ => P) X.
Proof.
  intros Hstep. revert s. induction l as [|x l IH]; intros s; cbn [for_each]; [by apply triple_ret|].
  eapply triple_bind; [apply Hstep|]. intros s'. apply IH.
Qed.
End world_triples.

(** ** Recording calls

    A world that also holds a log: the calls of the original world leave the
    log alone, and a recorded call writes down its argument before it runs. *)
Definition unlogged {W L E A} (m : eff W E A) : eff (W * list L) E A :=
  fun '(w, log) => let '(r, w) := m w in (r, (w, log)).
Definition logged {W L E A} (entry : L) (m : eff W E A) : eff (W * list L) E A :=
  fun '(w, log) => let '(r, w) := m w in (r, (w, log ++ [entry])).

Lemma holds_unlogged {W L E A} (P : list L -> Prop) (m : eff W E A) :
  holds (fun w => P w.2) (unlogged m) (returned_by m).
Proof.
  intros [w log] Hlog. unfold unlogged. destruct (m w) as [r w1] eqn:Hm. split; [done|].
  simpl. intros a ->. by exists w, w1.
Qed.

Lemma holds_logged {W L E A} (P : L -> Prop) entry (m : eff W E A) :
  P entry -> holds (fun w => Forall P w.2) (logged entry m) (fun _ => True).
Proof.
  intros He [w log] Hlog. unfold logged. destruct (m w) as [r w1]. split; [|done].
  simpl in *. apply Forall_app. split; [done|]. by constructor.
Qed.

(** The clock of a world with a log. *)
Definition unlogged_clock {W L} `{Clock W} : Clock (W * list L) :=
  {| clock_now := fun '(w, log) => let '(t, w) := clock_now w in (t, (w, log)) |}.
