(* ===== verification/Futures.v ===== *)
(** * Futures

    Tasks that run concurrently over one shared world.  A task is a tree of
    atomic steps: between two steps of one task any steps of the others may
    happen.  [bounded_join] is the one of
    [gateway-application/src/outbox.rs], the loop that keeps a bounded number
    of futures in flight. *)

From stdpp Require Import list relations.
From S2P Require Import Prelude RustStd Effects.

Local Open Scope nat_scope.

(** [Step f k]: one atomic access to the world [w] leaves [f w] and goes on as
    [k w].  A future that has to wait is a step that changes nothing.  The tree
    is well founded, so every future finishes once it has been polled often
    enough, however long that is: a future that stays pending for ever (a call
    that never answers and has no timeout) is not a [proc]. *)
Inductive proc (W A : Type) : Type :=
  | Done (a : A)
  | Step (f : W -> W) (k : W -> proc W A).
Arguments Done {W A} a.
Arguments Step {W A} f k.

Fixpoint pbind {W A B} (p : proc W A) (g : A -> proc W B) : proc W B :=
  match p with
  | Done a => g a
  | Step f k => Step f (fun w => pbind (k w) g)
  end.

(** Tasks that may fail: [x ← t; k] is [t.await?]. *)
Definition task (W E A : Type) : Type := proc W (result E A).

#[export] Instance task_ret {W E} : MRet (task W E) := fun A a => Done (Ok a).
#[export] Instance task_bind {W E} : MBind (task W E) :=
  fun A B g t => pbind t (fun r => match r with Ok a => g a | Err e => Done (Err e) end).

(** A call of a repository is one atomic step. *)
Definition call {W E A} (m : eff W E A) : task W E A :=
  Step (fun w => (m w).2) (fun w => Done (m w).1).

(** How long a call is pending is up to the world: it completes, in one atomic
    step, after that many polls.  Theorems quantify over every instance, hence
    over every finite pattern of delays. *)
Class Latency (W : Type) := { latency : W -> nat }.
Fixpoint waits {W A} (polls : nat) (p : proc W A) : proc W A :=
  match polls with
  | 0 => p
  | S polls => Step (fun w => w) (fun _ => waits polls p)
  end.
Definition await {W E A} `{Latency W} (m : eff W E A) : task W E A :=
  Step (fun w => w) (fun w => waits (latency w) (call m)).
Definition task_lift {W E A} (r : result E A) : task W E A := Done r.

(** [for x in l { s = step(s, x)?; }] *)
Fixpoint task_for_each {W E A S} (step : S -> A -> task W E S) (l : list A) (s : S) : task W E S :=
  match l with
  | [] => mret s
  | x :: l => s ← step s x; task_for_each step l s
  end.

(** [Future::poll]: runs to the next point where the task waits. *)
Definition poll {W A} (p : proc W A) (w : W) : (A + proc W A) * W :=
  match p with
  | Done a => (inl a, w)
  | Step f k => (match k w with Done a => inl a | next => inr next end, f w)
  end.

(** [Vec::swap_remove]: the last element takes the place of the removed one. *)
Definition swap_remove {A} (position : nat) (l : list A) : list A :=
  match last l with
  | Some x => <[position := x]> (take (length l - 1) l)
  | None => l
  end.

Section bounded_join.
Context {W A : Type}.

Record join_state := mkJoin {
  js_outputs : list (option A);
  js_waiting : list (nat * proc W A);
  js_running : list (nat * proc W A);
}.

(** [while running.len() < limit { ... }] *)
Fixpoint fill (limit : nat) (waiting running : list (nat * proc W A))
    : list (nat * proc W A) * list (nat * proc W A) :=
  match waiting with
  | [] => ([], running)
  | x :: rest => if length running <? limit then fill limit rest (running ++ [x]) else (waiting, running)
  end.

(** [while position < running.len() { ... }]: every turn either removes an
    element or moves on by one, so the turns left are [running.len() -
    position]. *)
Fixpoint poll_running (turns position : nat) (outputs : list (option A))
    (running : list (nat * proc W A)) (w : W) : list (option A) * list (nat * proc W A) * W :=
  match turns with
  | 0 => (outputs, running, w)
  | S turns =>
      match running !! position with
      | None => (outputs, running, w)
      | Some (index, p) =>
          match poll p w with
          | (inl output, w) =>
              poll_running turns position (<[index := Some output]> outputs)
                (swap_remove position running) w
          | (inr next, w) =>
              poll_running turns (S position) outputs (<[position := (index, next)]> running) w
          end
      end
  end.

(** One turn of the outer loop; [None] when nothing runs any more.  When no
    future finished the source returns [Pending] and starts the same loop at
    the next poll, so both cases go on with the next round. *)
Definition round (limit : nat) (s : join_state) (w : W) : option (join_state * W) :=
  let '(waiting, running) := fill limit (js_waiting s) (js_running s) in
  match running with
  | [] => None
  | _ =>
      let '(outputs, running, w) := poll_running (length running) 0 (js_outputs s) running w in
      Some (mkJoin outputs waiting running, w)
  end.

Fixpoint rounds (fuel limit : nat) (s : join_state) (w : W) : option (join_state * W) :=
  match fuel with
  | 0 => None
  | S fuel =>
      match round limit s w with
      | None => Some (s, w)
      | Some (s, w) => rounds fuel limit s w
      end
  end.

Definition join_start (futures : list (proc W A)) : join_state :=
  mkJoin ((fun _ => None) <$> futures) (zip (seq 0 (length futures)) futures) [].

Definition bounded_join (fuel : nat) (futures : list (proc W A)) (limit : nat) (w : W)
    : option (list A * W) :=
  '(s, w) ← rounds fuel (Nat.max limit 1) (join_start futures) w;
  Some (omap id (js_outputs s), w).
End bounded_join.
Arguments join_state : clear implicits.

(** * Termination

    A poll replaces one task by a later part of it or removes it; no infinite
    sequence of such polls exists. *)

Definition later {W A} (p' p : proc W A) : Prop :=
  match p with Done _ => False | Step _ k => exists w, p' = k w end.

Definition shrink {W A} (l' l : list (proc W A)) : Prop :=
  exists p rest, l ≡ₚ p :: rest /\ (l' ≡ₚ rest \/ exists p', later p' p /\ l' ≡ₚ p' :: rest).

Lemma perm_cons_cases {A} (p q : A) l rest :
  p :: l ≡ₚ q :: rest -> (p = q /\ l ≡ₚ rest) \/ exists r, l ≡ₚ q :: r /\ rest ≡ₚ p :: r.
Proof.
  intros Hp. assert (Hq : q ∈ p :: l) by (rewrite Hp; left).
  apply elem_of_cons in Hq as [->|Hq]; [left; split; [done|by eapply Permutation_cons_inv]|right].
  apply list_elem_of_split in Hq as (l1 & l2 & ->). exists (l1 ++ l2). split; [by rewrite Permutation_middle|].
  apply (Permutation_cons_inv (a := q)). rewrite <- Hp, <- Permutation_middle. apply perm_swap.
Qed.

Lemma shrink_perm {W A} (l1 l2 l : list (proc W A)) : l1 ≡ₚ l2 -> shrink l l1 -> shrink l l2.
Proof. intros Hp (p & rest & Hl & H). exists p, rest. by rewrite <- Hp. Qed.

Lemma shrink_Acc_perm {W A} (l1 l2 : list (proc W A)) : l1 ≡ₚ l2 -> Acc shrink l1 -> Acc shrink l2.
Proof. intros Hp Ha. constructor. intros y Hy. apply Ha. by eapply shrink_perm; [symmetry|]. Qed.

Lemma shrink_Acc_cons {W A} (p : proc W A) l : Acc shrink l -> Acc shrink (p :: l).
Proof.
  revert l. induction p as [a|f k IHp]; intros l Ha; induction Ha as [l Ha IHl]; constructor;
    intros y (q & rest & Hl & Hy); apply perm_cons_cases in Hl as [[<- Hl]|(r & Hl & Hr)].
  - destruct Hy as [Hy|(? & [] & _)]. eapply shrink_Acc_perm; [|by constructor]. by rewrite Hl, Hy.
  - destruct Hy as [Hy|(q' & Hq & Hy)]; (eapply shrink_Acc_perm; [symmetry; exact Hy|]).
    + eapply shrink_Acc_perm; [symmetry; exact Hr|]. apply IHl. exists q, r. split; [done|by left].
    + eapply shrink_Acc_perm; [rewrite Hr; apply perm_swap|]. apply IHl. exists q, r.
      split; [done|]. right. by exists q'.
  - destruct Hy as [Hy|(p' & [w ->] & Hy)]; (eapply shrink_Acc_perm; [symmetry; exact Hy|]).
    + eapply shrink_Acc_perm; [exact Hl|by constructor].
    + apply IHp. eapply shrink_Acc_perm; [exact Hl|by constructor].
  - destruct Hy as [Hy|(q' & Hq & Hy)]; (eapply shrink_Acc_perm; [symmetry; exact Hy|]).
    + eapply shrink_Acc_perm; [symmetry; exact Hr|]. apply IHl. exists q, r. split; [done|by left].
    + eapply shrink_Acc_perm; [rewrite Hr; apply perm_swap|]. apply IHl. exists q, r.
      split; [done|]. right. by exists q'.
Qed.

Lemma shrink_wf {W A} (l : list (proc W A)) : Acc shrink l.
Proof.
  induction l as [|p l IH]; [|by apply shrink_Acc_cons].
  constructor. intros y (p & rest & Hl & _). by apply Permutation_nil_cons in Hl.
Qed.

Lemma swap_remove_perm {A} position (l : list A) x :
  l !! position = Some x -> x :: swap_remove position l ≡ₚ l.
Proof.
  intros Hx. destruct l as [|y l _] using rev_ind; [done|]. unfold swap_remove.
  rewrite last_snoc, length_app, take_app_length' by (simpl; lia).
  destruct (decide (position < length l)) as [Hlt|Hge].
  - rewrite lookup_app_l in Hx by done. apply list_elem_of_split_length in Hx as (l1 & l2 & -> & ->).
    rewrite insert_app_r_alt, Nat.sub_diag by lia. cbn [insert list_insert].
    rewrite <- Permutation_cons_append, <- !Permutation_middle. apply perm_swap.
  - rewrite list_insert_ge by lia. rewrite lookup_app_r in Hx by lia.
    destruct (position - length l) as [|k]; [|by destruct k]. injection Hx as ->. apply Permutation_cons_append.
Qed.

Lemma insert_perm {A} position (l : list A) x y :
  l !! position = Some x -> exists rest, l ≡ₚ x :: rest /\ <[position := y]> l ≡ₚ y :: rest.
Proof.
  intros (l1 & l2 & -> & ->)%list_elem_of_split_length. exists (l1 ++ l2).
  rewrite insert_app_r_alt, Nat.sub_diag by lia. cbn. by rewrite <- !Permutation_middle.
Qed.

Lemma all_some_fmap {A} (l : list (option A)) :
  (forall i, i < length l -> exists o, l !! i = Some (Some o)) -> l = Some <$> omap id l.
Proof.
  induction l as [|x l IH]; intros Hs; [done|].
  destruct (Hs 0) as (o & [= ->]); [simpl; lia|]. cbn. f_equal. apply IH.
  intros i Hi. apply (Hs (S i)). simpl. lia.
Qed.

Lemma omap_id_some {A} (l : list A) : omap id (Some <$> l) = l.
Proof. induction l as [|x l IH]; [done|]. cbn. by f_equal. Qed.

Section join_lemmas.
Context {W A : Type}.
Implicit Types (running waiting : list (nat * proc W A)) (outputs : list (option A)).

Lemma fill_perm limit waiting running :
  let '(waiting', running') := fill limit waiting running in running' ++ waiting' ≡ₚ running ++ waiting.
Proof.
  revert running. induction waiting as [|x waiting IH]; intros running; cbn [fill]; [done|].
  destruct (_ <? _); [|done]. specialize (IH (running ++ [x])). destruct (fill _ _ _).
  rewrite IH, <- app_assoc. done.
Qed.

Lemma fill_bound limit waiting running :
  length running <= limit -> length (fill limit waiting running).2 <= limit.
Proof.
  revert running. induction waiting as [|x waiting IH]; intros running Hl; cbn [fill]; [done|].
  destruct (Nat.ltb_spec (length running) limit); [|done]. apply IH. rewrite length_app. simpl. lia.
Qed.

Lemma fill_empty limit waiting running :
  1 <= limit -> (fill limit waiting running).2 = [] -> waiting = [] /\ running = [].
Proof.
  revert running. induction waiting as [|x waiting IH]; intros running Hl; cbn [fill]; [done|].
  destruct (Nat.ltb_spec (length running) limit).
  - intros [_ Hr]%IH; [|done]. by destruct running.
  - cbn. intros ->. simpl in *. lia.
Qed.

(** An invariant that every single poll keeps is kept by a turn of the loop. *)
Lemma poll_running_inv (J : list (option A) -> list (nat * proc W A) -> W -> Prop) turns :
  (forall outputs running index p rest w, running ≡ₚ (index, p) :: rest -> J outputs running w ->
     match poll p w with
     | (inl o, w') => forall r, r ≡ₚ rest -> J (<[index := Some o]> outputs) r w'
     | (inr next, w') => forall r, r ≡ₚ (index, next) :: rest -> J outputs r w'
     end) ->
  forall position outputs running w outputs' running' w',
    J outputs running w -> poll_running turns position outputs running w = (outputs', running', w') ->
    J outputs' running' w'.
Proof.
  intros Hstep. induction turns as [|turns IH]; intros position outputs running w outputs' running' w' HJ Hrun;
    cbn [poll_running] in Hrun; [by simplify_eq|].
  destruct (running !! position) as [[index p]|] eqn:Hx; [|by simplify_eq].
  destruct (poll p w) as [[o|next] w1] eqn:Hp.
  - eapply IH; [|exact Hrun]. pose proof (swap_remove_perm _ _ _ Hx) as Hperm.
    specialize (Hstep outputs running index p (swap_remove position running) w). rewrite Hp in Hstep.
    by apply Hstep.
  - eapply IH; [|exact Hrun].
    destruct (insert_perm position running (index, p) (index, next) Hx) as (rest & Hr & Hr').
    specialize (Hstep outputs running index p rest w Hr HJ). rewrite Hp in Hstep. by apply Hstep.
Qed.

Lemma poll_later (p : proc W A) w next w' : poll p w = (inr next, w') -> later next p.
Proof.
  destruct p as [a|f k]; simpl; [done|]. destruct (k w) eqn:E; [done|]. intros [= <- <-]. by exists w.
Qed.

(** What a turn leaves of the tasks is reached by polls. *)
Definition reached (l l' : list (proc W A)) : Prop :=
  exists l'', rtc (fun a b => shrink b a) l l'' /\ l'' ≡ₚ l'.

Lemma reached_step l l1 l2 : reached l l1 -> shrink l2 l1 -> reached l l2.
Proof.
  intros (l'' & Hr & Hp) Hs. exists l2. split; [|done]. eapply rtc_r; [exact Hr|].
  by eapply shrink_perm; [symmetry|].
Qed.

Lemma poll_shrinks index (p : proc W A) rest waiting w running r :
  running ≡ₚ (index, p) :: rest ->
  match poll p w with
  | (inl _, _) => r ≡ₚ rest -> shrink ((r ++ waiting).*2) ((running ++ waiting).*2)
  | (inr next, _) => r ≡ₚ (index, next) :: rest -> shrink ((r ++ waiting).*2) ((running ++ waiting).*2)
  end.
Proof.
  intros Hr.
  assert (Hl : (running ++ waiting).*2 ≡ₚ p :: (rest ++ waiting).*2) by (by rewrite Hr).
  destruct (poll p w) as [[o|next] w1] eqn:Hp; intros Hn; exists p, ((rest ++ waiting).*2);
    (split; [exact Hl|]); [left; by rewrite Hn|right]. exists next.
  split; [by eapply poll_later|by rewrite Hn].
Qed.

Definition unfinished (s : join_state W A) : list (proc W A) := (js_running s ++ js_waiting s).*2.

Lemma poll_running_reached turns position outputs running waiting w outputs' running' w' :
  poll_running turns position outputs running w = (outputs', running', w') ->
  reached ((running ++ waiting).*2) ((running' ++ waiting).*2).
Proof.
  apply (poll_running_inv (fun _ r _ => reached ((running ++ waiting).*2) ((r ++ waiting).*2))); [|by eexists].
  intros o r index p rest w1 Hr HJ.
  pose proof (fun r' => poll_shrinks index p rest waiting w1 r r' Hr) as Hs.
  destruct (poll p w1) as [[x|next] w2]; intros r' Hr'; eapply reached_step; eauto.
Qed.

(** A round polls at least once. *)
Lemma round_shrinks limit s w s' w' :
  round limit s w = Some (s', w') -> exists l, shrink l (unfinished s) /\ reached l (unfinished s').
Proof.
  unfold round. pose proof (fill_perm limit (js_waiting s) (js_running s)) as Hf.
  destruct (fill _ _ _) as [waiting running]. destruct running as [|[index p] running]; [done|].
  cbn [length poll_running lookup list_lookup].
  assert (Hlive : unfinished s ≡ₚ ((index, p) :: running ++ waiting).*2) by (unfold unfinished; by rewrite <- Hf).
  pose proof (fun r => poll_shrinks index p running waiting w ((index, p) :: running) r (reflexivity _)) as Hs.
  pose proof (swap_remove_perm 0 ((index, p) :: running) (index, p) eq_refl) as Hsw.
  apply Permutation_cons_inv in Hsw.
  destruct (poll p w) as [[o|next] w1].
  - destruct (poll_running _ _ _ _ _) as [[outputs' running'] w2] eqn:Hrun. intros [= <- <-].
    exists ((swap_remove 0 ((index, p) :: running) ++ waiting).*2).
    split; [eapply shrink_perm; [symmetry; exact Hlive|by apply Hs]|].
    by eapply poll_running_reached.
  - destruct (poll_running _ _ _ _ _) as [[outputs' running'] w2] eqn:Hrun. intros [= <- <-].
    exists ((<[0 := (index, next)]> ((index, p) :: running) ++ waiting).*2).
    split; [eapply shrink_perm; [symmetry; exact Hlive|by apply Hs]|].
    by eapply poll_running_reached.
Qed.

(** The loop as a transition system. *)
Definition round_step (limit : nat) (x y : join_state W A * W) : Prop := round limit x.1 x.2 = Some y.

Lemma rounds_terminate limit s w : exists fuel s' w',
  (forall fuel', fuel <= fuel' -> rounds fuel' limit s w = Some (s', w')) /\ round limit s' w' = None
  /\ rtc (round_step limit) (s, w) (s', w').
Proof.
  pose proof (shrink_wf (unfinished s)) as Hacc.
  assert (Hgen : forall l, Acc shrink l -> forall l' s w, reached l l' -> unfinished s ≡ₚ l' ->
    exists fuel s' w', (forall fuel', fuel <= fuel' -> rounds fuel' limit s w = Some (s', w'))
      /\ round limit s' w' = None /\ rtc (round_step limit) (s, w) (s', w')).
  { clear s w Hacc. induction 1 as [l _ IH]. intros l' s w (l'' & Hr & Hp) Hl.
    inversion Hr as [|? y ? Hy Hrest]; subst.
    - destruct (round limit s w) as [[s1 w1]|] eqn:Hround.
      + destruct (round_shrinks _ _ _ _ _ Hround) as (m & Hm & Hms).
        assert (Hml : shrink m l'') by (eapply shrink_perm; [|exact Hm]; by rewrite Hl, Hp).
        destruct (IH m Hml (unfinished s1) s1 w1 Hms (reflexivity _)) as (fuel & s' & w' & Hf & Hn & Hrtc).
        exists (S fuel), s', w'. split_and!; [|done|by eapply rtc_l].
        intros [|fuel'] Hle; [lia|]. cbn [rounds]. rewrite Hround. apply Hf. lia.
      + exists 1, s, w. split_and!; [|done|done]. intros [|fuel'] Hle; [lia|]. cbn [rounds]. by rewrite Hround.
    - eapply (IH y Hy l' s w); [|done]. by exists l''. }
  eapply Hgen; [exact Hacc|by eexists|done].
Qed.

Lemma rounds_more_fuel fuel fuel' limit (s : join_state W A) w x :
  fuel <= fuel' -> rounds fuel limit s w = Some x -> rounds fuel' limit s w = Some x.
Proof.
  revert fuel' s w. induction fuel as [|fuel IH]; intros [|fuel'] s w Hle; cbn [rounds]; try done; [lia|].
  destruct (round limit s w) as [[s1 w1]|]; [|done]. apply IH. lia.
Qed.

Lemma bounded_join_more_fuel fuel fuel' futures limit (w : W) (x : list A * W) :
  fuel <= fuel' -> bounded_join fuel futures limit w = Some x -> bounded_join fuel' futures limit w = Some x.
Proof.
  unfold bounded_join. intros Hle.
  destruct (rounds fuel _ _ _) as [[s w1]|] eqn:Hr; [|done]. by rewrite (rounds_more_fuel _ _ _ _ _ _ Hle Hr).
Qed.

Lemma poll_running_length turns position outputs running w outputs' running' w' :
  poll_running turns position outputs running w = (outputs', running', w') ->
  length running' <= length running.
Proof.
  apply (poll_running_inv (fun _ r _ => length r <= length running)); [|done].
  intros o r index p rest w1 Hr HJ. apply Permutation_length in Hr. simpl in Hr.
  destruct (poll p w1) as [[x|next] w2]; intros r' Hr'%Permutation_length; simpl in *; lia.
Qed.

Lemma round_bound limit (s : join_state W A) w s' w' :
  length (js_running s) <= limit -> round limit s w = Some (s', w') -> length (js_running s') <= limit.
Proof.
  intros Hl. unfold round. pose proof (fill_bound limit (js_waiting s) (js_running s) Hl) as Hb.
  destruct (fill _ _ _) as [waiting running]. simpl in Hb. destruct running as [|x running]; [done|].
  destruct (poll_running _ _ _ _ _) as [[outputs' running'] w2] eqn:Hrun. intros [= <- <-].
  apply poll_running_length in Hrun. simpl in *. lia.
Qed.
End join_lemmas.

(** * Safety under interleaving

    [safe Q p w]: from any later world that satisfies the invariant, every step
    of [p] keeps it and moves the world forward, and what [p] returns satisfies
    [Q].  Nothing is assumed about the other tasks but that they do the same,
    so a claim about one task survives every interleaving. *)

Section safety.
Context {W : Type} (I : W -> Prop) (R : W -> W -> Prop) `{!PreOrder R}.

Fixpoint safe {A} (Q : W -> A -> Prop) (p : proc W A) (w0 : W) : Prop :=
  match p with
  | Done a => Q w0 a
  | Step f k => forall w, R w0 w -> I w -> I (f w) /\ R w (f w) /\ safe Q (k w) (f w)
  end.

Definition stable {A} (Q : W -> A -> Prop) : Prop := forall w w' a, R w w' -> Q w a -> Q w' a.

Lemma safe_later {A} (Q : W -> A -> Prop) p w w' : stable Q -> R w w' -> safe Q p w -> safe Q p w'.
Proof.
  intros HQ Hw. destruct p as [a|f k]; simpl; [by apply HQ|].
  intros Hs w1 Hw1 HI. apply Hs; [by etransitivity|done].
Qed.

Lemma safe_weaken {A} (P Q : W -> A -> Prop) p w :
  safe P p w -> (forall w' a, R w w' -> P w' a -> Q w' a) -> safe Q p w.
Proof.
  revert w. induction p as [a|f k IH]; intros w Hs HPQ; simpl in *; [by apply HPQ|].
  intros w1 Hw1 HI. destruct (Hs w1 Hw1 HI) as (? & ? & Hk). split_and!; [done..|].
  apply IH; [done|]. intros w' a Hw' HP. apply HPQ; [|done]. by do 2 (etransitivity; [done|]).
Qed.

Lemma safe_pbind {A B} (P : W -> A -> Prop) (Q : W -> B -> Prop) p g w :
  safe P p w -> (forall w' a, R w w' -> P w' a -> safe Q (g a) w') -> safe Q (pbind p g) w.
Proof.
  revert w. induction p as [a|f k IH]; intros w Hs Hg; simpl in *; [by apply Hg|].
  intros w1 Hw1 HI. destruct (Hs w1 Hw1 HI) as (? & ? & Hk). split_and!; [done..|].
  apply IH; [done|]. intros w' a Hw' HP. apply Hg; [|done]. by do 2 (etransitivity; [done|]).
Qed.

(** For tasks that may fail: [Q] speaks about successful ends only. *)
Definition on_ok {E A} (Q : W -> A -> Prop) (w : W) (r : result E A) : Prop :=
  match r with Ok a => Q w a | Err _ => True end.
Definition tsafe {E A} (Q : W -> A -> Prop) (t : task W E A) (w : W) : Prop := safe (on_ok Q) t w.

Lemma tsafe_ret {E A} (Q : W -> A -> Prop) (a : A) w : Q w a -> tsafe (E := E) Q (mret a) w.
Proof. done. Qed.

Lemma tsafe_bind {E A B} (P : W -> A -> Prop) (Q : W -> B -> Prop) (t : task W E A) (g : A -> task W E B) w :
  tsafe P t w -> (forall w' a, R w w' -> P w' a -> tsafe Q (g a) w') -> tsafe Q (mbind g t) w.
Proof.
  intros Ht Hg. unfold tsafe, mbind, task_bind. eapply safe_pbind; [exact Ht|].
  intros w' [a|e] Hw' HP; [by apply Hg|done].
Qed.

Lemma tsafe_call {E A} (Q : W -> A -> Prop) (m : eff W E A) w :
  (forall w1, R w w1 -> I w1 ->
     I (m w1).2 /\ R w1 (m w1).2 /\ forall a, (m w1).1 = Ok a -> Q (m w1).2 a) ->
  tsafe Q (call m) w.
Proof.
  intros Hm w1 Hw1 HI. destruct (Hm w1 Hw1 HI) as (? & ? & HQ). split_and!; [done..|].
  simpl. destruct (m w1).1 eqn:E1; [|done]. by apply HQ.
Qed.

Lemma tsafe_await {E A} `{Latency W} (Q : W -> A -> Prop) (m : eff W E A) w :
  (forall w1, R w w1 -> I w1 ->
     I (m w1).2 /\ R w1 (m w1).2 /\ forall a, (m w1).1 = Ok a -> Q (m w1).2 a) ->
  tsafe Q (await m) w.
Proof.
  intros Hm. assert (Hw : forall n w0, R w w0 -> tsafe Q (waits n (call m)) w0).
  { induction n as [|n IH]; intros w0 Hw0; cbn [waits].
    - apply tsafe_call. intros w1 Hw1. apply Hm. by etransitivity.
    - intros w1 Hw1 HI. split_and!; [done..|]. apply IH. by etransitivity. }
  intros w1 Hw1 HI. split_and!; [done..|]. by apply Hw.
Qed.

Lemma tsafe_lift {E A} (Q : W -> A -> Prop) (r : result E A) w :
  (forall a, r = Ok a -> Q w a) -> tsafe Q (task_lift r) w.
Proof. intros HQ. unfold task_lift, tsafe. destruct r; simpl; [by apply HQ|done]. Qed.

Lemma tsafe_weaken {E A} (P Q : W -> A -> Prop) (t : task W E A) w :
  tsafe P t w -> (forall w' a, R w w' -> P w' a -> Q w' a) -> tsafe Q t w.
Proof. intros Ht HPQ. eapply safe_weaken; [exact Ht|]. intros w' [a|e] Hw'; [by apply HPQ|done]. Qed.

(** A loop invariant over the elements already handled. *)
Lemma tsafe_for_each {E A S} (step : S -> A -> task W E S) (J : W -> list A -> S -> Prop) l :
  (forall w seen x s, x ∈ l -> J w seen s -> tsafe (fun w' s' => J w' (seen ++ [x]) s') (step s x) w) ->
  (forall w w' seen s, R w w' -> J w seen s -> J w' seen s) ->
  forall w s, J w [] s -> tsafe (fun w' s' => J w' l s') (task_for_each step l s) w.
Proof.
  intros Hstep Hmono.
  assert (Hgen : forall rest seen s w, (forall x, x ∈ rest -> x ∈ l) -> J w seen s ->
    tsafe (fun w' s' => J w' (seen ++ rest) s') (task_for_each step rest s) w).
  { induction rest as [|x rest IH]; intros seen s w Hin HJ; cbn [task_for_each].
    - apply tsafe_ret. by rewrite app_nil_r.
    - eapply tsafe_bind; [by apply Hstep; [apply Hin; left|]|]. intros w' s' Hw' HJ'.
      rewrite (cons_middle x seen rest), app_assoc. apply IH; [|done]. intros y Hy. apply Hin. by right. }
  intros w s HJ. by apply (Hgen l []).
Qed.

(** ** The join of safe tasks *)

Context {A : Type} (Q : nat -> W -> A -> Prop) (Qstable : forall i, stable (Q i)).

Record join_inv (n : nat) (outputs : list (option A)) (l : list (nat * proc W A)) (w : W) : Prop := {
  ji_length : length outputs = n;
  ji_nodup : NoDup l.*1;
  ji_live : Forall (fun x => x.1 < n /\ safe (Q x.1) x.2 w) l;
  ji_all : forall i, i < n -> i ∈ l.*1 \/ exists o, outputs !! i = Some (Some o) /\ Q i w o;
}.

Lemma join_inv_perm n outputs l l' w : l ≡ₚ l' -> join_inv n outputs l w -> join_inv n outputs l' w.
Proof. intros Hp []. split; [done|by rewrite <- Hp..|by setoid_rewrite <- Hp]. Qed.

Lemma poll_safe n outputs index p rest w :
  I w -> join_inv n outputs ((index, p) :: rest) w ->
  match poll p w with
  | (inl o, w') => I w' /\ R w w' /\ join_inv n (<[index := Some o]> outputs) rest w'
  | (inr next, w') => I w' /\ R w w' /\ join_inv n outputs ((index, next) :: rest) w'
  end.
Proof.
  intros HI [Hlen Hnd Hlive Hall]. apply Forall_cons in Hlive as [[Hi Hs] Hlive]. simpl in Hs, Hi.
  apply NoDup_cons in Hnd as [Hni Hnd].
  assert (Hdone : forall o w', R w w' -> Q index w' o -> join_inv n (<[index := Some o]> outputs) rest w').
  { intros o w' Hw' Ho. split; [by rewrite length_insert|done| |].
    - eapply Forall_impl; [exact Hlive|]. intros [j q] [? ?]. split; [done|by eapply safe_later].
    - intros i Hin. destruct (decide (i = index)) as [->|Hne].
      + right. exists o. split; [|done]. apply list_lookup_insert_eq. lia.
      + destruct (Hall i Hin) as [[->|?]%elem_of_cons|(o' & ? & ?)]; [done|by left|right].
        exists o'. rewrite list_lookup_insert_ne by done. split; [done|by eapply Qstable]. }
  assert (Hnext : forall q w', R w w' -> safe (Q index) q w' -> join_inv n outputs ((index, q) :: rest) w').
  { intros q w' Hw' Hq. split; [done|by apply NoDup_cons| |].
    - apply Forall_cons. split; [done|]. eapply Forall_impl; [exact Hlive|].
      intros [j q'] [? ?]. split; [done|by eapply safe_later].
    - intros i Hin. destruct (Hall i Hin) as [?|(o' & ? & ?)]; [by left|right].
      exists o'. split; [done|by eapply Qstable]. }
  destruct p as [a|f k]; simpl in Hs |- *; [split_and!; [done..|by apply Hdone]|].
  destruct (Hs w (reflexivity _) HI) as (HI' & HR & Hk).
  destruct (k w) as [a|f' k']; (split_and!; [done..|]); [by apply Hdone|by apply Hnext].
Qed.

Lemma round_safe n limit s w s' w' :
  I w -> join_inv n (js_outputs s) (js_running s ++ js_waiting s) w ->
  round limit s w = Some (s', w') ->
  I w' /\ R w w' /\ join_inv n (js_outputs s') (js_running s' ++ js_waiting s') w'.
Proof.
  intros HI Hinv. unfold round. pose proof (fill_perm limit (js_waiting s) (js_running s)) as Hf.
  destruct (fill _ _ _) as [waiting running]. destruct running as [|x running]; [done|].
  destruct (poll_running _ _ _ _ _) as [[outputs' running'] w2] eqn:Hrun. intros [= <- <-]. simpl.
  assert (HJ : I w2 /\ R w w2 /\ join_inv n outputs' (running' ++ waiting) w2); [|done].
  refine (poll_running_inv (fun o r w2 => I w2 /\ R w w2 /\ join_inv n o (r ++ waiting) w2) _ _ _ _ _ _ _ _ _ _ Hrun).
  - intros o r index p rest w1 Hr (HI1 & HR1 & HJ1).
    assert (HJ2 : join_inv n o ((index, p) :: (rest ++ waiting)) w1)
      by (eapply join_inv_perm; [|exact HJ1]; by rewrite Hr).
    pose proof (poll_safe _ _ _ _ _ _ HI1 HJ2) as Hp.
    destruct (poll p w1) as [[x1|next] w3]; destruct Hp as (? & ? & Hj); intros r' Hr';
      (split_and!; [done|by etransitivity|]); (eapply join_inv_perm; [|exact Hj]; by rewrite Hr').
  - split_and!; [done..|]. eapply join_inv_perm; [|exact Hinv]. by rewrite <- Hf.
Qed.

Lemma join_start_inv futures w :
  (forall i p, futures !! i = Some p -> safe (Q i) p w) ->
  join_inv (length futures) ((fun _ => None) <$> futures) ([] ++ zip (seq 0 (length futures)) futures) w.
Proof.
  intros Hs.
  assert (Hfst : (zip (seq 0 (length futures)) futures).*1 = seq 0 (length futures))
    by (apply fst_zip; rewrite length_seq; lia).
  split; cbn [app].
  - by rewrite length_fmap.
  - rewrite Hfst. apply NoDup_seq.
  - apply Forall_forall. intros [i p] (j & Hj)%list_elem_of_lookup_1.
    apply lookup_zip_Some in Hj as [[-> Hlt]%lookup_seq Hp]. split; [simpl; lia|by apply Hs].
  - intros i Hi. left. rewrite Hfst. apply elem_of_seq. lia.
Qed.

(** Every future runs to its end, and output [i] is what future [i]
    promised. *)
Lemma bounded_join_safe futures limit w :
  I w -> (forall i p, futures !! i = Some p -> safe (Q i) p w) ->
  exists fuel outputs w',
    (forall fuel', fuel <= fuel' -> bounded_join fuel' futures limit w = Some (outputs, w'))
    /\ I w' /\ R w w' /\ length outputs = length futures
    /\ forall i o, outputs !! i = Some o -> Q i w' o.
Proof.
  intros HI Hs. destruct (rounds_terminate (Nat.max limit 1) (join_start futures) w)
    as (fuel & s & w' & Hf & Hend & Hrtc).
  assert (Hinv : I w' /\ R w w' /\ join_inv (length futures) (js_outputs s) (js_running s ++ js_waiting s) w').
  { refine (rtc_ind_r (fun x => I x.2 /\ R w x.2
        /\ join_inv (length futures) (js_outputs x.1) (js_running x.1 ++ js_waiting x.1) x.2) _ _ _ _ Hrtc);
      [split_and!; [done..|by apply join_start_inv]|].
    intros [s1 w1] [s2 w2] _ Hstep (? & ? & Hj). simpl in *.
    destruct (round_safe _ _ _ _ _ _ ltac:(done) Hj Hstep) as (? & ? & ?). split_and!; [done|by etransitivity|done]. }
  destruct Hinv as (HI' & HR' & [Hlen _ _ Hall]).
  assert (Hempty : js_running s ++ js_waiting s = []).
  { unfold round in Hend. pose proof (fill_empty (Nat.max limit 1) (js_waiting s) (js_running s)) as He.
    destruct (fill _ _ _) as [waiting running]. destruct running; [|by destruct (poll_running _ _ _ _ _) as [[]]].
    destruct He as [-> ->]; [lia|done..]. }
  rewrite Hempty in Hall.
  assert (Hout : exists outs, js_outputs s = Some <$> outs
    /\ forall i o, outs !! i = Some o -> Q i w' o).
  { assert (Hsome : forall i, i < length futures -> exists o, js_outputs s !! i = Some (Some o) /\ Q i w' o).
    { intros i Hi. destruct (Hall i Hi) as [Hn|?]; [by apply not_elem_of_nil in Hn|done]. }
    exists (omap id (js_outputs s)).
    assert (Hmap : js_outputs s = Some <$> omap id (js_outputs s)).
    { apply all_some_fmap. intros i Hi. rewrite Hlen in Hi. destruct (Hsome i Hi) as (o & ? & _). eauto. }
    split; [exact Hmap|]. intros i o Ho. destruct (Hsome i) as (o' & Ho' & HQ).
    - rewrite <- Hlen, Hmap, length_fmap. by eapply lookup_lt_Some.
    - rewrite Hmap, list_lookup_fmap, Ho in Ho'. by injection Ho' as ->. }
  destruct Hout as (outs & Houts & HQ). exists fuel, outs, w'. split_and!; [|done..| |done].
  - intros fuel' Hle. unfold bounded_join. rewrite (Hf fuel' Hle). cbn. by rewrite Houts, omap_id_some.
  - by rewrite <- Hlen, Houts, length_fmap.
Qed.
End safety.

(** * What the tasks spend together

    [spends m p n]: whatever the others do, the steps of [p] add at most [n] to
    the measure [m] of the world. *)

Lemma sum_list_perm (l k : list nat) : l ≡ₚ k -> sum_list l = sum_list k.
Proof. induction 1; cbn in *; lia. Qed.

Fixpoint spends {W A} (m : W -> nat) (p : proc W A) (n : nat) : Prop :=
  match p with
  | Done _ => True
  | Step f k => forall w, exists n', m (f w) + n' <= m w + n /\ spends m (k w) n'
  end.

Section spending.
Context {W : Type} (m : W -> nat).

Lemma spends_mono {A} (p : proc W A) n n' : spends m p n -> n <= n' -> spends m p n'.
Proof.
  destruct p as [a|f k]; [done|]. intros Hs Hn w. destruct (Hs w) as (r & Hr & Hk). exists r. split; [lia|done].
Qed.

Lemma spends_pbind {A B} (p : proc W A) (g : A -> proc W B) n r :
  spends m p n -> (forall a, spends m (g a) r) -> spends m (pbind p g) (n + r).
Proof.
  revert n. induction p as [a|f k IH]; intros n Hp Hg; cbn [pbind].
  - eapply spends_mono; [apply Hg|lia].
  - intros w. destruct (Hp w) as (n' & Hn & Hk). exists (n' + r). split; [lia|]. by apply IH.
Qed.

Lemma spends_bind {E A B} (t : task W E A) (g : A -> task W E B) n r :
  spends m t n -> (forall a, spends m (g a) r) -> spends m (mbind g t) (n + r).
Proof. intros Ht Hg. apply spends_pbind; [done|]. by intros [a|e]. Qed.

Lemma spends_call {E A} (f : eff W E A) n : (forall w, m (f w).2 <= m w + n) -> spends m (call f) n.
Proof. intros Hf w. exists 0. split; [|done]. specialize (Hf w). lia. Qed.

Lemma spends_await {E A} `{Latency W} (f : eff W E A) n :
  (forall w, m (f w).2 <= m w + n) -> spends m (await f) n.
Proof.
  intros Hf w. exists n. split; [lia|]. induction (latency w) as [|polls IH]; [by apply spends_call|].
  intros w'. exists n. split; [lia|done].
Qed.

Lemma spends_for_each {E A S} (step : S -> A -> task W E S) n l :
  (forall s x, spends m (step s x) n) -> forall s, spends m (task_for_each step l s) (n * length l).
Proof.
  intros Hstep. induction l as [|x l IH]; intros s; cbn [task_for_each]; [done|].
  replace (n * length (x :: l)) with (n + n * length l) by (cbn [length]; lia).
  by apply spends_bind.
Qed.

(** The unfinished tasks, each with what it may still spend. *)
Definition funded {A} (total : nat) (l : list (nat * proc W A)) (w : W) : Prop :=
  exists k : list (nat * proc W A * nat), k.*1 ≡ₚ l /\ Forall (fun y => spends m y.1.2 y.2) k
    /\ m w + sum_list k.*2 <= total.

Lemma funded_perm {A} total (l l' : list (nat * proc W A)) w : l ≡ₚ l' -> funded total l w -> funded total l' w.
Proof. intros Hl (k & Hk & Hs & Ht). exists k. by rewrite <- Hl. Qed.

Lemma poll_funded {A} total index (p : proc W A) rest w :
  funded total ((index, p) :: rest) w ->
  match poll p w with
  | (inl _, w') => funded total rest w'
  | (inr next, w') => funded total ((index, next) :: rest) w'
  end.
Proof.
  intros (k & Hk & Hs & Ht). symmetry in Hk. apply Permutation_map_inv in Hk as (k' & E & Hp).
  destruct k' as [|[[i q] n] k']; [done|]. injection E as <- <- ->. rewrite Hp in Hs.
  apply Forall_cons in Hs as [Hq Hs]. cbn in Hq.
  assert (sum_list k.*2 = n + sum_list k'.*2) as Hsum by (apply (sum_list_perm _ (n :: k'.*2)); by rewrite Hp).
  destruct p as [a|f g]; cbn [poll].
  - exists k'. split_and!; [done..|lia].
  - destruct (Hq w) as (n' & Hn & Hg). destruct (g w) as [a|f' g'].
    + exists k'. split_and!; [done..|lia].
    + exists ((index, Step f' g', n') :: k'). split_and!; [done|by apply Forall_cons|cbn in *; lia].
Qed.

Lemma round_funded {A} total limit (s : join_state W A) w s' w' :
  funded total (js_running s ++ js_waiting s) w -> round limit s w = Some (s', w') ->
  funded total (js_running s' ++ js_waiting s') w'.
Proof.
  intros Hfund. unfold round. pose proof (fill_perm limit (js_waiting s) (js_running s)) as Hf.
  destruct (fill _ _ _) as [waiting running]. destruct running as [|x running]; [done|].
  destruct (poll_running _ _ _ _ _) as [[outputs' running'] w2] eqn:Hrun. intros [= <- <-]. cbn.
  refine (poll_running_inv (fun _ r w2 => funded total (r ++ waiting) w2) _ _ _ _ _ _ _ _ _ _ Hrun).
  - intros o r index p rest w1 Hr HJ. eapply (funded_perm _ _ ((index, p) :: (rest ++ waiting))) in HJ; [|by rewrite Hr].
    apply poll_funded in HJ. destruct (poll p w1) as [[x1|next] w3]; intros r' Hr';
      (eapply funded_perm; [|exact HJ]; by rewrite Hr').
  - eapply funded_perm; [|exact Hfund]. by rewrite <- Hf.
Qed.

(** Together the futures spend no more than each of them may. *)
Lemma bounded_join_spends {A} fuel (futures : list (proc W A)) limit w outputs w' ns :
  Forall2 (spends m) futures ns -> bounded_join fuel futures limit w = Some (outputs, w') ->
  m w' <= m w + sum_list ns.
Proof.
  intros Hns Hj. unfold bounded_join in Hj. apply bind_Some in Hj as ([s w1] & Hr & [= _ <-]).
  assert (funded (m w + sum_list ns) (js_running (join_start futures) ++ js_waiting (join_start futures)) w) as Hf.
  { exists (zip (zip (seq 0 (length futures)) futures) ns). pose proof (Forall2_length _ _ _ Hns) as Hlen.
    assert (length (zip (seq 0 (length futures)) futures) = length futures) as Hz
      by (rewrite length_zip_with, length_seq; lia).
    cbn [join_start js_running js_waiting app]. rewrite fst_zip, snd_zip by lia. split_and!; [done| |lia].
    apply Forall_forall. intros [[i p] n] (j & Hj')%list_elem_of_lookup_1.
    apply lookup_zip_Some in Hj' as [[_ Hp]%lookup_zip_Some Hn]. cbn.
    by eapply (Forall2_lookup_lr _ _ _ j). }
  revert Hr Hf. generalize (join_start futures) as s0, w as w0, (m w + sum_list ns) as total. clear.
  induction fuel as [|fuel IH]; intros s0 w0 total; cbn [rounds]; [done|].
  destruct (round _ s0 w0) as [[s2 w2]|] eqn:Hround.
  - intros Hr Hf. eapply IH; [exact Hr|]. by eapply round_funded.
  - intros [= <- <-] (k & _ & _ & Ht). lia.
Qed.
End spending.

(** * Every future is run, in bounded number *)

(** A value a task can end with, whatever the world does in between. *)
Fixpoint returns {W A} (p : proc W A) (a : A) : Prop :=
  match p with
  | Done b => b = a
  | Step _ k => exists w, returns (k w) a
  end.

#[local] Instance any_preorder {W} : PreOrder (fun _ _ : W => True).
Proof. by split. Qed.

Lemma safe_returns {W A} (p : proc W A) (w : W) :
  safe (fun _ => True) (fun _ _ => True) (fun _ a => returns p a) p w.
Proof.
  revert w. induction p as [a|f k IH]; intros w; simpl; [done|]. intros w1 _ _. split_and!; [done..|].
  eapply safe_weaken; [apply _|apply IH|]. intros w' a _ Ha. by exists w1.
Qed.

(** C30: [bounded_join] runs every future to its end, whatever the futures do
    to the world they share: it finishes, gives one output per future, in the
    order of the futures, and at no moment has more than [limit] (at least
    one) of them in flight. *)
Theorem bounded_join_runs_every_future {W A} (futures : list (proc W A)) limit (w : W) :
  (exists fuel outputs w',
     (forall fuel', fuel <= fuel' -> bounded_join fuel' futures limit w = Some (outputs, w'))
     /\ length outputs = length futures
     /\ forall i o, outputs !! i = Some o -> exists p, futures !! i = Some p /\ returns p o)
  /\ forall s w', rtc (round_step (Nat.max limit 1)) (join_start futures, w) (s, w') ->
       length (js_running s) <= Nat.max limit 1
       /\ length (fill (Nat.max limit 1) (js_waiting s) (js_running s)).2 <= Nat.max limit 1.
Proof.
  split.
  - set (Q := fun (i : nat) (_ : W) (o : A) => exists p, futures !! i = Some p /\ returns p o).
    assert (Hstable : forall i, stable (fun _ _ : W => True) (Q i)) by (intros i w1 w2 a _ Ha; exact Ha).
    destruct (bounded_join_safe (fun _ => True) (fun _ _ => True) Q Hstable futures limit w)
      as (fuel & outputs & w' & Hf & _ & _ & Hlen & HQ); [done| |by exists fuel, outputs, w'].
    intros i p Hp. eapply safe_weaken; [apply _|apply safe_returns|]. intros w' a _ Ha. by exists p.
  - intros s w' Hrtc.
    assert (Hb : length (js_running s) <= Nat.max limit 1); [|split; [done|by apply fill_bound]].
    refine (rtc_ind_r (fun x => length (js_running x.1) <= Nat.max limit 1) _ _ _ _ Hrtc); [simpl; lia|].
    intros [s1 w1] [s2 w2] _ Hstep Hle. by eapply round_bound.
Qed.
