(* ===== verification/Observations.v ===== *)
(** * Observation intake

    [gateway-application/src/observations.rs] (with the repository error of
    [ports.rs]): sources, watched collectors, lane cursors, and the service
    that resolves raw readings against the allowlists and stores what belongs
    to this gateway. *)

From Stdlib Require Import Ascii String Strings.Byte.
From stdpp Require Import sets.
From S2P Require Import Prelude RustStd Externals Effects Money Chain.

Local Open Scope Z_scope.

Inductive RepositoryError :=
  | IdempotencyConflict | DuplicateReference | PaymentIntentNotQuotable | PaymentIntentNotCancellable
  | CollectorUnavailable | AmountSlotsExhausted | CorruptData (detail : string) | LeaseLost
  | TransitionRefused (detail : string) | Unavailable (detail : string).
Definition RepositoryError_is_transient (e : RepositoryError) : bool :=
  match e with Unavailable _ => true | _ => false end.

Inductive ObservationError :=
  | UnknownSourceKind (s : string)
  | UnknownSourceState (s : string)
  | UnknownCollectorState (s : string)
  | InvalidCursorValue
  | InvalidFenceToken
  | ObsInvalidAmount
  | ObsInvalidTxHash
  | ObsRepository (e : RepositoryError).
Definition ObservationError_is_transient (e : ObservationError) : bool :=
  match e with ObsRepository error => RepositoryError_is_transient error | _ => false end.

Inductive SourceKind := OwnNode | HostedRpc | IndexedApi.
Definition SourceKind_as_str (k : SourceKind) : string :=
  match k with OwnNode => "own_node" | HostedRpc => "hosted_rpc" | IndexedApi => "indexed_api" end.
Definition SourceKind_parse : string -> result ObservationError SourceKind :=
  parse_table [("own_node", OwnNode); ("hosted_rpc", HostedRpc); ("indexed_api", IndexedApi)]
    UnknownSourceKind.

Inductive SourceState := SourceActive | Degraded | Disabled.
Definition SourceState_as_str (s : SourceState) : string :=
  match s with SourceActive => "active" | Degraded => "degraded" | Disabled => "disabled" end.
Definition SourceState_parse : string -> result ObservationError SourceState :=
  parse_table [("active", SourceActive); ("degraded", Degraded); ("disabled", Disabled)]
    UnknownSourceState.

Inductive CollectorState := CollectorActive | ReceivingOnly | Retired.
Definition CollectorState_as_str (s : CollectorState) : string :=
  match s with CollectorActive => "active" | ReceivingOnly => "receiving_only" | Retired => "retired" end.
Definition CollectorState_parse : string -> result ObservationError CollectorState :=
  parse_table [("active", CollectorActive); ("receiving_only", ReceivingOnly); ("retired", Retired)]
    UnknownCollectorState.
Definition CollectorState_is_watched (s : CollectorState) : bool :=
  match s with CollectorActive | ReceivingOnly => true | Retired => false end.

Record ChainSource := mkChainSource {
  cs_id : Z;                         (* Uuid *)
  cs_chain : string;
  cs_network : string;
  cs_chain_environment : ChainEnvironment;
  cs_source_key : string;
  cs_provider_group : string;
  cs_kind : SourceKind;
  cs_db_principal : string;
  cs_state : SourceState;
}.

Record CollectorWatch := mkCollectorWatch {
  cw_collector_address_id : Z;       (* Uuid *)
  cw_address_key : AddressKey;
  cw_address_text : string;
  cw_asset_id : Z;                   (* Uuid *)
  cw_token_key : AddressKey;
  cw_decimals : Z;                   (* i16 *)
  cw_token_display : string;
  cw_chain : string;
  cw_network : string;
  cw_chain_environment : ChainEnvironment;
  cw_state : CollectorState;
}.

Record ComponentLease := mkComponentLease {
  cl_component : string;
  cl_holder : string;
  cl_fence_token : Z;                (* i64 *)
  cl_lease_until : Z;                (* OffsetDateTime *)
}.

Inductive CursorKind := CursorBlock | LogicalTime | EventPosition.
Definition CursorKind_as_str (k : CursorKind) : string :=
  match k with CursorBlock => "block" | LogicalTime => "logical_time" | EventPosition => "event_position" end.
Definition CursorKind_is_numeric (k : CursorKind) : bool :=
  match k with CursorBlock | LogicalTime => true | EventPosition => false end.

Record CursorPosition := mkCursorPosition {
  cp_kind : CursorKind;
  cp_value : string;
  cp_last_block_hash : option string;
  cp_fence_token : Z;                (* i64 *)
}.
Definition CursorPosition_new (kind : CursorKind) (value : string) (last_block_hash : option string)
    (fence_token : Z) : result ObservationError CursorPosition :=
  let valid := negb (bool_decide (value = "")) && (str_len value <=? 200)
    && (negb (CursorKind_is_numeric kind) || str_forallb is_ascii_digit value) in
  if negb valid then Err InvalidCursorValue
  else if fence_token <=? 0 then Err InvalidFenceToken
  else Ok (mkCursorPosition kind value last_block_hash fence_token).

Record IntakeReport := mkIntakeReport {
  ir_recorded : Z;                   (* u32 *)
  ir_duplicates : Z;
  ir_refused : Z;
  ir_cursor_advanced : bool;
}.

Inductive RefusalReason := ForeignEnvironment | RefForeignRecipient | RetiredCollector | ForeignChain.
#[export] Instance RefusalReason_eq_dec : EqDecision RefusalReason.
Proof. solve_decision. Defined.
Definition RefusalReason_as_str (r : RefusalReason) : string :=
  match r with
  | ForeignEnvironment => "foreign_environment"
  | RefForeignRecipient => "foreign_recipient"
  | RetiredCollector => "retired_collector"
  | ForeignChain => "foreign_chain"
  end.

Record ResolvedObservation := mkResolvedObservation {
  ro_transfer : ObservedTransfer;
  ro_kind : ObservationKind;
  ro_collector_address_id : Z;       (* Uuid *)
  ro_asset_id : option Z;
  ro_semantic_hash : list byte;      (* 32 bytes *)
  ro_observer_version : string;
  ro_parser_version : string;
  ro_fence_token : Z;
  ro_observed_at : Z;
}.

Record ScanPage := mkScanPage {
  pg_transfers : list ObservedTransfer;
  pg_next_cursor : option CursorPosition;
  pg_head : option Z;
}.

Inductive ScanError := ScanUnreachable (detail : string) | ScanUnparseable (detail : string).
Definition ScanError_is_transient (e : ScanError) : bool :=
  match e with ScanUnreachable _ => true | ScanUnparseable _ => false end.

(** What a lane reads through: a scanner never moves a cursor itself. *)
Class ChainScanner (W : Type) := {
  scanner_scan : CollectorWatch -> option CursorPosition -> Z -> eff W ScanError ScanPage;
}.

Class ObservationRepository (W : Type) := {
  find_source : string -> eff W RepositoryError (option ChainSource);
  watched_collectors :
    string -> string -> ChainEnvironment -> eff W RepositoryError (list CollectorWatch);
  find_cursor : Z -> ObservationKind -> Z -> eff W RepositoryError (option CursorPosition);
  record_observations :
    ChainSource -> ComponentLease -> list ResolvedObservation ->
    option (Z * ObservationKind * CursorPosition) -> eff W RepositoryError IntakeReport;
}.

Record ObservationService := mkObservationService {
  os_observer_version : string;
  os_parser_version : string;
}.

Definition resolve (source : ChainSource) (collectors : list CollectorWatch) (transfer : ObservedTransfer)
    : result RefusalReason (Z * option Z) :=
  if negb (String.eqb (ot_chain transfer) (cs_chain source))
     || negb (String.eqb (ot_network transfer) (cs_network source))
  then Err ForeignChain
  else if negb (bool_decide (ot_chain_environment transfer = cs_chain_environment source))
  then Err ForeignEnvironment
  else
    let watched := filter (fun c => cw_address_key c = ot_to_address transfer) collectors in
    match watched with
    | [] => Err RefForeignRecipient
    | collector :: _ =>
        if negb (CollectorState_is_watched (cw_state collector)) then Err RetiredCollector
        else
          let asset_id := cw_asset_id ∘ snd
            <$> list_find (fun c => cw_token_key c = ot_token_key transfer) watched in
          Ok (cw_collector_address_id collector, asset_id)
    end.

Definition parse_raw_amount `{U256Lib} (value : string) : result ObservationError RawAmount :=
  map_err (fun _ => ObsInvalidAmount) (RawAmount_from_str value).
Definition parse_tx_hash (value : string) : result ObservationError TxHash :=
  map_err (fun _ => ObsInvalidTxHash) (TxHash_new value).

Section intake.
Context {W : Type} `{U256Lib} `{HashLib} `{Clock W} `{ObservationRepository W}.

(** The loop that splits a batch into what is stored and what is refused. *)
Definition intake_step (self : ObservationService) (source : ChainSource) (lease : ComponentLease)
    (kind : ObservationKind) (collectors : list CollectorWatch) (now : Z)
    (st : list ResolvedObservation * list (ObservedTransfer * RefusalReason))
    (transfer : ObservedTransfer)
    : list ResolvedObservation * list (ObservedTransfer * RefusalReason) :=
  let '(resolved, refused) := st in
  match resolve source collectors transfer with
  | Ok (collector, asset_id) =>
      (resolved ++ [{| ro_transfer := transfer; ro_kind := kind; ro_collector_address_id := collector;
                       ro_asset_id := asset_id;
                       ro_semantic_hash := semantic_hash transfer (cs_id source) kind;
                       ro_observer_version := os_observer_version self;
                       ro_parser_version := os_parser_version self;
                       ro_fence_token := cl_fence_token lease; ro_observed_at := now |}], refused)
  | Err reason => (resolved, refused ++ [(transfer, reason)])
  end.

Definition intake (self : ObservationService) (source : ChainSource) (lease : ComponentLease)
    (kind : ObservationKind) (collectors : list CollectorWatch) (transfers : list ObservedTransfer)
    (cursor : option (Z * CursorPosition))
    : eff W ObservationError (IntakeReport * list (ObservedTransfer * RefusalReason)) :=
  now ← read_clock;
  let '(resolved, refused) :=
    fold_left (intake_step self source lease kind collectors now) transfers ([], []) in
  let cursor := (fun '(collector, position) => (collector, kind, position)) <$> cursor in
  report ← eff_map_err ObsRepository (record_observations source lease resolved cursor);
  mret ({| ir_recorded := ir_recorded report; ir_duplicates := ir_duplicates report;
           ir_refused := len_u32 refused; ir_cursor_advanced := ir_cursor_advanced report |},
        refused).
End intake.

#[refine, export] Instance SourceKind_text : TextEnum ObservationError SourceKind := {|
  text_as_str := SourceKind_as_str; text_parse := SourceKind_parse; text_unknown := UnknownSourceKind |}.
Proof. all: solve_text_enum. Defined.
#[refine, export] Instance SourceState_text : TextEnum ObservationError SourceState := {|
  text_as_str := SourceState_as_str; text_parse := SourceState_parse; text_unknown := UnknownSourceState |}.
Proof. all: solve_text_enum. Defined.
#[refine, export] Instance CollectorState_text : TextEnum ObservationError CollectorState := {|
  text_as_str := CollectorState_as_str; text_parse := CollectorState_parse;
  text_unknown := UnknownCollectorState |}.
Proof. all: solve_text_enum. Defined.

(** * Lemmas *)

(** A reading is about this gateway: its chain and environment are the
    source's, its recipient a collector that is still watched, and its asset
    (when it has one) an allowlist entry of that recipient with the same
    contract bytes. *)
Definition belongs (source : ChainSource) (collectors : list CollectorWatch) (t : ObservedTransfer)
    (collector : Z) (asset : option Z) : Prop :=
  ot_chain t = cs_chain source /\ ot_network t = cs_network source
  /\ ot_chain_environment t = cs_chain_environment source
  /\ (exists c, c ∈ collectors /\ cw_address_key c = ot_to_address t
        /\ cw_state c <> Retired /\ cw_collector_address_id c = collector)
  /\ match asset with
     | Some a => exists c, c ∈ collectors /\ cw_address_key c = ot_to_address t
                   /\ cw_token_key c = ot_token_key t /\ cw_asset_id c = a
     | None => forall c, c ∈ collectors -> cw_address_key c = ot_to_address t ->
                 cw_token_key c <> ot_token_key t
     end.

Lemma resolve_Ok source collectors t collector asset :
  resolve source collectors t = Ok (collector, asset) -> belongs source collectors t collector asset.
Proof.
  unfold resolve. destruct (_ || _) eqn:Hc; [done|]. bool_to_prop.
  apply String.eqb_eq in H, H0. case_bool_decide as He; [|done]. cbn [negb].
  destruct (filter _ collectors) as [|c watched] eqn:Hw; [done|].
  assert (Hin : forall d, d ∈ c :: watched <-> cw_address_key d = ot_to_address t /\ d ∈ collectors)
    by (intros d; rewrite <- Hw; by rewrite list_elem_of_filter).
  destruct (CollectorState_is_watched (cw_state c)) eqn:Hs; [|done]. cbn [negb]. cbv zeta.
  destruct (list_find (fun d => cw_token_key d = ot_token_key t) (c :: watched)) as [[i d]|] eqn:Hf;
    intros [= <- <-]; unfold belongs;
    (split_and!; [done..| |]);
    try (exists c; destruct (proj1 (Hin c)) as [? ?]; [left|]; split_and!; try done;
         by intros E; rewrite E in Hs).
  - apply list_find_Some in Hf as (Hd & Ht & _). apply list_elem_of_lookup_2, Hin in Hd as [? ?]. by exists d.
  - apply list_find_None in Hf. intros d Hd Ha. rewrite Forall_forall in Hf. by apply Hf, Hin.
Qed.

Section intake_properties.
Context {W : Type} `{U256Lib} `{HashLib} `{Clock W} `{ObservationRepository W}.

(** What a stored observation must say. *)
Definition stored_ok (self : ObservationService) (source : ChainSource) (lease : ComponentLease)
    (kind : ObservationKind) (collectors : list CollectorWatch) (now : Z) (r : ResolvedObservation) : Prop :=
  belongs source collectors (ro_transfer r) (ro_collector_address_id r) (ro_asset_id r)
  /\ ro_kind r = kind /\ ro_semantic_hash r = semantic_hash (ro_transfer r) (cs_id source) kind
  /\ ro_fence_token r = cl_fence_token lease /\ ro_observed_at r = now.

Record intake_inv self source lease kind collectors now seen
    (st : list ResolvedObservation * list (ObservedTransfer * RefusalReason)) : Prop := {
  ii_account : (ro_transfer <$> st.1) ++ st.2.*1 ≡ₚ seen;
  ii_stored : Forall (stored_ok self source lease kind collectors now) st.1;
  ii_refused : Forall (fun x => resolve source collectors x.1 = Err x.2) st.2;
}.

Lemma intake_fold_inv self source lease kind collectors now transfers seen st :
  intake_inv self source lease kind collectors now seen st ->
  intake_inv self source lease kind collectors now (seen ++ transfers)
    (fold_left (intake_step self source lease kind collectors now) transfers st).
Proof.
  revert seen st. induction transfers as [|t ts IH]; intros seen st Hinv; cbn [fold_left].
  { by rewrite app_nil_r. }
  rewrite (cons_middle t seen ts), app_assoc. apply IH. destruct st as [R F], Hinv as [Hacc Hst Hrf].
  simpl in *. unfold intake_step. destruct (resolve source collectors t) as [[c a]|reason] eqn:Hr; split; simpl.
  - rewrite fmap_app, <- Hacc. simpl. rewrite <- !app_assoc.
    apply Permutation_app_head, Permutation_app_comm.
  - apply Forall_app. split; [done|]. apply Forall_singleton. split_and!; try done. by apply resolve_Ok.
  - done.
  - rewrite fmap_app, app_assoc. by rewrite Hacc.
  - done.
  - apply Forall_app. split; [done|]. by apply Forall_singleton.
Qed.

(** Intake loses no reading and stores no stranger's: every reading of
    the batch is handed to storage or returned with the reason it was
    refused, exactly once; what is stored carries its claim hash and the
    caller's fence token and belongs to this gateway (its chain, a collector
    still watched, an asset only by matching contract bytes). *)
Theorem intake_accounts_for_every_reading self source lease kind collectors transfers cursor
    (w : W) report refused w' :
  intake self source lease kind collectors transfers cursor w = (Ok (report, refused), w') ->
  exists now w1 resolved stored,
    clock_now w = (now, w1)
    /\ record_observations source lease resolved
         ((fun '(collector, position) => (collector, kind, position)) <$> cursor) w1 = (Ok stored, w')
    /\ (ro_transfer <$> resolved) ++ refused.*1 ≡ₚ transfers
    /\ Forall (stored_ok self source lease kind collectors now) resolved
    /\ Forall (fun x => resolve source collectors x.1 = Err x.2) refused
    /\ ir_refused report = Z.min U32_MAX (Z.of_nat (length refused))
    /\ ir_recorded report = ir_recorded stored /\ ir_cursor_advanced report = ir_cursor_advanced stored.
Proof.
  intros Hrun. unfold intake in Hrun. inv_eff Hrun.
  unfold read_clock in Hm. destruct (clock_now w) as [now w1] eqn:Hclock. injection Hm as <- <-.
  pose proof (intake_fold_inv self source lease kind collectors now transfers [] ([], [])) as Hinv.
  destruct (fold_left _ transfers _) as [resolved rf]. inv_eff Hrun.
  simplify_eq.
  destruct Hinv as [Hacc Hst Hrf]; [split; simpl; done || constructor|].
  exists now, w1, resolved, v. rewrite len_u32_min. by split_and!.
Qed.
End intake_properties.

(** ** A concrete store

    The world is the list of stored observations; the clock stands at zero. *)

Import ReferenceInstances.

Definition SampleStore : Type := list ResolvedObservation.
#[local] Instance sample_clock : Clock SampleStore := {| clock_now w := (0, w) |}.
#[local] Instance sample_observations : ObservationRepository SampleStore := {|
  find_source _ := mret None; watched_collectors _ _ _ := mret []; find_cursor _ _ _ := mret None;
  record_observations _ _ new _ w :=
    (Ok {| ir_recorded := len_u32 new; ir_duplicates := 0; ir_refused := 0; ir_cursor_advanced := false |},
     w ++ new) |}.

Definition sample_source : ChainSource := {|
  cs_id := 1; cs_chain := "tron"; cs_network := "mainnet"; cs_chain_environment := Mainnet;
  cs_source_key := "own"; cs_provider_group := "own"; cs_kind := OwnNode; cs_db_principal := "observer";
  cs_state := SourceActive |}.
Definition sample_watch : CollectorWatch := {|
  cw_collector_address_id := 8; cw_address_key := ot_to_address sample_transfer; cw_address_text := "TTo";
  cw_asset_id := 7; cw_token_key := ot_token_key sample_transfer; cw_decimals := 6;
  cw_token_display := "USDT"; cw_chain := "tron"; cw_network := "mainnet";
  cw_chain_environment := Mainnet; cw_state := CollectorActive |}.
Definition sample_lease : ComponentLease :=
  {| cl_component := "observer"; cl_holder := "a"; cl_fence_token := 3; cl_lease_until := 100 |}.

Lemma intake_accounts_for_every_reading_witness :
  exists report refused w',
    intake (mkObservationService "o1" "p1") sample_source sample_lease CursorScan [sample_watch]
      [sample_transfer] None [] = (Ok (report, refused), w')
    /\ ir_refused report = Z.min U32_MAX (Z.of_nat (length refused)).
Proof.
  destruct (intake (mkObservationService "o1" "p1") sample_source sample_lease CursorScan [sample_watch]
      [sample_transfer] None []) as [[[report refused]|e] w'] eqn:Hrun; [|vm_compute in Hrun; discriminate Hrun].
  exists report, refused, w'. split; [reflexivity|].
  destruct (intake_accounts_for_every_reading _ _ _ _ _ _ _ _ _ _ _ Hrun)
    as (now & w1 & resolved & stored & _ & _ & _ & _ & _ & Hr & _). exact Hr.
Defined.
