(* ===== verification/PaymentIntent.v ===== *)
(** * Payment intents

    [gateway-domain/src/payment_intent.rs]: the status of an obligation and
    the constructor that bounds everything a merchant supplies. *)

From Stdlib Require Import Ascii String.
From S2P Require Import Prelude RustStd Externals Money Chain.

Local Open Scope Z_scope.

Definition MAX_METADATA_BYTES : Z := 16384.

Inductive PaymentIntentStatus :=
  | RequiresQuote | AwaitingPayment | PartiallyPaid | RiskHold | Paid | Expired | Cancelled.
#[export] Instance PaymentIntentStatus_eq_dec : EqDecision PaymentIntentStatus.
Proof. solve_decision. Defined.

Inductive PaymentIntentError :=
  | InvalidReference
  | DescriptionTooLong
  | MetadataMustBeObject
  | MetadataTooLarge
  | UnknownStatus (s : string).

Definition PaymentIntentError_to_string (e : PaymentIntentError) : string :=
  match e with
  | InvalidReference => "reference must contain between 1 and 128 characters"
  | DescriptionTooLong => "description must not exceed 500 characters"
  | MetadataMustBeObject => "metadata must be a JSON object"
  | MetadataTooLarge => "metadata must not exceed 16384 bytes when serialized"
  | UnknownStatus s => String.append "unknown payment intent status: " s
  end.

Definition PaymentIntentStatus_as_str (s : PaymentIntentStatus) : string :=
  match s with
  | RequiresQuote => "requires_quote"
  | AwaitingPayment => "awaiting_payment"
  | PartiallyPaid => "partially_paid"
  | RiskHold => "risk_hold"
  | Paid => "paid"
  | Expired => "expired"
  | Cancelled => "cancelled"
  end.

Definition PaymentIntentStatus_from_str : string -> result PaymentIntentError PaymentIntentStatus :=
  parse_table
    [("requires_quote", RequiresQuote); ("awaiting_payment", AwaitingPayment);
     ("partially_paid", PartiallyPaid); ("risk_hold", RiskHold); ("paid", Paid);
     ("expired", Expired); ("cancelled", Cancelled)] UnknownStatus.

Record PaymentIntent := mkPaymentIntent {
  pi_id : Z;
  pi_merchant_id : Z;
  pi_amount : FiatAmount;
  pi_status : PaymentIntentStatus;
  pi_reference : string;
  pi_description : option string;
  pi_metadata : json;
  pi_created_at : Z;
  pi_updated_at : Z;
}.

Section create.
Context `{JsonLib}.

(** [fresh_id] is what [Uuid::now_v7] returned. *)
Definition PaymentIntent_create (fresh_id merchant_id : Z) (amount : FiatAmount)
    (reference : string) (description : option string) (metadata : json) (now : Z)
    : result PaymentIntentError PaymentIntent :=
  if bool_decide (reference = "") || (128 <? str_len reference) then Err InvalidReference
  else if match description with Some d => 500 <? str_len d | None => false end
  then Err DescriptionTooLong
  else if negb (json_is_object metadata) then Err MetadataMustBeObject
  else if MAX_METADATA_BYTES <? str_len (json_to_string metadata) then Err MetadataTooLarge
  else Ok {|
    pi_id := fresh_id; pi_merchant_id := merchant_id; pi_amount := amount;
    pi_status := RequiresQuote; pi_reference := reference; pi_description := description;
    pi_metadata := metadata; pi_created_at := now; pi_updated_at := now |}.

(** What every stored intent satisfies. *)
Definition PaymentIntent_wf (p : PaymentIntent) : Prop :=
  1 <= str_len (pi_reference p) <= 128
  /\ (forall d, pi_description p = Some d -> str_len d <= 500)
  /\ json_is_object (pi_metadata p) = true
  /\ str_len (json_to_string (pi_metadata p)) <= MAX_METADATA_BYTES.
End create.

(** * Lemmas and properties *)

#[refine, export] Instance PaymentIntentStatus_text : TextEnum PaymentIntentError PaymentIntentStatus := {|
  text_as_str := PaymentIntentStatus_as_str; text_parse := PaymentIntentStatus_from_str;
  text_unknown := UnknownStatus |}.
Proof. all: solve_text_enum. Defined.

Lemma str_len_pos s : s <> "" -> 1 <= str_len s.
Proof. destruct s; [done|]. unfold str_len. simpl. lia. Qed.

(** an intent is created exactly when its reference, description and
    metadata are within bounds; it then starts in [requires_quote] with both
    timestamps at the moment of creation, and satisfies the invariant. *)
Theorem payment_intent_create_spec `{JsonLib} id merchant amount reference description metadata now :
  match PaymentIntent_create id merchant amount reference description metadata now with
  | Ok p => PaymentIntent_wf p /\ pi_status p = RequiresQuote
            /\ pi_amount p = amount /\ pi_merchant_id p = merchant
            /\ pi_created_at p = now /\ pi_updated_at p = now
  | Err InvalidReference => reference = "" \/ 128 < str_len reference
  | Err DescriptionTooLong => exists d, description = Some d /\ 500 < str_len d
  | Err MetadataMustBeObject => json_is_object metadata = false
  | Err MetadataTooLarge => MAX_METADATA_BYTES < str_len (json_to_string metadata)
  | Err (UnknownStatus _) => False
  end.
Proof.
  unfold PaymentIntent_create. case_bool_decide as Href; simpl; [by left|].
  destruct (Z.ltb_spec 128 (str_len reference)); [by right|].
  destruct (match description with Some d => _ | None => _ end) eqn:Hd.
  { destruct description as [d|]; [|done]. bool_to_prop. eauto. }
  destruct (json_is_object metadata) eqn:Hm; simpl; [|done].
  destruct (Z.ltb_spec MAX_METADATA_BYTES (str_len (json_to_string metadata))); [done|].
  unfold PaymentIntent_wf; simpl. apply str_len_pos in Href. split_and!; try done.
  intros d ->. bool_to_prop. lia.
Qed.
