(* ===== verification/Quote.v ===== *)
(** * Quotes

    [gateway-domain/src/quote.rs]: the evidence a quote rests on and the
    construction of an immutable plan that fails closed. *)

From Stdlib Require Import Ascii String.
From S2P Require Import Prelude RustStd Externals Money.

Local Open Scope Z_scope.

Definition MAX_AMOUNT_SLOT_COUNT : Z := 10000.

Inductive RailHealth := Healthy | Degraded | Unavailable.
#[export] Instance RailHealth_eq_dec : EqDecision RailHealth.
Proof. solve_decision. Defined.

Record PriceSnapshot := mkPriceSnapshot {
  ps_id : Z;
  ps_rate_numerator : RawAmount;
  ps_rate_denominator : RawAmount;
  ps_sources : json;
  ps_observed_at : Z;
}.

Record QuotePolicySnapshot := mkQuotePolicySnapshot {
  qp_id : Z;
  qp_version : string;
  qp_quote_ttl_seconds : Z;
  qp_late_payment_window_seconds : Z;
  qp_amount_slot_count : Z;             (* u32 *)
  qp_max_price_age_seconds : Z;
  qp_max_policy_age_seconds : Z;
  qp_max_rail_health_age_seconds : Z;
  qp_observed_at : Z;
}.

Record RailHealthSnapshot := mkRailHealthSnapshot {
  rh_id : Z;
  rh_health : RailHealth;
  rh_observed_at : Z;
}.

Record QuotePlan := mkQuotePlan {
  plan_quote_id : Z;
  plan_attempt_id : Z;
  plan_merchant_id : Z;
  plan_payment_intent_id : Z;
  plan_asset_id : Z;
  plan_collector_address_id : Z;
  plan_collector_address : string;
  plan_price_snapshot_id : Z;
  plan_quote_policy_id : Z;
  plan_rail_health_snapshot_id : Z;
  plan_fiat_amount : FiatAmount;
  plan_base_amount_raw : RawAmount;
  plan_rate_numerator : RawAmount;
  plan_rate_denominator : RawAmount;
  plan_price_sources : json;
  plan_price_observed_at : Z;
  plan_policy_version : string;
  plan_policy_observed_at : Z;
  plan_max_price_age_seconds : Z;
  plan_max_policy_age_seconds : Z;
  plan_max_rail_health_age_seconds : Z;
  plan_rail_health_observed_at : Z;
  plan_amount_slot_count : Z;
  plan_created_at : Z;
  plan_expires_at : Z;
  plan_late_payment_until : Z;
}.

(** The token a quote is paid in. *)
Record QuoteAsset := mkQuoteAsset {
  qa_chain : string;
  qa_network : string;
  qa_chain_environment : string;
  qa_symbol : string;
  qa_decimals : Z;                      (* u8 *)
  qa_contract_address : string;
}.

Record IssuedQuote := mkIssuedQuote {
  iq_id : Z;
  iq_attempt_id : Z;
  iq_payment_intent_id : Z;
  iq_asset_id : Z;
  iq_collector_address_id : Z;
  iq_collector_address : string;
  iq_price_snapshot_id : Z;
  iq_quote_policy_id : Z;
  iq_rail_health_snapshot_id : Z;
  iq_fiat_amount : FiatAmount;
  iq_amount_raw : RawAmount;
  iq_rate_numerator : RawAmount;
  iq_rate_denominator : RawAmount;
  iq_price_sources : json;
  iq_price_observed_at : Z;
  iq_policy_version : string;
  iq_rail_health_observed_at : Z;
  iq_created_at : Z;
  iq_expires_at : Z;
  iq_late_payment_until : Z;
  iq_asset : QuoteAsset;
  iq_amount : string;
  iq_checkout_token : string;
}.

Inductive QuoteError :=
  | UnknownPrice
  | UnknownPolicy
  | UnknownRailHealth
  | StalePrice
  | StalePolicy
  | StaleRailHealth
  | UnhealthyRail
  | InvalidPriceSources
  | InvalidCollectorAddress
  | InvalidPolicy
  | QuoteMoney (e : MoneyError).

(** The non-empty provider groups the sources name. *)
Definition source_group (source : json) : option string :=
  g ← json_get source "provider_group";
  g ← json_as_str g;
  if bool_decide (g = "") then None else Some g.

Definition has_independent_price_sources (sources : json) : bool :=
  match json_as_array sources with
  | None => false
  | Some sources =>
      if Z.of_nat (length sources) <? 2 then false
      else
        let groups := distinct_count (omap source_group sources) in
        (2 <=? groups) && (groups =? Z.of_nat (length sources))
  end.

Definition validate_policy (policy : QuotePolicySnapshot) : result QuoteError unit :=
  let valid :=
    negb (bool_decide (qp_version policy = ""))
    && (str_len (qp_version policy) <=? 100)
    && (0 <? qp_quote_ttl_seconds policy)
    && (0 <? qp_late_payment_window_seconds policy)
    && in_range 1 MAX_AMOUNT_SLOT_COUNT (qp_amount_slot_count policy)
    && (0 <=? qp_max_price_age_seconds policy)
    && (0 <=? qp_max_policy_age_seconds policy)
    && (0 <=? qp_max_rail_health_age_seconds policy) in
  if negb valid then Err InvalidPolicy else Ok tt.

Section build.
Context `{U256Lib} `{TimeLib}.

Definition validate_age (now observed_at max_age_seconds : Z) : result unit unit :=
  deadline ← ok_or (odt_checked_add observed_at (duration_seconds max_age_seconds)) tt;
  if (now <? observed_at) || (deadline <? now) then Err tt else Ok tt.

(** [fresh_quote_id] and [fresh_attempt_id] are what the two [Uuid::now_v7]
    calls returned. *)
Definition QuotePlan_build (fresh_quote_id fresh_attempt_id : Z)
    (merchant_id payment_intent_id asset_id collector_address_id : Z)
    (collector_address : string) (fiat_amount : FiatAmount)
    (price : option PriceSnapshot) (policy : option QuotePolicySnapshot)
    (rail : option RailHealthSnapshot) (now : Z) : result QuoteError QuotePlan :=
  price ← ok_or price UnknownPrice;
  policy ← ok_or policy UnknownPolicy;
  rail ← ok_or rail UnknownRailHealth;
  _ ← validate_policy policy;
  _ ← map_err (fun _ => StalePrice)
        (validate_age now (ps_observed_at price) (qp_max_price_age_seconds policy));
  _ ← map_err (fun _ => StalePolicy)
        (validate_age now (qp_observed_at policy) (qp_max_policy_age_seconds policy));
  _ ← map_err (fun _ => StaleRailHealth)
        (validate_age now (rh_observed_at rail) (qp_max_rail_health_age_seconds policy));
  _ ← guard_err (negb (bool_decide (rh_health rail = Healthy))) UnhealthyRail;
  _ ← guard_err (bool_decide (collector_address = "") || (200 <? str_len collector_address))
        InvalidCollectorAddress;
  _ ← guard_err (negb (has_independent_price_sources (ps_sources price))) InvalidPriceSources;
  fiat_minor ← ok_or (u64_try_from (minor_units fiat_amount)) InvalidPolicy;
  base_amount_raw ← map_err QuoteMoney
    (RawAmount_mul_div_ceil fiat_minor (ps_rate_numerator price) (ps_rate_denominator price));
  expires_at ← ok_or (odt_checked_add now (duration_seconds (qp_quote_ttl_seconds policy)))
    InvalidPolicy;
  late_payment_until ←
    ok_or (odt_checked_add expires_at (duration_seconds (qp_late_payment_window_seconds policy)))
      InvalidPolicy;
  Ok {|
    plan_quote_id := fresh_quote_id;
    plan_attempt_id := fresh_attempt_id;
    plan_merchant_id := merchant_id;
    plan_payment_intent_id := payment_intent_id;
    plan_asset_id := asset_id;
    plan_collector_address_id := collector_address_id;
    plan_collector_address := collector_address;
    plan_price_snapshot_id := ps_id price;
    plan_quote_policy_id := qp_id policy;
    plan_rail_health_snapshot_id := rh_id rail;
    plan_fiat_amount := fiat_amount;
    plan_base_amount_raw := base_amount_raw;
    plan_rate_numerator := ps_rate_numerator price;
    plan_rate_denominator := ps_rate_denominator price;
    plan_price_sources := ps_sources price;
    plan_price_observed_at := ps_observed_at price;
    plan_policy_version := qp_version policy;
    plan_policy_observed_at := qp_observed_at policy;
    plan_max_price_age_seconds := qp_max_price_age_seconds policy;
    plan_max_policy_age_seconds := qp_max_policy_age_seconds policy;
    plan_max_rail_health_age_seconds := qp_max_rail_health_age_seconds policy;
    plan_rail_health_observed_at := rh_observed_at rail;
    plan_amount_slot_count := qp_amount_slot_count policy;
    plan_created_at := now;
    plan_expires_at := expires_at;
    plan_late_payment_until := late_payment_until |}.
End build.

(** * Lemmas *)

(** Every source names a provider group of its own. *)
Definition independent_sources (sources : json) : Prop :=
  exists items groups,
    sources = JArray items /\ (2 <= length items)%nat
    /\ Forall2 (fun s g => source_group s = Some g) items groups /\ NoDup groups.

Lemma has_independent_price_sources_spec sources :
  has_independent_price_sources sources = true <-> independent_sources sources.
Proof.
  unfold has_independent_price_sources, independent_sources. split.
  - destruct sources as [| | | |items|]; simpl; try done.
    destruct (Z.ltb_spec (Z.of_nat (length items)) 2); [done|]. intros Hg. bool_to_prop.
    pose proof (distinct_count_le (omap source_group items)) as [_ Hle].
    assert (length (omap source_group items) <= length items)%nat as Hom.
    { clear. induction items as [|x l IH]; [done|]. csimpl. destruct (source_group x); csimpl; lia. }
    assert (length (omap source_group items) = length items) as Hlen by lia.
    exists items, (omap source_group items). split_and!; [done|lia|by apply omap_full_length|].
    apply distinct_count_NoDup. lia.
  - intros (items & groups & -> & Hlen & Hf & Hnd). simpl.
    destruct (Z.ltb_spec (Z.of_nat (length items)) 2); [lia|].
    rewrite (omap_of_Forall2 _ _ _ Hf). apply distinct_count_NoDup in Hnd.
    rewrite Hnd, <- (Forall2_length _ _ _ Hf).
    rewrite andb_true_iff, Z.leb_le, Z.eqb_eq. lia.
Qed.

(** A policy whose numbers make sense. *)
Definition policy_ok (p : QuotePolicySnapshot) : Prop :=
  qp_version p <> "" /\ str_len (qp_version p) <= 100
  /\ 0 < qp_quote_ttl_seconds p /\ 0 < qp_late_payment_window_seconds p
  /\ 1 <= qp_amount_slot_count p <= MAX_AMOUNT_SLOT_COUNT
  /\ 0 <= qp_max_price_age_seconds p /\ 0 <= qp_max_policy_age_seconds p
  /\ 0 <= qp_max_rail_health_age_seconds p.

Lemma validate_policy_spec p r :
  validate_policy p = r -> (r = Ok tt /\ policy_ok p) \/ (r = Err InvalidPolicy /\ ~ policy_ok p).
Proof.
  unfold validate_policy, policy_ok. intros <-.
  destruct (negb _) eqn:E; [right|left]; split; try done.
  - intros (Hv & ? & ? & ? & ? & ? & ? & ?). apply negb_true_iff, andb_false_iff in E.
    rewrite bool_decide_eq_false_2 in E by done.
    repeat match goal with
    | H : _ \/ _ |- _ => destruct H
    | H : (_ && _) = false |- _ => apply andb_false_iff in H
    end; unfold in_range in *; bool_to_prop; try done; lia.
  - bool_to_prop. match goal with H : in_range _ _ _ = true |- _ => apply in_range_spec in H end.
    split_and!; try done; lia.
Qed.

Lemma validate_policy_ok p : policy_ok p -> validate_policy p = Ok tt.
Proof. intros Hp. destruct (validate_policy_spec p _ eq_refl) as [[-> _]|[_ Hn]]; done. Qed.

Section lemmas.
Context `{U256Lib} `{TimeLib}.

(** Evidence that is neither from the future nor past its age limit. *)
Definition fresh (now observed_at max_age_seconds : Z) : Prop :=
  observed_at <= now <= observed_at + duration_seconds max_age_seconds
  /\ observed_at + duration_seconds max_age_seconds <= odt_max.

Lemma validate_age_spec now observed_at max_age :
  is_instant observed_at -> 0 <= max_age ->
  validate_age now observed_at max_age = Ok tt <-> fresh now observed_at max_age.
Proof.
  intros Hobs Hage. unfold validate_age, fresh. rewrite odt_checked_add_law by done.
  unfold is_instant, duration_seconds in *. unfold checked, in_range. zcases; simpl; try lia.
  all: unfold_res; simpl; zcases; simpl; split; intros; try done; lia.
Qed.

Lemma validate_age_Err now observed_at max_age e :
  validate_age now observed_at max_age = Err e -> e = tt.
Proof. by destruct e. Qed.

(** Everything a new quote needs. *)
Definition quote_admissible (collector_address : string) (fiat_amount : FiatAmount)
    (price : PriceSnapshot) (policy : QuotePolicySnapshot) (rail : RailHealthSnapshot)
    (now : Z) (base : RawAmount) : Prop :=
  policy_ok policy
  /\ fresh now (ps_observed_at price) (qp_max_price_age_seconds policy)
  /\ fresh now (qp_observed_at policy) (qp_max_policy_age_seconds policy)
  /\ fresh now (rh_observed_at rail) (qp_max_rail_health_age_seconds policy)
  /\ rh_health rail = Healthy
  /\ 1 <= str_len collector_address <= 200
  /\ independent_sources (ps_sources price)
  /\ 0 <= minor_units fiat_amount <= U64_MAX
  /\ RawAmount_mul_div_ceil (minor_units fiat_amount) (ps_rate_numerator price)
       (ps_rate_denominator price) = Ok base
  /\ now + duration_seconds (qp_quote_ttl_seconds policy)
       + duration_seconds (qp_late_payment_window_seconds policy) <= odt_max.

(** The instants of the inputs are representable. *)
Definition evidence_instants price policy rail now : Prop :=
  is_instant now /\ is_instant (ps_observed_at price)
  /\ is_instant (qp_observed_at policy) /\ is_instant (rh_observed_at rail).

Lemma deadlines_ok now ttl window :
  is_instant now -> 0 < ttl -> 0 < window ->
  now + duration_seconds ttl + duration_seconds window <= odt_max ->
  odt_checked_add now (duration_seconds ttl) = Some (now + duration_seconds ttl)
  /\ odt_checked_add (now + duration_seconds ttl) (duration_seconds window)
     = Some (now + duration_seconds ttl + duration_seconds window).
Proof.
  unfold is_instant, duration_seconds. intros Hnow Httl Hwin Hmax.
  rewrite !odt_checked_add_law by lia.
  split; apply checked_Some; split; lia || done.
Qed.

Lemma build_admissible qid aid m i a c addr fiat price policy rail now plan :
  evidence_instants price policy rail now ->
  QuotePlan_build qid aid m i a c addr fiat (Some price) (Some policy) (Some rail) now = Ok plan ->
  quote_admissible addr fiat price policy rail now (plan_base_amount_raw plan)
  /\ plan_fiat_amount plan = fiat /\ plan_collector_address plan = addr
  /\ plan_price_snapshot_id plan = ps_id price /\ plan_quote_policy_id plan = qp_id policy
  /\ plan_rail_health_snapshot_id plan = rh_id rail
  /\ plan_amount_slot_count plan = qp_amount_slot_count policy
  /\ plan_created_at plan = now
  /\ plan_expires_at plan = now + duration_seconds (qp_quote_ttl_seconds policy)
  /\ plan_late_payment_until plan
     = plan_expires_at plan + duration_seconds (qp_late_payment_window_seconds policy).
Proof.
  intros (Hnow & Hp & Hq & Hr) Hb. unfold QuotePlan_build in Hb. cbn [ok_or] in Hb. unfold_res.
  destruct (validate_policy policy) as [[]|] eqn:Hpol; [|done].
  assert (policy_ok policy) as Hok.
  { destruct (validate_policy_spec _ _ Hpol) as [[_ ?]|[? _]]; done. }
  pose proof Hok as (_ & _ & ? & ? & _ & ? & ? & ?).
  destruct (validate_age now (ps_observed_at price) _) as [[]|] eqn:E1; [|done].
  destruct (validate_age now (qp_observed_at policy) _) as [[]|] eqn:E2; [|done].
  destruct (validate_age now (rh_observed_at rail) _) as [[]|] eqn:E3; [|done].
  apply validate_age_spec in E1; [|done..]. apply validate_age_spec in E2; [|done..].
  apply validate_age_spec in E3; [|done..].
  case_bool_decide as Hh; simpl in Hb; [|done].
  case_bool_decide as Ha; simpl in Hb; [done|].
  destruct (Z.ltb_spec 200 (str_len addr)); [done|].
  destruct (has_independent_price_sources _) eqn:Hi; simpl in Hb; [|done].
  destruct (u64_try_from (minor_units fiat)) as [fm|] eqn:Hfm; [|done].
  apply checked_Some in Hfm as [-> ?].
  destruct (RawAmount_mul_div_ceil _ _ _) as [base|] eqn:Hbase; [|done].
  destruct (odt_checked_add now _) as [ex|] eqn:Hex; [|done].
  rewrite odt_checked_add_law in Hex by done. apply checked_Some in Hex as [-> ?].
  destruct (odt_checked_add (now + _) _) as [la|] eqn:Hla; [|done].
  rewrite odt_checked_add_law in Hla by done. apply checked_Some in Hla as [-> ?].
  simplify_eq/=. split_and!; try done. unfold quote_admissible.
  assert (1 <= str_len addr) by (destruct addr; [done|unfold str_len; simpl; lia]).
  apply has_independent_price_sources_spec in Hi. split_and!; try done; lia.
Qed.

Lemma build_identity qid aid m i a c addr fiat price policy rail now plan :
  QuotePlan_build qid aid m i a c addr fiat price policy rail now = Ok plan ->
  plan_quote_id plan = qid /\ plan_attempt_id plan = aid /\ plan_merchant_id plan = m
  /\ plan_payment_intent_id plan = i /\ plan_asset_id plan = a /\ plan_collector_address_id plan = c
  /\ plan_fiat_amount plan = fiat /\ plan_created_at plan = now.
Proof.
  unfold QuotePlan_build. intros Hb. repeat (apply res_bind_Ok in Hb as (? & _ & Hb)). by injection Hb as <-.
Qed.

Lemma admissible_build qid aid m i a c addr fiat price policy rail now base :
  evidence_instants price policy rail now ->
  quote_admissible addr fiat price policy rail now base ->
  exists plan,
    QuotePlan_build qid aid m i a c addr fiat (Some price) (Some policy) (Some rail) now = Ok plan
    /\ plan_base_amount_raw plan = base.
Proof.
  intros (Hnow & Hp & Hq & Hr) (Hok & F1 & F2 & F3 & Hh & Ha & Hi & Hfm & Hbase & Hmax).
  pose proof Hok as (_ & _ & ? & ? & _ & ? & ? & ?).
  unfold QuotePlan_build. cbn [ok_or]. unfold_res.
  rewrite validate_policy_ok by done.
  apply validate_age_spec in F1; [|done..]. apply validate_age_spec in F2; [|done..].
  apply validate_age_spec in F3; [|done..]. rewrite F1, F2, F3.
  rewrite bool_decide_eq_true_2 by done. simpl.
  rewrite bool_decide_eq_false_2 by (intros ->; unfold str_len in Ha; simpl in Ha; lia). simpl.
  destruct (Z.ltb_spec 200 (str_len addr)); [lia|].
  apply has_independent_price_sources_spec in Hi as ->. simpl.
  assert (u64_try_from (minor_units fiat) = Some (minor_units fiat)) as ->
    by (apply checked_Some; done).
  rewrite Hbase.
  destruct (deadlines_ok now (qp_quote_ttl_seconds policy)
    (qp_late_payment_window_seconds policy)) as [-> ->]; [done..|].
  eexists. split; [reflexivity|done].
Qed.
End lemmas.

(** * Properties *)

(** C35: a quote plan is built exactly when all three pieces of evidence are
    present and admissible: a valid policy, each reading fresh under the
    policy's own limit and not from the future, a healthy rail, a usable
    collector address, price sources from distinct provider groups, and a
    conversion and deadlines that can be represented.  Anything else fails
    closed. *)
Theorem quote_build_fails_closed `{U256Lib} `{TimeLib} qid aid m i a c addr fiat price policy rail now :
  (forall p q r, price = Some p -> policy = Some q -> rail = Some r -> evidence_instants p q r now) ->
  is_ok (QuotePlan_build qid aid m i a c addr fiat price policy rail now) = true <->
  exists p q r base, price = Some p /\ policy = Some q /\ rail = Some r
    /\ quote_admissible addr fiat p q r now base.
Proof.
  intros Hinst. split.
  - destruct (QuotePlan_build _ _ _ _ _ _ _ _ _ _ _ _) as [plan|] eqn:Hb; [|done]. intros _.
    destruct price as [p|]; [|done]. destruct policy as [q|]; [|done].
    destruct rail as [r|]; [|done]. exists p, q, r, (plan_base_amount_raw plan).
    split_and!; [done..|]. eapply build_admissible; [by apply Hinst|done].
  - intros (p & q & r & base & -> & -> & -> & Hadm).
    edestruct (admissible_build qid aid m i a c) as (plan & -> & _);
      [by apply Hinst|exact Hadm|done].
Qed.

(** C34: what an issued plan promises: its base amount is the least raw amount
    worth at least the fiat amount at the quoted rate, it expires after it was
    created and its late-payment window ends after it expires, by exactly the
    policy's durations, and it reserves one of 1 to 10,000 slots. *)
Theorem quote_plan_amount_and_deadlines `{U256Lib} `{TimeLib}
    qid aid m i a c addr fiat price policy rail now plan :
  evidence_instants price policy rail now ->
  RawAmount_wf (ps_rate_numerator price) -> RawAmount_wf (ps_rate_denominator price) ->
  QuotePlan_build qid aid m i a c addr fiat (Some price) (Some policy) (Some rail) now = Ok plan ->
  let amount := as_u256 (plan_base_amount_raw plan) in
  let value := minor_units fiat * as_u256 (ps_rate_numerator price) in
  let scale := as_u256 (ps_rate_denominator price) in
  0 < amount /\ is_u256 amount /\ scale * (amount - 1) < value <= scale * amount
  /\ plan_created_at plan = now
  /\ plan_expires_at plan = now + duration_seconds (qp_quote_ttl_seconds policy)
  /\ plan_late_payment_until plan
     = plan_expires_at plan + duration_seconds (qp_late_payment_window_seconds policy)
  /\ plan_created_at plan < plan_expires_at plan < plan_late_payment_until plan
  /\ 1 <= plan_amount_slot_count plan <= MAX_AMOUNT_SLOT_COUNT.
Proof.
  intros Hinst Hn Hd Hb.
  apply build_admissible in Hb as (Hadm & _ & _ & _ & _ & _ & Hslots & Hc & He & Hl); [|done].
  destruct Hadm as (Hpol & _ & _ & _ & _ & _ & _ & Hfm & Hbase & _).
  destruct Hpol as (_ & _ & Httl & Hwin & Hslot & _). intros amount value scale.
  rewrite mul_div_ceil_eq in Hbase by (try done; unfold is_u256, U256_MAX, U64_MAX in *; lia).
  unfold RawAmount_wf, is_u256 in *. unfold amount, value, scale in *.
  destruct (Z.eqb_spec (as_u256 (ps_rate_denominator price)) 0); [done|].
  destruct (Z.ltb_spec U256_MAX (minor_units fiat * as_u256 (ps_rate_numerator price))); [done|].
  destruct (Z.eqb_spec (minor_units fiat * as_u256 (ps_rate_numerator price)) 0); [done|].
  injection Hbase as Hbase. rewrite <- Hbase. simpl.
  pose proof (ceil_div_spec (minor_units fiat * as_u256 (ps_rate_numerator price))
    (as_u256 (ps_rate_denominator price)) ltac:(lia)).
  unfold duration_seconds in *. split_and!; try done; try lia; nia.
Qed.

(** ** Witnesses *)

Import ReferenceInstances.

Definition sample_price : PriceSnapshot := {|
  ps_id := 1; ps_rate_numerator := mkRawAmount 5; ps_rate_denominator := mkRawAmount 2;
  ps_sources := JArray [JObject [("provider_group", JString "a")];
                        JObject [("provider_group", JString "b")]];
  ps_observed_at := 0 |}.
Definition sample_policy : QuotePolicySnapshot := {|
  qp_id := 2; qp_version := "policy-v1"; qp_quote_ttl_seconds := 900;
  qp_late_payment_window_seconds := 2592000; qp_amount_slot_count := 10000;
  qp_max_price_age_seconds := 60; qp_max_policy_age_seconds := 300;
  qp_max_rail_health_age_seconds := 60; qp_observed_at := 0 |}.
Definition sample_rail : RailHealthSnapshot :=
  {| rh_id := 3; rh_health := Healthy; rh_observed_at := 0 |}.
Definition sample_fiat : FiatAmount := mkFiatAmount (mkCurrencyCode "USD") 3.

Lemma sample_instants : evidence_instants sample_price sample_policy sample_rail 0.
Proof. unfold evidence_instants, is_instant. simpl. lia. Qed.

Definition sample_build : result QuoteError QuotePlan :=
  QuotePlan_build 10 11 0 0 0 0 "TCollector" sample_fiat
    (Some sample_price) (Some sample_policy) (Some sample_rail) 0.

Lemma quote_build_fails_closed_witness :
  is_ok sample_build = true
  /\ exists p q r base, Some sample_price = Some p /\ Some sample_policy = Some q
       /\ Some sample_rail = Some r /\ quote_admissible "TCollector" sample_fiat p q r 0 base.
Proof.
  split; [by vm_compute|].
  apply (quote_build_fails_closed 10 11 0 0 0 0 "TCollector" sample_fiat
    (Some sample_price) (Some sample_policy) (Some sample_rail) 0); [|by vm_compute].
  intros p q r [= <-] [= <-] [= <-]. apply sample_instants.
Defined.

Lemma quote_plan_amount_and_deadlines_witness :
  exists plan, sample_build = Ok plan /\ as_u256 (plan_base_amount_raw plan) = 8
    /\ plan_created_at plan < plan_expires_at plan < plan_late_payment_until plan.
Proof.
  destruct sample_build as [plan|] eqn:Hb; [|by vm_compute in Hb].
  exists plan. split; [done|]. split.
  - vm_compute in Hb. injection Hb as <-. done.
  - assert (RawAmount_wf (ps_rate_numerator sample_price)) as Hn
      by (unfold RawAmount_wf, is_u256, U256_MAX; simpl; lia).
    assert (RawAmount_wf (ps_rate_denominator sample_price)) as Hd
      by (unfold RawAmount_wf, is_u256, U256_MAX; simpl; lia).
    pose proof (quote_plan_amount_and_deadlines 10 11 0 0 0 0 "TCollector" sample_fiat
      sample_price sample_policy sample_rail 0 plan sample_instants Hn Hd Hb) as H.
    apply H.
Defined.
