(* ===== verification/Price.v ===== *)
(** * Price aggregation

    [gateway-domain/src/price.rs]: several sources' rates become one rational
    rate, or a refusal.  Rates are compared by cross-multiplication of 256-bit
    integers and the middle of two rates is their exact rational mean. *)

From Stdlib Require Import Ascii String Sorting.Sorted.
From stdpp Require Import sets.
From S2P Require Import Prelude RustStd Externals Money.

Local Open Scope Z_scope.

Definition BPS_SCALE : Z := 10000.

Record PriceReading := mkPriceReading {
  pr_source_key : string;
  pr_provider_group : string;
  pr_rate_numerator : RawAmount;
  pr_rate_denominator : RawAmount;
  pr_observed_at : Z;
}.

Record PriceAggregationPolicy := mkPriceAggregationPolicy {
  pap_min_sources : Z;        (* u32 *)
  pap_max_age_seconds : Z;    (* i64 *)
  pap_max_deviation_bps : Z;  (* u32 *)
}.

Inductive PriceDiscardReason := PriceStale | FutureDated | SupersededInGroup.
Definition PriceDiscardReason_as_str (r : PriceDiscardReason) : string :=
  match r with
  | PriceStale => "stale"
  | FutureDated => "future_dated"
  | SupersededInGroup => "superseded_in_group"
  end.

Record AggregatedPrice := mkAggregatedPrice {
  ap_rate_numerator : RawAmount;
  ap_rate_denominator : RawAmount;
  ap_group_count : Z;
  ap_deviation_bps : Z;
  ap_used : list nat;
  ap_discarded : list (nat * PriceDiscardReason);
}.

Inductive PriceAggregationError :=
  | PolicyDemandsTooFewSources
  | NoReadings
  | NotEnoughSources (required available : Z)
  | Diverged (deviation_bps ceiling : Z)
  | PriceOverflow.

(** [iter().enumerate()] *)
Definition enumerate {A} (l : list A) : list (nat * A) := zip (seq 0 (length l)) l.

Definition indexed := (nat * PriceReading)%type.
Definition discards := list (nat * PriceDiscardReason).

Section aggregate.
Context `{U256Lib} `{TimeLib}.

(** The first loop: readings from the future and stale ones are set aside. *)
Definition fresh_step (policy : PriceAggregationPolicy) (now : Z)
    (st : discards * list indexed) (item : indexed) : discards * list indexed :=
  let '(discarded, fresh) := st in
  let '(index, reading) := item in
  if now <? pr_observed_at reading then (discarded ++ [(index, FutureDated)], fresh)
  else
    let cutoff := odt_checked_add (pr_observed_at reading)
      (duration_seconds (i64_saturating_add (pap_max_age_seconds policy) 1)) in
    let stale := match cutoff with Some cutoff => cutoff <=? now | None => true end in
    if stale then (discarded ++ [(index, PriceStale)], fresh)
    else (discarded, fresh ++ [item]).

(** The second loop: the newest reading of a provider group speaks for it. *)
Definition group_step (st : discards * list indexed) (item : indexed)
    : discards * list indexed :=
  let '(discarded, per_group) := st in
  let '(index, reading) := item in
  match list_find (fun kept : indexed =>
                     pr_provider_group kept.2 = pr_provider_group reading) per_group with
  | Some (position, slot) =>
      if pr_observed_at slot.2 <? pr_observed_at reading
      then (discarded ++ [(slot.1, SupersededInGroup)], <[position := item]> per_group)
      else (discarded ++ [(index, SupersededInGroup)], per_group)
  | None => (discarded, per_group ++ [item])
  end.

(** Orders two rates: [a/b] against [c/d] is [a*d] against [c*b], and a pair
    whose products overflow counts as equal. *)
Definition compare_rates (left right : PriceReading) : comparison :=
  match u256_checked_mul (as_u256 (pr_rate_numerator left)) (as_u256 (pr_rate_denominator right)),
        u256_checked_mul (as_u256 (pr_rate_numerator right)) (as_u256 (pr_rate_denominator left)) with
  | Some left_side, Some right_side => Z.compare left_side right_side
  | _, _ => Eq
  end.

Definition deviation_bps (lowest highest : PriceReading) : result PriceAggregationError Z :=
  scaled_high ← ok_or (u256_checked_mul (as_u256 (pr_rate_numerator highest))
                                        (as_u256 (pr_rate_denominator lowest))) PriceOverflow;
  scaled_low ← ok_or (u256_checked_mul (as_u256 (pr_rate_numerator lowest))
                                       (as_u256 (pr_rate_denominator highest))) PriceOverflow;
  let difference := u256_saturating_sub scaled_high scaled_low in
  if difference =? 0 then Ok 0
  else
    numerator ← ok_or (u256_checked_mul difference BPS_SCALE) PriceOverflow;
    quotient ← ok_or (u256_checked_div numerator scaled_low) PriceOverflow;
    remainder ← ok_or (u256_checked_rem numerator scaled_low) PriceOverflow;
    rounded ← (if remainder =? 0 then Ok quotient
               else ok_or (u256_checked_add quotient 1) PriceOverflow);
    ok_or (u32_try_from rounded) PriceOverflow.

(** The [while] loop of [greatest_common_divisor]; [gcd_fuel] steps suffice
    for 256-bit arguments. *)
Fixpoint gcd_loop (fuel : nat) (left right : Z) : Z :=
  match fuel with
  | O => left
  | S fuel =>
      if right =? 0 then left
      else match u256_checked_rem left right with
           | None => left
           | Some remainder => gcd_loop fuel right remainder
           end
  end.
Definition gcd_fuel : nat := 513.
Definition greatest_common_divisor (left right : Z) : Z :=
  let left := gcd_loop gcd_fuel left right in
  if left =? 0 then 1 else left.

Definition median (sorted : list indexed)
    : result PriceAggregationError (RawAmount * RawAmount) :=
  let count := length sorted in
  if (count =? 0)%nat then Err NoReadings
  else if (count mod 2 =? 1)%nat then
    middle ← ok_or (sorted !! (count / 2)%nat) NoReadings;
    Ok (pr_rate_numerator middle.2, pr_rate_denominator middle.2)
  else
    left ← ok_or (sorted !! (count / 2 - 1)%nat) NoReadings;
    right ← ok_or (sorted !! (count / 2)%nat) NoReadings;
    left_cross ← ok_or (u256_checked_mul (as_u256 (pr_rate_numerator left.2))
                          (as_u256 (pr_rate_denominator right.2))) PriceOverflow;
    right_cross ← ok_or (u256_checked_mul (as_u256 (pr_rate_numerator right.2))
                          (as_u256 (pr_rate_denominator left.2))) PriceOverflow;
    numerator ← ok_or (u256_checked_add left_cross right_cross) PriceOverflow;
    denominator ← ok_or (product ← u256_checked_mul (as_u256 (pr_rate_denominator left.2))
                                     (as_u256 (pr_rate_denominator right.2));
                         u256_checked_mul product 2) PriceOverflow;
    let divisor := greatest_common_divisor numerator denominator in
    numerator ← ok_or (u256_checked_div numerator divisor) PriceOverflow;
    denominator ← ok_or (u256_checked_div denominator divisor) PriceOverflow;
    n ← map_err (fun _ => PriceOverflow) (RawAmount_positive numerator);
    d ← map_err (fun _ => PriceOverflow) (RawAmount_positive denominator);
    Ok (n, d).

Definition aggregate (readings : list PriceReading) (policy : PriceAggregationPolicy) (now : Z)
    : result PriceAggregationError AggregatedPrice :=
  if pap_min_sources policy <? 2 then Err PolicyDemandsTooFewSources
  else
    let '(discarded, fresh) :=
      fold_left (fresh_step policy now) (enumerate readings) ([], []) in
    let '(discarded, per_group) := fold_left group_step fresh (discarded, []) in
    let group_count := len_u32 per_group in
    if group_count <? pap_min_sources policy
    then Err (NotEnoughSources (pap_min_sources policy) group_count)
    else
      let per_group := sort_by (fun l r => compare_rates l.2 r.2) per_group in
      lowest ← ok_or (head per_group) NoReadings;
      highest ← ok_or (last per_group) NoReadings;
      deviation ← deviation_bps lowest.2 highest.2;
      if pap_max_deviation_bps policy <? deviation
      then Err (Diverged deviation (pap_max_deviation_bps policy))
      else
        rate ← median per_group;
        Ok {| ap_rate_numerator := rate.1; ap_rate_denominator := rate.2;
              ap_group_count := group_count; ap_deviation_bps := deviation;
              ap_used := per_group.*1; ap_discarded := discarded |}.
End aggregate.

(** * Lemmas *)

Lemma insert_swap_perm {A} (l : list A) i x y :
  l !! i = Some x -> x :: <[i:=y]> l ≡ₚ y :: l.
Proof.
  intros Hl. pose proof (lookup_lt_Some _ _ _ Hl).
  rewrite insert_take_drop by done. rewrite <- (take_drop_middle l i x Hl) at 3.
  rewrite <- !Permutation_middle. apply Permutation_swap.
Qed.

Lemma enumerate_fst {A} (l : list A) : (enumerate l).*1 = seq 0 (length l).
Proof. unfold enumerate. rewrite fst_zip; [done|]. by rewrite length_seq. Qed.

Lemma enumerate_lookup {A} (l : list A) i x : (i, x) ∈ enumerate l <-> l !! i = Some x.
Proof.
  unfold enumerate. rewrite list_elem_of_lookup. split.
  - intros (k & Hk). apply lookup_zip_with_Some in Hk as (a & b & [= -> ->] & Ha & Hb).
    apply lookup_seq in Ha as [-> _]. by rewrite Nat.add_0_l.
  - intros Hi. exists i. apply lookup_zip_with_Some. exists i, x. split_and!; [done| |done].
    apply lookup_seq. split; [lia|]. by eapply lookup_lt_Some.
Qed.

Section loops.
Context `{U256Lib} `{TimeLib}.

(** A reading that counts: not from the future, and its age in whole seconds
    within the limit (the instant it goes stale must be representable). *)
Definition reading_fresh (policy : PriceAggregationPolicy) (now : Z) (r : PriceReading) : Prop :=
  pr_observed_at r <= now
  /\ now < pr_observed_at r + duration_seconds (i64_saturating_add (pap_max_age_seconds policy) 1)
  /\ is_instant (pr_observed_at r + duration_seconds (i64_saturating_add (pap_max_age_seconds policy) 1)).

Record fresh_inv policy now (seen : list indexed) (st : discards * list indexed) : Prop := {
  fi_account : st.1.*1 ++ st.2.*1 ≡ₚ seen.*1;
  fi_fresh : forall x, x ∈ st.2 <-> x ∈ seen /\ reading_fresh policy now x.2;
}.

Lemma fresh_step_inv policy now seen st item :
  is_instant (pr_observed_at item.2) ->
  fresh_inv policy now seen st -> fresh_inv policy now (seen ++ [item]) (fresh_step policy now st item).
Proof.
  intros Hinst [Hacc Hfr]. destruct st as [D F], item as [i r]. unfold fresh_step. simpl in *.
  assert (Hskip : ~ reading_fresh policy now r -> forall reason,
    fresh_inv policy now (seen ++ [(i, r)]) (D ++ [(i, reason)], F)).
  { intros Hr reason. split; simpl.
    - rewrite !fmap_app, <- Hacc. simpl.
      rewrite <- !app_assoc. apply Permutation_app_head, Permutation_app_comm.
    - intros x. rewrite elem_of_app, list_elem_of_singleton, Hfr. split; [tauto|].
      by intros [[?| ->] ?]. }
  destruct (Z.ltb_spec now (pr_observed_at r)).
  { apply Hskip. unfold reading_fresh. lia. }
  rewrite odt_checked_add_law by done.
  destruct (match checked _ _ _ with Some _ => _ | None => _ end) eqn:Hst.
  - apply Hskip. unfold reading_fresh, is_instant. intros (_ & ? & ?).
    destruct (checked _ _ _) eqn:Hc; [apply checked_Some in Hc as [-> _]; bool_to_prop; lia|].
    apply checked_None in Hc. lia.
  - destruct (checked _ _ _) eqn:Hc; [|done]. apply checked_Some in Hc as [-> ?]. bool_to_prop.
    split; simpl.
    + by rewrite !fmap_app, app_assoc, Hacc.
    + intros x. rewrite !elem_of_app, !list_elem_of_singleton, Hfr. split; [|tauto].
      intros [[? ?]| ->]; [tauto|]. split; [tauto|]. unfold reading_fresh, is_instant; simpl; lia.
Qed.

Lemma fresh_fold_inv policy now l seen st :
  Forall (fun x : indexed => is_instant (pr_observed_at x.2)) l ->
  fresh_inv policy now seen st ->
  fresh_inv policy now (seen ++ l) (fold_left (fresh_step policy now) l st).
Proof.
  intros Hl. revert seen st. induction Hl as [|x l Hx _ IH]; intros seen st Hinv; simpl.
  - by rewrite app_nil_r.
  - rewrite cons_middle, app_assoc. apply IH. by apply fresh_step_inv.
Qed.

Definition group_of (x : indexed) : string := pr_provider_group x.2.

Record group_inv (dropped : list nat) (seen : list indexed) (st : discards * list indexed) : Prop := {
  gi_account : st.1.*1 ++ st.2.*1 ≡ₚ dropped ++ seen.*1;
  gi_nodup : NoDup (group_of <$> st.2);
  gi_sub : forall x, x ∈ st.2 -> x ∈ seen;
  gi_newest : forall x, x ∈ seen ->
    exists y, y ∈ st.2 /\ group_of y = group_of x /\ pr_observed_at x.2 <= pr_observed_at y.2;
}.

Lemma group_step_inv dropped seen st item :
  group_inv dropped seen st -> group_inv dropped (seen ++ [item]) (group_step st item).
Proof.
  intros [Hacc Hnd Hsub Hnew]. destruct st as [D P], item as [i r]. unfold group_step. simpl in *.
  destruct (list_find _ P) as [[pos slot]|] eqn:Hf.
  - apply list_find_Some in Hf as (Hpos & Hgrp & _).
    destruct (Z.ltb_spec (pr_observed_at slot.2) (pr_observed_at r)).
    + pose proof (insert_swap_perm P pos slot (i, r) Hpos) as Hperm.
      assert (forall x, x ∈ slot :: <[pos:=(i, r)]> P <-> x ∈ (i, r) :: P) as Hmem
        by (intros x; by rewrite Hperm).
      split; simpl.
      * rewrite !fmap_app. simpl. rewrite <- app_assoc.
        change ([slot.1] ++ (<[pos:=(i, r)]> P).*1) with ((slot :: <[pos:=(i, r)]> P).*1).
        rewrite Hperm. simpl. rewrite <- Permutation_middle, Hacc, app_assoc.
        apply Permutation_cons_append.
      * rewrite list_fmap_insert, list_insert_id; [done|].
        rewrite list_lookup_fmap, Hpos. simpl. f_equal. done.
      * intros x Hx. rewrite elem_of_app, list_elem_of_singleton.
        assert (x ∈ (i, r) :: P) as [->|Hx']%elem_of_cons by (apply Hmem; by right); auto.
      * intros x Hx. apply elem_of_app in Hx. rewrite list_elem_of_singleton in Hx.
        assert ((i, r) ∈ <[pos:=(i, r)]> P) as Hin
          by (apply list_elem_of_insert; by eapply lookup_lt_Some).
        destruct Hx as [Hx| ->]; [|exists (i, r); split_and!; try done; simpl; lia].
        destruct (Hnew x Hx) as (y & Hy & Hyg & Hyo).
        assert (y ∈ slot :: <[pos:=(i, r)]> P) as [->|Hy']%elem_of_cons
          by (apply Hmem; by right); [|by exists y].
        exists (i, r). split_and!; [done| |simpl; lia]. unfold group_of in *. simpl. congruence.
    + split; simpl; [|done|set_solver|].
      * rewrite !fmap_app, app_assoc, <- Hacc. simpl. rewrite <- !app_assoc.
        apply Permutation_app_head, Permutation_app_comm.
      * intros x Hx. apply elem_of_app in Hx. rewrite list_elem_of_singleton in Hx.
        destruct Hx as [Hx| ->]; [by apply Hnew|].
        exists slot. split_and!; [by eapply list_elem_of_lookup_2|done|simpl; lia].
  - apply list_find_None in Hf. split; simpl.
    + by rewrite !fmap_app, !app_assoc, Hacc.
    + rewrite fmap_app. apply NoDup_app. split_and!; [done| |apply NoDup_singleton].
      intros g Hg. simpl. rewrite list_elem_of_singleton. intros ->.
      apply list_elem_of_fmap in Hg as (y & Hyg & Hy).
      rewrite Forall_forall in Hf. by apply (Hf y Hy).
    + set_solver.
    + intros x Hx. apply elem_of_app in Hx. rewrite list_elem_of_singleton in Hx.
      destruct Hx as [Hx| ->].
      * destruct (Hnew x Hx) as (y & Hy & ?). exists y. split; [set_solver|done].
      * exists (i, r). split_and!; [set_solver|done|simpl; lia].
Qed.

Lemma group_fold_inv dropped l seen st :
  group_inv dropped seen st -> group_inv dropped (seen ++ l) (fold_left group_step l st).
Proof.
  revert seen st. induction l as [|x l IH]; intros seen st Hinv; simpl.
  - by rewrite app_nil_r.
  - rewrite cons_middle, app_assoc. apply IH. by apply group_step_inv.
Qed.
End loops.

(** ** Rates *)

(** A reading whose rate is a ratio of positive 256-bit integers, as every
    parsed [RawAmount] is. *)
Definition rate_wf (r : PriceReading) : Prop :=
  RawAmount_wf (pr_rate_numerator r) /\ 0 < as_u256 (pr_rate_numerator r)
  /\ RawAmount_wf (pr_rate_denominator r) /\ 0 < as_u256 (pr_rate_denominator r).

Definition num (r : PriceReading) : Z := as_u256 (pr_rate_numerator r).
Definition den (r : PriceReading) : Z := as_u256 (pr_rate_denominator r).

(** [l <= r] as rationals. *)
Definition rate_le (l r : PriceReading) : Prop := num l * den r <= num r * den l.

(** Every cross product of two of these readings fits in 256 bits. *)
Definition cross_fits (l : list PriceReading) : Prop :=
  forall x y, x ∈ l -> y ∈ l -> num x * den y <= U256_MAX.

Lemma rate_wf_pos r : rate_wf r -> 0 < num r /\ 0 < den r /\ is_u256 (num r) /\ is_u256 (den r).
Proof. unfold rate_wf, RawAmount_wf, num, den. tauto. Qed.

Section rates.
Context `{U256Lib}.

Lemma mul_fits a b : is_u256 a -> is_u256 b -> a * b <= U256_MAX ->
  u256_checked_mul a b = Some (a * b) /\ is_u256 (a * b).
Proof.
  intros Ha Hb Hab. rewrite u256_checked_mul_law by done. unfold is_u256 in *.
  split; [apply checked_Some|]; nia.
Qed.

Lemma compare_rates_fits l r :
  rate_wf l -> rate_wf r -> num l * den r <= U256_MAX -> num r * den l <= U256_MAX ->
  compare_rates l r = Z.compare (num l * den r) (num r * den l).
Proof.
  intros (? & ? & ? & ?)%rate_wf_pos (? & ? & ? & ?)%rate_wf_pos Hl Hr.
  unfold compare_rates. fold (num l) (num r) (den l) (den r).
  destruct (mul_fits (num l) (den r)) as [-> _]; [done..|].
  by destruct (mul_fits (num r) (den l)) as [-> _].
Qed.

Lemma rate_le_trans x y z : 0 < den x -> 0 < den y -> 0 < den z ->
  rate_le x y -> rate_le y z -> rate_le x z.
Proof. unfold rate_le. intros. nia. Qed.

Lemma compare_rates_preorder (l : list indexed) :
  Forall rate_wf l.*2 -> cross_fits l.*2 ->
  total_preorder_on (fun a b => compare_rates a.2 b.2) l
  /\ (forall x y, x ∈ l -> y ∈ l ->
        cmp_le (fun a b : indexed => compare_rates a.2 b.2) x y <-> rate_le x.2 y.2).
Proof.
  intros Hwf Hfit. rewrite Forall_forall in Hwf.
  assert (forall x, x ∈ l -> x.2 ∈ l.*2) as Hmem by (intros x Hx; by apply list_elem_of_fmap_2).
  assert (forall x y, x ∈ l -> y ∈ l ->
    cmp_le (fun a b : indexed => compare_rates a.2 b.2) x y <-> rate_le x.2 y.2) as Hle.
  { intros x y Hx Hy. unfold cmp_le, rate_le.
    rewrite compare_rates_fits by auto. rewrite Z.compare_gt_iff. lia. }
  split; [|done]. split.
  - intros x y Hx Hy Hgt. apply Hle; [done..|]. unfold rate_le.
    rewrite compare_rates_fits in Hgt by auto. rewrite Z.compare_gt_iff in Hgt. lia.
  - intros x y z Hx Hy Hz. rewrite !Hle by done.
    pose proof (rate_wf_pos _ (Hwf _ (Hmem _ Hx))). pose proof (rate_wf_pos _ (Hwf _ (Hmem _ Hy))).
    pose proof (rate_wf_pos _ (Hwf _ (Hmem _ Hz))). apply rate_le_trans; tauto.
Qed.

(** The spread is the exact relative difference in basis points, rounded
    up. *)
Lemma deviation_bps_spec lo hi dev :
  rate_wf lo -> rate_wf hi -> deviation_bps lo hi = Ok dev ->
  num hi * den lo <= U256_MAX /\ num lo * den hi <= U256_MAX
  /\ 0 <= dev <= U32_MAX
  /\ BPS_SCALE * (num hi * den lo - num lo * den hi) <= dev * (num lo * den hi).
Proof.
  intros (? & ? & ? & ?)%rate_wf_pos (? & ? & ? & ?)%rate_wf_pos Hd. unfold deviation_bps in Hd.
  fold (num lo) (num hi) (den lo) (den hi) in Hd. unfold_res.
  rewrite !u256_checked_mul_law in Hd by done.
  destruct (checked 0 U256_MAX (num hi * den lo)) as [sh|] eqn:E1; [|done].
  destruct (checked 0 U256_MAX (num lo * den hi)) as [sl|] eqn:E2; [|done].
  apply checked_Some in E1 as [-> ?]. apply checked_Some in E2 as [-> ?].
  rewrite u256_saturating_sub_law in Hd by (unfold is_u256; lia).
  set (sh := num hi * den lo) in *. set (sl := num lo * den hi) in *.
  assert (0 < sl) by (unfold sl; nia).
  destruct (Z.eqb_spec (Z.max 0 (sh - sl)) 0).
  { simplify_eq. unfold U32_MAX, BPS_SCALE. lia. }
  assert (is_u256 BPS_SCALE) by (unfold is_u256, U256_MAX, BPS_SCALE; lia).
  rewrite u256_checked_mul_law in Hd by (try done; unfold is_u256; lia).
  destruct (checked 0 U256_MAX (Z.max 0 (sh - sl) * BPS_SCALE)) as [scaled|] eqn:E3; [|done].
  apply checked_Some in E3 as [-> ?]. set (amt := Z.max 0 (sh - sl) * BPS_SCALE) in *.
  rewrite u256_checked_div_law, u256_checked_rem_law in Hd by (unfold is_u256; lia).
  destruct (Z.eqb_spec sl 0); [lia|].
  pose proof (Z.div_mod amt sl ltac:(lia)). pose proof (Z.mod_pos_bound amt sl ltac:(lia)).
  assert (exists rounded, u32_try_from rounded = Some dev /\ amt <= rounded * sl) as (v & Hv & Hn).
  { destruct (Z.eqb_spec (amt mod sl) 0).
    - exists (amt / sl). split; [by destruct (u32_try_from _); simplify_eq|nia].
    - destruct (u256_checked_add (amt / sl) 1) as [v|] eqn:E4; [|done].
      rewrite u256_checked_add_law in E4.
      + apply checked_Some in E4 as [-> ?]. exists (amt / sl + 1).
        split; [by destruct (u32_try_from _); simplify_eq|nia].
      + unfold is_u256. split; [apply Z.div_pos; lia|].
        apply Z.div_le_upper_bound; nia.
      + unfold is_u256, U256_MAX. lia. }
  apply checked_Some in Hv as [-> ?]. split_and!; lia.
Qed.

(** The gcd loop ends within its fuel and computes the gcd. *)
Lemma gcd_loop_spec k : forall l r,
  is_u256 l -> is_u256 r -> r < 2 ^ Z.of_nat k ->
  gcd_loop (2 * k + 1) l r = Z.gcd l r.
Proof.
  induction k as [|k IH]; intros l r Hl Hr Hk.
  - unfold is_u256 in *. replace r with 0 by (simpl in Hk; lia). simpl.
    rewrite Z.gcd_0_r, Z.abs_eq; lia.
  - replace (2 * S k + 1)%nat with (S (S (2 * k + 1))) by lia.
    rewrite Nat2Z.inj_succ, Z.pow_succ_r in Hk by lia.
    cbn [gcd_loop]. unfold is_u256 in *.
    destruct (Z.eqb_spec r 0) as [->|Hr0]; [rewrite Z.gcd_0_r, Z.abs_eq; lia|].
    rewrite u256_checked_rem_law by (unfold is_u256; lia). destruct (Z.eqb_spec r 0); [lia|].
    pose proof (Z.mod_pos_bound l r ltac:(lia)) as Hm.
    assert (Hg : Z.gcd l r = Z.gcd r (l mod r)) by (by rewrite (Z.gcd_comm r), Z.gcd_mod, Z.gcd_comm by lia).
    rewrite Hg. set (m := l mod r) in *.
    destruct (Z.eqb_spec m 0) as [->|Hm0]; [rewrite Z.gcd_0_r, Z.abs_eq; lia|].
    rewrite u256_checked_rem_law by (unfold is_u256; lia). destruct (Z.eqb_spec m 0); [lia|].
    pose proof (Z.mod_pos_bound r m ltac:(lia)). pose proof (Z.div_mod r m ltac:(lia)).
    assert (1 <= r / m) by (apply Z.div_le_lower_bound; lia).
    rewrite IH by (unfold is_u256; nia). by rewrite (Z.gcd_comm r m), (Z.gcd_comm m), Z.gcd_mod by lia.
Qed.

Lemma greatest_common_divisor_spec l r :
  is_u256 l -> is_u256 r ->
  greatest_common_divisor l r = if Z.gcd l r =? 0 then 1 else Z.gcd l r.
Proof.
  intros Hl Hr. unfold greatest_common_divisor.
  change gcd_fuel with (2 * 256 + 1)%nat.
  rewrite gcd_loop_spec; [done..|]. unfold is_u256, U256_MAX in Hr.
  change (Z.of_nat 256) with 256. lia.
Qed.
End rates.

(** ** The median *)

Section median.
Context `{U256Lib}.

(** The rate [n / d] is the exact mean of the rates of [l] and [r]. *)
Definition exact_mean (n d : Z) (l r : PriceReading) : Prop :=
  n * (2 * (den l * den r)) = d * (num l * den r + num r * den l).

Lemma reduce_ratio N D :
  0 < N -> 0 < D ->
  0 < Z.gcd N D <= N /\ 0 < N / Z.gcd N D <= N /\ 0 < D / Z.gcd N D <= D
  /\ N / Z.gcd N D * D = D / Z.gcd N D * N
  /\ Z.gcd (N / Z.gcd N D) (D / Z.gcd N D) = 1.
Proof.
  intros HN HD. pose proof (Z.gcd_nonneg N D).
  assert (Z.gcd N D <> 0) by (intros ?%Z.gcd_eq_0_r; lia).
  pose proof (Z.gcd_div_gcd N D (Z.gcd N D) ltac:(done) eq_refl) as Hcop.
  destruct (Z.gcd_divide_l N D) as [n Hn]. destruct (Z.gcd_divide_r N D) as [d Hd].
  revert Hcop. set (g := Z.gcd N D) in *.
  replace (N / g) with n by (rewrite Hn; symmetry; by apply Z.div_mul).
  replace (D / g) with d by (rewrite Hd; symmetry; by apply Z.div_mul).
  intros Hcop. clearbody g. assert (0 < n) by nia. assert (0 < d) by nia.
  split_and!; [nia..|done].
Qed.

Lemma median_middle (l : list indexed) n d :
  Forall rate_wf l.*2 -> median l = Ok (n, d) ->
  0 < as_u256 n <= U256_MAX /\ 0 < as_u256 d <= U256_MAX
  /\ (exists lo hi, l !! ((length l - 1) / 2)%nat = Some lo /\ l !! (length l / 2)%nat = Some hi
        /\ exact_mean (as_u256 n) (as_u256 d) lo.2 hi.2)
  /\ ((length l mod 2)%nat = 0%nat -> Z.gcd (as_u256 n) (as_u256 d) = 1).
Proof.
  intros Hwf Hm. rewrite Forall_fmap, Forall_lookup in Hwf. unfold median in Hm.
  destruct (Nat.eqb_spec (length l) 0); [done|].
  pose proof (Nat.div_mod (length l) 2 ltac:(lia)) as Hdm.
  pose proof (Nat.mod_upper_bound (length l) 2 ltac:(lia)).
  destruct (Nat.eqb_spec (length l mod 2) 1) as [Hodd|Hev].
  - unfold_res. destruct (l !! (length l / 2)%nat) as [x|] eqn:Hx; simplify_eq.
    pose proof (rate_wf_pos _ (Hwf _ _ Hx)) as (? & ? & ? & ?). unfold is_u256, num, den in *.
    split_and!; try lia. exists x, x. replace ((length l - 1) / 2)%nat with (length l / 2)%nat.
    + split_and!; [done..|]. unfold exact_mean, num, den. lia.
    + apply Nat.div_unique with 0%nat; lia.
  - assert (length l mod 2 = 0)%nat as Hev' by lia. rewrite Hev' in Hdm.
    replace ((length l - 1) / 2)%nat with (length l / 2 - 1)%nat
      by (apply Nat.div_unique with 1%nat; lia).
    unfold_res.
    destruct (l !! (length l / 2 - 1)%nat) as [x|] eqn:Hx; [|done].
    destruct (l !! (length l / 2)%nat) as [y|] eqn:Hy; [|done].
    pose proof (rate_wf_pos _ (Hwf _ _ Hx)) as (? & ? & ? & ?).
    pose proof (rate_wf_pos _ (Hwf _ _ Hy)) as (? & ? & ? & ?).
    unfold exact_mean. fold (num x.2) (num y.2) (den x.2) (den y.2) in Hm.
    rewrite !u256_checked_mul_law in Hm by done.
    destruct (checked 0 U256_MAX (num x.2 * _)) as [lc|] eqn:E1; [|done].
    destruct (checked 0 U256_MAX (num y.2 * _)) as [rc|] eqn:E2; [|done].
    apply checked_Some in E1 as [-> ?]. apply checked_Some in E2 as [-> ?].
    rewrite u256_checked_add_law in Hm by done.
    destruct (checked 0 U256_MAX (num x.2 * den y.2 + _)) as [nn|] eqn:E3; [|done].
    apply checked_Some in E3 as [-> ?]. set (N := num x.2 * den y.2 + num y.2 * den x.2) in *.
    destruct (checked 0 U256_MAX (den x.2 * _)) as [dd|] eqn:E4; [|done].
    apply checked_Some in E4 as [-> ?]. simpl in Hm.
    rewrite u256_checked_mul_law in Hm by (try done; unfold is_u256, U256_MAX; lia).
    destruct (checked 0 U256_MAX (den x.2 * den y.2 * 2)) as [dd|] eqn:E5; [|done].
    apply checked_Some in E5 as [-> ?]. set (D := den x.2 * den y.2 * 2) in *.
    assert (0 < N) by (unfold N; nia). assert (0 < D) by (unfold D; nia).
    rewrite greatest_common_divisor_spec in Hm by (unfold is_u256; lia).
    destruct (reduce_ratio N D) as (Hg & ? & ? & Heq & Hcop); [done..|].
    destruct (Z.eqb_spec (Z.gcd N D) 0); [lia|].
    rewrite !u256_checked_div_law in Hm by (unfold is_u256; lia).
    destruct (Z.eqb_spec (Z.gcd N D) 0); [lia|].
    destruct (RawAmount_positive (N / _)) as [a|] eqn:E6; [|done].
    destruct (RawAmount_positive (D / _)) as [b|] eqn:E7; [|done].
    apply RawAmount_positive_Ok in E6 as [_ ->]. apply RawAmount_positive_Ok in E7 as [_ ->].
    injection Hm as <- <-. cbn [as_u256]. split_and!; try lia.
    exists x, y. split_and!; [done..|].
    replace (2 * (den x.2 * den y.2)) with D by (unfold D; lia). by fold N.
Qed.
End median.

(** ** Aggregation *)

Lemma sorted_head {A} (R : A -> A -> Prop) l a x :
  (forall y, R y y) -> StronglySorted R l -> head l = Some a -> x ∈ l -> R a x.
Proof.
  intros Hrefl Hs Ha Hx. destruct Hs as [|b l _ Hb]; simplify_eq/=.
  apply elem_of_cons in Hx as [->|Hx]; [done|]. by eapply Forall_forall in Hx.
Qed.

Lemma sorted_last {A} (R : A -> A -> Prop) l a x :
  (forall y, R y y) -> StronglySorted R l -> last l = Some a -> x ∈ l -> R x a.
Proof.
  intros Hrefl Hs. revert x. induction Hs as [|b l _ IH Hb]; intros x Ha Hx; [done|].
  destruct l as [|c l]; simpl in Ha.
  - simplify_eq. apply list_elem_of_singleton in Hx as ->. done.
  - apply elem_of_cons in Hx as [->|Hx]; [|by apply IH].
    rewrite Forall_forall in Hb. apply Hb. apply last_Some in Ha as [l' ->]. set_solver.
Qed.

Section aggregate_lemmas.
Context `{U256Lib} `{TimeLib}.

(** The intermediate lists of a successful run. *)
Record aggregate_run readings policy now ap : Prop := {
  ar_min : 2 <= pap_min_sources policy;
  ar_lists : exists D F (P : list indexed) lo hi,
    let S := sort_by (fun l r : indexed => compare_rates l.2 r.2) P in
    fold_left (fresh_step policy now) (enumerate readings) ([], []) = (D, F)
    /\ fold_left group_step F (D, []) = (ap_discarded ap, P)
    /\ pap_min_sources policy <= len_u32 P /\ ap_group_count ap = len_u32 P
    /\ head S = Some lo /\ last S = Some hi
    /\ deviation_bps lo.2 hi.2 = Ok (ap_deviation_bps ap)
    /\ ap_deviation_bps ap <= pap_max_deviation_bps policy
    /\ median S = Ok (ap_rate_numerator ap, ap_rate_denominator ap)
    /\ ap_used ap = S.*1;
}.

Lemma aggregate_inv readings policy now ap :
  aggregate readings policy now = Ok ap -> aggregate_run readings policy now ap.
Proof.
  unfold aggregate. destruct (Z.ltb_spec (pap_min_sources policy) 2); [done|].
  destruct (fold_left _ (enumerate readings) _) as [D F] eqn:E1.
  destruct (fold_left group_step F _) as [D' P] eqn:E2. unfold_res.
  destruct (Z.ltb_spec (len_u32 P) (pap_min_sources policy)); [done|].
  destruct (head _) as [lo|] eqn:E3; [|done]. destruct (last _) as [hi|] eqn:E4; [|done].
  destruct (deviation_bps _ _) as [dev|] eqn:E5; [|done].
  destruct (Z.ltb_spec (pap_max_deviation_bps policy) dev); [done|].
  destruct (median _) as [[n d]|] eqn:E6; [|done]. intros [= <-].
  split; [done|]. exists D, F, P, lo, hi. by split_and!.
Qed.

(** What the two loops leave to be compared. *)
Lemma aggregate_survivors readings policy now D F D' P :
  Forall (fun r => is_instant (pr_observed_at r)) readings ->
  fold_left (fresh_step policy now) (enumerate readings) ([], []) = (D, F) ->
  fold_left group_step F (D, []) = (D', P) ->
  P.*1 ++ D'.*1 ≡ₚ seq 0 (length readings)
  /\ (forall i r, (i, r) ∈ P -> readings !! i = Some r /\ reading_fresh policy now r)
  /\ NoDup (group_of <$> P)
  /\ (forall k q, readings !! k = Some q -> reading_fresh policy now q ->
        exists i r, (i, r) ∈ P /\ pr_provider_group r = pr_provider_group q
          /\ pr_observed_at q <= pr_observed_at r).
Proof.
  intros Hinst HF HP.
  assert (fresh_inv policy now (enumerate readings) (D, F)) as [Hacc Hfr].
  { rewrite <- HF. apply (fresh_fold_inv policy now (enumerate readings) []).
    - apply Forall_forall. intros [i r] Hx%enumerate_lookup. exact (Forall_lookup_1 _ _ _ _ Hinst Hx).
    - split; set_solver. }
  assert (group_inv D.*1 F (D', P)) as [Hgacc Hnd Hsub Hnew].
  { rewrite <- HP. apply (group_fold_inv D.*1 F []).
    split; simpl; [done|constructor|set_solver..]. }
  simpl in *. split_and!.
  - by rewrite Permutation_app_comm, Hgacc, Hacc, enumerate_fst.
  - intros i r [Hx%enumerate_lookup ?]%Hsub%Hfr. done.
  - done.
  - intros k q Hq%enumerate_lookup Hf. destruct (Hnew (k, q)) as ([i r] & ? & ? & ?).
    { by apply Hfr. }
    by exists i, r.
Qed.

Lemma NoDup_fmap_elem_of {A B} (f : A -> B) l x y :
  NoDup (f <$> l) -> x ∈ l -> y ∈ l -> f x = f y -> x = y.
Proof.
  induction l as [|z l IH]; intros Hnd Hx Hy Hf; [by apply not_elem_of_nil in Hx|].
  simpl in Hnd. apply NoDup_cons in Hnd as [Hz Hnd]. rewrite list_elem_of_fmap in Hz.
  apply elem_of_cons in Hx as [->|Hx], Hy as [->|Hy]; [done| | |by apply IH].
  - destruct Hz. by exists y.
  - destruct Hz. by exists x.
Qed.

(** A successful aggregation accounts for every reading exactly once, as
    used or as discarded with a reason.  The used ones are fresh, speak for
    pairwise distinct provider groups, are at least the policy's minimum
    (never below two), and each is at least as new as every fresh reading of
    its group. *)
Theorem aggregate_sources_independent readings policy now ap :
  Forall (fun r => is_instant (pr_observed_at r)) readings ->
  aggregate readings policy now = Ok ap ->
  ap_used ap ++ (ap_discarded ap).*1 ≡ₚ seq 0 (length readings)
  /\ 2 <= pap_min_sources policy <= Z.of_nat (length (ap_used ap))
  /\ ap_group_count ap = Z.min U32_MAX (Z.of_nat (length (ap_used ap)))
  /\ (forall i, i ∈ ap_used ap -> exists r, readings !! i = Some r /\ reading_fresh policy now r)
  /\ (forall i j r s, i ∈ ap_used ap -> j ∈ ap_used ap ->
        readings !! i = Some r -> readings !! j = Some s ->
        pr_provider_group r = pr_provider_group s -> i = j)
  /\ (forall k q, readings !! k = Some q -> reading_fresh policy now q ->
        exists i r, i ∈ ap_used ap /\ readings !! i = Some r
          /\ pr_provider_group r = pr_provider_group q /\ pr_observed_at q <= pr_observed_at r).
Proof.
  intros Hinst [Hmin (D & F & P & lo & hi & HF & HP & Hlen & Hcnt & _ & _ & _ & _ & _ & Hused)]%aggregate_inv.
  destruct (aggregate_survivors readings policy now D F (ap_discarded ap) P) as (Hacc & Hin & Hnd & Hnew);
    [done..|].
  set (S := sort_by _ P) in *. assert (HS : S ≡ₚ P) by apply sort_by_perm.
  assert (length (ap_used ap) = length P) as Hl by (by rewrite Hused, length_fmap, HS).
  assert (Hmem : forall i, i ∈ ap_used ap <-> exists r, (i, r) ∈ P).
  { intros i. rewrite Hused, HS, list_elem_of_fmap. split.
    - intros ([k r] & -> & ?). by exists r.
    - intros [r ?]. by exists (i, r). }
  rewrite len_u32_min in Hlen, Hcnt. split_and!.
  - by rewrite Hused, HS.
  - done.
  - rewrite Hl. lia.
  - by rewrite Hl.
  - intros i [r Hr]%Hmem. exists r. by apply Hin.
  - intros i j r s [r' Hr']%Hmem [s' Hs']%Hmem Hr Hs Hg.
    destruct (Hin _ _ Hr') as [? _], (Hin _ _ Hs') as [? _]. simplify_eq.
    assert ((i, r) = (j, s)) by (by eapply NoDup_fmap_elem_of). congruence.
  - intros k q Hq Hf. destruct (Hnew k q Hq Hf) as (i & r & Hr & ? & ?).
    exists i, r. destruct (Hin _ _ Hr) as [? _]. split_and!; try done. apply Hmem. by exists r.
Qed.

(** [r] exceeds [s] by at most [bps] basis points. *)
Definition within_bps (bps : Z) (r s : PriceReading) : Prop :=
  BPS_SCALE * (num r * den s) <= (BPS_SCALE + bps) * (num s * den r).

Lemma within_bps_outer lo hi r s dev :
  rate_wf lo -> rate_wf hi -> rate_wf r -> rate_wf s -> 0 <= dev ->
  BPS_SCALE * (num hi * den lo - num lo * den hi) <= dev * (num lo * den hi) ->
  rate_le r hi -> rate_le lo s -> within_bps dev r s.
Proof.
  intros (? & ? & _)%rate_wf_pos (? & ? & _)%rate_wf_pos (? & ? & _)%rate_wf_pos
    (? & ? & _)%rate_wf_pos Hdev Hspread Hr Hs.
  unfold within_bps, rate_le, BPS_SCALE in *. set (a := 10000 + dev).
  assert (10000 * (num hi * den lo) <= a * (num lo * den hi)) as Hs' by (unfold a; nia).
  assert (0 < a) by lia. clearbody a. clear Hspread Hdev.
  apply (Zmult_le_reg_r _ _ (den hi * den lo)); [nia|].
  transitivity (10000 * (num hi * den r) * (den s * den lo)); [nia|].
  transitivity (a * (num lo * den hi) * (den r * den s)); [nia|].
  transitivity (a * (num s * den lo) * (den hi * den r)); [nia|]. lia.
Qed.

Lemma mean_between n d l r lo hi :
  rate_wf lo -> rate_wf hi -> rate_wf l -> rate_wf r -> 0 < d ->
  exact_mean n d l r -> rate_le lo l -> rate_le lo r -> rate_le l hi -> rate_le r hi ->
  num lo * d <= n * den lo /\ n * den hi <= num hi * d.
Proof.
  intros (? & ? & _)%rate_wf_pos (? & ? & _)%rate_wf_pos (? & ? & _)%rate_wf_pos
    (? & ? & _)%rate_wf_pos Hd Hm ? ? ? ?. unfold exact_mean, rate_le in *.
  assert (0 < den l * den r) by nia.
  split; apply (Zmult_le_reg_r _ _ (2 * (den l * den r))); [lia| |lia|].
  - transitivity (d * den lo * (num l * den r + num r * den l)); [|nia].
    assert (num lo * den l * (den r * d) <= num l * den lo * (den r * d)) by nia.
    assert (num lo * den r * (den l * d) <= num r * den lo * (den l * d)) by nia. lia.
  - transitivity (d * den hi * (num l * den r + num r * den l)); [nia|].
    assert (num l * den hi * (den r * d) <= num hi * den l * (den r * d)) by nia.
    assert (num r * den hi * (den l * d) <= num hi * den r * (den l * d)) by nia. lia.
Qed.

Lemma sorted_rates (P : list indexed) lo hi :
  let S := sort_by (fun l r : indexed => compare_rates l.2 r.2) P in
  Forall rate_wf P.*2 -> cross_fits P.*2 -> head S = Some lo -> last S = Some hi ->
  (forall x, x ∈ S -> rate_le lo.2 x.2) /\ (forall x, x ∈ S -> rate_le x.2 hi.2).
Proof.
  intros S Hwf Hfit Hlo Hhi. assert (HS : S ≡ₚ P) by apply sort_by_perm.
  destruct (compare_rates_preorder P Hwf Hfit) as [Hord Hle].
  pose proof (sort_by_sorted _ _ Hord) as Hsort. fold S in Hsort.
  assert (Hrefl : forall y, cmp_le (fun l r : indexed => compare_rates l.2 r.2) y y).
  { intros y. unfold cmp_le, compare_rates. destruct (u256_checked_mul _ _); [|done].
    by rewrite Z.compare_refl. }
  pose proof (head_Some_elem_of _ _ Hlo). pose proof (last_Some_elem_of _ _ Hhi).
  assert (HSP : forall x, x ∈ S -> x ∈ P) by (intros x Hx; by rewrite <- HS).
  split; intros x Hx; apply Hle; auto; [by eapply sorted_head|by eapply sorted_last].
Qed.

(** C36: When the rates' cross products fit in 256 bits, a successful
    aggregation means that any two readings it used agree within the
    policy's ceiling, and the rate it returns is positive and lies between
    the lowest and the highest of them. *)
Theorem aggregate_rate_within_ceiling readings policy now ap :
  Forall (fun r => is_instant (pr_observed_at r)) readings ->
  Forall rate_wf readings -> cross_fits readings ->
  aggregate readings policy now = Ok ap ->
  (forall i j r s, i ∈ ap_used ap -> j ∈ ap_used ap ->
     readings !! i = Some r -> readings !! j = Some s ->
     within_bps (pap_max_deviation_bps policy) r s)
  /\ exists i j lo hi,
       i ∈ ap_used ap /\ j ∈ ap_used ap /\ readings !! i = Some lo /\ readings !! j = Some hi
       /\ 0 < as_u256 (ap_rate_numerator ap) /\ 0 < as_u256 (ap_rate_denominator ap)
       /\ num lo * as_u256 (ap_rate_denominator ap) <= as_u256 (ap_rate_numerator ap) * den lo
       /\ as_u256 (ap_rate_numerator ap) * den hi <= num hi * as_u256 (ap_rate_denominator ap).
Proof.
  intros Hinst Hwf Hfit
    [_ (D & F & P & lo & hi & HF & HP & _ & _ & Hlo & Hhi & Hdev & Hmax & Hmed & Hused)]%aggregate_inv.
  destruct (aggregate_survivors readings policy now D F (ap_discarded ap) P) as (_ & Hin & _ & _);
    [done..|].
  set (S := sort_by _ P) in *. assert (HS : S ≡ₚ P) by apply sort_by_perm.
  assert (HPr : forall x, x ∈ P -> readings !! x.1 = Some x.2) by (intros [i r] Hx; by apply Hin in Hx as [? _]).
  assert (HPm : forall r, r ∈ P.*2 -> r ∈ readings).
  { intros r (x & -> & Hx%HPr)%list_elem_of_fmap. by eapply list_elem_of_lookup_2. }
  assert (HSr : forall x, x ∈ S -> rate_wf x.2 /\ readings !! x.1 = Some x.2).
  { intros x Hx. rewrite HS in Hx. split; [|by apply HPr].
    by apply (Forall_lookup_1 _ _ _ _ Hwf (HPr x Hx)). }
  destruct (sorted_rates P lo hi) as [Hlow Hhigh]; [| |done..|].
  { apply Forall_forall. intros r Hr%HPm. by eapply Forall_forall in Hr. }
  { intros x y Hx%HPm Hy%HPm. by apply Hfit. }
  fold S in Hlow, Hhigh.
  pose proof (head_Some_elem_of _ _ Hlo) as Hlo'. pose proof (last_Some_elem_of _ _ Hhi) as Hhi'.
  destruct (HSr _ Hlo') as [Hlowf Hlor], (HSr _ Hhi') as [Hhiwf Hhir].
  destruct (deviation_bps_spec _ _ _ Hlowf Hhiwf Hdev) as (_ & _ & ? & Hspread).
  assert (Hmem : forall i r, i ∈ ap_used ap -> readings !! i = Some r -> exists x, x ∈ S /\ x.2 = r).
  { intros i r Hi Hr. rewrite Hused, list_elem_of_fmap in Hi. destruct Hi as (x & -> & Hx).
    exists x. split; [done|]. apply HSr in Hx as [_ ?]. congruence. }
  edestruct (median_middle S) as (Hn & Hd & (l & r & Hl & Hr & Hmean) & _); [|exact Hmed|].
  { apply Forall_forall. intros r (x & -> & Hx)%list_elem_of_fmap. by apply HSr. }
  apply list_elem_of_lookup_2 in Hl, Hr.
  split.
  - intros i j r1 s Hi Hj Hr1 Hs1.
    destruct (Hmem _ _ Hi Hr1) as (x & Hx & <-), (Hmem _ _ Hj Hs1) as (y & Hy & <-).
    destruct (HSr x Hx) as [Hxwf _], (HSr y Hy) as [Hywf _].
    pose proof (within_bps_outer _ _ _ _ _ Hlowf Hhiwf Hxwf Hywf (proj1 H1) Hspread (Hhigh _ Hx) (Hlow _ Hy)) as Hw.
    apply rate_wf_pos in Hxwf, Hywf. unfold within_bps in *.
    etransitivity; [exact Hw|]. apply Z.mul_le_mono_nonneg_r; [nia|lia].
  - exists lo.1, hi.1, lo.2, hi.2. rewrite Hused.
    pose proof (mean_between _ _ l.2 r.2 lo.2 hi.2 Hlowf Hhiwf ltac:(by apply HSr) ltac:(by apply HSr)
      (proj1 Hd) Hmean ltac:(auto) ltac:(auto) ltac:(auto) ltac:(auto)).
    split_and!; try done; try lia; by apply list_elem_of_fmap_2.
Qed.
End aggregate_lemmas.

(** ** Concrete aggregations *)

Import ReferenceInstances.

Definition sample_reading (group : string) (n d instant : Z) : PriceReading :=
  {| pr_source_key := group; pr_provider_group := group;
     pr_rate_numerator := mkRawAmount n; pr_rate_denominator := mkRawAmount d;
     pr_observed_at := instant |}.

Definition sample_readings : list PriceReading :=
  [ sample_reading "kraken" 10000 1 0; sample_reading "kraken" 10010 1 5;
    sample_reading "binance" 10030 1 4; sample_reading "okx" 99999 1 (-duration_seconds 61) ].

Definition sample_price_policy : PriceAggregationPolicy :=
  {| pap_min_sources := 2; pap_max_age_seconds := 60; pap_max_deviation_bps := 50 |}.

Definition sample_price : AggregatedPrice :=
  {| ap_rate_numerator := mkRawAmount 10020; ap_rate_denominator := mkRawAmount 1;
     ap_group_count := 2; ap_deviation_bps := 20; ap_used := [1; 2]%nat;
     ap_discarded := [(3, PriceStale); (0, SupersededInGroup)]%nat |}.

Lemma sample_aggregate : aggregate sample_readings sample_price_policy 6 = Ok sample_price.
Proof. vm_compute. reflexivity. Qed.

Lemma sample_readings_ok :
  Forall (fun r => is_instant (pr_observed_at r)) sample_readings
  /\ Forall rate_wf sample_readings /\ cross_fits sample_readings.
Proof.
  split_and!.
  - repeat constructor; vm_compute; congruence.
  - repeat constructor; vm_compute; congruence.
  - intros x y Hx Hy. unfold sample_readings in *. set_unfold.
    destruct_or!; subst; vm_compute; congruence.
Qed.

Lemma aggregate_sources_independent_witness :
  [1; 2]%nat ++ [3; 0]%nat ≡ₚ seq 0 4.
Proof.
  apply (aggregate_sources_independent sample_readings sample_price_policy 6 sample_price
           (proj1 sample_readings_ok) sample_aggregate).
Defined.

Lemma aggregate_rate_within_ceiling_witness :
  within_bps 50 (sample_reading "binance" 10030 1 4) (sample_reading "kraken" 10010 1 5).
Proof.
  apply (proj1 (aggregate_rate_within_ceiling sample_readings sample_price_policy 6 sample_price
    (proj1 sample_readings_ok) (proj1 (proj2 sample_readings_ok)) (proj2 (proj2 sample_readings_ok))
    sample_aggregate) 2%nat 1%nat); [set_solver..|reflexivity|reflexivity].
Defined.

(** Rates whose cross products overflow 256 bits compare as equal and only
    the two ends of the sorted list are measured against the ceiling: two
    readings of rate one around a reading of rate two to the two hundredth
    pass a ceiling of zero, and that reading becomes the price. *)
Theorem aggregate_overflow_hides_divergence :
  let readings := [ sample_reading "a" (2 ^ 100) (2 ^ 100) 0; sample_reading "b" (2 ^ 200) 1 0;
                    sample_reading "c" (2 ^ 100) (2 ^ 100) 0 ] in
  let policy := {| pap_min_sources := 2; pap_max_age_seconds := 60; pap_max_deviation_bps := 0 |} in
  Forall rate_wf readings
  /\ aggregate readings policy 0
     = Ok {| ap_rate_numerator := mkRawAmount (2 ^ 200); ap_rate_denominator := mkRawAmount 1;
             ap_group_count := 3; ap_deviation_bps := 0; ap_used := [0; 1; 2]%nat;
             ap_discarded := [] |}.
Proof.
  intros readings policy. split; [|vm_compute; reflexivity].
  repeat constructor; vm_compute; congruence.
Qed.
