(* ===== verification/Verification.v ===== *)
(** * Cross-verification of observations

    [gateway-domain/src/verification.rs]: what a group of independent
    readings of one chain event proves.  Readings written by a principal other
    than the source's own are set aside; the rest must agree field by field,
    must include the verifier's own re-read, and must come from enough
    independent provider groups before a canonical transfer exists. *)

From Stdlib Require Import Ascii String.
From stdpp Require Import sets.
From S2P Require Import Prelude RustStd Externals Money Chain.

Local Open Scope Z_scope.

(** ** Data *)

Record FinalityPolicy := mkFinalityPolicy {
  fp_id : Z;                                    (* Uuid *)
  fp_version : string;
  fp_min_confirmations : Z;                     (* i64 *)
  fp_required_source_finality : SourceFinality;
  fp_min_independent_groups : Z;                (* u32 *)
  fp_max_evidence_age_seconds : Z;              (* i64 *)
  fp_observed_at : Z;                           (* OffsetDateTime *)
}.

Record EvidenceReading := mkEvidenceReading {
  er_observation_id : Z;                        (* Uuid *)
  er_source_id : Z;                             (* Uuid *)
  er_provider_group : string;
  er_source_kind : string;
  er_source_principal : string;
  er_declared_principal : string;
  er_kind : ObservationKind;
  er_asset_id : option Z;
  er_collector_address_id : option Z;
  er_transfer : ObservedTransfer;
  er_observed_at : Z;                           (* OffsetDateTime *)
}.

Inductive DiscardReason := ImpersonatedSource.
Definition DiscardReason_as_str (r : DiscardReason) : string :=
  match r with ImpersonatedSource => "impersonated_source" end.

Record DiscardedReading := mkDiscardedReading {
  dr_observation_id : Z;
  dr_reason : DiscardReason;
}.

Inductive AttestationRole := Detection | Reverify | Finality | Canonicality.
Definition AttestationRole_as_str (r : AttestationRole) : string :=
  match r with
  | Detection => "detection"
  | Reverify => "reverify"
  | Finality => "finality"
  | Canonicality => "canonicality"
  end.

Record CanonicalTransfer := mkCanonicalTransfer {
  ct_asset_id : Z;
  ct_collector_address_id : Z;
  ct_chain : string;
  ct_network : string;
  ct_chain_environment : ChainEnvironment;
  ct_tx_hash : TxHash;
  ct_event_index : Z;
  ct_block_number : Z;
  ct_block_hash : string;
  ct_block_time : Z;
  ct_token_key : AddressKey;
  ct_from_address : AddressKey;
  ct_from_address_text : string;
  ct_to_address : AddressKey;
  ct_to_address_text : string;
  ct_amount_raw : RawAmount;
  ct_decimals : Z;
  ct_memo : option Memo;
}.

Record VerifiedTransfer := mkVerifiedTransfer {
  vt_transfer : CanonicalTransfer;
  vt_attestations : list (Z * AttestationRole);
  vt_independent_groups : Z;
  vt_had_own_node : bool;
  vt_state : TransferState;
  vt_confirmations : Z;
  vt_policy_version : string;
  vt_discarded : list DiscardedReading;
}.

Inductive ConflictField :=
  | CfAmountRaw | CfRecipient | CfTokenKey | CfBlockHash | CfBlockNumber
  | CfExecutionStatus | CfMemo | CfAsset.
#[export] Instance ConflictField_eq_dec : EqDecision ConflictField.
Proof. solve_decision. Defined.
Definition ConflictField_as_str (f : ConflictField) : string :=
  match f with
  | CfAmountRaw => "amount_raw"
  | CfRecipient => "to_address_key"
  | CfTokenKey => "token_key"
  | CfBlockHash => "block_hash"
  | CfBlockNumber => "block_number"
  | CfExecutionStatus => "execution_status"
  | CfMemo => "memo"
  | CfAsset => "asset_id"
  end.

Record FieldConflict := mkFieldConflict {
  fc_field : ConflictField;
  fc_items : list (Z * string);
}.

Inductive InsufficientReason :=
  | NoEvidence
  | NoIndependentReread
  | NotEnoughIndependentGroups (have need : Z)
  | StaleEvidence
  | MissingBlockIdentity.
Definition InsufficientReason_as_str (r : InsufficientReason) : string :=
  match r with
  | NoEvidence => "no_evidence"
  | NoIndependentReread => "no_independent_reread"
  | NotEnoughIndependentGroups _ _ => "not_enough_independent_groups"
  | StaleEvidence => "stale_evidence"
  | MissingBlockIdentity => "missing_block_identity"
  end.

Inductive RejectionReason := UnsupportedAsset | FailedExecution | ForeignRecipient.
Definition RejectionReason_as_str (r : RejectionReason) : string :=
  match r with
  | UnsupportedAsset => "unsupported_asset"
  | FailedExecution => "failed_execution"
  | ForeignRecipient => "foreign_recipient"
  end.

Inductive Verdict :=
  | Verified (v : VerifiedTransfer)
  | Conflicted (conflicts : list FieldConflict) (discarded : list DiscardedReading)
  | Insufficient (reason : InsufficientReason) (discarded : list DiscardedReading)
  | Rejected (reason : RejectionReason) (discarded : list DiscardedReading).

Inductive VerificationError := MixedEvents | PolicyOutOfRange.

(** ** Operations *)

(** The tuple [ensure_one_event] compares. *)
Definition event_identity (r : EvidenceReading) : string * string * ChainEnvironment * string * Z :=
  let t := er_transfer r in
  (ot_chain t, ot_network t, ot_chain_environment t, TxHash_as_str (ot_tx_hash t), ot_event_index t).

Fixpoint ensure_one_event_from (identity : option (string * string * ChainEnvironment * string * Z))
    (readings : list EvidenceReading) : result VerificationError unit :=
  match readings with
  | [] => Ok tt
  | reading :: rest =>
      let current := event_identity reading in
      match identity with
      | None => ensure_one_event_from (Some current) rest
      | Some first =>
          if decide (first = current) then ensure_one_event_from identity rest
          else Err MixedEvents
      end
  end.
Definition ensure_one_event (readings : list EvidenceReading) : result VerificationError unit :=
  ensure_one_event_from None readings.

Definition genuine (r : EvidenceReading) : bool :=
  String.eqb (er_source_principal r) (er_declared_principal r).

(** The [filter] closure of [verify], which fills [discarded] as it goes. *)
Fixpoint partition_readings (readings : list EvidenceReading)
    : list EvidenceReading * list DiscardedReading :=
  match readings with
  | [] => ([], [])
  | r :: rest =>
      let '(accepted, discarded) := partition_readings rest in
      if genuine r then (r :: accepted, discarded)
      else (accepted, mkDiscardedReading (er_observation_id r) ImpersonatedSource :: discarded)
  end.

Definition independent_groups (readings : list EvidenceReading) : Z :=
  default U32_MAX (u32_try_from (distinct_count (er_provider_group <$> readings))).

Definition rejection (readings : list EvidenceReading) : option RejectionReason :=
  if existsb (fun r => bool_decide (ot_execution_status (er_transfer r) = Failed)) readings
  then Some FailedExecution
  else if existsb (fun r => negb (bool_decide (is_Some (er_asset_id r)))) readings
  then Some UnsupportedAsset
  else if existsb (fun r => negb (bool_decide (is_Some (er_collector_address_id r)))) readings
  then Some ForeignRecipient
  else None.

Definition kind_preference (k : ObservationKind) : Z :=
  match k with TargetedLookup => 2 | CursorScan => 1 | FastDetect => 0 end.

Definition has_block_identity (r : EvidenceReading) : bool :=
  let t := er_transfer r in
  bool_decide (is_Some (ot_block_number t)) && bool_decide (is_Some (ot_block_hash t))
  && bool_decide (is_Some (ot_block_time t)).

Definition canonical_transfer (readings : list EvidenceReading) : option CanonicalTransfer :=
  complete ← max_by_key (fun r => kind_preference (er_kind r))
               (filter (fun r => has_block_identity r) readings);
  let t := er_transfer complete in
  asset_id ← er_asset_id complete;
  collector_address_id ← er_collector_address_id complete;
  block_number ← ot_block_number t;
  block_hash ← ot_block_hash t;
  block_time ← ot_block_time t;
  Some {| ct_asset_id := asset_id; ct_collector_address_id := collector_address_id;
          ct_chain := ot_chain t; ct_network := ot_network t;
          ct_chain_environment := ot_chain_environment t; ct_tx_hash := ot_tx_hash t;
          ct_event_index := ot_event_index t; ct_block_number := block_number;
          ct_block_hash := block_hash; ct_block_time := block_time;
          ct_token_key := ot_token_key t; ct_from_address := ot_from_address t;
          ct_from_address_text := ot_from_address_text t; ct_to_address := ot_to_address t;
          ct_to_address_text := ot_to_address_text t; ct_amount_raw := ot_amount_raw t;
          ct_decimals := ot_decimals t; ct_memo := ot_memo t |}.

Definition confirmations (readings : list EvidenceReading) (block_number : Z) : Z :=
  Z.max (default 0 (max_Z ((fun head => i64_saturating_sub head block_number)
                           <$> omap (fun r => ot_source_head (er_transfer r)) readings))) 0.

Definition attestation_role (r : EvidenceReading) : AttestationRole :=
  if decide (er_kind r = TargetedLookup) then Reverify
  else if decide (ot_source_finality (er_transfer r) = SrcFinalized) then Finality
  else Detection.
Definition attestation_roles (readings : list EvidenceReading) : list (Z * AttestationRole) :=
  fold_left (fun roles r => btree_insert Z.compare (er_observation_id r) (attestation_role r) roles)
    readings [].

(** [iter().map(..).max().unwrap_or(SourceFinality::Seen)]: the derived order
    is the rank. *)
Definition best_claim (readings : list EvidenceReading) : SourceFinality :=
  default Seen (max_by_key SourceFinality_rank
                  ((fun r => ot_source_finality (er_transfer r)) <$> readings)).
Definition decided_state (policy : FinalityPolicy) (claim : SourceFinality) (depth : Z) : TransferState :=
  if (SourceFinality_rank (fp_required_source_finality policy) <=? SourceFinality_rank claim)
     && (fp_min_confirmations policy <=? depth) then Finalized
  else if SourceFinality_rank SrcConfirmed <=? SourceFinality_rank claim then Confirmed
  else Canonical.

Section verify.
Context `{U256Lib} `{TimeLib} `{UuidLib}.

Definition COMPARED_FIELDS : list (ConflictField * (EvidenceReading -> option string)) :=
  [ (CfAmountRaw, fun r => Some (RawAmount_to_string (ot_amount_raw (er_transfer r))));
    (CfRecipient, fun r => Some (AddressKey_to_hex (ot_to_address (er_transfer r))));
    (CfTokenKey, fun r => Some (AddressKey_to_hex (ot_token_key (er_transfer r))));
    (CfExecutionStatus, fun r => Some (ExecutionStatus_as_str (ot_execution_status (er_transfer r))));
    (CfMemo, fun r => Some (default "" (Memo_as_str <$> ot_memo (er_transfer r))));
    (CfAsset, fun r => Some (match er_asset_id r with
                             | None => "unknown"
                             | Some id => uuid_to_string id
                             end));
    (CfBlockHash, fun r => ot_block_hash (er_transfer r));
    (CfBlockNumber, fun r => dec_signed <$> ot_block_number (er_transfer r)) ].

Definition field_items (read : EvidenceReading -> option string)
    (readings : list EvidenceReading) : list (Z * string) :=
  omap (fun r => (fun value => (er_observation_id r, value)) <$> read r) readings.

Definition find_conflicts (readings : list EvidenceReading) : list FieldConflict :=
  fold_left (fun conflicts '(field, read) =>
    let items := field_items read readings in
    if 1 <? distinct_count items.*2 then conflicts ++ [mkFieldConflict field items]
    else conflicts) COMPARED_FIELDS [].

Definition insufficiency (readings : list EvidenceReading) (groups : Z)
    (policy : FinalityPolicy) (now : Z) : result VerificationError (option InsufficientReason) :=
  if negb (existsb (fun r => bool_decide (er_kind r = TargetedLookup)) readings)
  then Ok (Some NoIndependentReread)
  else if groups <? fp_min_independent_groups policy
  then Ok (Some (NotEnoughIndependentGroups groups (fp_min_independent_groups policy)))
  else
    let newest := default UNIX_EPOCH (max_Z (er_observed_at <$> readings)) in
    deadline ← ok_or (odt_checked_add newest (duration_seconds (fp_max_evidence_age_seconds policy)))
                 PolicyOutOfRange;
    if deadline <? now then Ok (Some StaleEvidence) else Ok None.

Definition verify (readings : list EvidenceReading) (policy : FinalityPolicy) (now : Z)
    : result VerificationError Verdict :=
  _ ← ensure_one_event readings;
  let '(accepted, discarded) := partition_readings readings in
  if bool_decide (accepted = []) then Ok (Insufficient NoEvidence discarded)
  else
    let conflicts := find_conflicts accepted in
    if negb (bool_decide (length conflicts = 0%nat)) then Ok (Conflicted conflicts discarded)
    else
      match rejection accepted with
      | Some reason => Ok (Rejected reason discarded)
      | None =>
          let groups := independent_groups accepted in
          insufficient ← insufficiency accepted groups policy now;
          match insufficient with
          | Some reason => Ok (Insufficient reason discarded)
          | None =>
              match canonical_transfer accepted with
              | None => Ok (Insufficient MissingBlockIdentity discarded)
              | Some transfer =>
                  let depth := confirmations accepted (ct_block_number transfer) in
                  Ok (Verified
                    {| vt_transfer := transfer;
                       vt_attestations := attestation_roles accepted;
                       vt_independent_groups := groups;
                       vt_had_own_node :=
                         existsb (fun r => String.eqb (er_source_kind r) "own_node") accepted;
                       vt_state := decided_state policy (best_claim accepted) depth;
                       vt_confirmations := depth;
                       vt_policy_version := fp_version policy;
                       vt_discarded := discarded |})
              end
          end
      end.
End verify.

(** * Lemmas *)

Definition same_event (a b : EvidenceReading) : Prop := event_identity a = event_identity b.

Lemma ensure_from_Ok first l :
  ensure_one_event_from (Some first) l = Ok tt <-> Forall (fun r => first = event_identity r) l.
Proof.
  induction l as [|r l IH]; cbn [ensure_one_event_from]; [by split|].
  rewrite Forall_cons. case_decide; [rewrite IH; tauto|]. by split; [|intros [? _]].
Qed.

Lemma ensure_one_event_Ok l :
  ensure_one_event l = Ok tt <-> forall a b, a ∈ l -> b ∈ l -> same_event a b.
Proof.
  unfold ensure_one_event, same_event. destruct l as [|r l]; cbn [ensure_one_event_from].
  { split; [|done]. intros _ a b Ha. by apply not_elem_of_nil in Ha. }
  rewrite ensure_from_Ok, Forall_forall. split.
  - intros Hl. assert (forall a, a ∈ r :: l -> event_identity r = event_identity a) as Hr.
    { intros a [->|Ha]%elem_of_cons; [done|by apply Hl]. }
    intros a b Ha%Hr Hb%Hr. congruence.
  - intros Hl x Hx. apply Hl; set_solver.
Qed.

Lemma partition_readings_eq l :
  partition_readings l
  = (filter (fun r => genuine r) l,
     (fun r => mkDiscardedReading (er_observation_id r) ImpersonatedSource)
       <$> filter (fun r => ~ genuine r) l).
Proof.
  induction l as [|r l IH]; [done|]. cbn [partition_readings]. rewrite IH, !filter_cons.
  destruct (genuine r) eqn:E.
  - rewrite decide_True by done. rewrite decide_False by (intros []; done). done.
  - rewrite decide_False by auto. rewrite decide_True by auto. done.
Qed.

Lemma fold_left_push {A B} (p : A -> bool) (f : A -> B) l acc :
  fold_left (fun acc x => if p x then acc ++ [f x] else acc) l acc
  = acc ++ (f <$> filter (fun x => p x) l).
Proof.
  revert acc. induction l as [|x l IH]; intros acc; cbn [fold_left]; [by rewrite app_nil_r|].
  rewrite IH, filter_cons. destruct (p x).
  - rewrite decide_True by done. by rewrite <- app_assoc.
  - by rewrite decide_False by auto.
Qed.

Lemma fold_left_ext {A B} (f g : A -> B -> A) l acc :
  (forall acc x, f acc x = g acc x) -> fold_left f l acc = fold_left g l acc.
Proof. intros Hfg. revert acc. induction l as [|x l IH]; intros acc; simpl; [done|]. by rewrite Hfg. Qed.

Lemma existsb_false_Forall {A} (p : A -> bool) l :
  existsb p l = false <-> Forall (fun x => p x = false) l.
Proof.
  induction l as [|x l IH]; simpl; [by split|]. by rewrite orb_false_iff, Forall_cons, IH.
Qed.

Lemma existsb_true_Exists {A} (p : A -> bool) l :
  existsb p l = true <-> exists x, x ∈ l /\ p x = true.
Proof.
  induction l as [|x l IH]; simpl; [set_solver|]. rewrite orb_true_iff, IH. set_solver.
Qed.

Lemma rejection_None l :
  rejection l = None <->
  Forall (fun r => ot_execution_status (er_transfer r) = Success
                   /\ is_Some (er_asset_id r) /\ is_Some (er_collector_address_id r)) l.
Proof.
  unfold rejection. rewrite !Forall_and.
  assert (forall (P : EvidenceReading -> Prop) `{forall r, Decision (P r)},
    existsb (fun r => negb (bool_decide (P r))) l = false <-> Forall P l) as Hneg.
  { intros P ?. rewrite existsb_false_Forall. apply Forall_iff. intros r.
    by rewrite negb_false_iff, bool_decide_eq_true. }
  assert (existsb (fun r => bool_decide (ot_execution_status (er_transfer r) = Failed)) l = false
          <-> Forall (fun r => ot_execution_status (er_transfer r) = Success) l) as Hex.
  { rewrite existsb_false_Forall. apply Forall_iff. intros r. rewrite bool_decide_eq_false.
    by destruct (ot_execution_status _). }
  rewrite <- Hex, <- (Hneg (fun r => is_Some (er_asset_id r)) _),
    <- (Hneg (fun r => is_Some (er_collector_address_id r)) _).
  repeat case_match; intuition congruence.
Qed.

(** ** Conflicts *)

Section conflicts.
Context `{U256Lib} `{TimeLib} `{UuidLib}.

Definition field_agrees (read : EvidenceReading -> option string) (l : list EvidenceReading) : Prop :=
  forall a b x y, a ∈ l -> b ∈ l -> read a = Some x -> read b = Some y -> x = y.

Lemma field_items_elem read l v :
  v ∈ (field_items read l).*2 <-> exists r, r ∈ l /\ read r = Some v.
Proof.
  unfold field_items. rewrite list_elem_of_fmap. split.
  - intros ([i w] & -> & (r & Hr & Hi)%list_elem_of_omap). exists r. split; [done|].
    destruct (read r); simplify_eq/=. done.
  - intros (r & Hr & Hv). exists (er_observation_id r, v). split; [done|].
    apply list_elem_of_omap. exists r. by rewrite Hv.
Qed.

Lemma field_conflict_iff read l :
  (1 <? distinct_count (field_items read l).*2) = false <-> field_agrees read l.
Proof.
  rewrite Z.ltb_ge. split.
  - intros Hle a b x y Ha Hb Hx Hy. destruct (decide (x = y)) as [|Hne]; [done|].
    assert (1 < distinct_count (field_items read l).*2); [|lia].
    apply distinct_count_gt_1. exists x, y. rewrite !field_items_elem. split_and!; eauto.
  - intros Hag. destruct (Z.le_gt_cases (distinct_count (field_items read l).*2) 1) as [|Hgt]; [done|].
    apply distinct_count_gt_1 in Hgt as (x & y & Hx & Hy & Hne).
    apply field_items_elem in Hx as (a & Ha & Hx), Hy as (b & Hb & Hy). destruct Hne. eauto.
Qed.

Lemma find_conflicts_eq l :
  find_conflicts l
  = (fun fr => mkFieldConflict fr.1 (field_items fr.2 l))
      <$> filter (fun fr => (1 <? distinct_count (field_items fr.2 l).*2)) COMPARED_FIELDS.
Proof.
  unfold find_conflicts. etransitivity; [|exact (fold_left_push
    (fun fr => 1 <? distinct_count (field_items fr.2 l).*2)
    (fun fr => mkFieldConflict fr.1 (field_items fr.2 l)) COMPARED_FIELDS [])].
  apply fold_left_ext. by intros acc [f rd].
Qed.

Lemma find_conflicts_nil l :
  find_conflicts l = [] <-> Forall (fun fr => field_agrees fr.2 l) COMPARED_FIELDS.
Proof.
  rewrite find_conflicts_eq, Forall_forall. split.
  - intros Hf%fmap_nil_inv fr Hfr. apply field_conflict_iff.
    destruct (_ <? _) eqn:E; [|done]. exfalso.
    by eapply (filter_nil_not_elem_of _ _ fr Hf); [rewrite E|].
  - intros Hall. induction COMPARED_FIELDS as [|fr fs IH]; [done|].
    rewrite filter_cons, (proj2 (field_conflict_iff fr.2 l)) by (apply Hall; left).
    rewrite decide_False by auto. apply IH. intros x Hx. apply Hall. by right.
Qed.

Lemma find_conflicts_elem l c :
  c ∈ find_conflicts l <->
  exists f read a b x y, (f, read) ∈ COMPARED_FIELDS /\ a ∈ l /\ b ∈ l
    /\ read a = Some x /\ read b = Some y /\ x <> y /\ c = mkFieldConflict f (field_items read l).
Proof.
  rewrite find_conflicts_eq, list_elem_of_fmap. split.
  - intros ([f rd] & -> & [Hd Hin]%list_elem_of_filter). simpl in *.
    apply Is_true_true, Z.ltb_lt, distinct_count_gt_1 in Hd as (x & y & Hx & Hy & Hne).
    apply field_items_elem in Hx as (a & ? & ?), Hy as (b & ? & ?).
    exists f, rd, a, b, x, y. by split_and!.
  - intros (f & rd & a & b & x & y & Hin & Ha & Hb & Hx & Hy & Hne & ->).
    exists (f, rd). split; [done|]. apply list_elem_of_filter. split; [|done]. simpl.
    apply Is_true_true, Z.ltb_lt, distinct_count_gt_1. exists x, y.
    rewrite !field_items_elem. split_and!; eauto.
Qed.
End conflicts.

(** ** What agreement means *)

Definition EvidenceReading_wf (r : EvidenceReading) : Prop :=
  RawAmount_wf (ot_amount_raw (er_transfer r))
  /\ (forall m, ot_memo (er_transfer r) = Some m -> Memo_wf m)
  /\ (forall i, er_asset_id r = Some i -> is_uuid i)
  /\ (forall n, ot_block_number (er_transfer r) = Some n -> I64_MIN <= n <= I64_MAX).

(** Two readings say the same of the transfer; block identity is compared
    where both report it. *)
Definition readings_agree (a b : EvidenceReading) : Prop :=
  let s := er_transfer a in let t := er_transfer b in
  ot_amount_raw s = ot_amount_raw t /\ ot_to_address s = ot_to_address t
  /\ ot_token_key s = ot_token_key t /\ ot_execution_status s = ot_execution_status t
  /\ ot_memo s = ot_memo t /\ er_asset_id a = er_asset_id b
  /\ (forall x y, ot_block_hash s = Some x -> ot_block_hash t = Some y -> x = y)
  /\ (forall x y, ot_block_number s = Some x -> ot_block_number t = Some y -> x = y).

Lemma memo_text_inj (a b : option Memo) :
  (forall m, a = Some m -> Memo_wf m) -> (forall m, b = Some m -> Memo_wf m) ->
  default "" (Memo_as_str <$> a) = default "" (Memo_as_str <$> b) -> a = b.
Proof.
  intros Ha Hb. destruct a as [[s]|], b as [[t]|]; simpl; intros; subst; try done.
  - by destruct (Ha _ eq_refl).
  - by destruct (Hb _ eq_refl).
Qed.

Lemma dec_signed_inj a b :
  I64_MIN <= a <= I64_MAX -> I64_MIN <= b <= I64_MAX -> dec_signed a = dec_signed b -> a = b.
Proof.
  intros Ha%parse_i64_dec_signed Hb%parse_i64_dec_signed Heq. rewrite Heq in Ha. congruence.
Qed.

Section agreement.
Context `{U256Lib} `{TimeLib} `{UuidLib}.

Lemma asset_text_inj (a b : option Z) :
  (forall i, a = Some i -> is_uuid i) -> (forall i, b = Some i -> is_uuid i) ->
  match a with None => "unknown" | Some id => uuid_to_string id end
  = match b with None => "unknown" | Some id => uuid_to_string id end -> a = b.
Proof.
  intros Ha Hb. destruct a as [x|], b as [y|]; intros Heq; try done.
  - f_equal. by apply uuid_to_string_inj; auto.
  - pose proof (uuid_to_string_length x (Ha _ eq_refl)) as Hl. by rewrite Heq in Hl.
  - pose proof (uuid_to_string_length y (Hb _ eq_refl)) as Hl. by rewrite <- Heq in Hl.
Qed.

(** No conflict among well-formed readings is agreement on every compared
    fact, not only on its text. *)
Lemma no_conflict_agree l :
  Forall EvidenceReading_wf l -> find_conflicts l = [] ->
  forall a b, a ∈ l -> b ∈ l -> readings_agree a b.
Proof.
  rewrite Forall_forall. intros Hwf Hno%find_conflicts_nil a b Ha Hb.
  destruct (Hwf a Ha) as (Ha1 & Ha2 & Ha3 & Ha4), (Hwf b Hb) as (Hb1 & Hb2 & Hb3 & Hb4).
  unfold COMPARED_FIELDS in Hno. rewrite !Forall_cons in Hno. simpl in Hno.
  destruct Hno as (A1 & A2 & A3 & A4 & A5 & A6 & A7 & A8 & _).
  unfold readings_agree. split_and!.
  - eapply RawAmount_to_string_inj; [done..|]. by apply (A1 a b).
  - apply AddressKey_to_hex_inj. by apply (A2 a b).
  - apply AddressKey_to_hex_inj. by apply (A3 a b).
  - apply (text_as_str_inj (E := ChainError)). by apply (A4 a b).
  - apply memo_text_inj; [done..|]. by apply (A5 a b).
  - apply asset_text_inj; [done..|]. by apply (A6 a b).
  - intros x y Hx Hy. by apply (A7 a b).
  - intros x y Hx Hy. apply dec_signed_inj; [by apply Ha4|by apply Hb4|].
    apply (A8 a b); [done..|by rewrite Hx|by rewrite Hy].
Qed.

(** ** Inversion of [verify] *)

Record verified_run rs policy now v A : Prop := {
  vr_accepted : A = filter (fun r => genuine r) rs;
  vr_event : forall a b, a ∈ rs -> b ∈ rs -> same_event a b;
  vr_conflicts : find_conflicts A = [];
  vr_rejection : rejection A = None;
  vr_insufficiency : insufficiency A (independent_groups A) policy now = Ok None;
  vr_transfer : canonical_transfer A = Some (vt_transfer v);
  vr_attestations : vt_attestations v = attestation_roles A;
  vr_groups : vt_independent_groups v = independent_groups A;
  vr_confirmations : vt_confirmations v = confirmations A (ct_block_number (vt_transfer v));
  vr_state : vt_state v = decided_state policy (best_claim A) (vt_confirmations v);
  vr_own_node : vt_had_own_node v = existsb (fun r => String.eqb (er_source_kind r) "own_node") A;
}.

Lemma verify_Verified rs policy now v :
  verify rs policy now = Ok (Verified v) ->
  verified_run rs policy now v (filter (fun r => genuine r) rs).
Proof.
  unfold verify. destruct (ensure_one_event rs) as [[]|] eqn:He; cbn [mbind result_bind]; [|done].
  pose proof (proj1 (ensure_one_event_Ok rs) He) as Hev. rewrite partition_readings_eq. set (A := filter _ rs) in *.
  case_bool_decide; [done|]. case_bool_decide as Hc; cbn [negb]; [|done].
  apply nil_length_inv in Hc.
  destruct (rejection A) eqn:Hr; [done|].
  destruct (insufficiency _ _ _ _) as [[|]|] eqn:Hi; cbn [mbind result_bind]; try done.
  destruct (canonical_transfer A) eqn:Ht; [|done].
  intros [= <-]. by split.
Qed.

Lemma insufficiency_None l policy now :
  Forall (fun r => is_instant (er_observed_at r)) l -> 
  insufficiency l (independent_groups l) policy now = Ok None ->
  (exists r, r ∈ l /\ er_kind r = TargetedLookup)
  /\ fp_min_independent_groups policy <= independent_groups l
  /\ exists r, r ∈ l /\ now <= er_observed_at r + duration_seconds (fp_max_evidence_age_seconds policy).
Proof.
  unfold insufficiency. intros Hinst.
  destruct (existsb _ l) eqn:Hk; [|done]. apply existsb_true_Exists in Hk as (k & Hk & Hkind).
  cbn [negb]. destruct (Z.ltb_spec (independent_groups l) (fp_min_independent_groups policy)); [done|].
  destruct (max_Z (er_observed_at <$> l)) as [m|] eqn:Hm.
  - apply max_Z_Some in Hm as [(r & -> & Hr)%list_elem_of_fmap _]. cbn [default id].
    rewrite Forall_forall in Hinst. rewrite odt_checked_add_law by (by apply Hinst).
    destruct (checked _ _ _) as [d|] eqn:Hd; cbn [ok_or mbind result_bind]; [|done]. apply checked_Some in Hd as [-> _].
    destruct (Z.ltb_spec (er_observed_at r + duration_seconds (fp_max_evidence_age_seconds policy)) now); [done|].
    intros _. bool_to_prop. split_and!; [by eauto|done|]. by exists r.
  - apply max_by_key_None, fmap_nil_inv in Hm. subst. by apply not_elem_of_nil in Hk.
Qed.

Lemma insufficiency_reread l policy now :
  insufficiency l (independent_groups l) policy now = Ok None ->
  (exists r, r ∈ l /\ er_kind r = TargetedLookup)
  /\ fp_min_independent_groups policy <= independent_groups l.
Proof.
  unfold insufficiency. destruct (existsb _ l) eqn:Hk; [|done]. cbn [negb].
  apply existsb_true_Exists in Hk as (k & Hk & Hkind).
  destruct (Z.ltb_spec (independent_groups l) (fp_min_independent_groups policy)); [done|].
  intros _. bool_to_prop. eauto.
Qed.

Lemma canonical_transfer_Some l t :
  canonical_transfer l = Some t ->
  exists r, r ∈ l /\ er_asset_id r = Some (ct_asset_id t)
    /\ er_collector_address_id r = Some (ct_collector_address_id t)
    /\ ot_chain (er_transfer r) = ct_chain t /\ ot_network (er_transfer r) = ct_network t
    /\ ot_chain_environment (er_transfer r) = ct_chain_environment t
    /\ ot_tx_hash (er_transfer r) = ct_tx_hash t /\ ot_event_index (er_transfer r) = ct_event_index t
    /\ ot_block_number (er_transfer r) = Some (ct_block_number t)
    /\ ot_block_hash (er_transfer r) = Some (ct_block_hash t)
    /\ ot_block_time (er_transfer r) = Some (ct_block_time t)
    /\ ot_token_key (er_transfer r) = ct_token_key t /\ ot_to_address (er_transfer r) = ct_to_address t
    /\ ot_amount_raw (er_transfer r) = ct_amount_raw t /\ ot_memo (er_transfer r) = ct_memo t
    /\ (forall q, q ∈ l -> has_block_identity q = true ->
          kind_preference (er_kind q) <= kind_preference (er_kind r)).
Proof.
  unfold canonical_transfer. intros Ht. apply bind_Some in Ht as (r & Hr & Ht).
  apply max_by_key_Some in Hr as [[_ Hr]%list_elem_of_filter Hmax].
  apply bind_Some in Ht as (a & Ha & Ht). apply bind_Some in Ht as (c & Hc & Ht).
  apply bind_Some in Ht as (n & Hn & Ht). apply bind_Some in Ht as (h & Hh & Ht).
  apply bind_Some in Ht as (b & Hb & Ht). simplify_eq/=.
  exists r. split_and!; try done. intros q Hq Hid. apply Hmax, list_elem_of_filter.
  split; [by rewrite Hid|done].
Qed.
End agreement.

Lemma genuine_elem r (rs : list EvidenceReading) :
  r ∈ filter (fun r => genuine r) rs <-> r ∈ rs /\ er_source_principal r = er_declared_principal r.
Proof.
  rewrite list_elem_of_filter. unfold genuine.
  destruct (String.eqb_spec (er_source_principal r) (er_declared_principal r)); naive_solver.
Qed.

(** ** Depth and claims *)

Lemma best_claim_rank l f :
  l <> [] ->
  (SourceFinality_rank f <= SourceFinality_rank (best_claim l)
   <-> exists r, r ∈ l /\ SourceFinality_rank f <= SourceFinality_rank (ot_source_finality (er_transfer r))).
Proof.
  intros Hl. unfold best_claim. destruct (max_by_key _ _) as [m|] eqn:Hm; cbn [default].
  - apply max_by_key_Some in Hm as [(r & -> & Hr)%list_elem_of_fmap Hmax]. split.
    + intros. by exists r.
    + intros (q & Hq & Hle). etransitivity; [exact Hle|]. apply Hmax, list_elem_of_fmap. by exists q.
  - by apply max_by_key_None, fmap_nil_inv in Hm.
Qed.

Lemma confirmations_ge l block depth :
  0 < depth <= I64_MAX ->
  (depth <= confirmations l block
   <-> exists r head, r ∈ l /\ ot_source_head (er_transfer r) = Some head /\ depth <= head - block).
Proof.
  intros Hd. unfold confirmations.
  assert (Hsat : forall x, depth <= saturate I64_MIN I64_MAX x <-> depth <= x)
    by (intros x; unfold saturate, I64_MIN, I64_MAX in *; lia).
  destruct (max_Z _) as [m|] eqn:Hm; cbn [default id].
  - apply max_Z_Some in Hm as [(h & -> & Hh)%list_elem_of_fmap Hmax]. split.
    + intros Hle. apply list_elem_of_omap in Hh as (r & Hr & Hh). exists r, h.
      split_and!; [done..|]. apply Hsat. unfold i64_saturating_sub in Hle. lia.
    + intros (r & head & Hr & Hh' & Hle). apply Hsat in Hle.
      assert (i64_saturating_sub head block <= i64_saturating_sub h block); [|unfold i64_saturating_sub in *; lia].
      apply Hmax, list_elem_of_fmap. exists head. split; [done|]. apply list_elem_of_omap. by exists r.
  - apply max_by_key_None, fmap_nil_inv in Hm. split; [lia|].
    intros (r & head & Hr & Hh & _). exfalso.
    assert (head ∈ omap (fun r => ot_source_head (er_transfer r)) l) as Hin
      by (apply list_elem_of_omap; by exists r).
    rewrite Hm in Hin. by apply not_elem_of_nil in Hin.
Qed.

Lemma confirmations_nonneg l block : 0 <= confirmations l block.
Proof. unfold confirmations. lia. Qed.

(** The entries [attestation_roles] leaves: one per accepted reading. *)
Lemma attestation_roles_keys l k :
  k ∈ (attestation_roles l).*1 <-> exists r, r ∈ l /\ er_observation_id r = k.
Proof.
  unfold attestation_roles.
  assert (forall acc, k ∈ (fold_left (fun roles r => btree_insert Z.compare (er_observation_id r)
    (attestation_role r) roles) l acc).*1 <-> (exists r, r ∈ l /\ er_observation_id r = k) \/ k ∈ acc.*1) as Hf.
  { induction l as [|r l IH]; intros acc; cbn [fold_left]; [set_solver|].
    rewrite IH, btree_insert_keys by apply Z.compare_eq_iff. set_solver. }
  rewrite Hf. set_solver.
Qed.

(** The count of groups is the length of their list without repetition, up to
    the largest [u32]. *)
Lemma independent_groups_spec l :
  exists groups, NoDup groups /\ (forall g, g ∈ groups <-> exists r, r ∈ l /\ er_provider_group r = g)
    /\ independent_groups l = Z.min (Z.of_nat (length groups)) U32_MAX.
Proof.
  destruct (distinct_count_spec (er_provider_group <$> l)) as (groups & Hnd & Hin & Hn). exists groups.
  split_and!; [done| |].
  - intros g. rewrite Hin, list_elem_of_fmap. naive_solver.
  - unfold independent_groups, u32_try_from, checked. rewrite Hn.
    destruct (in_range 0 U32_MAX (Z.of_nat (length groups))) eqn:Hr; cbn.
    + apply in_range_spec in Hr. lia.
    + apply not_true_iff_false in Hr. rewrite in_range_spec in Hr. lia.
Qed.

(** * Properties *)

Section properties.
Context `{U256Lib} `{TimeLib} `{UuidLib}.

(** C24: A transfer is verified only from evidence that supports it: every
    genuine reading agrees with every other and with the canonical transfer
    on amount, recipient, token, memo, asset and (where reported) block, all
    of them report success and a known asset and collector, one of them is
    the verifier's own re-read, the different provider groups of the genuine
    readings are at least as many as the policy asks for and their number is
    the one recorded, some reading is fresh enough, and exactly the genuine
    readings attest. *)
Theorem verified_evidence_agrees rs policy now v :
  Forall EvidenceReading_wf rs -> Forall (fun r => is_instant (er_observed_at r)) rs ->
  verify rs policy now = Ok (Verified v) ->
  let accepted r := r ∈ rs /\ er_source_principal r = er_declared_principal r in
  let t := vt_transfer v in
  (forall a b, accepted a -> accepted b -> same_event a b /\ readings_agree a b)
  /\ (forall r, accepted r ->
        ot_execution_status (er_transfer r) = Success /\ er_asset_id r = Some (ct_asset_id t)
        /\ is_Some (er_collector_address_id r)
        /\ ot_amount_raw (er_transfer r) = ct_amount_raw t
        /\ ot_to_address (er_transfer r) = ct_to_address t
        /\ ot_token_key (er_transfer r) = ct_token_key t /\ ot_memo (er_transfer r) = ct_memo t
        /\ ot_tx_hash (er_transfer r) = ct_tx_hash t /\ ot_event_index (er_transfer r) = ct_event_index t
        /\ (forall n, ot_block_number (er_transfer r) = Some n -> n = ct_block_number t)
        /\ (forall h, ot_block_hash (er_transfer r) = Some h -> h = ct_block_hash t))
  /\ (exists r, accepted r /\ er_kind r = TargetedLookup)
  /\ fp_min_independent_groups policy <= vt_independent_groups v
  /\ (exists groups, NoDup groups /\ (forall g, g ∈ groups <-> exists r, accepted r /\ er_provider_group r = g)
        /\ vt_independent_groups v = Z.min (Z.of_nat (length groups)) U32_MAX)
  /\ (exists r, accepted r
        /\ now <= er_observed_at r + duration_seconds (fp_max_evidence_age_seconds policy))
  /\ (forall k, k ∈ (vt_attestations v).*1 <-> exists r, accepted r /\ er_observation_id r = k).
Proof.
  intros Hwf Hinst Hv accepted t. pose proof (verify_Verified _ _ _ _ Hv) as [_ Hev Hc Hrej Hins Htr Hat Hgr _ _ _].
  set (A := filter _ rs) in *.
  assert (HA : forall r, r ∈ A <-> accepted r) by (intros r; apply genuine_elem).
  assert (HFA : forall P, Forall P rs -> Forall P A).
  { intros P. rewrite !Forall_forall. intros HP r Hr%HA. by apply HP, Hr. }
  pose proof (no_conflict_agree A (HFA _ Hwf) Hc) as Hag.
  apply rejection_None in Hrej. rewrite Forall_forall in Hrej.
  destruct (insufficiency_None A policy now (HFA _ Hinst) Hins) as ((k & Hk & ?) & ? & (f & Hf & ?)).
  destruct (canonical_transfer_Some A t Htr) as (c & Hcin & ? & _ & _ & _ & _ & ? & ? & ? & ? & _ & ? & ? & ? & ? & _).
  assert (Hevent : forall a b, accepted a -> accepted b -> same_event a b) by (intros a b [? _] [? _]; auto).
  split_and!.
  - intros a b Ha Hb. split; [by apply Hevent|]. apply Hag; by apply HA.
  - intros r Hr. apply HA in Hr as HrA. destruct (Hrej r HrA) as (? & ? & ?).
    destruct (Hag r c HrA Hcin) as (? & ? & ? & ? & ? & ? & Hh & Hn).
    pose proof (Hevent r c Hr (proj1 (HA c) Hcin)) as Hid. unfold same_event, event_identity in Hid.
    assert (ot_tx_hash (er_transfer r) = ot_tx_hash (er_transfer c)).
    { destruct (ot_tx_hash (er_transfer r)), (ot_tx_hash (er_transfer c)). simpl in *. congruence. }
    assert (ot_event_index (er_transfer r) = ot_event_index (er_transfer c)) by congruence.
    split_and!; try congruence; [intros n Hn'; by eapply Hn|intros h Hh'; by eapply Hh].
  - exists k. by rewrite <- HA.
  - by rewrite Hgr.
  - destruct (independent_groups_spec A) as (groups & Hnd & Hin & Hlen). exists groups. rewrite Hgr.
    split_and!; [done| |done]. intros g. rewrite Hin. by setoid_rewrite HA.
  - exists f. by rewrite <- HA.
  - intros i. rewrite Hat, attestation_roles_keys. by setoid_rewrite HA.
Qed.

(** A verified transfer is final exactly when some genuine source claims
    at least the required finality and some genuine source has seen the
    required number of blocks on top; short of that it is confirmed exactly
    when some source claims confirmation, and canonical otherwise. *)
Theorem verified_finality_iff rs policy now v :
  fp_min_confirmations policy <= I64_MAX ->
  verify rs policy now = Ok (Verified v) ->
  let accepted r := r ∈ rs /\ er_source_principal r = er_declared_principal r in
  let claims f := exists r, accepted r
    /\ SourceFinality_rank f <= SourceFinality_rank (ot_source_finality (er_transfer r)) in
  let deep := fp_min_confirmations policy <= 0 \/ exists r head, accepted r
    /\ ot_source_head (er_transfer r) = Some head
    /\ fp_min_confirmations policy <= head - ct_block_number (vt_transfer v) in
  let final := claims (fp_required_source_finality policy) /\ deep in
  (vt_state v = Finalized <-> final)
  /\ (vt_state v = Confirmed <-> ~ final /\ claims SrcConfirmed)
  /\ (vt_state v = Canonical <-> ~ final /\ ~ claims SrcConfirmed).
Proof.
  intros Hmax Hv accepted claims deep final.
  pose proof (verify_Verified _ _ _ _ Hv) as [_ _ _ _ _ Htr _ _ Hconf Hstate _].
  set (A := filter _ rs) in *.
  assert (HA : forall r, r ∈ A <-> accepted r) by (intros r; apply genuine_elem).
  assert (HAne : A <> []).
  { destruct (canonical_transfer_Some A _ Htr) as (c & Hcin & _). intros E. rewrite E in Hcin.
    by apply not_elem_of_nil in Hcin. }
  assert (Hclaim : forall f, SourceFinality_rank f <= SourceFinality_rank (best_claim A) <-> claims f).
  { intros f. rewrite best_claim_rank by done. unfold claims. by setoid_rewrite HA. }
  assert (Hdeep : fp_min_confirmations policy <= vt_confirmations v <-> deep).
  { unfold deep. rewrite Hconf. pose proof (confirmations_nonneg A (ct_block_number (vt_transfer v))).
    destruct (Z.le_gt_cases (fp_min_confirmations policy) 0); [split; [by left|lia]|].
    rewrite confirmations_ge by lia. setoid_rewrite HA. split; [by right|intros [?|?]; [lia|done]]. }
  rewrite Hstate. unfold decided_state, final. rewrite <- !Hclaim, <- Hdeep.
  zcases; cbn [andb]; split_and!; split; intros; destruct_and?; try done; try lia.
Qed.

(** A verdict with its list of set-aside readings emptied. *)
Definition without_discarded (v : Verdict) : Verdict :=
  match v with
  | Verified v => Verified
      {| vt_transfer := vt_transfer v; vt_attestations := vt_attestations v;
         vt_independent_groups := vt_independent_groups v; vt_had_own_node := vt_had_own_node v;
         vt_state := vt_state v; vt_confirmations := vt_confirmations v;
         vt_policy_version := vt_policy_version v; vt_discarded := [] |}
  | Conflicted conflicts _ => Conflicted conflicts []
  | Insufficient reason _ => Insufficient reason []
  | Rejected reason _ => Rejected reason []
  end.
Definition verdict_discarded (v : Verdict) : list DiscardedReading :=
  match v with
  | Verified v => vt_discarded v
  | Conflicted _ d | Insufficient _ d | Rejected _ d => d
  end.

Lemma filter_genuine_idem (rs : list EvidenceReading) :
  filter (fun r => genuine r) (filter (fun r => genuine r) rs) = filter (fun r => genuine r) rs.
Proof. rewrite list_filter_filter. apply list_filter_iff. intros; tauto. Qed.

(** A reading written by a principal other than the source's own never
    sways the verdict: of readings of one event, the verdict is the one the
    genuine readings give alone, and the others are listed as set aside, in
    order. *)
Theorem verify_ignores_impersonators rs policy now :
  (forall a b, a ∈ rs -> b ∈ rs -> same_event a b) ->
  let genuine_readings := filter (fun r => genuine r) rs in
  without_discarded <$> verify rs policy now = without_discarded <$> verify genuine_readings policy now
  /\ forall v, verify rs policy now = Ok v ->
       verdict_discarded v = (fun r => mkDiscardedReading (er_observation_id r) ImpersonatedSource)
                               <$> filter (fun r => ~ genuine r) rs.
Proof.
  intros Hev G. unfold verify.
  rewrite (proj2 (ensure_one_event_Ok rs) Hev).
  assert (ensure_one_event G = Ok tt) as ->.
  { apply ensure_one_event_Ok. intros a b [? _]%genuine_elem [? _]%genuine_elem. auto. }
  rewrite !partition_readings_eq. unfold G. rewrite filter_genuine_idem.
  set (A := filter (fun r => genuine r) rs). cbn [mbind result_bind].
  case_bool_decide; [by split; [|intros v [= <-]]|].
  case_bool_decide; cbn [negb]; [|by split; [|intros v [= <-]]].
  destruct (rejection A); [by split; [|intros v [= <-]]|].
  destruct (insufficiency _ _ _ _) as [[|]|]; cbn [mbind result_bind];
    [by split; [|intros v [= <-]]| |by split].
  destruct (canonical_transfer A); by split; [|intros v [= <-]].
Qed.

(** Readings of one event conflict exactly when two genuine ones report
    different values of a compared field, and then no transfer is created:
    the verdict names exactly the fields in dispute, each with every
    reading's value. *)
Theorem verify_conflicts_exactly rs policy now :
  (forall a b, a ∈ rs -> b ∈ rs -> same_event a b) ->
  let accepted := filter (fun r => genuine r) rs in
  ((exists conflicts d, verify rs policy now = Ok (Conflicted conflicts d))
   <-> exists f read a b x y, (f, read) ∈ COMPARED_FIELDS /\ a ∈ accepted /\ b ∈ accepted
         /\ read a = Some x /\ read b = Some y /\ x <> y)
  /\ forall conflicts d, verify rs policy now = Ok (Conflicted conflicts d) ->
       forall c, c ∈ conflicts <->
         exists f read a b x y, (f, read) ∈ COMPARED_FIELDS /\ a ∈ accepted /\ b ∈ accepted
           /\ read a = Some x /\ read b = Some y /\ x <> y
           /\ c = mkFieldConflict f (field_items read accepted).
Proof.
  intros Hev A. unfold verify.
  rewrite (proj2 (ensure_one_event_Ok rs) Hev), partition_readings_eq. cbn [mbind result_bind]. fold A.
  assert (Hc : forall c, c ∈ find_conflicts A <->
    exists f read a b x y, (f, read) ∈ COMPARED_FIELDS /\ a ∈ A /\ b ∈ A
      /\ read a = Some x /\ read b = Some y /\ x <> y /\ c = mkFieldConflict f (field_items read A))
    by (apply find_conflicts_elem).
  split.
  - transitivity (find_conflicts A <> []).
    + case_bool_decide as HA.
      { split; [naive_solver|]. intros []. by rewrite HA. }
      case_bool_decide as Hl; cbn [negb].
      * apply nil_length_inv in Hl. rewrite Hl. split; [|done].
        intros (cs & d & E). exfalso. revert E.
        destruct (rejection A); [done|]. destruct (insufficiency _ _ _ _) as [[|]|]; cbn; try done.
        by destruct (canonical_transfer A).
      * split; [|eauto]. intros _ E. by rewrite E in Hl.
    + split.
      * intros Hne. destruct (find_conflicts A) as [|c cs] eqn:E; [done|].
        destruct (proj1 (Hc c)) as (f & rd & a & b & x & y & ?); [by left|].
        exists f, rd, a, b, x, y. tauto.
      * intros (f & rd & a & b & x & y & ?) E.
        assert (mkFieldConflict f (field_items rd A) ∈ find_conflicts A) as Hin
          by (apply Hc; exists f, rd, a, b, x, y; tauto).
        rewrite E in Hin. by apply not_elem_of_nil in Hin.
  - intros cs d. case_bool_decide; [done|]. case_bool_decide; cbn [negb]; [|by intros [= <- <-]].
    destruct (rejection A); [done|]. destruct (insufficiency _ _ _ _) as [[|]|]; cbn; try done.
    by destruct (canonical_transfer A).
Qed.
End properties.

(** ** Concrete evidence *)

Import ReferenceInstances.

Definition sample_evidence (id : Z) (group principal : string) (kind : ObservationKind) : EvidenceReading := {|
  er_observation_id := id; er_source_id := id; er_provider_group := group; er_source_kind := "own_node";
  er_source_principal := principal; er_declared_principal := group; er_kind := kind;
  er_asset_id := Some 7; er_collector_address_id := Some 8; er_transfer := sample_transfer;
  er_observed_at := 0 |}.

Definition sample_evidence_list : list EvidenceReading :=
  [ sample_evidence 1 "a" "a" CursorScan; sample_evidence 2 "b" "b" TargetedLookup;
    sample_evidence 3 "c" "intruder" CursorScan ].

Definition sample_finality_policy : FinalityPolicy := {|
  fp_id := 1; fp_version := "v1"; fp_min_confirmations := 19; fp_required_source_finality := Seen;
  fp_min_independent_groups := 2; fp_max_evidence_age_seconds := 60; fp_observed_at := 0 |}.

Definition sample_canonical : CanonicalTransfer := {|
  ct_asset_id := 7; ct_collector_address_id := 8; ct_chain := "tron"; ct_network := "mainnet";
  ct_chain_environment := Mainnet; ct_tx_hash := mkTxHash "abcdef01"; ct_event_index := 0;
  ct_block_number := 100; ct_block_hash := "block-1"; ct_block_time := 0;
  ct_token_key := ot_token_key sample_transfer; ct_from_address := ot_from_address sample_transfer;
  ct_from_address_text := "TFrom"; ct_to_address := ot_to_address sample_transfer;
  ct_to_address_text := "TTo"; ct_amount_raw := mkRawAmount 1000; ct_decimals := 6; ct_memo := None |}.

Definition sample_verified : VerifiedTransfer := {|
  vt_transfer := sample_canonical; vt_attestations := [(1, Detection); (2, Reverify)];
  vt_independent_groups := 2; vt_had_own_node := true; vt_state := Finalized; vt_confirmations := 20;
  vt_policy_version := "v1"; vt_discarded := [mkDiscardedReading 3 ImpersonatedSource] |}.

Lemma sample_verify :
  verify sample_evidence_list sample_finality_policy 0 = Ok (Verified sample_verified).
Proof. vm_compute. reflexivity. Qed.

Lemma sample_one_event a b :
  a ∈ sample_evidence_list -> b ∈ sample_evidence_list -> same_event a b.
Proof. unfold sample_evidence_list. set_unfold. intros. by destruct_or!; subst. Qed.

Lemma sample_evidence_wf :
  Forall EvidenceReading_wf sample_evidence_list
  /\ Forall (fun r => is_instant (er_observed_at r)) sample_evidence_list.
Proof.
  assert (forall id group principal kind, EvidenceReading_wf (sample_evidence id group principal kind)
    /\ is_instant (er_observed_at (sample_evidence id group principal kind))) as Hwf.
  { intros. split; [split_and!|].
    - split; vm_compute; congruence.
    - done.
    - intros ? [= <-]. split; vm_compute; congruence.
    - intros ? [= <-]. split; vm_compute; congruence.
    - split; vm_compute; congruence. }
  unfold sample_evidence_list. split; rewrite !Forall_cons, Forall_nil; split_and!; try done; apply Hwf.
Qed.

Lemma verified_evidence_agrees_witness :
  exists groups : list string, NoDup groups /\ 2 = Z.min (Z.of_nat (length groups)) U32_MAX.
Proof.
  destruct (verified_evidence_agrees sample_evidence_list sample_finality_policy 0 sample_verified
    (proj1 sample_evidence_wf) (proj2 sample_evidence_wf) sample_verify)
    as (_ & _ & _ & _ & (groups & Hnd & _ & Hlen) & _).
  exists groups. exact (conj Hnd Hlen).
Defined.

Lemma verified_finality_iff_witness :
  vt_state sample_verified = Finalized
  /\ exists r, (r ∈ sample_evidence_list /\ er_source_principal r = er_declared_principal r)
        /\ SourceFinality_rank Seen <= SourceFinality_rank (ot_source_finality (er_transfer r)).
Proof.
  split; [reflexivity|].
  apply (verified_finality_iff sample_evidence_list sample_finality_policy 0 sample_verified);
    [vm_compute; congruence|exact sample_verify|reflexivity].
Defined.

Lemma verify_ignores_impersonators_witness :
  verdict_discarded (Verified sample_verified) = [mkDiscardedReading 3 ImpersonatedSource].
Proof.
  exact (proj2 (verify_ignores_impersonators sample_evidence_list sample_finality_policy 0
    sample_one_event) (Verified sample_verified) sample_verify).
Defined.

(** A second source under which the token is another asset. *)
Definition sample_other : EvidenceReading := {|
  er_observation_id := 2; er_source_id := 2; er_provider_group := "b"; er_source_kind := "own_node";
  er_source_principal := "b"; er_declared_principal := "b"; er_kind := TargetedLookup;
  er_asset_id := Some 9; er_collector_address_id := Some 8; er_transfer := sample_transfer;
  er_observed_at := 0 |}.

Lemma verify_conflicts_exactly_witness :
  exists conflicts d f read a b x y,
    verify [sample_evidence 1 "a" "a" CursorScan; sample_other] sample_finality_policy 0
      = Ok (Conflicted conflicts d)
    /\ (f, read) ∈ COMPARED_FIELDS /\ read a = Some x /\ read b = Some y /\ x <> y.
Proof.
  destruct (verify [sample_evidence 1 "a" "a" CursorScan; sample_other] sample_finality_policy 0)
    as [[]|] eqn:Hv; try (exfalso; vm_compute in Hv; discriminate Hv).
  destruct (verify_conflicts_exactly [sample_evidence 1 "a" "a" CursorScan; sample_other]
    sample_finality_policy 0) as [[Hfwd _] _].
  - intros a b Ha Hb. set_unfold. by destruct_or!; subst.
  - destruct (Hfwd (ex_intro _ conflicts (ex_intro _ discarded Hv))) as (f & read & a & b & x & y & ? & _ & _ & ? & ? & ?).
    exists conflicts, discarded, f, read, a, b, x, y. split_and!; assumption || reflexivity.
Defined.
