(* ===== verification/VerificationService.v ===== *)
(** * The verification service

    [gateway-application/src/verification.rs]: a pass takes a bounded batch of
    events, makes sure the verifier's own reading is among the evidence,
    decides each event with [verify], reads the chain again where only depth
    is missing, and commits the verdict. *)

From Stdlib Require Import Ascii String.
From stdpp Require Import sets.
From S2P Require Import Prelude RustStd Externals Effects Money Chain Observations Verification.

Local Open Scope Z_scope.

Definition DEPTH_REREAD_INTERVAL : Z := duration_seconds 15.

Record ChainEventKey := mkChainEventKey {
  ck_chain : string;
  ck_network : string;
  ck_chain_environment : ChainEnvironment;
  ck_tx_hash : TxHash;
  ck_event_index : Z;                (* i32 *)
}.

Inductive ChainReaderError := ReaderUnreachable (detail : string) | ReaderUnparseable (detail : string).
Definition ChainReaderError_is_transient (e : ChainReaderError) : bool :=
  match e with ReaderUnreachable _ => true | ReaderUnparseable _ => false end.

(** The verifier's own window onto a chain. *)
Class ChainReader (W : Type) := {
  reader_lookup : ChainEventKey -> eff W ChainReaderError (option ObservedTransfer);
}.

Inductive VerdictOutcome :=
  | TransferCreated (id : Z) | TransferAdvanced (id : Z) | ConflictRecorded | VerdictPending | VerdictRefused.

Class VerificationRepository (W : Type) := {
  find_finality_policy :
    string -> string -> ChainEnvironment -> eff W RepositoryError (option FinalityPolicy);
  events_awaiting_verdict : Z -> Z -> eff W RepositoryError (list ChainEventKey);
  evidence_for : ChainEventKey -> eff W RepositoryError (list EvidenceReading);
  commit_verdict :
    ComponentLease -> ChainEventKey -> Verdict -> Z -> string -> Z -> eff W RepositoryError VerdictOutcome;
}.

Record VerificationReport := mkVerificationReport {
  vp_examined : Z;                   (* u32 *)
  vp_verified : Z;
  vp_conflicted : Z;
  vp_insufficient : Z;
  vp_rejected : Z;
  vp_rereads_performed : Z;
  vp_rereads_failed : Z;
  vp_missing_policy : Z;
}.
Definition VerificationReport_default : VerificationReport := mkVerificationReport 0 0 0 0 0 0 0 0.

Record VerificationService := mkVerificationService {
  vs_verifier_source : ChainSource;
  vs_verifier_version : string;
  vs_parser_version : string;
}.

Inductive VerificationServiceError :=
  | VsInvalidBatchLimit
  | VsVerification (e : VerificationError)
  | VsRepository (e : RepositoryError).
Definition VerificationServiceError_is_transient (e : VerificationServiceError) : bool :=
  match e with VsRepository error => RepositoryError_is_transient error | _ => false end.

(** ** The counters *)

Definition incr (n : Z) : Z := u32_saturating_add n 1.
Definition count_examined (r : VerificationReport) : VerificationReport :=
  let '(mkVerificationReport e v c i j p f m) := r in mkVerificationReport (incr e) v c i j p f m.
Definition count_missing_policy (r : VerificationReport) : VerificationReport :=
  let '(mkVerificationReport e v c i j p f m) := r in mkVerificationReport e v c i j p f (incr m).
Definition count_reread (r : VerificationReport) : VerificationReport :=
  let '(mkVerificationReport e v c i j p f m) := r in mkVerificationReport e v c i j (incr p) f m.
Definition count_failed (r : VerificationReport) : VerificationReport :=
  let '(mkVerificationReport e v c i j p f m) := r in mkVerificationReport e v c i j p (incr f) m.
Definition count_verdict (verdict : Verdict) (r : VerificationReport) : VerificationReport :=
  let '(mkVerificationReport e v c i j p f m) := r in
  match verdict with
  | Verified _ => mkVerificationReport e (incr v) c i j p f m
  | Conflicted _ _ => mkVerificationReport e v (incr c) i j p f m
  | Insufficient _ _ => mkVerificationReport e v c (incr i) j p f m
  | Rejected _ _ => mkVerificationReport e v c i (incr j) p f m
  end.

Definition has_own_reread (self : VerificationService) (evidence : list EvidenceReading) : bool :=
  existsb (fun r => bool_decide (er_kind r = TargetedLookup)
                    && (er_source_id r =? cs_id (vs_verifier_source self))) evidence.

Definition awaits_depth (verdict : Verdict) (policy : FinalityPolicy) : bool :=
  match verdict with
  | Verified v =>
      negb (bool_decide (vt_state v = Finalized)) && (vt_confirmations v <? fp_min_confirmations policy)
  | _ => false
  end.

Section service.
Context {W : Type} `{U256Lib} `{TimeLib} `{UuidLib} `{HashLib}.
Context `{Clock W} `{ObservationRepository W} `{VerificationRepository W} `{ChainReader W}.
(** The text of a storage error. *)
Context (repository_error_text : RepositoryError -> string).

Definition service_resolve (self : VerificationService) (transfer : ObservedTransfer)
    (collectors : list CollectorWatch) (fence_token now : Z) : option ResolvedObservation :=
  '(_, collector) ← list_find (fun c => cw_address_key c = ot_to_address transfer) collectors;
  let asset_id := cw_asset_id ∘ snd
    <$> list_find (fun c => cw_address_key c = ot_to_address transfer
                            /\ cw_token_key c = ot_token_key transfer) collectors in
  Some {| ro_transfer := transfer; ro_kind := TargetedLookup;
          ro_collector_address_id := cw_collector_address_id collector; ro_asset_id := asset_id;
          ro_semantic_hash := semantic_hash transfer (cs_id (vs_verifier_source self)) TargetedLookup;
          ro_observer_version := vs_verifier_version self;
          ro_parser_version := vs_parser_version self; ro_fence_token := fence_token;
          ro_observed_at := now |}.

Definition reread (self : VerificationService) (lease : ComponentLease) (event : ChainEventKey)
    : eff W ChainReaderError bool :=
  let unreachable {A} (m : eff W RepositoryError A) : eff W ChainReaderError A :=
    eff_map_err (fun e => ReaderUnreachable (repository_error_text e)) m in
  found ← reader_lookup event;
  match found with
  | None => mret false
  | Some transfer =>
      let source := vs_verifier_source self in
      collectors ← unreachable (watched_collectors (cs_chain source) (cs_network source)
                                  (cs_chain_environment source));
      match list_find (fun c => cw_address_key c = ot_to_address transfer) collectors with
      | None => mret false
      | Some _ =>
          now ← read_clock;
          match service_resolve self transfer collectors (cl_fence_token lease) now with
          | None => mret false
          | Some resolved =>
              _ ← unreachable (record_observations source lease [resolved] None);
              mret true
          end
      end
  end.

(** What the first read of a pass leaves: the report, the evidence and
    whether the chain was read, or [None] to go on to the next event. *)
Definition ensure_own_reread (self : VerificationService) (lease : ComponentLease)
    (event : ChainEventKey) (evidence : list EvidenceReading) (report : VerificationReport)
    : eff W VerificationServiceError
        (VerificationReport * option (list EvidenceReading * bool)) :=
  if has_own_reread self evidence then mret (report, Some (evidence, false))
  else
    outcome ← attempt (reread self lease event);
    match outcome with
    | Ok true =>
        evidence ← eff_map_err VsRepository (evidence_for event);
        mret (count_reread report, Some (evidence, true))
    | Ok false => mret (count_failed report, Some (evidence, false))
    | Err error =>
        if ChainReaderError_is_transient error then mret (count_failed report, None)
        else mret (count_failed report, Some (evidence, false))
    end.

Definition verify_now (evidence : list EvidenceReading) (policy : FinalityPolicy)
    : eff W VerificationServiceError Verdict :=
  now ← read_clock;
  lift (map_err VsVerification (verify evidence policy now)).

(** The second read, for an event that lacks only depth. *)
Definition deepen (self : VerificationService) (lease : ComponentLease) (event : ChainEventKey)
    (policy : FinalityPolicy) (evidence : list EvidenceReading) (read_this_pass : bool)
    (verdict : Verdict) (report : VerificationReport)
    : eff W VerificationServiceError (VerificationReport * list EvidenceReading * Verdict) :=
  if negb read_this_pass && awaits_depth verdict policy then
    outcome ← attempt (reread self lease event);
    match outcome with
    | Ok true =>
        evidence ← eff_map_err VsRepository (evidence_for event);
        verdict ← verify_now evidence policy;
        mret (count_reread report, evidence, verdict)
    | _ => mret (count_failed report, evidence, verdict)
    end
  else mret (report, evidence, verdict).

(** The body of the loop of [verify_pending]. *)
Definition verify_event (self : VerificationService) (lease : ComponentLease)
    (report : VerificationReport) (event : ChainEventKey)
    : eff W VerificationServiceError VerificationReport :=
  let report := count_examined report in
  policy ← eff_map_err VsRepository
             (find_finality_policy (ck_chain event) (ck_network event) (ck_chain_environment event));
  match policy with
  | None => mret (count_missing_policy report)
  | Some policy =>
      evidence ← eff_map_err VsRepository (evidence_for event);
      '(report, read) ← ensure_own_reread self lease event evidence report;
      match read with
      | None => mret report
      | Some (evidence, read_this_pass) =>
          verdict ← verify_now evidence policy;
          '(report, evidence, verdict) ← deepen self lease event policy evidence read_this_pass verdict report;
          let evidence_count := len_u32 evidence in
          now ← read_clock;
          _ ← eff_map_err VsRepository
                (commit_verdict lease event verdict evidence_count (vs_verifier_version self) now);
          mret (count_verdict verdict report)
      end
  end.

Definition verify_pending (self : VerificationService) (lease : ComponentLease) (limit : Z)
    : eff W VerificationServiceError VerificationReport :=
  if (limit =? 0) || (1000 <? limit) then lift (Err VsInvalidBatchLimit)
  else
    now ← read_clock;
    events ← eff_map_err VsRepository (events_awaiting_verdict limit (now - DEPTH_REREAD_INTERVAL));
    for_each (verify_event self lease) events VerificationReport_default.
End service.

(** * Lemmas *)

(** The events of a report that reached a verdict or lack a policy. *)
Definition decided (r : VerificationReport) : Z :=
  vp_verified r + vp_conflicted r + vp_insufficient r + vp_rejected r + vp_missing_policy r.

(** A report over [n] events: none is lost, and every event without a verdict
    or a missing policy is a failed re-read. *)
Definition report_inv (n : Z) (r : VerificationReport) : Prop :=
  vp_examined r = n /\ 0 <= vp_verified r /\ 0 <= vp_conflicted r /\ 0 <= vp_insufficient r
  /\ 0 <= vp_rejected r /\ 0 <= vp_missing_policy r /\ 0 <= vp_rereads_performed r <= 2 * n
  /\ decided r <= n /\ n - decided r <= vp_rereads_failed r <= 2 * n.

Lemma incr_small n : 0 <= n < U32_MAX -> incr n = n + 1.
Proof. intros Hn. apply saturate_id. lia. Qed.

Section service_lemmas.
Context {W : Type} `{U256Lib} `{TimeLib} `{UuidLib} `{HashLib}.
Context `{Clock W} `{ObservationRepository W} `{VerificationRepository W} `{ChainReader W}.
Context (repository_error_text : RepositoryError -> string).

(** What the first read of a pass did. *)
Lemma ensure_own_reread_cases self lease event evidence report w report' read w' :
  ensure_own_reread repository_error_text self lease event evidence report w = (Ok (report', read), w') ->
  (report' = report /\ read = Some (evidence, false) /\ w' = w)
  \/ (report' = count_failed report
      /\ (read = Some (evidence, false)
          \/ (read = None /\ exists e, ChainReaderError_is_transient e = true
               /\ reread repository_error_text self lease event w = (Err e, w'))))
  \/ (report' = count_reread report
      /\ exists fresh w1, evidence_for event w1 = (Ok fresh, w') /\ read = Some (fresh, true)).
Proof.
  unfold ensure_own_reread. intros Hrun. destruct (has_own_reread self evidence).
  { inv_eff Hrun. simplify_eq. by left. }
  inv_eff Hrun. destruct v as [[]|e].
  - inv_eff Hrun. simplify_eq. right. right. split; [done|]. by exists v, w0.
  - inv_eff Hrun. simplify_eq. right. left. split; [done|by left].
  - destruct (ChainReaderError_is_transient e) eqn:He; inv_eff Hrun; simplify_eq; right; left;
      (split; [done|]); [right|by left]. split; [done|]. by exists e.
Qed.

Lemma verify_now_Ok evidence policy w verdict w' :
  (verify_now evidence policy : eff W _ _) w = (Ok verdict, w') ->
  exists now, clock_now w = (now, w') /\ verify evidence policy now = Ok verdict.
Proof.
  unfold verify_now. intros Hrun. inv_eff Hrun. unfold read_clock in Hm.
  destruct (clock_now w) as [t w1]. simplify_eq. exists v. split; [done|].
  by destruct (verify evidence policy v); simplify_eq/=.
Qed.

Lemma deepen_cases self lease event policy evidence flag verdict report w report' evidence' verdict' w' :
  deepen repository_error_text self lease event policy evidence flag verdict report w
    = (Ok (report', evidence', verdict'), w') ->
  (evidence' = evidence /\ verdict' = verdict /\ (report' = report \/ (flag = false /\ report' = count_failed report)))
  \/ (report' = count_reread report /\ flag = false
      /\ exists now w1 w2, evidence_for event w1 = (Ok evidence', w2)
           /\ verify evidence' policy now = Ok verdict').
Proof.
  unfold deepen. intros Hrun. destruct (negb flag && awaits_depth verdict policy) eqn:Hb.
  - apply andb_prop in Hb as [Hf%negb_true_iff _].
    inv_eff Hrun. destruct v as [[]|e]; inv_eff Hrun; simplify_eq; [|left; split_and!; (done || by right)..].
    apply verify_now_Ok in Hm1 as (now & _ & Hv).
    right. split_and!; [done..|]. by exists now, w0, w1.
  - inv_eff Hrun. simplify_eq. left. split_and!; (done || by left).
Qed.

(** One event, from the calls it made to the counters it moved. *)
Lemma verify_event_inv self lease report event w report' w' :
  verify_event repository_error_text self lease report event w = (Ok report', w') ->
  report' = count_missing_policy (count_examined report)
  \/ report' = count_failed (count_examined report)
  \/ exists evidence policy verdict now t1 w1 w2 w3 w4 w5 w6 outcome base,
       find_finality_policy (ck_chain event) (ck_network event) (ck_chain_environment event) w
         = (Ok (Some policy), w1)
       /\ evidence_for event w2 = (Ok evidence, w3)
       /\ verify evidence policy now = Ok verdict
       /\ clock_now w4 = (t1, w5)
       /\ commit_verdict lease event verdict (len_u32 evidence) (vs_verifier_version self) t1 w5
          = (Ok outcome, w6)
       /\ w' = w6 /\ report' = count_verdict verdict base
       /\ base ∈ [count_examined report; count_failed (count_examined report);
                  count_failed (count_failed (count_examined report));
                  count_reread (count_examined report);
                  count_reread (count_failed (count_examined report))].
Proof.
  unfold verify_event. intros Hrun. inv_eff Hrun.
  destruct v as [policy|]; [|inv_eff Hrun; by left]. inv_eff Hrun.
  destruct v0 as [r1 read]. apply ensure_own_reread_cases in Hm1.
  destruct read as [[evidence flag]|].
  2:{ inv_eff Hrun. right. left. destruct Hm1 as [(_ & [=] & _)|[(-> & _)|(_ & ? & ? & _ & [=])]]. done. }
  inv_eff Hrun. destruct v1 as [[r2 evidence2] verdict2]. inv_eff Hrun.
  apply verify_now_Ok in Hm2 as (t0 & _ & Hv0). apply deepen_cases in Hm3.
  unfold read_clock in Hm4. destruct (clock_now _) as [t1 w8] eqn:Hclock. simplify_eq.
  right. right.
  assert (Hev : exists we we', evidence_for event we = (Ok evidence, we')).
  { destruct Hm1 as [(_ & E & _)|[(_ & [E|[E _]])|(_ & fresh & we & Hf & E)]]; simplify_eq; eauto. }
  assert (Hbase : r2 ∈ [count_examined report; count_failed (count_examined report);
                  count_failed (count_failed (count_examined report));
                  count_reread (count_examined report);
                  count_reread (count_failed (count_examined report))]).
  { destruct Hm1 as [(-> & E & _)|[(-> & [E|[E _]])|(-> & fresh & we & Hf & E)]]; simplify_eq;
      destruct Hm3 as [(_ & _ & [->|[? ->]])|(-> & ? & _)]; try done; set_solver. }
  destruct Hev as (we & we' & Hev).
  destruct Hm3 as [(-> & -> & _)|(_ & _ & now & wa & wb & Hea & Hva)].
  - exists evidence, policy, v0, t0, v1, w0, we, we', w4, w5, w6, v2, r2. by split_and!.
  - exists evidence2, policy, verdict2, now, v1, w0, wa, wb, w4, w5, w6, v2, r2. by split_and!.
Qed.

Lemma report_inv_step n r e self lease w r' w' :
  0 <= n < 1000 -> report_inv n r ->
  verify_event repository_error_text self lease r e w = (Ok r', w') -> report_inv (n + 1) r'.
Proof.
  intros Hn Hinv Hrun. unfold report_inv, decided in *.
  assert (Hsmall : forall k, 0 <= k <= 4000 -> incr k = k + 1)
    by (intros k Hk; apply incr_small; unfold U32_MAX; lia).
  apply verify_event_inv in Hrun as [->|[->|Hv]].
  1,2: destruct r; simpl in *; rewrite !Hsmall by lia; lia.
  destruct Hv as (_ & _ & v & _ & _ & _ & _ & _ & _ & _ & _ & _ & base & _ & _ & _ & _ & _ & _ & -> & Hbase).
  destruct r as [ex ve co ins rej per fa mi]; simpl in *.
  repeat (apply elem_of_cons in Hbase as [->|Hbase]); [..|by apply not_elem_of_nil in Hbase].
  all: simpl; destruct v; simpl; rewrite !Hsmall by (rewrite ?Hsmall by lia; lia); lia.
Qed.

(** A pass accounts for every event it took: the events examined are
    those that got exactly one verdict, those without a finality policy, and
    those set aside because the chain could not be read, which are all
    counted as failed re-reads; and it examines no more than its limit. *)
Theorem verification_pass_accounts_for_every_event self lease limit w report w' :
  (forall n before w1 events w2, 0 <= n ->
     events_awaiting_verdict n before w1 = (Ok events, w2) -> Z.of_nat (length events) <= n) ->
  verify_pending repository_error_text self lease limit w = (Ok report, w') ->
  0 <= limit <= U32_MAX ->
  1 <= limit <= 1000 /\ vp_examined report <= limit
  /\ exists set_aside, 0 <= set_aside <= vp_rereads_failed report
       /\ vp_examined report = vp_verified report + vp_conflicted report + vp_insufficient report
            + vp_rejected report + vp_missing_policy report + set_aside.
Proof.
  intros Hlimit Hrun Hu. unfold verify_pending in Hrun.
  destruct ((limit =? 0) || (1000 <? limit)) eqn:Hb; [done|]. bool_to_prop. inv_eff Hrun.
  apply Hlimit in Hm0; [|lia].
  assert (Hinv : report_inv (Z.of_nat (length v0)) report).
  { refine (for_each_inv (verify_event repository_error_text self lease)
      (fun seen r _ => (length seen <= length v0)%nat -> report_inv (Z.of_nat (length seen)) r) v0
      _ _ _ _ _ _ Hrun _); [| |lia].
    - intros seen x s w3 s' w4 HI _ Hstep Hle. rewrite length_app in *. simpl in *.
      replace (Z.of_nat (length seen + 1)) with (Z.of_nat (length seen) + 1) by lia.
      eapply report_inv_step; [|apply HI; lia|exact Hstep]. lia.
    - intros _. unfold report_inv, decided. simpl. lia. }
  unfold report_inv, decided in Hinv. split_and!; [lia..|].
  exists (vp_examined report - (vp_verified report + vp_conflicted report + vp_insufficient report
            + vp_rejected report + vp_missing_policy report)). lia.
Qed.
End service_lemmas.

(** ** A pass seen from storage

    The same repositories with every commit recorded. *)
Record Commit := mkCommit { cm_event : ChainEventKey; cm_verdict : Verdict; cm_evidence_count : Z }.

#[local] Instance recording_clock {W} `{Clock W} : Clock (W * list Commit) := unlogged_clock.
#[local] Instance recording_observations {W} `{ObservationRepository W}
    : ObservationRepository (W * list Commit) := {|
  find_source id := unlogged (find_source id);
  watched_collectors c n e := unlogged (watched_collectors c n e);
  find_cursor s k c := unlogged (find_cursor s k c);
  record_observations s l o c := unlogged (record_observations s l o c) |}.
#[local] Instance recording_verification {W} `{VerificationRepository W}
    : VerificationRepository (W * list Commit) := {|
  find_finality_policy c n e := unlogged (find_finality_policy c n e);
  events_awaiting_verdict n t := unlogged (events_awaiting_verdict n t);
  evidence_for event := unlogged (evidence_for event);
  commit_verdict lease event verdict count version now :=
    logged (mkCommit event verdict count) (commit_verdict lease event verdict count version now) |}.
#[local] Instance recording_reader {W} `{ChainReader W} : ChainReader (W * list Commit) :=
  {| reader_lookup event := unlogged (reader_lookup event) |}.

Section recorded_pass.
Context {W : Type} `{U256Lib} `{TimeLib} `{UuidLib} `{HashLib}.
Context `{Clock W} `{ObservationRepository W} `{VerificationRepository W} `{ChainReader W}.
Context (repository_error_text : RepositoryError -> string).

(** The verdict is the rule's answer, at a time of the clock, on evidence
    and a policy that storage returned for that event. *)
Definition proven (event : ChainEventKey) (evidence : list EvidenceReading) (policy : FinalityPolicy)
    (verdict : Verdict) : Prop :=
  returned_by (evidence_for event) evidence
  /\ returned_by (find_finality_policy (ck_chain event) (ck_network event) (ck_chain_environment event))
       (Some policy)
  /\ exists w, verify evidence policy (clock_now w).1 = Ok verdict.
Definition commit_proven (c : Commit) : Prop :=
  exists limit before events evidence policy,
    returned_by (events_awaiting_verdict limit before) events /\ cm_event c ∈ events
    /\ proven (cm_event c) evidence policy (cm_verdict c) /\ cm_evidence_count c = len_u32 evidence.

Abbreviation log_ok := (fun w : W * list Commit => Forall commit_proven w.2).

Lemma holds_recorded {E A} (m : eff W E A) : holds log_ok (unlogged m) (returned_by m).
Proof. apply (holds_unlogged (Forall commit_proven)). Qed.

Lemma holds_recorded_clock {E} :
  holds log_ok (read_clock : eff _ E Z) (fun t => exists w, t = (clock_now w).1).
Proof.
  intros [w log] Hlog. unfold read_clock. cbn. destruct (clock_now w) as [t w1] eqn:Hc.
  split; [done|]. intros a [= <-]. exists w. by rewrite Hc.
Qed.

Lemma reread_recorded self lease event :
  holds log_ok (reread repository_error_text self lease event) (fun _ => True).
Proof.
  unfold reread. eapply holds_bind; [apply holds_recorded|]. intros [transfer|] _; [|by apply holds_ret].
  eapply holds_bind; [apply holds_map_err, holds_recorded|]. intros collectors _.
  destruct (list_find _ _); [|by apply holds_ret].
  eapply holds_bind; [apply holds_recorded_clock|]. intros now _.
  destruct (service_resolve _ _ _ _ _); [|by apply holds_ret].
  eapply holds_bind; [apply holds_map_err, holds_recorded|]. intros. by apply holds_ret.
Qed.

Lemma evidence_recorded event :
  holds log_ok (eff_map_err VsRepository (evidence_for event)) (returned_by (W := W) (evidence_for event)).
Proof. apply holds_map_err, holds_recorded. Qed.

Lemma verify_now_recorded evidence policy :
  holds log_ok (verify_now evidence policy)
    (fun verdict => exists w : W, verify evidence policy (clock_now w).1 = Ok verdict).
Proof.
  unfold verify_now. eapply holds_bind; [apply holds_recorded_clock|]. intros now [w ->].
  eapply holds_weaken; [apply holds_lift|]. intros verdict Hv. exists w.
  by destruct (verify _ _ _); simplify_eq/=.
Qed.

Lemma ensure_own_reread_recorded self lease event evidence report :
  returned_by (W := W) (evidence_for event) evidence ->
  holds log_ok (ensure_own_reread repository_error_text self lease event evidence report)
    (fun x => forall e b, x.2 = Some (e, b) -> returned_by (W := W) (evidence_for event) e).
Proof.
  intros He. unfold ensure_own_reread.
  destruct (has_own_reread _ _); [apply holds_ret; intros; simplify_eq/=; done|].
  eapply holds_bind; [apply holds_attempt, reread_recorded|]. intros [[]|error] _.
  - eapply holds_bind; [apply evidence_recorded|]. intros fresh Hf. apply holds_ret. intros; simplify_eq/=; done.
  - apply holds_ret. intros; simplify_eq/=; done.
  - destruct (ChainReaderError_is_transient error); apply holds_ret; intros; simplify_eq/=; done.
Qed.

Lemma deepen_recorded self lease event policy evidence flag verdict report :
  returned_by (find_finality_policy (ck_chain event) (ck_network event) (ck_chain_environment event))
    (Some policy) ->
  proven event evidence policy verdict ->
  holds log_ok (deepen repository_error_text self lease event policy evidence flag verdict report)
    (fun x => proven event x.1.2 policy x.2).
Proof.
  intros Hp Hv. unfold deepen. destruct (_ && _); [|by apply holds_ret].
  eapply holds_bind; [apply holds_attempt, reread_recorded|]. intros [[]|error] _; try by apply holds_ret.
  eapply holds_bind; [apply evidence_recorded|]. intros fresh Hf.
  eapply holds_bind; [apply verify_now_recorded|]. intros again Hagain. apply holds_ret. by split_and!.
Qed.

Lemma verify_event_recorded self lease report limit before events event :
  returned_by (events_awaiting_verdict limit before) events -> event ∈ events ->
  holds log_ok (verify_event repository_error_text self lease report event) (fun _ => True).
Proof.
  intros Hevents Hin. unfold verify_event. eapply holds_bind; [apply holds_map_err, holds_recorded|].
  intros [policy|] Hp; [|by apply holds_ret].
  eapply holds_bind; [apply evidence_recorded|]. intros evidence He.
  eapply holds_bind; [by apply ensure_own_reread_recorded|]. intros [report1 read] Hread.
  destruct read as [[evidence1 flag]|]; [|by apply holds_ret].
  eapply holds_bind; [apply verify_now_recorded|]. intros verdict Hv.
  eapply holds_bind.
  { apply deepen_recorded; [exact Hp|]. split_and!; [by eapply Hread|exact Hp|exact Hv]. }
  intros [[report2 evidence2] verdict2] Hproven. simpl in Hproven.
  eapply holds_bind; [apply holds_recorded_clock|]. intros now _.
  eapply holds_bind; [apply holds_map_err, holds_logged|intros; by apply holds_ret].
  by exists limit, before, events, evidence2, policy.
Qed.

Lemma verify_pending_recorded self lease limit (w : W) :
  Forall commit_proven (verify_pending repository_error_text self lease limit (w, @nil Commit)).2.2.
Proof.
  assert (Hh : holds log_ok (verify_pending repository_error_text self lease limit) (fun _ => True));
    [|apply Hh; by apply Forall_nil].
  unfold verify_pending. destruct (_ || _); [eapply holds_weaken; [apply holds_lift|done]|].
  eapply holds_bind; [apply holds_recorded_clock|]. intros now _.
  eapply holds_bind; [apply holds_map_err, holds_recorded|]. intros events Hevents.
  apply holds_for_each. intros. by eapply verify_event_recorded.
Qed.

(** Whatever a verification pass does, and also when it stops at an
    error, it commits a verdict only for an event that awaited one, and the
    verdict is what the rule decides, under the stored policy of that chain
    and at a time of the clock, on evidence stored for that very event.  In
    particular a transfer is committed as verified only when the stored
    evidence holds a genuine re-read by the verifier, the genuine readings
    do not conflict, and enough provider groups took part. *)
Theorem verification_pass_commits_only_proven_verdicts self lease limit (w : W) c :
  c ∈ (verify_pending repository_error_text self lease limit (w, @nil Commit)).2.2 ->
  exists before events evidence policy n,
    returned_by (events_awaiting_verdict n before) events /\ cm_event c ∈ events
    /\ proven (cm_event c) evidence policy (cm_verdict c) /\ cm_evidence_count c = len_u32 evidence
    /\ forall v, cm_verdict c = Verified v ->
         (exists r, r ∈ evidence /\ er_source_principal r = er_declared_principal r
            /\ er_kind r = TargetedLookup)
         /\ find_conflicts (filter (fun r => genuine r) evidence) = []
         /\ fp_min_independent_groups policy <= vt_independent_groups v.
Proof.
  intros Hc. pose proof (verify_pending_recorded self lease limit w) as Hall.
  rewrite Forall_forall in Hall.
  destruct (Hall c Hc) as (n & before & events & evidence & policy & ? & ? & Hp & ?).
  exists before, events, evidence, policy, n. split_and!; try done. intros v Hv.
  destruct Hp as (_ & _ & w1 & Hver). rewrite Hv in Hver.
  pose proof (verify_Verified _ _ _ _ Hver) as [_ _ Hconf _ Hins _ _ Hgr _ _ _].
  apply insufficiency_reread in Hins as [(r & Hr%genuine_elem & Hk) Hmin].
  split_and!; [|done|by rewrite Hgr]. exists r. tauto.
Qed.
End recorded_pass.

(** ** A concrete pass

    One event is awaiting a verdict, with one reading of another source; the
    chain itself does not know the transaction. *)

Import ReferenceInstances.

Definition sample_event : ChainEventKey :=
  {| ck_chain := "tron"; ck_network := "mainnet"; ck_chain_environment := Mainnet;
     ck_tx_hash := mkTxHash "abcdef01"; ck_event_index := 0 |}.
Definition sample_verifier : VerificationService :=
  {| vs_verifier_source := sample_source; vs_verifier_version := "v1"; vs_parser_version := "p1" |}.

#[local] Instance pass_clock : Clock unit := {| clock_now w := (0, w) |}.
#[local] Instance pass_observations : ObservationRepository unit := {|
  find_source _ := mret None; watched_collectors _ _ _ := mret []; find_cursor _ _ _ := mret None;
  record_observations _ _ _ _ := mret (mkIntakeReport 0 0 0 false) |}.
#[local] Instance pass_verification : VerificationRepository unit := {|
  find_finality_policy _ _ _ := mret (Some sample_finality_policy);
  events_awaiting_verdict n _ := mret (take (Z.to_nat n) [sample_event]);
  evidence_for _ := mret [sample_evidence 1 "a" "a" CursorScan];
  commit_verdict _ _ _ _ _ _ := mret VerdictPending |}.
#[local] Instance pass_reader : ChainReader unit := {| reader_lookup _ := mret None |}.

Lemma verification_pass_accounts_for_every_event_witness :
  exists report, verify_pending (fun _ => "") sample_verifier sample_lease 10 tt = (Ok report, tt)
    /\ vp_examined report <= 10.
Proof.
  destruct (verify_pending (fun _ => "") sample_verifier sample_lease 10 tt) as [[report|e] []] eqn:Hrun;
    [|vm_compute in Hrun; discriminate Hrun].
  exists report. split; [reflexivity|].
  apply (verification_pass_accounts_for_every_event (fun _ => "") sample_verifier sample_lease 10 tt report tt);
    [|exact Hrun|unfold U32_MAX; lia].
  intros n before w1 events w2 Hn [= <- _]. rewrite length_take. simpl. lia.
Defined.

Lemma verification_pass_commits_only_proven_verdicts_witness :
  exists c, (verify_pending (fun _ => "") sample_verifier sample_lease 10 (tt, @nil Commit)).2.2 = [c]
    /\ cm_event c = sample_event /\ cm_evidence_count c = 1
    /\ exists events before n, returned_by (W := unit) (events_awaiting_verdict n before) events
         /\ cm_event c ∈ events.
Proof.
  destruct (verify_pending (fun _ => "") sample_verifier sample_lease 10 (tt, @nil Commit))
    as [r [w log]] eqn:Hrun.
  pose proof (fun c => verification_pass_commits_only_proven_verdicts (fun _ => "") sample_verifier
    sample_lease 10 tt c) as Hthm.
  rewrite Hrun in Hthm. vm_compute in Hrun. injection Hrun as <- <- <-. eexists. split; [reflexivity|].
  split; [reflexivity|]. split; [reflexivity|].
  destruct (Hthm _ (list_elem_of_here _ _)) as (before & events & _ & _ & n & Hev & Hin & _).
  exists events, before, n. split; [exact Hev|exact Hin].
Defined.

(** An event can land in two buckets of the report: when the chain does
    not know the transaction of an event, the event is counted as a failed
    re-read and as insufficient. *)
Theorem one_event_in_two_buckets :
  verify_pending (fun _ => "") sample_verifier sample_lease 10 tt
  = (Ok {| vp_examined := 1; vp_verified := 0; vp_conflicted := 0; vp_insufficient := 1; vp_rejected := 0;
           vp_rereads_performed := 0; vp_rereads_failed := 1; vp_missing_policy := 0 |}, tt).
Proof. vm_compute. reflexivity. Qed.
