(* ===== verification/Settlement.v ===== *)
(** * Settlement decisions

    [gateway-domain/src/settlement.rs]: tying a transfer to at most one
    payment attempt, the bands of the settlement policy, and what may be done
    with the money of a verified transfer. *)

From Stdlib Require Import Ascii String Sorting.Sorted.
From stdpp Require Import sets sorting.
From S2P Require Import Prelude RustStd Externals Money Chain.

Local Open Scope Z_scope.

Inductive SettlementError :=
  | UnknownAttemptStatus (s : string)
  | UnknownRiskDecision (s : string)
  | SettlementAmountOverflow.
Definition SettlementError_to_string (e : SettlementError) : string :=
  match e with
  | UnknownAttemptStatus s => String.append "unknown attempt status: " s
  | UnknownRiskDecision s => String.append "unknown risk decision: " s
  | SettlementAmountOverflow => "stored amounts cannot be combined without overflowing 256 bits"
  end.

Inductive AttemptStatus := AwaitingPayment | AttemptExpired | AttemptCancelled | AttemptSettled.
#[export] Instance AttemptStatus_eq_dec : EqDecision AttemptStatus.
Proof. solve_decision. Defined.
Definition AttemptStatus_as_str (s : AttemptStatus) : string :=
  match s with
  | AwaitingPayment => "awaiting_payment"
  | AttemptExpired => "expired"
  | AttemptCancelled => "cancelled"
  | AttemptSettled => "settled"
  end.
Definition AttemptStatus_parse : string -> result SettlementError AttemptStatus :=
  parse_table [("awaiting_payment", AwaitingPayment); ("expired", AttemptExpired);
               ("cancelled", AttemptCancelled); ("settled", AttemptSettled)] UnknownAttemptStatus.

Record AttemptCandidate := mkAttemptCandidate {
  ac_attempt_id : Z;                 (* Uuid *)
  ac_payment_intent_id : Z;          (* Uuid *)
  ac_merchant_id : Z;                (* Uuid *)
  ac_collector_address_id : Z;       (* Uuid *)
  ac_expected_amount_raw : RawAmount;
  ac_memo_reference : option Memo;
  ac_leased_from : Z;                (* OffsetDateTime *)
  ac_leased_until : Z;               (* OffsetDateTime *)
  ac_quote_expires_at : Z;           (* OffsetDateTime *)
  ac_status : AttemptStatus;
}.

Record TransferFacts := mkTransferFacts {
  tf_transfer_id : Z;                (* Uuid *)
  tf_collector_address_id : Z;       (* Uuid *)
  tf_amount_raw : RawAmount;
  tf_memo : option Memo;
  tf_block_time : Z;                 (* OffsetDateTime *)
  tf_state : TransferState;
}.

Inductive MatchStrategy := ByMemo | ExactAmount | HistoricalSlot | Manual.
#[export] Instance MatchStrategy_eq_dec : EqDecision MatchStrategy.
Proof. solve_decision. Defined.
Definition MatchStrategy_as_str (s : MatchStrategy) : string :=
  match s with
  | ByMemo => "memo"
  | ExactAmount => "exact_amount"
  | HistoricalSlot => "historical_slot"
  | Manual => "manual"
  end.

Inductive ManualResolutionAction := Honor | Reject | RecordRemainderDisposition.
Definition ManualResolutionAction_as_str (a : ManualResolutionAction) : string :=
  match a with
  | Honor => "honor"
  | Reject => "reject"
  | RecordRemainderDisposition => "record_remainder_disposition"
  end.

Inductive RemainderDisposition :=
  | RefundedExternally | CreditedExternally | DonatedExternally | RetainedByAgreement.
Definition RemainderDisposition_as_str (d : RemainderDisposition) : string :=
  match d with
  | RefundedExternally => "refunded_externally"
  | CreditedExternally => "credited_externally"
  | DonatedExternally => "donated_externally"
  | RetainedByAgreement => "retained_by_agreement"
  end.

Inductive MatchOutcome :=
  | Matched (attempt_id payment_intent_id : Z) (strategy : MatchStrategy) (late : bool)
  | Ambiguous (attempt_ids : list Z)
  | Unmatched.

(** ** Matching *)

Definition matched (candidate : AttemptCandidate) (strategy : MatchStrategy)
    (transfer : TransferFacts) : MatchOutcome :=
  Matched (ac_attempt_id candidate) (ac_payment_intent_id candidate) strategy
    (negb (match ac_status candidate with
           | AwaitingPayment | AttemptExpired => true
           | _ => false
           end)
     || (ac_quote_expires_at candidate <=? tf_block_time transfer)).

Definition ambiguous (candidates : list AttemptCandidate) : MatchOutcome :=
  Ambiguous (sort_by Z.compare (ac_attempt_id <$> candidates)).

Definition on_address (transfer : TransferFacts) (c : AttemptCandidate) : bool :=
  ac_collector_address_id c =? tf_collector_address_id transfer.
Definition by_memo (memo : Memo) (c : AttemptCandidate) : bool :=
  bool_decide (ac_memo_reference c = Some memo).
Definition historical (transfer : TransferFacts) (c : AttemptCandidate) : bool :=
  bool_decide (ac_expected_amount_raw c = tf_amount_raw transfer)
  && (ac_leased_from c <=? tf_block_time transfer)
  && (tf_block_time transfer <? ac_leased_until c).
Definition live (transfer : TransferFacts) (c : AttemptCandidate) : bool :=
  bool_decide (ac_expected_amount_raw c = tf_amount_raw transfer)
  && bool_decide (ac_status c = AwaitingPayment)
  && (ac_leased_from c <=? tf_block_time transfer)
  && (tf_block_time transfer <? ac_leased_until c).

(** [match slice { [single] => return matched, [] => {}, many => return
    ambiguous }]: [None] goes on to the next rule. *)
Definition single_or_ambiguous (candidates : list AttemptCandidate) (strategy : MatchStrategy)
    (transfer : TransferFacts) : option MatchOutcome :=
  match candidates with
  | [single] => Some (matched single strategy transfer)
  | [] => None
  | many => Some (ambiguous many)
  end.

Definition match_transfer (transfer : TransferFacts) (candidates : list AttemptCandidate) : MatchOutcome :=
  let on_address := filter (fun c => on_address transfer c) candidates in
  let by_memo :=
    match tf_memo transfer with
    | None => None
    | Some memo =>
        single_or_ambiguous (filter (fun c => by_memo memo c) on_address) ByMemo transfer
    end in
  match by_memo with
  | Some outcome => outcome
  | None =>
      match single_or_ambiguous (filter (fun c => live transfer c) on_address) ExactAmount transfer with
      | Some outcome => outcome
      | None =>
          default Unmatched
            (single_or_ambiguous (filter (fun c => historical transfer c) on_address)
               HistoricalSlot transfer)
      end
  end.

(** ** Policy *)

Inductive RiskDecision := Allow | Review | Deny | Skipped.
#[export] Instance RiskDecision_eq_dec : EqDecision RiskDecision.
Proof. solve_decision. Defined.
Definition RiskDecision_as_str (r : RiskDecision) : string :=
  match r with Allow => "allow" | Review => "review" | Deny => "deny" | Skipped => "skipped" end.
Definition RiskDecision_parse : string -> result SettlementError RiskDecision :=
  parse_table [("allow", Allow); ("review", Review); ("deny", Deny); ("skipped", Skipped)]
    UnknownRiskDecision.

Record SettlementTier := mkSettlementTier {
  st_max_fiat_minor : Z;             (* i64 *)
  st_min_independent_groups : Z;     (* u32 *)
  st_require_own_node : bool;
  st_require_risk_allow : bool;
  st_auto_settle : bool;
}.

Record SettlementPolicy := mkSettlementPolicy {
  sp_id : Z;                         (* Uuid *)
  sp_version : string;
  sp_tiers : list SettlementTier;
}.

Definition tier_for (policy : SettlementPolicy) (fiat_minor : Z) : option SettlementTier :=
  min_by_key st_max_fiat_minor
    (filter (fun tier => (fiat_minor <=? st_max_fiat_minor tier)) (sp_tiers policy)).

(** ** The decision *)

Record SettlementEvidence := mkSettlementEvidence {
  se_fiat_amount_minor : Z;          (* i64 *)
  se_expected_amount_raw : RawAmount;
  se_already_allocated_raw : RawAmount;
  se_transfer_amount_raw : RawAmount;
  se_transfer_state : TransferState;
  se_independent_groups : Z;         (* u32 *)
  se_had_own_node : bool;
  se_risk : RiskDecision;
  se_attempt_status : AttemptStatus;
  se_late : bool;
}.

Inductive HoldReason := HoldNotFinal | HoldInvalidated | HoldRiskDenied | HoldAlreadyCovered | HoldCancelled.
#[export] Instance HoldReason_eq_dec : EqDecision HoldReason.
Proof. solve_decision. Defined.
Definition HoldReason_as_str (r : HoldReason) : string :=
  match r with
  | HoldNotFinal => "not_final"
  | HoldInvalidated => "invalidated"
  | HoldRiskDenied => "risk_denied"
  | HoldAlreadyCovered => "already_covered"
  | HoldCancelled => "cancelled"
  end.

Inductive ManualReason :=
  | AboveAutomaticBand | ManualNotEnoughGroups | OwnNodeRequired | RiskReview | LatePayment
  | UncoveredAmount.
Definition ManualReason_as_str (r : ManualReason) : string :=
  match r with
  | AboveAutomaticBand => "above_automatic_band"
  | ManualNotEnoughGroups => "not_enough_independent_groups"
  | OwnNodeRequired => "own_node_required"
  | RiskReview => "risk_review"
  | LatePayment => "late_payment"
  | UncoveredAmount => "uncovered_amount"
  end.

Inductive SettlementOutcome :=
  | Settle (allocate_raw : RawAmount)
  | Partial (allocate_raw : RawAmount)
  | Overpaid (allocate_raw remainder_raw : RawAmount)
  | Hold (reason : HoldReason)
  | ManualRequired (reason : ManualReason).

Section decide_settlement.
Context `{U256Lib}.

Definition decide_settlement (evidence : SettlementEvidence) (policy : SettlementPolicy)
    : result SettlementError SettlementOutcome :=
  if decide (se_transfer_state evidence = Invalidated) then Ok (Hold HoldInvalidated)
  else if decide (se_transfer_state evidence <> Finalized) then Ok (Hold HoldNotFinal)
  else if decide (se_attempt_status evidence = AttemptCancelled) then Ok (Hold HoldCancelled)
  else if decide (se_risk evidence = Deny) then Ok (Hold HoldRiskDenied)
  else
    match tier_for policy (se_fiat_amount_minor evidence) with
    | None => Ok (ManualRequired UncoveredAmount)
    | Some tier =>
        if negb (st_auto_settle tier) then Ok (ManualRequired AboveAutomaticBand)
        else if se_independent_groups evidence <? st_min_independent_groups tier
        then Ok (ManualRequired ManualNotEnoughGroups)
        else if st_require_own_node tier && negb (se_had_own_node evidence)
        then Ok (ManualRequired OwnNodeRequired)
        else if st_require_risk_allow tier && negb (bool_decide (se_risk evidence = Allow))
        then Ok (ManualRequired RiskReview)
        else if se_late evidence then Ok (ManualRequired LatePayment)
        else
          let expected := as_u256 (se_expected_amount_raw evidence) in
          let allocated := as_u256 (se_already_allocated_raw evidence) in
          let arriving := as_u256 (se_transfer_amount_raw evidence) in
          match u256_checked_sub expected allocated with
          | None => Ok (Hold HoldAlreadyCovered)
          | Some outstanding =>
              if outstanding =? 0 then Ok (Hold HoldAlreadyCovered)
              else if outstanding <? arriving then
                remainder ← ok_or (u256_checked_sub arriving outstanding) SettlementAmountOverflow;
                allocate_raw ← map_err (fun _ => SettlementAmountOverflow) (RawAmount_positive outstanding);
                remainder_raw ← map_err (fun _ => SettlementAmountOverflow) (RawAmount_positive remainder);
                Ok (Overpaid allocate_raw remainder_raw)
              else if arriving =? outstanding then Ok (Settle (se_transfer_amount_raw evidence))
              else Ok (Partial (se_transfer_amount_raw evidence))
          end
    end.
End decide_settlement.

#[refine, export] Instance AttemptStatus_text : TextEnum SettlementError AttemptStatus := {|
  text_as_str := AttemptStatus_as_str; text_parse := AttemptStatus_parse;
  text_unknown := UnknownAttemptStatus |}.
Proof. all: solve_text_enum. Defined.
#[refine, export] Instance RiskDecision_text : TextEnum SettlementError RiskDecision := {|
  text_as_str := RiskDecision_as_str; text_parse := RiskDecision_parse;
  text_unknown := UnknownRiskDecision |}.
Proof. all: solve_text_enum. Defined.

(** * Lemmas *)

Lemma tier_for_Some policy fiat tier :
  tier_for policy fiat = Some tier ->
  tier ∈ sp_tiers policy /\ fiat <= st_max_fiat_minor tier
  /\ forall t, t ∈ sp_tiers policy -> fiat <= st_max_fiat_minor t ->
       st_max_fiat_minor tier <= st_max_fiat_minor t.
Proof.
  intros [[Hf Ht]%list_elem_of_filter Hmin]%min_by_key_Some.
  apply Is_true_true, Z.leb_le in Hf. split_and!; [done..|].
  intros t Hin Hle. apply Hmin, list_elem_of_filter. split; [|done].
  by apply Is_true_true, Z.leb_le.
Qed.

Lemma tier_for_None policy fiat :
  tier_for policy fiat = None <-> forall t, t ∈ sp_tiers policy -> st_max_fiat_minor t < fiat.
Proof.
  unfold tier_for. rewrite min_by_key_None. split.
  - intros Hf t Ht. destruct (Z.leb_spec fiat (st_max_fiat_minor t)) as [Hle|]; [|done].
    exfalso. eapply (filter_nil_not_elem_of _ _ t Hf); [|done]. by apply Is_true_true, Z.leb_le.
  - intros Hall. induction (sp_tiers policy) as [|t ts IH]; [done|].
    rewrite filter_cons. destruct (Z.leb_spec fiat (st_max_fiat_minor t)).
    + specialize (Hall t ltac:(left)). lia.
    + rewrite decide_False by auto. apply IH. intros u Hu. apply Hall. by right.
Qed.

Lemma single_or_ambiguous_cases l strategy transfer :
  (l = [] /\ single_or_ambiguous l strategy transfer = None)
  \/ (exists c, l = [c] /\ single_or_ambiguous l strategy transfer = Some (matched c strategy transfer))
  \/ ((1 < length l)%nat /\ single_or_ambiguous l strategy transfer = Some (ambiguous l)).
Proof.
  destruct l as [|c [|d l]]; [by left|right; left; by exists c|right; right]. simpl. split; [lia|done].
Qed.

(** ** What matching promises

    The rules in order of strength, each with the candidates it fits. *)

Definition fits (transfer : TransferFacts) (s : MatchStrategy) (c : AttemptCandidate) : Prop :=
  ac_collector_address_id c = tf_collector_address_id transfer
  /\ match s with
     | ByMemo => exists memo, tf_memo transfer = Some memo /\ ac_memo_reference c = Some memo
     | ExactAmount =>
         ac_expected_amount_raw c = tf_amount_raw transfer /\ ac_status c = AwaitingPayment
         /\ ac_leased_from c <= tf_block_time transfer < ac_leased_until c
     | HistoricalSlot =>
         ac_expected_amount_raw c = tf_amount_raw transfer
         /\ ac_leased_from c <= tf_block_time transfer < ac_leased_until c
     | Manual => False
     end.

Definition stronger (s s' : MatchStrategy) : Prop :=
  match s, s' with
  | ByMemo, (ExactAmount | HistoricalSlot) | ExactAmount, HistoricalSlot => True
  | _, _ => False
  end.

(** Exactly one position of [l] satisfies [P], and holds [c]; at least two do. *)
Definition only {A} (P : A -> Prop) (l : list A) (c : A) : Prop :=
  exists i, l !! i = Some c /\ P c /\ forall j d, l !! j = Some d -> P d -> j = i.
Definition several {A} (P : A -> Prop) (l : list A) : Prop :=
  exists i j c d, i <> j /\ l !! i = Some c /\ l !! j = Some d /\ P c /\ P d.
Definition none {A} (P : A -> Prop) (l : list A) : Prop := forall c, c ∈ l -> ~ P c.

(** The specification: the strongest rule that fits anything decides, by its
    only candidate; several candidates of that rule stop the match. *)
Inductive match_spec (transfer : TransferFacts) (cs : list AttemptCandidate) : MatchOutcome -> Prop :=
  | spec_matched s c :
      only (fits transfer s) cs c ->
      (forall s', stronger s' s -> none (fits transfer s') cs) ->
      match_spec transfer cs (matched c s transfer)
  | spec_ambiguous s ids :
      several (fits transfer s) cs ->
      (forall s', stronger s' s -> none (fits transfer s') cs) ->
      StronglySorted Z.le ids ->
      (forall i, i ∈ ids <-> exists c, c ∈ cs /\ fits transfer s c /\ ac_attempt_id c = i) ->
      match_spec transfer cs (Ambiguous ids)
  | spec_unmatched :
      (forall s, none (fits transfer s) cs) -> match_spec transfer cs Unmatched.

Section filters.
Context {A : Type} (P : A -> Prop) `{!forall x, Decision (P x)}.

Lemma filter_nil_none (l : list A) : filter P l = [] <-> none P l.
Proof.
  split.
  - intros Hf c Hc HP. by eapply (filter_nil_not_elem_of _ _ c Hf).
  - intros Hn. induction l as [|x l IH]; [done|]. rewrite filter_cons, decide_False.
    + apply IH. intros c Hc. apply Hn. by right.
    + apply Hn. left.
Qed.

Lemma filter_single_only (l : list A) c : filter P l = [c] -> only P l c.
Proof.
  induction l as [|x l IH]; [done|]. rewrite filter_cons. case_decide as Hx.
  - intros [= -> Hnil%filter_nil_none]. exists 0%nat. split_and!; [done..|].
    intros [|j] d Hd HP; [done|]. exfalso. simpl in Hd. apply list_elem_of_lookup_2 in Hd. by apply (Hnil d Hd).
  - intros (i & Hi & Hc & Hu)%IH. exists (S i). split_and!; [done..|].
    intros [|j] d Hd HP; [by injection Hd as ->|]. f_equal. by eapply Hu.
Qed.

Lemma filter_many_several (l : list A) : (1 < length (filter P l))%nat -> several P l.
Proof.
  induction l as [|x l IH]; [simpl; lia|].
  rewrite filter_cons. case_decide as Hx.
  - intros Hl. destruct (filter P l) as [|y k] eqn:E; [simpl in Hl; lia|].
    assert (y ∈ filter P l) as [HP Hy]%list_elem_of_filter by (rewrite E; left).
    apply list_elem_of_lookup in Hy as [j Hj]. by exists 0%nat, (S j), x, y.
  - intros (i & j & c & d & Hne & Hi & Hj & Hc & Hd)%IH.
    exists (S i), (S j), c, d. split_and!; try done. congruence.
Qed.
End filters.

(** The sort of ids is sorted. *)
Lemma sort_Z_sorted l : StronglySorted Z.le (sort_by Z.compare l).
Proof.
  assert (total_preorder_on Z.compare l) as Hp%sort_by_sorted.
  { unfold total_preorder_on, cmp_le. split; [intros x y _ _ |intros x y z _ _ _];
      rewrite ?Z.compare_gt_iff; lia. }
  induction Hp as [|x l' _ IH Hx]; constructor; [done|].
  eapply Forall_impl; [exact Hx|]. intros y Hy. unfold cmp_le in Hy. rewrite Z.compare_gt_iff in Hy. lia.
Qed.

(** Each rule of the code is the rule of the specification. *)
Lemma filter_filter_fits (transfer : TransferFacts) (p : AttemptCandidate -> bool) s (cs : list AttemptCandidate) :
  (forall c, fits transfer s c <-> on_address transfer c = true /\ p c = true) ->
  exists (dec : forall c, Decision (fits transfer s c)),
    filter (fun c => p c) (filter (fun c => on_address transfer c) cs) = filter (fits transfer s) cs.
Proof.
  intros Hfits.
  assert (forall c, Decision (fits transfer s c)) as dec.
  { intros c. destruct (on_address transfer c) eqn:E1, (p c) eqn:E2;
      [left|right..]; rewrite Hfits, ?E1, ?E2; intuition congruence. }
  exists dec. rewrite list_filter_filter. apply list_filter_iff. intros c. rewrite Hfits.
  split; intros [? ?]; split; by apply Is_true_true.
Qed.

Lemma on_address_true transfer c :
  on_address transfer c = true <-> ac_collector_address_id c = tf_collector_address_id transfer.
Proof. apply Z.eqb_eq. Qed.

Lemma live_fits transfer c :
  fits transfer ExactAmount c <-> on_address transfer c = true /\ live transfer c = true.
Proof.
  unfold fits, live. rewrite on_address_true, !andb_true_iff, !bool_decide_eq_true, Z.leb_le, Z.ltb_lt. tauto.
Qed.

Lemma historical_fits transfer c :
  fits transfer HistoricalSlot c <-> on_address transfer c = true /\ historical transfer c = true.
Proof.
  unfold fits, historical. rewrite on_address_true, !andb_true_iff, bool_decide_eq_true, Z.leb_le, Z.ltb_lt. tauto.
Qed.

Lemma by_memo_fits transfer memo c :
  tf_memo transfer = Some memo ->
  fits transfer ByMemo c <-> on_address transfer c = true /\ by_memo memo c = true.
Proof.
  intros Hm. unfold fits, by_memo. rewrite on_address_true, bool_decide_eq_true, Hm. naive_solver.
Qed.

(** One rule: it decides within the specification, or fits nothing. *)
Lemma rule_sound transfer (p : AttemptCandidate -> bool) s (cs : list AttemptCandidate) :
  (forall c, fits transfer s c <-> on_address transfer c = true /\ p c = true) ->
  (forall s', stronger s' s -> none (fits transfer s') cs) ->
  match single_or_ambiguous (filter (fun c => p c) (filter (fun c => on_address transfer c) cs)) s transfer with
  | Some outcome => match_spec transfer cs outcome
  | None => none (fits transfer s) cs
  end.
Proof.
  intros Hfits Hstr. destruct (filter_filter_fits transfer p s cs Hfits) as [dec ->].
  destruct (single_or_ambiguous_cases (filter (fits transfer s) cs) s transfer)
    as [[E ->]|[(c & E & ->)|[E ->]]].
  - by apply filter_nil_none in E.
  - apply spec_matched; [|done]. by apply (filter_single_only _).
  - eapply spec_ambiguous; [by apply (filter_many_several _)|done|apply sort_Z_sorted|].
    intros i. rewrite sort_by_perm, list_elem_of_fmap. setoid_rewrite list_elem_of_filter. naive_solver.
Qed.

Lemma match_transfer_spec transfer cs : match_spec transfer cs (match_transfer transfer cs).
Proof.
  unfold match_transfer.
  assert (Hmemo : match match tf_memo transfer with
    | None => None
    | Some memo => single_or_ambiguous (filter (fun c => by_memo memo c)
                     (filter (fun c => on_address transfer c) cs)) ByMemo transfer
    end with
    | Some outcome => match_spec transfer cs outcome
    | None => none (fits transfer ByMemo) cs
    end).
  { destruct (tf_memo transfer) as [memo|] eqn:Hm.
    - apply rule_sound; [intros c; by apply by_memo_fits|]. by intros [].
    - intros c _ [_ (memo & ? & _)]. congruence. }
  destruct (match tf_memo transfer with None => None | Some _ => _ end) as [o|]; [exact Hmemo|].
  pose proof (rule_sound transfer (live transfer) ExactAmount cs (live_fits transfer)) as Hlive.
  destruct (single_or_ambiguous _ ExactAmount transfer) as [o|]; [apply Hlive; by intros []|].
  assert (Hnl : none (fits transfer ExactAmount) cs) by (apply Hlive; by intros []).
  pose proof (rule_sound transfer (historical transfer) HistoricalSlot cs (historical_fits transfer)) as Hh.
  destruct (single_or_ambiguous _ HistoricalSlot transfer) as [o|]; cbn [default];
    [apply Hh; by intros []|].
  apply spec_unmatched. intros []; [done..|apply Hh; by intros []|intros c _ [_ []]].
Qed.

(** C25: Matching implements its specification and never guesses: the
    strongest rule (reference, live reservation, past reservation) that fits
    any candidate decides; it matches only when one candidate fits, reports
    all the candidates in order when several do, and leaves the transfer
    unmatched only when no rule fits anything. *)
Theorem match_transfer_never_guesses transfer cs : match_spec transfer cs (match_transfer transfer cs).
Proof. apply match_transfer_spec. Qed.

Lemma sort_Z_perm l l' : l ≡ₚ l' -> sort_by Z.compare l = sort_by Z.compare l'.
Proof.
  intros Hp. apply (StronglySorted_unique Z.le); [apply sort_Z_sorted..|].
  by rewrite !sort_by_perm.
Qed.

Lemma single_or_ambiguous_perm l l' s transfer :
  l ≡ₚ l' -> single_or_ambiguous l s transfer = single_or_ambiguous l' s transfer.
Proof.
  intros Hp. pose proof (Permutation_length Hp) as Hl. unfold single_or_ambiguous, ambiguous.
  destruct l as [|c [|d l]], l' as [|c' [|d' l']]; try done.
  - by apply Permutation_singleton_inj in Hp as ->.
  - do 2 f_equal. apply sort_Z_perm. by rewrite Hp.
Qed.

(** C33: The match does not depend on the order in which the candidates were
    read from storage. *)
Theorem match_transfer_order_independent transfer cs cs' :
  cs ≡ₚ cs' -> match_transfer transfer cs = match_transfer transfer cs'.
Proof.
  intros Hp. unfold match_transfer.
  assert (forall (p : AttemptCandidate -> bool) s,
    single_or_ambiguous (filter (fun c => p c) (filter (fun c => on_address transfer c) cs)) s transfer
    = single_or_ambiguous (filter (fun c => p c) (filter (fun c => on_address transfer c) cs')) s transfer) as Hf.
  { intros p s. apply single_or_ambiguous_perm. by rewrite Hp. }
  rewrite (Hf (live transfer)), (Hf (historical transfer)).
  destruct (tf_memo transfer) as [memo|]; [by rewrite (Hf (by_memo memo))|done].
Qed.

(** The expiry sweep, run before settlement. *)
Definition expire_candidate (c : AttemptCandidate) : AttemptCandidate :=
  {| ac_attempt_id := ac_attempt_id c; ac_payment_intent_id := ac_payment_intent_id c;
     ac_merchant_id := ac_merchant_id c; ac_collector_address_id := ac_collector_address_id c;
     ac_expected_amount_raw := ac_expected_amount_raw c; ac_memo_reference := ac_memo_reference c;
     ac_leased_from := ac_leased_from c; ac_leased_until := ac_leased_until c;
     ac_quote_expires_at := ac_quote_expires_at c;
     ac_status := if decide (ac_status c = AwaitingPayment) then AttemptExpired else ac_status c |}.

(** What a match says apart from the rule that found it. *)
Definition match_target (o : MatchOutcome) : option (Z * Z * bool) + list Z :=
  match o with
  | Matched attempt intent _ late => inl (Some (attempt, intent, late))
  | Ambiguous ids => inr ids
  | Unmatched => inl None
  end.

Lemma matched_target_expire c s s' transfer :
  match_target (matched (expire_candidate c) s transfer) = match_target (matched c s' transfer).
Proof. unfold matched, expire_candidate. simpl. by destruct (ac_status c). Qed.

Lemma filter_fmap_bool {A} (f : A -> A) (p q : A -> bool) (l : list A) :
  (forall x, p (f x) = q x) -> filter (fun x => p x) (f <$> l) = f <$> filter (fun x => q x) l.
Proof.
  intros Hpq. induction l as [|x l IH]; [done|]. cbn [fmap list_fmap]. rewrite !filter_cons, Hpq.
  destruct (q x); [rewrite !decide_True by done|rewrite !decide_False by auto]; [|exact IH].
  cbn [fmap list_fmap]. by rewrite <- IH.
Qed.

Lemma single_target_expire l s s' transfer :
  match_target <$> single_or_ambiguous (expire_candidate <$> l) s transfer
  = match_target <$> single_or_ambiguous l s' transfer.
Proof.
  assert (forall k, ac_attempt_id <$> (expire_candidate <$> k) = ac_attempt_id <$> k) as Hid
    by (intros k; by rewrite <- list_fmap_compose).
  destruct l as [|c [|d l]]; [done| |].
  - exact (f_equal Some (matched_target_expire c s s' transfer)).
  - specialize (Hid (c :: d :: l)). unfold single_or_ambiguous, ambiguous.
    change (expire_candidate <$> c :: d :: l)
      with (expire_candidate c :: expire_candidate d :: (expire_candidate <$> l)) in *.
    cbn [fmap option_fmap option_map match_target] in *. by rewrite Hid.
Qed.

Lemma live_historical transfer (l : list AttemptCandidate) :
  (length (filter (fun c => historical transfer c) l) <= 1)%nat ->
  filter (fun c => live transfer c) l = []
  \/ filter (fun c => live transfer c) l = filter (fun c => historical transfer c) l.
Proof.
  assert (forall c, live transfer c = true -> historical transfer c = true) as Hlh.
  { intros c. unfold live, historical. rewrite !andb_true_iff. tauto. }
  induction l as [|c l IH]; [by left|]. rewrite !filter_cons.
  destruct (historical transfer c) eqn:Eh.
  - rewrite (decide_True (P := Is_true true)) by done. cbn [length]. intros Hl.
    assert (filter (fun c => historical transfer c) l = []) as Hnil
      by (destruct (filter _ l); [done|simpl in Hl; lia]).
    destruct IH as [->| ->]; [lia| |]; rewrite ?Hnil;
      destruct (live transfer c); [right|left|right|left]; by repeat case_decide.
  - destruct (live transfer c) eqn:El; [by rewrite Hlh in Eh|].
    rewrite !decide_False by auto. exact IH.
Qed.

Lemma target_default o :
  match_target (default Unmatched o) = default (inl None) (match_target <$> o).
Proof. by destruct o. Qed.

Lemma live_expired transfer (l : list AttemptCandidate) :
  filter (fun c => live transfer c) (expire_candidate <$> l) = [].
Proof.
  rewrite (filter_fmap_bool expire_candidate (live transfer) (fun _ => false)).
  - by induction l.
  - intros c. unfold live, expire_candidate. simpl. rewrite (bool_decide_eq_false_2 (_ = AwaitingPayment)).
    + by rewrite andb_false_r.
    + by case_decide.
Qed.

(** Which worker ran first does not matter: when at most one candidate of
    the address held the paid amount at the block's time, sweeping every
    overdue attempt to expired before settlement changes neither the attempt,
    nor its intent, nor whether the payment counts as late. *)
Theorem match_transfer_sweep_invariant transfer cs :
  (length (filter (fun c => historical transfer c) (filter (fun c => on_address transfer c) cs)) <= 1)%nat ->
  match_target (match_transfer transfer (expire_candidate <$> cs))
  = match_target (match_transfer transfer cs).
Proof.
  intros Hone. unfold match_transfer.
  rewrite (filter_fmap_bool expire_candidate (on_address transfer) (on_address transfer)) by done.
  set (A := filter (fun c => on_address transfer c) cs) in *.
  assert (Hmemo : forall memo,
    match_target <$> single_or_ambiguous (filter (fun c => by_memo memo c) (expire_candidate <$> A)) ByMemo transfer
    = match_target <$> single_or_ambiguous (filter (fun c => by_memo memo c) A) ByMemo transfer).
  { intros memo. rewrite (filter_fmap_bool expire_candidate (by_memo memo) (by_memo memo)) by done.
    apply single_target_expire. }
  assert (Hrest : match_target
      match single_or_ambiguous (filter (fun c => live transfer c) (expire_candidate <$> A)) ExactAmount transfer with
      | Some o => o
      | None => default Unmatched (single_or_ambiguous (filter (fun c => historical transfer c)
                  (expire_candidate <$> A)) HistoricalSlot transfer) end
    = match_target
      match single_or_ambiguous (filter (fun c => live transfer c) A) ExactAmount transfer with
      | Some o => o
      | None => default Unmatched (single_or_ambiguous (filter (fun c => historical transfer c) A)
                  HistoricalSlot transfer) end).
  { rewrite live_expired, (filter_fmap_bool expire_candidate (historical transfer) (historical transfer)) by done.
    cbn [single_or_ambiguous]. rewrite target_default.
    destruct (live_historical transfer A Hone) as [->| ->].
    - by rewrite (single_target_expire _ _ HistoricalSlot), <- target_default.
    - rewrite (single_target_expire _ _ ExactAmount).
      destruct (filter (fun c => historical transfer c) A) as [|c [|d l]]; done. }
  destruct (tf_memo transfer) as [memo|]; [|exact Hrest]. specialize (Hmemo memo).
  destruct (single_or_ambiguous _ ByMemo _), (single_or_ambiguous _ ByMemo _); simplify_eq/=; done.
Qed.

(** ** Moving money *)

(** Everything the policy asks before money may be allocated without a
    person. *)
Definition automatic_allowed (e : SettlementEvidence) (policy : SettlementPolicy) : Prop :=
  se_transfer_state e = Finalized /\ se_attempt_status e <> AttemptCancelled /\ se_risk e <> Deny
  /\ se_late e = false
  /\ exists tier,
       tier ∈ sp_tiers policy /\ se_fiat_amount_minor e <= st_max_fiat_minor tier
       /\ (forall t, t ∈ sp_tiers policy -> se_fiat_amount_minor e <= st_max_fiat_minor t ->
             st_max_fiat_minor tier <= st_max_fiat_minor t)
       /\ st_auto_settle tier = true
       /\ st_min_independent_groups tier <= se_independent_groups e
       /\ (st_require_own_node tier = true -> se_had_own_node e = true)
       /\ (st_require_risk_allow tier = true -> se_risk e = Allow).

Definition allocates (o : SettlementOutcome) : option Z :=
  match o with
  | Settle a | Partial a | Overpaid a _ => Some (as_u256 a)
  | Hold _ | ManualRequired _ => None
  end.

(** Bands of a policy do not repeat a limit. *)
Definition policy_wf (policy : SettlementPolicy) : Prop :=
  forall s t, s ∈ sp_tiers policy -> t ∈ sp_tiers policy ->
    st_max_fiat_minor s = st_max_fiat_minor t -> s = t.

Definition amounts_wf (e : SettlementEvidence) : Prop :=
  RawAmount_wf (se_expected_amount_raw e) /\ RawAmount_wf (se_already_allocated_raw e)
  /\ RawAmount_wf (se_transfer_amount_raw e) /\ 0 < as_u256 (se_transfer_amount_raw e).

Section decisions.
Context `{U256Lib}.

(** The part of the decision after the guards. *)
Definition allocation (e : SettlementEvidence) : SettlementOutcome :=
  let outstanding := as_u256 (se_expected_amount_raw e) - as_u256 (se_already_allocated_raw e) in
  let arriving := as_u256 (se_transfer_amount_raw e) in
  if outstanding <=? 0 then Hold HoldAlreadyCovered
  else if outstanding <? arriving
  then Overpaid (mkRawAmount outstanding) (mkRawAmount (arriving - outstanding))
  else if arriving =? outstanding then Settle (se_transfer_amount_raw e)
  else Partial (se_transfer_amount_raw e).

Lemma allocation_eq e :
  amounts_wf e ->
  match u256_checked_sub (as_u256 (se_expected_amount_raw e)) (as_u256 (se_already_allocated_raw e)) with
  | None => Ok (Hold HoldAlreadyCovered)
  | Some outstanding =>
      if outstanding =? 0 then Ok (Hold HoldAlreadyCovered)
      else if outstanding <? as_u256 (se_transfer_amount_raw e) then
        remainder ← ok_or (u256_checked_sub (as_u256 (se_transfer_amount_raw e)) outstanding) SettlementAmountOverflow;
        allocate_raw ← map_err (fun _ => SettlementAmountOverflow) (RawAmount_positive outstanding);
        remainder_raw ← map_err (fun _ => SettlementAmountOverflow) (RawAmount_positive remainder);
        Ok (Overpaid allocate_raw remainder_raw)
      else if as_u256 (se_transfer_amount_raw e) =? outstanding then Ok (Settle (se_transfer_amount_raw e))
      else Ok (Partial (se_transfer_amount_raw e))
  end = Ok (allocation e).
Proof.
  intros (Hx & Ha & Ht & Hpos).
  unfold allocation. cbv zeta. unfold RawAmount_wf in *.
  rewrite u256_checked_sub_law by done. unfold is_u256 in *.
  destruct (checked _ _ _) as [out|] eqn:Hc.
  - apply checked_Some in Hc as [-> Hout].
    destruct (Z.eqb_spec (as_u256 (se_expected_amount_raw e) - as_u256 (se_already_allocated_raw e)) 0) as [->|Hne];
      [done|].
    destruct (Z.leb_spec (as_u256 (se_expected_amount_raw e) - as_u256 (se_already_allocated_raw e)) 0); [lia|].
    destruct (Z.ltb_spec (as_u256 (se_expected_amount_raw e) - as_u256 (se_already_allocated_raw e))
                (as_u256 (se_transfer_amount_raw e))); [|by destruct (_ =? _)].
    rewrite u256_checked_sub_law by (unfold is_u256; lia).
    destruct (checked _ _ _) as [rest|] eqn:Hr; [|apply checked_None in Hr; lia].
    apply checked_Some in Hr as [-> _]. unfold RawAmount_positive.
    cbn [ok_or mbind result_bind]. rewrite !(proj2 (Z.eqb_neq _ 0)) by lia. done.
  - apply checked_None in Hc. destruct (Z.leb_spec (as_u256 (se_expected_amount_raw e) - as_u256 (se_already_allocated_raw e)) 0); [done|lia].
Qed.

(** A guard refuses: the branch allocates nothing and the permission fails. *)
Ltac refuse := right; split; [intros Hwf HA; destruct_and!; congruence|eauto].
Ltac refuse_tier Huniq :=
  right; split; [|eauto];
  intros Hwf (_ & _ & _ & Hlate' & t & Ht' & Hle' & Hmin' & Hauto' & Hgr' & Hown' & Hrisk');
  rewrite (Huniq Hwf t Ht' Hle' Hmin') in *; bool_to_prop.

Lemma decide_settlement_cases e policy :
  amounts_wf e ->
  (automatic_allowed e policy /\ decide_settlement e policy = Ok (allocation e))
  \/ ((policy_wf policy -> ~ automatic_allowed e policy) /\
      exists o, decide_settlement e policy = Ok o /\ allocates o = None).
Proof.
  intros Ha. unfold decide_settlement, automatic_allowed.
  case_decide; [refuse|]. case_decide; [refuse|]. case_decide; [refuse|]. case_decide; [refuse|].
  destruct (tier_for policy (se_fiat_amount_minor e)) as [tier|] eqn:Htier.
  2:{ right. split; [|eauto]. intros _ (_ & _ & _ & _ & t & Hin & Hle & _).
      rewrite tier_for_None in Htier. specialize (Htier t Hin). lia. }
  apply tier_for_Some in Htier as (Hin & Hle & Hmin).
  assert (Huniq : policy_wf policy -> forall t, t ∈ sp_tiers policy ->
    se_fiat_amount_minor e <= st_max_fiat_minor t ->
    (forall t', t' ∈ sp_tiers policy -> se_fiat_amount_minor e <= st_max_fiat_minor t' ->
           st_max_fiat_minor t <= st_max_fiat_minor t') -> t = tier).
  { intros Hwf t Ht' Hle' Hmin'. apply Hwf; [done..|]. specialize (Hmin t Ht' Hle').
    specialize (Hmin' tier Hin Hle). lia. }
  destruct (st_auto_settle tier) eqn:Hauto; cbn [negb]; [|refuse_tier Huniq; congruence].
  destruct (Z.ltb_spec (se_independent_groups e) (st_min_independent_groups tier));
    [refuse_tier Huniq; lia|].
  destruct (st_require_own_node tier && negb (se_had_own_node e)) eqn:Hown;
    [refuse_tier Huniq; assert (se_had_own_node e = true) by auto; congruence|].
  destruct (st_require_risk_allow tier && negb (bool_decide (se_risk e = Allow))) eqn:Hrisk;
    [refuse_tier Huniq; assert (se_risk e = Allow) by auto; done|].
  destruct (se_late e) eqn:Hlate; [refuse_tier Huniq; congruence|].
  left. split.
  { split_and!; try done.
    exists tier. split_and!; try done.
    - intros Hr. rewrite Hr in Hown. by destruct (se_had_own_node e).
    - intros Hr. rewrite Hr in Hrisk. simpl in Hrisk. by bool_to_prop. }
  by apply allocation_eq.
Qed.

(** An allocation is allowed, takes no more than what arrived and never
    covers more than the debt. *)
Lemma allocates_within_debt e policy o a :
  amounts_wf e -> decide_settlement e policy = Ok o -> allocates o = Some a ->
  automatic_allowed e policy
  /\ 0 < a <= as_u256 (se_transfer_amount_raw e)
  /\ as_u256 (se_already_allocated_raw e) + a <= as_u256 (se_expected_amount_raw e).
Proof.
  intros Ha Ho Hall. pose proof Ha as (_ & _ & _ & Hpos).
  destruct (decide_settlement_cases e policy Ha) as [[Hok E]|[_ (o' & E & Ho')]]; rewrite E in Ho; simplify_eq.
  split; [done|]. revert Hall. unfold allocation. cbv zeta. zcases; intros Hsome; simplify_eq/=; lia.
Qed.

(** C23: Money moves without a person exactly when the transfer is final, the
    attempt not cancelled, the source of funds not denied, the payment not
    late, the smallest band that covers the amount allows it with the
    evidence at hand, and something is still owed. *)
Theorem settlement_moves_money_iff e policy :
  amounts_wf e -> policy_wf policy ->
  (exists o a, decide_settlement e policy = Ok o /\ allocates o = Some a)
  <-> automatic_allowed e policy
      /\ as_u256 (se_already_allocated_raw e) < as_u256 (se_expected_amount_raw e).
Proof.
  intros Ha Hp. destruct (decide_settlement_cases e policy Ha) as [[Hok ->]|[Hno (o & -> & Ho)]].
  - unfold allocation. cbv zeta.
    destruct (Z.leb_spec (as_u256 (se_expected_amount_raw e) - as_u256 (se_already_allocated_raw e)) 0).
    + split; [naive_solver|lia].
    + split; [intros _; split; [done|lia]|]. intros _. zcases; eexists _, _; by split.
  - split; [naive_solver|]. intros [? _]. by destruct (Hno Hp).
Qed.

(** The decision always succeeds and conserves the money: a settled
    payment allocates exactly what arrived and covers the debt exactly, a
    partial one allocates all that arrived and leaves the debt open, an
    overpayment splits what arrived into the debt and a remainder, and no
    decision ever allocates past the expected amount. *)
Theorem settlement_conserves_money e policy :
  amounts_wf e ->
  let expected := as_u256 (se_expected_amount_raw e) in
  let allocated := as_u256 (se_already_allocated_raw e) in
  let arriving := as_u256 (se_transfer_amount_raw e) in
  exists o, decide_settlement e policy = Ok o
    /\ match o with
       | Settle a => as_u256 a = arriving /\ allocated + as_u256 a = expected
       | Partial a => as_u256 a = arriving /\ 0 < as_u256 a /\ allocated + as_u256 a < expected
       | Overpaid a r =>
           as_u256 a + as_u256 r = arriving /\ 0 < as_u256 a /\ 0 < as_u256 r
           /\ allocated + as_u256 a = expected
       | Hold _ | ManualRequired _ => True
       end.
Proof.
  intros Ha. cbv zeta. pose proof Ha as (_ & _ & _ & Hpos).
  destruct (decide_settlement_cases e policy Ha) as [[_ ->]|[_ (o & -> & Ho)]].
  - exists (allocation e). split; [done|]. unfold allocation. cbv zeta. zcases; cbn [as_u256]; lia.
  - exists o. split; [done|]. by destruct o.
Qed.
End decisions.

(** ** Concrete cases *)

Import ReferenceInstances.

Definition sample_candidate (id : Z) (status : AttemptStatus) : AttemptCandidate := {|
  ac_attempt_id := id; ac_payment_intent_id := id; ac_merchant_id := 1; ac_collector_address_id := 8;
  ac_expected_amount_raw := mkRawAmount 1000; ac_memo_reference := None; ac_leased_from := 0;
  ac_leased_until := 100; ac_quote_expires_at := 50; ac_status := status |}.

Definition sample_facts : TransferFacts := {|
  tf_transfer_id := 1; tf_collector_address_id := 8; tf_amount_raw := mkRawAmount 1000;
  tf_memo := None; tf_block_time := 10; tf_state := Finalized |}.

Lemma match_transfer_order_independent_witness :
  match_transfer sample_facts [sample_candidate 2 AwaitingPayment; sample_candidate 1 AwaitingPayment]
  = Ambiguous [1; 2].
Proof.
  rewrite (match_transfer_order_independent sample_facts _
    [sample_candidate 1 AwaitingPayment; sample_candidate 2 AwaitingPayment]) by apply Permutation_swap.
  reflexivity.
Defined.

Lemma match_transfer_sweep_invariant_witness :
  match_target (match_transfer sample_facts (expire_candidate <$> [sample_candidate 1 AwaitingPayment]))
  = inl (Some (1, 1, false)).
Proof.
  rewrite (match_transfer_sweep_invariant sample_facts [sample_candidate 1 AwaitingPayment])
    by (vm_compute; lia).
  reflexivity.
Defined.

Definition sample_tier (limit : Z) (auto : bool) : SettlementTier := {|
  st_max_fiat_minor := limit; st_min_independent_groups := 2; st_require_own_node := true;
  st_require_risk_allow := true; st_auto_settle := auto |}.
Definition sample_settlement_policy : SettlementPolicy := {|
  sp_id := 1; sp_version := "v1"; sp_tiers := [sample_tier 500 false; sample_tier 100 true] |}.
Definition sample_settlement_evidence : SettlementEvidence := {|
  se_fiat_amount_minor := 50; se_expected_amount_raw := mkRawAmount 1000;
  se_already_allocated_raw := mkRawAmount 200; se_transfer_amount_raw := mkRawAmount 900;
  se_transfer_state := Finalized; se_independent_groups := 2; se_had_own_node := true;
  se_risk := Allow; se_attempt_status := AwaitingPayment; se_late := false |}.

Lemma sample_amounts_wf : amounts_wf sample_settlement_evidence.
Proof. unfold amounts_wf, RawAmount_wf, is_u256. split_and!; vm_compute; congruence. Qed.

Lemma sample_policy_wf : policy_wf sample_settlement_policy.
Proof.
  unfold policy_wf, sample_settlement_policy, sp_tiers. intros s t. set_unfold. intros.
  by destruct_or!; subst.
Qed.

Lemma settlement_moves_money_iff_witness : automatic_allowed sample_settlement_evidence sample_settlement_policy.
Proof.
  apply (settlement_moves_money_iff sample_settlement_evidence sample_settlement_policy
    sample_amounts_wf sample_policy_wf).
  exists (Overpaid (mkRawAmount 800) (mkRawAmount 100)), 800. split; reflexivity.
Defined.

Lemma settlement_conserves_money_witness :
  exists o, decide_settlement sample_settlement_evidence sample_settlement_policy = Ok o.
Proof.
  destruct (settlement_conserves_money sample_settlement_evidence sample_settlement_policy
    sample_amounts_wf) as (o & Ho & _).
  exists o. exact Ho.
Defined.
