(* ===== verification/SettlementService.v ===== *)
(** * The settlement service

    [gateway-application/src/settlement.rs]: a pass matches each verified
    transfer, decides what may happen to its money and hands the decision to
    storage; a transfer nobody can claim is recorded, not dropped. *)

From Stdlib Require Import Ascii String.
From stdpp Require Import sets.
From S2P Require Import Prelude RustStd Externals Effects Money Chain Observations Settlement.

Local Open Scope Z_scope.

Record PendingTransfer := mkPendingTransfer {
  pd_facts : TransferFacts;
  pd_independent_groups : Z;         (* u32 *)
  pd_had_own_node : bool;
  pd_attestation_ids : list Z;       (* Uuid *)
  pd_allocated_raw : RawAmount;
}.

Record AttemptSnapshot := mkAttemptSnapshot {
  as_attempt_id : Z;
  as_payment_intent_id : Z;
  as_merchant_id : Z;
  as_currency : CurrencyCode;
  as_fiat_amount_minor : Z;          (* i64 *)
  as_expected_amount_raw : RawAmount;
  as_allocated_raw : RawAmount;
  as_status : AttemptStatus;
}.

Record SettlementCommand := mkSettlementCommand {
  sc_transfer_id : Z;
  sc_attempt_id : Z;
  sc_payment_intent_id : Z;
  sc_merchant_id : Z;
  sc_fiat_amount_minor : Z;
  sc_match_strategy : MatchStrategy;
  sc_outcome : SettlementOutcome;
  sc_policy_version : string;
  sc_independent_groups : Z;
  sc_had_own_node : bool;
  sc_finality_state : TransferState;
  sc_risk : RiskDecision;
  sc_risk_evaluation_id : option Z;
  sc_attestation_ids : list Z;
}.

Inductive SettlementRecord :=
  | RecSettled | RecPartiallyAllocated | RecOverpaid | RecHeld | RecManualRequired | RecForeignClaim
  | RecAlreadyProcessed.

Inductive UnresolvedTransfer := UnresolvedAmbiguous (attempt_ids : list Z) | UnresolvedUnmatched.
Definition UnresolvedTransfer_as_str (u : UnresolvedTransfer) : string :=
  match u with UnresolvedAmbiguous _ => "ambiguous" | UnresolvedUnmatched => "unmatched" end.

Class SettlementRepository (W : Type) := {
  transfers_awaiting_settlement : Z -> eff W RepositoryError (list PendingTransfer);
  match_candidates : TransferFacts -> eff W RepositoryError (list AttemptCandidate);
  attempt_snapshot : Z -> eff W RepositoryError (option AttemptSnapshot);
  find_settlement_policy : CurrencyCode -> eff W RepositoryError (option SettlementPolicy);
  latest_risk : Z -> eff W RepositoryError (RiskDecision * option Z);
  settle : ComponentLease -> SettlementCommand -> eff W RepositoryError SettlementRecord;
  record_unresolved : ComponentLease -> PendingTransfer -> UnresolvedTransfer -> eff W RepositoryError unit;
}.

Record SettlementReport := mkSettlementReport {
  sr_examined : Z;                   (* u32 *)
  sr_settled : Z;
  sr_partial : Z;
  sr_overpaid : Z;
  sr_held : Z;
  sr_manual_required : Z;
  sr_ambiguous : Z;
  sr_unmatched : Z;
  sr_foreign_claim : Z;
  sr_already_processed : Z;
  sr_missing_policy : Z;
}.
Definition SettlementReport_default : SettlementReport := mkSettlementReport 0 0 0 0 0 0 0 0 0 0 0.

Inductive SettlementServiceError :=
  | SsInvalidBatchLimit
  | SsSettlement (e : SettlementError)
  | SsRepository (e : RepositoryError).
Definition SettlementServiceError_is_transient (e : SettlementServiceError) : bool :=
  match e with SsRepository error => RepositoryError_is_transient error | _ => false end.

(** ** The counters *)

Definition bump (n : Z) : Z := u32_saturating_add n 1.
Definition bump_examined (r : SettlementReport) : SettlementReport :=
  let '(mkSettlementReport e s p o h m a u f d x) := r in mkSettlementReport (bump e) s p o h m a u f d x.
Definition bump_ambiguous (r : SettlementReport) : SettlementReport :=
  let '(mkSettlementReport e s p o h m a u f d x) := r in mkSettlementReport e s p o h m (bump a) u f d x.
Definition bump_unmatched (r : SettlementReport) : SettlementReport :=
  let '(mkSettlementReport e s p o h m a u f d x) := r in mkSettlementReport e s p o h m a (bump u) f d x.
Definition bump_missing_policy (r : SettlementReport) : SettlementReport :=
  let '(mkSettlementReport e s p o h m a u f d x) := r in mkSettlementReport e s p o h m a u f d (bump x).
Definition bump_record (record : SettlementRecord) (r : SettlementReport) : SettlementReport :=
  let '(mkSettlementReport e s p o h m a u f d x) := r in
  match record with
  | RecSettled => mkSettlementReport e (bump s) p o h m a u f d x
  | RecPartiallyAllocated => mkSettlementReport e s (bump p) o h m a u f d x
  | RecOverpaid => mkSettlementReport e s p (bump o) h m a u f d x
  | RecHeld => mkSettlementReport e s p o (bump h) m a u f d x
  | RecManualRequired => mkSettlementReport e s p o h (bump m) a u f d x
  | RecForeignClaim => mkSettlementReport e s p o h m a u (bump f) d x
  | RecAlreadyProcessed => mkSettlementReport e s p o h m a u f (bump d) x
  end.

Section settlement_service.
Context {W : Type} `{U256Lib} `{SettlementRepository W}.

Definition settlement_evidence (transfer : PendingTransfer) (attempt : AttemptSnapshot)
    (risk : RiskDecision) (late : bool) : SettlementEvidence :=
  {| se_fiat_amount_minor := as_fiat_amount_minor attempt;
     se_expected_amount_raw := as_expected_amount_raw attempt;
     se_already_allocated_raw := as_allocated_raw attempt;
     se_transfer_amount_raw := tf_amount_raw (pd_facts transfer);
     se_transfer_state := tf_state (pd_facts transfer);
     se_independent_groups := pd_independent_groups transfer;
     se_had_own_node := pd_had_own_node transfer; se_risk := risk;
     se_attempt_status := as_status attempt; se_late := late |}.

Definition settlement_command (transfer : PendingTransfer) (attempt : AttemptSnapshot)
    (policy : SettlementPolicy) (strategy : MatchStrategy) (risk : RiskDecision)
    (risk_evaluation_id : option Z) (outcome : SettlementOutcome) : SettlementCommand :=
  {| sc_transfer_id := tf_transfer_id (pd_facts transfer); sc_attempt_id := as_attempt_id attempt;
     sc_payment_intent_id := as_payment_intent_id attempt; sc_merchant_id := as_merchant_id attempt;
     sc_fiat_amount_minor := as_fiat_amount_minor attempt; sc_match_strategy := strategy;
     sc_outcome := outcome; sc_policy_version := sp_version policy;
     sc_independent_groups := pd_independent_groups transfer;
     sc_had_own_node := pd_had_own_node transfer; sc_finality_state := tf_state (pd_facts transfer);
     sc_risk := risk; sc_risk_evaluation_id := risk_evaluation_id;
     sc_attestation_ids := pd_attestation_ids transfer |}.

Definition settle_match (lease : ComponentLease) (transfer : PendingTransfer) (attempt_id : Z)
    (strategy : MatchStrategy) (late : bool) (report : SettlementReport)
    : eff W SettlementServiceError SettlementReport :=
  attempt ← eff_map_err SsRepository (attempt_snapshot attempt_id);
  match attempt with
  | None => lift (Err (SsRepository (CorruptData
              "a matched attempt disappeared between matching and settling")))
  | Some attempt =>
      policy ← eff_map_err SsRepository (find_settlement_policy (as_currency attempt));
      match policy with
      | None => mret (bump_missing_policy report)
      | Some policy =>
          '(risk, risk_evaluation_id) ←
            eff_map_err SsRepository (latest_risk (tf_transfer_id (pd_facts transfer)));
          outcome ← lift (map_err SsSettlement
                      (decide_settlement (settlement_evidence transfer attempt risk late) policy));
          record ← eff_map_err SsRepository
                     (settle lease (settlement_command transfer attempt policy strategy risk
                                      risk_evaluation_id outcome));
          mret (bump_record record report)
      end
  end.

(** The body of the loop of [settle_pending]. *)
Definition settle_transfer (lease : ComponentLease) (report : SettlementReport)
    (transfer : PendingTransfer) : eff W SettlementServiceError SettlementReport :=
  let report := bump_examined report in
  candidates ← eff_map_err SsRepository (match_candidates (pd_facts transfer));
  match match_transfer (pd_facts transfer) candidates with
  | Matched attempt_id _ strategy late => settle_match lease transfer attempt_id strategy late report
  | Ambiguous attempt_ids =>
      _ ← eff_map_err SsRepository (record_unresolved lease transfer (UnresolvedAmbiguous attempt_ids));
      mret (bump_ambiguous report)
  | Unmatched =>
      _ ← eff_map_err SsRepository (record_unresolved lease transfer UnresolvedUnmatched);
      mret (bump_unmatched report)
  end.

Definition settle_pending (lease : ComponentLease) (limit : Z)
    : eff W SettlementServiceError SettlementReport :=
  if (limit =? 0) || (1000 <? limit) then lift (Err SsInvalidBatchLimit)
  else
    transfers ← eff_map_err SsRepository (transfers_awaiting_settlement limit);
    for_each (settle_transfer lease) transfers SettlementReport_default.
End settlement_service.

(** * Lemmas *)

Definition buckets (r : SettlementReport) : Z :=
  sr_settled r + sr_partial r + sr_overpaid r + sr_held r + sr_manual_required r + sr_ambiguous r
  + sr_unmatched r + sr_foreign_claim r + sr_already_processed r + sr_missing_policy r.

Definition settle_report_inv (n : Z) (r : SettlementReport) : Prop :=
  sr_examined r = n /\ buckets r = n
  /\ Forall (fun k => 0 <= k) [sr_settled r; sr_partial r; sr_overpaid r; sr_held r; sr_manual_required r;
       sr_ambiguous r; sr_unmatched r; sr_foreign_claim r; sr_already_processed r; sr_missing_policy r].

Section settlement_service_properties.
Context {W : Type} `{U256Lib} `{SettlementRepository W}.

Lemma settle_match_inv lease transfer attempt_id strategy late report (w : W) report' w' :
  settle_match lease transfer attempt_id strategy late report w = (Ok report', w') ->
  exists attempt w1, attempt_snapshot attempt_id w = (Ok (Some attempt), w1)
    /\ ((find_settlement_policy (as_currency attempt) w1 = (Ok None, w')
         /\ report' = bump_missing_policy report)
        \/ exists policy risk evaluation outcome record w2 w3 w4,
             find_settlement_policy (as_currency attempt) w1 = (Ok (Some policy), w2)
             /\ latest_risk (tf_transfer_id (pd_facts transfer)) w2 = (Ok (risk, evaluation), w3)
             /\ decide_settlement (settlement_evidence transfer attempt risk late) policy = Ok outcome
             /\ settle lease (settlement_command transfer attempt policy strategy risk evaluation outcome) w3
                = (Ok record, w4)
             /\ w' = w4 /\ report' = bump_record record report).
Proof.
  unfold settle_match. intros Hrun. inv_eff Hrun. destruct v as [attempt|]; [|done].
  exists attempt, w0. split; [done|]. inv_eff Hrun. destruct v as [policy|]; inv_eff Hrun; [|by left].
  right. destruct v as [risk evaluation]. inv_eff Hrun.
  destruct (decide_settlement _ policy) as [outcome|] eqn:Hd; simplify_eq/=.
  apply lift_Ok in Hm2 as [[= <-] ->].
  exists policy, risk, evaluation, outcome, v0, w1, w2, w4. by split_and!.
Qed.

Lemma settle_transfer_step lease n r transfer (w : W) r' w' :
  0 <= n < 1000 -> settle_report_inv n r ->
  settle_transfer lease r transfer w = (Ok r', w') -> settle_report_inv (n + 1) r'.
Proof.
  intros Hn Hinv Hrun. unfold settle_transfer in Hrun. inv_eff Hrun.
  assert (Hsmall : forall k, 0 <= k <= 1000 -> bump k = k + 1)
    by (intros k Hk; apply saturate_id; unfold U32_MAX; lia).
  unfold settle_report_inv, buckets in *. rewrite !Forall_cons, !Forall_nil in *.
  destruct (match_transfer _ _) as [a i s late|ids|].
  - apply settle_match_inv in Hrun as (attempt & w1 & _ & [[_ ->]|Hv]).
    + destruct r; simpl in *. rewrite !Hsmall by lia. lia.
    + destruct Hv as (_ & _ & _ & _ & record & _ & _ & _ & _ & _ & _ & _ & _ & ->).
      destruct r, record; simpl in *; rewrite !Hsmall by lia; lia.
  - inv_eff Hrun. destruct r; simpl in *. rewrite !Hsmall by lia. lia.
  - inv_eff Hrun. destruct r; simpl in *. rewrite !Hsmall by lia. lia.
Qed.

(** A settlement pass accounts for every transfer it took exactly once:
    the buckets of its report add up to the transfers examined, which are no
    more than its limit. *)
Theorem settlement_pass_accounts_for_every_transfer lease limit (w : W) report w' :
  (forall n w1 transfers w2, 0 <= n ->
     transfers_awaiting_settlement n w1 = (Ok transfers, w2) -> Z.of_nat (length transfers) <= n) ->
  0 <= limit <= U32_MAX ->
  settle_pending lease limit w = (Ok report, w') ->
  1 <= limit <= 1000 /\ sr_examined report <= limit
  /\ sr_examined report = sr_settled report + sr_partial report + sr_overpaid report + sr_held report
       + sr_manual_required report + sr_ambiguous report + sr_unmatched report
       + sr_foreign_claim report + sr_already_processed report + sr_missing_policy report.
Proof.
  intros Hlimit Hu Hrun. unfold settle_pending in Hrun.
  destruct ((limit =? 0) || (1000 <? limit)) eqn:Hb; [done|]. bool_to_prop. inv_eff Hrun.
  apply Hlimit in Hm; [|lia].
  assert (Hinv : settle_report_inv (Z.of_nat (length v)) report).
  { refine (for_each_inv (settle_transfer lease)
      (fun seen r _ => (length seen <= length v)%nat -> settle_report_inv (Z.of_nat (length seen)) r) v
      _ _ _ _ _ _ Hrun _); [| |lia].
    - intros seen x s w3 s' w4 HI _ Hstep Hle. rewrite length_app in *. simpl in *.
      replace (Z.of_nat (length seen + 1)) with (Z.of_nat (length seen) + 1) by lia.
      eapply settle_transfer_step; [|apply HI; lia|exact Hstep]. lia.
    - intros _. unfold settle_report_inv, buckets. simpl. rewrite !Forall_cons, Forall_nil. lia. }
  unfold settle_report_inv, buckets in Hinv. split_and!; lia.
Qed.

(** Storage is asked to settle only what was decided for the one attempt
    that fits: a transfer with several or no fitting attempts is recorded as
    unresolved with all of them, and any other is settled under the outcome
    [decide_settlement] gives for the matched attempt's own snapshot, the
    policy of its currency and the newest screening, or only counted, with no
    further call, when no policy exists. *)
Theorem settlement_follows_the_decision lease report transfer (w : W) report' w' :
  settle_transfer lease report transfer w = (Ok report', w') ->
  exists candidates w1, match_candidates (pd_facts transfer) w = (Ok candidates, w1)
    /\ match match_transfer (pd_facts transfer) candidates with
       | Matched attempt_id _ strategy late =>
           exists attempt w2, attempt_snapshot attempt_id w1 = (Ok (Some attempt), w2)
             /\ ((find_settlement_policy (as_currency attempt) w2 = (Ok None, w')
                  /\ report' = bump_missing_policy (bump_examined report))
                 \/ exists policy risk evaluation outcome record w3 w4,
                      find_settlement_policy (as_currency attempt) w2 = (Ok (Some policy), w3)
                      /\ latest_risk (tf_transfer_id (pd_facts transfer)) w3 = (Ok (risk, evaluation), w4)
                      /\ decide_settlement (settlement_evidence transfer attempt risk late) policy = Ok outcome
                      /\ settle lease (settlement_command transfer attempt policy strategy risk evaluation
                                         outcome) w4 = (Ok record, w')
                      /\ report' = bump_record record (bump_examined report))
       | Ambiguous ids =>
           record_unresolved lease transfer (UnresolvedAmbiguous ids) w1 = (Ok tt, w')
           /\ report' = bump_ambiguous (bump_examined report)
       | Unmatched =>
           record_unresolved lease transfer UnresolvedUnmatched w1 = (Ok tt, w')
           /\ report' = bump_unmatched (bump_examined report)
       end.
Proof.
  unfold settle_transfer. intros Hrun. inv_eff Hrun. exists v, w0. split; [done|].
  destruct (match_transfer _ _) as [a i s late|ids|].
  - apply settle_match_inv in Hrun as (attempt & w2 & Ha & Hrest). exists attempt, w2. split; [done|].
    destruct Hrest as [?|(policy & risk & ev & outcome & record & w3 & w4 & w5 & ? & ? & ? & ? & -> & ?)];
      [by left|right]. by exists policy, risk, ev, outcome, record, w3, w4.
  - inv_eff Hrun. by destruct v0.
  - inv_eff Hrun. by destruct v0.
Qed.
End settlement_service_properties.

(** ** A pass seen from storage

    The same repository with every [settle] call recorded. *)
#[local] Instance recording_repository {W} `{SettlementRepository W}
    : SettlementRepository (W * list SettlementCommand) := {|
  transfers_awaiting_settlement n := unlogged (transfers_awaiting_settlement n);
  match_candidates facts := unlogged (match_candidates facts);
  attempt_snapshot id := unlogged (attempt_snapshot id);
  find_settlement_policy currency := unlogged (find_settlement_policy currency);
  latest_risk id := unlogged (latest_risk id);
  settle lease command := logged command (settle lease command);
  record_unresolved lease transfer u := unlogged (record_unresolved lease transfer u) |}.

Section recorded_pass.
Context {W : Type} `{U256Lib} `{SettlementRepository W}.

(** The facts of storage a command rests on. *)
Definition command_grounds (c : SettlementCommand) (transfer : PendingTransfer)
    (candidate : AttemptCandidate) (attempt : AttemptSnapshot) (policy : SettlementPolicy) : Prop :=
  exists n transfers candidates strategy,
    returned_by (transfers_awaiting_settlement n) transfers /\ transfer ∈ transfers
    /\ returned_by (match_candidates (pd_facts transfer)) candidates
    /\ only (fits (pd_facts transfer) strategy) candidates candidate
    /\ returned_by (attempt_snapshot (ac_attempt_id candidate)) (Some attempt)
    /\ returned_by (find_settlement_policy (as_currency attempt)) (Some policy)
    /\ returned_by (latest_risk (tf_transfer_id (pd_facts transfer)))
         (sc_risk c, sc_risk_evaluation_id c)
    /\ exists late,
         matched candidate strategy (pd_facts transfer)
           = Matched (ac_attempt_id candidate) (ac_payment_intent_id candidate) strategy late
         /\ decide_settlement (settlement_evidence transfer attempt (sc_risk c) late) policy
            = Ok (sc_outcome c)
         /\ c = settlement_command transfer attempt policy strategy (sc_risk c)
                  (sc_risk_evaluation_id c) (sc_outcome c).
Definition grounded (c : SettlementCommand) : Prop :=
  exists transfer candidate attempt policy, command_grounds c transfer candidate attempt policy.

Lemma settle_transfer_grounded lease report n transfers transfer :
  returned_by (transfers_awaiting_settlement n) transfers -> transfer ∈ transfers ->
  holds (fun w : W * list SettlementCommand => Forall grounded w.2)
    (settle_transfer lease report transfer) (fun _ => True).
Proof.
  intros Htr Hin. unfold settle_transfer.
  eapply holds_bind; [apply holds_map_err, (holds_unlogged (Forall grounded))|].
  intros candidates Hcand.
  pose proof (match_transfer_spec (pd_facts transfer) candidates) as Hspec.
  destruct (match_transfer _ candidates) as [attempt_id intent strategy late|ids|] eqn:Hm;
    [|(eapply holds_bind; [apply holds_map_err, (holds_unlogged (Forall grounded))|];
       intros; by apply holds_ret)..].
  inversion Hspec as [s candidate Honly Hstr Hmatched| |]. simplify_eq. unfold settle_match.
  eapply holds_bind; [apply holds_map_err, (holds_unlogged (Forall grounded))|].
  intros [attempt|] Hat; [|eapply holds_weaken; [apply holds_lift|done]].
  eapply holds_bind; [apply holds_map_err, (holds_unlogged (Forall grounded))|].
  intros [policy|] Hpol; [|by apply holds_ret].
  eapply holds_bind; [apply holds_map_err, (holds_unlogged (Forall grounded))|].
  intros [risk evaluation] Hrisk.
  eapply holds_bind; [apply holds_lift|]. intros outcome Hd.
  destruct (decide_settlement _ policy) as [o|] eqn:Ho; simplify_eq/=.
  eapply holds_bind; [apply holds_map_err, holds_logged|intros; by apply holds_ret].
  exists transfer, candidate, attempt, policy, n, transfers, candidates, strategy. split_and!; try done.
  eexists. by split_and!.
Qed.

Lemma settle_pending_grounded lease limit (w : W) :
  Forall grounded (settle_pending lease limit (w, @nil SettlementCommand)).2.2.
Proof.
  assert (Hh : holds (fun w : W * list SettlementCommand => Forall grounded w.2)
    (settle_pending lease limit) (fun _ => True)); [|apply Hh; by apply Forall_nil].
  unfold settle_pending. destruct (_ || _); [eapply holds_weaken; [apply holds_lift|done]|].
  eapply holds_bind; [apply holds_map_err, (holds_unlogged (Forall grounded))|].
  intros transfers Htr. apply holds_for_each. intros. by eapply settle_transfer_grounded.
Qed.

(** Whatever a settlement pass does, and also when it stops at an error,
    each command by which it lets storage allocate money rests on what
    storage said: the transfer awaited settlement and is final, exactly one
    of the candidates fits it, its attempt is not cancelled and was not paid
    late, the source of funds was not denied, the policy of the attempt's
    currency allows it without a person, and the amount is positive, no more
    than what arrived, and no more than what the attempt still owes. *)
Theorem settlement_pass_allocates_only_what_is_owed lease limit (w : W) c a :
  (forall n transfers t, returned_by (transfers_awaiting_settlement n) transfers -> t ∈ transfers ->
     RawAmount_wf (tf_amount_raw (pd_facts t)) /\ 0 < as_u256 (tf_amount_raw (pd_facts t))) ->
  (forall id s, returned_by (attempt_snapshot id) (Some s) ->
     RawAmount_wf (as_expected_amount_raw s) /\ RawAmount_wf (as_allocated_raw s)) ->
  c ∈ (settle_pending lease limit (w, @nil SettlementCommand)).2.2 ->
  allocates (sc_outcome c) = Some a ->
  sc_finality_state c = Finalized /\ sc_risk c <> Deny
  /\ exists transfer candidate attempt policy,
       command_grounds c transfer candidate attempt policy
       /\ sc_transfer_id c = tf_transfer_id (pd_facts transfer) /\ sc_attempt_id c = as_attempt_id attempt
       /\ automatic_allowed (settlement_evidence transfer attempt (sc_risk c) false) policy
       /\ tf_block_time (pd_facts transfer) < ac_quote_expires_at candidate
       /\ 0 < a <= as_u256 (tf_amount_raw (pd_facts transfer))
       /\ as_u256 (as_allocated_raw attempt) + a <= as_u256 (as_expected_amount_raw attempt).
Proof.
  intros Htr Hat Hc Ha. pose proof (settle_pending_grounded lease limit w) as Hall.
  rewrite Forall_forall in Hall. destruct (Hall c Hc) as (transfer & candidate & attempt & policy & Hg).
  pose proof Hg as (n & ts & cs & s & Hts & Hin & _ & _ & Hsnap & _ & _ & late & Hm & Hd & Hcmd).
  assert (Hwf : amounts_wf (settlement_evidence transfer attempt (sc_risk c) late)).
  { destruct (Htr n ts transfer Hts Hin), (Hat _ _ Hsnap). by split_and!. }
  destruct (allocates_within_debt _ _ _ _ Hwf Hd Ha) as (Hok & Harr & Howed).
  pose proof Hok as (Hfin & _ & Hrisk & Hlate & _). simpl in Hfin, Hrisk, Hlate, Harr, Howed. subst late.
  unfold matched in Hm. injection Hm as [_ Hexp]%orb_false_elim. apply Z.leb_gt in Hexp.
  split_and!; [by rewrite Hcmd|done|]. exists transfer, candidate, attempt, policy.
  split_and!; (done || lia || by rewrite Hcmd).
Qed.
End recorded_pass.

(** ** A concrete pass: one transfer that covers its attempt exactly. *)

Import ReferenceInstances.

Definition sample_pending : PendingTransfer := {|
  pd_facts := sample_facts; pd_independent_groups := 2; pd_had_own_node := true;
  pd_attestation_ids := [1; 2]; pd_allocated_raw := mkRawAmount 0 |}.
Definition sample_snapshot : AttemptSnapshot := {|
  as_attempt_id := 1; as_payment_intent_id := 1; as_merchant_id := 1; as_currency := mkCurrencyCode "EUR";
  as_fiat_amount_minor := 50; as_expected_amount_raw := mkRawAmount 1000;
  as_allocated_raw := mkRawAmount 0; as_status := AwaitingPayment |}.

#[local] Instance pass_settlement : SettlementRepository unit := {|
  transfers_awaiting_settlement n := mret (take (Z.to_nat n) [sample_pending]);
  match_candidates _ := mret [sample_candidate 1 AwaitingPayment];
  attempt_snapshot _ := mret (Some sample_snapshot);
  find_settlement_policy _ := mret (Some sample_settlement_policy);
  latest_risk _ := mret (Allow, None);
  settle _ command := mret (match sc_outcome command with Settle _ => RecSettled | _ => RecHeld end);
  record_unresolved _ _ _ := mret tt |}.

Lemma settlement_pass_accounts_for_every_transfer_witness :
  exists report, settle_pending sample_lease 10 tt = (Ok report, tt) /\ sr_examined report <= 10.
Proof.
  destruct (settle_pending sample_lease 10 tt) as [[report|e] []] eqn:Hrun;
    [|vm_compute in Hrun; discriminate Hrun].
  exists report. split; [reflexivity|].
  apply (settlement_pass_accounts_for_every_transfer sample_lease 10 tt report tt);
    [|unfold U32_MAX; lia|exact Hrun].
  intros n w1 transfers w2 Hn [= <- _]. rewrite length_take. simpl. lia.
Defined.

Lemma settlement_follows_the_decision_witness :
  exists report candidates w1, settle_transfer sample_lease SettlementReport_default sample_pending tt
      = (Ok report, tt)
    /\ match_candidates (pd_facts sample_pending) tt = (Ok candidates, w1).
Proof.
  destruct (settle_transfer sample_lease SettlementReport_default sample_pending tt)
    as [[report|e] []] eqn:Hrun; [|vm_compute in Hrun; discriminate Hrun].
  destruct (settlement_follows_the_decision sample_lease SettlementReport_default sample_pending tt report tt Hrun)
    as (candidates & w1 & Hc & _).
  exists report, candidates, w1. split; [reflexivity|exact Hc].
Defined.

Lemma settlement_pass_allocates_only_what_is_owed_witness :
  exists c, (settle_pending sample_lease 10 (tt, @nil SettlementCommand)).2.2 = [c]
    /\ sc_outcome c = Settle (mkRawAmount 1000) /\ sc_finality_state c = Finalized.
Proof.
  destruct (settle_pending sample_lease 10 (tt, @nil SettlementCommand)) as [r [w log]] eqn:Hrun.
  vm_compute in Hrun. injection Hrun as <- <- <-. eexists. split; [reflexivity|]. split; [reflexivity|].
  eapply (settlement_pass_allocates_only_what_is_owed sample_lease 10 tt _ 1000).
  - intros n transfers t (w1 & w2 & Hr) Ht. cbn in Hr. injection Hr as <- _.
    apply elem_of_take in Ht as (i & Hi & _). apply list_elem_of_lookup_2 in Hi.
    apply list_elem_of_singleton in Hi as ->. split; vm_compute; done.
  - intros id s (w1 & w2 & Hr). injection Hr as <- _. split; split; vm_compute; congruence.
  - vm_compute. by left.
  - reflexivity.
Defined.
