(* ===== verification/Database.v ===== *)
(** * The database

    The tables of [src/db/migrations] that the modelled statements of
    [gateway-storage] read and write, and the session in which they run.

    A table is a finite map from its key to a row; a row has the columns the
    modelled code uses.  Text is a [string], [NUMERIC], [BIGINT], [UUID] and
    [TIMESTAMPTZ] are [Z].  A statement is a function of the database that
    returns its result and the next database, or the violation of a
    constraint.  Amounts are bound as decimal text and cast back, so the model
    binds the number itself.  A timestamp keeps the nanoseconds it is bound with;
    the server's [TIMESTAMPTZ] rounds it to microseconds.

    Transactions are serial: a transaction sees the committed state it began
    with, and nothing else commits before it ends.  The sources lock the rows
    they decide on ([FOR UPDATE], guarded [UPDATE]s); interleavings of the
    statements of two transactions are not modelled. *)

From Stdlib Require Import Ascii String Strings.Byte.
From stdpp Require Import gmap.
From S2P Require Import Prelude RustStd Externals Effects Observations.

Local Open Scope Z_scope.

(** ** Rows *)

Record LeaseRow := mkLeaseRow {
  lr_holder : string;
  lr_fence_token : Z;                (* BIGINT *)
  lr_lease_until : Z;                (* TIMESTAMPTZ *)
  lr_updated_at : Z;
}.

Record MerchantRow := mkMerchantRow {
  mr_status : string;
  mr_collector_policy : string;
}.
Record MerchantKeyRow := mkMerchantKeyRow {
  mk_merchant_id : Z;
  mk_secret_hash : list byte;
  mk_last_used_at : option Z;
  mk_revoked_at : option Z;
}.
Record OperatorKeyRow := mkOperatorKeyRow {
  ok_label : string;
  ok_secret_hash : list byte;
  ok_scopes : list string;
  ok_last_used_at : option Z;
  ok_revoked_at : option Z;
}.

Record AssetRow := mkAssetRow {
  at_chain : string;
  at_network : string;
  at_chain_environment : string;
  at_contract_address_key : list byte;
  at_display_symbol : string;
  at_decimals : Z;                   (* SMALLINT *)
  at_status : string;
}.

Record CollectorRow := mkCollectorRow {
  co_asset_id : Z;
  co_address_key : list byte;
  co_address_text : string;
  co_state : string;
  co_valid_from : Z;
  co_merchant_id : option Z;
}.

Record PriceSnapshotRow := mkPriceSnapshotRow {
  sp_asset_id : Z;
  sp_fiat_currency : string;
  sp_rate_numerator : Z;             (* NUMERIC(78, 0), > 0 *)
  sp_rate_denominator : Z;           (* NUMERIC(78, 0), > 0 *)
  sp_sources : json;
  sp_observed_at : Z;
  sp_ingested_by : option Z;
  sp_source_group_count : Z;         (* INTEGER *)
  sp_deviation_bps : Z;              (* INTEGER *)
}.
Record PriceReadingRow := mkPriceReadingRow {
  rr_id : Z;
  rr_provider_group : string;
  rr_rate_numerator : Z;
  rr_rate_denominator : Z;
  rr_received_at : Z;
  rr_ingested_by : Z;
  rr_snapshot_id : option Z;
  rr_discard_reason : option string;
}.
Record QuotePolicyRow := mkQuotePolicyRow {
  qp_asset_id : Z;
  qp_fiat_currency : string;
  qp_version : string;
  qp_status : string;
  qp_quote_ttl_seconds : Z;          (* BIGINT *)
  qp_late_payment_window_seconds : Z;
  qp_amount_slot_count : Z;          (* INTEGER *)
  qp_max_price_age_seconds : Z;
  qp_max_policy_age_seconds : Z;
  qp_max_rail_health_age_seconds : Z;
  qp_observed_at : Z;
  qp_min_price_sources : Z;          (* INTEGER *)
  qp_max_price_deviation_bps : Z;    (* INTEGER *)
}.
Record RailHealthRow := mkRailHealthRow {
  rh_asset_id : Z;
  rh_health : string;
  rh_observed_at : Z;
  rh_ingested_by : option Z;
  rh_detail : option string;
}.
Record RailStopRow := mkRailStopRow {
  rs_asset_id : Z;
  rs_reason_code : string;
  rs_detail : option string;
  rs_opened_by : string;
  rs_opened_at : Z;
  rs_cleared_by : option string;
  rs_cleared_reason : option string;
  rs_cleared_at : option Z;
}.

(** What a transfer event is known by: chain, network, environment,
    transaction and index. *)
Definition EventKey : Type := string * string * string * string * Z.

Record SourceRow := mkSourceRow {
  so_chain : string;
  so_network : string;
  so_chain_environment : string;
  so_source_key : string;
  so_provider_group : string;
  so_kind : string;
  so_db_principal : string;
  so_requires_dedicated_principal : bool;
  so_state : string;
  so_created_at : Z;
}.
Record ObservationRow := mkObservationRow {
  ob_source_id : Z;
  ob_source_principal : string;
  ob_asset_id : option Z;
  ob_collector_address_id : option Z;
  ob_event : EventKey;
  ob_observation_kind : string;
  ob_block_number : option Z;        (* BIGINT *)
  ob_block_hash : option string;
  ob_parent_hash : option string;
  ob_block_time : option Z;
  ob_token_key : list byte;
  ob_token_display : string;
  ob_from_address_key : list byte;
  ob_from_address_text : string;
  ob_to_address_key : list byte;
  ob_to_address_text : string;
  ob_amount_raw : Z;                 (* NUMERIC(78, 0), > 0 *)
  ob_decimals : Z;                   (* SMALLINT *)
  ob_memo : option string;
  ob_execution_status : string;
  ob_source_finality : string;
  ob_source_head : option Z;         (* BIGINT *)
  ob_evidence_sha256 : string;
  ob_evidence_uri : option string;
  ob_observer_version : string;
  ob_parser_version : string;
  ob_fence_token : Z;                (* BIGINT *)
  ob_semantic_hash : list byte;
  ob_observed_at : Z;
}.
Record CursorRow := mkCursorRow {
  cu_cursor_kind : string;
  cu_cursor_value : string;
  cu_last_block_hash : option string;
  cu_fence_token : Z;                (* BIGINT *)
  cu_updated_at : Z;
}.
Record FinalityPolicyRow := mkFinalityPolicyRow {
  fi_chain : string;
  fi_network : string;
  fi_chain_environment : string;
  fi_version : string;
  fi_status : string;
  fi_min_confirmations : Z;          (* BIGINT *)
  fi_required_source_finality : string;
  fi_min_independent_groups : Z;     (* INTEGER *)
  fi_max_evidence_age_seconds : Z;   (* BIGINT *)
  fi_observed_at : Z;
}.

Record TransferRow := mkTransferRow {
  tr_asset_id : Z;
  tr_collector_address_id : Z;
  tr_event : EventKey;
  tr_block_number : Z;               (* BIGINT *)
  tr_block_hash : string;
  tr_block_time : Z;
  tr_token_key : list byte;
  tr_from_address_key : list byte;
  tr_from_address_text : string;
  tr_to_address_key : list byte;
  tr_to_address_text : string;
  tr_amount_raw : Z;                 (* NUMERIC(78, 0), > 0 *)
  tr_decimals : Z;                   (* SMALLINT *)
  tr_memo : option string;
  tr_canonicalization_policy : string;
  tr_verifier_version : string;
  tr_canonicalized_at : Z;
}.
Definition tr_chain (t : TransferRow) : string := let '(chain, _, _, _, _) := tr_event t in chain.
Definition tr_network (t : TransferRow) : string := let '(_, network, _, _, _) := tr_event t in network.
Definition tr_chain_environment (t : TransferRow) : string :=
  let '(_, _, environment, _, _) := tr_event t in environment.
Record StateRow := mkStateRow {
  st_state : string;
  st_state_version : Z;              (* BIGINT *)
  st_updated_at : Z;
}.
Record StateEventRow := mkStateEventRow {
  sv_id : Z;
  sv_previous_state : option string;
  sv_new_state : string;
  sv_source_key : string;
  sv_block_hash : option string;
  sv_head_height : option Z;         (* BIGINT *)
  sv_reason : option string;
  sv_created_at : Z;
}.
Record VerdictRow := mkVerdictRow {
  vd_verdict : string;
  vd_reason : option string;
  vd_evidence_count : Z;             (* INTEGER *)
  vd_independent_groups : Z;         (* INTEGER *)
  vd_discarded_count : Z;            (* INTEGER *)
  vd_transfer_id : option Z;
  vd_verifier_version : string;
  vd_attempts : Z;                   (* INTEGER *)
  vd_decided_at : Z;
}.
Record ConflictRow := mkConflictRow {
  cf_id : Z;
  cf_created_at : Z;
  cf_resolved_at : option Z;
}.

Record ProcessingRow := mkProcessingRow {
  pr_allocated_raw : Z;              (* NUMERIC(78, 0), >= 0 *)
  pr_processing_state : string;
  pr_last_error : option string;
  pr_version : Z;                    (* BIGINT *)
  pr_updated_at : Z;
}.

Record AttestationRow := mkAttestationRow {
  an_transfer_id : Z;
  an_observation_id : Z;
  an_source_id : Z;
  an_provider_group : string;
  an_source_kind : string;
  an_attestation_role : string;
  an_verifier_version : string;
  an_created_at : Z;
}.

Record IntentRow := mkIntentRow {
  ir_merchant_id : Z;
  ir_amount_minor : Z;               (* BIGINT, > 0 *)
  ir_currency : string;
  ir_status : string;
  ir_reference : string;
  ir_description : option string;
  ir_metadata : json;
  ir_version : Z;                    (* BIGINT *)
  ir_created_at : Z;
  ir_updated_at : Z;
}.

Record QuoteRow := mkQuoteRow {
  qr_payment_intent_id : Z;
  qr_merchant_id : Z;
  qr_asset_id : Z;
  qr_collector_address_id : Z;
  qr_price_snapshot_id : Z;
  qr_quote_policy_id : Z;
  qr_rail_health_snapshot_id : Z;
  qr_fiat_currency : string;
  qr_fiat_amount_minor : Z;
  qr_base_amount_raw : Z;
  qr_amount_raw : Z;
  qr_rate_numerator : Z;
  qr_rate_denominator : Z;
  qr_price_sources : json;
  qr_price_observed_at : Z;
  qr_policy_version : string;
  qr_rail_health_observed_at : Z;
  qr_created_at : Z;
  qr_expires_at : Z;
  qr_late_payment_until : Z;
}.

Record AttemptRow := mkAttemptRow {
  tt_payment_intent_id : Z;
  tt_merchant_id : Z;
  tt_quote_id : Z;
  tt_collector_address_id : Z;
  tt_expected_amount_raw : Z;        (* NUMERIC(78, 0), > 0 *)
  tt_memo_reference : option string;
  tt_quote_expires_at : Z;
  tt_late_payment_until : Z;
  tt_status : string;
  tt_created_at : Z;
  tt_updated_at : Z;
  tt_checkout_token : string;
}.

Record AmountLeaseRow := mkAmountLeaseRow {
  al_collector_address_id : Z;
  al_amount_raw : Z;
  al_attempt_id : Z;
  al_leased_from : Z;
  al_lease_until : Z;
}.
Record LeaseHistoryRow := mkLeaseHistoryRow {
  ah_lease_id : Z;
  ah_lease : AmountLeaseRow;         (* the columns of the released lease *)
  ah_released_at : Z;
  ah_release_reason : string;
}.

Record PolicyRow := mkPolicyRow {
  py_fiat_currency : string;
  py_version : string;
  py_status : string;
}.

Record TierRow := mkTierRow {
  ti_min_independent_groups : Z;     (* INTEGER *)
  ti_require_own_node : bool;
  ti_require_risk_allow : bool;
  ti_auto_settle : bool;
}.

Record RiskRow := mkRiskRow {
  rk_transfer_id : Z;
  rk_provider : string;
  rk_decision : string;
  rk_score : option Z;               (* INTEGER *)
  rk_reasons : json;
  rk_evaluated_at : Z;
  rk_submitted_by : option Z;
}.

Record ClaimRow := mkClaimRow {
  cr_payment_intent_id : Z;
  cr_attempt_id : Z;
  cr_merchant_id : Z;
  cr_match_strategy : string;
  cr_claimed_at : Z;
  cr_collector_address_id : Z;
}.

Record AllocationRow := mkAllocationRow {
  ar_id : Z;
  ar_payment_intent_id : Z;
  ar_merchant_id : Z;
  ar_allocated_raw : Z;              (* NUMERIC(78, 0), > 0 *)
  ar_allocated_by : string;
  ar_reason : string;
  ar_created_at : Z;
  ar_collector_address_id : Z;
}.

Record DecisionRow := mkDecisionRow {
  dr_id : Z;
  dr_attempt_id : Z;
  dr_merchant_id : Z;
  dr_fiat_amount_minor : Z;
  dr_required_policy : string;
  dr_distinct_groups : Z;            (* INTEGER *)
  dr_had_own_node : bool;
  dr_finality_state : string;
  dr_risk_decision : string;
  dr_risk_evaluation_id : option Z;
  dr_attestation_ids : list Z;
  dr_match_strategy : string;
  dr_allocated_raw : Z;
  dr_remainder_raw : Z;
  dr_outcome : string;
  dr_decided_by : string;
  dr_decided_reason : string;
  dr_decided_at : Z;
}.

Record FulfillmentRow := mkFulfillmentRow {
  fr_merchant_id : Z;
  fr_status : string;
  fr_claimed_at : Z;
  fr_attempts : Z;
}.

Record PaymentEventRow := mkPaymentEventRow {
  pe_merchant_id : option Z;
  pe_payment_intent_id : option Z;
  pe_attempt_id : option Z;
  pe_transfer_id : option Z;
  pe_event_type : string;
  pe_reason_code : option string;
  pe_source : string;
  pe_actor : string;
  pe_payload : json;
  pe_created_at : Z;
}.

Record DomainEventRow := mkDomainEventRow {
  de_merchant_id : option Z;
  de_channel : string;
  de_event_type : string;
  de_aggregate_type : string;
  de_aggregate_id : Z;
  de_payload : json;
  de_available_at : Z;
  de_attempts : Z;                   (* INTEGER *)
  de_last_error : option string;
  de_claimed_by : option string;
  de_claimed_until : option Z;
  de_delivered_at : option Z;
  de_dead_lettered_at : option Z;
  de_created_at : Z;
  de_target_endpoint_id : option Z;
  de_attempt_floor : Z;              (* INTEGER *)
}.

Record IdempotencyRow := mkIdempotencyRow {
  id_request_hash : list byte;
  id_resource_id : Z;
  id_completed_at : option Z;
}.

Record AuditRow := mkAuditRow {
  au_merchant_id : option Z;
  au_actor_type : string;
  au_actor_id : option Z;
  au_action : string;
  au_resource_type : string;
  au_resource_id : option Z;
  au_reason : option string;
  au_payload : json;
  au_created_at : Z;
}.

Record ResolutionRow := mkResolutionRow {
  re_id : Z;
  re_request_hash : list byte;
  re_action : string;
  re_transfer_id : Z;
  re_payment_intent_id : option Z;
  re_attempt_id : option Z;
  re_merchant_id : option Z;
  re_allocated_raw : option Z;       (* NUMERIC(78, 0), > 0 *)
  re_remainder_raw : option Z;       (* NUMERIC(78, 0), > 0 *)
  re_disposition : option string;
  re_external_reference : option string;
  re_reason : string;
  re_actor_label : string;
  re_created_at : Z;
}.

Record DispositionRow := mkDispositionRow {
  di_id : Z;
  di_resolution_id : Z;
  di_merchant_id : Z;
  di_remainder_raw : Z;              (* NUMERIC(78, 0), > 0 *)
  di_disposition : string;
  di_external_reference : string;
  di_recorded_by : Z;
  di_reason : string;
  di_recorded_at : Z;
}.

Record ProposalRow := mkProposalRow {
  ho_transfer_id : Z;
  ho_payment_intent_id : Z;
  ho_attempt_id : Z;
  ho_merchant_id : Z;
  ho_allocate_raw : Z;               (* NUMERIC(78, 0), > 0 *)
  ho_threshold_raw : Z;              (* NUMERIC(78, 0), >= 0 *)
  ho_reason : string;
  ho_evidence : json;
  ho_proposer_key_id : Z;
  ho_proposer_label : string;
  ho_idempotency_key : string;
  ho_request_hash : list byte;
  ho_status : string;
  ho_created_at : Z;
  ho_expires_at : Z;
  ho_decided_by_key_id : option Z;
  ho_decided_by_label : option string;
  ho_decision_idempotency_key : option string;
  ho_decision_reason : option string;
  ho_decided_at : option Z;
  ho_resolution_id : option Z;
}.

Record EndpointRow := mkEndpointRow {
  er_merchant_id : Z;
  er_url : string;
  er_secret_version : Z;             (* INTEGER *)
  er_secret_fingerprint : list byte;
  er_status : string;
  er_created_at : Z;
  er_previous_secret_version : option Z;
  er_previous_secret_fingerprint : option (list byte);
  er_previous_valid_until : option Z;
}.
Record DeliveryRow := mkDeliveryRow {
  dl_id : Z;
  dl_response_status : option Z;     (* INTEGER *)
  dl_error : option string;
  dl_duration_ms : Z;                (* INTEGER *)
  dl_delivered_at : Z;
}.
Record RedeliveryRow := mkRedeliveryRow {
  rd_id : Z;
  rd_event_id : Z;
  rd_merchant_id : Z;
  rd_endpoint_id : option Z;
  rd_operator_key_id : option Z;
  rd_actor_label : string;
  rd_request_hash : list byte;
  rd_reason : string;
  rd_previous_state : string;
  rd_previous_attempts : Z;          (* INTEGER *)
  rd_created_at : Z;
}.

Record HealthRow := mkHealthRow {
  hr_state : string;
  hr_detail : option string;
  hr_since : Z;
  hr_updated_at : Z;
}.
Record HealthEventRow := mkHealthEventRow {
  he_component : string;
  he_previous_state : option string;
  he_new_state : string;
  he_detail : option string;
  he_created_at : Z;
}.
Record RunRow := mkRunRow {
  ru_kind : string;
  ru_window_start : Z;
  ru_window_end : Z;
  ru_transfers_examined : Z;         (* INTEGER *)
  ru_intents_examined : Z;           (* INTEGER *)
  ru_discrepancy_count : Z;          (* INTEGER *)
  ru_money_discrepancy_count : Z;    (* INTEGER *)
  ru_status : string;
  ru_started_at : Z;
  ru_finished_at : option Z;
}.
Record DiscrepancyRow := mkDiscrepancyRow {
  dc_run_id : Z;
  dc_kind : string;
  dc_money_affected : bool;
  dc_transfer_id : option Z;
  dc_payment_intent_id : option Z;
  dc_asset_id : option Z;
  dc_detail : json;
  dc_created_at : Z;
}.

(** ** The tables *)

Record Database := mkDatabase {
  merchants : gmap Z MerchantRow;
  merchant_api_keys : gmap Z MerchantKeyRow;
  operator_api_keys : gmap Z OperatorKeyRow;
  component_leases : gmap string LeaseRow;
  chain_assets : gmap Z AssetRow;
  collector_addresses : gmap Z CollectorRow;
  price_snapshots : gmap Z PriceSnapshotRow;
  price_readings : gmap (Z * string * string * Z) PriceReadingRow;  (* asset, currency, source, time *)
  quote_policies : gmap Z QuotePolicyRow;
  rail_health_snapshots : gmap Z RailHealthRow;
  rail_stops : gmap Z RailStopRow;
  chain_sources : gmap Z SourceRow;
  chain_observations : gmap Z ObservationRow;
  chain_cursors : gmap (Z * string * Z) CursorRow;             (* source, kind, collector *)
  chain_finality_policies : gmap Z FinalityPolicyRow;
  chain_event_verdicts : gmap EventKey VerdictRow;
  chain_observation_conflicts : gmap (EventKey * string) ConflictRow;   (* event, field *)
  chain_observation_conflict_items : gmap (Z * Z) json;        (* conflict, observation *)
  chain_transfers : gmap Z TransferRow;
  chain_transfer_state_events : gmap (Z * Z) StateEventRow;    (* transfer, version *)
  chain_transfer_state_current : gmap Z StateRow;
  chain_transfer_processing : gmap Z ProcessingRow;
  chain_transfer_attestations : gmap Z AttestationRow;
  payment_intents : gmap Z IntentRow;
  payment_quotes : gmap Z QuoteRow;
  payment_attempts : gmap Z AttemptRow;
  amount_leases : gmap Z AmountLeaseRow;
  amount_lease_history : gmap Z LeaseHistoryRow;
  payment_settlement_policies : gmap Z PolicyRow;
  payment_settlement_policy_tiers : gmap (Z * Z) TierRow;      (* policy, max_fiat_minor *)
  payment_risk_evaluations : gmap Z RiskRow;
  operator_risk_provider_bindings : gmap (Z * string) (option Z);  (* disabled_at *)
  chain_transfer_intent_claims : gmap Z ClaimRow;              (* transfer *)
  payment_allocations : gmap (Z * Z) AllocationRow;            (* attempt, transfer *)
  payment_settlement_decisions : gmap (Z * Z) DecisionRow;     (* intent, transfer *)
  payment_fulfillments : gmap Z FulfillmentRow;                (* intent *)
  payment_events : gmap Z PaymentEventRow;
  domain_events : gmap Z DomainEventRow;
  api_idempotency_records : gmap (Z * string * string) IdempotencyRow;  (* merchant, route, key *)
  audit_events : gmap Z AuditRow;
  manual_resolution_requests : gmap (Z * string) ResolutionRow;         (* operator key, key *)
  overpayment_remainder_dispositions : gmap (Z * Z) DispositionRow;     (* transfer, intent *)
  manual_honor_proposals : gmap Z ProposalRow;
  webhook_endpoints : gmap Z EndpointRow;
  webhook_deliveries : gmap (Z * Z * Z) DeliveryRow;           (* event, endpoint, attempt *)
  webhook_redeliveries : gmap (string * string) RedeliveryRow; (* principal, key *)
  component_health : gmap string HealthRow;
  component_health_events : gmap Z HealthEventRow;
  reconciliation_runs : gmap Z RunRow;
  reconciliation_discrepancies : gmap Z DiscrepancyRow;
}.

(** One table changed and the others as they are. *)
Ltac change_table db table f :=
  let whole := constr:(mkDatabase (merchants db) (merchant_api_keys db) (operator_api_keys db)
    (component_leases db) (chain_assets db) (collector_addresses db) (price_snapshots db)
    (price_readings db) (quote_policies db) (rail_health_snapshots db) (rail_stops db)
    (chain_sources db) (chain_observations db) (chain_cursors db) (chain_finality_policies db)
    (chain_event_verdicts db) (chain_observation_conflicts db) (chain_observation_conflict_items db)
    (chain_transfers db) (chain_transfer_state_events db) (chain_transfer_state_current db) (chain_transfer_processing db)
    (chain_transfer_attestations db) (payment_intents db) (payment_quotes db) (payment_attempts db)
    (amount_leases db) (amount_lease_history db) (payment_settlement_policies db)
    (payment_settlement_policy_tiers db) (payment_risk_evaluations db)
    (operator_risk_provider_bindings db) (chain_transfer_intent_claims db) (payment_allocations db)
    (payment_settlement_decisions db) (payment_fulfillments db) (payment_events db)
    (domain_events db) (api_idempotency_records db) (audit_events db)
    (manual_resolution_requests db) (overpayment_remainder_dispositions db)
    (manual_honor_proposals db) (webhook_endpoints db) (webhook_deliveries db)
    (webhook_redeliveries db) (component_health db) (component_health_events db)
    (reconciliation_runs db) (reconciliation_discrepancies db)) in
  let shape := eval pattern (table db) in whole in
  match shape with ?context _ => let r := eval cbv beta in (context (f (table db))) in exact r end.

Definition on_merchant_keys (f : gmap Z MerchantKeyRow -> gmap Z MerchantKeyRow)
    (db : Database) : Database := ltac:(change_table db merchant_api_keys f).
Definition on_operator_keys (f : gmap Z OperatorKeyRow -> gmap Z OperatorKeyRow)
    (db : Database) : Database := ltac:(change_table db operator_api_keys f).
Definition on_price_snapshots (f : gmap Z PriceSnapshotRow -> gmap Z PriceSnapshotRow)
    (db : Database) : Database := ltac:(change_table db price_snapshots f).
Definition on_price_readings (f : gmap (Z * string * string * Z) PriceReadingRow -> gmap (Z * string * string * Z) PriceReadingRow)
    (db : Database) : Database := ltac:(change_table db price_readings f).
Definition on_rail_health (f : gmap Z RailHealthRow -> gmap Z RailHealthRow)
    (db : Database) : Database := ltac:(change_table db rail_health_snapshots f).
Definition on_rail_stops (f : gmap Z RailStopRow -> gmap Z RailStopRow)
    (db : Database) : Database := ltac:(change_table db rail_stops f).
Definition on_merchants (f : gmap Z MerchantRow -> gmap Z MerchantRow)
    (db : Database) : Database := ltac:(change_table db merchants f).
Definition on_assets (f : gmap Z AssetRow -> gmap Z AssetRow)
    (db : Database) : Database := ltac:(change_table db chain_assets f).
Definition on_collectors (f : gmap Z CollectorRow -> gmap Z CollectorRow)
    (db : Database) : Database := ltac:(change_table db collector_addresses f).
Definition on_sources (f : gmap Z SourceRow -> gmap Z SourceRow)
    (db : Database) : Database := ltac:(change_table db chain_sources f).
Definition on_finality_policies (f : gmap Z FinalityPolicyRow -> gmap Z FinalityPolicyRow)
    (db : Database) : Database := ltac:(change_table db chain_finality_policies f).
Definition on_component_leases (f : gmap string LeaseRow -> gmap string LeaseRow)
    (db : Database) : Database := ltac:(change_table db component_leases f).
Definition on_observations (f : gmap Z ObservationRow -> gmap Z ObservationRow)
    (db : Database) : Database := ltac:(change_table db chain_observations f).
Definition on_cursors (f : gmap (Z * string * Z) CursorRow -> gmap (Z * string * Z) CursorRow)
    (db : Database) : Database := ltac:(change_table db chain_cursors f).
Definition on_verdicts (f : gmap EventKey VerdictRow -> gmap EventKey VerdictRow)
    (db : Database) : Database := ltac:(change_table db chain_event_verdicts f).
Definition on_conflicts (f : gmap (EventKey * string) ConflictRow -> gmap (EventKey * string) ConflictRow)
    (db : Database) : Database := ltac:(change_table db chain_observation_conflicts f).
Definition on_conflict_items (f : gmap (Z * Z) json -> gmap (Z * Z) json)
    (db : Database) : Database := ltac:(change_table db chain_observation_conflict_items f).
Definition on_transfers (f : gmap Z TransferRow -> gmap Z TransferRow)
    (db : Database) : Database := ltac:(change_table db chain_transfers f).
Definition on_state_events (f : gmap (Z * Z) StateEventRow -> gmap (Z * Z) StateEventRow)
    (db : Database) : Database := ltac:(change_table db chain_transfer_state_events f).
Definition on_state_current (f : gmap Z StateRow -> gmap Z StateRow)
    (db : Database) : Database := ltac:(change_table db chain_transfer_state_current f).
Definition on_attestations (f : gmap Z AttestationRow -> gmap Z AttestationRow)
    (db : Database) : Database := ltac:(change_table db chain_transfer_attestations f).
Definition on_processing (f : gmap Z ProcessingRow -> gmap Z ProcessingRow)
    (db : Database) : Database := ltac:(change_table db chain_transfer_processing f).
Definition on_intents (f : gmap Z IntentRow -> gmap Z IntentRow)
    (db : Database) : Database := ltac:(change_table db payment_intents f).
Definition on_quotes (f : gmap Z QuoteRow -> gmap Z QuoteRow)
    (db : Database) : Database := ltac:(change_table db payment_quotes f).
Definition on_attempts (f : gmap Z AttemptRow -> gmap Z AttemptRow)
    (db : Database) : Database := ltac:(change_table db payment_attempts f).
Definition on_amount_leases (f : gmap Z AmountLeaseRow -> gmap Z AmountLeaseRow)
    (db : Database) : Database := ltac:(change_table db amount_leases f).
Definition on_lease_history (f : gmap Z LeaseHistoryRow -> gmap Z LeaseHistoryRow)
    (db : Database) : Database := ltac:(change_table db amount_lease_history f).
Definition on_risk (f : gmap Z RiskRow -> gmap Z RiskRow)
    (db : Database) : Database := ltac:(change_table db payment_risk_evaluations f).
Definition on_claims (f : gmap Z ClaimRow -> gmap Z ClaimRow)
    (db : Database) : Database := ltac:(change_table db chain_transfer_intent_claims f).
Definition on_allocations (f : gmap (Z * Z) AllocationRow -> gmap (Z * Z) AllocationRow)
    (db : Database) : Database := ltac:(change_table db payment_allocations f).
Definition on_decisions (f : gmap (Z * Z) DecisionRow -> gmap (Z * Z) DecisionRow)
    (db : Database) : Database := ltac:(change_table db payment_settlement_decisions f).
Definition on_fulfillments (f : gmap Z FulfillmentRow -> gmap Z FulfillmentRow)
    (db : Database) : Database := ltac:(change_table db payment_fulfillments f).
Definition on_payment_events (f : gmap Z PaymentEventRow -> gmap Z PaymentEventRow)
    (db : Database) : Database := ltac:(change_table db payment_events f).
Definition on_domain_events (f : gmap Z DomainEventRow -> gmap Z DomainEventRow)
    (db : Database) : Database := ltac:(change_table db domain_events f).
Definition on_idempotency (f : gmap (Z * string * string) IdempotencyRow -> gmap (Z * string * string) IdempotencyRow)
    (db : Database) : Database := ltac:(change_table db api_idempotency_records f).
Definition on_audit (f : gmap Z AuditRow -> gmap Z AuditRow)
    (db : Database) : Database := ltac:(change_table db audit_events f).
Definition on_resolutions (f : gmap (Z * string) ResolutionRow -> gmap (Z * string) ResolutionRow)
    (db : Database) : Database := ltac:(change_table db manual_resolution_requests f).
Definition on_dispositions (f : gmap (Z * Z) DispositionRow -> gmap (Z * Z) DispositionRow)
    (db : Database) : Database := ltac:(change_table db overpayment_remainder_dispositions f).
Definition on_proposals (f : gmap Z ProposalRow -> gmap Z ProposalRow)
    (db : Database) : Database := ltac:(change_table db manual_honor_proposals f).
Definition on_endpoints (f : gmap Z EndpointRow -> gmap Z EndpointRow)
    (db : Database) : Database := ltac:(change_table db webhook_endpoints f).
Definition on_deliveries (f : gmap (Z * Z * Z) DeliveryRow -> gmap (Z * Z * Z) DeliveryRow)
    (db : Database) : Database := ltac:(change_table db webhook_deliveries f).
Definition on_redeliveries (f : gmap (string * string) RedeliveryRow -> gmap (string * string) RedeliveryRow)
    (db : Database) : Database := ltac:(change_table db webhook_redeliveries f).

Definition on_health (f : gmap string HealthRow -> gmap string HealthRow)
    (db : Database) : Database := ltac:(change_table db component_health f).
Definition on_health_events (f : gmap Z HealthEventRow -> gmap Z HealthEventRow)
    (db : Database) : Database := ltac:(change_table db component_health_events f).
Definition on_runs (f : gmap Z RunRow -> gmap Z RunRow)
    (db : Database) : Database := ltac:(change_table db reconciliation_runs f).
Definition on_discrepancies (f : gmap Z DiscrepancyRow -> gmap Z DiscrepancyRow)
    (db : Database) : Database := ltac:(change_table db reconciliation_discrepancies f).

(** ** Statements *)

(** A violated constraint with its code and name, a missing row, or any other
    failure. *)
Inductive SqlError :=
  | SqlViolation (code constraint : string)
  | SqlRowNotFound
  | SqlOther (detail : string).

Definition statement (A : Type) : Type := Database -> result SqlError (A * Database).

(** [SELECT]: reads and changes nothing. *)
Definition select {A} (f : Database -> A) : statement A := fun db => Ok (f db, db).

Definition foreign_key (constraint : string) (present : bool) : result SqlError unit :=
  guard_err (negb present) (SqlViolation "23503" constraint).
Definition check_constraint (constraint : string) (holds : bool) : result SqlError unit :=
  guard_err (negb holds) (SqlViolation "23514" constraint).
Definition unique_key (constraint : string) (taken : bool) : result SqlError unit :=
  guard_err taken (SqlViolation "23505" constraint).
(** [version + 1] in a [BIGINT] column. *)
Definition bigint_next (v : Z) : result SqlError Z :=
  ok_or (checked I64_MIN I64_MAX (v + 1)) (SqlViolation "22003" "").
(** [attempts + 1] in an [INTEGER] column. *)
Definition integer_next (v : Z) : result SqlError Z :=
  ok_or (i32_try_from (v + 1)) (SqlViolation "22003" "").

Definition is_row {K V} `{Countable K} (m : gmap K V) (k : K) : bool := bool_decide (is_Some (m !! k)).
(** A nullable reference. *)
Definition is_row_or_null {K V} `{Countable K} (m : gmap K V) (k : option K) : bool :=
  match k with Some k => is_row m k | None => true end.

(** [UPDATE table SET .. WHERE key = k AND where]: the rows affected and the
    new table. *)
Definition update_row {K V} `{Countable K} (k : K) (where_ : V -> bool) (set_ : V -> result SqlError V)
    (m : gmap K V) : result SqlError (Z * gmap K V) :=
  match m !! k with
  | Some row => if where_ row then row ← set_ row; Ok (1, <[k := row]> m) else Ok (0, m)
  | None => Ok (0, m)
  end.

(** [UPDATE table SET .. WHERE where]: the number of rows and the new table. *)
Definition update_where {K V} `{Countable K} (where_ : V -> bool) (set_ : V -> V) (m : gmap K V)
    : Z * gmap K V :=
  (Z.of_nat (size (filter (fun '(_, row) => where_ row = true) m)),
   (fun row => if where_ row then set_ row else row) <$> m).
(** [SELECT .. WHERE where LIMIT 1] *)
Definition find_where {K V} `{Countable K} (where_ : V -> bool) (m : gmap K V) : option (K * V) :=
  head (filter (fun entry => where_ (snd entry) = true) (map_to_list m)).

(** [char_length] and [btrim], which removes spaces only. *)
Definition char_length (s : string) : Z := chars_count s.
Fixpoint drop_spaces (l : list ascii) : list ascii :=
  match l with
  | c :: t => if ascii_Z c =? 32 then drop_spaces t else l
  | [] => []
  end.
Definition btrim (s : string) : string :=
  string_of_list_ascii (rev (drop_spaces (rev (drop_spaces (list_ascii_of_string s))))).

Lemma bigint_next_Ok v v' : bigint_next v = Ok v' -> v' = v + 1.
Proof. unfold bigint_next. intros Hc%ok_or_Ok. by apply checked_Some in Hc as [? _]. Qed.

Lemma find_where_Some {K V} `{Countable K} (p : V -> bool) (m : gmap K V) k v :
  find_where p m = Some (k, v) -> m !! k = Some v /\ p v = true.
Proof.
  unfold find_where. intros Hf. apply head_Some_elem_of in Hf.
  apply list_elem_of_filter in Hf as [Hp Hin]. by apply elem_of_map_to_list in Hin.
Qed.
Lemma find_where_None {K V} `{Countable K} (p : V -> bool) (m : gmap K V) :
  find_where p m = None -> map_Forall (fun _ v => p v = false) m.
Proof.
  intros Hf k v Hv. unfold find_where in Hf. destruct (p v) eqn:Hp; [|done].
  assert ((k, v) ∈ filter (fun entry => p (snd entry) = true) (map_to_list m)) as Hin
    by (apply list_elem_of_filter; split; [done|by apply elem_of_map_to_list]).
  destruct (filter _ _) as [|e l]; [by apply elem_of_nil in Hin|done].
Qed.

(** What a query with [ORDER BY .. LIMIT ..] returns. *)
Lemma elem_of_limited {A} (cmp : A -> A -> comparison) n l x : x ∈ take n (sort_by cmp l) -> x ∈ l.
Proof.
  intros (i & Hi & _)%elem_of_take. apply list_elem_of_lookup_2 in Hi. by rewrite sort_by_perm in Hi.
Qed.

Lemma NoDup_limited {A K} (key : A -> K) (cmp : A -> A -> comparison) n l :
  NoDup (key <$> l) -> NoDup (key <$> take n (sort_by cmp l)).
Proof.
  intros Hl. eapply (sublist_NoDup _ (key <$> sort_by cmp l)).
  - by rewrite sort_by_perm.
  - apply fmap_sublist, sublist_take.
Qed.

(** A query that was not cut short returned everything. *)
Lemma limited_complete {A} (cmp : A -> A -> comparison) n l x :
  (length (take n (sort_by cmp l)) < n)%nat -> x ∈ l -> x ∈ take n (sort_by cmp l).
Proof.
  intros Hlen Hx. rewrite length_take in Hlen. rewrite take_ge by lia. by rewrite sort_by_perm.
Qed.

(** ** Sessions

    [sqlx] and the server: a statement can fail for reasons of its own, a
    commit can be lost before or after it took effect, and the clocks and the
    identifiers are what they are. *)

Inductive CommitFate := Committed | CommitLost (detail : string) (applied : bool).

Class Postgres (R : Type) := {
  next_fault : R -> option string * R;
  commit_fate : R -> CommitFate * R;
  database_now : R -> Z * R;
  now_utc : R -> Z * R;
  now_v7 : R -> Z * R;
  random_uuid : R -> Z * R;
  sql_error_text : SqlError -> string;
  session_user : string;             (* the role the pool is connected as *)
}.

Record Session (R : Type) := mkSession {
  committed : Database;
  working : Database;                (* what the open transaction sees *)
  transaction_now : Z;               (* now() is the start of the transaction *)
  runtime : R;
}.
Arguments mkSession {R}.
Arguments committed {R}.
Arguments working {R}.
Arguments transaction_now {R}.
Arguments runtime {R}.

Section sessions.
Context {R : Type} `{Postgres R}.

Definition sql (A : Type) : Type := eff (Session R) SqlError A.

(** [pool.begin()] *)
Definition begin_transaction : sql unit := fun s =>
  let '(fault, r) := next_fault (runtime s) in
  let '(now, r) := database_now r in
  match fault with
  | Some detail => (Err (SqlOther detail), mkSession (committed s) (working s) (transaction_now s) r)
  | None => (Ok tt, mkSession (committed s) (committed s) now r)
  end.

(** A statement of the open transaction; [now] is the database's clock. *)
Definition run_at {A} (st : Z -> statement A) : sql A := fun s =>
  let '(fault, r) := next_fault (runtime s) in
  match fault with
  | Some detail => (Err (SqlOther detail), mkSession (committed s) (working s) (transaction_now s) r)
  | None =>
      match st (transaction_now s) (working s) with
      | Ok (a, db) => (Ok a, mkSession (committed s) db (transaction_now s) r)
      | Err e => (Err e, mkSession (committed s) (working s) (transaction_now s) r)
      end
  end.
Definition run {A} (st : statement A) : sql A := run_at (fun _ => st).

(** [transaction.commit()].  A transaction that is dropped instead rolls
    back: the next one starts from what is committed. *)
Definition commit : sql unit := fun s =>
  let '(fate, r) := commit_fate (runtime s) in
  match fate with
  | Committed => (Ok tt, mkSession (working s) (working s) (transaction_now s) r)
  | CommitLost detail true =>
      (Err (SqlOther detail), mkSession (working s) (working s) (transaction_now s) r)
  | CommitLost detail false =>
      (Err (SqlOther detail), mkSession (committed s) (committed s) (transaction_now s) r)
  end.

(** [transaction.rollback()]: when it fails the connection is gone, and the
    server rolls back by itself. *)
Definition rollback : sql unit := fun s =>
  let '(fault, r) := next_fault (runtime s) in
  let s := mkSession (committed s) (committed s) (transaction_now s) r in
  match fault with Some detail => (Err (SqlOther detail), s) | None => (Ok tt, s) end.

(** A statement on the pool is a transaction of its own. *)
Definition run_pool_at {A} (st : Z -> statement A) : sql A :=
  _ ← begin_transaction; a ← run_at st; _ ← commit; mret a.
Definition run_pool {A} (st : statement A) : sql A := run_pool_at (fun _ => st).

(** [OffsetDateTime::now_utc] and [Uuid::now_v7]. *)
Definition read_now_utc {E} : eff (Session R) E Z := fun s =>
  let '(t, r) := now_utc (runtime s) in
  (Ok t, mkSession (committed s) (working s) (transaction_now s) r).
Definition new_uuid {E} : eff (Session R) E Z := fun s =>
  let '(u, r) := now_v7 (runtime s) in
  (Ok u, mkSession (committed s) (working s) (transaction_now s) r).

(** [gen_random_uuid()] of the server. *)
Definition gen_random_uuid {E} : eff (Session R) E Z := fun s =>
  let '(u, r) := random_uuid (runtime s) in
  (Ok u, mkSession (committed s) (working s) (transaction_now s) r).

(** [unavailable] and [corrupt] of postgres.rs. *)
Definition unavailable (e : SqlError) : RepositoryError := Unavailable (sql_error_text e).
Definition corrupt (message : string) : RepositoryError := CorruptData message.
End sessions.

(** * Reasoning about transactions

    [within db now m Q]: run in a transaction that sees [db] and began at
    [now], [m] commits nothing, and what it returns and leaves in the
    transaction satisfies [Q].  The rules follow the code statement by
    statement. *)

Section within.
Context {R : Type} `{Postgres R}.

Definition within {E A} (db : Database) (now : Z) (m : eff (Session R) E A)
    (Q : A -> Database -> Prop) : Prop :=
  forall s, working s = db -> transaction_now s = now ->
    committed (m s).2 = committed s /\ transaction_now (m s).2 = now
    /\ forall a, (m s).1 = Ok a -> Q a (working (m s).2).

Lemma within_ret {E A} (a : A) db now (Q : A -> Database -> Prop) :
  Q a db -> within db now (mret a : eff (Session R) E A) Q.
Proof. intros HQ s <- <-. split_and!; [done..|]. by intros ? [= <-]. Qed.

Lemma within_lift {E A} (r : result E A) db now (Q : A -> Database -> Prop) :
  (forall a, r = Ok a -> Q a db) -> within db now (lift r) Q.
Proof. intros HQ s <- <-. split_and!; [done..|]. apply HQ. Qed.

Lemma within_weaken {E A} (m : eff (Session R) E A) db now (P Q : A -> Database -> Prop) :
  within db now m P -> (forall a db', P a db' -> Q a db') -> within db now m Q.
Proof.
  intros Hm HPQ s Hdb Hnow. destruct (Hm s Hdb Hnow) as (? & ? & HP). split_and!; [done..|].
  intros a Ha. by apply HPQ, HP.
Qed.

Lemma within_bind {E A B} (m : eff (Session R) E A) (k : A -> eff (Session R) E B) db now P Q :
  within db now m P -> (forall a db', P a db' -> within db' now (k a) Q) -> within db now (mbind k m) Q.
Proof.
  intros Hm Hk s Hdb Hnow. destruct (Hm s Hdb Hnow) as (Hc & Hn & HP).
  unfold mbind, eff_bind. destruct (m s) as [[a|e] s1]; simpl in *.
  - destruct (Hk a _ (HP a eq_refl) s1 eq_refl Hn) as (Hc' & Hn' & HQ). split_and!; [congruence|done|done].
  - by split_and!.
Qed.

Lemma within_map_err {E F A} (f : E -> F) (m : eff (Session R) E A) db now Q :
  within db now m Q -> within db now (eff_map_err f m) Q.
Proof.
  intros Hm s Hdb Hnow. destruct (Hm s Hdb Hnow) as (Hc & Hn & HQ). unfold eff_map_err.
  destruct (m s) as [[a|e] s1]; simpl in *; split_and!; try done. intros ? [= <-]. by apply HQ.
Qed.

Lemma within_attempt {E F A} (m : eff (Session R) E A) db now Q :
  within db now m Q ->
  within db now (attempt m : eff (Session R) F _) (fun r db' => forall a, r = Ok a -> Q a db').
Proof.
  intros Hm s Hdb Hnow. destruct (Hm s Hdb Hnow) as (Hc & Hn & HQ). unfold attempt.
  destruct (m s) as [r s1]; simpl in *. split_and!; [done..|]. intros r' [= <-]. exact HQ.
Qed.

Lemma within_run_at {A} (st : Z -> statement A) db now (Q : A -> Database -> Prop) :
  (forall a db', st now db = Ok (a, db') -> Q a db') -> within db now (run_at st) Q.
Proof.
  intros HQ s <- <-. unfold run_at. destruct (next_fault (runtime s)) as [[d|] r]; simpl.
  - by split_and!.
  - destruct (st _ _) as [[a db']|e] eqn:Hst; simpl; split_and!; try done.
    intros ? [= <-]. by apply HQ.
Qed.

Lemma within_run {A} (st : statement A) db now (Q : A -> Database -> Prop) :
  (forall a db', st db = Ok (a, db') -> Q a db') -> within db now (run st) Q.
Proof. apply (within_run_at (fun _ => st)). Qed.

Lemma within_now_utc {E} db now (Q : Z -> Database -> Prop) :
  (forall t, Q t db) -> within db now (read_now_utc (E := E)) Q.
Proof.
  intros HQ s <- <-. unfold read_now_utc. destruct (now_utc _) as [t r]. split_and!; [done..|].
  intros ? [= <-]. apply HQ.
Qed.

Lemma within_uuid {E} db now (Q : Z -> Database -> Prop) :
  (forall u, Q u db) -> within db now (new_uuid (E := E)) Q.
Proof.
  intros HQ s <- <-. unfold new_uuid. destruct (now_v7 _) as [t r]. split_and!; [done..|].
  intros ? [= <-]. apply HQ.
Qed.

Lemma within_random_uuid {E} db now (Q : Z -> Database -> Prop) :
  (forall u, Q u db) -> within db now (gen_random_uuid (E := E)) Q.
Proof.
  intros HQ s <- <-. unfold gen_random_uuid. destruct (random_uuid _) as [t r]. split_and!; [done..|].
  intros ? [= <-]. apply HQ.
Qed.

(** The same rules with the rest of the code behind the statement. *)
Lemma within_bind_run_at {E A B} (f : SqlError -> E) (st : Z -> statement A)
    (k : A -> eff (Session R) E B) db now Q :
  (forall a db', st now db = Ok (a, db') -> within db' now (k a) Q) ->
  within db now (mbind k (eff_map_err f (run_at st))) Q.
Proof.
  intros Hk. eapply within_bind; [apply within_map_err, within_run_at|].
  - intros a db' Hst. exact Hst.
  - exact Hk.
Qed.

Lemma within_bind_uuid {E B} (k : Z -> eff (Session R) E B) db now Q :
  (forall u, within db now (k u) Q) -> within db now (mbind k new_uuid) Q.
Proof.
  intros Hk. eapply (within_bind _ _ _ _ (fun _ db' => db' = db)); [by apply within_uuid|].
  by intros u db' ->.
Qed.

Lemma within_bind_lift {E A B} (r : result E A) (k : A -> eff (Session R) E B) db now Q :
  (forall a, r = Ok a -> within db now (k a) Q) -> within db now (mbind k (lift r)) Q.
Proof.
  intros Hk. eapply (within_bind _ _ _ _ (fun a db' => db' = db /\ r = Ok a)); [by apply within_lift|].
  intros a db' [-> Ha]. by apply Hk.
Qed.

(** A loop inside a transaction. *)
Lemma within_for_each {E A S} (step : S -> A -> eff (Session R) E S) (I : Database -> Prop) l now :
  (forall s x db, I db -> within db now (step s x) (fun _ => I)) ->
  forall s db, I db -> within db now (for_each step l s) (fun _ => I).
Proof.
  intros Hstep. induction l as [|x l IH]; intros s db Hi; cbn [for_each]; [by apply within_ret|].
  eapply within_bind; [by apply Hstep|]. intros s' db' Hi'. by apply IH.
Qed.

(** The same with the entries seen so far. *)
Lemma within_for_each_seen {E A S} (step : S -> A -> eff (Session R) E S)
    (I : list A -> Database -> Prop) l now :
  (forall seen x rest s db, l = seen ++ x :: rest -> I seen db ->
     within db now (step s x) (fun _ => I (seen ++ [x]))) ->
  forall s db, I [] db -> within db now (for_each step l s) (fun _ => I l).
Proof.
  intros Hstep. enough (forall rest seen s db, l = seen ++ rest -> I seen db ->
    within db now (for_each step rest s) (fun _ => I l)) as Hgen by (intros; by eapply (Hgen l [])).
  induction rest as [|x rest IH]; intros seen s db Hl Hi; cbn [for_each].
  - apply within_ret. by rewrite Hl, app_nil_r.
  - eapply within_bind; [by eapply Hstep|]. intros s' db' Hi'. eapply IH; [|exact Hi'].
    by rewrite Hl, <- app_assoc.
Qed.

(** The same with what the loop carries. *)
Lemma within_for_each_acc {E A S} (step : S -> A -> eff (Session R) E S)
    (I : list A -> S -> Database -> Prop) l now :
  (forall seen x rest s db, l = seen ++ x :: rest -> I seen s db ->
     within db now (step s x) (fun s' => I (seen ++ [x]) s')) ->
  forall s db, I [] s db -> within db now (for_each step l s) (I l).
Proof.
  intros Hstep. enough (forall rest seen s db, l = seen ++ rest -> I seen s db ->
    within db now (for_each step rest s) (I l)) as Hgen by (intros; by eapply (Hgen l [])).
  induction rest as [|x rest IH]; intros seen s db Hl Hi; cbn [for_each].
  - apply within_ret. by rewrite Hl, app_nil_r.
  - eapply within_bind; [by eapply Hstep|]. intros s' db' Hi'. eapply IH; [|exact Hi'].
    by rewrite Hl, <- app_assoc.
Qed.

(** [ends db0 db now m T]: with [db0] committed and a transaction open on
    [db], the rest [m] of a call, when it ends well, has made the step [T] of
    the committed state; when it fails, it has made no step, or has made one
    and lost the news. *)
Definition ends {E A} (db0 db : Database) (now : Z) (m : eff (Session R) E A)
    (T : A -> Database -> Prop) : Prop :=
  forall s, committed s = db0 -> working s = db -> transaction_now s = now ->
    match (m s).1 with
    | Ok a => T a (committed (m s).2)
    | Err _ => committed (m s).2 = db0 \/ exists a, T a (committed (m s).2)
    end.

(** A whole call. *)
Definition transacts {E A} (T : Database -> A -> Database -> Prop) (m : eff (Session R) E A) : Prop :=
  forall db0 db now, ends db0 db now m (T db0).

Lemma ends_bind {E A B} (m : eff (Session R) E A) (k : A -> eff (Session R) E B) db0 db now P T :
  within db now m P -> (forall a db', P a db' -> ends db0 db' now (k a) T) -> ends db0 db now (mbind k m) T.
Proof.
  intros Hm Hk s Hc Hdb Hnow. destruct (Hm s Hdb Hnow) as (Hc' & Hn & HP).
  unfold mbind, eff_bind. destruct (m s) as [[a|e] s1]; simpl in *; [|left; congruence].
  apply (Hk a _ (HP a eq_refl) s1); [congruence|done..].
Qed.

Lemma ends_bind_run_at {E A B} (f : SqlError -> E) (st : Z -> statement A)
    (k : A -> eff (Session R) E B) db0 db now T :
  (forall a db', st now db = Ok (a, db') -> ends db0 db' now (k a) T) ->
  ends db0 db now (mbind k (eff_map_err f (run_at st))) T.
Proof.
  intros Hk. eapply ends_bind; [apply within_map_err, within_run_at|].
  - intros a db' Hst. exact Hst.
  - exact Hk.
Qed.

Lemma ends_bind_now {E B} (k : Z -> eff (Session R) E B) db0 db now T :
  (forall t, ends db0 db now (k t) T) -> ends db0 db now (mbind k read_now_utc) T.
Proof.
  intros Hk. eapply (ends_bind _ _ _ _ _ (fun _ db' => db' = db)); [by apply within_now_utc|].
  by intros t db' ->.
Qed.

Lemma ends_bind_uuid {E B} (k : Z -> eff (Session R) E B) db0 db now T :
  (forall u, ends db0 db now (k u) T) -> ends db0 db now (mbind k new_uuid) T.
Proof.
  intros Hk. eapply (ends_bind _ _ _ _ _ (fun _ db' => db' = db)); [by apply within_uuid|].
  by intros u db' ->.
Qed.

(** A read of the open transaction. *)
Lemma within_bind_select {E A B} (f : SqlError -> E) (q : Database -> A)
    (k : A -> eff (Session R) E B) db now Q :
  within db now (k (q db)) Q -> within db now (mbind k (eff_map_err f (run (select q)))) Q.
Proof. intros Hk. apply (within_bind_run_at f (fun _ => select q)). by intros a db' [= <- <-]. Qed.

Lemma ends_bind_select {E A B} (f : SqlError -> E) (q : Database -> A)
    (k : A -> eff (Session R) E B) db0 db now T :
  ends db0 db now (k (q db)) T -> ends db0 db now (mbind k (eff_map_err f (run (select q)))) T.
Proof. intros Hk. apply (ends_bind_run_at f (fun _ => select q)). by intros a db' [= <- <-]. Qed.

(** A call that gave up its transaction. *)
Lemma ends_ret_same {E A} (a : A) db0 db now T :
  T a db0 -> ends db0 db now (mret a : eff (Session R) E A) T.
Proof. intros HT s <- <- <-. done. Qed.

Lemma ends_bind_lift {E A B} (r : result E A) (k : A -> eff (Session R) E B) db0 db now T :
  (forall a, r = Ok a -> ends db0 db now (k a) T) -> ends db0 db now (mbind k (lift r)) T.
Proof.
  intros Hk. eapply (ends_bind _ _ _ _ _ (fun a db' => db' = db /\ r = Ok a)); [by apply within_lift|].
  intros a db' [-> Ha]. by apply Hk.
Qed.

Lemma ends_begin {E A} (f : SqlError -> E) (k : unit -> eff (Session R) E A) db0 db now T :
  (forall now, ends db0 db0 now (k tt) T) ->
  ends db0 db now (mbind k (eff_map_err f begin_transaction)) T.
Proof.
  intros Hk s <- <- <-. unfold mbind, eff_bind, eff_map_err, begin_transaction.
  destruct (next_fault _) as [[d|] r], (database_now r) as [t r']; simpl; [by left|].
  by apply (Hk t (mkSession (committed s) (committed s) t r')).
Qed.

Lemma ends_commit {E A} (f : SqlError -> E) (a : A) db0 db now T :
  T a db -> ends db0 db now (_ ← eff_map_err f commit; mret a) T.
Proof.
  intros HT s <- <- <-. unfold mbind, eff_bind, eff_map_err, commit.
  destruct (commit_fate _) as [[|d []] r]; simpl; [done|right; by exists a|by left].
Qed.

Lemma ends_commit_unit {E} (f : SqlError -> E) db0 db now (T : unit -> Database -> Prop) :
  T tt db -> ends db0 db now (eff_map_err f commit) T.
Proof.
  intros HT s <- <- <-. unfold eff_map_err, commit.
  destruct (commit_fate _) as [[|d []] r]; simpl; [done|right; by exists tt|by left].
Qed.

Lemma ends_rollback {E A} (f : SqlError -> E) (k : unit -> eff (Session R) E A) db0 db now T :
  ends db0 db0 now (k tt) T -> ends db0 db now (mbind k (eff_map_err f rollback)) T.
Proof.
  intros Hk s <- <- <-. unfold mbind, eff_bind, eff_map_err, rollback.
  destruct (next_fault _) as [[d|] r]; simpl; [by left|].
  by apply (Hk (mkSession (committed s) (committed s) (transaction_now s) r)).
Qed.

Lemma ends_lift_Err {E A} (e : E) db0 db now (T : A -> Database -> Prop) :
  ends db0 db now (lift (Err e)) T.
Proof. intros s <- <- <-. by left. Qed.

Lemma ends_weaken {E A} (m : eff (Session R) E A) db0 db now (T T' : A -> Database -> Prop) :
  ends db0 db now m T -> (forall a db', T a db' -> T' a db') -> ends db0 db now m T'.
Proof.
  intros Hm HT s Hc Hdb Hnow. specialize (Hm s Hc Hdb Hnow).
  destruct (m s) as [[a|e] s1]; simpl in *; [by apply HT|].
  destruct Hm as [?|[a ?]]; [by left|right; exists a; by apply HT].
Qed.

(** A statement on the pool is one step. *)
Lemma transacts_pool {A} (st : Z -> statement A) :
  transacts (fun db a db' => exists now, st now db = Ok (a, db')) (run_pool_at st).
Proof.
  intros db0 db now s <- <- <-. unfold run_pool_at, mbind, eff_bind, begin_transaction.
  destruct (next_fault _) as [[d|] r], (database_now r) as [t r']; simpl; [by left|].
  unfold run_at. simpl. destruct (next_fault r') as [[d|] r'']; simpl; [by left|].
  destruct (st t (committed s)) as [[a db']|e] eqn:Hst; simpl; [|by left].
  unfold commit. simpl. destruct (commit_fate r'') as [[|d []] r3]; simpl; [by exists t| |by left].
  right. by exists a, t.
Qed.

Lemma transacts_map_err {E F A} (f : E -> F) (m : eff (Session R) E A) T :
  transacts T m -> transacts T (eff_map_err f m).
Proof.
  intros Hm db0 db now s Hc Hdb Hnow. specialize (Hm db0 db now s Hc Hdb Hnow). unfold eff_map_err.
  by destruct (m s) as [[a|e] s1].
Qed.

(** Identifiers and the clock leave the committed state alone. *)
Lemma holds_uuid {E} (I : Database -> Prop) :
  holds (fun s : Session R => I (committed s)) (new_uuid (E := E)) (fun _ => True).
Proof. intros s Hs. unfold new_uuid. by destruct (now_v7 _). Qed.

(** What a step keeps, a call keeps, however it ends. *)
Lemma transacts_holds {E A} (T : Database -> A -> Database -> Prop) (I : Database -> Prop)
    (m : eff (Session R) E A) :
  transacts T m -> (forall db a db', I db -> T db a db' -> I db') ->
  holds (fun s => I (committed s)) m (fun _ => True).
Proof.
  intros Hm HT s Hs. specialize (Hm _ _ _ s eq_refl eq_refl eq_refl).
  destruct (m s) as [[a|e] s1]; simpl in *; (split; [|done]); [by eapply HT|].
  destruct Hm as [->|[a Ha]]; [done|by eapply HT].
Qed.

Lemma holds_pool {E A} (f : SqlError -> E) (st : Z -> statement A) (I : Database -> Prop) :
  (forall now db a db', I db -> st now db = Ok (a, db') -> I db') ->
  holds (fun s : Session R => I (committed s)) (eff_map_err f (run_pool_at st)) (fun _ => True).
Proof.
  intros Hst. eapply transacts_holds; [apply transacts_map_err, transacts_pool|].
  intros db a db' Hi (now & Hrun). by eapply Hst.
Qed.

(** A successful call on the pool. *)
Lemma pool_Ok {E A} (f : SqlError -> E) (st : Z -> statement A) (s : Session R) a s' :
  eff_map_err f (run_pool_at st) s = (Ok a, s') -> exists now, st now (committed s) = Ok (a, committed s').
Proof.
  intros Hm. pose proof (transacts_map_err f _ _ (transacts_pool st) _ _ _ s eq_refl eq_refl eq_refl) as Ht.
  by rewrite Hm in Ht.
Qed.
End within.
