(* ===== verification/StorageSettlement.v ===== *)
(** * Settlement in storage

    [gateway-storage/src/settlement.rs]: the reads a settlement pass makes,
    and the transaction that claims a transfer for one intent, allocates its
    money under the transfer's own ceiling, closes the obligation and queues
    the merchant's event, or parks the transfer. *)

From Stdlib Require Import Ascii String.
From stdpp Require Import gmap sorting.
From S2P Require Import Prelude RustStd Externals Effects Money Chain Observations Settlement.
From S2P Require Import SettlementService Database.

Local Open Scope Z_scope.

Definition SETTLEMENT_ACTOR : string := "system".

(** ** Rows *)

Record PendingTransferRow := mkPendingTransferRow {
  pt_transfer_id : Z;
  pt_collector_address_id : Z;
  pt_amount_raw : string;
  pt_memo : option string;
  pt_block_time : Z;
  pt_state : string;
  pt_allocated_raw : string;
  pt_independent_groups : Z;         (* i64 *)
  pt_had_own_node : bool;
  pt_attestation_ids : list Z;
}.
Record CandidateRow := mkCandidateRow {
  ca_attempt_id : Z;
  ca_payment_intent_id : Z;
  ca_merchant_id : Z;
  ca_collector_address_id : Z;
  ca_expected_amount_raw : string;
  ca_memo_reference : option string;
  ca_leased_from : Z;
  ca_leased_until : Z;
  ca_quote_expires_at : Z;
  ca_status : string;
}.
Record AttemptSnapshotRow := mkAttemptSnapshotRow {
  sn_attempt_id : Z;
  sn_payment_intent_id : Z;
  sn_merchant_id : Z;
  sn_currency : string;
  sn_fiat_amount_minor : Z;
  sn_expected_amount_raw : string;
  sn_allocated_raw : string;
  sn_status : string;
}.

Definition corrupt_money {A} (r : result MoneyError A) : result RepositoryError A :=
  map_err (fun error => corrupt (MoneyError_to_string error)) r.
Definition corrupt_chain {A} (r : result ChainError A) : result RepositoryError A :=
  map_err (fun error => corrupt (ChainError_to_string error)) r.
Definition corrupt_settlement {A} (r : result SettlementError A) : result RepositoryError A :=
  map_err (fun error => corrupt (SettlementError_to_string error)) r.

(** [memo.as_deref().map(Memo::new).transpose()] *)
Definition memo_from_column (memo : option string) : result RepositoryError (option Memo) :=
  match memo with
  | None => Ok None
  | Some text => memo ← corrupt_chain (Memo_new text); Ok (Some memo)
  end.

Section rows.
Context `{U256Lib}.

Definition parse_total (value : string) : result RepositoryError RawAmount :=
  if bool_decide (trim_start_zeros value = "") then Ok RawAmount_ZERO
  else corrupt_money (RawAmount_from_str value).

Definition PendingTransfer_try_from (row : PendingTransferRow) : result RepositoryError PendingTransfer :=
  amount_raw ← corrupt_money (RawAmount_from_str (pt_amount_raw row));
  memo ← memo_from_column (pt_memo row);
  state ← corrupt_chain (TransferState_from_str (pt_state row));
  allocated_raw ← parse_total (pt_allocated_raw row);
  Ok {| pd_facts := {| tf_transfer_id := pt_transfer_id row;
                       tf_collector_address_id := pt_collector_address_id row;
                       tf_amount_raw := amount_raw; tf_memo := memo;
                       tf_block_time := pt_block_time row; tf_state := state |};
        pd_independent_groups := default U32_MAX (u32_try_from (pt_independent_groups row));
        pd_had_own_node := pt_had_own_node row;
        pd_attestation_ids := pt_attestation_ids row;
        pd_allocated_raw := allocated_raw |}.

Definition AttemptCandidate_try_from (row : CandidateRow) : result RepositoryError AttemptCandidate :=
  expected_amount_raw ← corrupt_money (RawAmount_from_str (ca_expected_amount_raw row));
  memo_reference ← memo_from_column (ca_memo_reference row);
  status ← corrupt_settlement (AttemptStatus_parse (ca_status row));
  Ok {| ac_attempt_id := ca_attempt_id row; ac_payment_intent_id := ca_payment_intent_id row;
        ac_merchant_id := ca_merchant_id row; ac_collector_address_id := ca_collector_address_id row;
        ac_expected_amount_raw := expected_amount_raw; ac_memo_reference := memo_reference;
        ac_leased_from := ca_leased_from row; ac_leased_until := ca_leased_until row;
        ac_quote_expires_at := ca_quote_expires_at row; ac_status := status |}.

Definition AttemptSnapshot_try_from (row : AttemptSnapshotRow) : result RepositoryError AttemptSnapshot :=
  currency ← corrupt_money (CurrencyCode_new (sn_currency row));
  expected_amount_raw ← corrupt_money (RawAmount_from_str (sn_expected_amount_raw row));
  allocated_raw ← parse_total (sn_allocated_raw row);
  status ← corrupt_settlement (AttemptStatus_parse (sn_status row));
  Ok {| as_attempt_id := sn_attempt_id row; as_payment_intent_id := sn_payment_intent_id row;
        as_merchant_id := sn_merchant_id row; as_currency := currency;
        as_fiat_amount_minor := sn_fiat_amount_minor row;
        as_expected_amount_raw := expected_amount_raw; as_allocated_raw := allocated_raw;
        as_status := status |}.
End rows.

(** ** Queries *)

(** [numeric::TEXT] *)
Definition numeric_text (z : Z) : string := dec_signed z.

(** [sum(f) .. WHERE p] over a table. *)
Definition sum_where {K V} `{Countable K} (p : K -> bool) (f : V -> Z) (m : gmap K V) : Z :=
  map_fold (fun k v total => if p k then f v + total else total) 0 m.
Definition attempt_total (db : Database) (attempt_id : Z) : Z :=
  sum_where (fun key => fst key =? attempt_id) ar_allocated_raw (payment_allocations db).

Definition attestations_of (db : Database) (transfer_id : Z) : list (Z * AttestationRow) :=
  filter (fun entry => an_transfer_id (snd entry) = transfer_id)
    (map_to_list (chain_transfer_attestations db)).

Definition pending_row (db : Database) (entry : Z * TransferRow) : option PendingTransferRow :=
  let '(id, transfer) := entry in
  match st_state <$> chain_transfer_state_current db !! id, chain_transfer_processing db !! id with
  | Some state, Some processing =>
      if bool_decide (pr_processing_state processing = "pending")
         && bool_decide (state ∈ ["finalized"; "invalidated"])
      then
        let attestations := attestations_of db id in
        Some {| pt_transfer_id := id; pt_collector_address_id := tr_collector_address_id transfer;
                pt_amount_raw := numeric_text (tr_amount_raw transfer); pt_memo := tr_memo transfer;
                pt_block_time := tr_block_time transfer; pt_state := state;
                pt_allocated_raw := numeric_text (pr_allocated_raw processing);
                pt_independent_groups :=
                  distinct_count (map (fun a => an_provider_group (snd a)) attestations);
                pt_had_own_node :=
                  existsb (fun a => bool_decide (an_source_kind (snd a) = "own_node")) attestations;
                pt_attestation_ids := map fst attestations |}
      else None
  | _, _ => None
  end.

(** [ORDER BY block_time, id] *)
Definition by_block_time (a b : PendingTransferRow) : comparison :=
  match pt_block_time a ?= pt_block_time b with Eq => pt_transfer_id a ?= pt_transfer_id b | c => c end.

Definition pending_rows (limit : Z) (db : Database) : list PendingTransferRow :=
  take (Z.to_nat limit) (sort_by by_block_time (omap (pending_row db) (map_to_list (chain_transfers db)))).

(** A reservation joined with its attempt. *)
Definition candidate_row (db : Database) (lease : AmountLeaseRow) (where_ : AttemptRow -> bool)
    : option CandidateRow :=
  attempt ← payment_attempts db !! al_attempt_id lease;
  if where_ attempt
  then Some {| ca_attempt_id := al_attempt_id lease; ca_payment_intent_id := tt_payment_intent_id attempt;
               ca_merchant_id := tt_merchant_id attempt;
               ca_collector_address_id := tt_collector_address_id attempt;
               ca_expected_amount_raw := numeric_text (tt_expected_amount_raw attempt);
               ca_memo_reference := tt_memo_reference attempt;
               ca_leased_from := al_leased_from lease; ca_leased_until := al_lease_until lease;
               ca_quote_expires_at := tt_quote_expires_at attempt; ca_status := tt_status attempt |}
  else None.

Definition candidate_rows (transfer : TransferFacts) (db : Database) : list CandidateRow :=
  let at_collector lease := al_collector_address_id lease =? tf_collector_address_id transfer in
  let amount lease := al_amount_raw lease =? as_u256 (tf_amount_raw transfer) in
  let memo attempt :=
    match tf_memo transfer with
    | Some memo => bool_decide (tt_memo_reference attempt = Some (Memo_as_str memo))
    | None => false
    end in
  omap (fun '(_, lease) =>
          candidate_row db lease (fun attempt => at_collector lease && (amount lease || memo attempt)))
       (map_to_list (amount_leases db))
  ++ omap (fun '(_, row) =>
             let history := ah_lease row in
             candidate_row db history (fun _ => at_collector history && amount history
               && (al_leased_from history <=? tf_block_time transfer)
               && (tf_block_time transfer <? al_lease_until history)))
          (map_to_list (amount_lease_history db)).

Definition snapshot_row (attempt_id : Z) (db : Database) : option AttemptSnapshotRow :=
  attempt ← payment_attempts db !! attempt_id;
  intent ← payment_intents db !! tt_payment_intent_id attempt;
  Some {| sn_attempt_id := attempt_id; sn_payment_intent_id := tt_payment_intent_id attempt;
          sn_merchant_id := tt_merchant_id attempt; sn_currency := ir_currency intent;
          sn_fiat_amount_minor := ir_amount_minor intent;
          sn_expected_amount_raw := numeric_text (tt_expected_amount_raw attempt);
          sn_allocated_raw := numeric_text (attempt_total db attempt_id);
          sn_status := tt_status attempt |}.

Definition active_policy (currency : CurrencyCode) (db : Database) : option (Z * string) :=
  match filter (fun entry => py_fiat_currency (snd entry) = CurrencyCode_as_str currency
                             /\ py_status (snd entry) = "active")
          (map_to_list (payment_settlement_policies db)) with
  | (id, policy) :: _ => Some (id, py_version policy)
  | [] => None
  end.
Definition policy_tiers (policy_id : Z) (db : Database) : list (Z * TierRow) :=
  sort_by (fun a b => fst a ?= fst b)
    (omap (fun '((policy, max_fiat_minor), tier) =>
             if policy =? policy_id then Some (max_fiat_minor, tier) else None)
       (map_to_list (payment_settlement_policy_tiers db))).
Definition settlement_tier (entry : Z * TierRow) : SettlementTier :=
  let '(max_fiat_minor, tier) := entry in
  {| st_max_fiat_minor := max_fiat_minor;
     st_min_independent_groups := default U32_MAX (u32_try_from (ti_min_independent_groups tier));
     st_require_own_node := ti_require_own_node tier;
     st_require_risk_allow := ti_require_risk_allow tier;
     st_auto_settle := ti_auto_settle tier |}.

(** The newest screening of the last hour, up to half a minute ahead of the
    clock. *)
Definition risk_row (transfer_id now : Z) (db : Database) : option (Z * RiskRow) :=
  max_by_key (fun entry => rk_evaluated_at (snd entry))
    (filter (fun entry => rk_transfer_id (snd entry) = transfer_id
                          /\ now - duration_hours 1 <= rk_evaluated_at (snd entry)
                          /\ rk_evaluated_at (snd entry) <= now + duration_seconds 30)
       (map_to_list (payment_risk_evaluations db))).

Section repository.
Context {R : Type} `{Postgres R} `{U256Lib} `{UuidLib} `{TimeSerde}.

Definition storage (A : Type) : Type := eff (Session R) RepositoryError A.

(** A statement of the transaction, or of the pool, with its errors as the
    repository reports them. *)
Definition exec {A} (st : statement A) : storage A := eff_map_err unavailable (run st).
Definition pool_fetch {A} (f : Database -> A) : storage A := eff_map_err unavailable (run_pool (select f)).
(** [fetch_one] *)
Definition fetch_one {A} (f : Database -> option A) : storage A :=
  exec (fun db => match f db with Some a => Ok (a, db) | None => Err SqlRowNotFound end).

Definition pg_transfers_awaiting_settlement (limit : Z) : storage (list PendingTransfer) :=
  rows ← pool_fetch (pending_rows limit);
  lift (collect PendingTransfer_try_from rows).

Definition pg_match_candidates (transfer : TransferFacts) : storage (list AttemptCandidate) :=
  rows ← pool_fetch (candidate_rows transfer);
  lift (collect AttemptCandidate_try_from rows).

Definition pg_attempt_snapshot (attempt_id : Z) : storage (option AttemptSnapshot) :=
  row ← pool_fetch (snapshot_row attempt_id);
  match row with
  | None => mret None
  | Some row => snapshot ← lift (AttemptSnapshot_try_from row); mret (Some snapshot)
  end.

Definition pg_find_settlement_policy (currency : CurrencyCode) : storage (option SettlementPolicy) :=
  policy ← pool_fetch (active_policy currency);
  match policy with
  | None => mret None
  | Some (policy_id, version) =>
      tiers ← pool_fetch (policy_tiers policy_id);
      match tiers with
      | [] => lift (Err (corrupt "an active settlement policy has no bands"))
      | _ => mret (Some {| sp_id := policy_id; sp_version := version;
                           sp_tiers := map settlement_tier tiers |})
      end
  end.

Definition pg_latest_risk (transfer_id : Z) : storage (RiskDecision * option Z) :=
  row ← eff_map_err unavailable (run_pool_at (fun now => select (risk_row transfer_id now)));
  match row with
  | None => mret (Skipped, None)
  | Some (id, risk) =>
      decision ← lift (corrupt_settlement (RiskDecision_parse (rk_decision risk)));
      mret (decision, Some id)
  end.

(** ** Writes shared by every outcome *)

Definition hold_lease (lease : ComponentLease) : storage unit :=
  held ← eff_map_err unavailable (run_at (fun now => select (fun db =>
           match component_leases db !! cl_component lease with
           | Some row => bool_decide (lr_holder row = cl_holder lease)
                         && (lr_fence_token row =? cl_fence_token lease) && (now <? lr_lease_until row)
           | None => false
           end)));
  if (held : bool) then mret tt else lift (Err LeaseLost).

Definition insert_payment_event (merchant_id payment_intent_id attempt_id transfer_id : option Z)
    (event_type : string) (reason_code : option string) (payload : json) (now : Z) : storage unit :=
  id ← new_uuid;
  exec (fun db =>
    _ ← unique_key "payment_events_pkey" (is_row (payment_events db) id);
    _ ← foreign_key "payment_events_merchant_id_fkey" (is_row_or_null (merchants db) merchant_id);
    _ ← foreign_key "payment_events_payment_intent_id_fkey"
          (is_row_or_null (payment_intents db) payment_intent_id);
    _ ← foreign_key "payment_events_attempt_id_fkey" (is_row_or_null (payment_attempts db) attempt_id);
    _ ← foreign_key "payment_events_transfer_id_fkey" (is_row_or_null (chain_transfers db) transfer_id);
    Ok (tt, on_payment_events <[id := {|
      pe_merchant_id := merchant_id; pe_payment_intent_id := payment_intent_id;
      pe_attempt_id := attempt_id; pe_transfer_id := transfer_id; pe_event_type := event_type;
      pe_reason_code := reason_code; pe_source := "system"; pe_actor := SETTLEMENT_ACTOR;
      pe_payload := payload; pe_created_at := now |}]> db)).

Definition outbox_row (merchant_id : option Z) (channel event_type aggregate_type : string)
    (aggregate_id : Z) (payload : json) (now : Z) : DomainEventRow := {|
  de_merchant_id := merchant_id; de_channel := channel; de_event_type := event_type;
  de_aggregate_type := aggregate_type; de_aggregate_id := aggregate_id; de_payload := payload;
  de_available_at := now; de_attempts := 0; de_last_error := None; de_claimed_by := None;
  de_claimed_until := None; de_delivered_at := None; de_dead_lettered_at := None;
  de_created_at := now; de_target_endpoint_id := None; de_attempt_floor := 0 |}.
Definition enqueue_outbox (merchant_id : option Z) (channel event_type aggregate_type : string)
    (aggregate_id : Z) (payload : json) (now : Z) : storage unit :=
  id ← new_uuid;
  exec (fun db =>
    _ ← unique_key "domain_events_pkey" (is_row (domain_events db) id);
    _ ← foreign_key "domain_events_merchant_id_fkey" (is_row_or_null (merchants db) merchant_id);
    Ok (tt, on_domain_events <[id := outbox_row merchant_id channel event_type aggregate_type
                                       aggregate_id payload now]> db)).

(** The row [record_decision] proposes, and what a conflict updates. *)
Definition decision_row (id : Z) (command : SettlementCommand) (outcome reason : string)
    (allocated_raw remainder_raw : RawAmount) (now : Z) : DecisionRow := {|
  dr_id := id; dr_attempt_id := sc_attempt_id command; dr_merchant_id := sc_merchant_id command;
  dr_fiat_amount_minor := sc_fiat_amount_minor command; dr_required_policy := sc_policy_version command;
  dr_distinct_groups := default I32_MAX (i32_try_from (sc_independent_groups command));
  dr_had_own_node := sc_had_own_node command;
  dr_finality_state := TransferState_as_str (sc_finality_state command);
  dr_risk_decision := RiskDecision_as_str (sc_risk command);
  dr_risk_evaluation_id := sc_risk_evaluation_id command;
  dr_attestation_ids := sc_attestation_ids command;
  dr_match_strategy := MatchStrategy_as_str (sc_match_strategy command);
  dr_allocated_raw := as_u256 allocated_raw; dr_remainder_raw := as_u256 remainder_raw;
  dr_outcome := outcome; dr_decided_by := SETTLEMENT_ACTOR; dr_decided_reason := reason;
  dr_decided_at := now |}.
Definition update_decision (stored excluded : DecisionRow) : DecisionRow := {|
  dr_id := dr_id stored; dr_attempt_id := dr_attempt_id stored; dr_merchant_id := dr_merchant_id stored;
  dr_fiat_amount_minor := dr_fiat_amount_minor stored; dr_required_policy := dr_required_policy stored;
  dr_distinct_groups := dr_distinct_groups stored; dr_had_own_node := dr_had_own_node stored;
  dr_finality_state := dr_finality_state stored; dr_risk_decision := dr_risk_decision stored;
  dr_risk_evaluation_id := dr_risk_evaluation_id stored;
  dr_attestation_ids := dr_attestation_ids stored; dr_match_strategy := dr_match_strategy stored;
  dr_allocated_raw := dr_allocated_raw excluded; dr_remainder_raw := dr_remainder_raw excluded;
  dr_outcome := dr_outcome excluded; dr_decided_by := dr_decided_by stored;
  dr_decided_reason := dr_decided_reason excluded; dr_decided_at := dr_decided_at excluded |}.

Definition record_decision (command : SettlementCommand) (outcome reason : string)
    (allocated_raw remainder_raw : RawAmount) (now : Z) : storage unit :=
  id ← new_uuid;
  let row := decision_row id command outcome reason allocated_raw remainder_raw now in
  let key := (sc_payment_intent_id command, sc_transfer_id command) in
  exec (fun db =>
    _ ← check_constraint "payment_settlement_decisions_fiat_amount_minor_check"
          (0 <? dr_fiat_amount_minor row);
    match payment_settlement_decisions db !! key with
    | Some stored => Ok (tt, on_decisions <[key := update_decision stored row]> db)
    | None =>
        _ ← unique_key "payment_settlement_decisions_pkey"
              (bool_decide (map_Exists (fun _ d => dr_id d = id) (payment_settlement_decisions db)));
        _ ← foreign_key "payment_settlement_decisions_payment_intent_id_fkey"
              (is_row (payment_intents db) (sc_payment_intent_id command));
        _ ← foreign_key "payment_settlement_decisions_attempt_id_fkey"
              (is_row (payment_attempts db) (sc_attempt_id command));
        _ ← foreign_key "payment_settlement_decisions_transfer_id_fkey"
              (is_row (chain_transfers db) (sc_transfer_id command));
        _ ← foreign_key "payment_settlement_decisions_merchant_id_fkey"
              (is_row (merchants db) (sc_merchant_id command));
        _ ← foreign_key "payment_settlement_decisions_risk_evaluation_id_fkey"
              (is_row_or_null (payment_risk_evaluations db) (sc_risk_evaluation_id command));
        Ok (tt, on_decisions <[key := row]> db)
    end).

(** [SET processing_state = .., last_error = .., version = version + 1, updated_at = ..] *)
Definition processing_to (state : string) (last_error : string) (now : Z) (row : ProcessingRow)
    : result SqlError ProcessingRow :=
  version ← bigint_next (pr_version row);
  Ok {| pr_allocated_raw := pr_allocated_raw row; pr_processing_state := state;
        pr_last_error := Some last_error; pr_version := version; pr_updated_at := now |}.
Definition update_processing (transfer_id : Z) (where_ : ProcessingRow -> bool)
    (set_ : ProcessingRow -> result SqlError ProcessingRow) : statement Z := fun db =>
  '(rows, table) ← update_row transfer_id where_ set_ (chain_transfer_processing db);
  Ok (rows, on_processing (fun _ => table) db).

Definition finish_without_money (command : SettlementCommand) (processing_state outcome reason : string)
    (now : Z) : storage unit :=
  _ ← exec (update_processing (sc_transfer_id command) (fun _ => true)
              (processing_to processing_state reason now));
  _ ← record_decision command outcome reason RawAmount_ZERO RawAmount_ZERO now;
  insert_payment_event (Some (sc_merchant_id command)) (Some (sc_payment_intent_id command))
    (Some (sc_attempt_id command)) (Some (sc_transfer_id command))
    (if bool_decide (outcome = "manual_required") then "MANUAL_REQUIRED" else "RISK_HOLD")
    (Some reason)
    (JObject [("policy", JString (sc_policy_version command)); ("reason", JString reason)]) now.

(** ** Moving money *)

Definition PAYABLE_INTENT_STATES : list string :=
  ["awaiting_payment"; "partially_paid"; "risk_hold"; "expired"].
Definition ALLOCATABLE_ATTEMPT_STATES : list string := ["awaiting_payment"; "expired"].

Definition binding_refused (error : SqlError) : RepositoryError :=
  match error with
  | SqlViolation code _ =>
      if bool_decide (code = "23503")
      then TransitionRefused "the transfer is not at the attempt's collector" else unavailable error
  | _ => unavailable error
  end.

Definition require_one_row (rows : Z) (what : string) : result RepositoryError unit :=
  if rows =? 1 then Ok tt else Err (TransitionRefused what).

(** The foreign keys of an allocation or a claim. *)
Definition bound_to_collector (command : SettlementCommand) (attempt : AttemptRow) (db : Database)
    : result SqlError unit :=
  _ ← foreign_key "payment_intent_id_fkey" (is_row (payment_intents db) (sc_payment_intent_id command));
  _ ← foreign_key "merchant_id_fkey" (is_row (merchants db) (sc_merchant_id command));
  foreign_key "transfer_collector_fk"
    (match chain_transfers db !! sc_transfer_id command with
     | Some transfer => tr_collector_address_id transfer =? tt_collector_address_id attempt
     | None => false
     end).

Definition insert_claim (command : SettlementCommand) (now : Z) : statement Z := fun db =>
  match payment_attempts db !! sc_attempt_id command with
  | None => Ok (0, db)
  | Some attempt =>
      if is_row (chain_transfer_intent_claims db) (sc_transfer_id command) then Ok (0, db)
      else
        _ ← bound_to_collector command attempt db;
        Ok (1, on_claims <[sc_transfer_id command := {|
          cr_payment_intent_id := sc_payment_intent_id command; cr_attempt_id := sc_attempt_id command;
          cr_merchant_id := sc_merchant_id command;
          cr_match_strategy := MatchStrategy_as_str (sc_match_strategy command);
          cr_claimed_at := now; cr_collector_address_id := tt_collector_address_id attempt |}]> db)
  end.

Definition claim_transfer (command : SettlementCommand) (now : Z) : storage bool :=
  _ ← eff_map_err binding_refused (run (insert_claim command now));
  owner ← fetch_one (fun db =>
            cr_payment_intent_id <$> (chain_transfer_intent_claims db !! sc_transfer_id command));
  if owner =? sc_payment_intent_id command then mret true
  else
    _ ← exec (update_processing (sc_transfer_id command) (fun _ => true)
                (processing_to "held" "claimed_by_another_intent" now));
    _ ← record_decision command "rejected" "claimed_by_another_intent" RawAmount_ZERO RawAmount_ZERO now;
    mret false.

(** [UPDATE payment_attempts .. WHERE id AND payment_intent_id AND status = ANY(..)] *)
Definition update_attempt (command : SettlementCommand) (set_ : AttemptRow -> AttemptRow)
    : statement Z := fun db =>
  '(rows, table) ← update_row (sc_attempt_id command)
      (fun attempt => (tt_payment_intent_id attempt =? sc_payment_intent_id command)
                      && bool_decide (tt_status attempt ∈ ALLOCATABLE_ATTEMPT_STATES))
      (fun attempt => Ok (set_ attempt)) (payment_attempts db);
  Ok (rows, on_attempts (fun _ => table) db).
Definition attempt_with (status : string) (now : Z) (attempt : AttemptRow) : AttemptRow := {|
  tt_payment_intent_id := tt_payment_intent_id attempt; tt_merchant_id := tt_merchant_id attempt;
  tt_quote_id := tt_quote_id attempt; tt_collector_address_id := tt_collector_address_id attempt;
  tt_expected_amount_raw := tt_expected_amount_raw attempt;
  tt_memo_reference := tt_memo_reference attempt; tt_quote_expires_at := tt_quote_expires_at attempt;
  tt_late_payment_until := tt_late_payment_until attempt; tt_status := status;
  tt_created_at := tt_created_at attempt; tt_updated_at := now;
  tt_checkout_token := tt_checkout_token attempt |}.

Definition intent_with (status : string) (version now : Z) (intent : IntentRow) : IntentRow := {|
  ir_merchant_id := ir_merchant_id intent; ir_amount_minor := ir_amount_minor intent;
  ir_currency := ir_currency intent; ir_status := status; ir_reference := ir_reference intent;
  ir_description := ir_description intent; ir_metadata := ir_metadata intent; ir_version := version;
  ir_created_at := ir_created_at intent; ir_updated_at := now |}.
Definition update_intent (command : SettlementCommand) (status : string) (now : Z)
    : statement Z := fun db =>
  '(rows, table) ← update_row (sc_payment_intent_id command)
      (fun intent => (ir_merchant_id intent =? sc_merchant_id command)
                     && bool_decide (ir_status intent ∈ PAYABLE_INTENT_STATES))
      (fun intent => version ← bigint_next (ir_version intent);
        Ok (intent_with status version now intent)) (payment_intents db);
  Ok (rows, on_intents (fun _ => table) db).

Definition claim_fulfillment (command : SettlementCommand) (now : Z) : statement Z := fun db =>
  if is_row (payment_fulfillments db) (sc_payment_intent_id command) then Ok (0, db)
  else
    _ ← foreign_key "payment_fulfillments_payment_intent_id_fkey"
          (is_row (payment_intents db) (sc_payment_intent_id command));
    _ ← foreign_key "payment_fulfillments_merchant_id_fkey" (is_row (merchants db) (sc_merchant_id command));
    Ok (1, on_fulfillments <[sc_payment_intent_id command := {|
      fr_merchant_id := sc_merchant_id command; fr_status := "claimed"; fr_claimed_at := now;
      fr_attempts := 0 |}]> db).

Definition uuid_json (id : Z) : json := JString (uuid_to_string id).

Definition advance_to_paid (command : SettlementCommand) (now : Z) : storage unit :=
  attempt ← exec (update_attempt command (attempt_with "settled" now));
  _ ← lift (require_one_row attempt "the attempt is not open for payment");
  intent ← exec (update_intent command "paid" now);
  _ ← lift (require_one_row intent "the payment intent is not payable");
  claimed ← exec (claim_fulfillment command now);
  _ ← insert_payment_event (Some (sc_merchant_id command)) (Some (sc_payment_intent_id command))
        (Some (sc_attempt_id command)) (Some (sc_transfer_id command)) "SETTLED"
        (Some (MatchStrategy_as_str (sc_match_strategy command)))
        (JObject [("had_own_node", JBool (sc_had_own_node command));
                  ("independent_groups", JNumber (dec_unsigned (sc_independent_groups command)));
                  ("policy", JString (sc_policy_version command));
                  ("risk", JString (RiskDecision_as_str (sc_risk command)))]) now;
  if claimed =? 1
  then enqueue_outbox (Some (sc_merchant_id command)) "webhook" "payment_intent.paid" "payment_intent"
         (sc_payment_intent_id command)
         (JObject [("attempt_id", uuid_json (sc_attempt_id command));
                   ("payment_intent_id", uuid_json (sc_payment_intent_id command));
                   ("transfer_id", uuid_json (sc_transfer_id command))]) now
  else mret tt.

Definition advance_to_partially_paid (command : SettlementCommand) (now : Z) : storage unit :=
  attempt ← exec (update_attempt command (fun attempt => attempt_with (tt_status attempt) now attempt));
  _ ← lift (require_one_row attempt "the attempt is not open for payment");
  intent ← exec (update_intent command "partially_paid" now);
  _ ← lift (require_one_row intent "the payment intent is not payable");
  _ ← insert_payment_event (Some (sc_merchant_id command)) (Some (sc_payment_intent_id command))
        (Some (sc_attempt_id command)) (Some (sc_transfer_id command)) "PARTIAL"
        (Some (MatchStrategy_as_str (sc_match_strategy command)))
        (JObject [("policy", JString (sc_policy_version command))]) now;
  enqueue_outbox (Some (sc_merchant_id command)) "webhook" "payment_intent.partially_paid"
    "payment_intent" (sc_payment_intent_id command)
    (JObject [("payment_intent_id", uuid_json (sc_payment_intent_id command));
              ("transfer_id", uuid_json (sc_transfer_id command))]) now.

Definition record_remainder (command : SettlementCommand) (remainder_raw : RawAmount) (now : Z)
    : storage unit :=
  _ ← insert_payment_event (Some (sc_merchant_id command)) (Some (sc_payment_intent_id command))
        (Some (sc_attempt_id command)) (Some (sc_transfer_id command)) "OVERPAID"
        (Some "overpay_remainder")
        (JObject [("remainder_raw", JString (RawAmount_to_string remainder_raw))]) now;
  enqueue_outbox (Some (sc_merchant_id command)) "webhook" "OVERPAID" "payment_intent"
    (sc_payment_intent_id command)
    (JObject [("payment_intent_id", uuid_json (sc_payment_intent_id command));
              ("remainder_raw", JString (RawAmount_to_string remainder_raw));
              ("transfer_id", uuid_json (sc_transfer_id command))]) now.

(** The guarded addition to the allocated total: the new total, or no row. *)
Definition add_allocated (transfer_id allocate_raw : Z) (state : string) (now : Z)
    : statement (option Z) := fun db =>
  match chain_transfer_processing db !! transfer_id, chain_transfers db !! transfer_id with
  | Some row, Some transfer =>
      if pr_allocated_raw row + allocate_raw <=? tr_amount_raw transfer then
        version ← bigint_next (pr_version row);
        let row := {| pr_allocated_raw := pr_allocated_raw row + allocate_raw;
                      pr_processing_state := state; pr_last_error := pr_last_error row;
                      pr_version := version; pr_updated_at := now |} in
        Ok (Some (pr_allocated_raw row), on_processing <[transfer_id := row]> db)
      else Ok (None, db)
  | _, _ => Ok (None, db)
  end.

Definition insert_allocation (id : Z) (command : SettlementCommand) (allocate_raw : Z)
    (reason : string) (now : Z) : statement Z := fun db =>
  match payment_attempts db !! sc_attempt_id command with
  | None => Ok (0, db)
  | Some attempt =>
      _ ← check_constraint "payment_allocations_allocated_raw_check" (0 <? allocate_raw);
      let key := (sc_attempt_id command, sc_transfer_id command) in
      if is_row (payment_allocations db) key then Ok (0, db)
      else
        _ ← unique_key "payment_allocations_pkey"
              (bool_decide (map_Exists (fun _ a => ar_id a = id) (payment_allocations db)));
        _ ← bound_to_collector command attempt db;
        Ok (1, on_allocations <[key := {|
          ar_id := id; ar_payment_intent_id := sc_payment_intent_id command;
          ar_merchant_id := sc_merchant_id command; ar_allocated_raw := allocate_raw;
          ar_allocated_by := SETTLEMENT_ACTOR; ar_reason := reason; ar_created_at := now;
          ar_collector_address_id := tt_collector_address_id attempt |}]> db)
  end.

Definition allocate_and_finish (command : SettlementCommand) (allocate_raw remainder_raw : RawAmount)
    (outcome : string) (now : Z) : storage SettlementRecord :=
  owned ← claim_transfer command now;
  if negb owned then mret RecForeignClaim
  else
    allocated ← exec (add_allocated (sc_transfer_id command) (as_u256 allocate_raw)
                        (if bool_decide (outcome = "settled") then "settled" else "matched") now);
    match allocated with
    | None => lift (Err (corrupt "an allocation would have exceeded the transfer it belongs to"))
    | Some _ =>
        id ← new_uuid;
        inserted ← eff_map_err binding_refused (run (insert_allocation id command (as_u256 allocate_raw)
          (if bool_decide (outcome = "settled") then "exact"
           else if bool_decide (outcome = "overpaid") then "overpay_remainder" else "partial") now));
        if inserted =? 0 then mret RecAlreadyProcessed
        else
          record ← (if bool_decide (outcome = "settled") || bool_decide (outcome = "overpaid") then
                      _ ← advance_to_paid command now;
                      mret (if bool_decide (outcome = "overpaid") then RecOverpaid else RecSettled)
                    else
                      _ ← advance_to_partially_paid command now; mret RecPartiallyAllocated);
          _ ← record_decision command outcome (MatchStrategy_as_str (sc_match_strategy command))
                allocate_raw remainder_raw now;
          _ ← (if RawAmount_is_zero remainder_raw then mret tt
               else record_remainder command remainder_raw now);
          mret record
    end.

Definition apply_outcome (command : SettlementCommand) (now : Z) : storage SettlementRecord :=
  match sc_outcome command with
  | Hold reason =>
      _ ← finish_without_money command "held" "held" (HoldReason_as_str reason) now; mret RecHeld
  | ManualRequired reason =>
      _ ← finish_without_money command "held" "manual_required" (ManualReason_as_str reason) now;
      mret RecManualRequired
  | Settle allocate_raw => allocate_and_finish command allocate_raw RawAmount_ZERO "settled" now
  | Partial allocate_raw => allocate_and_finish command allocate_raw RawAmount_ZERO "partial" now
  | Overpaid allocate_raw remainder_raw =>
      allocate_and_finish command allocate_raw remainder_raw "overpaid" now
  end.

(** ** The transactions *)

Definition park_refused (lease : ComponentLease) (command : SettlementCommand) (refusal : string)
    : storage SettlementRecord :=
  _ ← eff_map_err unavailable begin_transaction;
  _ ← hold_lease lease;
  state ← exec (select (fun db => pr_processing_state <$> (chain_transfer_processing db !! sc_transfer_id command)));
  state ← lift (ok_or state (corrupt "a canonical transfer has no processing row"));
  if negb (bool_decide (state = "pending")) then
    _ ← eff_map_err unavailable commit; mret RecAlreadyProcessed
  else
    let reason := String.append "payment_not_payable: " refusal in
    now ← read_now_utc;
    _ ← finish_without_money command "held" "manual_required" reason now;
    _ ← eff_map_err unavailable commit;
    mret RecManualRequired.

Definition pg_settle (lease : ComponentLease) (command : SettlementCommand) : storage SettlementRecord :=
  _ ← eff_map_err unavailable begin_transaction;
  _ ← hold_lease lease;
  processing ← exec (select (fun db =>
                 match chain_transfer_processing db !! sc_transfer_id command,
                       chain_transfers db !! sc_transfer_id command with
                 | Some row, Some _ => Some (pr_processing_state row)
                 | _, _ => None
                 end));
  state ← lift (ok_or processing (corrupt "a canonical transfer has no processing row"));
  if negb (bool_decide (state = "pending")) then
    _ ← eff_map_err unavailable commit; mret RecAlreadyProcessed
  else
    now ← read_now_utc;
    outcome ← attempt (apply_outcome command now);
    match outcome with
    | Ok record => _ ← eff_map_err unavailable commit; mret record
    | Err (TransitionRefused reason) =>
        _ ← eff_map_err unavailable rollback;
        park_refused lease command reason
    | Err error => lift (Err error)
    end.

(** The event of an unresolved transfer. *)
Definition unresolved_event (transfer : PendingTransfer) (unresolved : UnresolvedTransfer)
    : string * json :=
  let facts := pd_facts transfer in
  let amount := ("amount_raw", JString (RawAmount_to_string (tf_amount_raw facts))) in
  let id := ("transfer_id", uuid_json (tf_transfer_id facts)) in
  match unresolved with
  | UnresolvedAmbiguous attempt_ids =>
      ("AMBIGUOUS_MATCH",
       JObject [amount; ("attempt_ids", JArray (map uuid_json attempt_ids)); id])
  | UnresolvedUnmatched =>
      ("UNMATCHED_INBOUND", JObject [amount; ("block_time", odt_serialize (tf_block_time facts)); id])
  end.

Definition pg_record_unresolved (lease : ComponentLease) (transfer : PendingTransfer)
    (unresolved : UnresolvedTransfer) : storage unit :=
  _ ← eff_map_err unavailable begin_transaction;
  _ ← hold_lease lease;
  now ← read_now_utc;
  let transfer_id := tf_transfer_id (pd_facts transfer) in
  _ ← exec (update_processing transfer_id (fun row => bool_decide (pr_processing_state row = "pending"))
              (processing_to "unmatched" (UnresolvedTransfer_as_str unresolved) now));
  let '(event_type, payload) := unresolved_event transfer unresolved in
  _ ← insert_payment_event None None None (Some transfer_id) event_type
        (Some (UnresolvedTransfer_as_str unresolved)) payload now;
  _ ← enqueue_outbox None "operator" event_type "chain_transfer" transfer_id payload now;
  eff_map_err unavailable commit.

(** [impl SettlementRepository for PostgresRepository] *)
#[export] Instance postgres_settlement : SettlementRepository (Session R) := {|
  transfers_awaiting_settlement := pg_transfers_awaiting_settlement;
  match_candidates := pg_match_candidates;
  attempt_snapshot := pg_attempt_snapshot;
  find_settlement_policy := pg_find_settlement_policy;
  latest_risk := pg_latest_risk;
  settle := pg_settle;
  record_unresolved := pg_record_unresolved |}.

(** For an operator's decision: the same money transaction, signed by the
    operator. *)
Definition sign_allocation (command : SettlementCommand) (actor : string) : statement Z := fun db =>
  '(rows, table) ← update_row (sc_attempt_id command, sc_transfer_id command) (fun _ => true)
      (fun row => Ok {| ar_id := ar_id row; ar_payment_intent_id := ar_payment_intent_id row;
         ar_merchant_id := ar_merchant_id row; ar_allocated_raw := ar_allocated_raw row;
         ar_allocated_by := actor; ar_reason := "manual"; ar_created_at := ar_created_at row;
         ar_collector_address_id := ar_collector_address_id row |}) (payment_allocations db);
  Ok (rows, on_allocations (fun _ => table) db).
Definition sign_decision (command : SettlementCommand) (actor reason : string) : statement Z := fun db =>
  '(rows, table) ← update_row (sc_payment_intent_id command, sc_transfer_id command) (fun _ => true)
      (fun row => Ok {| dr_id := dr_id row; dr_attempt_id := dr_attempt_id row;
         dr_merchant_id := dr_merchant_id row; dr_fiat_amount_minor := dr_fiat_amount_minor row;
         dr_required_policy := dr_required_policy row; dr_distinct_groups := dr_distinct_groups row;
         dr_had_own_node := dr_had_own_node row; dr_finality_state := dr_finality_state row;
         dr_risk_decision := dr_risk_decision row; dr_risk_evaluation_id := dr_risk_evaluation_id row;
         dr_attestation_ids := dr_attestation_ids row; dr_match_strategy := dr_match_strategy row;
         dr_allocated_raw := dr_allocated_raw row; dr_remainder_raw := dr_remainder_raw row;
         dr_outcome := dr_outcome row; dr_decided_by := actor; dr_decided_reason := reason;
         dr_decided_at := dr_decided_at row |}) (payment_settlement_decisions db);
  Ok (rows, on_decisions (fun _ => table) db).

Definition manual_allocate_and_finish (command : SettlementCommand)
    (allocate_raw remainder_raw : RawAmount) (outcome actor reason : string) (now : Z)
    : storage SettlementRecord :=
  result ← allocate_and_finish command allocate_raw remainder_raw outcome now;
  match result with
  | RecForeignClaim | RecAlreadyProcessed => mret result
  | _ =>
      _ ← exec (sign_allocation command actor);
      _ ← exec (sign_decision command actor reason);
      mret result
  end.
End repository.
