(* ===== verification/SettlementBooks.v ===== *)
(** * The books

    What the settlement transactions of storage do to the tables in which
    money is accounted for, as steps of the committed state, and the balance
    every one of them keeps: what is allocated of a transfer is what its
    allocations add up to and never more than what arrived, a transfer pays
    one intent, and an intent is paid, fulfilled and announced once. *)

From Stdlib Require Import Ascii String Strings.Byte.
From stdpp Require Import gmap sorting.
From S2P Require Import Prelude RustStd Externals Effects Money Chain Observations Settlement.
From S2P Require Import SettlementService Database StorageSettlement.

Local Open Scope Z_scope.

(** * What the statements do *)

Lemma is_row_true {K V} `{Countable K} (m : gmap K V) k : is_row m k = true <-> is_Some (m !! k).
Proof. apply bool_decide_eq_true. Qed.
Lemma is_row_false {K V} `{Countable K} (m : gmap K V) k : is_row m k = false <-> m !! k = None.
Proof. unfold is_row. by rewrite bool_decide_eq_false, eq_None_not_Some. Qed.

(** A keyed update that touched a row. *)
Lemma update_row_Ok {K V} `{Countable K} k where_ set_ (m : gmap K V) rows m' :
  update_row k where_ set_ m = Ok (rows, m') ->
  (rows = 0 /\ m' = m /\ forall row, m !! k = Some row -> where_ row = false) \/
  exists row row', m !! k = Some row /\ where_ row = true /\ set_ row = Ok row'
    /\ rows = 1 /\ m' = <[k := row']> m.
Proof.
  unfold update_row. intros Hu. destruct (m !! k) as [row|] eqn:Hk; [|left; by simplify_eq].
  destruct (where_ row) eqn:Hw; [|left; simplify_eq; split_and!; [done..|]; by intros ? [= <-]].
  inv_res. right. by exists row, a.
Qed.

(** Only the notes changed: decisions and payment events, which no rule reads
    back. *)
Definition noted (db db' : Database) : Prop :=
  exists decisions events, db' = on_decisions (fun _ => decisions) (on_payment_events (fun _ => events) db).

Lemma noted_refl db : noted db db.
Proof. exists (payment_settlement_decisions db), (payment_events db). by destruct db. Qed.
Lemma noted_trans db1 db2 db3 : noted db1 db2 -> noted db2 db3 -> noted db1 db3.
Proof. intros (d & e & ->) (d' & e' & ->). by exists d', e'. Qed.
Lemma noted_decisions f db : noted db (on_decisions f db).
Proof. exists (f (payment_settlement_decisions db)), (payment_events db). by destruct db. Qed.
Lemma noted_events f db : noted db (on_payment_events f db).
Proof. exists (payment_settlement_decisions db), (f (payment_events db)). by destruct db. Qed.
#[export] Hint Resolve noted_refl noted_decisions noted_events : core.

(** How many events of a type were ever queued for an aggregate. *)
Definition announcements (type : string) (aggregate : Z) (db : Database) : nat :=
  size (filter (fun '(_, e) => de_event_type e = type /\ de_aggregate_id e = aggregate)
          (domain_events db)).

Lemma announcements_queue type aggregate id e db :
  domain_events db !! id = None ->
  announcements type aggregate (on_domain_events <[id := e]> db) =
  (announcements type aggregate db
   + if bool_decide (de_event_type e = type /\ de_aggregate_id e = aggregate) then 1 else 0)%nat.
Proof.
  intros Hid. unfold announcements. cbn [domain_events on_domain_events].
  rewrite map_filter_insert. case_bool_decide as Hp.
  - rewrite decide_True by done. rewrite map_size_insert_None; [lia|].
    apply map_lookup_filter_None. left. done.
  - rewrite decide_False by done. rewrite delete_id by done. lia.
Qed.

Abbreviation paid_events := (announcements "payment_intent.paid").

(** Events were queued, and nothing else of substance changed; [news j] counts
    the new announcements that intent [j] is paid. *)
Definition queued (news : Z -> nat) (db db' : Database) : Prop :=
  exists events, noted (on_domain_events (fun _ => events) db) db'
    /\ domain_events db ⊆ events
    /\ forall j, paid_events j db' = (paid_events j db + news j)%nat.

Lemma noted_queued db db' : noted db db' -> queued (fun _ => 0%nat) db db'.
Proof.
  intros Hn. exists (domain_events db). split_and!; [by destruct db|done|].
  intros j. destruct Hn as (d & e & ->). unfold announcements. simpl. lia.
Qed.

Lemma queued_trans f g db1 db2 db3 :
  queued f db1 db2 -> queued g db2 db3 -> queued (fun j => f j + g j)%nat db1 db3.
Proof.
  intros (e1 & (d & p & ->) & Hsub & Hf) (e2 & (d' & p' & ->) & Hsub' & Hg).
  exists e2. split_and!; [by exists d', p'|by etransitivity|]. intros j. rewrite Hg, Hf. lia.
Qed.

Lemma queued_weaken f g db db' : queued f db db' -> (forall j, f j = g j) -> queued g db db'.
Proof. intros (e & ? & ? & Hf) Hfg. exists e. split_and!; [done..|]. intros j. by rewrite <- Hfg. Qed.

Lemma queued_insert id e db :
  domain_events db !! id = None ->
  queued (fun j => if bool_decide (de_event_type e = "payment_intent.paid" /\ de_aggregate_id e = j)
                   then 1 else 0)%nat
    db (on_domain_events <[id := e]> db).
Proof.
  intros Hid. exists (<[id := e]> (domain_events db)). split_and!.
  - destruct db. apply noted_refl.
  - by apply insert_subseteq.
  - intros j. by apply announcements_queue.
Qed.

(** A transfer parked without touching its money. *)
Definition parked (transfer_id : Z) (state : string) (db db' : Database) : Prop :=
  exists row row', chain_transfer_processing db !! transfer_id = Some row
    /\ pr_allocated_raw row' = pr_allocated_raw row /\ pr_processing_state row' = state
    /\ noted (on_processing <[transfer_id := row']> db) db'.

Section specs.
Context {R : Type} `{Postgres R} `{U256Lib} `{UuidLib} `{TimeSerde}.

Lemma within_bind_exec {A B} (st : statement A) (k : A -> storage (R := R) B) db now Q :
  (forall a db', st db = Ok (a, db') -> within db' now (k a) Q) ->
  within db now (mbind k (exec st)) Q.
Proof. apply (within_bind_run_at unavailable (fun _ => st)). Qed.
Lemma ends_bind_exec {A B} (st : statement A) (k : A -> storage (R := R) B) db0 db now T :
  (forall a db', st db = Ok (a, db') -> ends db0 db' now (k a) T) ->
  ends db0 db now (mbind k (exec st)) T.
Proof. apply (ends_bind_run_at unavailable (fun _ => st)). Qed.
Lemma within_exec {A} (st : statement A) db now (Q : A -> Database -> Prop) :
  (forall a db', st db = Ok (a, db') -> Q a db') -> within db now (exec (R := R) st) Q.
Proof. intros HQ. by apply within_map_err, within_run. Qed.

Lemma hold_lease_spec lease db now :
  within db now (hold_lease (R := R) lease) (fun _ db' => db' = db
    /\ exists row, component_leases db !! cl_component lease = Some row
         /\ lr_holder row = cl_holder lease /\ lr_fence_token row = cl_fence_token lease
         /\ now < lr_lease_until row).
Proof.
  apply within_bind_run_at. intros held db' [= <- <-]. case_match eqn:Hheld; [|by apply within_lift].
  apply within_ret. split; [done|]. case_match; [|done]. bool_to_prop. by eexists.
Qed.

Lemma record_decision_spec command outcome reason allocated remainder t db now :
  within db now (record_decision (R := R) command outcome reason allocated remainder t)
    (fun _ db' => noted db db').
Proof.
  apply within_bind_uuid. intros id. apply within_exec. intros [] db'.
  unfold check_constraint, unique_key, foreign_key. intros Hst. inv_res; auto.
Qed.

Lemma insert_payment_event_spec m i a tr type reason payload t db now :
  within db now (insert_payment_event (R := R) m i a tr type reason payload t)
    (fun _ db' => noted db db').
Proof.
  apply within_bind_uuid. intros id. apply within_exec. intros [] db'.
  unfold unique_key, foreign_key. intros Hst. inv_res; auto.
Qed.

Lemma enqueue_outbox_spec m channel type aggregate_type aggregate payload t db now :
  within db now (enqueue_outbox (R := R) m channel type aggregate_type aggregate payload t)
    (fun _ db' => exists id, domain_events db !! id = None
       /\ db' = on_domain_events <[id := outbox_row m channel type aggregate_type aggregate payload t]> db).
Proof.
  apply within_bind_uuid. intros id. apply within_exec. intros [] db'.
  unfold unique_key, foreign_key. intros Hst.
  destruct (is_row (domain_events db) id) eqn:Hid; [done|]. apply is_row_false in Hid.
  inv_res. by exists id.
Qed.

Lemma update_processing_spec t where_ set_ row db n db' :
  chain_transfer_processing db !! t = Some row -> where_ row = true ->
  update_processing t where_ set_ db = Ok (n, db') ->
  exists row', set_ row = Ok row' /\ n = 1 /\ db' = on_processing <[t := row']> db.
Proof.
  intros Hrow Hw Hst. unfold update_processing, update_row in Hst. rewrite Hrow, Hw in Hst.
  destruct (set_ row) as [row'|]; simpl in Hst; simplify_eq. by exists row'.
Qed.

Lemma processing_to_Ok state error t row row' :
  processing_to state error t row = Ok row' ->
  pr_allocated_raw row' = pr_allocated_raw row /\ pr_processing_state row' = state.
Proof. unfold processing_to. intros Hp. by inv_res. Qed.

Lemma finish_without_money_spec command state outcome reason t row db now :
  chain_transfer_processing db !! sc_transfer_id command = Some row ->
  within db now (finish_without_money (R := R) command state outcome reason t)
    (fun _ db' => parked (sc_transfer_id command) state db db').
Proof.
  intros Hrow. apply within_bind_exec. intros n db1 Hst.
  eapply update_processing_spec in Hst as (row' & Hset & _ & ->); [|done..].
  apply processing_to_Ok in Hset as [? ?].
  eapply within_bind; [apply record_decision_spec|]. intros [] db2 Hn2.
  eapply within_weaken; [apply insert_payment_event_spec|]. intros [] db3 Hn3.
  exists row, row'. split_and!; [done..|]. by eapply noted_trans.
Qed.

(** The claim of a transfer for the command's intent. *)
Definition owned_by (command : SettlementCommand) (db db' : Database) : Prop :=
  exists claim, cr_payment_intent_id claim = sc_payment_intent_id command
    /\ db' = on_claims <[sc_transfer_id command := claim]> db
    /\ (chain_transfer_intent_claims db !! sc_transfer_id command = Some claim
        \/ chain_transfer_intent_claims db !! sc_transfer_id command = None
           /\ is_Some (payment_attempts db !! sc_attempt_id command)).

Lemma on_claims_same t claim db :
  chain_transfer_intent_claims db !! t = Some claim -> on_claims <[t := claim]> db = db.
Proof. intros Hc. destruct db. unfold on_claims. simpl in *. by rewrite insert_id. Qed.

Lemma claim_transfer_spec command t row db now :
  chain_transfer_processing db !! sc_transfer_id command = Some row ->
  within db now (claim_transfer (R := R) command t)
    (fun owned db' =>
       if owned : bool then owned_by command db db'
       else (exists claim, chain_transfer_intent_claims db !! sc_transfer_id command = Some claim
              /\ cr_payment_intent_id claim <> sc_payment_intent_id command)
            /\ parked (sc_transfer_id command) "held" db db').
Proof.
  intros Hrow. apply (within_bind_run_at binding_refused (fun _ => insert_claim command t)).
  intros n db1 Hins. apply within_bind_exec. intros owner db2 Hsel.
  destruct (chain_transfer_intent_claims db1 !! sc_transfer_id command) as [claim|] eqn:Hclaim;
    simpl in Hsel; simplify_eq.
  assert (Hdb1 : (db2 = db /\ chain_transfer_intent_claims db !! sc_transfer_id command = Some claim)
    \/ (owned_by command db db2 /\ cr_payment_intent_id claim = sc_payment_intent_id command)).
  { unfold insert_claim in Hins.
    destruct (payment_attempts db !! _) as [attempt|] eqn:Hatt; [|simplify_eq; by left].
    destruct (is_row _ _) eqn:His; [simplify_eq; by left|].
    apply is_row_false in His. inv_res. right. unfold on_claims in Hclaim. simpl in Hclaim.
    rewrite lookup_insert_eq in Hclaim. simplify_eq/=. split; [|done].
    eexists. split_and!; [|done|right; split; [done|by eexists]]. done. }
  destruct (Z.eqb_spec (cr_payment_intent_id claim) (sc_payment_intent_id command)) as [Howner|Howner].
  - apply within_ret. destruct Hdb1 as [[-> Hc]|[? _]]; [|done].
    exists claim. split_and!; [done|by rewrite on_claims_same|by left].
  - destruct Hdb1 as [[-> Hc]|[_ ?]]; [|done].
    apply within_bind_exec. intros m db3 Hup.
    eapply update_processing_spec in Hup as (row' & Hset & _ & ->); [|done..].
    apply processing_to_Ok in Hset as [? ?].
    eapply within_bind; [apply record_decision_spec|]. intros [] db4 Hn4. apply within_ret.
    split; [by exists claim|]. by exists row, row'.
Qed.

Lemma enqueue_other_spec m channel type aggregate_type aggregate payload t db now :
  type <> "payment_intent.paid" ->
  within db now (enqueue_outbox (R := R) m channel type aggregate_type aggregate payload t)
    (fun _ db' => queued (fun _ => 0%nat) db db').
Proof.
  intros Htype. eapply within_weaken; [apply enqueue_outbox_spec|]. intros [] db' (id & Hid & ->).
  eapply queued_weaken; [by apply queued_insert|]. intros j. simpl.
  by rewrite bool_decide_eq_false_2 by (by intros [? _]).
Qed.

(** The obligation moved: an open attempt of the intent took the money, and
    the payable intent is now [paid] or partially paid.  The first payment in
    full takes the fulfilment and announces it. *)
Definition advanced (command : SettlementCommand) (paid : bool) (t : Z) (db db' : Database) : Prop :=
  exists attempt intent intent' fulfillments,
    payment_attempts db !! sc_attempt_id command = Some attempt
    /\ tt_payment_intent_id attempt = sc_payment_intent_id command
    /\ tt_status attempt ∈ ALLOCATABLE_ATTEMPT_STATES
    /\ payment_intents db !! sc_payment_intent_id command = Some intent
    /\ ir_merchant_id intent = sc_merchant_id command /\ ir_status intent ∈ PAYABLE_INTENT_STATES
    /\ (exists version, intent' = intent_with (if paid then "paid" else "partially_paid") version t intent)
    /\ ir_status intent' = (if paid then "paid" else "partially_paid")
    /\ (forall j, is_Some (fulfillments !! j) <->
          is_Some (payment_fulfillments db !! j) \/ paid = true /\ j = sc_payment_intent_id command)
    /\ queued (fun j => if bool_decide (paid = true /\ j = sc_payment_intent_id command
                                        /\ payment_fulfillments db !! j = None) then 1 else 0)%nat
         (on_fulfillments (fun _ => fulfillments)
            (on_intents <[sc_payment_intent_id command := intent']>
               (on_attempts <[sc_attempt_id command :=
                  attempt_with (if paid then "settled" else tt_status attempt) t attempt]> db))) db'.

Lemma update_attempt_spec command set_ n db db' :
  update_attempt command set_ db = Ok (n, db') -> n = 1 ->
  exists attempt, payment_attempts db !! sc_attempt_id command = Some attempt
    /\ tt_payment_intent_id attempt = sc_payment_intent_id command
    /\ tt_status attempt ∈ ALLOCATABLE_ATTEMPT_STATES
    /\ db' = on_attempts <[sc_attempt_id command := set_ attempt]> db.
Proof.
  unfold update_attempt. intros Hst ->. destruct (update_row _ _ _ _) as [[rows table]|] eqn:Hu;
    simpl in Hst; simplify_eq.
  apply update_row_Ok in Hu as [(? & _)|(row & row' & Hrow & Hw & [= <-] & _ & ->)]; [done|].
  bool_to_prop. by exists row.
Qed.

Lemma update_intent_spec command status t n db db' :
  update_intent command status t db = Ok (n, db') -> n = 1 ->
  exists intent intent', payment_intents db !! sc_payment_intent_id command = Some intent
    /\ ir_merchant_id intent = sc_merchant_id command /\ ir_status intent ∈ PAYABLE_INTENT_STATES
    /\ (exists version, intent' = intent_with status version t intent) /\ ir_status intent' = status
    /\ db' = on_intents <[sc_payment_intent_id command := intent']> db.
Proof.
  unfold update_intent. intros Hst ->. destruct (update_row _ _ _ _) as [[rows table]|] eqn:Hu;
    simpl in Hst; simplify_eq.
  apply update_row_Ok in Hu as [(? & _)|(row & row' & Hrow & Hw & Hset & _ & ->)]; [done|].
  bool_to_prop. exists row, row'.
  destruct (bigint_next _) as [v|]; simpl in Hset; simplify_eq. split_and!; [done..|by eexists|done|done].
Qed.

Lemma require_one_row_Ok rows what u : require_one_row rows what = Ok u -> rows = 1.
Proof. unfold require_one_row. by destruct (Z.eqb_spec rows 1). Qed.

Lemma advance_to_paid_spec command t db now :
  within db now (advance_to_paid (R := R) command t) (fun _ db' => advanced command true t db db').
Proof.
  apply within_bind_exec. intros n db1 Ha. apply within_bind_lift. intros _ Hn%require_one_row_Ok.
  eapply update_attempt_spec in Ha as (attempt & Hat & Hai & Has & ->); [|done]. clear Hn n.
  apply within_bind_exec. intros n db2 Hi. apply within_bind_lift. intros _ Hn%require_one_row_Ok.
  eapply update_intent_spec in Hi as (intent & intent' & Hin & Him & Hst & Him' & Hst' & ->); [|done].
  clear Hn n. apply within_bind_exec. intros n db3 Hf.
  set (base := on_intents _ _) in *. change (payment_intents db !! sc_payment_intent_id command = Some intent) in Hin.
  eapply within_bind; [apply insert_payment_event_spec|]. intros [] db4 Hn4.
  unfold claim_fulfillment in Hf. destruct (is_row _ _) eqn:Hrow.
  - apply is_row_true in Hrow. simplify_eq. simpl. apply within_ret.
    exists attempt, intent, intent', (payment_fulfillments db). split_and!; try done.
    + intros j. split; [by left|]. by intros [?|[_ ->]].
    + eapply queued_weaken; [by apply noted_queued|].
      intros j. rewrite bool_decide_eq_false_2; [done|]. intros (_ & -> & Hnone).
      change (is_Some (payment_fulfillments db !! sc_payment_intent_id command)) in Hrow.
      rewrite Hnone in Hrow. by destruct Hrow.
  - apply is_row_false in Hrow. inv_res. simpl.
    eapply within_weaken; [apply enqueue_outbox_spec|]. intros [] db5 (id & Hid & ->).
    exists attempt, intent, intent', (<[sc_payment_intent_id command :=
      mkFulfillmentRow (sc_merchant_id command) "claimed" t 0]> (payment_fulfillments db)).
    split_and!; try done.
    + intros j. rewrite lookup_insert_is_Some'.
      split; [intros [<-|?]|intros [?|[_ ->]]]; auto.
    + eapply queued_weaken; [eapply queued_trans; [apply noted_queued, Hn4|by apply queued_insert]|].
      intros j. simpl. repeat case_bool_decide; try done; naive_solver.
Qed.

Lemma advance_to_partially_paid_spec command t db now :
  within db now (advance_to_partially_paid (R := R) command t)
    (fun _ db' => advanced command false t db db').
Proof.
  apply within_bind_exec. intros n db1 Ha. apply within_bind_lift. intros _ Hn%require_one_row_Ok.
  eapply update_attempt_spec in Ha as (attempt & Hat & Hai & Has & ->); [|done]. clear Hn n.
  apply within_bind_exec. intros n db2 Hi. apply within_bind_lift. intros _ Hn%require_one_row_Ok.
  eapply update_intent_spec in Hi as (intent & intent' & Hin & Him & Hst & Him' & Hst' & ->); [|done].
  clear Hn n. eapply within_bind; [apply insert_payment_event_spec|]. intros [] db4 Hn4.
  eapply within_weaken; [by apply enqueue_other_spec|]. intros [] db5 Hq.
  exists attempt, intent, intent', (payment_fulfillments db). split_and!; try done.
  - intros j. split; [by left|]. by intros [?|[? _]].
  - eapply queued_weaken; [eapply queued_trans; [by apply noted_queued|done]|].
    done.
Qed.

(** Money credited: the transfer is claimed for the intent, its allocated
    total grows by the amount and stays within what arrived, a new allocation
    at the collector both sides share says so, and the obligation moves. *)
Definition credited (command : SettlementCommand) (amount : Z) (state : string) (paid : bool) (t : Z)
    (db db' : Database) : Prop :=
  exists row row' transfer attempt allocation db1 db2,
    owned_by command db db1
    /\ chain_transfer_processing db !! sc_transfer_id command = Some row
    /\ chain_transfers db !! sc_transfer_id command = Some transfer
    /\ payment_attempts db !! sc_attempt_id command = Some attempt
    /\ 0 < amount /\ pr_allocated_raw row + amount <= tr_amount_raw transfer
    /\ pr_allocated_raw row' = pr_allocated_raw row + amount /\ pr_processing_state row' = state
    /\ payment_allocations db !! (sc_attempt_id command, sc_transfer_id command) = None
    /\ ar_allocated_raw allocation = amount
    /\ ar_payment_intent_id allocation = sc_payment_intent_id command
    /\ ar_collector_address_id allocation = tt_collector_address_id attempt
    /\ tr_collector_address_id transfer = tt_collector_address_id attempt
    /\ ar_reason allocation <> "manual"
    /\ advanced command paid t
         (on_allocations <[(sc_attempt_id command, sc_transfer_id command) := allocation]>
            (on_processing <[sc_transfer_id command := row']> db1)) db2
    /\ queued (fun _ => 0%nat) db2 db'.

Lemma add_allocated_spec t amount state now db total db' :
  add_allocated t amount state now db = Ok (Some total, db') ->
  exists row row' transfer, chain_transfer_processing db !! t = Some row
    /\ chain_transfers db !! t = Some transfer
    /\ pr_allocated_raw row + amount <= tr_amount_raw transfer
    /\ pr_allocated_raw row' = pr_allocated_raw row + amount /\ pr_processing_state row' = state
    /\ db' = on_processing <[t := row']> db.
Proof.
  unfold add_allocated. intros Hst.
  destruct (chain_transfer_processing db !! t) as [row|] eqn:Hrow; [|done].
  destruct (chain_transfers db !! t) as [transfer|] eqn:Htr; [|done].
  destruct (Z.leb_spec (pr_allocated_raw row + amount) (tr_amount_raw transfer)); [|done].
  destruct (bigint_next _) as [v|]; simpl in Hst; simplify_eq.
  exists row, (mkProcessingRow (pr_allocated_raw row + amount) state (pr_last_error row) v now), transfer.
  by split_and!.
Qed.

Lemma bound_to_collector_Ok command attempt db u :
  bound_to_collector command attempt db = Ok u ->
  exists transfer, chain_transfers db !! sc_transfer_id command = Some transfer
    /\ tr_collector_address_id transfer = tt_collector_address_id attempt.
Proof.
  unfold bound_to_collector, foreign_key. intros Hb.
  destruct (chain_transfers db !! _) as [transfer|]; [|by inv_res].
  destruct (Z.eqb_spec (tr_collector_address_id transfer) (tt_collector_address_id attempt));
    [by exists transfer|by inv_res].
Qed.

Lemma insert_allocation_spec id command amount reason now db n db' :
  insert_allocation id command amount reason now db = Ok (n, db') ->
  (n = 0 /\ db' = db /\ (payment_attempts db !! sc_attempt_id command = None
       \/ is_Some (payment_allocations db !! (sc_attempt_id command, sc_transfer_id command))))
  \/ exists attempt transfer allocation,
       n = 1 /\ payment_attempts db !! sc_attempt_id command = Some attempt
       /\ chain_transfers db !! sc_transfer_id command = Some transfer
       /\ 0 < amount
       /\ payment_allocations db !! (sc_attempt_id command, sc_transfer_id command) = None
       /\ ar_allocated_raw allocation = amount
       /\ ar_payment_intent_id allocation = sc_payment_intent_id command
       /\ ar_collector_address_id allocation = tt_collector_address_id attempt
       /\ tr_collector_address_id transfer = tt_collector_address_id attempt
       /\ ar_reason allocation = reason
       /\ db' = on_allocations <[(sc_attempt_id command, sc_transfer_id command) := allocation]> db.
Proof.
  unfold insert_allocation. intros Hst.
  destruct (payment_attempts db !! _) as [attempt|] eqn:Hat; [|left; simplify_eq; auto].
  unfold check_constraint, guard_err in Hst.
  destruct (Z.ltb_spec 0 amount); simpl in Hst; [|done].
  destruct (is_row (payment_allocations db) _) eqn:Hrow.
  { apply is_row_true in Hrow. left. simplify_eq. auto. }
  apply is_row_false in Hrow. destruct (unique_key _ _); simpl in Hst; [|done].
  destruct (bound_to_collector command attempt db) eqn:Hb; simpl in Hst; [|done].
  apply bound_to_collector_Ok in Hb as (transfer & Htr & Hcol).
  injection Hst as <- <-. right.
  exists attempt, transfer, (mkAllocationRow id (sc_payment_intent_id command) (sc_merchant_id command)
    amount SETTLEMENT_ACTOR reason now (tt_collector_address_id attempt)). by split_and!.
Qed.

Lemma record_remainder_spec command remainder t db now :
  within db now (record_remainder (R := R) command remainder t)
    (fun _ db' => queued (fun _ => 0%nat) db db').
Proof.
  eapply within_bind; [apply insert_payment_event_spec|]. intros [] db1 Hn1.
  eapply within_weaken; [by apply enqueue_other_spec|]. intros [] db2 Hq.
  eapply queued_weaken; [eapply queued_trans; [by apply noted_queued|done]|done].
Qed.

(** The outcomes that move money: the record, the next state of the transfer
    and whether the obligation is covered. *)
Definition credit_record (outcome : string) : SettlementRecord :=
  if bool_decide (outcome = "overpaid") then RecOverpaid
  else if bool_decide (outcome = "settled") then RecSettled else RecPartiallyAllocated.
Definition credit_state (outcome : string) : string :=
  if bool_decide (outcome = "settled") then "settled" else "matched".
Definition covers (outcome : string) : bool :=
  bool_decide (outcome = "settled") || bool_decide (outcome = "overpaid").

(** The money of a transfer claimed by another intent stays where it is. *)
Definition claimed_elsewhere (command : SettlementCommand) (db db' : Database) : Prop :=
  (exists claim, chain_transfer_intent_claims db !! sc_transfer_id command = Some claim
     /\ cr_payment_intent_id claim <> sc_payment_intent_id command)
  /\ parked (sc_transfer_id command) "held" db db'.

(** What [allocate_and_finish] can return.  A replay was claimed or allocated
    before. *)
Definition allocate_step (command : SettlementCommand) (amount : Z) (outcome : string) (t : Z)
    (db : Database) (record : SettlementRecord) (db' : Database) : Prop :=
  (record = RecForeignClaim /\ claimed_elsewhere command db db')
  \/ (record = RecAlreadyProcessed
      /\ (is_Some (chain_transfer_intent_claims db !! sc_transfer_id command)
          \/ is_Some (payment_allocations db !! (sc_attempt_id command, sc_transfer_id command))))
  \/ (record = credit_record outcome
      /\ credited command amount (credit_state outcome) (covers outcome) t db db').

Lemma owned_by_tables command db db1 :
  owned_by command db db1 ->
  chain_transfer_processing db1 = chain_transfer_processing db /\ chain_transfers db1 = chain_transfers db
  /\ payment_attempts db1 = payment_attempts db /\ payment_allocations db1 = payment_allocations db.
Proof. by intros (claim & _ & -> & _). Qed.

Lemma allocate_and_finish_spec command allocate remainder outcome t row db now :
  chain_transfer_processing db !! sc_transfer_id command = Some row ->
  within db now (allocate_and_finish (R := R) command allocate remainder outcome t)
    (allocate_step command (as_u256 allocate) outcome t db).
Proof.
  intros Hrow. eapply within_bind; [by eapply claim_transfer_spec|].
  intros [|] db1 Hclaim; [|by apply within_ret; left]. simpl.
  destruct (owned_by_tables _ _ _ Hclaim) as (Hp1 & Ht1 & Ha1 & Hal1).
  apply within_bind_exec. intros [total|] db2 Hadd; [|by apply within_lift].
  apply add_allocated_spec in Hadd as (row0 & row' & transfer & Hr0 & Htr & Hle & Hra & Hrs & ->).
  rewrite Hp1, Hrow in Hr0. injection Hr0 as <-. rewrite Ht1 in Htr.
  apply within_bind_uuid. intros id.
  apply (within_bind_run_at binding_refused (fun _ => insert_allocation _ _ _ _ _)). intros n db3 Hins.
  apply insert_allocation_spec in Hins as [(-> & -> & Hno)|
    (attempt & transfer' & allocation & -> & Hat & Htr' & Hpos & Hnone & Hamt & Hint & Hcol & Hbind & Hreason & ->)].
  { apply within_ret. right. left. split; [done|].
    cbn [payment_attempts on_processing payment_allocations] in Hno. rewrite Ha1, Hal1 in Hno.
    destruct Hno as [Hno|?]; [left|by right].
    destruct Hclaim as (claim & _ & _ & [?|[_ [attempt Hat]]]); [by exists claim|congruence]. }
  cbn [payment_attempts payment_allocations chain_transfers on_processing] in Hat, Htr', Hnone.
  rewrite Ha1 in Hat. rewrite Ht1, Htr in Htr'. injection Htr' as <-.
  rewrite Hal1 in Hnone. cbn [Z.eqb]. eapply (within_bind _ _ _ _ (fun record db2 =>
    record = credit_record outcome /\ advanced command (covers outcome) t _ db2)).
  { unfold credit_record, covers. destruct (decide (outcome = "settled")) as [->|Hs]; simpl.
    - eapply within_bind; [apply advance_to_paid_spec|]. intros [] db2 Hadv. by apply within_ret.
    - rewrite (bool_decide_eq_false_2 (outcome = "settled")) by done. simpl.
      destruct (bool_decide (outcome = "overpaid")).
      + eapply within_bind; [apply advance_to_paid_spec|]. intros [] db2 Hadv. by apply within_ret.
      + eapply within_bind; [apply advance_to_partially_paid_spec|]. intros [] db2 Hadv.
        by apply within_ret. }
  intros record db2 [-> Hadv]. eapply within_bind; [apply record_decision_spec|]. intros [] db4 Hn4.
  eapply (within_bind _ _ _ _ (fun _ db5 => queued (fun _ => 0%nat) db4 db5)).
  { destruct (RawAmount_is_zero remainder); [|apply record_remainder_spec].
    apply within_ret. apply noted_queued, noted_refl. }
  intros [] db5 Hq. apply within_ret. right. right. split; [done|].
  exists row, row', transfer, attempt, allocation, db1, db2. split_and!; try done.
  { rewrite Hreason. by repeat destruct (bool_decide _). }
  eapply queued_weaken; [eapply queued_trans; [by apply noted_queued|done]|done].
Qed.

Definition holds_lease (lease : ComponentLease) (db : Database) : Prop :=
  exists row, component_leases db !! cl_component lease = Some row
    /\ lr_holder row = cl_holder lease /\ lr_fence_token row = cl_fence_token lease.

(** One decided outcome, written. *)
Definition outcome_step (command : SettlementCommand) (t : Z) (db : Database)
    (record : SettlementRecord) (db' : Database) : Prop :=
  match sc_outcome command with
  | Hold _ => record = RecHeld /\ parked (sc_transfer_id command) "held" db db'
  | ManualRequired _ => record = RecManualRequired /\ parked (sc_transfer_id command) "held" db db'
  | Settle a => allocate_step command (as_u256 a) "settled" t db record db'
  | Partial a => allocate_step command (as_u256 a) "partial" t db record db'
  | Overpaid a _ => allocate_step command (as_u256 a) "overpaid" t db record db'
  end.

(** The step of [settle]: nothing for a transfer that is no longer pending,
    else the outcome, or the transfer parked for a person when the payment
    could not take the money. *)
Definition settle_step (lease : ComponentLease) (command : SettlementCommand) (db : Database)
    (record : SettlementRecord) (db' : Database) : Prop :=
  holds_lease lease db /\
  exists row, chain_transfer_processing db !! sc_transfer_id command = Some row
    /\ ((pr_processing_state row <> "pending" /\ record = RecAlreadyProcessed /\ db' = db)
        \/ (pr_processing_state row = "pending"
            /\ ((exists t, outcome_step command t db record db')
                \/ (record = RecManualRequired /\ parked (sc_transfer_id command) "held" db db')))).

Definition unresolved_step (lease : ComponentLease) (transfer : PendingTransfer) (db db' : Database) : Prop :=
  let id := tf_transfer_id (pd_facts transfer) in
  holds_lease lease db /\
  ((exists row row', chain_transfer_processing db !! id = Some row
      /\ pr_processing_state row = "pending" /\ pr_processing_state row' = "unmatched"
      /\ pr_allocated_raw row' = pr_allocated_raw row
      /\ queued (fun _ => 0%nat) (on_processing <[id := row']> db) db')
   \/ ((forall row, chain_transfer_processing db !! id = Some row -> pr_processing_state row <> "pending")
       /\ queued (fun _ => 0%nat) db db')).

Lemma apply_outcome_spec command t row db now :
  chain_transfer_processing db !! sc_transfer_id command = Some row ->
  within db now (apply_outcome (R := R) command t) (outcome_step command t db).
Proof.
  intros Hrow. unfold apply_outcome, outcome_step.
  destruct (sc_outcome command); try by eapply allocate_and_finish_spec.
  all: eapply within_bind; [by eapply finish_without_money_spec|]; intros [] db1 Hp; by apply within_ret.
Qed.

Lemma lease_holds lease (db : Database) (now : Z) :
  (exists row, component_leases db !! cl_component lease = Some row
     /\ lr_holder row = cl_holder lease /\ lr_fence_token row = cl_fence_token lease
     /\ now < lr_lease_until row) -> holds_lease lease db.
Proof. intros (row & ? & ? & ? & _). by exists row. Qed.

Lemma park_refused_spec lease command refusal db0 db now :
  ends db0 db now (park_refused (R := R) lease command refusal)
    (fun record db' => holds_lease lease db0 /\
       exists row, chain_transfer_processing db0 !! sc_transfer_id command = Some row
         /\ ((pr_processing_state row <> "pending" /\ record = RecAlreadyProcessed /\ db' = db0)
             \/ (pr_processing_state row = "pending" /\ record = RecManualRequired
                 /\ parked (sc_transfer_id command) "held" db0 db'))).
Proof.
  apply ends_begin. intros now'. eapply ends_bind; [apply hold_lease_spec|].
  intros [] db1 [-> Hlease%lease_holds]. apply ends_bind_exec. intros st db1 [= <- <-].
  apply ends_bind_lift. intros state Hstate.
  destruct (chain_transfer_processing db0 !! sc_transfer_id command) as [row|] eqn:Hrow; [|done].
  injection Hstate as <-. case_bool_decide as Hp; simpl.
  - apply ends_bind_now. intros t. eapply ends_bind; [by eapply finish_without_money_spec|].
    intros [] db2 Hparked. apply ends_commit. split; [done|]. exists row. by split; [|right].
  - apply ends_commit. split; [done|]. exists row. by split; [|left].
Qed.

Lemma pg_settle_transacts lease command :
  transacts (settle_step lease command) (pg_settle (R := R) lease command).
Proof.
  intros db0 db now. apply ends_begin. intros now'. eapply ends_bind; [apply hold_lease_spec|].
  intros [] db1 [-> Hlease%lease_holds]. apply ends_bind_exec. intros st db1 [= <- <-].
  apply ends_bind_lift. intros state Hstate.
  destruct (chain_transfer_processing db0 !! sc_transfer_id command) as [row|] eqn:Hrow; [|done].
  destruct (chain_transfers db0 !! sc_transfer_id command) as [transfer|]; [|done]. injection Hstate as <-.
  case_bool_decide as Hp; simpl.
  2: { apply ends_commit. split; [done|]. exists row. by split; [|left]. }
  apply ends_bind_now. intros t. eapply ends_bind; [eapply within_attempt, apply_outcome_spec, Hrow|].
  intros [record|e] db2 Hout.
  - apply ends_commit. split; [done|]. exists row. split; [done|]. right. split; [done|]. left.
    exists t. by apply Hout.
  - destruct e; try apply ends_lift_Err. apply ends_rollback.
    eapply ends_weaken; [apply park_refused_spec|].
    intros record db3 (_ & row1 & Hrow1 & [(? & _)|(_ & -> & Hparked)]); [congruence|].
    split; [done|]. exists row. split; [done|]. right. split; [done|]. by right.
Qed.

Lemma pg_record_unresolved_transacts lease transfer unresolved :
  transacts (fun db _ db' => unresolved_step lease transfer db db')
    (pg_record_unresolved (R := R) lease transfer unresolved).
Proof.
  intros db0 db now. apply ends_begin. intros now'. eapply ends_bind; [apply hold_lease_spec|].
  intros [] db1 [-> Hlease%lease_holds]. apply ends_bind_now. intros t. set (id := tf_transfer_id _).
  apply ends_bind_exec. intros n db1 Hup. destruct (unresolved_event transfer unresolved) as [type payload] eqn:He.
  assert (Htype : type <> "payment_intent.paid").
  { unfold unresolved_event in He. by destruct unresolved; simplify_eq. }
  eapply ends_bind; [apply insert_payment_event_spec|]. intros [] db2 Hn2.
  eapply ends_bind; [by apply enqueue_other_spec|]. intros [] db3 Hq. apply ends_commit_unit.
  assert (Hq' : queued (fun _ => 0%nat) db1 db3).
  { eapply queued_weaken; [eapply queued_trans; [by apply noted_queued|done]|done]. }
  split; [done|]. unfold update_processing in Hup.
  destruct (update_row _ _ _ _) as [[rows table]|] eqn:Hu; simpl in Hup; simplify_eq.
  apply update_row_Ok in Hu as [(-> & -> & Hno)|(row & row' & Hrow & Hw & Hset & -> & ->)].
  - right. split; [|by destruct db0]. intros row Hrow%Hno. by bool_to_prop.
  - apply processing_to_Ok in Hset as [? ?]. bool_to_prop. left. by exists row, row'.
Qed.
End specs.

(** * The balance *)

Section sums.
Context {K V : Type} `{Countable K} (p : K -> bool) (f : V -> Z).

Lemma sum_where_insert (m : gmap K V) k v :
  m !! k = None -> sum_where p f (<[k := v]> m) = (if p k then f v else 0) + sum_where p f m.
Proof.
  intros Hk. unfold sum_where. rewrite map_fold_insert_L; [by destruct (p k)| |done].
  intros j1 j2 z1 z2 y _ _ _. destruct (p j1), (p j2); lia.
Qed.
End sums.

(** What the allocations of a transfer add up to. *)
Definition transfer_total (db : Database) (transfer_id : Z) : Z :=
  sum_where (fun key => snd key =? transfer_id) ar_allocated_raw (payment_allocations db).

(** The states of a transfer whose money nobody has taken. *)
Definition UNALLOCATED_STATES : list string := ["pending"; "held"; "unmatched"].

Record balanced (db : Database) : Prop := {
  (** the allocated total is the sum of the allocations and within what arrived *)
  bal_total t row : chain_transfer_processing db !! t = Some row ->
    pr_allocated_raw row = transfer_total db t
    /\ exists transfer, chain_transfers db !! t = Some transfer
         /\ pr_allocated_raw row <= tr_amount_raw transfer;
  (** an allocation is positive, of the one intent that claimed the transfer,
      through an attempt of that intent at the collector the money reached *)
  bal_allocation a t al : payment_allocations db !! (a, t) = Some al ->
    0 < ar_allocated_raw al
    /\ (exists claim, chain_transfer_intent_claims db !! t = Some claim
          /\ cr_payment_intent_id claim = ar_payment_intent_id al)
    /\ (exists attempt transfer, payment_attempts db !! a = Some attempt
          /\ tt_payment_intent_id attempt = ar_payment_intent_id al
          /\ chain_transfers db !! t = Some transfer
          /\ tr_collector_address_id transfer = tt_collector_address_id attempt);
  (** nobody has claimed a transfer that is pending or parked *)
  bal_unallocated t row : chain_transfer_processing db !! t = Some row ->
    pr_processing_state row ∈ UNALLOCATED_STATES -> chain_transfer_intent_claims db !! t = None;
  (** a paid intent, and only a paid intent, is fulfilled *)
  bal_fulfilled i : is_Some (payment_fulfillments db !! i) <->
    exists intent, payment_intents db !! i = Some intent /\ ir_status intent = "paid";
  (** and announced once *)
  bal_announced i :
    paid_events i db = if is_row (payment_fulfillments db) i then 1%nat else 0%nat;
  (** a paid intent and a settled attempt have received money *)
  bal_paid i intent : payment_intents db !! i = Some intent -> ir_status intent = "paid" ->
    exists a t al, payment_allocations db !! (a, t) = Some al /\ ar_payment_intent_id al = i;
  bal_settled a attempt : payment_attempts db !! a = Some attempt -> tt_status attempt = "settled" ->
    exists t al, payment_allocations db !! (a, t) = Some al;
}.

(** The tables of the balance as they are. *)
Definition same_money (db db' : Database) : Prop :=
  chain_transfer_processing db' = chain_transfer_processing db
  /\ chain_transfers db' = chain_transfers db
  /\ chain_transfer_intent_claims db' = chain_transfer_intent_claims db
  /\ payment_allocations db' = payment_allocations db
  /\ payment_attempts db' = payment_attempts db /\ payment_intents db' = payment_intents db
  /\ payment_fulfillments db' = payment_fulfillments db.

Lemma queued_same_money f db db' : queued f db db' -> same_money db db'.
Proof. by intros (events & (d & e & ->) & _). Qed.
Lemma noted_same_money db db' : noted db db' -> same_money db db'.
Proof. by intros (d & e & ->). Qed.

(** Quotes, reservations and spent keys as they are. *)
Definition same_orders (db db' : Database) : Prop :=
  payment_quotes db' = payment_quotes db /\ amount_leases db' = amount_leases db
  /\ amount_lease_history db' = amount_lease_history db
  /\ api_idempotency_records db' = api_idempotency_records db.

Lemma queued_same_orders f db db' : queued f db db' -> same_orders db db'.
Proof. by intros (events & (d & e & ->) & _). Qed.
Lemma noted_same_orders db db' : noted db db' -> same_orders db db'.
Proof. by intros (d & e & ->). Qed.

Lemma balanced_same db db' :
  same_money db db' -> (forall i, paid_events i db' = paid_events i db) -> balanced db -> balanced db'.
Proof.
  intros (Hp & Ht & Hc & Hal & Hat & Hi & Hf) He [B1 B2 B3 B4 B5 B6 B7].
  split; unfold transfer_total; rewrite ?Hp, ?Ht, ?Hc, ?Hal, ?Hat, ?Hi, ?Hf; auto.
  intros i. by rewrite He.
Qed.

Lemma balanced_queued db db' : queued (fun _ => 0%nat) db db' -> balanced db -> balanced db'.
Proof.
  intros Hq. eapply balanced_same; [by eapply queued_same_money|].
  destruct Hq as (_ & _ & _ & Hnews). intros i. rewrite Hnews. lia.
Qed.

(** A row of a transfer changes its state and keeps its total. *)
Lemma balanced_processing t row row' db :
  chain_transfer_processing db !! t = Some row -> pr_allocated_raw row' = pr_allocated_raw row ->
  (pr_processing_state row' ∈ UNALLOCATED_STATES -> chain_transfer_intent_claims db !! t = None) ->
  balanced db -> balanced (on_processing <[t := row']> db).
Proof.
  intros Hrow Htotal Hstate [B1 B2 B3 B4 B5 B6 B7]. split; simpl; auto.
  - intros t' r Hr. apply lookup_insert_Some in Hr as [[<- <-]|[_ Hr]]; [|by apply B1].
    rewrite Htotal. by apply B1.
  - intros t' r Hr. apply lookup_insert_Some in Hr as [[<- <-]|[_ Hr]]; [done|by apply B3].
Qed.

Lemma balanced_parked t row state db db' :
  chain_transfer_processing db !! t = Some row -> pr_processing_state row ∈ UNALLOCATED_STATES ->
  parked t state db db' -> balanced db -> balanced db'.
Proof.
  intros Hrow Hst (row0 & row' & Hrow0 & Htotal & _ & Hn) Hb. rewrite Hrow in Hrow0. injection Hrow0 as <-.
  eapply balanced_queued; [by apply noted_queued|]. eapply balanced_processing; [done..| |done].
  intros _. by eapply bal_unallocated.
Qed.

(** The tables after money was credited. *)
Lemma credited_tables command amount state paid t db db' :
  credited command amount state paid t db db' ->
  exists row row' transfer attempt intent intent' claim allocation,
    chain_transfer_processing db !! sc_transfer_id command = Some row
    /\ chain_transfers db !! sc_transfer_id command = Some transfer
    /\ payment_attempts db !! sc_attempt_id command = Some attempt
    /\ payment_intents db !! sc_payment_intent_id command = Some intent
    /\ payment_allocations db !! (sc_attempt_id command, sc_transfer_id command) = None
    /\ tt_payment_intent_id attempt = sc_payment_intent_id command
    /\ tr_collector_address_id transfer = tt_collector_address_id attempt
    /\ ir_status intent ∈ PAYABLE_INTENT_STATES /\ 0 < amount
    /\ pr_allocated_raw row' = pr_allocated_raw row + amount
    /\ pr_allocated_raw row' <= tr_amount_raw transfer /\ pr_processing_state row' = state
    /\ cr_payment_intent_id claim = sc_payment_intent_id command
    /\ ar_allocated_raw allocation = amount
    /\ ar_payment_intent_id allocation = sc_payment_intent_id command
    /\ ir_status intent' = (if paid then "paid" else "partially_paid")
    /\ chain_transfer_processing db' = <[sc_transfer_id command := row']> (chain_transfer_processing db)
    /\ chain_transfers db' = chain_transfers db
    /\ chain_transfer_intent_claims db' = <[sc_transfer_id command := claim]> (chain_transfer_intent_claims db)
    /\ payment_allocations db' =
         <[(sc_attempt_id command, sc_transfer_id command) := allocation]> (payment_allocations db)
    /\ payment_attempts db' = <[sc_attempt_id command :=
         attempt_with (if paid then "settled" else tt_status attempt) t attempt]> (payment_attempts db)
    /\ payment_intents db' = <[sc_payment_intent_id command := intent']> (payment_intents db)
    /\ (forall j, is_Some (payment_fulfillments db' !! j) <->
          is_Some (payment_fulfillments db !! j) \/ paid = true /\ j = sc_payment_intent_id command)
    /\ (forall j, paid_events j db' = (paid_events j db
          + if bool_decide (paid = true /\ j = sc_payment_intent_id command
                            /\ payment_fulfillments db !! j = None) then 1 else 0)%nat).
Proof.
  intros (row & row' & transfer & attempt & al & db1 & db2 & (claim & Hcl & -> & _) & Hrow & Htr & Hat
    & Hpos & Hle & Htot & Hst & Hnone & Hamt & Hali & _ & Hcol & Hreason
    & (attempt0 & intent & intent' & fulf & Hat0 & Hai & Has & Hin & _ & Hps & _ & Hst' & Hf & Hq) & Hq').
  cbn in Hat0, Hin, Hf. rewrite Hat in Hat0. injection Hat0 as <-.
  pose proof (queued_same_money _ _ _ Hq) as (E1 & E2 & E3 & E4 & E5 & E6 & E7).
  pose proof (queued_same_money _ _ _ Hq') as (F1 & F2 & F3 & F4 & F5 & F6 & F7).
  rewrite E1 in F1. rewrite E2 in F2. rewrite E3 in F3. rewrite E4 in F4. rewrite E5 in F5.
  rewrite E6 in F6. rewrite E7 in F7. clear E1 E2 E3 E4 E5 E6 E7.
  exists row, row', transfer, attempt, intent, intent', claim, al. rewrite F1, F2, F3, F4, F5, F6, F7.
  split_and!; try done; [lia|]. intros j.
  destruct Hq as (_ & _ & _ & Hn), Hq' as (_ & _ & _ & Hn'). 
  rewrite Hn', Hn, Nat.add_0_r. reflexivity.
Qed.

Lemma not_paid_payable s : s ∈ PAYABLE_INTENT_STATES -> s <> "paid".
Proof. unfold PAYABLE_INTENT_STATES. set_solver. Qed.

(** The balance after a credit, field by field. *)
Section balanced_credit.
Context (command : SettlementCommand) (paid : bool) (amount t : Z) (state : string) (db db' : Database).
Context (row row' : ProcessingRow) (transfer : TransferRow) (attempt : AttemptRow)
  (intent intent' : IntentRow) (claim : ClaimRow) (al : AllocationRow).
Let T := sc_transfer_id command.
Let A := sc_attempt_id command.
Let I := sc_payment_intent_id command.
Context (Hbal : balanced db).
Context (Hrow : chain_transfer_processing db !! T = Some row).
Context (Htr : chain_transfers db !! T = Some transfer) (Hat : payment_attempts db !! A = Some attempt).
Context (Hin : payment_intents db !! I = Some intent) (Hnone : payment_allocations db !! (A, T) = None).
Context (Hai : tt_payment_intent_id attempt = I).
Context (Hcol : tr_collector_address_id transfer = tt_collector_address_id attempt).
Context (Hpay : ir_status intent ∈ PAYABLE_INTENT_STATES) (Hpos : 0 < amount).
Context (Htot : pr_allocated_raw row' = pr_allocated_raw row + amount).
Context (Hle : pr_allocated_raw row' <= tr_amount_raw transfer) (Hst : pr_processing_state row' = state).
Context (Hcl : cr_payment_intent_id claim = I) (Hamt : ar_allocated_raw al = amount).
Context (Hali : ar_payment_intent_id al = I).
Context (Hst' : ir_status intent' = if paid then "paid" else "partially_paid").
Context (Ep : chain_transfer_processing db' = <[T := row']> (chain_transfer_processing db)).
Context (Et : chain_transfers db' = chain_transfers db).
Context (Ec : chain_transfer_intent_claims db' = <[T := claim]> (chain_transfer_intent_claims db)).
Context (Eal : payment_allocations db' = <[(A, T) := al]> (payment_allocations db)).
Context (Eat : payment_attempts db' = <[A := attempt_with (if paid then "settled" else tt_status attempt)
                                              t attempt]> (payment_attempts db)).
Context (Ei : payment_intents db' = <[I := intent']> (payment_intents db)).
Context (Ef : forall j, is_Some (payment_fulfillments db' !! j) <->
                is_Some (payment_fulfillments db !! j) \/ paid = true /\ j = I).
Context (Ee : forall j, paid_events j db' = (paid_events j db
  + if bool_decide (paid = true /\ j = I /\ payment_fulfillments db !! j = None) then 1 else 0)%nat).
Context (Hstate : state ∉ UNALLOCATED_STATES) (Hunclaimed : chain_transfer_intent_claims db !! T = None).

Lemma credit_unfulfilled : payment_fulfillments db !! I = None.
Proof.
  apply eq_None_not_Some. intros (x & Hx & Hpd)%bal_fulfilled; [|done]. rewrite Hin in Hx.
  injection Hx as <-. by eapply not_paid_payable.
Qed.

Lemma credit_total t' r : chain_transfer_processing db' !! t' = Some r ->
  pr_allocated_raw r = transfer_total db' t'
  /\ exists tr, chain_transfers db' !! t' = Some tr /\ pr_allocated_raw r <= tr_amount_raw tr.
Proof.
  intros Hr. rewrite Ep in Hr. unfold transfer_total. rewrite Eal, Et, sum_where_insert by done.
  cbv beta. cbn [snd]. apply lookup_insert_Some in Hr as [[<- <-]|[Hne Hr]].
  - destruct (bal_total _ Hbal _ _ Hrow) as [Heq _]. unfold transfer_total in Heq.
    rewrite (Z.eqb_refl T). split; [lia|]. by exists transfer.
  - destruct (bal_total _ Hbal _ _ Hr) as [Heq Hx]. unfold transfer_total in Heq.
    destruct (Z.eqb_spec T t'); [done|]. by split; [lia|].
Qed.

Lemma credit_allocation a t' al' : payment_allocations db' !! (a, t') = Some al' ->
  0 < ar_allocated_raw al'
  /\ (exists c, chain_transfer_intent_claims db' !! t' = Some c
        /\ cr_payment_intent_id c = ar_payment_intent_id al')
  /\ (exists at' tr', payment_attempts db' !! a = Some at'
        /\ tt_payment_intent_id at' = ar_payment_intent_id al'
        /\ chain_transfers db' !! t' = Some tr'
        /\ tr_collector_address_id tr' = tt_collector_address_id at').
Proof.
  intros Hal'. rewrite Eal in Hal'. rewrite Ec, Eat, Et.
  apply lookup_insert_Some in Hal' as [[[= <- <-] <-]|[Hne Hal']].
  - split; [lia|]. split; [exists claim; rewrite lookup_insert_eq; by rewrite Hali|].
    eexists _, transfer. rewrite lookup_insert_eq. by split_and!; [|rewrite Hali|..].
  - destruct (bal_allocation _ Hbal _ _ _ Hal')
      as (Hp & (c & Hc & Hci) & (at' & tr' & Hat' & Hai' & Htr' & Hcol')).
    split; [done|]. split; [exists c; by rewrite lookup_insert_ne by congruence|].
    destruct (decide (a = A)) as [->|]; [|exists at', tr'; by rewrite lookup_insert_ne].
    rewrite Hat in Hat'. injection Hat' as <-. eexists _, tr'. rewrite lookup_insert_eq. by split_and!.
Qed.

Lemma credit_fulfilled j : is_Some (payment_fulfillments db' !! j) <->
  exists x, payment_intents db' !! j = Some x /\ ir_status x = "paid".
Proof.
  rewrite Ef, (bal_fulfilled _ Hbal), Ei. split.
  - intros [(x & Hx & Hpd)|[-> ->]]; [|exists intent'; by rewrite lookup_insert_eq].
    exists x. rewrite lookup_insert_ne; [done|]. intros <-. rewrite Hin in Hx. injection Hx as <-.
    by eapply not_paid_payable.
  - intros (x & Hx & Hpd). apply lookup_insert_Some in Hx as [[<- <-]|[Hne Hx]]; [right|left; by exists x].
    rewrite Hst' in Hpd. by destruct paid.
Qed.

Lemma credit_announced j :
  paid_events j db' = if is_row (payment_fulfillments db') j then 1%nat else 0%nat.
Proof.
  rewrite Ee, (bal_announced _ Hbal). unfold is_row. destruct (decide (j = I)) as [->|Hne].
  - rewrite credit_unfulfilled, (bool_decide_eq_false_2 (is_Some None)) by (by intros [? [=]]).
    case_bool_decide as Hp; case_bool_decide as Hf; try done.
    + destruct Hf. apply Ef. right. by destruct Hp.
    + apply Ef in Hf as [Hf|[? _]]; [|by destruct Hp].
      rewrite credit_unfulfilled in Hf. by destruct Hf.
  - rewrite (bool_decide_eq_false_2 (_ /\ _)) by (by intros (_ & ? & _)). rewrite Nat.add_0_r.
    erewrite (bool_decide_ext (is_Some (payment_fulfillments db' !! j))); [done|].
    rewrite Ef. naive_solver.
Qed.

Lemma credit_balanced : balanced db'.
Proof.
  split; [exact credit_total|exact credit_allocation| |exact credit_fulfilled|exact credit_announced| |].
  - intros t' r Hr Hin'. rewrite Ep in Hr. rewrite Ec.
    apply lookup_insert_Some in Hr as [[<- <-]|[Hne Hr]]; [by rewrite Hst in Hin'|].
    rewrite lookup_insert_ne by done. by eapply bal_unallocated.
  - intros j x Hx Hpd. rewrite Ei in Hx. rewrite Eal.
    destruct (decide (j = I)) as [->|Hne]; [exists A, T, al; by rewrite lookup_insert_eq|].
    rewrite lookup_insert_ne in Hx by done. destruct (bal_paid _ Hbal _ _ Hx Hpd) as (a' & t' & al' & Hal' & <-).
    exists a', t', al'. split; [|done]. rewrite lookup_insert_ne; [done|]. intros [= <- <-]. congruence.
  - intros a x Hx Hset. rewrite Eat in Hx. rewrite Eal.
    destruct (decide (a = A)) as [->|Hne]; [exists T, al; by rewrite lookup_insert_eq|].
    rewrite lookup_insert_ne in Hx by done. destruct (bal_settled _ Hbal _ _ Hx Hset) as (t' & al' & Hal').
    exists t', al'. rewrite lookup_insert_ne; [done|]. intros [= <- <-]. congruence.
Qed.
End balanced_credit.

Lemma balanced_credited command amount state paid t db db' :
  state ∉ UNALLOCATED_STATES ->
  chain_transfer_intent_claims db !! sc_transfer_id command = None ->
  credited command amount state paid t db db' -> balanced db -> balanced db'.
Proof.
  intros Hstate Hunclaimed Hcr Hbal.
  apply credited_tables in Hcr as (row & row' & transfer & attempt & intent & intent' & claim & al & Hrow
    & Htr & Hat & Hin & Hnone & Hai & Hcol & Hpay & Hpos & Htot & Hle & Hst & Hcl & Hamt & Hali & Hst'
    & Ep & Et & Ec & Eal & Eat & Ei & Ef & Ee).
  by eapply (credit_balanced command paid amount t state db db' row row' transfer attempt intent intent' claim al).
Qed.

(** ** Settlement on balanced books *)

(** The name and the amount of an outcome that moves money. *)
Definition credit_of (outcome : SettlementOutcome) : option (string * Z) :=
  match outcome with
  | Settle a => Some ("settled", as_u256 a)
  | Partial a => Some ("partial", as_u256 a)
  | Overpaid a _ => Some ("overpaid", as_u256 a)
  | Hold _ | ManualRequired _ => None
  end.

Definition pending (transfer_id : Z) (db : Database) : Prop :=
  exists row, chain_transfer_processing db !! transfer_id = Some row /\ pr_processing_state row = "pending".

(** On balanced books a settlement is one of three things. *)
Inductive settle_case (command : SettlementCommand) (db : Database)
    : SettlementRecord -> Database -> Prop :=
  | case_done : ~ pending (sc_transfer_id command) db -> settle_case command db RecAlreadyProcessed db
  | case_parked record db' :
      pending (sc_transfer_id command) db -> record = RecHeld \/ record = RecManualRequired ->
      parked (sc_transfer_id command) "held" db db' -> settle_case command db record db'
  | case_credited outcome amount t db' :
      pending (sc_transfer_id command) db -> credit_of (sc_outcome command) = Some (outcome, amount) ->
      credited command amount (credit_state outcome) (covers outcome) t db db' ->
      settle_case command db (credit_record outcome) db'.

Lemma pending_unclaimed t db :
  balanced db -> pending t db -> chain_transfer_intent_claims db !! t = None.
Proof.
  intros Hb (row & Hrow & Hp). eapply bal_unallocated; [done..|]. rewrite Hp. unfold UNALLOCATED_STATES. set_solver.
Qed.

Lemma allocate_step_case command outcome amount t db record db' :
  balanced db -> pending (sc_transfer_id command) db ->
  credit_of (sc_outcome command) = Some (outcome, amount) ->
  allocate_step command amount outcome t db record db' -> settle_case command db record db'.
Proof.
  intros Hb Hp Hcr Hstep. pose proof (pending_unclaimed _ _ Hb Hp) as Hc.
  destruct Hstep as [(_ & (claim & Hcl & _) & _)|[(_ & [[claim Hcl]|[al Hal]])|[-> Hstep]]].
  - congruence.
  - congruence.
  - apply bal_allocation in Hal as (_ & (claim & Hcl & _) & _); [congruence|done].
  - by eapply case_credited.
Qed.

Lemma settle_step_case lease command db record db' :
  balanced db -> settle_step lease command db record db' -> settle_case command db record db'.
Proof.
  intros Hb (_ & row & Hrow & [(Hnp & -> & ->)|(Hp & Hstep)]).
  { apply case_done. intros (row' & Hrow' & ?). congruence. }
  assert (pending (sc_transfer_id command) db) as Hpend by (by exists row).
  destruct Hstep as [[t Hout]|[-> Hpk]]; [|apply case_parked; auto].
  unfold outcome_step in Hout.
  destruct (sc_outcome command) eqn:Ho; try (destruct Hout as [-> Hpk]; apply case_parked; by auto).
  all: eapply allocate_step_case; [done..|by rewrite Ho|done].
Qed.

Lemma credit_state_allocated outcome : credit_state outcome ∉ UNALLOCATED_STATES.
Proof. unfold credit_state, UNALLOCATED_STATES. destruct (bool_decide _); set_solver. Qed.

Lemma settle_step_balanced lease command db record db' :
  balanced db -> settle_step lease command db record db' -> balanced db'.
Proof.
  intros Hb Hs. pose proof (settle_step_case _ _ _ _ _ Hb Hs) as Hc. destruct Hc as [?|? ? Hp _ Hpk|? ? ? ? Hp _ Hcr].
  - done.
  - destruct Hp as (row & Hrow & Hst). eapply balanced_parked; [done| |done..].
    rewrite Hst. unfold UNALLOCATED_STATES. set_solver.
  - eapply balanced_credited; [apply credit_state_allocated|by apply pending_unclaimed|done..].
Qed.

Lemma unresolved_step_balanced lease transfer db db' :
  balanced db -> unresolved_step lease transfer db db' -> balanced db'.
Proof.
  intros Hb (_ & [(row & row' & Hrow & Hp & Hst & Htot & Hq)|[_ Hq]]).
  - eapply balanced_queued; [done|]. eapply balanced_processing; [done..| |done].
    intros _. apply pending_unclaimed; [done|]. by exists row.
  - by eapply balanced_queued.
Qed.

(** A settled transfer is no longer pending. *)
Lemma settle_case_not_pending command db record db' :
  settle_case command db record db' -> ~ pending (sc_transfer_id command) db'.
Proof.
  destruct 1 as [Hnp|record db' _ _ (row & row' & _ & _ & Hst & Hn)|outcome amount t db' _ _ Hcr]; [done| |].
  - destruct (noted_same_money _ _ Hn) as (Hp & _). intros (r & Hr & Hpend). rewrite Hp in Hr.
    cbn in Hr. rewrite lookup_insert_eq in Hr. congruence.
  - apply credited_tables in Hcr as (row & row' & _ & _ & _ & _ & _ & _ & _ & _ & _ & _ & _ & _ & _ & _
      & _ & _ & _ & Hst & _ & _ & _ & _ & Ep & _).
    intros (r & Hr & Hpend). rewrite Ep, lookup_insert_eq in Hr. injection Hr as <-.
    rewrite Hst in Hpend. unfold credit_state in Hpend. by destruct (bool_decide _).
Qed.

Section service_books.
Context {R : Type} `{Postgres R} `{U256Lib} `{UuidLib} `{TimeSerde}.

Lemma holds_read {A} (st : Z -> Database -> A) (I : Database -> Prop) :
  holds (fun s : Session R => I (committed s))
    (eff_map_err unavailable (run_pool_at (fun now => select (st now)))) (fun _ => True).
Proof.
  eapply transacts_holds; [apply transacts_map_err, transacts_pool|].
  intros db a db' Hi (now & Hsel). unfold select in Hsel. by injection Hsel as _ <-.
Qed.

Lemma holds_pool_fetch {A} (f : Database -> A) (I : Database -> Prop) :
  holds (fun s : Session R => I (committed s)) (pool_fetch f) (fun _ => True).
Proof. exact (holds_read (fun _ => f) I). Qed.

Lemma holds_pure {A} (r : result RepositoryError A) (I : Session R -> Prop) :
  holds I (lift r) (fun _ => True).
Proof. by eapply holds_weaken; [apply holds_lift|]. Qed.

(** Every call of the settlement repository keeps an invariant of the
    committed state that its two transactions keep. *)
Section keeps.
Context (I : Database -> Prop).
Context (Hsettle : forall lease command,
  holds (fun s : Session R => I (committed s)) (pg_settle lease command) (fun _ => True)).
Context (Hunresolved : forall lease transfer unresolved,
  holds (fun s : Session R => I (committed s)) (pg_record_unresolved lease transfer unresolved) (fun _ => True)).

Lemma repository_reads_keep :
  (forall limit, holds (fun s : Session R => I (committed s))
     (pg_transfers_awaiting_settlement limit) (fun _ => True))
  /\ (forall facts, holds (fun s : Session R => I (committed s))
     (pg_match_candidates facts) (fun _ => True))
  /\ (forall id, holds (fun s : Session R => I (committed s)) (pg_attempt_snapshot id) (fun _ => True))
  /\ (forall currency, holds (fun s : Session R => I (committed s))
     (pg_find_settlement_policy currency) (fun _ => True))
  /\ (forall id, holds (fun s : Session R => I (committed s)) (pg_latest_risk id) (fun _ => True)).
Proof.
  split_and!; intros x; (eapply holds_bind; [first [apply holds_pool_fetch | apply holds_read]|]);
    intros v _; try apply holds_pure.
  - destruct v; [|by apply holds_ret]. eapply holds_bind; [apply holds_pure|]. intros. by apply holds_ret.
  - destruct v as [[id version]|]; [|by apply holds_ret].
    eapply holds_bind; [apply holds_pool_fetch|]. intros [|tier tiers] _; [apply holds_pure|by apply holds_ret].
  - destruct v as [[id risk]|]; [|by apply holds_ret].
    eapply holds_bind; [apply holds_pure|]. intros. by apply holds_ret.
Qed.

Lemma settle_transfer_keeps lease report transfer :
  holds (fun s : Session R => I (committed s)) (settle_transfer lease report transfer) (fun _ => True).
Proof.
  destruct repository_reads_keep as (_ & Hc & Ha & Hp & Hr). unfold settle_transfer.
  eapply holds_bind; [apply holds_map_err, Hc|]. intros candidates _.
  destruct (match_transfer _ candidates) as [a i strategy late|ids|];
    [|(eapply holds_bind; [apply holds_map_err, Hunresolved|]; intros; by apply holds_ret)..].
  unfold settle_match. eapply holds_bind; [apply holds_map_err, Ha|].
  intros [attempt|] _; [|by eapply holds_weaken; [apply holds_lift|]].
  eapply holds_bind; [apply holds_map_err, Hp|]. intros [policy|] _; [|by apply holds_ret].
  eapply holds_bind; [apply holds_map_err, Hr|]. intros [risk ev] _.
  eapply holds_bind; [apply holds_lift|]. intros outcome _.
  eapply holds_bind; [apply holds_map_err, Hsettle|intros; by apply holds_ret].
Qed.

Lemma settle_pending_holds lease limit :
  holds (fun s : Session R => I (committed s)) (settle_pending lease limit) (fun _ => True).
Proof.
  destruct repository_reads_keep as (Ht & _). unfold settle_pending.
  destruct (_ || _); [by eapply holds_weaken; [apply holds_lift|]|].
  eapply holds_bind; [apply holds_map_err, Ht|]. intros transfers _. apply holds_for_each.
  intros. apply settle_transfer_keeps.
Qed.
End keeps.

(** The same with the steps of the two transactions. *)
Lemma settle_pending_keeps (I : Database -> Prop) lease limit :
  (forall lease command db record db', I db -> settle_step lease command db record db' -> I db') ->
  (forall lease transfer db db', I db -> unresolved_step lease transfer db db' -> I db') ->
  holds (fun s : Session R => I (committed s)) (settle_pending lease limit) (fun _ => True).
Proof.
  intros Hs Hu. apply settle_pending_holds; intros; (eapply transacts_holds;
    [first [apply pg_settle_transacts | apply pg_record_unresolved_transacts]|]).
  - intros db record db'. apply Hs.
  - intros db [] db'. apply Hu.
Qed.

(** C1: Whatever a settlement pass does against the database, and however it
    ends (an error of any statement, a lost lease, a commit whose answer never
    arrived), the books still balance: the allocations of every transfer add
    up to its allocated total and to no more than what arrived, all of them
    belong to the one intent that claimed it and to an attempt at the
    collector the money reached, parked and pending transfers are claimed by
    nobody, and an intent is fulfilled and announced as paid exactly once if
    it is paid, which takes an allocation, and never otherwise. *)
Theorem settlement_pass_keeps_the_books lease limit (s : Session R) :
  balanced (committed s) -> balanced (committed (settle_pending lease limit s).2).
Proof.
  intros Hb. apply (settle_pending_keeps balanced); [| |done].
  - intros. by eapply settle_step_balanced.
  - intros. by eapply unresolved_step_balanced.
Qed.
End service_books.

(** ** Exactly once *)

(** What a record says moved. *)
Definition moved (record : SettlementRecord) (command : SettlementCommand) : Z :=
  match record with
  | RecSettled | RecPartiallyAllocated | RecOverpaid =>
      default 0 (snd <$> credit_of (sc_outcome command))
  | _ => 0
  end.

Lemma credited_total command amount state paid t db db' t' :
  credited command amount state paid t db db' ->
  transfer_total db' t' = transfer_total db t' + (if t' =? sc_transfer_id command then amount else 0).
Proof.
  intros Hcr. apply credited_tables in Hcr as (row & row' & tr & at' & i & i' & c & al & _ & _ & _ & _
    & Hnone & _ & _ & _ & _ & _ & _ & _ & _ & Hamt & _ & _ & _ & _ & _ & Eal & _).
  unfold transfer_total. rewrite Eal, sum_where_insert by done. cbv beta. cbn [snd].
  rewrite (Z.eqb_sym t'). destruct (sc_transfer_id command =? t'); lia.
Qed.

Lemma parked_total t state db db' t' : parked t state db db' -> transfer_total db' t' = transfer_total db t'.
Proof.
  intros (row & row' & _ & _ & _ & Hn). destruct (noted_same_money _ _ Hn) as (_ & _ & _ & Eal & _).
  unfold transfer_total. by rewrite Eal.
Qed.

Lemma moved_credit outcome amount command :
  credit_of (sc_outcome command) = Some (outcome, amount) ->
  moved (credit_record outcome) command = amount.
Proof.
  intros Hc. unfold moved, credit_record. rewrite Hc.
  destruct (bool_decide (outcome = "overpaid")), (bool_decide (outcome = "settled")); done.
Qed.

(** An intent that a record says is covered is paid and was announced now. *)
Lemma credited_paid command amount state t db db' :
  balanced db -> balanced db' -> credited command amount state true t db db' ->
  (exists intent, payment_intents db' !! sc_payment_intent_id command = Some intent
     /\ ir_status intent = "paid")
  /\ paid_events (sc_payment_intent_id command) db = 0%nat
  /\ paid_events (sc_payment_intent_id command) db' = 1%nat.
Proof.
  intros Hb Hb' Hcr. apply credited_tables in Hcr as (row & row' & tr & at' & i & i' & c & al & _ & _ & _
    & Hin & _ & _ & _ & Hpay & _ & _ & _ & _ & _ & _ & _ & Hst & _ & _ & _ & _ & _ & Ei & Ef & _).
  assert (exists intent, payment_intents db' !! sc_payment_intent_id command = Some intent
     /\ ir_status intent = "paid") as Hpd by (exists i'; by rewrite Ei, lookup_insert_eq).
  split_and!; [done| |].
  - rewrite (bal_announced _ Hb). destruct (is_row _ _) eqn:Hrow; [|done].
    apply is_row_true, (bal_fulfilled _ Hb) in Hrow as (x & Hx & Hpx).
    rewrite Hin in Hx. injection Hx as <-. by destruct (not_paid_payable _ Hpay).
  - rewrite (bal_announced _ Hb'). apply (bal_fulfilled _ Hb') in Hpd. by apply is_row_true in Hpd as ->.
Qed.

Section exactly_once.
Context {R : Type} `{Postgres R} `{U256Lib} `{UuidLib} `{TimeSerde}.

Lemma pg_settle_run lease command (s : Session R) r s' :
  balanced (committed s) -> pg_settle lease command s = (r, s') ->
  match r with
  | Ok record => settle_case command (committed s) record (committed s')
  | Err _ => committed s' = committed s
             \/ exists record, settle_case command (committed s) record (committed s')
  end.
Proof.
  intros Hb Hrun. pose proof (pg_settle_transacts lease command _ _ _ s eq_refl eq_refl eq_refl) as Ht.
  rewrite Hrun in Ht. simpl in Ht. destruct r as [record|e]; [by eapply settle_step_case|].
  destruct Ht as [?|[record Hr]]; [by left|right]. exists record. by eapply settle_step_case.
Qed.

Lemma pg_settle_balanced lease command (s : Session R) r s' :
  balanced (committed s) -> pg_settle lease command s = (r, s') -> balanced (committed s').
Proof.
  intros Hb Hrun. assert (Hh : holds (fun s : Session R => balanced (committed s))
    (pg_settle lease command) (fun _ => True)).
  { eapply transacts_holds; [apply pg_settle_transacts|]. intros db record db'. apply settle_step_balanced. }
  destruct (Hh s Hb) as [Hb1 _]. by rewrite Hrun in Hb1.
Qed.

Lemma settle_again lease command (s : Session R) r s' :
  balanced (committed s) -> ~ pending (sc_transfer_id command) (committed s) ->
  pg_settle lease command s = (r, s') ->
  committed s' = committed s /\ (r = Ok RecAlreadyProcessed \/ exists e, r = Err e).
Proof.
  intros Hb Hnp Hrun. apply pg_settle_run in Hrun; [|done].
  destruct r as [record|e].
  - inversion Hrun; [by split; [|left]|done..].
  - split; [|right; by exists e]. destruct Hrun as [?|[record Hc]]; [done|]. by inversion Hc.
Qed.

(** C2: A transfer is settled at most once.  A settlement that reports
    anything leaves its transfer no longer pending; one that fails changed
    nothing, or took effect and lost the answer; and once the transfer is not
    pending, every further settlement of it, under whatever lease, attempt or
    outcome, changes nothing and reports that it was processed before, or
    fails. *)
Theorem settle_exactly_once lease command (s : Session R) r s1 :
  balanced (committed s) -> pg_settle lease command s = (r, s1) ->
  (committed s1 = committed s
   \/ (pending (sc_transfer_id command) (committed s) /\ ~ pending (sc_transfer_id command) (committed s1)))
  /\ (forall record, r = Ok record -> ~ pending (sc_transfer_id command) (committed s1))
  /\ (~ pending (sc_transfer_id command) (committed s1) ->
      forall lease' command' (s2 : Session R) r2 s3,
        committed s2 = committed s1 -> sc_transfer_id command' = sc_transfer_id command ->
        pg_settle lease' command' s2 = (r2, s3) ->
        committed s3 = committed s1 /\ (r2 = Ok RecAlreadyProcessed \/ exists e, r2 = Err e)).
Proof.
  intros Hb Hrun. pose proof (pg_settle_run _ _ _ _ _ Hb Hrun) as Hcase. split_and!.
  - assert (forall record, settle_case command (committed s) record (committed s1) ->
      committed s1 = committed s \/ (pending (sc_transfer_id command) (committed s)
        /\ ~ pending (sc_transfer_id command) (committed s1))) as Hc.
    { intros record Hc. pose proof (settle_case_not_pending _ _ _ _ Hc).
      destruct Hc; [by left|by right..]. }
    destruct r as [record|e]; [by eapply Hc|]. destruct Hcase as [?|[record ?]]; [by left|by eapply Hc].
  - intros record ->. by eapply settle_case_not_pending.
  - intros Hnp lease' command' s2 r2 s3 Hs2 Hid Hrun2. rewrite <- Hs2.
    eapply settle_again; [|rewrite Hs2, Hid; done|done]. rewrite Hs2.
    by eapply pg_settle_balanced.
Qed.

(** C3: The record a settlement returns is what happened to the money: the
    transfer's allocated total grew by the amount of the decided outcome if
    the record says settled, overpaid or partially allocated, and by nothing
    otherwise, no other transfer's total moved, a covered intent is paid and
    was announced by this settlement and not before, and a record that moved
    nothing left the attempts, the intents and the fulfilments as they were. *)
Theorem settle_record_is_the_truth lease command (s : Session R) record s1 :
  balanced (committed s) -> pg_settle lease command s = (Ok record, s1) ->
  (forall t, transfer_total (committed s1) t = transfer_total (committed s) t
     + (if t =? sc_transfer_id command then moved record command else 0))
  /\ (record = RecSettled \/ record = RecOverpaid ->
      (exists intent, payment_intents (committed s1) !! sc_payment_intent_id command = Some intent
         /\ ir_status intent = "paid")
      /\ paid_events (sc_payment_intent_id command) (committed s) = 0%nat
      /\ paid_events (sc_payment_intent_id command) (committed s1) = 1%nat)
  /\ (moved record command = 0 ->
      payment_allocations (committed s1) = payment_allocations (committed s)
      /\ payment_attempts (committed s1) = payment_attempts (committed s)
      /\ payment_intents (committed s1) = payment_intents (committed s)
      /\ payment_fulfillments (committed s1) = payment_fulfillments (committed s))
  /\ record <> RecForeignClaim.
Proof.
  intros Hb Hrun. pose proof (pg_settle_run _ _ _ _ _ Hb Hrun) as Hcase. simpl in Hcase.
  pose proof (pg_settle_balanced _ _ _ _ _ Hb Hrun) as Hb1. clear Hrun.
  remember (committed s1) as db1 eqn:Hdb1. clear Hdb1. destruct Hcase as [Hnp|record db' Hp Hrec Hpk|outcome amount t db' Hp Hcr Hcred].
  - split_and!; try done; [intros t; destruct (t =? _); simpl; lia|by intros [?|?]].
  - assert (moved record command = 0) as -> by (by destruct Hrec as [-> | ->]). split_and!.
    + intros t. rewrite (parked_total _ _ _ _ _ Hpk). destruct (t =? _); lia.
    + by destruct Hrec as [-> | ->]; intros [?|?].
    + intros _. destruct Hpk as (r1 & r2 & _ & _ & _ & Hn).
      by destruct (noted_same_money _ _ Hn) as (_ & _ & _ & -> & -> & -> & ->).
    + by destruct Hrec as [-> | ->].
  - rewrite (moved_credit _ _ _ Hcr). split_and!.
    + intros t'. by eapply credited_total.
    + intros Hrec. assert (covers outcome = true) as Hcov.
      { unfold credit_record, covers in *. destruct (bool_decide (outcome = "overpaid")); [by destruct (bool_decide _)|].
        destruct (bool_decide (outcome = "settled")); [done|by destruct Hrec]. }
      rewrite Hcov in Hcred. by eapply credited_paid.
    + intros ->. by apply credited_tables in Hcred
        as (? & ? & ? & ? & ? & ? & ? & ? & _ & _ & _ & _ & _ & _ & _ & _ & ? & _).
    + unfold credit_record. by destruct (bool_decide (outcome = "overpaid")), (bool_decide (outcome = "settled")).
Qed.
End exactly_once.

(** ** A concrete settlement: one transfer that covers its attempt. *)

Import ReferenceInstances.

(** A server that never fails, with a counter for identifiers, and one whose
    first commit takes effect but never answers. *)
#[local] Instance quiet_postgres : Postgres Z := {|
  next_fault r := (None, r); commit_fate r := (Committed, r); database_now r := (100, r);
  now_utc r := (100, r); now_v7 r := (r, r + 1); random_uuid r := (r, r + 1);
  sql_error_text e := match e with SqlOther d => d | _ => "error" end; session_user := "gateway" |}.
Definition deaf_postgres : Postgres Z := {|
  next_fault r := (None, r);
  commit_fate r := (CommitLost "connection reset" true, r); database_now r := (100, r);
  now_utc r := (100, r); now_v7 r := (r, r + 1); random_uuid r := (r, r + 1);
  sql_error_text e := match e with SqlOther d => d | _ => "error" end; session_user := "gateway" |}.

Definition sample_processing : ProcessingRow := mkProcessingRow 0 "pending" None 0 0.
Definition sample_transfer_row : TransferRow := mkTransferRow 1 7 ("tron", "nile", "testnet", "abcdef01", 0)
  10 "block" 50 (repeat x01 20) (repeat x03 20) "TFrom" (repeat x02 20) "T" 1000 6 None "policy" "v1" 0.
Definition sample_attempt_row : AttemptRow :=
  mkAttemptRow 1 1 1 7 1000 None 200 300 "awaiting_payment" 0 0 "token".
Definition sample_intent_row : IntentRow :=
  mkIntentRow 1 50 "EUR" "awaiting_payment" "order-1" None (JObject []) 0 0 0.
Definition sample_quote_row : QuoteRow :=
  mkQuoteRow 1 1 1 7 1 1 1 "EUR" 50 1000 1000 1 1 (JArray []) 0 "v1" 0 0 200 300.
Definition sample_database : Database := {|
  merchants := {[1 := mkMerchantRow "active" "own"]}; merchant_api_keys := ∅; operator_api_keys := ∅;
  component_leases := {[cl_component sample_lease :=
    mkLeaseRow (cl_holder sample_lease) (cl_fence_token sample_lease) 1000 0]};
  chain_assets := {[1 := mkAssetRow "tron" "nile" "testnet" [] "USDT" 6 "active"]};
  collector_addresses := {[7 := mkCollectorRow 1 (repeat x02 20) "T" "active" 0 (Some 1)]};
  price_snapshots := ∅; price_readings := ∅; quote_policies := ∅; rail_health_snapshots := ∅;
  rail_stops := ∅;
  chain_sources := ∅; chain_observations := ∅; chain_cursors := ∅; chain_finality_policies := ∅;
  chain_event_verdicts := ∅; chain_observation_conflicts := ∅; chain_observation_conflict_items := ∅;
  chain_transfers := {[1 := sample_transfer_row]};
  chain_transfer_state_events := ∅; chain_transfer_state_current := {[1 := mkStateRow "finalized" 3 0]};
  chain_transfer_processing := {[1 := sample_processing]};
  chain_transfer_attestations :=
    {[1 := mkAttestationRow 1 1 1 "a" "own_node" "reverify" "v1" 0;
      2 := mkAttestationRow 1 2 2 "b" "hosted_rpc" "detection" "v1" 0]};
  payment_intents := {[1 := sample_intent_row]};
  payment_quotes := {[1 := sample_quote_row]};
  payment_attempts := {[1 := sample_attempt_row]};
  amount_leases := {[1 := mkAmountLeaseRow 7 1000 1 0 300]};
  amount_lease_history := ∅;
  payment_settlement_policies := {[1 := mkPolicyRow "EUR" "v1" "active"]};
  payment_settlement_policy_tiers := {[(1, 1000) := mkTierRow 2 true false true]};
  payment_risk_evaluations := ∅; operator_risk_provider_bindings := ∅;
  chain_transfer_intent_claims := ∅; payment_allocations := ∅; payment_settlement_decisions := ∅;
  payment_fulfillments := ∅; payment_events := ∅; domain_events := ∅; api_idempotency_records := ∅;
  audit_events := ∅; manual_resolution_requests := ∅; overpayment_remainder_dispositions := ∅;
  manual_honor_proposals := ∅; webhook_endpoints := ∅; webhook_deliveries := ∅;
  webhook_redeliveries := ∅;
  component_health := ∅; component_health_events := ∅; reconciliation_runs := ∅;
  reconciliation_discrepancies := ∅ |}.
Definition sample_session : Session Z := mkSession sample_database sample_database 0 1.

Lemma sample_balanced : balanced sample_database.
Proof.
  split; cbn [chain_transfer_processing chain_transfers chain_transfer_intent_claims payment_allocations
    payment_attempts payment_intents payment_fulfillments sample_database].
  - intros t row Hrow. apply lookup_singleton_Some in Hrow as [<- <-]. split; [reflexivity|].
    exists sample_transfer_row. split; [reflexivity|]. simpl. lia.
  - intros a t al. by rewrite lookup_empty.
  - intros. apply lookup_empty.
  - intros i. rewrite lookup_empty. split; [by intros [? [=]]|].
    intros (x & Hx & Hp). by apply lookup_singleton_Some in Hx as [_ <-].
  - intros i. unfold is_row. rewrite lookup_empty. reflexivity.
  - intros i x Hx Hp. by apply lookup_singleton_Some in Hx as [_ <-].
  - intros a x Hx Hp. by apply lookup_singleton_Some in Hx as [_ <-].
Qed.

Definition sample_command : SettlementCommand := {|
  sc_transfer_id := 1; sc_attempt_id := 1; sc_payment_intent_id := 1; sc_merchant_id := 1;
  sc_fiat_amount_minor := 50; sc_match_strategy := ExactAmount; sc_outcome := Settle (mkRawAmount 1000);
  sc_policy_version := "v1"; sc_independent_groups := 2; sc_had_own_node := true;
  sc_finality_state := Finalized; sc_risk := Skipped; sc_risk_evaluation_id := None;
  sc_attestation_ids := [1; 2] |}.

Lemma settlement_pass_keeps_the_books_witness :
  (settle_pending sample_lease 10 sample_session).1
    = Ok {| sr_examined := 1; sr_settled := 1; sr_partial := 0; sr_overpaid := 0; sr_held := 0;
            sr_manual_required := 0; sr_ambiguous := 0; sr_unmatched := 0; sr_foreign_claim := 0;
            sr_already_processed := 0; sr_missing_policy := 0 |}
  /\ balanced (committed (settle_pending sample_lease 10 sample_session).2).
Proof.
  split; [vm_compute; reflexivity|].
  apply (settlement_pass_keeps_the_books sample_lease 10 sample_session), sample_balanced.
Defined.

(** The answer of the first settlement is lost; the second changes nothing. *)
Lemma settle_exactly_once_witness :
  exists e s1, @pg_settle Z deaf_postgres _ _ sample_lease sample_command sample_session = (Err e, s1)
    /\ ~ pending 1 (committed s1)
    /\ committed (@pg_settle Z deaf_postgres _ _ sample_lease sample_command s1).2 = committed s1.
Proof.
  destruct (@pg_settle Z deaf_postgres _ _ sample_lease sample_command sample_session)
    as [[record|e] s1] eqn:Hrun; [vm_compute in Hrun; discriminate Hrun|].
  assert (Hnp : ~ pending 1 (committed s1)).
  { vm_compute in Hrun. injection Hrun as _ <-. intros (row & Hrow & Hp). vm_compute in Hrow.
    injection Hrow as <-. discriminate Hp. }
  exists e, s1. split; [done|]. split; [done|].
  destruct (@settle_exactly_once Z deaf_postgres _ _ sample_lease sample_command sample_session
    (Err e) s1 sample_balanced Hrun) as (_ & _ & Hagain).
  destruct (@pg_settle Z deaf_postgres _ _ sample_lease sample_command s1) as [r2 s3] eqn:Hrun2.
  by destruct (Hagain Hnp sample_lease sample_command s1 r2 s3 eq_refl eq_refl Hrun2).
Defined.

Lemma settle_record_is_the_truth_witness :
  exists s1, pg_settle sample_lease sample_command sample_session = (Ok RecSettled, s1)
    /\ transfer_total (committed s1) 1 = 1000
    /\ paid_events 1 (committed s1) = 1%nat.
Proof.
  destruct (pg_settle sample_lease sample_command sample_session) as [[record|e] s1] eqn:Hrun;
    [|vm_compute in Hrun; discriminate Hrun].
  assert (record = RecSettled) as -> by (vm_compute in Hrun; injection Hrun as <- _; reflexivity).
  destruct (settle_record_is_the_truth sample_lease sample_command sample_session RecSettled s1
    sample_balanced Hrun) as (Htotal & Hpaid & _).
  exists s1. split; [done|]. split; [|apply Hpaid; by left]. rewrite Htotal. vm_compute. reflexivity.
Defined.
