(* ===== verification/Operations.v ===== *)
(** * Operations

    [gateway-application/src/operations.rs], [honor_approval.rs] and
    [redelivery.rs], with the pages of [operator_reads.rs]: what an operator
    key may do, the evidence it submits, the decisions it takes about parked
    money, and which of them need a second key. *)

From Stdlib Require Import Ascii String Strings.Byte.
From S2P Require Import Prelude RustStd Externals Effects Money Chain Quote Price Observations Settlement.

Local Open Scope Z_scope.

(** ** Error texts *)

Definition RepositoryError_to_string (e : RepositoryError) : string :=
  match e with
  | IdempotencyConflict => "an idempotency key was reused with a different request"
  | DuplicateReference => "the payment intent reference already exists for this merchant"
  | PaymentIntentNotQuotable => "the payment intent cannot receive a quote in its current state"
  | PaymentIntentNotCancellable => "the payment intent cannot be cancelled in its current state"
  | CollectorUnavailable => "the requested asset or collector address is unavailable"
  | AmountSlotsExhausted => "all exact-amount slots are currently leased"
  | CorruptData detail => String.append "stored data violated a domain invariant: " detail
  | LeaseLost => "this component no longer holds its lease"
  | TransitionRefused detail => String.append "the payment cannot make this state change: " detail
  | Unavailable detail => String.append "storage is unavailable: " detail
  end.

Definition PriceAggregationError_to_string (e : PriceAggregationError) : string :=
  match e with
  | PolicyDemandsTooFewSources => "a price needs at least two independent sources by policy"
  | NoReadings => "no reading was supplied"
  | NotEnoughSources required available =>
      String.append (dec_unsigned available)
        (String.append " independent source groups are usable, policy requires " (dec_unsigned required))
  | Diverged deviation ceiling =>
      String.append "sources disagree by "
        (String.append (dec_unsigned deviation)
           (String.append " basis points, policy allows " (dec_unsigned ceiling)))
  | PriceOverflow => "the rate arithmetic does not fit in 256 bits"
  end.

(** ** Scopes and keys *)

Inductive OperatorScope := Ingest | RiskIngest | ScopeRead | ScopeAdmin.
#[export] Instance OperatorScope_eq_dec : EqDecision OperatorScope.
Proof. solve_decision. Defined.
Definition OperatorScope_as_str (s : OperatorScope) : string :=
  match s with
  | Ingest => "ingest" | RiskIngest => "risk_ingest" | ScopeRead => "read" | ScopeAdmin => "admin"
  end.

Inductive RedeliveryError :=
  | RedInvalidIdempotencyKey
  | RedReasonRequired
  | EventNotFound
  | EndpointNotFound
  | StillQueued
  | NotAWebhook
  | RedIdempotencyConflict
  | RedRepository (e : RepositoryError).

Inductive OperationsError :=
  | MissingScope (scope : OperatorScope)
  | InvalidPageLimit
  | UnknownScope (text : string)
  | OpNoReadings
  | NoPricePolicy
  | SnapshotNotRecorded
  | NoOpenRailStop
  | ReasonRequired
  | InvalidIdempotencyKey
  | InvalidManualResolution
  | ManualResolutionConflict
  | ManualResolutionNotFound
  | InvalidRiskEvaluation
  | DualControlRequired
  | HonorProposalNotFound
  | HonorProposalNotPending
  | HonorProposalExpired
  | SameOperator
  | ExportRangeInvalid
  | ExportTooLarge
  | RiskProviderNotAllowed
  | OpRedelivery (e : RedeliveryError)
  | OpPrice (e : PriceAggregationError)
  | OpRepository (e : RepositoryError).

Definition RedeliveryError_to_string (e : RedeliveryError) : string :=
  match e with
  | RedInvalidIdempotencyKey => "the idempotency key must contain between 16 and 128 characters"
  | RedReasonRequired => "a reason of 1-1000 characters is required and recorded"
  | EventNotFound => "the webhook event does not exist"
  | EndpointNotFound => "the endpoint is not an active endpoint of the event's merchant"
  | StillQueued => "the event is still queued for delivery; it is not redelivered twice"
  | NotAWebhook => "the event is not a merchant webhook"
  | RedIdempotencyConflict => "the idempotency key was already used for a different redelivery"
  | RedRepository error => RepositoryError_to_string error
  end.

Definition OperationsError_to_string (e : OperationsError) : string :=
  match e with
  | MissingScope scope =>
      String.append "this operator key does not carry the "
        (String.append (OperatorScope_as_str scope) " scope")
  | InvalidPageLimit => "page limit must be greater than zero"
  | UnknownScope text => String.append "unknown operator scope: " text
  | OpNoReadings => "a price submission carries at least one reading"
  | NoPricePolicy => "no active quote policy governs this asset and currency"
  | SnapshotNotRecorded => "the snapshot was not written"
  | NoOpenRailStop => "no rail stop is open for this asset"
  | ReasonRequired => "a reason is required and recorded"
  | InvalidIdempotencyKey => "the idempotency key must contain between 16 and 128 characters"
  | InvalidManualResolution => "the manual-resolution fields do not match its action"
  | ManualResolutionConflict =>
      "the transfer, intent or attempt is not eligible for this manual decision"
  | ManualResolutionNotFound => "the transfer, intent or attempt was not found"
  | InvalidRiskEvaluation => "the risk evaluation is stale, future-dated or malformed"
  | DualControlRequired =>
      "this honor needs a second operator: propose it at /v1/operator/manual-honor-proposals"
  | HonorProposalNotFound => "the honor proposal does not exist"
  | HonorProposalNotPending => "the honor proposal was already approved, rejected or expired"
  | HonorProposalExpired => "the honor proposal expired before it was approved; propose it again"
  | SameOperator => "the operator key that proposed an honor cannot approve it"
  | ExportRangeInvalid =>
      "the export range must be YYYY-MM-DD dates, from not after to, at most 92 days"
  | ExportTooLarge =>
      "the export would exceed its row ceiling; narrow the range or name one merchant"
  | RiskProviderNotAllowed => "this operator key is not bound to the named risk provider"
  | OpRedelivery error => RedeliveryError_to_string error
  | OpPrice error => PriceAggregationError_to_string error
  | OpRepository error => RepositoryError_to_string error
  end.

Definition OperationsError_is_transient (e : OperationsError) : bool :=
  match e with
  | OpRepository error | OpRedelivery (RedRepository error) => RepositoryError_is_transient error
  | _ => false
  end.

Definition OperatorScope_parse : string -> result OperationsError OperatorScope :=
  parse_table [("ingest", Ingest); ("risk_ingest", RiskIngest); ("read", ScopeRead);
               ("admin", ScopeAdmin)] UnknownScope.

Record OperatorCredential := mkOperatorCredential {
  oc_key_id : Z;                     (* Uuid *)
  oc_label : string;
  oc_scopes : list OperatorScope;
}.
Definition allows (credential : OperatorCredential) (scope : OperatorScope) : bool :=
  bool_decide (scope ∈ oc_scopes credential).

(** ** Evidence *)

Record RecordedPrice := mkRecordedPrice {
  rp_snapshot_id : Z;
  rp_rate_numerator : string;
  rp_rate_denominator : string;
  rp_group_count : Z;                (* u32 *)
  rp_deviation_bps : Z;              (* u32 *)
  rp_observed_at : Z;
}.

Inductive PriceOutcome :=
  | PriceAggregated (aggregated : AggregatedPrice)
  | PriceRefused (reason : string).

Record PriceIngestion := mkPriceIngestion {
  pi_asset_id : Z;
  pi_currency : CurrencyCode;
  pi_readings : list PriceReading;
  pi_outcome : PriceOutcome;
  pi_ingested_by : Z;
  pi_received_at : Z;
}.

Record RailStop := mkRailStop {
  rl_id : Z;
  rl_asset_id : Z;
  rl_reason_code : string;
  rl_detail : option string;
  rl_opened_by : string;
  rl_opened_at : Z;
}.

Record RiskSubmission := mkRiskSubmission {
  rb_transfer_id : Z;
  rb_provider : string;
  rb_decision : RiskDecision;
  rb_score : option Z;               (* i32 *)
  rb_reasons : json;
  rb_evaluated_at : Z;
}.

(** ** Decisions *)

#[export] Instance ManualResolutionAction_eq_dec : EqDecision ManualResolutionAction.
Proof. solve_decision. Defined.

Record ManualResolution := mkManualResolution {
  ma_action : ManualResolutionAction;
  ma_transfer_id : Z;
  ma_payment_intent_id : option Z;
  ma_attempt_id : option Z;
  ma_allocate_raw : option RawAmount;
  ma_remainder_raw : option RawAmount;
  ma_disposition : option RemainderDisposition;
  ma_external_reference : option string;
  ma_reason : string;
}.

Record ManualResolutionResult := mkManualResolutionResult {
  mz_id : Z;
  mz_action : ManualResolutionAction;
  mz_transfer_id : Z;
  mz_payment_intent_id : option Z;
  mz_attempt_id : option Z;
  mz_merchant_id : option Z;
  mz_allocated_raw : option RawAmount;
  mz_remainder_raw : option RawAmount;
  mz_replayed : bool;
}.

Definition HONOR_PROPOSAL_TTL : Z := duration_hours 24.

Record HonorApprovalPolicy := mkHonorApprovalPolicy { dual_control_min_raw : RawAmount }.
Definition HonorApprovalPolicy_default : HonorApprovalPolicy := mkHonorApprovalPolicy RawAmount_ZERO.
Inductive InvalidHonorThreshold := InvalidThreshold.

Definition requires_second_operator (policy : HonorApprovalPolicy) (allocate_raw : RawAmount) : bool :=
  as_u256 (dual_control_min_raw policy) <=? as_u256 allocate_raw.

Definition HonorApprovalPolicy_from_setting `{U256Lib} (value : option string)
    : result InvalidHonorThreshold HonorApprovalPolicy :=
  match trim <$> value with
  | None => Ok HonorApprovalPolicy_default
  | Some text =>
      if bool_decide (text = "") then Err InvalidThreshold
      else if str_forallb (fun byte => ascii_Z byte =? 48) text then Ok HonorApprovalPolicy_default
      else map_err (fun _ => InvalidThreshold) (mkHonorApprovalPolicy <$> RawAmount_from_str text)
  end.

Inductive ProposalStatus := ProposalPending | ProposalApproved | ProposalRejected | ProposalExpired.
#[export] Instance ProposalStatus_eq_dec : EqDecision ProposalStatus.
Proof. solve_decision. Defined.
Definition ProposalStatus_as_str (s : ProposalStatus) : string :=
  match s with
  | ProposalPending => "pending" | ProposalApproved => "approved"
  | ProposalRejected => "rejected" | ProposalExpired => "expired"
  end.
Definition ProposalStatus_parse : string -> result RepositoryError ProposalStatus :=
  parse_table [("pending", ProposalPending); ("approved", ProposalApproved);
               ("rejected", ProposalRejected); ("expired", ProposalExpired)]
    (fun other => CorruptData (String.append "unknown honor proposal status " other)).

Record HonorProposal := mkHonorProposal {
  hp_id : Z;
  hp_transfer_id : Z;
  hp_payment_intent_id : Z;
  hp_attempt_id : Z;
  hp_merchant_id : Z;
  hp_allocate_raw : RawAmount;
  hp_threshold_raw : RawAmount;
  hp_reason : string;
  hp_evidence : json;
  hp_proposed_by_key_id : Z;
  hp_proposed_by_label : string;
  hp_status : ProposalStatus;
  hp_created_at : Z;
  hp_expires_at : Z;
  hp_decided_by_key_id : option Z;
  hp_decided_by_label : option string;
  hp_decision_reason : option string;
  hp_decided_at : option Z;
  hp_resolution_id : option Z;
  hp_replayed : bool;
}.

(** ** Redelivery *)

Inductive RedeliveryActor :=
  | ActorOperatorKey (key_id : Z) (label : string)
  | ActorAdmin (name : string).
Definition principal `{UuidLib} (actor : RedeliveryActor) : string :=
  match actor with
  | ActorOperatorKey key_id _ => String.append "operator_key:" (uuid_to_string key_id)
  | ActorAdmin name => String.append "admin:" name
  end.
Definition actor_label (actor : RedeliveryActor) : string :=
  match actor with ActorOperatorKey _ label => label | ActorAdmin name => name end.
Definition operator_key_id (actor : RedeliveryActor) : option Z :=
  match actor with ActorOperatorKey key_id _ => Some key_id | ActorAdmin _ => None end.

Record WebhookRedelivery := mkWebhookRedelivery {
  wr_event_id : Z;
  wr_endpoint_id : option Z;
  wr_reason : string;
}.
Record RedeliveryResult := mkRedeliveryResult {
  rv_id : Z;
  rv_event_id : Z;
  rv_merchant_id : Z;
  rv_endpoint_id : option Z;
  rv_previous_state : string;
  rv_previous_attempts : Z;          (* i32 *)
  rv_requested_at : Z;
  rv_replayed : bool;
}.

(** ** Pages *)

Definition DEFAULT_PAGE_LIMIT : Z := 50.
Definition MAX_PAGE_LIMIT : Z := 200.
Record PageRequest := mkPageRequest { pq_limit : Z; pq_before : option Z }.
Definition PageRequest_new (limit : option Z) (before : option Z) : result OperationsError PageRequest :=
  let requested := default DEFAULT_PAGE_LIMIT limit in
  if requested =? 0 then Err InvalidPageLimit
  else Ok {| pq_limit := Z.min requested MAX_PAGE_LIMIT; pq_before := before |}.

Record Page (T : Type) := mkPage { pg_items : list T; pg_next_before : option Z }.
Arguments mkPage {T}.
Arguments pg_items {T}.
Arguments pg_next_before {T}.
Class Identified (T : Type) := identified_id : T -> Z.
#[export] Instance HonorProposal_identified : Identified HonorProposal := hp_id.
Definition Page_from_items {T} `{Identified T} (items : list T) (limit : Z) : Page T :=
  let has_more := Z.of_nat (length items) >? limit in
  let items := take (Z.to_nat limit) items in
  {| pg_items := items;
     pg_next_before := if has_more then identified_id <$> last items else None |}.

(** ** Checks *)

(** [(16..=128).contains(&key.len()) && key.bytes().all(..)] *)
Definition well_formed_key (key : string) : bool :=
  in_range 16 128 (str_len key)
  && str_forallb (fun byte => is_ascii_alphanumeric byte
                              || (ascii_Z byte =? 45) || (ascii_Z byte =? 95)) key.
Definition validate_idempotency_key (key : string) : result OperationsError unit :=
  if well_formed_key key then Ok tt else Err InvalidIdempotencyKey.

Definition validate_reason (reason : string) : result OperationsError unit :=
  if in_range 1 1000 (str_len (trim reason)) then Ok tt else Err ReasonRequired.

Definition is_none {A} (o : option A) : bool := match o with None => true | Some _ => false end.
Definition is_some {A} (o : option A) : bool := negb (is_none o).
Definition is_some_and {A} (o : option A) (p : A -> bool) : bool :=
  match o with Some a => p a | None => false end.

Definition validate_manual_resolution (resolution : ManualResolution) : result OperationsError unit :=
  let honor := is_some (ma_payment_intent_id resolution) && is_some (ma_attempt_id resolution)
    && is_some_and (ma_allocate_raw resolution) (fun amount => negb (RawAmount_is_zero amount))
    && is_none (ma_remainder_raw resolution) && is_none (ma_disposition resolution)
    && is_none (ma_external_reference resolution) in
  let reject := is_none (ma_payment_intent_id resolution) && is_none (ma_attempt_id resolution)
    && is_none (ma_allocate_raw resolution) && is_none (ma_remainder_raw resolution)
    && is_none (ma_disposition resolution) && is_none (ma_external_reference resolution) in
  let disposition := is_some (ma_payment_intent_id resolution) && is_none (ma_attempt_id resolution)
    && is_none (ma_allocate_raw resolution)
    && is_some_and (ma_remainder_raw resolution) (fun amount => negb (RawAmount_is_zero amount))
    && is_some (ma_disposition resolution)
    && is_some_and (ma_external_reference resolution)
         (fun reference => in_range 1 200 (str_len (trim reference))) in
  let valid := match ma_action resolution with
               | Honor => honor
               | Reject => reject
               | RecordRemainderDisposition => disposition
               end in
  if valid then Ok tt else Err InvalidManualResolution.

Definition refusal_code (error : PriceAggregationError) : string :=
  match error with
  | PolicyDemandsTooFewSources => "policy_demands_too_few_sources"
  | NoReadings => "no_readings"
  | NotEnoughSources _ _ => "not_enough_sources"
  | Diverged _ _ => "diverged"
  | PriceOverflow => "overflow"
  end.

Section hashes.
Context `{U256Lib} `{HashLib} `{UuidLib}.

(** A length-prefixed value: eight bytes of length, then the bytes. *)
Definition hash_value (value : string) : list byte :=
  be_bytes 8 (str_len value) ++ as_bytes value.
Definition text_or_default {A} (f : A -> string) (o : option A) : string :=
  match o with Some a => f a | None => "" end.

Definition resolution_values (resolution : ManualResolution) : list string :=
  [ ManualResolutionAction_as_str (ma_action resolution);
    uuid_to_string (ma_transfer_id resolution);
    text_or_default uuid_to_string (ma_payment_intent_id resolution);
    text_or_default uuid_to_string (ma_attempt_id resolution);
    text_or_default RawAmount_to_string (ma_allocate_raw resolution);
    text_or_default RawAmount_to_string (ma_remainder_raw resolution);
    text_or_default RemainderDisposition_as_str (ma_disposition resolution);
    text_or_default (fun reference => reference) (ma_external_reference resolution);
    ma_reason resolution ].
Definition manual_resolution_hash (resolution : ManualResolution) : list byte :=
  sha256 (mjoin (hash_value <$> resolution_values resolution)).

Definition redelivery_values (request : WebhookRedelivery) : list string :=
  [ uuid_to_string (wr_event_id request); text_or_default uuid_to_string (wr_endpoint_id request);
    wr_reason request ].
Definition validate_redelivery (idempotency_key : string) (request : WebhookRedelivery)
    : result RedeliveryError (list byte) :=
  if negb (well_formed_key idempotency_key) then Err RedInvalidIdempotencyKey
  else if negb (in_range 1 1000 (chars_count (trim (wr_reason request)))) then Err RedReasonRequired
  else Ok (sha256 (mjoin (hash_value <$> redelivery_values request))).
End hashes.

(** ** The repositories *)

Class OperationsRepository (W : Type) := {
  authenticate_operator_key : list byte -> eff W RepositoryError (option OperatorCredential);
  price_policy : Z -> CurrencyCode -> eff W RepositoryError (option PriceAggregationPolicy);
  record_price_ingestion : PriceIngestion -> eff W RepositoryError (option RecordedPrice);
  record_rail_health : Z -> RailHealth -> option string -> Z -> Z -> eff W RepositoryError Z;
  repo_open_rail_stop : Z -> string -> option string -> string -> Z -> eff W RepositoryError RailStop;
  repo_clear_rail_stop : Z -> string -> string -> Z -> eff W RepositoryError bool;
  find_open_rail_stop : Z -> eff W RepositoryError (option RailStop);
  record_risk_evaluation : RiskSubmission -> Z -> eff W RepositoryError Z;
  risk_provider_allowed : Z -> string -> eff W RepositoryError bool;
  repo_resolve_manual : OperatorCredential -> string -> list byte -> ManualResolution -> Z ->
    eff W OperationsError ManualResolutionResult;
}.
Class HonorProposalRepository (W : Type) := {
  repo_propose_honor : OperatorCredential -> string -> list byte -> ManualResolution -> RawAmount ->
    Z -> Z -> eff W OperationsError HonorProposal;
  repo_approve_honor : OperatorCredential -> Z -> string -> string -> Z ->
    eff W OperationsError ManualResolutionResult;
  repo_reject_honor : OperatorCredential -> Z -> string -> string -> Z ->
    eff W OperationsError HonorProposal;
  repo_pending_honor_proposals : PageRequest -> Z -> eff W RepositoryError (list HonorProposal);
}.
Class RedeliveryRepository (W : Type) := {
  redeliver_webhook_event : RedeliveryActor -> string -> list byte -> WebhookRedelivery -> Z ->
    eff W RedeliveryError RedeliveryResult;
}.

(** ** The service

    Its configuration is the honor policy; the repository and the clock are
    the world's. *)

Record OperationsService := mkOperationsService { os_honor_policy : HonorApprovalPolicy }.
Definition OperationsService_new : OperationsService := mkOperationsService HonorApprovalPolicy_default.
Definition with_honor_approval_policy (policy : HonorApprovalPolicy) (_ : OperationsService)
    : OperationsService := mkOperationsService policy.

Definition require (credential : OperatorCredential) (scope : OperatorScope)
    : result OperationsError unit :=
  if allows credential scope then Ok tt else Err (MissingScope scope).

Section service.
Context {W : Type} `{Clock W} `{U256Lib} `{HashLib} `{UuidLib} `{TimeLib} `{OperationsRepository W}.
Implicit Types (credential : OperatorCredential) (self : OperationsService).

Definition call {A} (m : eff W RepositoryError A) : eff W OperationsError A := eff_map_err OpRepository m.

Definition submit_price credential (asset_id : Z) (currency : CurrencyCode)
    (readings : list PriceReading) : eff W OperationsError RecordedPrice :=
  _ ← lift (require credential Ingest);
  _ ← lift (guard_err (bool_decide (readings = [])) OpNoReadings);
  policy ← call (price_policy asset_id currency);
  policy ← lift (ok_or policy NoPricePolicy);
  now ← read_clock;
  let ingestion outcome := {|
    pi_asset_id := asset_id; pi_currency := currency; pi_readings := readings; pi_outcome := outcome;
    pi_ingested_by := oc_key_id credential; pi_received_at := now |} in
  match aggregate readings policy now with
  | Ok aggregated =>
      recorded ← call (record_price_ingestion (ingestion (PriceAggregated aggregated)));
      lift (ok_or recorded SnapshotNotRecorded)
  | Err error =>
      _ ← call (record_price_ingestion (ingestion (PriceRefused (refusal_code error))));
      lift (Err (OpPrice error))
  end.

Definition submit_rail_health credential (asset_id : Z) (health : RailHealth) (detail : option string)
    : eff W OperationsError Z :=
  _ ← lift (require credential Ingest);
  now ← read_clock;
  call (record_rail_health asset_id health detail (oc_key_id credential) now).

Definition open_rail_stop credential (asset_id : Z) (reason_code : string) (detail : option string)
    : eff W OperationsError RailStop :=
  _ ← lift (require credential ScopeAdmin);
  _ ← lift (guard_err (bool_decide (trim reason_code = "")) ReasonRequired);
  now ← read_clock;
  call (repo_open_rail_stop asset_id reason_code detail (oc_label credential) now).

Definition clear_rail_stop credential (asset_id : Z) (reason : string) : eff W OperationsError unit :=
  _ ← lift (require credential ScopeAdmin);
  _ ← lift (guard_err (bool_decide (trim reason = "")) ReasonRequired);
  now ← read_clock;
  cleared ← call (repo_clear_rail_stop asset_id (oc_label credential) reason now);
  lift (if (cleared : bool) then Ok tt else Err NoOpenRailStop).

Definition submit_risk_evaluation credential (submission : RiskSubmission) : eff W OperationsError Z :=
  _ ← lift (require credential RiskIngest);
  let provider := trim (rb_provider submission) in
  _ ← lift (guard_err (bool_decide (provider = "") || (100 <? str_len provider)
                       || negb (bool_decide (provider = rb_provider submission))) InvalidRiskEvaluation);
  now ← read_clock;
  earliest ← lift (ok_or (odt_checked_add now (- duration_hours 1)) InvalidRiskEvaluation);
  latest ← lift (ok_or (odt_checked_add now (duration_seconds 30)) InvalidRiskEvaluation);
  _ ← lift (guard_err ((rb_evaluated_at submission <? earliest) || (latest <? rb_evaluated_at submission))
              InvalidRiskEvaluation);
  allowed ← call (risk_provider_allowed (oc_key_id credential) provider);
  _ ← lift (guard_err (negb allowed) RiskProviderNotAllowed);
  call (record_risk_evaluation submission (oc_key_id credential)).

Definition resolve_manual self credential (idempotency_key : string) (resolution : ManualResolution)
    : eff W OperationsError ManualResolutionResult :=
  _ ← lift (require credential ScopeAdmin);
  _ ← lift (validate_idempotency_key idempotency_key);
  _ ← lift (validate_reason (ma_reason resolution));
  _ ← lift (validate_manual_resolution resolution);
  _ ← lift (guard_err (bool_decide (ma_action resolution = Honor)
                       && is_some_and (ma_allocate_raw resolution)
                            (requires_second_operator (os_honor_policy self))) DualControlRequired);
  let request_hash := manual_resolution_hash resolution in
  now ← read_clock;
  repo_resolve_manual credential idempotency_key request_hash resolution now.

Context `{HonorProposalRepository W}.

Definition propose_honor self credential (idempotency_key : string) (resolution : ManualResolution)
    : eff W OperationsError HonorProposal :=
  _ ← lift (require credential ScopeAdmin);
  _ ← lift (validate_idempotency_key idempotency_key);
  _ ← lift (validate_reason (ma_reason resolution));
  _ ← lift (guard_err (negb (bool_decide (ma_action resolution = Honor))) InvalidManualResolution);
  _ ← lift (validate_manual_resolution resolution);
  now ← read_clock;
  expires_at ← lift (ok_or (odt_checked_add now HONOR_PROPOSAL_TTL) InvalidManualResolution);
  repo_propose_honor credential idempotency_key (manual_resolution_hash resolution) resolution
    (dual_control_min_raw (os_honor_policy self)) now expires_at.

Definition approve_honor credential (proposal_id : Z) (idempotency_key reason : string)
    : eff W OperationsError ManualResolutionResult :=
  _ ← lift (require credential ScopeAdmin);
  _ ← lift (validate_idempotency_key idempotency_key);
  _ ← lift (validate_reason reason);
  now ← read_clock;
  repo_approve_honor credential proposal_id idempotency_key reason now.

Definition reject_honor credential (proposal_id : Z) (idempotency_key reason : string)
    : eff W OperationsError HonorProposal :=
  _ ← lift (require credential ScopeAdmin);
  _ ← lift (validate_idempotency_key idempotency_key);
  _ ← lift (validate_reason reason);
  now ← read_clock;
  repo_reject_honor credential proposal_id idempotency_key reason now.

Definition pending_honor_proposals credential (limit : option Z) (before : option Z)
    : eff W OperationsError (Page HonorProposal) :=
  _ ← lift (require credential ScopeRead);
  page ← lift (PageRequest_new limit before);
  now ← read_clock;
  items ← call (repo_pending_honor_proposals page now);
  mret (Page_from_items items (pq_limit page)).

Context `{RedeliveryRepository W}.

Definition redeliver_webhook credential (idempotency_key : string) (request : WebhookRedelivery)
    : eff W OperationsError RedeliveryResult :=
  _ ← lift (require credential ScopeAdmin);
  hash ← lift (map_err OpRedelivery (validate_redelivery idempotency_key request));
  let actor := ActorOperatorKey (oc_key_id credential) (oc_label credential) in
  now ← read_clock;
  eff_map_err OpRedelivery (redeliver_webhook_event actor idempotency_key hash request now).
End service.
