(* ===== verification/StorageOperations.v ===== *)
(** * Operations in storage

    [gateway-storage/src/operations.rs] and [honor_proposals.rs]: one
    transaction per submission or decision, the replay of a decision under its
    idempotency key, the honor of parked money with every check it rests on,
    and the proposals that need a second operator key. *)

From Stdlib Require Import Ascii String Strings.Byte.
From stdpp Require Import gmap sorting.
From S2P Require Import Prelude RustStd Externals Effects Money Chain Quote Price Observations Settlement.
From S2P Require Import SettlementService Database StorageSettlement Operations.

Local Open Scope Z_scope.

(** ** Rows *)

Record OperatorKeyColumns := mkOperatorKeyColumns {
  oy_id : Z;
  oy_label : string;
  oy_scopes : list string;
}.
Record PricePolicyRow := mkPricePolicyRow {
  pp_min_price_sources : Z;          (* i32 *)
  pp_max_price_age_seconds : Z;      (* i64 *)
  pp_max_price_deviation_bps : Z;    (* i32 *)
}.
Definition RailStop_from (entry : Z * RailStopRow) : RailStop :=
  let '(id, row) := entry in
  {| rl_id := id; rl_asset_id := rs_asset_id row; rl_reason_code := rs_reason_code row;
     rl_detail := rs_detail row; rl_opened_by := rs_opened_by row; rl_opened_at := rs_opened_at row |}.

Record ManualHonorRow := mkManualHonorRow {
  mh_merchant_id : Z;
  mh_fiat_amount_minor : Z;          (* i64 *)
  mh_expected_raw : string;
  mh_attempt_allocated_raw : string;
  mh_transfer_raw : string;
  mh_transfer_allocated_raw : string;
  mh_finality : string;
  mh_processing_state : string;
  mh_bound_to_attempt : bool;
  mh_attempt_status : string;
  mh_intent_status : string;
  mh_within_late_window : bool;
}.

Record HonorPlan := mkHonorPlan {
  pl_row : ManualHonorRow;
  pl_outcome : SettlementOutcome;
  pl_outcome_name : string;
  pl_allocate : RawAmount;
  pl_remainder : RawAmount;
}.

Definition honor_is_bound (row : ManualHonorRow) : bool :=
  mh_bound_to_attempt row
  && bool_decide (mh_attempt_status row ∈ ["awaiting_payment"; "expired"])
  && bool_decide (mh_intent_status row ∈ ["awaiting_payment"; "partially_paid"; "risk_hold"; "expired"])
  && mh_within_late_window row.

Definition health_text (health : RailHealth) : string :=
  match health with
  | Quote.Healthy => "healthy" | Quote.Degraded => "degraded" | Quote.Unavailable => "unavailable"
  end.

(** ** Queries *)

Definition honor_row (transfer_id attempt_id intent_id : Z) (db : Database) : option ManualHonorRow :=
  a ← payment_attempts db !! attempt_id;
  i ← payment_intents db !! intent_id;
  q ← payment_quotes db !! tt_quote_id a;
  ca ← chain_assets db !! qr_asset_id q;
  t ← chain_transfers db !! transfer_id;
  s ← st_state <$> chain_transfer_state_current db !! transfer_id;
  p ← chain_transfer_processing db !! transfer_id;
  if (tt_payment_intent_id a =? intent_id) && (ir_merchant_id i =? tt_merchant_id a)
     && (qr_payment_intent_id q =? intent_id) && (qr_merchant_id q =? tt_merchant_id a)
     && (qr_collector_address_id q =? tt_collector_address_id a)
  then Some {|
    mh_merchant_id := ir_merchant_id i; mh_fiat_amount_minor := ir_amount_minor i;
    mh_expected_raw := numeric_text (tt_expected_amount_raw a);
    mh_attempt_allocated_raw := numeric_text (attempt_total db attempt_id);
    mh_transfer_raw := numeric_text (tr_amount_raw t);
    mh_transfer_allocated_raw := numeric_text (pr_allocated_raw p);
    mh_finality := s; mh_processing_state := pr_processing_state p;
    mh_bound_to_attempt :=
      (tr_collector_address_id t =? tt_collector_address_id a) && (tr_asset_id t =? qr_asset_id q)
      && bool_decide (tr_chain t = at_chain ca) && bool_decide (tr_network t = at_network ca)
      && bool_decide (tr_chain_environment t = at_chain_environment ca);
    mh_attempt_status := tt_status a; mh_intent_status := ir_status i;
    mh_within_late_window := tr_block_time t <? tt_late_payment_until a |}
  else None.

Definition policy_row (asset_id : Z) (currency : CurrencyCode) (db : Database) : option PricePolicyRow :=
  '(_, row) ← find_where (fun row => (qp_asset_id row =? asset_id)
                 && bool_decide (qp_fiat_currency row = CurrencyCode_as_str currency)
                 && bool_decide (qp_status row = "active")) (quote_policies db);
  Some {| pp_min_price_sources := qp_min_price_sources row;
          pp_max_price_age_seconds := qp_max_price_age_seconds row;
          pp_max_price_deviation_bps := qp_max_price_deviation_bps row |}.

Definition is_open_stop (asset_id : Z) (row : RailStopRow) : bool :=
  (rs_asset_id row =? asset_id) && is_none (rs_cleared_at row).

(** ** Statements *)

Definition use_operator_key (secret_hash : list byte) (now : Z)
    : statement (option OperatorKeyColumns) := fun db =>
  match find_where (fun key => bool_decide (ok_secret_hash key = secret_hash)
                               && is_none (ok_revoked_at key)) (operator_api_keys db) with
  | Some (id, key) =>
      Ok (Some {| oy_id := id; oy_label := ok_label key; oy_scopes := ok_scopes key |},
          on_operator_keys <[id := {| ok_label := ok_label key; ok_secret_hash := ok_secret_hash key;
            ok_scopes := ok_scopes key; ok_last_used_at := Some now;
            ok_revoked_at := ok_revoked_at key |}]> db)
  | None => Ok (None, db)
  end.

Definition insert_snapshot (id : Z) (row : PriceSnapshotRow) : statement unit := fun db =>
  _ ← check_constraint "price_snapshots_fiat_currency_check"
        (bool_decide (to_ascii_uppercase (sp_fiat_currency row) = sp_fiat_currency row));
  _ ← check_constraint "price_snapshots_rate_check"
        ((0 <? sp_rate_numerator row) && (0 <? sp_rate_denominator row));
  _ ← check_constraint "price_snapshots_sources_check"
        (match json_as_array (sp_sources row) with Some l => 2 <=? Z.of_nat (length l) | None => false end);
  _ ← check_constraint "price_snapshots_count_check"
        ((0 <=? sp_source_group_count row) && (0 <=? sp_deviation_bps row));
  _ ← unique_key "price_snapshots_pkey" (is_row (price_snapshots db) id);
  _ ← foreign_key "price_snapshots_asset_id_fkey" (is_row (chain_assets db) (sp_asset_id row));
  _ ← foreign_key "price_snapshots_ingested_by_fkey"
        (is_row_or_null (operator_api_keys db) (sp_ingested_by row));
  Ok (tt, on_price_snapshots <[id := row]> db).

Definition insert_reading_row (key : Z * string * string * Z) (row : PriceReadingRow)
    : statement unit := fun db =>
  let '(asset_id, currency, source_key, _) := key in
  _ ← check_constraint "price_readings_fiat_currency_check"
        (bool_decide (to_ascii_uppercase currency = currency));
  _ ← check_constraint "price_readings_source_check"
        (in_range 1 100 (char_length source_key) && in_range 1 100 (char_length (rr_provider_group row)));
  _ ← check_constraint "price_readings_rate_check"
        ((0 <? rr_rate_numerator row) && (0 <? rr_rate_denominator row));
  _ ← check_constraint "price_readings_check"
        (Bool.eqb (is_none (rr_snapshot_id row)) (is_some (rr_discard_reason row)));
  if is_row (price_readings db) key then Ok (tt, db)
  else
    _ ← unique_key "price_readings_pkey"
          (bool_decide (map_Exists (fun _ r => rr_id r = rr_id row) (price_readings db)));
    _ ← foreign_key "price_readings_asset_id_fkey" (is_row (chain_assets db) asset_id);
    _ ← foreign_key "price_readings_ingested_by_fkey" (is_row (operator_api_keys db) (rr_ingested_by row));
    _ ← foreign_key "price_readings_snapshot_id_fkey" (is_row_or_null (price_snapshots db) (rr_snapshot_id row));
    Ok (tt, on_price_readings <[key := row]> db).

Definition insert_rail_health (id : Z) (row : RailHealthRow) : statement unit := fun db =>
  _ ← unique_key "rail_health_snapshots_pkey" (is_row (rail_health_snapshots db) id);
  _ ← foreign_key "rail_health_snapshots_asset_id_fkey" (is_row (chain_assets db) (rh_asset_id row));
  _ ← foreign_key "rail_health_snapshots_ingested_by_fkey"
        (is_row_or_null (operator_api_keys db) (rh_ingested_by row));
  Ok (tt, on_rail_health <[id := row]> db).

(** [INSERT INTO rail_stops .. ON CONFLICT DO NOTHING RETURNING ..] *)
Definition insert_rail_stop (id : Z) (row : RailStopRow) : statement (option RailStop) := fun db =>
  _ ← check_constraint "rail_stops_reason_code_check" (in_range 1 100 (char_length (rs_reason_code row)));
  if is_row (rail_stops db) id || is_some (find_where (is_open_stop (rs_asset_id row)) (rail_stops db))
  then Ok (None, db)
  else
    _ ← foreign_key "rail_stops_asset_id_fkey" (is_row (chain_assets db) (rs_asset_id row));
    Ok (Some (RailStop_from (id, row)), on_rail_stops <[id := row]> db).

Definition clear_stop (asset_id : Z) (cleared_by reason : string) (cleared_at : Z) : statement Z := fun db =>
  let '(rows, table) := update_where (is_open_stop asset_id) (fun row => {|
    rs_asset_id := rs_asset_id row; rs_reason_code := rs_reason_code row; rs_detail := rs_detail row;
    rs_opened_by := rs_opened_by row; rs_opened_at := rs_opened_at row; rs_cleared_by := Some cleared_by;
    rs_cleared_reason := Some reason; rs_cleared_at := Some cleared_at |}) (rail_stops db) in
  Ok (rows, on_rail_stops (fun _ => table) db).

(** [INSERT .. ON CONFLICT (transfer_id, provider, evaluated_at) DO NOTHING] *)
Definition insert_risk (id : Z) (row : RiskRow) : statement unit := fun db =>
  _ ← check_constraint "payment_risk_evaluations_reasons_check" (json_is_object (rk_reasons row));
  if is_some (find_where (fun r => (rk_transfer_id r =? rk_transfer_id row)
                            && bool_decide (rk_provider r = rk_provider row)
                            && (rk_evaluated_at r =? rk_evaluated_at row)) (payment_risk_evaluations db))
  then Ok (tt, db)
  else
    _ ← unique_key "payment_risk_evaluations_pkey" (is_row (payment_risk_evaluations db) id);
    _ ← foreign_key "payment_risk_evaluations_transfer_id_fkey"
          (is_row (chain_transfers db) (rk_transfer_id row));
    _ ← foreign_key "payment_risk_evaluations_submitted_by_fkey"
          (is_row_or_null (operator_api_keys db) (rk_submitted_by row));
    Ok (tt, on_risk <[id := row]> db).

(** [INSERT INTO manual_resolution_requests .. ON CONFLICT .. DO NOTHING] *)
Definition insert_resolution_row (key : Z * string) (row : ResolutionRow) : statement Z := fun db =>
  _ ← check_constraint "manual_resolution_requests_idempotency_key_check"
        (in_range 16 128 (char_length (snd key)));
  _ ← check_constraint "manual_resolution_requests_amount_check"
        (negb (is_some_and (re_allocated_raw row) (fun z => z <=? 0))
         && negb (is_some_and (re_remainder_raw row) (fun z => z <=? 0)));
  _ ← check_constraint "manual_resolution_requests_external_reference_check"
        (negb (is_some_and (re_external_reference row) (fun r => negb (in_range 1 200 (char_length r)))));
  _ ← check_constraint "manual_resolution_requests_reason_check"
        (in_range 1 1000 (char_length (btrim (re_reason row))));
  _ ← check_constraint "manual_resolution_requests_actor_label_check"
        (in_range 1 100 (char_length (re_actor_label row)));
  if is_row (manual_resolution_requests db) key then Ok (0, db)
  else
    _ ← unique_key "manual_resolution_requests_pkey"
          (bool_decide (map_Exists (fun _ r => re_id r = re_id row) (manual_resolution_requests db)));
    _ ← foreign_key "manual_resolution_requests_operator_key_id_fkey"
          (is_row (operator_api_keys db) (fst key));
    _ ← foreign_key "manual_resolution_requests_transfer_id_fkey"
          (is_row (chain_transfers db) (re_transfer_id row));
    _ ← foreign_key "manual_resolution_requests_payment_intent_id_fkey"
          (is_row_or_null (payment_intents db) (re_payment_intent_id row));
    _ ← foreign_key "manual_resolution_requests_attempt_id_fkey"
          (is_row_or_null (payment_attempts db) (re_attempt_id row));
    _ ← foreign_key "manual_resolution_requests_merchant_id_fkey"
          (is_row_or_null (merchants db) (re_merchant_id row));
    Ok (1, on_resolutions <[key := row]> db).

Definition insert_audit (id : Z) (row : AuditRow) : statement unit := fun db =>
  _ ← unique_key "audit_events_pkey" (is_row (audit_events db) id);
  _ ← foreign_key "audit_events_merchant_id_fkey" (is_row_or_null (merchants db) (au_merchant_id row));
  Ok (tt, on_audit <[id := row]> db).

Definition insert_disposition (transfer_id intent_id : Z) (row : DispositionRow) : statement unit := fun db =>
  let key := (transfer_id, intent_id) in
  _ ← check_constraint "overpayment_remainder_dispositions_remainder_raw_check" (0 <? di_remainder_raw row);
  _ ← check_constraint "overpayment_remainder_dispositions_external_reference_check"
        (in_range 1 200 (char_length (btrim (di_external_reference row))));
  _ ← unique_key "overpayment_remainder_dispositions_pkey"
        (bool_decide (map_Exists (fun _ d => di_id d = di_id row) (overpayment_remainder_dispositions db)));
  _ ← unique_key "overpayment_remainder_dispositions_resolution_id_key"
        (bool_decide (map_Exists (fun _ d => di_resolution_id d = di_resolution_id row)
                        (overpayment_remainder_dispositions db)));
  _ ← unique_key "overpayment_remainder_dispositions_transfer_id_payment_intent_id_key"
        (is_row (overpayment_remainder_dispositions db) key);
  _ ← foreign_key "overpayment_remainder_dispositions_resolution_id_fkey"
        (bool_decide (map_Exists (fun _ r => re_id r = di_resolution_id row) (manual_resolution_requests db)));
  _ ← foreign_key "overpayment_remainder_dispositions_transfer_id_fkey" (is_row (chain_transfers db) transfer_id);
  _ ← foreign_key "overpayment_remainder_dispositions_payment_intent_id_fkey"
        (is_row (payment_intents db) intent_id);
  _ ← foreign_key "overpayment_remainder_dispositions_merchant_id_fkey"
        (is_row (merchants db) (di_merchant_id row));
  _ ← foreign_key "overpayment_remainder_dispositions_recorded_by_fkey"
        (is_row (operator_api_keys db) (di_recorded_by row));
  Ok (tt, on_dispositions <[key := row]> db).

Definition is_unique_violation (e : SqlError) : bool :=
  match e with SqlViolation code _ => bool_decide (code = "23505") | _ => false end.

(** ** Proposals *)

(** The [CHECK]s of a proposal's row. *)
Definition proposal_check (row : ProposalRow) : bool :=
  let decided := bool_decide (ho_status row ∈ ["approved"; "rejected"]) in
  in_range 1 100 (char_length (ho_proposer_label row))
  && in_range 16 128 (char_length (ho_idempotency_key row))
  && (0 <? ho_allocate_raw row) && (0 <=? ho_threshold_raw row)
  && in_range 1 1000 (char_length (btrim (ho_reason row))) && json_is_object (ho_evidence row)
  && bool_decide (ho_status row ∈ ["pending"; "approved"; "rejected"; "expired"])
  && (ho_created_at row <? ho_expires_at row)
  && Bool.eqb (bool_decide (ho_status row = "pending")) (is_none (ho_decided_at row))
  && Bool.eqb decided (is_some (ho_decided_by_key_id row))
  && Bool.eqb (bool_decide (ho_status row = "approved")) (is_some (ho_resolution_id row))
  && (negb (bool_decide (ho_status row = "approved"))
      || negb (bool_decide (ho_decided_by_key_id row = Some (ho_proposer_key_id row)))).

Definition insert_proposal (id : Z) (row : ProposalRow) : statement (Z * ProposalRow) := fun db =>
  _ ← check_constraint "manual_honor_proposals_check" (proposal_check row);
  _ ← unique_key "manual_honor_proposals_pkey" (is_row (manual_honor_proposals db) id);
  _ ← unique_key "manual_honor_proposals_proposer_key_id_idempotency_key_key"
        (is_some (find_where (fun p => (ho_proposer_key_id p =? ho_proposer_key_id row)
           && bool_decide (ho_idempotency_key p = ho_idempotency_key row)) (manual_honor_proposals db)));
  _ ← unique_key "manual_honor_proposals_one_pending_idx"
        (is_some (find_where (fun p => (ho_transfer_id p =? ho_transfer_id row)
           && bool_decide (ho_status p = "pending")) (manual_honor_proposals db)));
  _ ← foreign_key "manual_honor_proposals_proposer_key_id_fkey"
        (is_row (operator_api_keys db) (ho_proposer_key_id row));
  _ ← foreign_key "manual_honor_proposals_transfer_id_fkey" (is_row (chain_transfers db) (ho_transfer_id row));
  _ ← foreign_key "manual_honor_proposals_payment_intent_id_fkey"
        (is_row (payment_intents db) (ho_payment_intent_id row));
  _ ← foreign_key "manual_honor_proposals_attempt_id_fkey" (is_row (payment_attempts db) (ho_attempt_id row));
  _ ← foreign_key "manual_honor_proposals_merchant_id_fkey" (is_row (merchants db) (ho_merchant_id row));
  Ok ((id, row), on_proposals <[id := row]> db).

(** The columns a decision sets; [status] and, for an approval, the resolution. *)
Definition decide_proposal (status : string) (by_key : option (Z * string)) (key : option string)
    (reason : option string) (now : Z) (resolution_id : option Z) (row : ProposalRow) : ProposalRow := {|
  ho_transfer_id := ho_transfer_id row; ho_payment_intent_id := ho_payment_intent_id row;
  ho_attempt_id := ho_attempt_id row; ho_merchant_id := ho_merchant_id row;
  ho_allocate_raw := ho_allocate_raw row; ho_threshold_raw := ho_threshold_raw row;
  ho_reason := ho_reason row; ho_evidence := ho_evidence row;
  ho_proposer_key_id := ho_proposer_key_id row; ho_proposer_label := ho_proposer_label row;
  ho_idempotency_key := ho_idempotency_key row; ho_request_hash := ho_request_hash row;
  ho_status := status; ho_created_at := ho_created_at row; ho_expires_at := ho_expires_at row;
  ho_decided_by_key_id := match by_key with Some (k, _) => Some k | None => ho_decided_by_key_id row end;
  ho_decided_by_label := match by_key with Some (_, l) => Some l | None => ho_decided_by_label row end;
  ho_decision_idempotency_key := match key with Some k => Some k | None => ho_decision_idempotency_key row end;
  ho_decision_reason := match reason with Some r => Some r | None => ho_decision_reason row end;
  ho_decided_at := Some now;
  ho_resolution_id := match resolution_id with Some r => Some r | None => ho_resolution_id row end |}.

(** [UPDATE .. WHERE id = $1]: the updated row, or none. *)
Definition update_proposal (id : Z) (set_ : ProposalRow -> ProposalRow)
    : statement (option (Z * ProposalRow)) := fun db =>
  match manual_honor_proposals db !! id with
  | None => Ok (None, db)
  | Some old =>
      let row := set_ old in
      _ ← check_constraint "manual_honor_proposals_check" (proposal_check row);
      _ ← unique_key "manual_honor_proposals_resolution_id_key"
            (is_some_and (ho_resolution_id row) (fun r =>
               bool_decide (map_Exists (fun id' p => id' <> id /\ ho_resolution_id p = Some r)
                              (manual_honor_proposals db))));
      _ ← foreign_key "manual_honor_proposals_decided_by_key_id_fkey"
            (is_row_or_null (operator_api_keys db) (ho_decided_by_key_id row));
      _ ← foreign_key "manual_honor_proposals_resolution_id_fkey"
            (negb (is_some_and (ho_resolution_id row) (fun r => negb (bool_decide (map_Exists
               (fun _ x => re_id x = r) (manual_resolution_requests db))))));
      Ok (Some (id, row), on_proposals <[id := row]> db)
  end.

(** Pending proposals of a transfer that nobody approved in time. *)
Definition expire_proposals (transfer_id now : Z) : statement Z := fun db =>
  let late row := (ho_transfer_id row =? transfer_id) && bool_decide (ho_status row = "pending")
                  && (ho_expires_at row <=? now) in
  let expire := decide_proposal "expired" None None None now None in
  _ ← check_constraint "manual_honor_proposals_check"
        (bool_decide (map_Forall (fun _ row => late row = true -> proposal_check (expire row) = true)
                        (manual_honor_proposals db)));
  let '(rows, table) := update_where late expire (manual_honor_proposals db) in
  Ok (rows, on_proposals (fun _ => table) db).

Section repository.
Context {R : Type} `{Postgres R} `{U256Lib} `{UuidLib} `{TimeSerde}.

Definition operations (A : Type) : Type := eff (Session R) OperationsError A.
(** A statement of an operator's transaction; [?] turns the repository's
    errors into the operation's. *)
Definition op_exec {A} (st : statement A) : operations A := eff_map_err OpRepository (exec st).
Definition op_error (e : SqlError) : OperationsError := OpRepository (unavailable e).
Definition fetch_optional {A} (f : Database -> option A) (missing : OperationsError) : operations A :=
  row ← op_exec (select f); lift (ok_or row missing).

Definition parse_raw (value : string) : result OperationsError RawAmount :=
  map_err (fun e => OpRepository (corrupt (MoneyError_to_string e))) (RawAmount_from_str value).
Definition parse_raw_allow_zero (value : string) : result OperationsError RawAmount :=
  if bool_decide (trim_start_zeros value = "") then Ok RawAmount_ZERO else parse_raw value.

(** ** Keys, prices, rails and screenings *)

Definition pg_authenticate_operator_key (secret_hash : list byte)
    : storage (R := R) (option OperatorCredential) :=
  row ← eff_map_err unavailable (run_pool_at (fun now => use_operator_key secret_hash now));
  match row with
  | None => mret None
  | Some row =>
      scopes ← lift (collect (fun scope => map_err (fun error =>
        corrupt (String.append "operator key: " (OperationsError_to_string error)))
          (OperatorScope_parse scope)) (oy_scopes row));
      mret (Some {| oc_key_id := oy_id row; oc_label := oy_label row; oc_scopes := scopes |})
  end.

Definition pg_price_policy (asset_id : Z) (currency : CurrencyCode)
    : storage (R := R) (option PriceAggregationPolicy) :=
  row ← pool_fetch (policy_row asset_id currency);
  match row with
  | None => mret None
  | Some row =>
      min_sources ← lift (ok_or (u32_try_from (pp_min_price_sources row))
        (corrupt "quote policy holds a negative source count"));
      max_deviation ← lift (ok_or (u32_try_from (pp_max_price_deviation_bps row))
        (corrupt "quote policy holds a negative deviation ceiling"));
      mret (Some {| pap_min_sources := min_sources;
                    pap_max_age_seconds := pp_max_price_age_seconds row;
                    pap_max_deviation_bps := max_deviation |})
  end.

Definition reading_json (reading : PriceReading) : json :=
  JObject [("observed_at", JNumber (dec_signed (pr_observed_at reading / 1000000000)));
           ("provider_group", JString (pr_provider_group reading));
           ("rate_denominator", JString (RawAmount_to_string (pr_rate_denominator reading)));
           ("rate_numerator", JString (RawAmount_to_string (pr_rate_numerator reading)));
           ("source_key", JString (pr_source_key reading))].
Definition sources_json (ingestion : PriceIngestion) (used : list nat) : result RepositoryError json :=
  entries ← collect (fun index =>
    reading ← ok_or (pi_readings ingestion !! index)
      (corrupt "an aggregated price named a reading that was not submitted");
    Ok (reading_json reading)) used;
  Ok (JArray entries).

Definition insert_reading (ingestion : PriceIngestion) (reading : PriceReading)
    (snapshot_id : option Z) (discard_reason : option string) : storage (R := R) unit :=
  id ← new_uuid;
  exec (insert_reading_row
    (pi_asset_id ingestion, CurrencyCode_as_str (pi_currency ingestion), pr_source_key reading,
     pr_observed_at reading)
    {| rr_id := id; rr_provider_group := pr_provider_group reading;
       rr_rate_numerator := as_u256 (pr_rate_numerator reading);
       rr_rate_denominator := as_u256 (pr_rate_denominator reading);
       rr_received_at := pi_received_at ingestion; rr_ingested_by := pi_ingested_by ingestion;
       rr_snapshot_id := snapshot_id; rr_discard_reason := discard_reason |}).

(** Why the aggregation did not use the reading at an index. *)
Definition discard_of (aggregated : AggregatedPrice) (index : nat) : option string :=
  PriceDiscardReason_as_str ∘ snd <$> List.find (fun d => Nat.eqb (fst d) index) (ap_discarded aggregated).
Definition insert_aggregated (ingestion : PriceIngestion) (aggregated : AggregatedPrice) (snapshot_id : Z)
    (entry : nat * PriceReading) : storage (R := R) unit :=
  let discard := discard_of aggregated (fst entry) in
  insert_reading ingestion (snd entry)
    (if is_none discard then Some snapshot_id else None) discard.

Definition pg_record_price_ingestion (ingestion : PriceIngestion)
    : storage (R := R) (option RecordedPrice) :=
  _ ← eff_map_err unavailable begin_transaction;
  recorded ← match pi_outcome ingestion with
    | PriceAggregated aggregated =>
        sources ← lift (sources_json ingestion (ap_used aggregated));
        observed_at ← lift (ok_or (pr_observed_at <$> min_by_key pr_observed_at
            (omap (fun index => pi_readings ingestion !! index) (ap_used aggregated)))
          (corrupt "an aggregated price used no reading"));
        snapshot_id ← new_uuid;
        _ ← exec (insert_snapshot snapshot_id {|
              sp_asset_id := pi_asset_id ingestion;
              sp_fiat_currency := CurrencyCode_as_str (pi_currency ingestion);
              sp_rate_numerator := as_u256 (ap_rate_numerator aggregated);
              sp_rate_denominator := as_u256 (ap_rate_denominator aggregated);
              sp_sources := sources; sp_observed_at := observed_at;
              sp_ingested_by := Some (pi_ingested_by ingestion);
              sp_source_group_count := default I32_MAX (i32_try_from (ap_group_count aggregated));
              sp_deviation_bps := default I32_MAX (i32_try_from (ap_deviation_bps aggregated)) |});
        _ ← for_each (fun _ entry => insert_aggregated ingestion aggregated snapshot_id entry)
              (enumerate (pi_readings ingestion)) tt;
        mret (Some {| rp_snapshot_id := snapshot_id;
                      rp_rate_numerator := RawAmount_to_string (ap_rate_numerator aggregated);
                      rp_rate_denominator := RawAmount_to_string (ap_rate_denominator aggregated);
                      rp_group_count := ap_group_count aggregated;
                      rp_deviation_bps := ap_deviation_bps aggregated;
                      rp_observed_at := observed_at |})
    | PriceRefused reason =>
        _ ← for_each (fun _ reading => insert_reading ingestion reading None (Some reason))
              (pi_readings ingestion) tt;
        mret None
    end;
  _ ← eff_map_err unavailable commit;
  mret recorded.

Definition pg_record_rail_health (asset_id : Z) (health : RailHealth) (detail : option string)
    (ingested_by observed_at : Z) : storage (R := R) Z :=
  id ← new_uuid;
  _ ← eff_map_err unavailable (run_pool (insert_rail_health id {|
        rh_asset_id := asset_id; rh_health := health_text health; rh_observed_at := observed_at;
        rh_ingested_by := Some ingested_by; rh_detail := detail |}));
  mret id.

Definition pg_find_open_rail_stop (asset_id : Z) : storage (R := R) (option RailStop) :=
  pool_fetch (fun db => RailStop_from <$> find_where (is_open_stop asset_id) (rail_stops db)).

Definition pg_open_rail_stop (asset_id : Z) (reason_code : string) (detail : option string)
    (opened_by : string) (opened_at : Z) : storage (R := R) RailStop :=
  id ← new_uuid;
  inserted ← eff_map_err unavailable (run_pool (insert_rail_stop id {|
    rs_asset_id := asset_id; rs_reason_code := reason_code; rs_detail := detail;
    rs_opened_by := opened_by; rs_opened_at := opened_at; rs_cleared_by := None;
    rs_cleared_reason := None; rs_cleared_at := None |}));
  match inserted with
  | Some row => mret row
  | None =>
      stop ← pg_find_open_rail_stop asset_id;
      lift (ok_or stop (corrupt "a rail stop conflicted with nothing that is open"))
  end.

Definition pg_clear_rail_stop (asset_id : Z) (cleared_by reason : string) (cleared_at : Z)
    : storage (R := R) bool :=
  rows ← eff_map_err unavailable (run_pool (clear_stop asset_id cleared_by reason cleared_at));
  mret (rows >? 0).

Definition pg_record_risk_evaluation (submission : RiskSubmission) (submitted_by : Z)
    : storage (R := R) Z :=
  id ← new_uuid;
  _ ← eff_map_err unavailable (run_pool (insert_risk id {|
        rk_transfer_id := rb_transfer_id submission; rk_provider := rb_provider submission;
        rk_decision := RiskDecision_as_str (rb_decision submission); rk_score := rb_score submission;
        rk_reasons := rb_reasons submission; rk_evaluated_at := rb_evaluated_at submission;
        rk_submitted_by := Some submitted_by |}));
  mret id.

Definition pg_risk_provider_allowed (operator_key_id : Z) (provider : string) : storage (R := R) bool :=
  pool_fetch (fun db => bool_decide (operator_risk_provider_bindings db !! (operator_key_id, provider)
                                     = Some None)).
End repository.

(** ** Manual resolutions *)

Section resolutions.
Context {R : Type} `{Postgres R} `{U256Lib} `{UuidLib} `{TimeSerde}.
Implicit Types (credential : OperatorCredential) (resolution : ManualResolution).

(** [SELECT pg_advisory_xact_lock(..)]: transactions are serial here. *)
Definition lock_scope (scope : string) : operations (R := R) unit := op_exec (select (fun _ => tt)).

Definition evidence (plan : HonorPlan) : json :=
  let row := pl_row plan in
  JObject [("attempt_allocated_raw", JString (mh_attempt_allocated_raw row));
           ("attempt_status", JString (mh_attempt_status row));
           ("expected_raw", JString (mh_expected_raw row));
           ("fiat_amount_minor", JString (dec_signed (mh_fiat_amount_minor row)));
           ("finality", JString (mh_finality row));
           ("intent_status", JString (mh_intent_status row));
           ("outcome", JString (pl_outcome_name plan));
           ("processing_state", JString (mh_processing_state row));
           ("remainder_raw", JString (RawAmount_to_string (pl_remainder plan)));
           ("transfer_allocated_raw", JString (mh_transfer_allocated_raw row));
           ("transfer_raw", JString (mh_transfer_raw row));
           ("within_late_window", JBool (mh_within_late_window row))].

(** The checks and the arithmetic on the locked row. *)
Definition plan_row (row : ManualHonorRow) (allocate : RawAmount) : result OperationsError HonorPlan :=
  _ ← guard_err (negb (bool_decide (mh_finality row = "finalized"))
                 || negb (bool_decide (mh_processing_state row ∈ ["held"; "unmatched"])))
        ManualResolutionConflict;
  _ ← guard_err (negb (honor_is_bound row)) ManualResolutionConflict;
  expected ← parse_raw (mh_expected_raw row);
  attempt_allocated ← parse_raw_allow_zero (mh_attempt_allocated_raw row);
  transfer_amount ← parse_raw (mh_transfer_raw row);
  transfer_allocated ← parse_raw_allow_zero (mh_transfer_allocated_raw row);
  outstanding ← ok_or (u256_checked_sub (as_u256 expected) (as_u256 attempt_allocated))
                  ManualResolutionConflict;
  available ← ok_or (u256_checked_sub (as_u256 transfer_amount) (as_u256 transfer_allocated))
                ManualResolutionConflict;
  let required_allocation := Z.min outstanding available in
  _ ← guard_err (negb (as_u256 allocate =? required_allocation)) ManualResolutionConflict;
  remainder_u256 ← ok_or (u256_checked_sub available (as_u256 allocate)) ManualResolutionConflict;
  let completes := as_u256 allocate =? outstanding in
  remainder ← (if remainder_u256 =? 0 then Ok RawAmount_ZERO
               else map_err (fun _ => ManualResolutionConflict) (RawAmount_positive remainder_u256));
  let '(outcome, name) :=
    if completes && negb (RawAmount_is_zero remainder) then (Overpaid allocate remainder, "overpaid")
    else if completes then (Settle allocate, "settled") else (Partial allocate, "partial") in
  Ok {| pl_row := row; pl_outcome := outcome; pl_outcome_name := name; pl_allocate := allocate;
        pl_remainder := remainder |}.

Definition plan_honor resolution : operations (R := R) HonorPlan :=
  intent_id ← lift (ok_or (ma_payment_intent_id resolution) InvalidManualResolution);
  attempt_id ← lift (ok_or (ma_attempt_id resolution) InvalidManualResolution);
  allocate ← lift (ok_or (ma_allocate_raw resolution) InvalidManualResolution);
  row ← fetch_optional (honor_row (ma_transfer_id resolution) attempt_id intent_id) ManualResolutionNotFound;
  lift (plan_row row allocate).

(** [value.map(parse_raw).transpose()?] on a nullable column. *)
Definition raw_column (value : option Z) : result OperationsError (option RawAmount) :=
  match value with
  | None => Ok None
  | Some z => raw ← parse_raw (numeric_text z); Ok (Some raw)
  end.
Definition parse_action (action : string) : result OperationsError ManualResolutionAction :=
  parse_table [("honor", Honor); ("reject", Reject);
               ("record_remainder_disposition", RecordRemainderDisposition)]
    (fun _ => OpRepository (corrupt "unknown manual resolution action")) action.

Definition load_resolution (operator : Z) (key : string) (hash : list byte) (replayed : bool)
    : operations (R := R) ManualResolutionResult :=
  r ← eff_map_err OpRepository (fetch_one (fun db => manual_resolution_requests db !! (operator, key)));
  _ ← lift (guard_err (negb (bool_decide (re_request_hash r = hash))) (OpRepository IdempotencyConflict));
  action ← lift (parse_action (re_action r));
  allocated ← lift (raw_column (re_allocated_raw r));
  remainder ← lift (raw_column (re_remainder_raw r));
  mret {| mz_id := re_id r; mz_action := action; mz_transfer_id := re_transfer_id r;
          mz_payment_intent_id := re_payment_intent_id r; mz_attempt_id := re_attempt_id r;
          mz_merchant_id := re_merchant_id r; mz_allocated_raw := allocated;
          mz_remainder_raw := remainder; mz_replayed := replayed |}.

Definition resolution_row (id : Z) credential (hash : list byte) resolution (merchant : option Z)
    (allocated remainder : option RawAmount) (now : Z) : ResolutionRow := {|
  re_id := id; re_request_hash := hash; re_action := ManualResolutionAction_as_str (ma_action resolution);
  re_transfer_id := ma_transfer_id resolution; re_payment_intent_id := ma_payment_intent_id resolution;
  re_attempt_id := ma_attempt_id resolution; re_merchant_id := merchant;
  re_allocated_raw := as_u256 <$> allocated; re_remainder_raw := as_u256 <$> remainder;
  re_disposition := RemainderDisposition_as_str <$> ma_disposition resolution;
  re_external_reference := ma_external_reference resolution; re_reason := ma_reason resolution;
  re_actor_label := oc_label credential; re_created_at := now |}.

Definition insert_resolution credential (key : string) (hash : list byte) resolution
    (merchant : option Z) (allocated remainder : option RawAmount) (now : Z)
    : operations (R := R) (option ManualResolutionResult) :=
  id ← new_uuid;
  inserted ← op_exec (insert_resolution_row (oc_key_id credential, key)
    (resolution_row id credential hash resolution merchant allocated remainder now));
  if inserted =? 0 then
    replay ← load_resolution (oc_key_id credential) key hash true; mret (Some replay)
  else mret None.

Definition record_admin_audit credential resolution (resource_id now : Z) : operations (R := R) unit :=
  id ← new_uuid;
  op_exec (insert_audit id {|
    au_merchant_id := None; au_actor_type := "operator"; au_actor_id := Some (oc_key_id credential);
    au_action := ManualResolutionAction_as_str (ma_action resolution);
    au_resource_type := "manual_resolution"; au_resource_id := Some resource_id;
    au_reason := Some (ma_reason resolution);
    au_payload := JObject [
      ("external_reference",
       match ma_external_reference resolution with Some r => JString r | None => JNull end);
      ("transfer_id", uuid_json (ma_transfer_id resolution))];
    au_created_at := now |}).

Definition honor_command resolution (attempt_id intent_id : Z) (plan : HonorPlan) : SettlementCommand := {|
  sc_transfer_id := ma_transfer_id resolution; sc_attempt_id := attempt_id;
  sc_payment_intent_id := intent_id; sc_merchant_id := mh_merchant_id (pl_row plan);
  sc_fiat_amount_minor := mh_fiat_amount_minor (pl_row plan); sc_match_strategy := Manual;
  sc_outcome := pl_outcome plan; sc_policy_version := "manual/operator"; sc_independent_groups := 0;
  sc_had_own_node := false; sc_finality_state := Finalized; sc_risk := Review;
  sc_risk_evaluation_id := None; sc_attestation_ids := [] |}.

Definition honor_error (error : RepositoryError) : OperationsError :=
  match error with TransitionRefused _ => ManualResolutionConflict | other => OpRepository other end.

Definition honor_transfer credential (key : string) (hash : list byte) resolution (now : Z)
    : operations (R := R) ManualResolutionResult :=
  intent_id ← lift (ok_or (ma_payment_intent_id resolution) InvalidManualResolution);
  attempt_id ← lift (ok_or (ma_attempt_id resolution) InvalidManualResolution);
  plan ← plan_honor resolution;
  replay ← insert_resolution credential key hash resolution (Some (mh_merchant_id (pl_row plan)))
    (Some (pl_allocate plan))
    (if RawAmount_is_zero (pl_remainder plan) then None else Some (pl_remainder plan)) now;
  match replay with
  | Some replay => mret replay
  | None =>
      record ← eff_map_err honor_error (manual_allocate_and_finish
        (honor_command resolution attempt_id intent_id plan) (pl_allocate plan) (pl_remainder plan)
        (pl_outcome_name plan) (oc_label credential) (ma_reason resolution) now);
      match record with
      | RecForeignClaim | RecAlreadyProcessed => lift (Err ManualResolutionConflict)
      | _ =>
          _ ← record_admin_audit credential resolution intent_id now;
          load_resolution (oc_key_id credential) key hash false
      end
  end.

(** [SET processing_state = 'resolved', last_error = .., version = version + 1, ..] *)
Definition resolve_processing (last_error : option string) (now : Z) (row : ProcessingRow)
    : result SqlError ProcessingRow :=
  version ← bigint_next (pr_version row);
  Ok {| pr_allocated_raw := pr_allocated_raw row; pr_processing_state := "resolved";
        pr_last_error := last_error; pr_version := version; pr_updated_at := now |}.

Definition reject_transfer credential (key : string) (hash : list byte) resolution (now : Z)
    : operations (R := R) ManualResolutionResult :=
  let transfer_id := ma_transfer_id resolution in
  '(finality, state) ← fetch_optional (fun db =>
     s ← st_state <$> chain_transfer_state_current db !! transfer_id;
     p ← chain_transfer_processing db !! transfer_id;
     Some (s, pr_processing_state p)) ManualResolutionNotFound;
  _ ← lift (guard_err (negb (bool_decide (finality = "finalized"))
                       || negb (bool_decide (state ∈ ["held"; "unmatched"]))) ManualResolutionConflict);
  has_allocation ← op_exec (select (fun db =>
     bool_decide (map_Exists (fun key _ => snd key = transfer_id) (payment_allocations db))));
  _ ← lift (guard_err has_allocation ManualResolutionConflict);
  replay ← insert_resolution credential key hash resolution None None None now;
  match replay with
  | Some replay => mret replay
  | None =>
      _ ← op_exec (update_processing transfer_id (fun _ => true)
            (resolve_processing (Some (ma_reason resolution)) now));
      _ ← record_admin_audit credential resolution transfer_id now;
      load_resolution (oc_key_id credential) key hash false
  end.

(** The insertion of a disposition; a null reference violates the column. *)
Definition disposition_statement (id resolution_id merchant_id : Z) credential resolution
    (intent_id : Z) (remainder : RawAmount) (disposition : RemainderDisposition) (now : Z)
    : statement unit :=
  match ma_external_reference resolution with
  | None => fun _ => Err (SqlViolation "23502" "external_reference")
  | Some reference => insert_disposition (ma_transfer_id resolution) intent_id {|
      di_id := id; di_resolution_id := resolution_id; di_merchant_id := merchant_id;
      di_remainder_raw := as_u256 remainder;
      di_disposition := RemainderDisposition_as_str disposition;
      di_external_reference := reference; di_recorded_by := oc_key_id credential;
      di_reason := ma_reason resolution; di_recorded_at := now |}
  end.
Definition conflict_or_storage (e : SqlError) : OperationsError :=
  if is_unique_violation e then ManualResolutionConflict else OpRepository (unavailable e).

Definition record_external_disposition credential (key : string) (hash : list byte) resolution (now : Z)
    : operations (R := R) ManualResolutionResult :=
  intent_id ← lift (ok_or (ma_payment_intent_id resolution) InvalidManualResolution);
  remainder ← lift (ok_or (ma_remainder_raw resolution) InvalidManualResolution);
  disposition ← lift (ok_or (ma_disposition resolution) InvalidManualResolution);
  '(merchant_id, stored) ← fetch_optional (fun db =>
     d ← payment_settlement_decisions db !! (intent_id, ma_transfer_id resolution);
     if bool_decide (dr_outcome d = "overpaid")
     then Some (dr_merchant_id d, numeric_text (dr_remainder_raw d)) else None) ManualResolutionNotFound;
  stored ← lift (parse_raw stored);
  _ ← lift (guard_err (negb (as_u256 stored =? as_u256 remainder)) ManualResolutionConflict);
  replay ← insert_resolution credential key hash resolution (Some merchant_id) None (Some remainder) now;
  match replay with
  | Some replay => mret replay
  | None =>
      resolution_id ← eff_map_err OpRepository (fetch_one (fun db =>
        re_id <$> manual_resolution_requests db !! (oc_key_id credential, key)));
      id ← new_uuid;
      _ ← eff_map_err conflict_or_storage (run (disposition_statement id resolution_id merchant_id
            credential resolution intent_id remainder disposition now));
      closed ← op_exec (update_processing (ma_transfer_id resolution)
                 (fun row => bool_decide (pr_processing_state row = "matched"))
                 (resolve_processing None now));
      _ ← lift (guard_err (negb (closed =? 1)) ManualResolutionConflict);
      _ ← record_admin_audit credential resolution intent_id now;
      load_resolution (oc_key_id credential) key hash false
  end.

Definition pg_resolve_manual credential (idempotency_key : string) (request_hash : list byte) resolution
    (decided_at : Z) : operations (R := R) ManualResolutionResult :=
  _ ← eff_map_err op_error begin_transaction;
  _ ← lock_scope (String.append (uuid_to_string (oc_key_id credential))
                    (String.append ":" idempotency_key));
  exists_ ← op_exec (select (fun db =>
     is_row (manual_resolution_requests db) (oc_key_id credential, idempotency_key)));
  if (exists_ : bool) then
    replay ← load_resolution (oc_key_id credential) idempotency_key request_hash true;
    _ ← eff_map_err op_error commit;
    mret replay
  else
    result ← match ma_action resolution with
             | Honor => honor_transfer credential idempotency_key request_hash resolution decided_at
             | Reject => reject_transfer credential idempotency_key request_hash resolution decided_at
             | RecordRemainderDisposition =>
                 record_external_disposition credential idempotency_key request_hash resolution decided_at
             end;
    _ ← eff_map_err op_error commit;
    mret result.

(** ** Honors with two operators *)

Definition into_proposal (entry : Z * ProposalRow) (replayed : bool) : result OperationsError HonorProposal :=
  let '(id, row) := entry in
  allocate_raw ← parse_raw (numeric_text (ho_allocate_raw row));
  threshold_raw ← (if bool_decide (numeric_text (ho_threshold_raw row) = "0") then Ok RawAmount_ZERO
                   else parse_raw (numeric_text (ho_threshold_raw row)));
  status ← map_err OpRepository (ProposalStatus_parse (ho_status row));
  Ok {| hp_id := id; hp_transfer_id := ho_transfer_id row;
        hp_payment_intent_id := ho_payment_intent_id row; hp_attempt_id := ho_attempt_id row;
        hp_merchant_id := ho_merchant_id row; hp_allocate_raw := allocate_raw;
        hp_threshold_raw := threshold_raw; hp_reason := ho_reason row; hp_evidence := ho_evidence row;
        hp_proposed_by_key_id := ho_proposer_key_id row; hp_proposed_by_label := ho_proposer_label row;
        hp_status := status; hp_created_at := ho_created_at row; hp_expires_at := ho_expires_at row;
        hp_decided_by_key_id := ho_decided_by_key_id row; hp_decided_by_label := ho_decided_by_label row;
        hp_decision_reason := ho_decision_reason row; hp_decided_at := ho_decided_at row;
        hp_resolution_id := ho_resolution_id row; hp_replayed := replayed |}.
Definition request_hash (row : ProposalRow) : result OperationsError (list byte) :=
  if bool_decide (length (ho_request_hash row) = 32%nat) then Ok (ho_request_hash row)
  else Err (OpRepository (corrupt "a proposal hash is not 32 bytes")).

Definition locked_proposal (proposal_id : Z) : operations (R := R) ProposalRow :=
  fetch_optional (fun db => manual_honor_proposals db !! proposal_id) HonorProposalNotFound.

Definition audit (operator : OperatorCredential) (merchant_id : Z) (action : string) (proposal_id : Z)
    (reason : string) (payload : json) (now : Z) : operations (R := R) unit :=
  id ← new_uuid;
  op_exec (insert_audit id {|
    au_merchant_id := Some merchant_id; au_actor_type := "operator";
    au_actor_id := Some (oc_key_id operator); au_action := action;
    au_resource_type := "manual_honor_proposal"; au_resource_id := Some proposal_id;
    au_reason := Some reason; au_payload := payload; au_created_at := now |}).

Definition proposal_row (proposer : OperatorCredential) (idempotency_key : string) (hash : list byte)
    resolution (intent_id attempt_id : Z) (allocate threshold_raw : RawAmount) (plan : HonorPlan)
    (now expires_at : Z) : ProposalRow := {|
  ho_transfer_id := ma_transfer_id resolution; ho_payment_intent_id := intent_id;
  ho_attempt_id := attempt_id; ho_merchant_id := mh_merchant_id (pl_row plan);
  ho_allocate_raw := as_u256 allocate; ho_threshold_raw := as_u256 threshold_raw;
  ho_reason := ma_reason resolution; ho_evidence := evidence plan;
  ho_proposer_key_id := oc_key_id proposer; ho_proposer_label := oc_label proposer;
  ho_idempotency_key := idempotency_key; ho_request_hash := hash; ho_status := "pending";
  ho_created_at := now; ho_expires_at := expires_at; ho_decided_by_key_id := None;
  ho_decided_by_label := None; ho_decision_idempotency_key := None; ho_decision_reason := None;
  ho_decided_at := None; ho_resolution_id := None |}.

Definition pg_propose_honor (proposer : OperatorCredential) (idempotency_key : string)
    (hash : list byte) resolution (threshold_raw : RawAmount) (now expires_at : Z)
    : operations (R := R) HonorProposal :=
  match ma_action resolution, ma_payment_intent_id resolution, ma_attempt_id resolution,
        ma_allocate_raw resolution with
  | Honor, Some intent_id, Some attempt_id, Some allocate =>
      _ ← eff_map_err op_error begin_transaction;
      _ ← lock_scope (String.append "honor_proposal:" (String.append (uuid_to_string (oc_key_id proposer))
                        (String.append ":" idempotency_key)));
      existing ← op_exec (select (fun db =>
        find_where (fun row => (ho_proposer_key_id row =? oc_key_id proposer)
                     && bool_decide (ho_idempotency_key row = idempotency_key)) (manual_honor_proposals db)));
      match existing with
      | Some existing =>
          _ ← lift (guard_err (negb (bool_decide (ho_request_hash (snd existing) = hash)))
                      (OpRepository IdempotencyConflict));
          _ ← eff_map_err op_error commit;
          lift (into_proposal existing true)
      | None =>
          plan ← plan_honor resolution;
          _ ← op_exec (expire_proposals (ma_transfer_id resolution) now);
          id ← new_uuid;
          inserted ← eff_map_err conflict_or_storage (run (insert_proposal id
            (proposal_row proposer idempotency_key hash resolution intent_id attempt_id allocate
               threshold_raw plan now expires_at)));
          _ ← audit proposer (mh_merchant_id (pl_row plan)) "honor.propose" id (ma_reason resolution)
                (JObject [("allocate_raw", JString (RawAmount_to_string allocate));
                          ("attempt_id", uuid_json attempt_id);
                          ("expires_at", odt_serialize expires_at);
                          ("payment_intent_id", uuid_json intent_id);
                          ("threshold_raw", JString (RawAmount_to_string threshold_raw));
                          ("transfer_id", uuid_json (ma_transfer_id resolution))]) now;
          _ ← eff_map_err op_error commit;
          lift (into_proposal inserted false)
      end
  | _, _, _, _ => lift (Err InvalidManualResolution)
  end.

Definition proposed_resolution (proposal : ProposalRow) (allocate : RawAmount) : ManualResolution := {|
  ma_action := Honor; ma_transfer_id := ho_transfer_id proposal;
  ma_payment_intent_id := Some (ho_payment_intent_id proposal);
  ma_attempt_id := Some (ho_attempt_id proposal); ma_allocate_raw := Some allocate;
  ma_remainder_raw := None; ma_disposition := None; ma_external_reference := None;
  ma_reason := ho_reason proposal |}.

Definition pg_approve_honor (approver : OperatorCredential) (proposal_id : Z)
    (idempotency_key reason : string) (now : Z) : operations (R := R) ManualResolutionResult :=
  _ ← eff_map_err op_error begin_transaction;
  _ ← lock_scope (String.append (uuid_to_string (oc_key_id approver)) (String.append ":" idempotency_key));
  spent ← op_exec (select (fun db =>
    re_id <$> manual_resolution_requests db !! (oc_key_id approver, idempotency_key)));
  proposal ← locked_proposal proposal_id;
  hash ← lift (request_hash proposal);
  match spent with
  | Some resolution_id =>
      _ ← lift (guard_err (negb (bool_decide (ho_resolution_id proposal = Some resolution_id)))
                  (OpRepository IdempotencyConflict));
      replay ← load_resolution (oc_key_id approver) idempotency_key hash true;
      _ ← eff_map_err op_error commit;
      mret replay
  | None =>
      _ ← lift (guard_err (oc_key_id approver =? ho_proposer_key_id proposal) SameOperator);
      status ← lift (map_err OpRepository (ProposalStatus_parse (ho_status proposal)));
      _ ← lift (guard_err (negb (bool_decide (status = ProposalPending))) HonorProposalNotPending);
      _ ← lift (guard_err (ho_expires_at proposal <=? now) HonorProposalExpired);
      allocate ← lift (parse_raw (numeric_text (ho_allocate_raw proposal)));
      result ← honor_transfer approver idempotency_key hash (proposed_resolution proposal allocate) now;
      _ ← op_exec (update_proposal proposal_id (decide_proposal "approved"
            (Some (oc_key_id approver, oc_label approver)) (Some idempotency_key) (Some reason) now
            (Some (mz_id result))));
      _ ← audit approver (ho_merchant_id proposal) "honor.approve" proposal_id reason
            (JObject [("allocated_raw", JString (numeric_text (ho_allocate_raw proposal)));
                      ("proposed_by", uuid_json (ho_proposer_key_id proposal));
                      ("resolution_id", uuid_json (mz_id result));
                      ("transfer_id", uuid_json (ho_transfer_id proposal))]) now;
      _ ← eff_map_err op_error commit;
      mret result
  end.

Definition pg_reject_honor (operator : OperatorCredential) (proposal_id : Z)
    (idempotency_key reason : string) (now : Z) : operations (R := R) HonorProposal :=
  _ ← eff_map_err op_error begin_transaction;
  proposal ← locked_proposal proposal_id;
  status ← lift (map_err OpRepository (ProposalStatus_parse (ho_status proposal)));
  if bool_decide (status = ProposalRejected)
     && bool_decide (ho_decided_by_key_id proposal = Some (oc_key_id operator))
     && bool_decide (ho_decision_idempotency_key proposal = Some idempotency_key)
  then
    _ ← lift (guard_err (negb (bool_decide (ho_decision_reason proposal = Some reason)))
                (OpRepository IdempotencyConflict));
    _ ← eff_map_err op_error commit;
    lift (into_proposal (proposal_id, proposal) true)
  else
    _ ← lift (guard_err (negb (bool_decide (status = ProposalPending))) HonorProposalNotPending);
    rejected ← op_exec (fun db =>
      '(row, db) ← update_proposal proposal_id (decide_proposal "rejected"
         (Some (oc_key_id operator, oc_label operator)) (Some idempotency_key) (Some reason) now None) db;
      row ← ok_or row SqlRowNotFound;
      Ok (row, db));
    _ ← audit operator (ho_merchant_id proposal) "honor.reject" proposal_id reason
          (JObject [("proposed_by", uuid_json (ho_proposer_key_id proposal));
                    ("transfer_id", uuid_json (ho_transfer_id proposal))]) now;
    _ ← eff_map_err op_error commit;
    lift (into_proposal rejected false).

(** [ORDER BY id DESC LIMIT $3] *)
Definition pending_proposals (page : PageRequest) (now : Z) (db : Database) : list (Z * ProposalRow) :=
  take (Z.to_nat (pq_limit page + 1))
    (sort_by (fun a b => fst b ?= fst a)
       (filter (fun entry => bool_decide (ho_status (snd entry) = "pending")
                  && (now <? ho_expires_at (snd entry))
                  && match pq_before page with None => true | Some before => fst entry <? before end = true)
          (map_to_list (manual_honor_proposals db)))).
Definition pg_pending_honor_proposals (page : PageRequest) (now : Z)
    : storage (R := R) (list HonorProposal) :=
  rows ← pool_fetch (pending_proposals page now);
  lift (collect (fun row => map_err (fun error =>
    match error with OpRepository inner => inner | other => corrupt (OperationsError_to_string other) end)
      (into_proposal row false)) rows).

(** [impl OperationsRepository] and [impl HonorProposalRepository for PostgresRepository] *)
#[export] Instance postgres_operations : OperationsRepository (Session R) := {|
  authenticate_operator_key := pg_authenticate_operator_key;
  price_policy := pg_price_policy;
  record_price_ingestion := pg_record_price_ingestion;
  record_rail_health := pg_record_rail_health;
  repo_open_rail_stop := pg_open_rail_stop;
  repo_clear_rail_stop := pg_clear_rail_stop;
  find_open_rail_stop := pg_find_open_rail_stop;
  record_risk_evaluation := pg_record_risk_evaluation;
  risk_provider_allowed := pg_risk_provider_allowed;
  repo_resolve_manual := pg_resolve_manual |}.
#[export] Instance postgres_honor_proposals : HonorProposalRepository (Session R) := {|
  repo_propose_honor := pg_propose_honor;
  repo_approve_honor := pg_approve_honor;
  repo_reject_honor := pg_reject_honor;
  repo_pending_honor_proposals := pg_pending_honor_proposals |}.

(** [SystemClock] *)
#[export] Instance system_clock : Clock (Session R) := {|
  clock_now s := let '(t, r) := now_utc (runtime s) in
                 (t, mkSession (committed s) (working s) (transaction_now s) r) |}.
End resolutions.
