(* ===== verification/OperationsBooks.v ===== *)
(** * The books under operators

    What the operator transactions of storage do as steps of the committed
    state: a decision about parked money is taken once per idempotency key,
    an honor runs through the same money transaction as an automatic
    settlement and keeps the balance, and money an operator moves at or above
    the threshold was proposed by one key and approved by another. *)

From Stdlib Require Import Ascii String Strings.Byte.
From stdpp Require Import gmap sorting.
From S2P Require Import Prelude RustStd Externals Effects Money Chain Quote Price Observations Settlement.
From S2P Require Import SettlementService Database StorageSettlement SettlementBooks Operations StorageOperations.

Local Open Scope Z_scope.

(** ** Frames *)

(** The tables of the operators' decisions as they are. *)
Definition same_control (db db' : Database) : Prop :=
  manual_resolution_requests db' = manual_resolution_requests db
  /\ manual_honor_proposals db' = manual_honor_proposals db.

Lemma noted_same_control db db' : noted db db' -> same_control db db'.
Proof. by intros (d & e & ->). Qed.
Lemma queued_same_control f db db' : queued f db db' -> same_control db db'.
Proof. by intros (events & (d & e & ->) & _). Qed.
Lemma parked_same_control t state db db' : parked t state db db' -> same_control db db'.
Proof. intros (row & row' & _ & _ & _ & Hn). by destruct (noted_same_control _ _ Hn). Qed.
Lemma credited_same_control command amount state paid t db db' :
  credited command amount state paid t db db' -> same_control db db'.
Proof.
  intros (row & row' & transfer & attempt & al & db1 & db2 & (claim & _ & -> & _) & _ & _ & _ & _ & _ & _
    & _ & _ & _ & _ & _ & _ & _ & (a & i & i' & f & _ & _ & _ & _ & _ & _ & _ & _ & _ & Hq) & Hq').
  destruct (queued_same_control _ _ _ Hq) as [E1 E2], (queued_same_control _ _ _ Hq') as [F1 F2].
  split; [rewrite F1, E1|rewrite F2, E2]; done.
Qed.

(** The one new allocation of a credit. *)
Lemma credited_allocation command amount state paid t db db' :
  credited command amount state paid t db db' ->
  payment_allocations db !! (sc_attempt_id command, sc_transfer_id command) = None
  /\ exists al, ar_allocated_raw al = amount /\ ar_payment_intent_id al = sc_payment_intent_id command
    /\ ar_reason al <> "manual"
    /\ payment_allocations db' =
         <[(sc_attempt_id command, sc_transfer_id command) := al]> (payment_allocations db).
Proof.
  intros (row & row' & transfer & attempt & al & db1 & db2 & (claim & _ & -> & _) & _ & _ & _ & _ & _ & _
    & _ & Hnone & Hamt & Hint & _ & _ & Hreason
    & (a & i & i' & f & _ & _ & _ & _ & _ & _ & _ & _ & _ & Hq) & Hq').
  split; [done|]. exists al. split_and!; [done..|].
  destruct (queued_same_money _ _ _ Hq) as (_ & _ & _ & E & _),
    (queued_same_money _ _ _ Hq') as (_ & _ & _ & F & _). by rewrite F, E.
Qed.

(** Only the audit trail grew. *)
Definition audited (db db' : Database) : Prop := exists trail, db' = on_audit (fun _ => trail) db.

Lemma balanced_control f g db : balanced db -> balanced (on_resolutions f (on_proposals g db)).
Proof. by apply balanced_same. Qed.
Lemma balanced_resolutions f db : balanced db -> balanced (on_resolutions f db).
Proof. by apply balanced_same. Qed.
Lemma balanced_proposals f db : balanced db -> balanced (on_proposals f db).
Proof. by apply balanced_same. Qed.
Lemma balanced_dispositions f db : balanced db -> balanced (on_dispositions f db).
Proof. by apply balanced_same. Qed.
Lemma balanced_audited db db' : audited db db' -> balanced db -> balanced db'.
Proof. intros [trail ->]. by apply balanced_same. Qed.

(** ** Signing *)

Definition signed (actor : string) (al : AllocationRow) : AllocationRow := {|
  ar_id := ar_id al; ar_payment_intent_id := ar_payment_intent_id al; ar_merchant_id := ar_merchant_id al;
  ar_allocated_raw := ar_allocated_raw al; ar_allocated_by := actor; ar_reason := "manual";
  ar_created_at := ar_created_at al; ar_collector_address_id := ar_collector_address_id al |}.

(** Money credited on an operator's word: the credit, signed. *)
Definition honored (command : SettlementCommand) (amount : Z) (outcome : string) (actor : string) (t : Z)
    (db db' : Database) : Prop :=
  exists db1 al,
    credited command amount (credit_state outcome) (covers outcome) t db db1
    /\ payment_allocations db1 !! (sc_attempt_id command, sc_transfer_id command) = Some al
    /\ noted (on_allocations <[(sc_attempt_id command, sc_transfer_id command) := signed actor al]> db1) db'.

Lemma sum_where_replace {K V} `{Countable K} (p : K -> bool) (f : V -> Z) (m : gmap K V) k v v' :
  m !! k = Some v -> f v' = f v -> sum_where p f (<[k := v']> m) = sum_where p f m.
Proof.
  intros Hk Hf. rewrite <- (insert_id m k v Hk) at 2. rewrite <- (insert_delete_eq m k v'),
    <- (insert_delete_eq m k v), !sum_where_insert by (by rewrite lookup_delete_eq).
  by rewrite Hf.
Qed.

Lemma balanced_signed a t al actor db :
  payment_allocations db !! (a, t) = Some al -> balanced db ->
  balanced (on_allocations <[(a, t) := signed actor al]> db).
Proof.
  intros Hal [B1 B2 B3 B4 B5 B6 B7]. split; unfold transfer_total; simpl; auto.
  - intros t' row Hrow. by rewrite (sum_where_replace _ _ _ _ _ _ Hal) by done; apply B1.
  - intros a' t' al' Hal'. apply lookup_insert_Some in Hal' as [[[= <- <-] <-]|[_ Hal']]; [|by apply B2].
    simpl. by apply B2.
  - intros i intent Hi Hp. destruct (B6 i intent Hi Hp) as (a' & t' & al' & Hal' & Hint).
    destruct (decide ((a, t) = (a', t'))) as [[= <- <-]|Hne].
    + exists a, t, (signed actor al). rewrite lookup_insert_eq. split; [done|].
      rewrite Hal in Hal'. by injection Hal' as <-.
    + exists a', t', al'. by rewrite lookup_insert_ne.
  - intros a' attempt Ha Hs. destruct (B7 a' attempt Ha Hs) as (t' & al' & Hal').
    destruct (decide ((a, t) = (a', t'))) as [[= <- <-]|Hne].
    + exists t, (signed actor al). by rewrite lookup_insert_eq.
    + exists t', al'. by rewrite lookup_insert_ne.
Qed.

Lemma balanced_honored command amount outcome actor t db db' :
  chain_transfer_intent_claims db !! sc_transfer_id command = None ->
  honored command amount outcome actor t db db' -> balanced db -> balanced db'.
Proof.
  intros Hc (db1 & al & Hcr & Hal & Hn) Hb. eapply balanced_queued; [by apply noted_queued|].
  apply balanced_signed; [done|]. eapply balanced_credited; [apply credit_state_allocated|done..].
Qed.

Lemma honored_same_control command amount outcome actor t db db' :
  honored command amount outcome actor t db db' -> same_control db db'.
Proof.
  intros (db1 & al & Hcr & _ & Hn). destruct (credited_same_control _ _ _ _ _ _ _ Hcr) as [E1 E2].
  destruct (noted_same_control _ _ Hn) as [F1 F2]. split; [rewrite F1|rewrite F2]; done.
Qed.

Lemma honored_allocation command amount outcome actor t db db' :
  honored command amount outcome actor t db db' ->
  payment_allocations db !! (sc_attempt_id command, sc_transfer_id command) = None
  /\ exists al, ar_allocated_raw al = amount /\ ar_payment_intent_id al = sc_payment_intent_id command
    /\ ar_reason al = "manual"
    /\ payment_allocations db' =
         <[(sc_attempt_id command, sc_transfer_id command) := al]> (payment_allocations db).
Proof.
  intros (db1 & al & Hcr & Hal & Hn). apply credited_allocation in Hcr as (Hnone & al0 & Ha & Hi & _ & E).
  rewrite E, lookup_insert_eq in Hal. injection Hal as <-. split; [done|]. exists (signed actor al0).
  split_and!; [done..|]. destruct (noted_same_money _ _ Hn) as (_ & _ & _ & F & _). rewrite F. simpl.
  by rewrite E, insert_insert_eq.
Qed.

(** * What the transactions do *)

Section specs.
Context {R : Type} `{Postgres R} `{U256Lib} `{UuidLib} `{TimeSerde}.
Implicit Types (credential : OperatorCredential) (resolution : ManualResolution).

Lemma within_bind_op {A B} (st : statement A) (k : A -> operations (R := R) B) db now Q :
  (forall a db', st db = Ok (a, db') -> within db' now (k a) Q) ->
  within db now (mbind k (op_exec st)) Q.
Proof.
  intros Hk. eapply within_bind; [apply within_map_err, within_exec|]; [|exact Hk]. by intros a db' ?.
Qed.
Lemma within_op {A} (st : statement A) db now (Q : A -> Database -> Prop) :
  (forall a db', st db = Ok (a, db') -> Q a db') -> within db now (op_exec (R := R) st) Q.
Proof. intros HQ. by apply within_map_err, within_exec. Qed.
Lemma ends_bind_op {A B} (st : statement A) (k : A -> operations (R := R) B) db0 db now T :
  (forall a db', st db = Ok (a, db') -> ends db0 db' now (k a) T) ->
  ends db0 db now (mbind k (op_exec st)) T.
Proof.
  intros Hk. eapply ends_bind; [apply within_map_err, within_exec|]; [|exact Hk]. by intros a db' ?.
Qed.
Lemma within_bind_fetch {A B} (f : Database -> option A) missing (k : A -> operations (R := R) B) db now Q :
  (forall a, f db = Some a -> within db now (k a) Q) ->
  within db now (mbind k (fetch_optional f missing)) Q.
Proof.
  intros Hk. eapply (within_bind _ _ _ _ (fun a db' => db' = db /\ f db = Some a)).
  - apply within_bind_op. intros row db' [= <- <-]. apply within_lift. intros a Ha.
    destruct (f db) as [x|]; simpl in Ha; by simplify_eq.
  - intros a db' [-> Ha]. by apply Hk.
Qed.

(** A decision as its row says. *)
Definition result_of (row : ResolutionRow) (replayed : bool) (result : ManualResolutionResult) : Prop :=
  exists action allocated remainder, parse_action (re_action row) = Ok action
    /\ raw_column (re_allocated_raw row) = Ok allocated /\ raw_column (re_remainder_raw row) = Ok remainder
    /\ result = {| mz_id := re_id row; mz_action := action; mz_transfer_id := re_transfer_id row;
         mz_payment_intent_id := re_payment_intent_id row; mz_attempt_id := re_attempt_id row;
         mz_merchant_id := re_merchant_id row; mz_allocated_raw := allocated;
         mz_remainder_raw := remainder; mz_replayed := replayed |}.

Lemma result_of_id row replayed result : result_of row replayed result -> mz_id result = re_id row.
Proof. by intros (? & ? & ? & _ & _ & _ & ->). Qed.

Lemma load_resolution_spec operator key hash replayed db now :
  within db now (load_resolution (R := R) operator key hash replayed)
    (fun result db' => db' = db /\ exists row, manual_resolution_requests db !! (operator, key) = Some row
       /\ re_request_hash row = hash /\ result_of row replayed result).
Proof.
  eapply (within_bind _ _ _ _ (fun row db' => db' = db
    /\ manual_resolution_requests db !! (operator, key) = Some row)).
  { apply within_map_err, within_exec. intros row db'.
    destruct (manual_resolution_requests db !! _); [|done]. by intros [= <- <-]. }
  intros row db' [-> Hrow]. apply within_bind_lift. intros [] Hh. unfold guard_err in Hh.
  case_bool_decide; [|done]. apply within_bind_lift. intros action Ha.
  apply within_bind_lift. intros allocated Hal. apply within_bind_lift. intros remainder Hre.
  apply within_ret. split; [done|]. exists row. split_and!; [done..|]. by exists action, allocated, remainder.
Qed.

Lemma insert_resolution_spec credential key hash resolution merchant allocated remainder t db now :
  within db now (insert_resolution (R := R) credential key hash resolution merchant allocated remainder t)
    (fun replay db' =>
       match replay with
       | Some result => db' = db /\ exists row,
           manual_resolution_requests db !! (oc_key_id credential, key) = Some row
           /\ re_request_hash row = hash /\ result_of row true result
       | None => manual_resolution_requests db !! (oc_key_id credential, key) = None
           /\ exists id, map_Forall (fun _ row => re_id row <> id) (manual_resolution_requests db)
           /\ db' = on_resolutions <[(oc_key_id credential, key) :=
                resolution_row id credential hash resolution merchant allocated remainder t]> db
       end).
Proof.
  apply within_bind_uuid. intros id. apply within_bind_op. intros n db' Hst.
  unfold insert_resolution_row in Hst.
  repeat match type of Hst with (mbind _ (check_constraint _ ?b)) = _ =>
    destruct b; cbn [check_constraint guard_err negb mbind result_bind] in Hst; [|discriminate Hst] end.
  destruct (is_row _ _) eqn:Hrow.
  - simplify_eq. simpl. eapply within_bind; [apply load_resolution_spec|].
    intros result db'' [-> (row & Hr & Hh & Hres)]. apply within_ret. split; [done|]. by exists row.
  - apply is_row_false in Hrow. unfold unique_key, foreign_key in Hst.
    destruct (bool_decide (map_Exists _ _)) eqn:Hex; [done|]. bool_to_prop.
    inv_res. apply within_ret. split; [done|].
    exists id. split; [|done]. intros k row Hk Heq. apply Hex. by exists k, row.
Qed.

Lemma record_admin_audit_spec credential resolution resource t db now :
  within db now (record_admin_audit (R := R) credential resolution resource t) (fun _ db' => audited db db').
Proof.
  apply within_bind_uuid. intros id. apply within_op. intros [] db'. unfold insert_audit, unique_key, foreign_key.
  intros Hst. inv_res; eexists; by destruct db.
Qed.
Lemma audit_spec operator merchant action proposal reason payload t db now :
  within db now (audit (R := R) operator merchant action proposal reason payload t)
    (fun _ db' => audited db db').
Proof.
  apply within_bind_uuid. intros id. apply within_op. intros [] db'. unfold insert_audit, unique_key, foreign_key.
  intros Hst. inv_res; eexists; by destruct db.
Qed.

(** What an honor was planned on. *)
Definition planned resolution (plan : HonorPlan) (db : Database) : Prop :=
  exists intent_id attempt_id allocate row,
    ma_payment_intent_id resolution = Some intent_id /\ ma_attempt_id resolution = Some attempt_id
    /\ ma_allocate_raw resolution = Some allocate
    /\ honor_row (ma_transfer_id resolution) attempt_id intent_id db = Some row
    /\ plan_row row allocate = Ok plan.

Lemma plan_honor_spec resolution db now :
  within db now (plan_honor (R := R) resolution) (fun plan db' => db' = db /\ planned resolution plan db).
Proof.
  apply within_bind_lift. intros intent_id Hi%ok_or_Ok. apply within_bind_lift. intros attempt_id Ha%ok_or_Ok.
  apply within_bind_lift. intros allocate Hal%ok_or_Ok. apply within_bind_fetch. intros row Hrow.
  apply within_lift. intros plan Hplan. split; [done|].
  by exists intent_id, attempt_id, allocate, row.
Qed.

Lemma plan_row_facts row allocate plan :
  plan_row row allocate = Ok plan ->
  pl_row plan = row /\ pl_allocate plan = allocate
  /\ mh_processing_state row ∈ ["held"; "unmatched"] /\ mh_finality row = "finalized"
  /\ honor_is_bound row = true.
Proof.
  unfold plan_row. intros (u & Hg%guard_err_Ok & Hp)%res_bind_Ok.
  apply res_bind_Ok in Hp as (u' & Hb%guard_err_Ok & Hp). bool_to_prop.
  assert (pl_row plan = row /\ pl_allocate plan = allocate) as [? ?]; [|done].
  clear -Hp. inv_res; done.
Qed.

(** The row was joined from the transfer's processing row. *)
Lemma honor_row_processing t a i db row :
  honor_row t a i db = Some row ->
  exists p, chain_transfer_processing db !! t = Some p /\ mh_processing_state row = pr_processing_state p.
Proof.
  unfold honor_row. intros Hrow. repeat (apply bind_Some in Hrow as (? & ? & Hrow)).
  case_match; [|done]. injection Hrow as <-. eexists. by split.
Qed.

Lemma planned_processing resolution plan db :
  planned resolution plan db ->
  exists p, chain_transfer_processing db !! ma_transfer_id resolution = Some p
    /\ pr_processing_state p ∈ ["held"; "unmatched"].
Proof.
  intros (i & a & al & row & _ & _ & _ & Hrow & Hplan).
  apply plan_row_facts in Hplan as (_ & _ & Hst & _). apply honor_row_processing in Hrow as (p & Hp & Heq).
  exists p. by rewrite <- Heq.
Qed.

Lemma parked_unclaimed t p db :
  balanced db -> chain_transfer_processing db !! t = Some p ->
  pr_processing_state p ∈ ["held"; "unmatched"] -> chain_transfer_intent_claims db !! t = None.
Proof.
  intros Hb Hp Hst. eapply bal_unallocated; [done..|]. unfold UNALLOCATED_STATES. set_solver.
Qed.

Lemma sign_allocation_spec command actor n db db' :
  sign_allocation command actor db = Ok (n, db') ->
  forall al, payment_allocations db !! (sc_attempt_id command, sc_transfer_id command) = Some al ->
  db' = on_allocations <[(sc_attempt_id command, sc_transfer_id command) := signed actor al]> db.
Proof.
  unfold sign_allocation, update_row. intros Hst al Hal. rewrite Hal in Hst. simpl in Hst. by simplify_eq.
Qed.

Lemma manual_allocate_and_finish_spec command allocate remainder outcome actor reason t row db now :
  chain_transfer_processing db !! sc_transfer_id command = Some row ->
  within db now (manual_allocate_and_finish (R := R) command allocate remainder outcome actor reason t)
    (fun record db' => record = RecForeignClaim \/ record = RecAlreadyProcessed
       \/ honored command (as_u256 allocate) outcome actor t db db').
Proof.
  intros Hrow. eapply within_bind; [by eapply allocate_and_finish_spec|].
  intros record db1 [[-> _]|[[-> _]|[-> Hcr]]]; [apply within_ret; by left|apply within_ret; by right; left|].
  unfold credit_record. destruct (credited_allocation _ _ _ _ _ _ _ Hcr) as (_ & al & Ha & Hi & _ & E).
  assert (payment_allocations db1 !! (sc_attempt_id command, sc_transfer_id command) = Some al) as Hal
    by (by rewrite E, lookup_insert_eq).
  assert (forall record, within db1 now (_ ← exec (R := R) (sign_allocation command actor);
      _ ← exec (sign_decision command actor reason); mret record)
    (fun record db' => record = RecForeignClaim \/ record = RecAlreadyProcessed
       \/ honored command (as_u256 allocate) outcome actor t db db')) as Hsign.
  { intros record. apply within_bind_exec. intros n db2 Hs. eapply sign_allocation_spec in Hs as ->; [|done].
    apply within_bind_exec. intros m db3 Hd. apply within_ret. right. right. exists db1, al.
    split_and!; [done..|]. unfold sign_decision in Hd. inv_res. apply noted_decisions. }
  destruct (bool_decide (outcome = "overpaid")), (bool_decide (outcome = "settled")); apply Hsign.
Qed.

(** An operator's honor, written: the decision under its key, then the money. *)
Definition honor_step credential (key : string) (hash : list byte) resolution (t : Z) (db : Database)
    (result : ManualResolutionResult) (db' : Database) : Prop :=
  exists plan attempt_id intent_id id row db1,
    planned resolution plan db
    /\ ma_attempt_id resolution = Some attempt_id /\ ma_payment_intent_id resolution = Some intent_id
    /\ manual_resolution_requests db !! (oc_key_id credential, key) = None
    /\ map_Forall (fun _ row => re_id row <> id) (manual_resolution_requests db)
    /\ row = resolution_row id credential hash resolution (Some (mh_merchant_id (pl_row plan)))
               (Some (pl_allocate plan))
               (if RawAmount_is_zero (pl_remainder plan) then None else Some (pl_remainder plan)) t
    /\ honored (honor_command resolution attempt_id intent_id plan) (as_u256 (pl_allocate plan))
         (pl_outcome_name plan) (oc_label credential) t
         (on_resolutions <[(oc_key_id credential, key) := row]> db) db1
    /\ audited db1 db' /\ result_of row false result.

Lemma honor_transfer_spec credential key hash resolution t db now :
  manual_resolution_requests db !! (oc_key_id credential, key) = None ->
  within db now (honor_transfer (R := R) credential key hash resolution t)
    (honor_step credential key hash resolution t db).
Proof.
  intros Hnone. apply within_bind_lift. intros intent_id Hi%ok_or_Ok.
  apply within_bind_lift. intros attempt_id Ha%ok_or_Ok.
  eapply within_bind; [apply plan_honor_spec|]. intros plan db' [-> Hplan].
  eapply within_bind; [apply insert_resolution_spec|].
  intros [result|] db1; [intros (_ & row & Hrow & _); congruence|]. intros (_ & id & Hid & ->).
  destruct (planned_processing _ _ _ Hplan) as (p & Hp & _).
  eapply within_bind; [apply within_map_err; eapply manual_allocate_and_finish_spec; exact Hp|].
  intros record db2 Hrec. destruct record; try (by apply within_lift);
    (destruct Hrec as [?|[?|Hh]]; [done..|]);
    (eapply within_bind; [apply record_admin_audit_spec|]; intros [] db3 Haud;
     eapply within_weaken; [apply load_resolution_spec|];
     intros result db4 [-> (row & Hrow & _ & Hres)];
     pose proof (honored_same_control _ _ _ _ _ _ _ Hh) as [Hc _]; destruct Haud as [trail ->];
     cbn [manual_resolution_requests on_audit] in Hrow; rewrite Hc in Hrow;
     cbn [manual_resolution_requests on_resolutions] in Hrow; rewrite lookup_insert_eq in Hrow;
     injection Hrow as <-;
     eexists plan, attempt_id, intent_id, id, _, _; split_and!; try done; by exists trail).
Qed.

(** A transfer closed without money. *)
Definition closed (transfer_id : Z) (states : list string) (db db' : Database) : Prop :=
  exists p p', chain_transfer_processing db !! transfer_id = Some p /\ pr_processing_state p ∈ states
    /\ pr_allocated_raw p' = pr_allocated_raw p /\ pr_processing_state p' = "resolved"
    /\ db' = on_processing <[transfer_id := p']> db.

Lemma resolve_processing_Ok error t row row' :
  resolve_processing error t row = Ok row' ->
  pr_allocated_raw row' = pr_allocated_raw row /\ pr_processing_state row' = "resolved".
Proof. unfold resolve_processing. intros Hp. by inv_res. Qed.

(** The other two decisions: a rejection closes parked money that nobody
    allocated; a disposition closes the remainder of an overpayment. *)
Definition close_step credential (key : string) (hash : list byte) resolution (t : Z) (db : Database)
    (result : ManualResolutionResult) (db' : Database) : Prop :=
  exists id merchant remainder row dispositions db1,
    manual_resolution_requests db !! (oc_key_id credential, key) = None
    /\ map_Forall (fun _ row => re_id row <> id) (manual_resolution_requests db)
    /\ row = resolution_row id credential hash resolution merchant None remainder t
    /\ closed (ma_transfer_id resolution)
         (if bool_decide (ma_action resolution = Reject) then ["held"; "unmatched"] else ["matched"])
         (on_dispositions (fun _ => dispositions)
            (on_resolutions <[(oc_key_id credential, key) := row]> db)) db1
    /\ audited db1 db' /\ result_of row false result.

Lemma reject_transfer_spec credential key hash resolution t db now :
  ma_action resolution = Reject ->
  manual_resolution_requests db !! (oc_key_id credential, key) = None ->
  within db now (reject_transfer (R := R) credential key hash resolution t)
    (close_step credential key hash resolution t db).
Proof.
  intros Hact Hnone. apply within_bind_fetch. intros [finality state] Hrow.
  apply bind_Some in Hrow as (s & Hs & Hrow). apply bind_Some in Hrow as (p & Hp & [= <- <-]).
  apply within_bind_lift. intros _ Hg%guard_err_Ok. bool_to_prop.
  apply within_bind_op. intros has db' [= <- <-]. apply within_bind_lift. intros _ _.
  eapply within_bind; [apply insert_resolution_spec|].
  intros [result|] db1; [intros (_ & row & Hrow & _); congruence|]. intros (_ & id & Hid & ->).
  apply within_bind_op. intros n db2 Hup.
  eapply update_processing_spec in Hup as (p' & Hset & _ & ->); [|exact Hp|done].
  apply resolve_processing_Ok in Hset as [? ?].
  eapply within_bind; [apply record_admin_audit_spec|]. intros [] db3 [trail ->].
  eapply within_weaken; [apply load_resolution_spec|]. intros result db4 [-> (row & Hrow & _ & Hres)].
  cbn [manual_resolution_requests on_audit on_processing on_resolutions] in Hrow.
  rewrite lookup_insert_eq in Hrow. injection Hrow as <-.
  eexists id, None, None, _, (overpayment_remainder_dispositions db), _. split_and!; try done.
  - exists p, p'. rewrite Hact. rewrite bool_decide_eq_true_2 by done. by split_and!.
  - exists trail. by destruct db.
Qed.

Lemma disposition_statement_Ok id rid m credential resolution i remainder d t db u db' :
  disposition_statement id rid m credential resolution i remainder d t db = Ok (u, db') ->
  exists table, db' = on_dispositions (fun _ => table) db.
Proof.
  unfold disposition_statement. destruct (ma_external_reference resolution); [|done].
  unfold insert_disposition, check_constraint, unique_key, foreign_key, guard_err. intros Hst.
  repeat (apply res_bind_Ok in Hst as (? & _ & Hst)). injection Hst as _ <-. by eexists.
Qed.

Lemma record_external_disposition_spec credential key hash resolution t db now :
  ma_action resolution = RecordRemainderDisposition ->
  manual_resolution_requests db !! (oc_key_id credential, key) = None ->
  within db now (record_external_disposition (R := R) credential key hash resolution t)
    (close_step credential key hash resolution t db).
Proof.
  intros Hact Hnone. apply within_bind_lift. intros intent_id _. apply within_bind_lift. intros remainder _.
  apply within_bind_lift. intros disposition _. apply within_bind_fetch. intros [merchant stored] _.
  apply within_bind_lift. intros amount _. apply within_bind_lift. intros _ _.
  eapply within_bind; [apply insert_resolution_spec|].
  intros [result|] db1; [intros (_ & row & Hrow & _); congruence|]. intros (_ & id & Hid & ->).
  match goal with |- within ?d _ _ _ => eapply (within_bind _ _ _ _ (fun _ db' => db' = d)) end.
  { apply within_map_err, within_exec. intros rid db'.
    destruct (re_id <$> _); [|done]. intros [= <- <-]. reflexivity. }
  intros rid db' ->. apply within_bind_uuid. intros did.
  apply (within_bind_run_at conflict_or_storage (fun _ => disposition_statement _ _ _ _ _ _ _ _ _)).
  intros u db2 (table & ->)%disposition_statement_Ok. apply within_bind_op. intros n db3 Hup.
  apply within_bind_lift. intros _ Hn%guard_err_Ok. bool_to_prop. subst n.
  unfold update_processing in Hup. destruct (update_row _ _ _ _) as [[rows tab]|] eqn:Hu;
    simpl in Hup; simplify_eq.
  apply update_row_Ok in Hu as [(? & _)|(p & p' & Hp & Hw & Hset & _ & ->)]; [done|]. bool_to_prop.
  apply resolve_processing_Ok in Hset as [? ?].
  eapply within_bind; [apply record_admin_audit_spec|]. intros [] db3 [trail ->].
  eapply within_weaken; [apply load_resolution_spec|]. intros result db4 [-> (row & Hrow & _ & Hres)].
  cbn [manual_resolution_requests on_audit on_processing on_resolutions on_dispositions] in Hrow.
  rewrite lookup_insert_eq in Hrow. injection Hrow as <-.
  eexists id, (Some merchant), (Some remainder), _, table, _. split_and!; try done.
  - exists p, p'. rewrite Hact. rewrite bool_decide_eq_false_2 by done. split_and!; try done. set_solver.
  - by exists trail.
Qed.

(** The step of [resolve_manual]: a decision taken before is returned as it
    was, a new one is taken. *)
Definition resolve_step credential (key : string) (hash : list byte) resolution (t : Z) (db : Database)
    (result : ManualResolutionResult) (db' : Database) : Prop :=
  (exists row, manual_resolution_requests db !! (oc_key_id credential, key) = Some row
     /\ re_request_hash row = hash /\ result_of row true result /\ db' = db)
  \/ (if bool_decide (ma_action resolution = Honor)
      then honor_step credential key hash resolution t db result db'
      else close_step credential key hash resolution t db result db').

Lemma pg_resolve_manual_transacts credential key hash resolution t :
  transacts (resolve_step credential key hash resolution t)
    (pg_resolve_manual (R := R) credential key hash resolution t).
Proof.
  intros db0 db now. apply ends_begin. intros now'. apply ends_bind_op. intros [] db1 [= <-].
  apply ends_bind_op. intros ex db1 [= <- <-]. destruct (is_row _ _) eqn:Hrow.
  - eapply ends_bind; [apply load_resolution_spec|]. intros result db1 [-> (row & Hr & Hh & Hres)].
    apply ends_commit. left. by exists row.
  - apply is_row_false in Hrow.
    eapply (ends_bind _ _ _ _ _ (fun result db' =>
      if bool_decide (ma_action resolution = Honor)
      then honor_step credential key hash resolution t db0 result db'
      else close_step credential key hash resolution t db0 result db')).
    + destruct (ma_action resolution) eqn:Hact; simpl.
      * by apply honor_transfer_spec.
      * by apply reject_transfer_spec.
      * by apply record_external_disposition_spec.
    + intros result db' Hstep. apply ends_commit. by right.
Qed.

(** *** Proposals *)

(** A [NUMERIC] column read back as an amount. *)
Lemma parse_numeric z a : parse_raw (numeric_text z) = Ok a -> as_u256 a = z /\ 0 < z <= U256_MAX.
Proof.
  unfold parse_raw, numeric_text. rewrite map_err_Ok. intros Hp.
  apply RawAmount_from_str_Ok in Hp as (_ & Hd & Hv & ->). revert Hd Hv. unfold dec_signed.
  destruct (Z.ltb_spec z 0); [done|]. intros _. rewrite dec_unsigned_value by done. by simpl.
Qed.

#[local] Instance HonorProposal_inhabited : Inhabited HonorProposal.
Proof.
  by constructor; constructor; first [exact 0|exact ""|exact None|exact RawAmount_ZERO|exact JNull
    |exact ProposalPending|exact false].
Qed.

Lemma ends_commit_lift {A} `{Inhabited A} (f : SqlError -> OperationsError) (r : result OperationsError A)
    db0 db now (T : Database -> Prop) :
  T db -> ends (R := R) db0 db now (_ ← eff_map_err f commit; lift r) (fun _ => T).
Proof.
  intros HT s <- <- <-. unfold mbind, eff_bind, eff_map_err, commit, lift.
  destruct (commit_fate _) as [[|d []] r']; simpl; [|right; by exists inhabitant|by left].
  destruct r; [done|right; by exists inhabitant].
Qed.

(** Proposals changed, but no decided one, and the trail grew. *)
Definition proposals_moved (db : Database) (table : gmap Z ProposalRow) : Prop :=
  forall id p, manual_honor_proposals db !! id = Some p -> ho_status p <> "pending" -> table !! id = Some p.
Definition proposal_step (db db' : Database) : Prop :=
  db' = db \/ exists table, proposals_moved db table
    /\ audited (on_proposals (fun _ => table) db) db'.

Lemma update_proposal_Ok id set_ db result db' :
  update_proposal id set_ db = Ok (result, db') ->
  (result = None /\ db' = db /\ manual_honor_proposals db !! id = None)
  \/ exists p, manual_honor_proposals db !! id = Some p /\ proposal_check (set_ p) = true
     /\ result = Some (id, set_ p) /\ db' = on_proposals <[id := set_ p]> db.
Proof.
  unfold update_proposal. destruct (manual_honor_proposals db !! id) as [p|] eqn:Hp;
    [|intros [= <- <-]; by left].
  unfold check_constraint at 1. intros (u & Hc%guard_err_Ok & Hst)%res_bind_Ok. bool_to_prop.
  repeat (apply res_bind_Ok in Hst as (? & _ & Hst)). injection Hst as <- <-. right. by exists p.
Qed.

Lemma expire_proposals_Ok transfer_id t db n db' :
  expire_proposals transfer_id t db = Ok (n, db') ->
  exists table, proposals_moved db table /\ db' = on_proposals (fun _ => table) db.
Proof.
  unfold expire_proposals. intros (u & _ & Hst)%res_bind_Ok. simpl in Hst. injection Hst as _ <-.
  eexists. split; [|done]. intros id p Hp Hst. rewrite lookup_fmap, Hp. simpl.
  by rewrite (bool_decide_eq_false_2 (ho_status p = "pending")), andb_false_r by done.
Qed.

Lemma insert_proposal_Ok id row db a db' :
  insert_proposal id row db = Ok (a, db') ->
  manual_honor_proposals db !! id = None /\ proposal_check row = true
  /\ db' = on_proposals <[id := row]> db.
Proof.
  unfold insert_proposal, check_constraint. intros (u & Hc%guard_err_Ok & Hst)%res_bind_Ok. bool_to_prop.
  apply res_bind_Ok in Hst as (? & Hu & Hst). unfold unique_key in Hu. apply guard_err_Ok, is_row_false in Hu.
  repeat (apply res_bind_Ok in Hst as (? & _ & Hst)). by injection Hst as <- <-.
Qed.

Lemma pg_propose_honor_transacts proposer key hash resolution threshold t expires_at :
  transacts (fun db _ db' => proposal_step db db')
    (pg_propose_honor (R := R) proposer key hash resolution threshold t expires_at).
Proof.
  intros db0 db now. unfold pg_propose_honor.
  destruct (ma_action resolution), (ma_payment_intent_id resolution) as [intent_id|],
    (ma_attempt_id resolution) as [attempt_id|], (ma_allocate_raw resolution) as [allocate|];
    try apply ends_lift_Err.
  apply ends_begin. intros now'. apply ends_bind_op. intros [] db1 [= <-].
  apply ends_bind_op. intros ex db1 Hsel. unfold select in Hsel. injection Hsel as Hex <-.
  destruct ex as [existing|].
  { apply ends_bind_lift. intros _ _. apply (ends_commit_lift _ _ _ _ _ (proposal_step db0)). by left. }
  eapply ends_bind; [apply plan_honor_spec|]. intros plan db1 [-> _].
  apply ends_bind_op. intros n db1 (table & Hmoved & ->)%expire_proposals_Ok.
  eapply (ends_bind _ _ _ _ _ (fun _ db' => db' = _)); [apply within_uuid; reflexivity|]. intros id db' ->.
  apply (ends_bind_run_at conflict_or_storage (fun _ => insert_proposal _ _)).
  intros inserted db2 (Hid & _ & ->)%insert_proposal_Ok.
  eapply ends_bind; [apply audit_spec|]. intros [] db3 [trail ->].
  apply (ends_commit_lift _ _ _ _ _ (proposal_step db0)). right.
  eexists (<[id := _]> table). split; [|by exists trail].
  intros id' p Hp Hst. rewrite lookup_insert_ne; [by apply Hmoved|].
  intros <-. cbn in Hid. rewrite (Hmoved id p Hp Hst) in Hid. done.
Qed.

Lemma pg_reject_honor_transacts operator proposal_id key reason t :
  transacts (fun db _ db' => proposal_step db db')
    (pg_reject_honor (R := R) operator proposal_id key reason t).
Proof.
  intros db0 db now. apply ends_begin. intros now'.
  eapply (ends_bind _ _ _ _ _ (fun p db' => db' = db0 /\ manual_honor_proposals db0 !! proposal_id = Some p)).
  { apply within_bind_op. intros row db1 [= <- <-]. apply within_lift. intros p Hp%ok_or_Ok. done. }
  intros p db1 [-> Hp]. apply ends_bind_lift. intros status Hs%map_err_Ok. case_match eqn:Hc; clear Hc.
  { apply ends_bind_lift. intros _ _. apply (ends_commit_lift _ _ _ _ _ (proposal_step db0)). by left. }
  apply ends_bind_lift. intros _ Hpend%guard_err_Ok. bool_to_prop. subst status.
  apply (parse_table_sound _ _ ProposalStatus_as_str) in Hs; [|repeat constructor].
  apply ends_bind_op. intros row db1 Hst. apply res_bind_Ok in Hst as ([r db2] & Hup & Hst).
  apply update_proposal_Ok in Hup as [(-> & _ & ?)|(p' & Hp' & _ & -> & ->)]; [congruence|].
  rewrite Hp in Hp'. injection Hp' as <-. simpl in Hst. injection Hst as <- <-.
  eapply ends_bind; [apply audit_spec|]. intros [] db3 [trail ->].
  apply (ends_commit_lift _ _ _ _ _ (proposal_step db0)). right.
  eexists. split; [|exists trail; by destruct db0].
  intros id q Hq Hst. rewrite lookup_insert_ne; [done|]. intros <-. rewrite Hp in Hq. by injection Hq as <-.
Qed.

(** The step of an approval: the proposed honor, run under a key that did not
    propose it, before the proposal ran out. *)
Definition approve_step (approver : OperatorCredential) (proposal_id : Z) (key reason : string) (t : Z)
    (db : Database) (result : ManualResolutionResult) (db' : Database) : Prop :=
  (exists row, manual_resolution_requests db !! (oc_key_id approver, key) = Some row
     /\ result_of row true result /\ db' = db)
  \/ exists p allocate db1,
       manual_honor_proposals db !! proposal_id = Some p /\ ho_status p = "pending"
       /\ ho_proposer_key_id p <> oc_key_id approver /\ t < ho_expires_at p
       /\ as_u256 allocate = ho_allocate_raw p
       /\ honor_step approver key (ho_request_hash p) (proposed_resolution p allocate) t db result db1
       /\ audited (on_proposals <[proposal_id := decide_proposal "approved"
              (Some (oc_key_id approver, oc_label approver)) (Some key) (Some reason) t
              (Some (mz_id result)) p]> db1) db'.

Lemma honor_step_proposals credential key hash resolution t db result db' :
  honor_step credential key hash resolution t db result db' ->
  manual_honor_proposals db' = manual_honor_proposals db.
Proof.
  intros (plan & a & i & id & row & db1 & _ & _ & _ & _ & _ & _ & Hh & [trail ->] & _).
  apply honored_same_control in Hh as [_ E]. cbn. by rewrite E.
Qed.

Lemma pg_approve_honor_transacts approver proposal_id key reason t :
  transacts (approve_step approver proposal_id key reason t)
    (pg_approve_honor (R := R) approver proposal_id key reason t).
Proof.
  intros db0 db now. apply ends_begin. intros now'. apply ends_bind_op. intros [] db1 [= <-].
  apply ends_bind_op. intros spent db1 [= <- <-].
  eapply (ends_bind _ _ _ _ _ (fun p db' => db' = db0 /\ manual_honor_proposals db0 !! proposal_id = Some p)).
  { apply within_bind_op. intros row db1 [= <- <-]. apply within_lift. intros p Hp%ok_or_Ok. done. }
  intros p db1 [-> Hp]. apply ends_bind_lift. intros hash Hhash.
  destruct (manual_resolution_requests db0 !! (oc_key_id approver, key)) as [row|] eqn:Hrow; simpl.
  { apply ends_bind_lift. intros _ _. eapply ends_bind; [apply load_resolution_spec|].
    intros result db1 [-> (row' & Hr & _ & Hres)]. apply ends_commit. left. by exists row'. }
  apply ends_bind_lift. intros _ Hne%guard_err_Ok. apply ends_bind_lift. intros status Hs%map_err_Ok.
  apply ends_bind_lift. intros _ Hpend%guard_err_Ok. apply ends_bind_lift. intros _ Hexp%guard_err_Ok.
  bool_to_prop. subst status. apply (parse_table_sound _ _ ProposalStatus_as_str) in Hs; [|repeat constructor].
  apply ends_bind_lift. intros allocate [Hal _]%parse_numeric.
  assert (hash = ho_request_hash p) as -> by (unfold request_hash in Hhash; by inv_res).
  eapply ends_bind; [by apply honor_transfer_spec|]. intros result db1 Hh.
  apply ends_bind_op. intros u db2 Hup.
  apply update_proposal_Ok in Hup as [(_ & _ & Hno)|(p' & Hp' & _ & -> & ->)];
    rewrite (honor_step_proposals _ _ _ _ _ _ _ _ Hh), Hp in *; [done|]. injection Hp' as <-.
  eapply ends_bind; [apply audit_spec|]. intros [] db3 Haud. apply ends_commit. right.
  exists p, allocate, db1. by split_and!.
Qed.
End specs.

(** * Two keys *)

(** The decision an allocation on an operator's word rests on. *)
Definition rests_on (row : ResolutionRow) (a t : Z) (al : AllocationRow) : Prop :=
  re_action row = "honor" /\ re_transfer_id row = t /\ re_attempt_id row = Some a
  /\ re_payment_intent_id row = Some (ar_payment_intent_id al)
  /\ re_allocated_raw row = Some (ar_allocated_raw al).

(** A decision of key [k] was proposed by another key and approved by [k]. *)
Definition approved (db : Database) (k : Z) (row : ResolutionRow) : Prop :=
  exists id p, manual_honor_proposals db !! id = Some p /\ ho_status p = "approved"
    /\ ho_resolution_id p = Some (re_id row) /\ ho_decided_by_key_id p = Some k
    /\ ho_proposer_key_id p <> k /\ ho_transfer_id p = re_transfer_id row
    /\ Some (ho_attempt_id p) = re_attempt_id row /\ Some (ho_allocate_raw p) = re_allocated_raw row.

Record governed (threshold : Z) (db : Database) : Prop := {
  gov_balanced : balanced db;
  (** every manual allocation rests on a recorded decision for exactly it *)
  gov_signed a t al : payment_allocations db !! (a, t) = Some al -> ar_reason al = "manual" ->
    exists k key row, manual_resolution_requests db !! (k, key) = Some row /\ rests_on row a t al;
  (** and a decision to honor at least the threshold was approved *)
  gov_dual k key row amount : manual_resolution_requests db !! (k, key) = Some row ->
    re_action row = "honor" -> re_allocated_raw row = Some amount -> threshold <= amount ->
    approved db k row;
}.

(** Neither money nor decisions changed, and no event was announced. *)
Definition same_announcements (db db' : Database) : Prop :=
  forall type aggregate, announcements type aggregate db' = announcements type aggregate db.
Definition aside (db db' : Database) : Prop :=
  same_money db db' /\ same_announcements db db' /\ same_control db db' /\ same_orders db db'
  /\ payment_settlement_decisions db' = payment_settlement_decisions db.

Lemma aside_refl db : aside db db.
Proof. done. Qed.
Lemma aside_trans db1 db2 db3 : aside db1 db2 -> aside db2 db3 -> aside db1 db3.
Proof.
  intros ((A1 & A2 & A3 & A4 & A5 & A6 & A7) & A8 & (A9 & A10) & (A11 & A12 & A13 & A14) & A15)
    ((B1 & B2 & B3 & B4 & B5 & B6 & B7) & B8 & (B9 & B10) & (B11 & B12 & B13 & B14) & B15).
  unfold aside, same_money, same_control, same_orders.
  rewrite B1, B2, B3, B4, B5, B6, B7, B9, B10, B11, B12, B13, B14, B15. split_and!; try done.
  intros type aggregate. by rewrite B8, A8.
Qed.

Lemma balanced_aside db db' : aside db db' -> balanced db -> balanced db'.
Proof.
  intros (Hm & He & _). by apply balanced_same.
Qed.

Lemma approved_kept db db' k row :
  proposals_moved db (manual_honor_proposals db') -> approved db k row -> approved db' k row.
Proof.
  intros Hm (id & p & Hp & Hst & Hrest). exists id, p. split; [|done]. apply Hm; [done|]. by rewrite Hst.
Qed.

Lemma moved_same db db' :
  manual_honor_proposals db' = manual_honor_proposals db -> proposals_moved db (manual_honor_proposals db').
Proof. intros E id p Hp _. by rewrite E. Qed.

(** A step that keeps the decisions and adds no manual allocation. *)
Lemma governed_frame threshold db db' :
  governed threshold db -> balanced db' ->
  manual_resolution_requests db' = manual_resolution_requests db ->
  proposals_moved db (manual_honor_proposals db') ->
  (forall a t al, payment_allocations db' !! (a, t) = Some al -> ar_reason al = "manual" ->
     payment_allocations db !! (a, t) = Some al) ->
  governed threshold db'.
Proof.
  intros [G1 G2 G3] Hb Hres Hprop Hal. split; [done|..]; rewrite Hres; [by eauto|].
  intros k key row amount Hrow Ha Hamt Hle. eapply approved_kept; [done|by eapply G3].
Qed.

Lemma governed_aside threshold db db' : aside db db' -> governed threshold db -> governed threshold db'.
Proof.
  intros Ha G. pose proof Ha as ((_ & _ & _ & Eal & _) & _ & (Er & Ep) & _).
  eapply governed_frame; [done|by eapply balanced_aside, gov_balanced|done|by apply moved_same|].
  by rewrite Eal.
Qed.

Lemma governed_proposal threshold db db' : proposal_step db db' -> governed threshold db -> governed threshold db'.
Proof.
  intros [->|(table & Hm & [trail ->])] G; [done|]. eapply governed_frame; try done.
  eapply balanced_audited; [by eexists|]. by apply balanced_proposals, G.
Qed.

Lemma governed_settle threshold lease command record db db' :
  settle_step lease command db record db' -> governed threshold db -> governed threshold db'.
Proof.
  intros Hs G. pose proof (gov_balanced _ _ G) as Hb.
  pose proof (settle_step_balanced _ _ _ _ _ Hb Hs) as Hb'. apply settle_step_case in Hs; [|done].
  destruct Hs as [_|record db' _ _ Hpk|outcome amount t db' _ _ Hcr]; [done|..].
  - destruct (parked_same_control _ _ _ _ Hpk) as [Er Ep].
    eapply governed_frame; [done..|by apply moved_same|].
    destruct Hpk as (r & r' & _ & _ & _ & Hn). by destruct (noted_same_money _ _ Hn) as (_ & _ & _ & -> & _).
  - destruct (credited_same_control _ _ _ _ _ _ _ Hcr) as [Er Ep].
    eapply governed_frame; [done..|by apply moved_same|].
    apply credited_allocation in Hcr as (_ & al & _ & _ & Hne & ->). intros a t' al' Hal' Hman.
    by apply lookup_insert_Some in Hal' as [[_ <-]|[_ ?]].
Qed.

Lemma governed_unresolved threshold lease transfer db db' :
  unresolved_step lease transfer db db' -> governed threshold db -> governed threshold db'.
Proof.
  intros Hs G. pose proof (unresolved_step_balanced _ _ _ _ (gov_balanced _ _ G) Hs) as Hb.
  assert (same_control db db' /\ payment_allocations db' = payment_allocations db) as [[Er Ep] Eal].
  { destruct Hs as (_ & [(r & r' & _ & _ & _ & _ & Hq)|[_ Hq]]);
      destruct (queued_same_control _ _ _ Hq), (queued_same_money _ _ _ Hq) as (_ & _ & _ & ? & _); done. }
  eapply governed_frame; [done..|by apply moved_same|]. by rewrite Eal.
Qed.

Section decisions.
Context {R : Type} `{Postgres R} `{U256Lib} `{UuidLib} `{TimeSerde}.
Implicit Types (credential : OperatorCredential) (resolution : ManualResolution).

(** The tables after an honor. *)
Lemma honor_step_tables credential key hash resolution t db result db' :
  balanced db -> ma_action resolution = Honor ->
  honor_step credential key hash resolution t db result db' ->
  exists allocate attempt_id row al,
    ma_allocate_raw resolution = Some allocate /\ ma_attempt_id resolution = Some attempt_id
    /\ manual_resolution_requests db !! (oc_key_id credential, key) = None
    /\ rests_on row attempt_id (ma_transfer_id resolution) al
    /\ re_allocated_raw row = Some (as_u256 allocate) /\ mz_id result = re_id row
    /\ re_transfer_id row = ma_transfer_id resolution /\ re_attempt_id row = ma_attempt_id resolution
    /\ manual_resolution_requests db' =
         <[(oc_key_id credential, key) := row]> (manual_resolution_requests db)
    /\ manual_honor_proposals db' = manual_honor_proposals db
    /\ payment_allocations db' =
         <[(attempt_id, ma_transfer_id resolution) := al]> (payment_allocations db)
    /\ balanced db'.
Proof.
  intros Hb Hact (plan & a & i & id & row & db1 & Hplan & Ha & Hi & Hnone & _ & Hrow & Hh & Haud & Hres).
  pose proof Hplan as (i' & a' & allocate & hr & Hi' & Ha' & Hal & Hhr & Hpr).
  apply plan_row_facts in Hpr as (_ & Hpa & _). rewrite Hpa in *.
  destruct (planned_processing _ _ _ Hplan) as (p & Hp & Hst).
  assert (balanced db1) as Hb1.
  { eapply balanced_honored; [|exact Hh|by apply balanced_resolutions].
    cbn. by eapply parked_unclaimed. }
  pose proof (honored_same_control _ _ _ _ _ _ _ Hh) as [Er Ep].
  apply honored_allocation in Hh as (_ & al & Hamt & Hint & _ & Eal). destruct Haud as [trail ->].
  exists allocate, a, row, al. cbn. rewrite Er, Ep, Eal. subst row. split_and!; try done.
  - unfold rests_on. cbn. rewrite Hact, Ha, Hi, Hamt, Hint. by split_and!.
  - by eapply result_of_id.
  - eapply balanced_audited; [|done]. by exists trail.
Qed.

Lemma governed_honor threshold credential key hash resolution t db result db' db'' :
  ma_action resolution = Honor -> honor_step credential key hash resolution t db result db' ->
  (forall allocate row, ma_allocate_raw resolution = Some allocate -> threshold <= as_u256 allocate ->
     mz_id result = re_id row -> re_transfer_id row = ma_transfer_id resolution ->
     re_attempt_id row = ma_attempt_id resolution -> re_allocated_raw row = Some (as_u256 allocate) ->
     approved db'' (oc_key_id credential) row) ->
  same_money db' db'' -> domain_events db'' = domain_events db' ->
  manual_resolution_requests db'' = manual_resolution_requests db' ->
  proposals_moved db (manual_honor_proposals db'') ->
  governed threshold db -> governed threshold db''.
Proof.
  intros Hact Hh Happ Hsm He Er'' Hprop G.
  destruct (honor_step_tables _ _ _ _ _ _ _ _ (gov_balanced _ _ G) Hact Hh)
    as (allocate & a & row & al & Hal & Ha & Hnone & Hrests & Hamt & Hid & Ht & Hra & Er & Ep & Eal & Hb).
  pose proof Hsm as (_ & _ & _ & Eal'' & _). split.
  - eapply balanced_same; [done| |done]. intros j. unfold announcements. by rewrite He.
  - intros a0 t0 al0 Hal0 Hman. rewrite Eal'', Eal in Hal0. rewrite Er'', Er.
    apply lookup_insert_Some in Hal0 as [[[= <- <-] <-]|[_ Hal0]].
    + exists (oc_key_id credential), key, row. by rewrite lookup_insert_eq.
    + destruct (gov_signed _ _ G _ _ _ Hal0 Hman) as (k & key0 & row0 & Hr0 & Hx).
      exists k, key0, row0. rewrite lookup_insert_ne; [done|]. intros [= <- <-]. congruence.
  - intros k key0 row0 amount Hr0 Hhon Hamt0 Hle. rewrite Er'', Er in Hr0.
    apply lookup_insert_Some in Hr0 as [[[= <- <-] <-]|[_ Hr0]].
    + rewrite Hamt in Hamt0. injection Hamt0 as <-. by eapply Happ.
    + eapply approved_kept; [done|]. by eapply gov_dual.
Qed.

Lemma governed_close threshold credential key hash resolution t db result db' :
  ma_action resolution <> Honor -> close_step credential key hash resolution t db result db' ->
  governed threshold db -> governed threshold db'.
Proof.
  intros Hact (id & m & rem & row & disp & db1 & Hnone & _ & -> & (p & p' & Hp & Hst & Htot & Hres & ->)
    & [trail ->] & _) G. split.
  - eapply balanced_audited; [by eexists|]. eapply balanced_processing; [exact Hp|done| |].
    + rewrite Hres. unfold UNALLOCATED_STATES. set_solver.
    + by apply balanced_dispositions, balanced_resolutions, G.
  - cbn. intros a t' al Hal Hman. destruct (gov_signed _ _ G _ _ _ Hal Hman) as (k & key0 & row0 & Hr0 & Hx).
    exists k, key0, row0. rewrite lookup_insert_ne; [done|]. intros [= <- <-]. congruence.
  - cbn. intros k key0 row0 amount Hr0 Hhon Hamt Hle.
    apply lookup_insert_Some in Hr0 as [[_ <-]|[_ Hr0]]; [|by eapply (gov_dual _ _ G)].
    cbn in Hhon. by destruct (ma_action resolution).
Qed.

Lemma governed_resolve threshold credential key hash resolution t db result db' :
  (ma_action resolution = Honor -> forall allocate, ma_allocate_raw resolution = Some allocate ->
     as_u256 allocate < threshold) ->
  resolve_step credential key hash resolution t db result db' ->
  governed threshold db -> governed threshold db'.
Proof.
  intros Hsmall [(row & _ & _ & _ & ->)|Hstep] G; [done|]. case_bool_decide as Hact.
  - eapply governed_honor; [done|exact Hstep|..]; try done.
    + intros allocate row Hal Hle. specialize (Hsmall Hact allocate Hal). lia.
    + apply moved_same. by eapply honor_step_proposals.
  - by eapply governed_close.
Qed.

Lemma governed_approve threshold approver proposal_id key reason t db result db' :
  approve_step approver proposal_id key reason t db result db' ->
  governed threshold db -> governed threshold db'.
Proof.
  intros [(row & _ & _ & ->)|(p & allocate & db1 & Hp & Hst & Hne & _ & Hal & Hh & [trail ->])] G; [done|].
  pose proof (honor_step_proposals _ _ _ _ _ _ _ _ Hh) as Ep.
  eapply governed_honor; [| exact Hh|..]; try done.
  - intros al row Hal' _ Hid Ht Ha Hamt. injection Hal' as <-.
    eexists proposal_id, _. cbn. rewrite lookup_insert_eq. split; [done|]. cbn.
    split_and!; try done; [by rewrite Hid|by rewrite Hamt, Hal].
  - cbn. intros id q Hq Hnp. rewrite Ep. rewrite lookup_insert_ne; [done|].
    intros <-. rewrite Hp in Hq. by injection Hq as <-.
Qed.
End decisions.

(** ** Evidence leaves money and decisions alone *)

Section evidence.
Context {R : Type} `{Postgres R} `{U256Lib} `{UuidLib} `{TimeSerde}.


Lemma insert_reading_aside ingestion reading snapshot discard db0 db now :
  aside db0 db ->
  within db now (insert_reading (R := R) ingestion reading snapshot discard) (fun _ => aside db0).
Proof.
  intros Ha. apply within_bind_uuid. intros id. apply within_exec. intros [] db' Hst.
  eapply aside_trans; [done|]. unfold insert_reading_row in Hst.
  repeat (apply res_bind_Ok in Hst as (? & _ & Hst)). destruct (is_row _ _); [by simplify_eq|].
  repeat (apply res_bind_Ok in Hst as (? & _ & Hst)). by simplify_eq.
Qed.

Lemma record_price_aside ingestion :
  transacts (fun db _ db' => aside db db') (pg_record_price_ingestion (R := R) ingestion).
Proof.
  intros db0 db now. apply ends_begin. intros now'.
  eapply (ends_bind _ _ _ _ _ (fun _ => aside db0)); [|intros recorded db' Ha; by apply ends_commit].
  destruct (pi_outcome ingestion) as [aggregated|reason].
  - apply within_bind_lift. intros sources _. apply within_bind_lift. intros observed _.
    apply within_bind_uuid. intros id. apply within_bind_exec. intros [] db1 Hst.
    assert (aside db0 db1) as Ha.
    { unfold insert_snapshot in Hst. repeat (apply res_bind_Ok in Hst as (? & _ & Hst)). by simplify_eq. }
    eapply (within_bind _ _ _ _ (fun _ => aside db0)); [|intros [] db2 Ha2; by apply within_ret].
    apply (within_for_each _ (aside db0)); [|done]. intros [] entry db2 Ha2. by apply insert_reading_aside.
  - eapply (within_bind _ _ _ _ (fun _ => aside db0)); [|intros [] db2 Ha2; by apply within_ret].
    apply (within_for_each _ (aside db0)); [|apply aside_refl]. intros [] reading db2 Ha2.
    by apply insert_reading_aside.
Qed.

(** Every call of the operators' repositories keeps an invariant that only
    looks at money and decisions. *)
Context (I : Database -> Prop) (Haside : forall db db', aside db db' -> I db -> I db').

Abbreviation keeps m := (holds (fun s : Session R => I (committed s)) m (fun _ => True)).

Lemma keeps_read {A} (f : Database -> A) : keeps (pool_fetch f).
Proof. exact (holds_pool_fetch f I). Qed.

Lemma evidence_calls_keep :
  (forall asset currency, keeps (pg_price_policy asset currency))
  /\ (forall ingestion, keeps (pg_record_price_ingestion ingestion))
  /\ (forall asset health detail key t, keeps (pg_record_rail_health asset health detail key t))
  /\ (forall asset code detail label t, keeps (pg_open_rail_stop asset code detail label t))
  /\ (forall asset label reason t, keeps (pg_clear_rail_stop asset label reason t))
  /\ (forall submission key, keeps (pg_record_risk_evaluation submission key))
  /\ (forall key provider, keeps (pg_risk_provider_allowed key provider))
  /\ (forall hash, keeps (pg_authenticate_operator_key hash)).
Proof.
  assert (forall A (st : Z -> statement A), (forall now db a db', st now db = Ok (a, db') -> aside db db') ->
    keeps (eff_map_err unavailable (run_pool_at st))) as Hpool.
  { intros A st Hst. apply holds_pool. intros now db a db' Hi Hrun. by eapply Haside, Hi; eapply Hst. }
  split_and!.
  - intros asset currency. eapply holds_bind; [apply keeps_read|]. intros [row|] _; [|by apply holds_ret].
    eapply holds_bind; [apply holds_pure|]. intros ? _. eapply holds_bind; [apply holds_pure|].
    intros ? _. by apply holds_ret.
  - intros ingestion. eapply transacts_holds; [apply record_price_aside|].
    intros db a db' Hi Ha. exact (Haside db db' Ha Hi).
  - intros. eapply holds_bind; [apply holds_uuid|]. intros id _.
    eapply holds_bind; [apply Hpool|intros ? _; by apply holds_ret].
    intros now db a db' Hst. unfold insert_rail_health in Hst.
    repeat (apply res_bind_Ok in Hst as (? & _ & Hst)). by simplify_eq.
  - intros. eapply holds_bind; [apply holds_uuid|]. intros id _.
    eapply holds_bind; [apply Hpool|].
    + intros now db a db' Hst. unfold insert_rail_stop in Hst.
      repeat (apply res_bind_Ok in Hst as (? & _ & Hst)). destruct (_ || _); [by simplify_eq|].
      repeat (apply res_bind_Ok in Hst as (? & _ & Hst)). by simplify_eq.
    + intros [row|] _; [by apply holds_ret|]. eapply holds_bind; [apply keeps_read|]. intros. apply holds_pure.
  - intros. eapply holds_bind; [apply Hpool|intros ? _; by apply holds_ret].
    intros now db a db' Hst. unfold clear_stop, update_where in Hst. by simplify_eq/=.
  - intros. eapply holds_bind; [apply holds_uuid|]. intros id _.
    eapply holds_bind; [apply Hpool|intros ? _; by apply holds_ret].
    intros now db a db' Hst. unfold insert_risk in Hst.
    apply res_bind_Ok in Hst as (? & _ & Hst). destruct (is_some _); [by simplify_eq|].
    repeat (apply res_bind_Ok in Hst as (? & _ & Hst)). by simplify_eq.
  - intros. apply keeps_read.
  - intros. eapply holds_bind; [apply Hpool|].
    + intros now db a db' Hst. unfold use_operator_key in Hst. destruct (find_where _ _) as [[id key]|]; by simplify_eq.
    + intros [row|] _; [|by apply holds_ret]. eapply holds_bind; [apply holds_pure|].
      intros ? _. by apply holds_ret.
Qed.
End evidence.

(** ** The gateway's money calls, one after another *)

Section governance.
Context {R : Type} `{Postgres R} `{U256Lib} `{HashLib} `{UuidLib} `{TimeLib} `{TimeSerde}.
Context (self : OperationsService).

Let threshold : Z := as_u256 (dual_control_min_raw (os_honor_policy self)).

(** One call, or one pass, and the session it leaves, however it ended. *)
Inductive gateway_step : Session R -> Session R -> Prop :=
  | step_settlement lease limit s : gateway_step s (settle_pending lease limit s).2
  | step_resolve credential key resolution s :
      gateway_step s (resolve_manual self credential key resolution s).2
  | step_propose credential key resolution s :
      gateway_step s (propose_honor self credential key resolution s).2
  | step_approve credential proposal_id key reason s :
      gateway_step s (approve_honor credential proposal_id key reason s).2
  | step_reject credential proposal_id key reason s :
      gateway_step s (reject_honor credential proposal_id key reason s).2
  | step_price credential asset_id currency readings s :
      gateway_step s (submit_price credential asset_id currency readings s).2
  | step_rail_health credential asset_id health detail s :
      gateway_step s (submit_rail_health credential asset_id health detail s).2
  | step_open_stop credential asset_id code detail s :
      gateway_step s (open_rail_stop credential asset_id code detail s).2
  | step_clear_stop credential asset_id reason s :
      gateway_step s (clear_rail_stop credential asset_id reason s).2
  | step_risk credential submission s :
      gateway_step s (submit_risk_evaluation credential submission s).2.

Lemma holds_system_clock {E} (I : Database -> Prop) :
  holds (fun s : Session R => I (committed s)) (read_clock (E := E)) (fun _ => True).
Proof.
  apply holds_clock. intros s Hs. unfold clock_now, system_clock. by destruct (now_utc _).
Qed.

(** Takes a service call apart: guards, the clock, then the repository. *)
Ltac service_step :=
  match goal with
  | |- holds _ (mbind _ (lift _)) _ => eapply holds_bind; [apply holds_lift|]; intros ? ?
  | |- holds _ (mbind _ read_clock) _ => eapply holds_bind; [apply holds_system_clock|]; intros ? _
  | |- holds _ (lift _) _ => by eapply holds_weaken; [apply holds_lift|]
  | |- holds _ (mret _) _ => by apply holds_ret
  end.

(** What the transactions keep, every call keeps. *)
Section keeps.
Context (I : Database -> Prop).
Abbreviation keeps m := (holds (fun s : Session R => I (committed s)) m (fun _ => True)).
Hypothesis Iaside : forall db db', aside db db' -> I db -> I db'.

(** Evidence and rail stops decide nothing. *)
Lemma evidence_services_keep :
  (forall credential asset currency readings, keeps (submit_price credential asset currency readings))
  /\ (forall credential asset health detail, keeps (submit_rail_health credential asset health detail))
  /\ (forall credential asset code detail, keeps (open_rail_stop credential asset code detail))
  /\ (forall credential asset reason, keeps (clear_rail_stop credential asset reason))
  /\ (forall credential submission, keeps (submit_risk_evaluation credential submission)).
Proof.
  destruct (evidence_calls_keep (R := R) I Iaside)
    as (Hpol & Hrec & Hhealth & Hopen & Hclear & Hrisk & Hprov & _). split_and!; intros.
  - unfold submit_price, call. repeat service_step.
    eapply holds_bind; [apply holds_map_err, Hpol|]. intros policy _. repeat service_step.
    destruct (aggregate _ _ _); (eapply holds_bind; [apply holds_map_err, Hrec|]); intros; service_step.
  - unfold submit_rail_health, call. repeat service_step. apply holds_map_err, Hhealth.
  - unfold open_rail_stop, call. repeat service_step. apply holds_map_err, Hopen.
  - unfold clear_rail_stop, call. repeat service_step.
    eapply holds_bind; [apply holds_map_err, Hclear|]. intros; service_step.
  - unfold submit_risk_evaluation, call. repeat service_step.
    eapply holds_bind; [apply holds_map_err, Hprov|]. intros allowed _. repeat service_step.
    apply holds_map_err, Hrisk.
Qed.

Hypothesis Isettle : forall lease command, keeps (pg_settle lease command).
Hypothesis Iunresolved : forall lease transfer unresolved, keeps (pg_record_unresolved lease transfer unresolved).
Hypothesis Iresolve : forall credential key hash resolution t,
  (ma_action resolution = Honor -> forall allocate, ma_allocate_raw resolution = Some allocate ->
     as_u256 allocate < threshold) -> keeps (pg_resolve_manual credential key hash resolution t).
Hypothesis Iproposal : forall db db', proposal_step db db' -> I db -> I db'.
Hypothesis Iapprove : forall approver proposal_id key reason t,
  keeps (pg_approve_honor approver proposal_id key reason t).

Lemma resolve_manual_keeps credential key resolution :
  holds (fun s : Session R => I (committed s)) (resolve_manual self credential key resolution) (fun _ => True).
Proof.
  unfold resolve_manual. do 4 service_step.
  eapply holds_bind; [apply holds_lift|]. intros _ Hdual%guard_err_Ok. service_step.
  apply Iresolve. intros Hact allocate Hal. rewrite Hact, Hal, bool_decide_eq_true_2 in Hdual by done.
  cbn in Hdual. unfold requires_second_operator in Hdual. bool_to_prop. done.
Qed.

Lemma gateway_step_holds s s' : gateway_step s s' -> I (committed s) -> I (committed s').
Proof.
  intros Hstep G. enough (forall A (m : eff (Session R) OperationsError A),
    holds (fun s => I (committed s)) m (fun _ => True) -> I (committed (m s).2)) as Hm; [|intros A m Hh; by apply Hh].
  destruct evidence_services_keep as (Hprice & Hhealth & Hopen & Hclear & Hrisk).
  destruct Hstep as [lease limit s|credential key resolution s|credential key resolution s
    |credential id key reason s|credential id key reason s|credential asset currency readings s
    |credential asset health detail s|credential asset code detail s|credential asset reason s
    |credential submission s].
  - by apply (settle_pending_holds I).
  - by apply Hm, resolve_manual_keeps.
  - apply Hm. unfold propose_honor. repeat service_step.
    eapply transacts_holds; [apply pg_propose_honor_transacts|]. intros db ? db' G' Hp. exact (Iproposal _ _ Hp G').
  - apply Hm. unfold approve_honor. repeat service_step. apply Iapprove.
  - apply Hm. unfold reject_honor. repeat service_step.
    eapply transacts_holds; [apply pg_reject_honor_transacts|]. intros db ? db' G' Hp. exact (Iproposal _ _ Hp G').
  - apply Hm, Hprice.
  - apply Hm, Hhealth.
  - apply Hm, Hopen.
  - apply Hm, Hclear.
  - apply Hm, Hrisk.
Qed.
End keeps.

(** The same with the steps of the transactions. *)
Lemma gateway_step_keeps (I : Database -> Prop) s s' :
  (forall lease command record db db', settle_step lease command db record db' -> I db -> I db') ->
  (forall lease transfer db db', unresolved_step lease transfer db db' -> I db -> I db') ->
  (forall credential key hash resolution t db result db',
     (ma_action resolution = Honor -> forall allocate, ma_allocate_raw resolution = Some allocate ->
        as_u256 allocate < threshold) ->
     resolve_step credential key hash resolution t db result db' -> I db -> I db') ->
  (forall db db', proposal_step db db' -> I db -> I db') ->
  (forall approver proposal_id key reason t db result db',
     approve_step approver proposal_id key reason t db result db' -> I db -> I db') ->
  (forall db db', aside db db' -> I db -> I db') ->
  gateway_step s s' -> I (committed s) -> I (committed s').
Proof.
  intros Is Iu Ir Ip Ia Iaside. apply gateway_step_holds; [done| | | |done|].
  - intros lease command. eapply transacts_holds; [apply pg_settle_transacts|]. intros db record db' Hi Hs. by eapply Is.
  - intros lease transfer unresolved. eapply transacts_holds; [apply pg_record_unresolved_transacts|].
    intros db [] db' Hi Hs. by eapply Iu.
  - intros credential key hash resolution t Hd. eapply transacts_holds; [apply pg_resolve_manual_transacts|].
    intros db result db' Hi Hs. by eapply Ir.
  - intros approver proposal_id key reason t. eapply transacts_holds; [apply pg_approve_honor_transacts|].
    intros db result db' Hi Hs. by eapply Ia.
Qed.

Lemma gateway_step_governed s s' :
  gateway_step s s' -> governed threshold (committed s) -> governed threshold (committed s').
Proof.
  apply gateway_step_keeps.
  - intros. by eapply governed_settle.
  - intros. by eapply governed_unresolved.
  - intros. by eapply governed_resolve.
  - intros db db' Hp. by apply governed_proposal.
  - intros. by eapply governed_approve.
  - apply governed_aside.
Qed.

Lemma gateway_steps_governed s s' :
  rtc gateway_step s s' -> governed threshold (committed s) -> governed threshold (committed s').
Proof. induction 1 as [|s1 s2 s3 Hstep _ IH]; [done|]. intros G. by apply IH, (gateway_step_governed s1). Qed.

(** C4: Money that an operator moves takes two keys.  Whatever settlement
    passes and operator calls follow each other, with whatever failures, the
    books balance, every allocation on an operator's word rests on a recorded
    decision to honor exactly that transfer, attempt and amount, and if the
    amount reaches the service's threshold, that decision approved a proposal
    for the same transfer, attempt and amount which a different operator key
    had made. *)
Theorem manual_money_takes_two_keys s s' :
  governed threshold (committed s) -> rtc gateway_step s s' ->
  balanced (committed s')
  /\ forall a t al, payment_allocations (committed s') !! (a, t) = Some al -> ar_reason al = "manual" ->
     exists k key row, manual_resolution_requests (committed s') !! (k, key) = Some row
       /\ rests_on row a t al
       /\ (threshold <= ar_allocated_raw al -> approved (committed s') k row).
Proof.
  intros G Hsteps. apply gateway_steps_governed in Hsteps as [Hb Hs Hd]; [|done]. split; [done|].
  intros a t al Hal Hman. destruct (Hs a t al Hal Hman) as (k & key & row & Hrow & Hr).
  exists k, key, row. split_and!; [done..|]. intros Hle. destruct Hr as (Hact & _ & _ & _ & Hamt).
  by eapply Hd.
Qed.
End governance.

(** ** An honor's amount *)

Section amounts.
Context {R : Type} `{Postgres R} `{U256Lib} `{UuidLib} `{TimeSerde}.
Implicit Types (credential : OperatorCredential) (resolution : ManualResolution).

Lemma parse_numeric_zero z a :
  parse_raw_allow_zero (numeric_text z) = Ok a -> as_u256 a = z /\ 0 <= z <= U256_MAX.
Proof.
  unfold parse_raw_allow_zero. case_bool_decide as Ht; [|intros Hp%parse_numeric; lia].
  intros [= <-]. destruct (trim_start_zeros_split (numeric_text z)) as (k & Hs & _).
  rewrite Ht, str_app_nil_r in Hs. assert (z = 0) as ->; [|done]. revert Hs. unfold numeric_text, dec_signed.
  destruct (Z.ltb_spec z 0); [by destruct k|]. intros Hs. apply (f_equal (digits_value 0)) in Hs.
  by rewrite dec_unsigned_value, zeros_value in Hs.
Qed.

(** The columns a plan was made on. *)
Record honor_facts (t : Z) (plan : HonorPlan) (db : Database) (a i : Z)
    (attempt : AttemptRow) (intent : IntentRow) (transfer : TransferRow) (p : ProcessingRow) : Prop := {
  hf_attempt : payment_attempts db !! a = Some attempt;
  hf_intent : payment_intents db !! i = Some intent;
  hf_transfer : chain_transfers db !! t = Some transfer;
  hf_processing : chain_transfer_processing db !! t = Some p;
  hf_final : st_state <$> chain_transfer_state_current db !! t = Some "finalized";
  hf_parked : pr_processing_state p ∈ ["held"; "unmatched"];
  hf_bound : tt_payment_intent_id attempt = i /\ ir_merchant_id intent = tt_merchant_id attempt
    /\ tr_collector_address_id transfer = tt_collector_address_id attempt;
  hf_open : tt_status attempt ∈ ["awaiting_payment"; "expired"]
    /\ ir_status intent ∈ ["awaiting_payment"; "partially_paid"; "risk_hold"; "expired"]
    /\ tr_block_time transfer < tt_late_payment_until attempt;
  hf_amount : as_u256 (pl_allocate plan) =
    Z.min (tt_expected_amount_raw attempt - attempt_total db a) (tr_amount_raw transfer - pr_allocated_raw p);
  hf_remainder : as_u256 (pl_remainder plan) =
    tr_amount_raw transfer - pr_allocated_raw p - as_u256 (pl_allocate plan);
  hf_covers : covers (pl_outcome_name plan) = true <->
    as_u256 (pl_allocate plan) = tt_expected_amount_raw attempt - attempt_total db a;
}.

(** An honor of [amount] from transfer [t] to attempt [a] of intent [i] did
    what it was asked and nothing more. *)
Definition honored_as_owed (t a i : Z) (amount : RawAmount) (db db' : Database) : Prop :=
  exists plan attempt intent transfer p,
    pl_allocate plan = amount /\ honor_facts t plan db a i attempt intent transfer p
    /\ (forall t', transfer_total db' t' = transfer_total db t' + if t' =? t then as_u256 amount else 0)
    /\ (forall a', attempt_total db' a' = attempt_total db a' + if a' =? a then as_u256 amount else 0)
    /\ (exists intent', payment_intents db' !! i = Some intent'
          /\ ir_status intent' = if covers (pl_outcome_name plan) then "paid" else "partially_paid")
    /\ paid_events i db' = (paid_events i db + if covers (pl_outcome_name plan) then 1 else 0)%nat.

(** The arithmetic of a plan. *)
Lemma plan_row_amounts row allocate plan expected attempt_allocated amount allocated :
  mh_expected_raw row = numeric_text expected -> mh_attempt_allocated_raw row = numeric_text attempt_allocated ->
  mh_transfer_raw row = numeric_text amount -> mh_transfer_allocated_raw row = numeric_text allocated ->
  plan_row row allocate = Ok plan ->
  as_u256 allocate = Z.min (expected - attempt_allocated) (amount - allocated)
  /\ as_u256 (pl_remainder plan) = amount - allocated - as_u256 allocate
  /\ (covers (pl_outcome_name plan) = true <-> as_u256 allocate = expected - attempt_allocated).
Proof.
  intros E1 E2 E3 E4 Hp. unfold plan_row in Hp. rewrite E1, E2, E3, E4 in Hp.
  apply res_bind_Ok in Hp as (_ & _ & Hp). apply res_bind_Ok in Hp as (_ & _ & Hp).
  apply res_bind_Ok in Hp as (e & [He He']%parse_numeric & Hp).
  apply res_bind_Ok in Hp as (b & [Hb Hb']%parse_numeric_zero & Hp).
  apply res_bind_Ok in Hp as (c & [Hc Hc']%parse_numeric & Hp).
  apply res_bind_Ok in Hp as (d & [Hd Hd']%parse_numeric_zero & Hp).
  rewrite He, Hb, Hc, Hd in Hp. rewrite !u256_checked_sub_law in Hp by (unfold is_u256; lia).
  apply res_bind_Ok in Hp as (outstanding & [-> Ho]%ok_or_Ok%checked_Some & Hp).
  apply res_bind_Ok in Hp as (available & [-> Ha]%ok_or_Ok%checked_Some & Hp).
  apply res_bind_Ok in Hp as (_ & Hreq%guard_err_Ok & Hp). bool_to_prop.
  rewrite u256_checked_sub_law in Hp by (unfold is_u256; lia).
  apply res_bind_Ok in Hp as (rest & [-> Hr]%ok_or_Ok%checked_Some & Hp).
  apply res_bind_Ok in Hp as (remainder & Hrem & Hp).
  assert (as_u256 remainder = amount - allocated - as_u256 allocate) as Hrem'.
  { destruct (Z.eqb_spec (amount - allocated - as_u256 allocate) 0); [by injection Hrem as <-|].
    by apply map_err_Ok, RawAmount_positive_Ok in Hrem as [_ ->]. }
  destruct (Z.eqb_spec (as_u256 allocate) (expected - attempt_allocated)) as [Heq|Hne], (RawAmount_is_zero remainder);
    cbn in Hp; injection Hp as <-; by split_and!.
Qed.

Lemma planned_facts resolution plan db :
  planned resolution plan db ->
  exists a i attempt intent transfer p,
    ma_attempt_id resolution = Some a /\ ma_payment_intent_id resolution = Some i
    /\ honor_facts (ma_transfer_id resolution) plan db a i attempt intent transfer p.
Proof.
  intros (i & a & allocate & row & Hi & Ha & _ & Hrow & Hplan).
  pose proof (plan_row_facts _ _ _ Hplan) as (_ & Hpa & Hst & Hfin & Hb).
  unfold honor_row in Hrow. repeat (apply bind_Some in Hrow as (? & ? & Hrow)).
  case_match eqn:Hjoin; [|done]. injection Hrow as <-. unfold honor_is_bound in Hb. cbn in Hst, Hfin, Hb.
  bool_to_prop. eapply plan_row_amounts in Hplan as (Hal & Hrem & Hcov); [|done..]. rewrite <- Hpa in *.
  eexists a, i, _, _, _, _. split_and!; [done..|]. subst. split; try done; by split_and!.
Qed.
End amounts.

Lemma credited_attempt_total command amount state paid t db db' a :
  credited command amount state paid t db db' ->
  attempt_total db' a = attempt_total db a + (if a =? sc_attempt_id command then amount else 0).
Proof.
  intros Hcr. apply credited_allocation in Hcr as (Hnone & al & Hamt & _ & _ & Eal).
  unfold attempt_total. rewrite Eal, sum_where_insert by done. cbv beta. cbn [fst].
  rewrite (Z.eqb_sym a). destruct (sc_attempt_id command =? a); lia.
Qed.

Lemma signed_totals a t al actor db db' :
  payment_allocations db !! (a, t) = Some al ->
  payment_allocations db' = <[(a, t) := signed actor al]> (payment_allocations db) ->
  (forall t', transfer_total db' t' = transfer_total db t')
  /\ (forall a', attempt_total db' a' = attempt_total db a').
Proof.
  intros Hal E. unfold transfer_total, attempt_total. rewrite E.
  split; intros x; by rewrite (sum_where_replace _ _ _ _ _ _ Hal).
Qed.

(** What an honor did to the totals and to the intent. *)
Lemma honored_effect command amount outcome actor t db db' :
  balanced db -> chain_transfer_intent_claims db !! sc_transfer_id command = None ->
  honored command amount outcome actor t db db' ->
  (forall t', transfer_total db' t' = transfer_total db t' + if t' =? sc_transfer_id command then amount else 0)
  /\ (forall a', attempt_total db' a' = attempt_total db a' + if a' =? sc_attempt_id command then amount else 0)
  /\ (exists intent, payment_intents db' !! sc_payment_intent_id command = Some intent
        /\ ir_status intent = if covers outcome then "paid" else "partially_paid")
  /\ paid_events (sc_payment_intent_id command) db' =
       (paid_events (sc_payment_intent_id command) db + if covers outcome then 1 else 0)%nat.
Proof.
  intros Hb Hc (db1 & al & Hcr & Hal & Hn).
  pose proof (noted_same_money _ _ Hn) as (_ & _ & _ & Eal & _ & Ein & _). cbn in Eal, Ein.
  destruct (signed_totals _ _ _ _ _ _ Hal Eal) as [Et Ea]. rewrite Ein.
  assert (paid_events (sc_payment_intent_id command) db' = paid_events (sc_payment_intent_id command) db1) as ->.
  { destruct Hn as (d & e & ->). done. }
  pose proof (balanced_credited _ _ _ _ _ _ _ (credit_state_allocated outcome) Hc Hcr Hb) as Hb1.
  split_and!.
  - intros t'. rewrite Et. apply (credited_total _ _ _ _ _ _ _ _ Hcr).
  - intros a'. rewrite Ea. apply (credited_attempt_total _ _ _ _ _ _ _ _ Hcr).
  - apply credited_tables in Hcr as (? & ? & ? & ? & i & i' & ? & ? & _ & _ & _ & _ & _ & _ & _ & _ & _ & _ & _
      & _ & _ & _ & _ & Hst & _ & _ & _ & _ & _ & Ei & _).
    exists i'. rewrite Ei, lookup_insert_eq. by split.
  - destruct (covers outcome) eqn:Hcov.
    + destruct (credited_paid _ _ _ _ _ _ Hb Hb1 Hcr) as (_ & -> & ->). done.
    + apply credited_tables in Hcr as (? & ? & ? & ? & ? & ? & ? & ? & _ & _ & _ & _ & _ & _ & _ & _ & _ & _ & _
      & _ & _ & _ & _ & _ & _ & _ & _ & _ & _ & _ & _ & Ee). rewrite Ee.
      by rewrite bool_decide_eq_false_2 by (by intros [? _]).
Qed.

Section honor.
Context {R : Type} `{Postgres R} `{U256Lib} `{UuidLib} `{TimeSerde}.
Implicit Types (credential : OperatorCredential) (resolution : ManualResolution).

Lemma pg_resolve_manual_run credential key hash resolution t (s : Session R) r s1 :
  pg_resolve_manual credential key hash resolution t s = (r, s1) ->
  match r with
  | Ok result => resolve_step credential key hash resolution t (committed s) result (committed s1)
  | Err _ => committed s1 = committed s
      \/ exists result, resolve_step credential key hash resolution t (committed s) result (committed s1)
  end.
Proof.
  intros Hrun. pose proof (pg_resolve_manual_transacts credential key hash resolution t _ _ _ s
    eq_refl eq_refl eq_refl) as Ht. by rewrite Hrun in Ht.
Qed.

Lemma pg_approve_honor_run approver proposal_id key reason t (s : Session R) result s1 :
  pg_approve_honor approver proposal_id key reason t s = (Ok result, s1) ->
  approve_step approver proposal_id key reason t (committed s) result (committed s1).
Proof.
  intros Hrun. pose proof (pg_approve_honor_transacts approver proposal_id key reason t _ _ _ s
    eq_refl eq_refl eq_refl) as Ht. by rewrite Hrun in Ht.
Qed.

Lemma honor_step_as_owed credential key hash resolution t db result db' :
  balanced db -> honor_step credential key hash resolution t db result db' ->
  exists a i amount, ma_attempt_id resolution = Some a /\ ma_payment_intent_id resolution = Some i
    /\ ma_allocate_raw resolution = Some amount
    /\ honored_as_owed (ma_transfer_id resolution) a i amount db db'.
Proof.
  intros Hb (plan & a & i & id & row & db1 & Hplan & Ha & Hi & _ & _ & _ & Hh & [trail ->] & _).
  destruct (planned_facts _ _ _ Hplan) as (a' & i' & attempt & intent & transfer & p & Ha' & Hi' & Hf).
  assert (a' = a /\ i' = i) as [-> ->] by (split; congruence).
  destruct Hplan as (_ & _ & allocate & hr & _ & _ & Hal & _ & (_ & Hpa & _)%plan_row_facts).
  apply honored_effect in Hh as (Ht & Hat & Hint & He); [| |].
  - exists a, i, allocate. split_and!; [done..|]. exists plan, attempt, intent, transfer, p.
    rewrite Hpa in Ht, Hat. by split_and!.
  - by apply balanced_resolutions.
  - cbn. eapply parked_unclaimed; [done|by eapply hf_processing|by eapply hf_parked].
Qed.

(** C5: An honor moves exactly what is owed and there.  If an operator's
    honor is carried out, by the operator's own call or by the approval of a
    proposal, the transfer was final and parked, at the collector of an open
    attempt of a payable intent of the same merchant and sent inside the
    attempt's late window, and what moved is the smaller of what the attempt
    still lacked and what the transfer still had, which is the amount asked
    for or proposed; it is added to the totals of that transfer and that
    attempt and to no other, and the intent is paid and announced once if that
    covers what was owed, and partially paid and not announced otherwise.  An
    approval carries out a proposal that was pending, had not run out and came
    from another key. *)
Theorem honor_moves_exactly_what_is_owed credential key t (s : Session R) :
  balanced (committed s) ->
  (forall hash resolution result s1, ma_action resolution = Honor ->
     pg_resolve_manual credential key hash resolution t s = (Ok result, s1) -> mz_replayed result = false ->
     exists a i amount, ma_attempt_id resolution = Some a /\ ma_payment_intent_id resolution = Some i
       /\ ma_allocate_raw resolution = Some amount
       /\ honored_as_owed (ma_transfer_id resolution) a i amount (committed s) (committed s1))
  /\ (forall proposal_id reason result s1,
     pg_approve_honor credential proposal_id key reason t s = (Ok result, s1) -> mz_replayed result = false ->
     exists proposal amount, manual_honor_proposals (committed s) !! proposal_id = Some proposal
       /\ ho_status proposal = "pending" /\ t < ho_expires_at proposal
       /\ ho_proposer_key_id proposal <> oc_key_id credential /\ as_u256 amount = ho_allocate_raw proposal
       /\ honored_as_owed (ho_transfer_id proposal) (ho_attempt_id proposal) (ho_payment_intent_id proposal)
            amount (committed s) (committed s1)).
Proof.
  intros Hb. split.
  - intros hash resolution result s1 Hact Hrun Hnew.
    apply pg_resolve_manual_run in Hrun as [(row & _ & _ & (? & ? & ? & _ & _ & _ & ->) & _)|Hstep]; [done|].
    rewrite bool_decide_eq_true_2 in Hstep by done. by eapply honor_step_as_owed.
  - intros proposal_id reason result s1 Hrun Hnew.
    apply pg_approve_honor_run in Hrun as [(row & _ & (? & ? & ? & _ & _ & _ & ->) & _)
      |(p & amount & db1 & Hp & Hst & Hne & Hexp & Hamt & Hstep & [trail Htr])]; [done|].
    apply honor_step_as_owed in Hstep as (a & i & amount' & [= <-] & [= <-] & [= <-] & Howed); [|done].
    exists p, amount. split_and!; [done..|]. rewrite Htr. exact Howed.
Qed.

(** A decision that was taken is on record. *)
Lemma resolve_step_recorded credential key hash resolution t db result db' :
  resolve_step credential key hash resolution t db result db' ->
  exists row, manual_resolution_requests db' !! (oc_key_id credential, key) = Some row
    /\ re_request_hash row = hash /\ exists replayed, result_of row replayed result.
Proof.
  intros [(row & Hrow & Hh & Hres & ->)|Hstep]; [exists row; eauto|]. case_bool_decide.
  - destruct Hstep as (plan & a & i & id & row & db1 & _ & _ & _ & _ & _ & -> & Hh & [trail ->] & Hres).
    apply honored_same_control in Hh as [E _]. eexists. cbn. rewrite E. cbn. rewrite lookup_insert_eq. eauto.
  - destruct Hstep as (id & m & rem & row & disp & db1 & _ & _ & -> & (p & p' & _ & _ & _ & _ & ->)
      & [trail ->] & Hres). eexists. cbn. rewrite lookup_insert_eq. eauto.
Qed.

Lemma resolve_step_again credential key hash resolution t db result db' row :
  manual_resolution_requests db !! (oc_key_id credential, key) = Some row ->
  resolve_step credential key hash resolution t db result db' ->
  db' = db /\ re_request_hash row = hash /\ result_of row true result.
Proof.
  intros Hrow [(row' & Hrow' & Hh & Hres & ->)|Hstep].
  - rewrite Hrow in Hrow'. by injection Hrow' as <-.
  - case_bool_decide.
    + by destruct Hstep as (? & ? & ? & ? & ? & ? & _ & _ & _ & Hn & _); simplify_eq.
    + by destruct Hstep as (? & ? & ? & ? & ? & ? & Hn & _); simplify_eq.
Qed.

(** The first answer, marked as a replay. *)
Definition as_replay (result : ManualResolutionResult) : ManualResolutionResult := {|
  mz_id := mz_id result; mz_action := mz_action result; mz_transfer_id := mz_transfer_id result;
  mz_payment_intent_id := mz_payment_intent_id result; mz_attempt_id := mz_attempt_id result;
  mz_merchant_id := mz_merchant_id result; mz_allocated_raw := mz_allocated_raw result;
  mz_remainder_raw := mz_remainder_raw result; mz_replayed := true |}.

(** An operator's decision is taken once per idempotency key.  After a
    decision was answered, every further request of the same operator key
    under the same idempotency key, whatever it asks and whenever it comes,
    changes nothing; if it is answered, it is the same request (by its hash)
    and the answer is the first one, marked as a replay. *)
Theorem manual_decision_is_taken_once credential key hash resolution t (s : Session R) result s1 :
  pg_resolve_manual credential key hash resolution t s = (Ok result, s1) ->
  forall label scopes hash' resolution' t' (s2 : Session R) r2 s3,
    committed s2 = committed s1 ->
    pg_resolve_manual (mkOperatorCredential (oc_key_id credential) label scopes) key hash' resolution' t' s2
      = (r2, s3) ->
    committed s3 = committed s1
    /\ forall result', r2 = Ok result' -> hash' = hash /\ result' = as_replay result.
Proof.
  intros Hrun label scopes hash' resolution' t' s2 r2 s3 Hs2 Hrun2.
  apply pg_resolve_manual_run, resolve_step_recorded in Hrun as (row & Hrow & Hh & replayed & Hres).
  rewrite <- Hs2 in *. apply pg_resolve_manual_run in Hrun2.
  destruct r2 as [result'|e].
  - eapply resolve_step_again in Hrun2 as (-> & Hh' & Hres'); [|done]. split; [done|].
    intros ? [= <-]. split; [congruence|].
    destruct Hres as (? & ? & ? & P1 & P2 & P3 & ->), Hres' as (? & ? & ? & Q1 & Q2 & Q3 & ->).
    rewrite P1 in Q1. rewrite P2 in Q2. rewrite P3 in Q3. by simplify_eq.
  - split; [|done]. destruct Hrun2 as [?|[result' Hstep]]; [done|].
    by eapply resolve_step_again in Hstep as (-> & _); [|done].
Qed.
End honor.

(** ** Two operators and one parked transfer *)

Import ReferenceInstances.
#[local] Existing Instance quiet_postgres.

Definition parked_database : Database :=
  on_operator_keys (fun _ => {[10 := mkOperatorKeyRow "alice" [] ["admin"] None None;
                               11 := mkOperatorKeyRow "bob" [] ["admin"] None None]})
    (on_processing (fun _ => {[1 := mkProcessingRow 0 "held" (Some "risk_review") 1 0]}) sample_database).
Definition parked_session : Session Z := mkSession parked_database parked_database 0 1.
Definition alice : OperatorCredential := mkOperatorCredential 10 "alice" [ScopeAdmin].
Definition bob : OperatorCredential := mkOperatorCredential 11 "bob" [ScopeAdmin].
Definition honor_request : ManualResolution :=
  mkManualResolution Honor 1 (Some 1) (Some 1) (Some (mkRawAmount 1000)) None None None "checked by hand".
Definition proposed_session : Session Z :=
  (propose_honor OperationsService_new alice "honor-0000000001" honor_request parked_session).2.
Definition approved_session : Session Z :=
  (approve_honor bob 1 "approve-00000001" "agreed" proposed_session).2.

Lemma parked_balanced : balanced parked_database.
Proof.
  apply (balanced_same (on_processing <[1 := mkProcessingRow 0 "held" (Some "risk_review") 1 0]>
    sample_database)); [|done|].
  - by split_and!.
  - eapply (balanced_processing 1 sample_processing); [reflexivity|done|done|apply sample_balanced].
Qed.

Lemma parked_governed threshold : governed threshold parked_database.
Proof.
  split; [apply parked_balanced|..].
  - intros a t al Hal. change (payment_allocations parked_database) with (∅ : gmap (Z * Z) AllocationRow) in Hal.
    by rewrite lookup_empty in Hal.
  - intros k key row amount Hrow.
    change (manual_resolution_requests parked_database) with (∅ : gmap (Z * string) ResolutionRow) in Hrow.
    by rewrite lookup_empty in Hrow.
Qed.

Lemma proposed_balanced : balanced (committed proposed_session).
Proof.
  eapply gov_balanced, (gateway_step_governed OperationsService_new parked_session); [apply step_propose|].
  apply parked_governed.
Qed.

(** One key alone is refused; with a second one the money moves, and the
    theorem finds the two keys behind it. *)
Lemma manual_money_takes_two_keys_witness :
  (resolve_manual OperationsService_new alice "honor-0000000001" honor_request parked_session).1
    = Err DualControlRequired
  /\ exists al k key row, payment_allocations (committed approved_session) !! (1, 1) = Some al
       /\ ar_allocated_raw al = 1000
       /\ manual_resolution_requests (committed approved_session) !! (k, key) = Some row
       /\ approved (committed approved_session) k row.
Proof.
  split; [vm_compute; reflexivity|].
  destruct (payment_allocations (committed approved_session) !! (1, 1)) as [al|] eqn:Hal;
    [|vm_compute in Hal; discriminate Hal].
  assert (ar_allocated_raw al = 1000 /\ ar_reason al = "manual") as [Hamt Hman].
  { vm_compute in Hal. injection Hal as <-. by split. }
  destruct (manual_money_takes_two_keys OperationsService_new parked_session approved_session
    (parked_governed _)) as [_ Hall].
  { eapply rtc_l; [apply step_propose|]. eapply rtc_l; [apply step_approve|]. apply rtc_refl. }
  destruct (Hall 1 1 al Hal Hman) as (k & key & row & Hrow & _ & Happ).
  exists al, k, key, row. split_and!; [done..|]. apply Happ. rewrite Hamt. vm_compute. intros [=].
Defined.

(** Honored at once where no second key is asked for, and by approval. *)
Lemma honor_moves_exactly_what_is_owed_witness :
  (exists result s1,
    pg_resolve_manual alice "honor-0000000001" [] honor_request 100 parked_session = (Ok result, s1)
    /\ transfer_total (committed s1) 1 = 1000 /\ paid_events 1 (committed s1) = 1%nat)
  /\ exists result s1,
    pg_approve_honor bob 1 "approve-00000001" "agreed" 100 proposed_session = (Ok result, s1)
    /\ transfer_total (committed s1) 1 = 1000 /\ paid_events 1 (committed s1) = 1%nat.
Proof.
  split.
  - destruct (pg_resolve_manual alice "honor-0000000001" [] honor_request 100 parked_session)
      as [[result|e] s1] eqn:Hrun; [|vm_compute in Hrun; discriminate Hrun].
    assert (mz_replayed result = false) as Hnew by (vm_compute in Hrun; injection Hrun as <- _; reflexivity).
    destruct (proj1 (honor_moves_exactly_what_is_owed alice "honor-0000000001" 100 parked_session parked_balanced)
      [] honor_request result s1 eq_refl Hrun Hnew) as (a & i & amount & [= <-] & [= <-] & [= <-] & Howed).
    destruct Howed as (plan & attempt & intent & transfer & p & Hpa & Hf & Ht & _ & _ & He).
    exists result, s1. split; [done|]. split; [rewrite (Ht 1); vm_compute; reflexivity|]. rewrite He.
    assert (covers (pl_outcome_name plan) = true) as ->; [|vm_compute; reflexivity].
    apply (hf_covers _ _ _ _ _ _ _ _ _ Hf). rewrite Hpa.
    pose proof (hf_attempt _ _ _ _ _ _ _ _ _ Hf) as Hat. vm_compute in Hat. injection Hat as <-. reflexivity.
  - destruct (pg_approve_honor bob 1 "approve-00000001" "agreed" 100 proposed_session)
      as [[result|e] s1] eqn:Hrun; [|vm_compute in Hrun; discriminate Hrun].
    assert (mz_replayed result = false) as Hnew by (vm_compute in Hrun; injection Hrun as <- _; reflexivity).
    destruct (proj2 (honor_moves_exactly_what_is_owed bob "approve-00000001" 100 proposed_session proposed_balanced)
      1 "agreed" result s1 Hrun Hnew) as (proposal & amount & Hp & _ & _ & _ & Hamt & Howed).
    assert (ho_transfer_id proposal = 1 /\ ho_attempt_id proposal = 1 /\ ho_payment_intent_id proposal = 1
      /\ ho_allocate_raw proposal = 1000) as (E1 & E2 & E3 & E4)
      by (vm_compute in Hp; injection Hp as <-; by split_and!).
    rewrite E1, E2, E3 in Howed. rewrite E4 in Hamt.
    destruct Howed as (plan & attempt & intent & transfer & p & Hpa & Hf & Ht & _ & _ & He).
    exists result, s1. split; [done|]. split; [rewrite (Ht 1), Hamt; vm_compute; reflexivity|]. rewrite He.
    assert (covers (pl_outcome_name plan) = true) as ->; [|vm_compute; reflexivity].
    apply (hf_covers _ _ _ _ _ _ _ _ _ Hf). rewrite Hpa, Hamt.
    pose proof (hf_attempt _ _ _ _ _ _ _ _ _ Hf) as Hat. vm_compute in Hat. injection Hat as <-. reflexivity.
Defined.

(** The same key again, for another request: nothing happens. *)
Lemma manual_decision_is_taken_once_witness :
  exists result s1, pg_resolve_manual alice "honor-0000000001" [] honor_request 100 parked_session
      = (Ok result, s1)
    /\ committed (pg_resolve_manual alice "honor-0000000001" [x01] honor_request 200 s1).2 = committed s1
    /\ (pg_resolve_manual alice "honor-0000000001" [] honor_request 200 s1).1 = Ok (as_replay result).
Proof.
  destruct (pg_resolve_manual alice "honor-0000000001" [] honor_request 100 parked_session)
    as [[result|e] s1] eqn:Hrun; [|vm_compute in Hrun; discriminate Hrun].
  exists result, s1. split; [done|].
  pose proof (manual_decision_is_taken_once alice "honor-0000000001" [] honor_request 100 parked_session
    result s1 Hrun "alice" [ScopeAdmin]) as Honce. split.
  - destruct (pg_resolve_manual alice "honor-0000000001" [x01] honor_request 200 s1) as [r2 s3] eqn:H2.
    by destruct (Honce [x01] honor_request 200 s1 r2 s3 eq_refl H2).
  - destruct (pg_resolve_manual alice "honor-0000000001" [] honor_request 200 s1) as [r2 s3] eqn:H2.
    destruct (Honce [] honor_request 200 s1 r2 s3 eq_refl H2) as [_ Hr].
    destruct r2 as [result'|e]; [by destruct (Hr result' eq_refl) as [_ ->]|].
    exfalso. vm_compute in Hrun. injection Hrun as _ <-. vm_compute in H2. discriminate H2.
Defined.
