(* ===== verification/DecisionBooks.v ===== *)
(** * Decisions and fulfilments

    The settlement decision on record for an intent and a transfer, and the
    fulfilment of the intent, are written by different statements of the same
    transactions.  This file follows both tables through the money calls of
    the settlement pass and of the operators, and shows that they agree. *)

From Stdlib Require Import Ascii String Strings.Byte.
From stdpp Require Import gmap.
From S2P Require Import Prelude RustStd Externals Effects Money Chain Observations Settlement SettlementService.
From S2P Require Import Database StorageSettlement SettlementBooks Operations StorageOperations OperationsBooks.

Local Open Scope Z_scope.

(** ** What a transaction writes *)

(** Decisions, fulfilments and allocations as they are. *)
Definition same_notes (db db' : Database) : Prop :=
  payment_settlement_decisions db' = payment_settlement_decisions db
  /\ payment_fulfillments db' = payment_fulfillments db
  /\ payment_allocations db' = payment_allocations db.

Lemma same_notes_trans db1 db2 db3 : same_notes db1 db2 -> same_notes db2 db3 -> same_notes db1 db3.
Proof. intros (A1 & A2 & A3) (B1 & B2 & B3). split_and!; congruence. Qed.

(** The fulfilment of an intent: the one there is, or a new claim. *)
Definition claimed (i : Z) (db db' : Database) : Prop :=
  (is_Some (payment_fulfillments db !! i) /\ payment_fulfillments db' = payment_fulfillments db)
  \/ exists row, payment_fulfillments db !! i = None /\ fr_status row = "claimed"
       /\ payment_fulfillments db' = <[i := row]> (payment_fulfillments db).

(** A decision on record.  One that covers the obligation comes with the
    fulfilment and with an allocation of the transfer. *)
Definition wrote (command : SettlementCommand) (outcome : string) (db db' : Database) : Prop :=
  (exists row, dr_outcome row = outcome /\ payment_settlement_decisions db' =
     <[(sc_payment_intent_id command, sc_transfer_id command) := row]> (payment_settlement_decisions db))
  /\ dom (payment_allocations db) ⊆ dom (payment_allocations db')
  /\ (if covers outcome
      then claimed (sc_payment_intent_id command) db db'
           /\ is_Some (payment_allocations db' !! (sc_attempt_id command, sc_transfer_id command))
      else payment_fulfillments db' = payment_fulfillments db).

(** The decision a record stands for. *)
Definition record_outcome (record : SettlementRecord) : option string :=
  match record with
  | RecSettled => Some "settled"
  | RecOverpaid => Some "overpaid"
  | RecPartiallyAllocated => Some "partial"
  | RecHeld => Some "held"
  | RecManualRequired => Some "manual_required"
  | RecForeignClaim => Some "rejected"
  | RecAlreadyProcessed => None
  end.
Definition decide_step (command : SettlementCommand) (db : Database) (record : SettlementRecord)
    (db' : Database) : Prop :=
  match record_outcome record with
  | None => same_notes db db'
  | Some outcome => wrote command outcome db db'
  end.

Lemma wrote_before command outcome db1 db2 db3 :
  same_notes db1 db2 -> wrote command outcome db2 db3 -> wrote command outcome db1 db3.
Proof. intros (E1 & E2 & E3) W. unfold wrote, claimed in *. by rewrite <- E1, <- E2, <- E3. Qed.
Lemma wrote_after command outcome db1 db2 db3 :
  wrote command outcome db1 db2 -> same_notes db2 db3 -> wrote command outcome db1 db3.
Proof. intros W (E1 & E2 & E3). unfold wrote, claimed in *. by rewrite E1, E2, E3. Qed.

Section specs.
Context {R : Type} `{Postgres R} `{U256Lib} `{UuidLib} `{TimeSerde}.

(** A statement that leaves the three tables alone. *)
Ltac other_table Hst :=
  repeat (apply res_bind_Ok in Hst as (? & _ & Hst)); by simplify_eq.

Lemma payment_event_notes m i a t type reason payload now0 db now :
  within db now (insert_payment_event (R := R) m i a t type reason payload now0) (fun _ => same_notes db).
Proof. apply within_bind_uuid. intros id. apply within_exec. intros [] db' Hst. other_table Hst. Qed.
Lemma outbox_notes m channel type aggregate id payload now0 db now :
  within db now (enqueue_outbox (R := R) m channel type aggregate id payload now0) (fun _ => same_notes db).
Proof. apply within_bind_uuid. intros u. apply within_exec. intros [] db' Hst. other_table Hst. Qed.
Lemma update_processing_notes t where_ set_ n db db' :
  update_processing t where_ set_ db = Ok (n, db') -> same_notes db db'.
Proof. unfold update_processing. intros ([rows table] & _ & Hst)%res_bind_Ok. by simplify_eq. Qed.

Lemma record_decision_notes command outcome reason allocated remainder t db now :
  within db now (record_decision (R := R) command outcome reason allocated remainder t)
    (fun _ db' => exists row, dr_outcome row = outcome /\ db' =
       on_decisions <[(sc_payment_intent_id command, sc_transfer_id command) := row]> db).
Proof.
  apply within_bind_uuid. intros id. apply within_exec. intros [] db' (u & _ & Hst)%res_bind_Ok.
  destruct (payment_settlement_decisions db !! _) as [stored|].
  - simplify_eq. eexists. split; [|done]. done.
  - repeat (apply res_bind_Ok in Hst as (? & _ & Hst)). simplify_eq. eexists. split; [|done]. done.
Qed.

Lemma finish_without_money_notes command state outcome reason t db now :
  covers outcome = false ->
  within db now (finish_without_money (R := R) command state outcome reason t)
    (fun _ db' => wrote command outcome db db').
Proof.
  intros Hc. apply within_bind_exec. intros n db1 Hup%update_processing_notes.
  eapply within_bind; [apply record_decision_notes|]. intros [] db2 (row & Ho & ->).
  eapply within_weaken; [apply payment_event_notes|]. intros [] db3 Hn.
  eapply wrote_before; [done|]. eapply wrote_after; [|done]. split_and!; [by exists row|done|].
  by rewrite Hc.
Qed.

Lemma claim_transfer_notes command t db now :
  within db now (claim_transfer (R := R) command t) (fun owned db' =>
    if (owned : bool) then same_notes db db' else wrote command "rejected" db db').
Proof.
  apply (within_bind_run_at binding_refused (fun _ => insert_claim _ _)). intros n db1 Hst.
  assert (same_notes db db1) as N1.
  { unfold insert_claim in Hst. destruct (payment_attempts db !! _); [|by simplify_eq].
    destruct (is_row _ _); [by simplify_eq|]. other_table Hst. }
  apply within_bind_exec. intros owner db2 Hf. destruct (cr_payment_intent_id <$> _); simplify_eq/=.
  destruct (owner =? _); [by apply within_ret|].
  apply within_bind_exec. intros m db3 Hup%update_processing_notes.
  eapply within_bind; [apply record_decision_notes|]. intros [] db4 (row & Ho & ->). apply within_ret.
  eapply wrote_before; [done|]. eapply wrote_before; [done|]. split_and!; [by exists row|done|done].
Qed.

Lemma update_attempt_notes command set_ n db db' :
  update_attempt command set_ db = Ok (n, db') -> same_notes db db'.
Proof. unfold update_attempt. intros ([rows table] & _ & Hst)%res_bind_Ok. by simplify_eq. Qed.
Lemma update_intent_notes command status t n db db' :
  update_intent command status t db = Ok (n, db') -> same_notes db db'.
Proof. unfold update_intent. intros ([rows table] & _ & Hst)%res_bind_Ok. by simplify_eq. Qed.

Lemma advance_to_paid_notes command t db now :
  within db now (advance_to_paid (R := R) command t) (fun _ db' =>
    payment_settlement_decisions db' = payment_settlement_decisions db
    /\ payment_allocations db' = payment_allocations db /\ claimed (sc_payment_intent_id command) db db').
Proof.
  apply within_bind_exec. intros n1 db1 (D1 & F1 & A1)%update_attempt_notes.
  apply within_bind_lift. intros _ _. apply within_bind_exec. intros n2 db2 (D2 & F2 & A2)%update_intent_notes.
  apply within_bind_lift. intros _ _. apply within_bind_exec. intros n3 db3 Hcl.
  assert (payment_settlement_decisions db3 = payment_settlement_decisions db
    /\ payment_allocations db3 = payment_allocations db /\ claimed (sc_payment_intent_id command) db db3) as N.
  { unfold claimed. rewrite <- F1, <- F2, <- D1, <- D2, <- A1, <- A2. unfold claim_fulfillment in Hcl.
    destruct (is_row _ _) eqn:Hrow.
    - apply is_row_true in Hrow. simplify_eq. split_and!; [done..|by left].
    - apply is_row_false in Hrow. repeat (apply res_bind_Ok in Hcl as (? & _ & Hcl)). simplify_eq.
      split_and!; [done..|]. right. eexists. split_and!; [done| |reflexivity]. done. }
  eapply within_bind; [apply payment_event_notes|]. intros [] db4 (D4 & F4 & A4).
  assert (payment_settlement_decisions db4 = payment_settlement_decisions db
    /\ payment_allocations db4 = payment_allocations db /\ claimed (sc_payment_intent_id command) db db4) as N4.
  { unfold claimed. by rewrite D4, F4, A4. }
  destruct (n3 =? 1); [|by apply within_ret].
  eapply within_weaken; [apply outbox_notes|]. intros [] db5 (D5 & F5 & A5). unfold claimed. by rewrite D5, F5, A5.
Qed.

Lemma advance_to_partially_paid_notes command t db now :
  within db now (advance_to_partially_paid (R := R) command t) (fun _ => same_notes db).
Proof.
  apply within_bind_exec. intros n1 db1 N1%update_attempt_notes.
  apply within_bind_lift. intros _ _. apply within_bind_exec. intros n2 db2 N2%update_intent_notes.
  apply within_bind_lift. intros _ _. eapply within_bind; [apply payment_event_notes|]. intros [] db3 N3.
  eapply within_weaken; [apply outbox_notes|]. intros [] db4 N4.
  by repeat (eapply same_notes_trans; [done|]).
Qed.

Definition MONEY_OUTCOMES : list string := ["settled"; "partial"; "overpaid"].

Lemma allocate_and_finish_notes command allocate remainder outcome t db now :
  outcome ∈ MONEY_OUTCOMES ->
  within db now (allocate_and_finish (R := R) command allocate remainder outcome t) (decide_step command db).
Proof.
  intros Hout. eapply within_bind; [apply claim_transfer_notes|]. intros [|] db1 N1; [|by apply within_ret].
  cbn [negb]. apply within_bind_exec. intros [total|] db2 Hadd; [|by apply within_lift].
  assert (same_notes db db2) as N2.
  { eapply same_notes_trans; [done|]. unfold add_allocated in Hadd.
    destruct (chain_transfer_processing db1 !! sc_transfer_id command) as [p|],
      (chain_transfers db1 !! sc_transfer_id command) as [tr|]; [|by simplify_eq..].
    destruct (pr_allocated_raw p + _ <=? _); [|by simplify_eq]. other_table Hadd. }
  clear N1 Hadd. apply within_bind_uuid. intros id.
  apply (within_bind_run_at binding_refused (fun _ => insert_allocation _ _ _ _ _)). intros n db3 Hins.
  apply insert_allocation_spec in Hins as [(-> & -> & _)|
    (attempt & transfer & allocation & -> & _ & _ & _ & _ & _ & _ & _ & _ & _ & ->)].
  { apply within_ret. exact N2. }
  cbn [Z.eqb]. set (key := (sc_attempt_id command, sc_transfer_id command)).
  set (db3 := on_allocations <[key := allocation]> db2).
  eapply (within_bind _ _ _ _ (fun record db4 => record_outcome record = Some outcome
    /\ payment_settlement_decisions db4 = payment_settlement_decisions db3
    /\ payment_allocations db4 = payment_allocations db3
    /\ if covers outcome then claimed (sc_payment_intent_id command) db3 db4
       else payment_fulfillments db4 = payment_fulfillments db3)).
  { assert (outcome = "settled" \/ outcome = "partial" \/ outcome = "overpaid") as [-> | [-> | ->]]
      by (unfold MONEY_OUTCOMES in Hout; set_solver); cbn.
    - eapply within_bind; [apply advance_to_paid_notes|]. intros [] db4 (D & A & C). by apply within_ret.
    - eapply within_bind; [apply advance_to_partially_paid_notes|]. intros [] db4 (D & F & A). by apply within_ret.
    - eapply within_bind; [apply advance_to_paid_notes|]. intros [] db4 (D & A & C). by apply within_ret. }
  intros record db4 (Hrec & D4 & A4 & F4).
  eapply within_bind; [apply record_decision_notes|]. intros [] db5 (row & Ho & ->).
  eapply (within_bind _ _ _ _ (fun _ => same_notes _)).
  { destruct (RawAmount_is_zero remainder); [by apply within_ret|].
    eapply within_bind; [apply payment_event_notes|]. intros [] db6 N6.
    eapply within_weaken; [apply outbox_notes|]. intros [] db7 N7. by eapply same_notes_trans. }
  intros [] db6 N6. apply within_ret. unfold decide_step. rewrite Hrec.
  eapply wrote_before; [done|]. eapply wrote_after; [|done].
  split_and!.
  - exists row. split; [done|]. cbn. by rewrite D4.
  - cbn. rewrite A4. cbn. set_solver.
  - destruct (covers outcome); cbn; [|by rewrite F4]. split; [exact F4|]. rewrite A4. cbn.
    rewrite lookup_insert_eq. by eexists.
Qed.
End specs.

(** ** Decisions and fulfilments agree *)

(** Nothing was decided, or one decision was written on a transfer that
    nobody had claimed. *)
Definition decided (db db' : Database) : Prop :=
  same_notes db db'
  \/ exists command outcome p, chain_transfer_processing db !! sc_transfer_id command = Some p
       /\ pr_processing_state p ∈ UNALLOCATED_STATES /\ wrote command outcome db db'.

Record agreed (db : Database) : Prop := {
  (** a decision that covers an obligation has its fulfilment and its money *)
  agr_covered i t row : payment_settlement_decisions db !! (i, t) = Some row -> covers (dr_outcome row) = true ->
    (exists fulfilment, payment_fulfillments db !! i = Some fulfilment /\ fr_status fulfilment <> "failed")
    /\ exists a, is_Some (payment_allocations db !! (a, t));
  (** and a fulfilment has such a decision *)
  agr_fulfilled i : is_Some (payment_fulfillments db !! i) ->
    exists t row, payment_settlement_decisions db !! (i, t) = Some row /\ covers (dr_outcome row) = true;
}.

Lemma agreed_same db db' : same_notes db db' -> agreed db -> agreed db'.
Proof. intros (E1 & E2 & E3) [A1 A2]. split; rewrite E1, E2, ?E3; done. Qed.

(** What was decided on an unclaimed transfer covered nothing. *)
Lemma unclaimed_uncovered db i t p row :
  balanced db -> agreed db -> chain_transfer_processing db !! t = Some p ->
  pr_processing_state p ∈ UNALLOCATED_STATES ->
  payment_settlement_decisions db !! (i, t) = Some row -> covers (dr_outcome row) = false.
Proof.
  intros B A Hp Hst Hrow. apply not_true_iff_false. intros Hc.
  destruct (agr_covered _ A _ _ _ Hrow Hc) as [_ [a [al Hal]]].
  destruct (bal_allocation _ B _ _ _ Hal) as (_ & (claim & Hcl & _) & _).
  by rewrite (bal_unallocated _ B _ _ Hp Hst) in Hcl.
Qed.

Lemma fulfilled_unfailed db i fulfilment :
  agreed db -> payment_fulfillments db !! i = Some fulfilment -> fr_status fulfilment <> "failed".
Proof.
  intros A Hf. destruct (agr_fulfilled _ A i) as (t & row & Hrow & Hc); [by eexists|].
  destruct (agr_covered _ A _ _ _ Hrow Hc) as [(f & Hf' & ?) _]. congruence.
Qed.

Lemma claimed_fulfillments i db db' :
  agreed db -> claimed i db db' ->
  payment_fulfillments db ⊆ payment_fulfillments db'
  /\ (exists fulfilment, payment_fulfillments db' !! i = Some fulfilment /\ fr_status fulfilment <> "failed")
  /\ forall j, is_Some (payment_fulfillments db' !! j) -> j = i \/ is_Some (payment_fulfillments db !! j).
Proof.
  intros A [[[f Hf] E]|(f & Hnone & Hst & E)]; rewrite E.
  - split_and!; [done| |by right]. exists f. split; [done|]. by eapply fulfilled_unfailed.
  - split_and!; [by apply insert_subseteq| |].
    + exists f. rewrite lookup_insert_eq, Hst. done.
    + intros j [x Hx]. apply lookup_insert_Some in Hx as [[<- _]|[_ Hx]]; [by left|right; by eexists].
Qed.

Lemma agreed_decided db db' : balanced db -> agreed db -> decided db db' -> agreed db'.
Proof.
  intros B A [Hs|(command & outcome & p & Hp & Hst & (row & Ho & Ed) & Hdom & Hcov)]; [by eapply agreed_same|].
  set (key := (sc_payment_intent_id command, sc_transfer_id command)) in *.
  assert (payment_fulfillments db ⊆ payment_fulfillments db'
    /\ (covers outcome = true -> exists f, payment_fulfillments db' !! sc_payment_intent_id command = Some f
          /\ fr_status f <> "failed")
    /\ (forall j, is_Some (payment_fulfillments db' !! j) ->
          (covers outcome = true /\ j = sc_payment_intent_id command) \/ is_Some (payment_fulfillments db !! j)))
    as (Hsub & Hnew & Hold).
  { destruct (covers outcome); [|rewrite Hcov; split_and!; [done|done|by right]].
    destruct (claimed_fulfillments _ _ _ A (proj1 Hcov)) as (? & ? & Hj). split_and!; [done|done|].
    intros j [?|?]%Hj; [by left|by right]. }
  assert (forall a t, is_Some (payment_allocations db !! (a, t)) -> is_Some (payment_allocations db' !! (a, t))) as Hal.
  { intros a t Ha. apply elem_of_dom, Hdom. by apply elem_of_dom. }
  split.
  - intros i t row' Hrow Hc. rewrite Ed in Hrow. apply lookup_insert_Some in Hrow as [[[= <- <-] <-]|[_ Hrow]].
    + rewrite Ho in Hc. split; [by apply Hnew|]. rewrite Hc in Hcov. exists (sc_attempt_id command). apply Hcov.
    + destruct (agr_covered _ A _ _ _ Hrow Hc) as [(f & Hf & ?) [a Ha]]. split.
      * exists f. split; [|done]. by eapply lookup_weaken.
      * exists a. by apply Hal.
  - intros i Hi. rewrite Ed. destruct (Hold i Hi) as [[Hc ->]|Hi'].
    + exists (sc_transfer_id command), row. rewrite lookup_insert_eq, Ho. done.
    + destruct (agr_fulfilled _ A i Hi') as (t & row' & Hrow & Hc). exists t, row'.
      rewrite lookup_insert_ne; [done|]. intros [= <- <-].
      pose proof (unclaimed_uncovered _ _ _ _ _ B A Hp Hst Hrow). congruence.
Qed.

(** ** The money calls keep the agreement *)

Section calls.
Context {R : Type} `{Postgres R} `{U256Lib} `{UuidLib} `{TimeSerde}.
Implicit Types (credential : OperatorCredential) (resolution : ManualResolution).

Lemma apply_outcome_notes command t db now :
  within db now (apply_outcome (R := R) command t) (decide_step command db).
Proof.
  unfold apply_outcome. destruct (sc_outcome command).
  4: { eapply within_bind; [by apply finish_without_money_notes|]. intros [] db1 W. by apply within_ret. }
  4: { eapply within_bind; [by apply finish_without_money_notes|]. intros [] db1 W. by apply within_ret. }
  all: apply allocate_and_finish_notes; unfold MONEY_OUTCOMES; set_solver.
Qed.

(** What [settle] writes about its decision; what it wrote, it wrote on a
    pending transfer. *)
Definition settle_decision (command : SettlementCommand) (db : Database) (record : SettlementRecord)
    (db' : Database) : Prop :=
  decide_step command db record db'
  /\ (record_outcome record <> None -> pending (sc_transfer_id command) db).

Lemma park_refused_decides lease command refusal db0 db now :
  ends db0 db now (park_refused (R := R) lease command refusal) (settle_decision command db0).
Proof.
  apply ends_begin. intros now'. eapply ends_bind; [apply hold_lease_spec|]. intros [] db1 [-> _].
  apply ends_bind_exec. intros st db1 [= <- <-]. apply ends_bind_lift. intros state Hstate%ok_or_Ok.
  case_bool_decide as Hp; cbn [negb].
  - apply ends_bind_now. intros t. eapply ends_bind; [by apply finish_without_money_notes|].
    intros [] db2 W. apply ends_commit. split; [done|]. intros _. unfold pending.
    destruct (chain_transfer_processing db0 !! _) as [row|]; [|done]. exists row. split; [done|].
    injection Hstate as <-. done.
  - apply ends_commit. by split.
Qed.

Lemma pg_settle_decides lease command :
  transacts (settle_decision command) (pg_settle (R := R) lease command).
Proof.
  intros db0 db now. apply ends_begin. intros now'. eapply ends_bind; [apply hold_lease_spec|].
  intros [] db1 [-> _]. apply ends_bind_exec. intros st db1 [= <- <-].
  apply ends_bind_lift. intros state Hstate%ok_or_Ok.
  destruct (chain_transfer_processing db0 !! sc_transfer_id command) as [row|] eqn:Hrow; [|done].
  destruct (chain_transfers db0 !! sc_transfer_id command) as [transfer|]; [|done]. injection Hstate as <-.
  case_bool_decide as Hp; cbn [negb]; [|by apply ends_commit].
  apply ends_bind_now. intros t. eapply ends_bind; [apply within_attempt, apply_outcome_notes|].
  intros [record|e] db2 Hout.
  - apply ends_commit. split; [by apply Hout|]. intros _. by exists row.
  - destruct e; try apply ends_lift_Err. apply ends_rollback, park_refused_decides.
Qed.

Lemma settle_decision_decided command db record db' : settle_decision command db record db' -> decided db db'.
Proof.
  unfold settle_decision, decide_step. destruct (record_outcome record) as [outcome|]; intros [W Hp]; [|by left].
  destruct Hp as (row & Hrow & Hst); [done|]. right. exists command, outcome, row. split_and!; [done| |done].
  rewrite Hst. unfold UNALLOCATED_STATES. set_solver.
Qed.

Lemma pg_record_unresolved_decides lease transfer unresolved :
  transacts (fun db _ db' => decided db db') (pg_record_unresolved (R := R) lease transfer unresolved).
Proof.
  intros db0 db now. apply ends_begin. intros now'. eapply ends_bind; [apply hold_lease_spec|].
  intros [] db1 [-> _]. apply ends_bind_now. intros t. apply ends_bind_exec. intros n db1 N1%update_processing_notes.
  destruct (unresolved_event transfer unresolved) as [type payload].
  eapply ends_bind; [apply payment_event_notes|]. intros [] db2 N2.
  eapply ends_bind; [apply outbox_notes|]. intros [] db3 N3. apply ends_commit_unit. left.
  by repeat (eapply same_notes_trans; [done|]).
Qed.

(** Signing changes neither what was decided nor which allocations there are. *)
Lemma sign_allocation_notes command actor n db db' :
  sign_allocation command actor db = Ok (n, db') ->
  payment_settlement_decisions db' = payment_settlement_decisions db
  /\ payment_fulfillments db' = payment_fulfillments db
  /\ dom (payment_allocations db') = dom (payment_allocations db).
Proof.
  unfold sign_allocation. intros ([rows table] & Hu & Hst)%res_bind_Ok. simplify_eq. split_and!; [done..|]. cbn.
  apply update_row_Ok in Hu as [(_ & -> & _)|(al & al' & Hal & _ & _ & _ & ->)]; [done|].
  apply elem_of_dom_2 in Hal. set_solver.
Qed.
Lemma sign_decision_notes command actor reason n db db' row m :
  payment_settlement_decisions db = <[(sc_payment_intent_id command, sc_transfer_id command) := row]> m ->
  sign_decision command actor reason db = Ok (n, db') ->
  payment_fulfillments db' = payment_fulfillments db /\ payment_allocations db' = payment_allocations db
  /\ exists row', dr_outcome row' = dr_outcome row
     /\ payment_settlement_decisions db' = <[(sc_payment_intent_id command, sc_transfer_id command) := row']> m.
Proof.
  intros Em. unfold sign_decision. intros ([rows table] & Hu & Hst)%res_bind_Ok. simplify_eq.
  split_and!; [done..|]. cbn. rewrite Em in Hu.
  apply update_row_Ok in Hu as [(_ & -> & _)|(d & d' & Hd & _ & [= <-] & _ & ->)]; [by exists row|].
  rewrite lookup_insert_eq in Hd. injection Hd as <-. eexists. split; [|by rewrite insert_insert_eq]. done.
Qed.

Lemma manual_allocate_and_finish_notes command allocate remainder outcome actor reason t db now :
  outcome ∈ MONEY_OUTCOMES ->
  within db now (manual_allocate_and_finish (R := R) command allocate remainder outcome actor reason t)
    (decide_step command db).
Proof.
  intros Hout. eapply within_bind; [by apply allocate_and_finish_notes|]. intros record db1 W.
  assert (forall o, record_outcome record = Some o ->
    within db1 now (_ ← exec (R := R) (sign_allocation command actor);
      _ ← exec (sign_decision command actor reason); mret record) (decide_step command db)) as Hsign.
  { intros o Ho. unfold decide_step in *. rewrite Ho in *. destruct W as ((row & Hoc & Ed) & Hdom & Hcov).
    apply within_bind_exec. intros n db2 (D2 & F2 & A2)%sign_allocation_notes.
    apply within_bind_exec. intros m db3 Hd. rewrite Ed in D2.
    apply (sign_decision_notes _ _ _ _ _ _ _ _ D2) in Hd as (F3 & A3 & row' & Hoc' & E3). apply within_ret.
    rewrite Ho. unfold wrote, claimed. rewrite F3, F2, A3, A2. split_and!; [|done|].
    - exists row'. by rewrite Hoc'.
    - destruct (covers o); [|done]. destruct Hcov as [? Hal]. split; [done|].
      apply elem_of_dom. rewrite A2. by apply elem_of_dom. }
  destruct record; try (by apply within_ret); by eapply Hsign.
Qed.

(** An honor decides on a parked transfer. *)
Lemma plan_row_outcome row allocate plan : plan_row row allocate = Ok plan -> pl_outcome_name plan ∈ MONEY_OUTCOMES.
Proof.
  unfold plan_row. intros Hp. repeat (apply res_bind_Ok in Hp as (? & _ & Hp)).
  unfold MONEY_OUTCOMES. destruct (_ && _); [|destruct (_ =? _)]; simplify_eq; cbn; set_solver.
Qed.

Lemma honor_transfer_decides credential key hash resolution t db now :
  within db now (honor_transfer (R := R) credential key hash resolution t) (fun _ db' => decided db db').
Proof.
  apply within_bind_lift. intros intent_id _. apply within_bind_lift. intros attempt_id _.
  eapply within_bind; [apply plan_honor_spec|]. intros plan db' [-> Hplan].
  destruct (planned_processing _ _ _ Hplan) as (p & Hp & Hst).
  pose proof Hplan as (i' & a' & allocate & row & _ & _ & _ & _ & Hrow%plan_row_outcome).
  eapply within_bind; [apply insert_resolution_spec|].
  intros [result|] db1; [intros [-> _]; apply within_ret; by left|]. intros (_ & id & _ & ->).
  eapply within_bind; [apply within_map_err, manual_allocate_and_finish_notes, Hrow|]. intros record db2 W.
  set (command := honor_command resolution attempt_id intent_id plan) in *.
  assert (forall o, record_outcome record = Some o -> within db2 now
    (_ ← record_admin_audit (R := R) credential resolution intent_id t;
     load_resolution (oc_key_id credential) key hash false) (fun _ db' => decided db db')) as Hend.
  { intros o Ho. unfold decide_step in W. rewrite Ho in W.
    eapply within_bind; [apply record_admin_audit_spec|]. intros [] db3 [trail ->].
    eapply within_weaken; [apply load_resolution_spec|]. intros result db4 [-> _]. right.
    exists command, o, p. split_and!; [exact Hp|unfold UNALLOCATED_STATES; set_solver|exact W]. }
  destruct record; try (by apply within_lift); by eapply Hend.
Qed.

Lemma reject_transfer_decides credential key hash resolution t db now :
  within db now (reject_transfer (R := R) credential key hash resolution t) (fun _ db' => decided db db').
Proof.
  apply within_bind_fetch. intros [finality state] _. apply within_bind_lift. intros _ _.
  apply within_bind_op. intros has db' [= <- <-]. apply within_bind_lift. intros _ _.
  eapply within_bind; [apply insert_resolution_spec|].
  intros [result|] db1; [intros [-> _]; apply within_ret; by left|]. intros (_ & id & _ & ->).
  apply within_bind_op. intros n db2 N%update_processing_notes.
  eapply within_bind; [apply record_admin_audit_spec|]. intros [] db3 [trail ->].
  eapply within_weaken; [apply load_resolution_spec|]. intros result db4 [-> _]. left. exact N.
Qed.

Lemma record_external_disposition_decides credential key hash resolution t db now :
  within db now (record_external_disposition (R := R) credential key hash resolution t)
    (fun _ db' => decided db db').
Proof.
  apply within_bind_lift. intros intent_id _. apply within_bind_lift. intros remainder _.
  apply within_bind_lift. intros disposition _. apply within_bind_fetch. intros [merchant stored] _.
  apply within_bind_lift. intros amount _. apply within_bind_lift. intros _ _.
  eapply within_bind; [apply insert_resolution_spec|].
  intros [result|] db1; [intros [-> _]; apply within_ret; by left|]. intros (_ & id & _ & ->).
  match goal with |- within ?d _ _ _ => eapply (within_bind _ _ _ _ (fun _ db' => db' = d)) end.
  { apply within_map_err, within_exec. intros rid db'.
    destruct (re_id <$> _); [|done]. intros [= <- <-]. reflexivity. }
  intros rid db' ->. apply within_bind_uuid. intros did.
  apply (within_bind_run_at conflict_or_storage (fun _ => disposition_statement _ _ _ _ _ _ _ _ _)).
  intros u db2 (table & ->)%disposition_statement_Ok. apply within_bind_op. intros n db3 N%update_processing_notes.
  apply within_bind_lift. intros _ _. eapply within_bind; [apply record_admin_audit_spec|]. intros [] db4 [trail ->].
  eapply within_weaken; [apply load_resolution_spec|]. intros result db5 [-> _]. left. exact N.
Qed.

Lemma pg_resolve_manual_decides credential key hash resolution t :
  transacts (fun db _ db' => decided db db') (pg_resolve_manual (R := R) credential key hash resolution t).
Proof.
  intros db0 db now. apply ends_begin. intros now'. apply ends_bind_op. intros [] db1 [= <-].
  apply ends_bind_op. intros ex db1 [= <- <-]. destruct (is_row _ _).
  - eapply ends_bind; [apply load_resolution_spec|]. intros result db1 [-> _]. apply ends_commit. by left.
  - eapply (ends_bind _ _ _ _ _ (fun _ db' => decided db0 db')); [|intros result db' Hd; by apply ends_commit].
    destruct (ma_action resolution).
    + apply honor_transfer_decides.
    + apply reject_transfer_decides.
    + apply record_external_disposition_decides.
Qed.

Lemma pg_approve_honor_decides approver proposal_id key reason t :
  transacts (fun db _ db' => decided db db') (pg_approve_honor (R := R) approver proposal_id key reason t).
Proof.
  intros db0 db now. apply ends_begin. intros now'. apply ends_bind_op. intros [] db1 [= <-].
  apply ends_bind_op. intros spent db1 [= <- <-].
  eapply (ends_bind _ _ _ _ _ (fun _ db' => db' = db0)).
  { apply within_bind_op. intros row db1 [= <- <-]. by apply within_lift. }
  intros p db1 ->. apply ends_bind_lift. intros hash _.
  destruct (re_id <$> _) as [resolution_id|].
  { apply ends_bind_lift. intros _ _. eapply ends_bind; [apply load_resolution_spec|].
    intros result db1 [-> _]. apply ends_commit. by left. }
  apply ends_bind_lift. intros _ _. apply ends_bind_lift. intros status _.
  apply ends_bind_lift. intros _ _. apply ends_bind_lift. intros _ _. apply ends_bind_lift. intros allocate _.
  eapply ends_bind; [apply honor_transfer_decides|]. intros result db1 Hd.
  apply ends_bind_op. intros u db2 Hup.
  eapply ends_bind; [apply audit_spec|]. intros [] db3 [trail ->]. apply ends_commit.
  apply update_proposal_Ok in Hup as [(_ & -> & _)|(p' & _ & _ & _ & ->)]; exact Hd.
Qed.
End calls.

(** ** Any calls *)

(** Two accounts of the same call: what both keep, the call keeps. *)
Lemma transacts_holds_both {R} `{Postgres R} {E A} (T1 T2 : Database -> A -> Database -> Prop)
    (I : Database -> Prop) (m : eff (Session R) E A) :
  transacts T1 m -> transacts T2 m ->
  (forall db a1 a2 db', I db -> T1 db a1 db' -> T2 db a2 db' -> I db') ->
  holds (fun s => I (committed s)) m (fun _ => True).
Proof.
  intros H1 H2 HI s Hs. specialize (H1 _ _ _ s eq_refl eq_refl eq_refl).
  specialize (H2 _ _ _ s eq_refl eq_refl eq_refl).
  destruct (m s) as [[a|e] s1]; cbn in *; (split; [|done]); [by eapply HI|].
  destruct H1 as [->|[a1 Ha1]]; [done|]. destruct H2 as [->|[a2 Ha2]]; [done|]. by eapply HI.
Qed.

Section any_calls.
Context {R : Type} `{Postgres R} `{U256Lib} `{HashLib} `{UuidLib} `{TimeLib} `{TimeSerde}.
Context (self : OperationsService).

Let threshold : Z := as_u256 (dual_control_min_raw (os_honor_policy self)).

Definition accounted (db : Database) : Prop := governed threshold db /\ agreed db.

Lemma accounted_decided db db' : governed threshold db' -> decided db db' -> accounted db -> accounted db'.
Proof. intros G Hd [G0 A]. split; [done|]. eapply agreed_decided; [apply G0|done..]. Qed.

Lemma gateway_step_accounted (s s' : Session R) :
  gateway_step self s s' -> accounted (committed s) -> accounted (committed s').
Proof.
  apply gateway_step_holds.
  - intros db db' Ha [G A]. split; [by eapply governed_aside|].
    destruct Ha as ((_ & _ & _ & Eal & _ & _ & Ef) & _ & _ & _ & Ed). by eapply agreed_same, A.
  - intros lease command. eapply transacts_holds_both; [apply pg_settle_transacts|apply pg_settle_decides|].
    intros db r1 r2 db' A Hs Hd%settle_decision_decided.
    eapply accounted_decided; [by eapply governed_settle, A|done..].
  - intros lease transfer unresolved.
    eapply transacts_holds_both; [apply pg_record_unresolved_transacts|apply pg_record_unresolved_decides|].
    intros db [] [] db' A Hs Hd. cbv beta in Hs, Hd.
    eapply accounted_decided; [by eapply governed_unresolved, A|done..].
  - intros credential key hash resolution t Hsmall.
    eapply transacts_holds_both; [apply pg_resolve_manual_transacts|apply pg_resolve_manual_decides|].
    intros db r1 r2 db' A Hs Hd. cbv beta in Hd.
    eapply accounted_decided; [eapply governed_resolve; [|done|apply A]|done..].
    intros Hact allocate Hal. by apply Hsmall.
  - intros db db' Hp [G A]. split; [by eapply governed_proposal|].
    destruct Hp as [->|(table & _ & [trail ->])]; [done|]. by eapply agreed_same, A.
  - intros approver proposal_id key reason t.
    eapply transacts_holds_both; [apply pg_approve_honor_transacts|apply pg_approve_honor_decides|].
    intros db r1 r2 db' A Hs Hd. cbv beta in Hd.
    eapply accounted_decided; [by eapply governed_approve, A|done..].
Qed.

Lemma gateway_steps_accounted (s s' : Session R) :
  rtc (gateway_step self) s s' -> accounted (committed s) -> accounted (committed s').
Proof. induction 1 as [|s1 s2 s3 Hstep _ IH]; [done|]. intros A. by apply IH, (gateway_step_accounted s1). Qed.
End any_calls.
