(* ===== verification/StorageObservations.v ===== *)
(** * Evidence intake in PostgreSQL

    [gateway-storage/src/observations.rs]: component leases with their fence
    tokens, the sources and the watched collectors, and the transaction that
    appends observations and moves a lane's cursor.

    The row-level security of the cursors (migration 0011) is part of the
    upsert; no role of the gateway is a superuser. *)

From Stdlib Require Import Ascii String Strings.Byte.
From stdpp Require Import gmap.
From S2P Require Import Prelude RustStd Externals Effects Money Chain Observations.
From S2P Require Import Settlement SettlementService Database StorageSettlement Operations.

Local Open Scope Z_scope.

(** [text::NUMERIC <= text::NUMERIC]: [None] when one is not a number.  Plain
    digits are read in base ten. *)
Class NumericText := {
  numeric_le : string -> string -> option bool;
  numeric_le_digits a b : a <> "" -> b <> "" -> all_digits a = true -> all_digits b = true ->
    numeric_le a b = Some (digits_value 0 a <=? digits_value 0 b);
}.

Definition ObservationError_to_string (e : ObservationError) : string :=
  match e with
  | UnknownSourceKind s => String.append "unknown source kind: " s
  | UnknownSourceState s => String.append "unknown source state: " s
  | UnknownCollectorState s => String.append "unknown collector state: " s
  | InvalidCursorValue => "a cursor value must be a short chain position"
  | InvalidFenceToken => "a fence token must be positive"
  | ObsInvalidAmount => "an amount must be a positive base-10 integer"
  | ObsInvalidTxHash => "a transaction hash must be a short alphanumeric identifier"
  | ObsRepository e => RepositoryError_to_string e
  end.
Definition corrupt_observation {A} (r : result ObservationError A) : result RepositoryError A :=
  map_err (fun error => corrupt (ObservationError_to_string error)) r.

(** ** Rows *)

Definition ChainSource_try_from (entry : Z * SourceRow) : result RepositoryError ChainSource :=
  let '(id, row) := entry in
  environment ← corrupt_chain (ChainEnvironment_from_str (so_chain_environment row));
  kind ← corrupt_observation (SourceKind_parse (so_kind row));
  state ← corrupt_observation (SourceState_parse (so_state row));
  Ok {| cs_id := id; cs_chain := so_chain row; cs_network := so_network row;
        cs_chain_environment := environment; cs_source_key := so_source_key row;
        cs_provider_group := so_provider_group row; cs_kind := kind;
        cs_db_principal := so_db_principal row; cs_state := state |}.

Record CollectorWatchRow := mkCollectorWatchRow {
  wr_collector_address_id : Z;
  wr_address_key : list byte;
  wr_address_text : string;
  wr_asset_id : Z;
  wr_token_key : list byte;
  wr_decimals : Z;                   (* i16 *)
  wr_token_display : string;
  wr_chain : string;
  wr_network : string;
  wr_chain_environment : string;
  wr_state : string;
}.
Definition CollectorWatch_try_from (row : CollectorWatchRow) : result RepositoryError CollectorWatch :=
  address_key ← corrupt_chain (AddressKey_new (wr_address_key row));
  token_key ← corrupt_chain (AddressKey_new (wr_token_key row));
  environment ← corrupt_chain (ChainEnvironment_from_str (wr_chain_environment row));
  state ← corrupt_observation (CollectorState_parse (wr_state row));
  Ok {| cw_collector_address_id := wr_collector_address_id row; cw_address_key := address_key;
        cw_address_text := wr_address_text row; cw_asset_id := wr_asset_id row; cw_token_key := token_key;
        cw_decimals := wr_decimals row; cw_token_display := wr_token_display row; cw_chain := wr_chain row;
        cw_network := wr_network row; cw_chain_environment := environment; cw_state := state |}.

Definition CursorPosition_try_from (row : CursorRow) : result RepositoryError CursorPosition :=
  kind ← (if bool_decide (cu_cursor_kind row = "block") then Ok CursorBlock
          else if bool_decide (cu_cursor_kind row = "logical_time") then Ok LogicalTime
          else if bool_decide (cu_cursor_kind row = "event_position") then Ok EventPosition
          else Err (corrupt (String.append "unknown cursor kind: " (cu_cursor_kind row))));
  corrupt_observation (CursorPosition_new kind (cu_cursor_value row) (cu_last_block_hash row) (cu_fence_token row)).

(** ** Statements *)

(** The named checks of a row. *)
Fixpoint check_all (checks : list (string * bool)) : result SqlError unit :=
  match checks with
  | [] => Ok tt
  | (name, holds) :: checks => _ ← check_constraint name holds; check_all checks
  end.

(** [INSERT INTO component_leases .. ON CONFLICT DO UPDATE .. RETURNING] *)
Definition upsert_lease (component holder : string) (lease_until now : Z)
    : statement (option ComponentLease) := fun db =>
  let write token :=
    (Some {| cl_component := component; cl_holder := holder; cl_fence_token := token; cl_lease_until := lease_until |},
     on_component_leases <[component := mkLeaseRow holder token lease_until now]> db) in
  _ ← check_all [("component_leases_component_check", in_range 1 120 (char_length component));
                 ("component_leases_holder_check", in_range 1 200 (char_length holder))];
  match component_leases db !! component with
  | None => Ok (write 1)
  | Some row =>
      if bool_decide (lr_holder row = holder) then Ok (write (lr_fence_token row))
      else if lr_lease_until row <? now then
        token ← bigint_next (lr_fence_token row); Ok (write token)
      else Ok (None, db)
  end.

Definition source_rows (source_key : string) (db : Database) : list (Z * SourceRow) :=
  take 2 (sort_by (fun a b => so_created_at (snd a) ?= so_created_at (snd b))
    (filter (fun entry => so_source_key (snd entry) = source_key) (map_to_list (chain_sources db)))).

(** A collector with its asset. *)
Definition watch_row (chain network environment : string) (db : Database) (entry : Z * CollectorRow)
    : option (Z * CollectorWatchRow) :=
  let '(id, collector) := entry in
  asset ← chain_assets db !! co_asset_id collector;
  if bool_decide (at_chain asset = chain) && bool_decide (at_network asset = network)
     && bool_decide (at_chain_environment asset = environment) && bool_decide (at_status asset = "active")
     && bool_decide (co_state collector ∈ ["active"; "receiving_only"])
  then Some (co_valid_from collector, {|
         wr_collector_address_id := id; wr_address_key := co_address_key collector;
         wr_address_text := co_address_text collector; wr_asset_id := co_asset_id collector;
         wr_token_key := at_contract_address_key asset; wr_decimals := at_decimals asset;
         wr_token_display := at_display_symbol asset; wr_chain := at_chain asset;
         wr_network := at_network asset; wr_chain_environment := at_chain_environment asset;
         wr_state := co_state collector |})
  else None.
(** [ORDER BY valid_from, id] *)
Definition by_valid_from (a b : Z * CollectorWatchRow) : comparison :=
  match fst a ?= fst b with
  | Eq => wr_collector_address_id (snd a) ?= wr_collector_address_id (snd b)
  | c => c
  end.
Definition watch_rows (chain network environment : string) (db : Database) : list CollectorWatchRow :=
  snd <$> sort_by by_valid_from
    (omap (watch_row chain network environment db) (map_to_list (collector_addresses db))).

Definition event_key (transfer : ObservedTransfer) : EventKey :=
  (ot_chain transfer, ot_network transfer, ChainEnvironment_as_str (ot_chain_environment transfer),
   TxHash_as_str (ot_tx_hash transfer), ot_event_index transfer).
(** [source_principal] takes the column's default, the role of the session. *)
Definition observation_row (principal : string) (source : ChainSource) (observation : ResolvedObservation)
    : ObservationRow :=
  let transfer := ro_transfer observation in {|
  ob_source_id := cs_id source; ob_source_principal := principal; ob_asset_id := ro_asset_id observation;
  ob_collector_address_id := Some (ro_collector_address_id observation); ob_event := event_key transfer;
  ob_observation_kind := ObservationKind_as_str (ro_kind observation);
  ob_block_number := ot_block_number transfer; ob_block_hash := ot_block_hash transfer;
  ob_parent_hash := ot_parent_hash transfer; ob_block_time := ot_block_time transfer;
  ob_token_key := AddressKey_as_bytes (ot_token_key transfer); ob_token_display := ot_token_display transfer;
  ob_from_address_key := AddressKey_as_bytes (ot_from_address transfer);
  ob_from_address_text := ot_from_address_text transfer;
  ob_to_address_key := AddressKey_as_bytes (ot_to_address transfer);
  ob_to_address_text := ot_to_address_text transfer; ob_amount_raw := as_u256 (ot_amount_raw transfer);
  ob_decimals := ot_decimals transfer; ob_memo := Memo_as_str <$> ot_memo transfer;
  ob_execution_status := ExecutionStatus_as_str (ot_execution_status transfer);
  ob_source_finality := SourceFinality_as_str (ot_source_finality transfer);
  ob_source_head := ot_source_head transfer; ob_evidence_sha256 := ot_evidence_sha256 transfer;
  ob_evidence_uri := ot_evidence_uri transfer; ob_observer_version := ro_observer_version observation;
  ob_parser_version := ro_parser_version observation; ob_fence_token := ro_fence_token observation;
  ob_semantic_hash := ro_semantic_hash observation; ob_observed_at := ro_observed_at observation |}.

Definition optional (p : Z -> bool) (value : option Z) : bool :=
  match value with Some value => p value | None => true end.
Definition is_lower_hex (c : ascii) : bool := is_ascii_digit c || in_range 97 102 (ascii_Z c).
(** The checks of [chain_observations]; the columns bound to the texts of an
    enumeration hold them by themselves. *)
Definition observation_checks (row : ObservationRow) : list (string * bool) :=
  let '(_, _, _, tx_hash, event_index) := ob_event row in
  [("chain_observations_amount_raw_check", 0 <? ob_amount_raw row);
   ("chain_observations_block_number_check", optional (Z.leb 0) (ob_block_number row));
   ("chain_observations_decimals_check", in_range 0 77 (ob_decimals row));
   ("chain_observations_event_index_check", 0 <=? event_index);
   ("chain_observations_evidence_sha256_check",
      (char_length (ob_evidence_sha256 row) =? 64) && str_forallb is_lower_hex (ob_evidence_sha256 row));
   ("chain_observations_fence_token_check", 0 <? ob_fence_token row);
   ("chain_observations_from_address_key_check", negb (bool_decide (ob_from_address_key row = [])));
   ("chain_observations_memo_check",
      match ob_memo row with Some memo => char_length memo <=? 200 | None => true end);
   ("chain_observations_semantic_hash_check", Nat.eqb (length (ob_semantic_hash row)) 32);
   ("chain_observations_source_head_check", optional (Z.leb 0) (ob_source_head row));
   ("chain_observations_to_address_key_check", negb (bool_decide (ob_to_address_key row = [])));
   ("chain_observations_token_key_check", negb (bool_decide (ob_token_key row = [])));
   ("chain_observations_tx_hash_check", in_range 1 200 (char_length tx_hash))].

(** The key [(source_id, semantic_hash)] is taken. *)
Definition is_claimed (source_id : Z) (semantic_hash : list byte) (db : Database) : bool :=
  bool_decide (map_Exists (fun _ row => ob_source_id row = source_id /\ ob_semantic_hash row = semantic_hash)
    (chain_observations db)).
Definition insert_observation_row (id : Z) (row : ObservationRow) : statement bool := fun db =>
  _ ← check_all (observation_checks row);
  if is_claimed (ob_source_id row) (ob_semantic_hash row) db then Ok (false, db)
  else
    _ ← unique_key "chain_observations_pkey" (is_row (chain_observations db) id);
    _ ← foreign_key "chain_observations_source_id_fkey" (is_row (chain_sources db) (ob_source_id row));
    _ ← foreign_key "chain_observations_asset_id_fkey" (is_row_or_null (chain_assets db) (ob_asset_id row));
    _ ← foreign_key "chain_observations_collector_address_id_fkey"
          (is_row_or_null (collector_addresses db) (ob_collector_address_id row));
    Ok (true, on_observations <[id := row]> db).

(** The policies of migration 0011. *)
Definition speaks_for (principal : string) (source_id : Z) (db : Database) : bool :=
  match chain_sources db !! source_id with
  | Some source => bool_decide (so_db_principal source = principal) || negb (so_requires_dedicated_principal source)
  | None => false
  end.

Section repository.
Context {R : Type} `{Postgres R} `{UuidLib} `{TimeLib} `{NumericText}.

Definition upsert_cursor (principal : string) (source_id : Z) (kind : ObservationKind) (collector : Z)
    (position : CursorPosition) (now : Z) : statement bool := fun db =>
  let key := (source_id, ObservationKind_as_str kind, collector) in
  let row := mkCursorRow (CursorKind_as_str (cp_kind position)) (cp_value position)
               (cp_last_block_hash position) (cp_fence_token position) now in
  _ ← guard_err (negb (speaks_for principal source_id db)) (SqlViolation "42501" "chain_cursors");
  _ ← check_all [("chain_cursors_cursor_value_check", in_range 1 200 (char_length (cp_value position)));
                 ("chain_cursors_fence_token_check", 0 <? cp_fence_token position)];
  match chain_cursors db !! key with
  | None =>
      _ ← foreign_key "chain_cursors_source_id_fkey" (is_row (chain_sources db) source_id);
      _ ← foreign_key "chain_cursors_collector_address_id_fkey" (is_row (collector_addresses db) collector);
      Ok (true, on_cursors <[key := row]> db)
  | Some stored =>
      forward ← (if negb (cu_fence_token stored <=? cp_fence_token position) then Ok false
                 else if negb (CursorKind_is_numeric (cp_kind position)) then Ok true
                 else ok_or (numeric_le (cu_cursor_value stored) (cp_value position)) (SqlViolation "22P02" ""));
      if (forward : bool) then Ok (true, on_cursors <[key := row]> db) else Ok (false, db)
  end.

Definition pg_acquire_component_lease (component holder : string) (ttl_seconds now : Z)
    : storage (R := R) (option ComponentLease) :=
  _ ← lift (guard_err (ttl_seconds <=? 0) (corrupt "a component lease needs a positive duration"));
  lease_until ← lift (ok_or (odt_checked_add now (duration_seconds ttl_seconds))
    (corrupt "component lease duration overflowed"));
  eff_map_err unavailable (run_pool (upsert_lease component holder lease_until now)).

Definition pg_find_source (source_key : string) : storage (R := R) (option ChainSource) :=
  rows ← pool_fetch (source_rows source_key);
  match rows with
  | [] => mret None
  | [row] => source ← lift (ChainSource_try_from row); mret (Some source)
  | _ => lift (Err (corrupt (String.append "source key "
           (String.append source_key " is not unique across chains"))))
  end.

Definition pg_watched_collectors (chain network : string) (environment : ChainEnvironment)
    : storage (R := R) (list CollectorWatch) :=
  rows ← pool_fetch (watch_rows chain network (ChainEnvironment_as_str environment));
  lift (collect CollectorWatch_try_from rows).

Definition pg_find_cursor (source_id : Z) (kind : ObservationKind) (collector_address_id : Z)
    : storage (R := R) (option CursorPosition) :=
  row ← pool_fetch (fun db => chain_cursors db !! (source_id, ObservationKind_as_str kind, collector_address_id));
  match row with
  | None => mret None
  | Some row => position ← lift (CursorPosition_try_from row); mret (Some position)
  end.

Definition insert_observation (source : ChainSource) (observation : ResolvedObservation) : storage (R := R) bool :=
  id ← new_uuid;
  exec (insert_observation_row id (observation_row session_user source observation)).

Definition advance_cursor (source_id : Z) (kind : ObservationKind) (collector_address_id : Z)
    (position : CursorPosition) : storage (R := R) bool :=
  advanced ← eff_map_err unavailable (run_at (fun now =>
    upsert_cursor session_user source_id kind collector_address_id position now));
  if (advanced : bool) then mret true
  else
    holder_token ← exec (select (fun db => cu_fence_token
      <$> chain_cursors db !! (source_id, ObservationKind_as_str kind, collector_address_id)));
    match holder_token with
    | Some token => if cp_fence_token position <? token then lift (Err LeaseLost) else mret false
    | None => mret false
    end.

Definition record_one (source : ChainSource) (counts : Z * Z) (observation : ResolvedObservation)
    : storage (R := R) (Z * Z) :=
  inserted ← insert_observation source observation;
  let '(recorded, duplicates) := counts in
  mret (if inserted : bool then (u32_saturating_add recorded 1, duplicates)
        else (recorded, u32_saturating_add duplicates 1)).

Definition pg_record_observations (source : ChainSource) (lease : ComponentLease)
    (observations : list ResolvedObservation) (cursor : option (Z * ObservationKind * CursorPosition))
    : storage (R := R) IntakeReport :=
  _ ← eff_map_err unavailable begin_transaction;
  _ ← hold_lease lease;
  '(recorded, duplicates) ← for_each (record_one source) observations (0, 0);
  cursor_advanced ← (match cursor with
    | Some (collector_address_id, kind, position) =>
        advance_cursor (cs_id source) kind collector_address_id position
    | None => mret false
    end);
  _ ← eff_map_err unavailable commit;
  mret {| ir_recorded := recorded; ir_duplicates := duplicates; ir_refused := 0;
          ir_cursor_advanced := cursor_advanced |}.

(** [impl ObservationRepository for PostgresRepository] *)
#[export] Instance postgres_observations : ObservationRepository (Session R) := {|
  find_source := pg_find_source; watched_collectors := pg_watched_collectors;
  find_cursor := pg_find_cursor; record_observations := pg_record_observations |}.
End repository.
