(* ===== verification/StorageVerification.v ===== *)
(** * Verdicts in PostgreSQL

    [gateway-storage/src/verification.rs]: the events that await a verdict,
    the evidence stored for one, and the transaction that commits a verdict:
    the canonical transfer with its attestations and its first state, the
    compare-and-swap walk of the state, the disagreements, and the record of
    the decision. *)

From Stdlib Require Import Ascii String Strings.Byte.
From stdpp Require Import gmap.
From S2P Require Import Prelude RustStd Externals Effects Money Chain Observations Verification VerificationService.
From S2P Require Import Settlement SettlementService Database StorageSettlement Operations StorageObservations.

Local Open Scope Z_scope.

Definition CANONICALIZATION_POLICY : string := "independent-groups-and-own-reread".

(** ** Rows *)

Definition FinalityPolicy_try_from (entry : Z * FinalityPolicyRow) : result RepositoryError FinalityPolicy :=
  let '(id, row) := entry in
  required ← corrupt_chain (SourceFinality_from_str (fi_required_source_finality row));
  groups ← ok_or (u32_try_from (fi_min_independent_groups row))
             (corrupt "a finality policy carries a negative group count");
  Ok {| fp_id := id; fp_version := fi_version row; fp_min_confirmations := fi_min_confirmations row;
        fp_required_source_finality := required; fp_min_independent_groups := groups;
        fp_max_evidence_age_seconds := fi_max_evidence_age_seconds row; fp_observed_at := fi_observed_at row |}.

Definition ChainEventKey_try_from (key : EventKey) : result RepositoryError ChainEventKey :=
  let '(chain, network, chain_environment, tx_hash, event_index) := key in
  environment ← corrupt_chain (ChainEnvironment_from_str chain_environment);
  tx_hash ← corrupt_chain (TxHash_new tx_hash);
  Ok {| ck_chain := chain; ck_network := network; ck_chain_environment := environment;
        ck_tx_hash := tx_hash; ck_event_index := event_index |}.
(** The columns an event is bound to. *)
Definition stored_key (event : ChainEventKey) : EventKey :=
  (ck_chain event, ck_network event, ChainEnvironment_as_str (ck_chain_environment event),
   TxHash_as_str (ck_tx_hash event), ck_event_index event).

Section rows.
Context `{U256Lib}.

(** [EvidenceReading::try_from]; the amount is read as text. *)
Definition EvidenceReading_try_from (entry : Z * ObservationRow * SourceRow)
    : result RepositoryError EvidenceReading :=
  let '(id, row, source) := entry in
  let '(chain, network, chain_environment, tx_hash, event_index) := ob_event row in
  environment ← corrupt_chain (ChainEnvironment_from_str chain_environment);
  tx_hash ← corrupt_chain (TxHash_new tx_hash);
  token_key ← corrupt_chain (AddressKey_new (ob_token_key row));
  from_address ← corrupt_chain (AddressKey_new (ob_from_address_key row));
  to_address ← corrupt_chain (AddressKey_new (ob_to_address_key row));
  amount_raw ← corrupt_money (RawAmount_from_str (numeric_text (ob_amount_raw row)));
  memo ← corrupt_chain (match ob_memo row with
           | Some memo => memo ← Memo_new memo; Ok (Some memo)
           | None => Ok None
           end);
  execution_status ← corrupt_chain (ExecutionStatus_from_str (ob_execution_status row));
  source_finality ← corrupt_chain (SourceFinality_from_str (ob_source_finality row));
  kind ← corrupt_chain (ObservationKind_from_str (ob_observation_kind row));
  Ok {| er_observation_id := id; er_source_id := ob_source_id row;
        er_provider_group := so_provider_group source; er_source_kind := so_kind source;
        er_source_principal := ob_source_principal row; er_declared_principal := so_db_principal source;
        er_kind := kind; er_asset_id := ob_asset_id row;
        er_collector_address_id := ob_collector_address_id row;
        er_transfer := {|
          ot_chain := chain; ot_network := network; ot_chain_environment := environment;
          ot_tx_hash := tx_hash; ot_event_index := event_index; ot_block_number := ob_block_number row;
          ot_block_hash := ob_block_hash row; ot_parent_hash := ob_parent_hash row;
          ot_block_time := ob_block_time row; ot_token_key := token_key;
          ot_token_display := ob_token_display row; ot_from_address := from_address;
          ot_from_address_text := ob_from_address_text row; ot_to_address := to_address;
          ot_to_address_text := ob_to_address_text row; ot_amount_raw := amount_raw;
          ot_decimals := ob_decimals row; ot_memo := memo; ot_execution_status := execution_status;
          ot_source_finality := source_finality; ot_source_head := ob_source_head row;
          ot_evidence_sha256 := ob_evidence_sha256 row; ot_evidence_uri := ob_evidence_uri row |};
        er_observed_at := ob_observed_at row |}.
End rows.

(** ** Queries *)

Definition active_finality_policy (chain network environment : string) (db : Database)
    : option (Z * FinalityPolicyRow) :=
  head (filter (fun entry => fi_chain (snd entry) = chain /\ fi_network (snd entry) = network
                 /\ fi_chain_environment (snd entry) = environment /\ fi_status (snd entry) = "active")
          (map_to_list (chain_finality_policies db))).

Definition min_Z (l : list Z) : option Z := min_by_key (fun z => z) l.
(** The times at which an event was observed. *)
Definition observation_times (key : EventKey) (db : Database) : list Z :=
  (fun entry => ob_observed_at (snd entry))
    <$> filter (fun entry => ob_event (snd entry) = key) (map_to_list (chain_observations db)).
(** The rows of [fresh] and [shallow]: since when an event waits. *)
Definition fresh_since (key : EventKey) (db : Database) : option Z :=
  let times := observation_times key db in
  since ← min_Z times;
  newest ← max_Z times;
  match chain_event_verdicts db !! key with
  | None => Some since
  | Some verdict =>
      if bool_decide (vd_verdict verdict ∈ ["insufficient"; "verified"]) && (vd_decided_at verdict <? newest)
      then Some since else None
  end.
Definition shallow_since (key : EventKey) (before : Z) (db : Database) : option Z :=
  verdict ← chain_event_verdicts db !! key;
  transfer_id ← vd_transfer_id verdict;
  state ← chain_transfer_state_current db !! transfer_id;
  if bool_decide (vd_verdict verdict = "verified") && bool_decide (st_state state ∈ ["canonical"; "confirmed"])
     && (vd_decided_at verdict <? before)
  then Some (vd_decided_at verdict) else None.
(** [GROUP BY .. min(waiting_since)] over their union. *)
Definition waiting_since (key : EventKey) (before : Z) (db : Database) : option Z :=
  match fresh_since key db, shallow_since key before db with
  | Some a, Some b => Some (Z.min a b)
  | Some a, None => Some a
  | None, since => since
  end.
(** Events with the same [waiting_since] come in any order; no theorem
    depends on the one below. *)
Definition awaiting_rows (limit before : Z) (db : Database) : list EventKey :=
  let keys := remove_dups (((fun entry => ob_event (snd entry)) <$> map_to_list (chain_observations db))
                ++ (fst <$> map_to_list (chain_event_verdicts db))) in
  fst <$> take (Z.to_nat limit) (sort_by (fun a b => snd a ?= snd b)
    (omap (fun key => (fun since => (key, since)) <$> waiting_since key before db) keys)).

(** [ORDER BY observed_at, id] *)
Definition by_observed (a b : Z * ObservationRow * SourceRow) : comparison :=
  let '(ida, rowa, _) := a in let '(idb, rowb, _) := b in
  match ob_observed_at rowa ?= ob_observed_at rowb with Eq => ida ?= idb | c => c end.
Definition evidence_rows (key : EventKey) (db : Database) : list (Z * ObservationRow * SourceRow) :=
  sort_by by_observed (omap (fun '(id, row) =>
    if bool_decide (ob_event row = key)
    then (fun source => (id, row, source)) <$> chain_sources db !! ob_source_id row else None)
    (map_to_list (chain_observations db))).

(** ** Statements *)

Definition canonical_key (transfer : CanonicalTransfer) : EventKey :=
  (ct_chain transfer, ct_network transfer, ChainEnvironment_as_str (ct_chain_environment transfer),
   TxHash_as_str (ct_tx_hash transfer), ct_event_index transfer).
Definition transfer_row (transfer : CanonicalTransfer) (verifier_version : string) (now : Z) : TransferRow := {|
  tr_asset_id := ct_asset_id transfer; tr_collector_address_id := ct_collector_address_id transfer;
  tr_event := canonical_key transfer; tr_block_number := ct_block_number transfer;
  tr_block_hash := ct_block_hash transfer; tr_block_time := ct_block_time transfer;
  tr_token_key := AddressKey_as_bytes (ct_token_key transfer);
  tr_from_address_key := AddressKey_as_bytes (ct_from_address transfer);
  tr_from_address_text := ct_from_address_text transfer;
  tr_to_address_key := AddressKey_as_bytes (ct_to_address transfer);
  tr_to_address_text := ct_to_address_text transfer; tr_amount_raw := as_u256 (ct_amount_raw transfer);
  tr_decimals := ct_decimals transfer; tr_memo := Memo_as_str <$> ct_memo transfer;
  tr_canonicalization_policy := CANONICALIZATION_POLICY; tr_verifier_version := verifier_version;
  tr_canonicalized_at := now |}.

(** [SELECT id FROM chain_transfers WHERE ..] *)
Definition transfer_of (key : EventKey) (db : Database) : option Z :=
  fst <$> find_where (fun row => bool_decide (tr_event row = key)) (chain_transfers db).
Definition insert_transfer (id : Z) (row : TransferRow) : statement (option Z) := fun db =>
  let '(_, _, _, _, event_index) := tr_event row in
  _ ← check_all [("chain_transfers_amount_raw_check", 0 <? tr_amount_raw row);
                 ("chain_transfers_block_number_check", 0 <=? tr_block_number row);
                 ("chain_transfers_decimals_check", in_range 0 77 (tr_decimals row));
                 ("chain_transfers_event_index_check", 0 <=? event_index)];
  match transfer_of (tr_event row) db with
  | Some _ => Ok (None, db)
  | None =>
      _ ← unique_key "chain_transfers_pkey" (is_row (chain_transfers db) id);
      _ ← foreign_key "chain_transfers_asset_id_fkey" (is_row (chain_assets db) (tr_asset_id row));
      _ ← foreign_key "chain_transfers_collector_address_id_fkey"
            (is_row (collector_addresses db) (tr_collector_address_id row));
      Ok (Some id, on_transfers <[id := row]> db)
  end.

Definition insert_state_event_row (transfer_id state_version : Z) (row : StateEventRow) : statement unit := fun db =>
  _ ← check_constraint "chain_transfer_state_events_state_version_check" (0 <? state_version);
  _ ← unique_key "chain_transfer_state_events_pkey"
        (is_some (find_where (fun other => sv_id other =? sv_id row) (chain_transfer_state_events db)));
  _ ← unique_key "chain_transfer_state_events_transfer_id_state_version_key"
        (is_row (chain_transfer_state_events db) (transfer_id, state_version));
  _ ← foreign_key "chain_transfer_state_events_transfer_id_fkey" (is_row (chain_transfers db) transfer_id);
  Ok (tt, on_state_events <[(transfer_id, state_version) := row]> db).

Definition open_current (transfer_id now : Z) : statement unit := fun db =>
  _ ← unique_key "chain_transfer_state_current_pkey" (is_row (chain_transfer_state_current db) transfer_id);
  _ ← foreign_key "chain_transfer_state_current_transfer_id_fkey" (is_row (chain_transfers db) transfer_id);
  Ok (tt, on_state_current <[transfer_id := mkStateRow "canonical" 1 now]> db).
(** The columns that are left out take their defaults. *)
Definition open_processing (transfer_id now : Z) : statement unit := fun db =>
  _ ← unique_key "chain_transfer_processing_pkey" (is_row (chain_transfer_processing db) transfer_id);
  _ ← foreign_key "chain_transfer_processing_transfer_id_fkey" (is_row (chain_transfers db) transfer_id);
  Ok (tt, on_processing <[transfer_id := mkProcessingRow 0 "pending" None 0 now]> db).

(** [INSERT .. SELECT .. ON CONFLICT (observation_id) DO NOTHING] *)
Definition insert_attestation (id transfer_id observation_id : Z) (role verifier_version : string) (now : Z)
    : statement unit := fun db =>
  match chain_observations db !! observation_id with
  | None => Ok (tt, db)
  | Some observation =>
      match chain_sources db !! ob_source_id observation with
      | None => Ok (tt, db)
      | Some source =>
          if is_some (find_where (fun row => an_observation_id row =? observation_id) (chain_transfer_attestations db))
          then Ok (tt, db)
          else
            _ ← unique_key "chain_transfer_attestations_pkey" (is_row (chain_transfer_attestations db) id);
            _ ← foreign_key "chain_transfer_attestations_transfer_id_fkey" (is_row (chain_transfers db) transfer_id);
            Ok (tt, on_attestations <[id := {|
              an_transfer_id := transfer_id; an_observation_id := observation_id;
              an_source_id := ob_source_id observation; an_provider_group := so_provider_group source;
              an_source_kind := so_kind source; an_attestation_role := role;
              an_verifier_version := verifier_version; an_created_at := now |}]> db)
      end
  end.

(** The compare-and-swap: the rows affected. *)
Definition swap_state (transfer_id version : Z) (state next : TransferState) (now : Z) : statement Z := fun db =>
  '(swapped, table) ← update_row transfer_id
    (fun row => (st_state_version row =? version) && bool_decide (st_state row = TransferState_as_str state))
    (fun row => version ← bigint_next (st_state_version row);
                Ok (mkStateRow (TransferState_as_str next) version now))
    (chain_transfer_state_current db);
  Ok (swapped, on_state_current (fun _ => table) db).

Definition next_step (current target : TransferState) : option TransferState :=
  match current, target with
  | Canonical, (Confirmed | Finalized) => Some Confirmed
  | Confirmed, Finalized => Some Finalized
  | _, _ => None
  end.

(** The conflict of a field, as it is or new. *)
Definition upsert_conflict (id : Z) (key : EventKey) (field : string) (now : Z) : statement Z := fun db =>
  let '(_, _, _, _, event_index) := key in
  _ ← check_constraint "chain_observation_conflicts_event_index_check" (0 <=? event_index);
  match chain_observation_conflicts db !! (key, field) with
  | Some conflict => Ok (cf_id conflict, db)
  | None =>
      _ ← unique_key "chain_observation_conflicts_pkey"
            (is_some (find_where (fun other => cf_id other =? id) (chain_observation_conflicts db)));
      Ok (id, on_conflicts <[(key, field) := mkConflictRow id now None]> db)
  end.
Definition upsert_conflict_item (conflict_id observation_id : Z) (value : json) : statement unit := fun db =>
  match chain_observation_conflict_items db !! (conflict_id, observation_id) with
  | Some _ => Ok (tt, on_conflict_items <[(conflict_id, observation_id) := value]> db)
  | None =>
      _ ← foreign_key "chain_observation_conflict_items_conflict_id_fkey"
            (is_some (find_where (fun other => cf_id other =? conflict_id) (chain_observation_conflicts db)));
      _ ← foreign_key "chain_observation_conflict_items_observation_id_fkey"
            (is_row (chain_observations db) observation_id);
      Ok (tt, on_conflict_items <[(conflict_id, observation_id) := value]> db)
  end.
Definition conflict_fields (conflicts : list FieldConflict) : string :=
  String.concat "," (map (fun conflict => ConflictField_as_str (fc_field conflict)) conflicts).

(** The upsert of [record_verdict]; the row as it would be inserted. *)
Definition upsert_verdict (key : EventKey) (row : VerdictRow) : statement unit := fun db =>
  let '(_, _, _, _, event_index) := key in
  let verified_names_transfer row :=
    negb (bool_decide (vd_verdict row = "verified")) || is_some (vd_transfer_id row) in
  _ ← check_all [("chain_event_verdicts_check", verified_names_transfer row);
                 ("chain_event_verdicts_event_index_check", 0 <=? event_index)];
  match chain_event_verdicts db !! key with
  | None =>
      _ ← foreign_key "chain_event_verdicts_transfer_id_fkey"
            (is_row_or_null (chain_transfers db) (vd_transfer_id row));
      Ok (tt, on_verdicts <[key := row]> db)
  | Some stored =>
      attempts ← integer_next (vd_attempts stored);
      let transfer_id := match vd_transfer_id row with Some id => Some id | None => vd_transfer_id stored end in
      _ ← foreign_key "chain_event_verdicts_transfer_id_fkey" (is_row_or_null (chain_transfers db) transfer_id);
      Ok (tt, on_verdicts <[key := {|
        vd_verdict := vd_verdict row; vd_reason := vd_reason row; vd_evidence_count := vd_evidence_count row;
        vd_independent_groups := vd_independent_groups row; vd_discarded_count := vd_discarded_count row;
        vd_transfer_id := transfer_id; vd_verifier_version := vd_verifier_version row;
        vd_attempts := attempts; vd_decided_at := vd_decided_at row |}]> db)
  end.

(** ** The repository *)

Section repository.
Context {R : Type} `{Postgres R} `{U256Lib} `{UuidLib} `{TimeLib}.

Definition pg_find_finality_policy (chain network : string) (environment : ChainEnvironment)
    : storage (R := R) (option FinalityPolicy) :=
  row ← pool_fetch (active_finality_policy chain network (ChainEnvironment_as_str environment));
  match row with
  | None => mret None
  | Some row => policy ← lift (FinalityPolicy_try_from row); mret (Some policy)
  end.

Definition pg_events_awaiting_verdict (limit deepen_decided_before : Z) : storage (R := R) (list ChainEventKey) :=
  rows ← pool_fetch (awaiting_rows limit deepen_decided_before);
  lift (collect ChainEventKey_try_from rows).

Definition pg_evidence_for (event : ChainEventKey) : storage (R := R) (list EvidenceReading) :=
  rows ← pool_fetch (evidence_rows (stored_key event));
  lift (collect EvidenceReading_try_from rows).

Definition insert_state_event (transfer_id : Z) (previous : option TransferState) (new_state : TransferState)
    (state_version : Z) (verified : VerifiedTransfer) (now : Z) : storage (R := R) unit :=
  id ← new_uuid;
  exec (insert_state_event_row transfer_id state_version {|
    sv_id := id; sv_previous_state := TransferState_as_str <$> previous;
    sv_new_state := TransferState_as_str new_state; sv_source_key := "verifier";
    sv_block_hash := Some (ct_block_hash (vt_transfer verified));
    sv_head_height := checked I64_MIN I64_MAX (ct_block_number (vt_transfer verified) + vt_confirmations verified);
    sv_reason := Some (String.append "policy " (vt_policy_version verified)); sv_created_at := now |}).

Definition find_transfer_id (transfer : CanonicalTransfer) : storage (R := R) Z :=
  id ← exec (select (transfer_of (canonical_key transfer)));
  lift (ok_or id (corrupt "a canonical transfer vanished between insert and read")).

Definition open_transfer_lifecycle (transfer_id : Z) (verified : VerifiedTransfer) (now : Z)
    : storage (R := R) unit :=
  _ ← insert_state_event transfer_id None Canonical 1 verified now;
  _ ← exec (open_current transfer_id now);
  exec (open_processing transfer_id now).

(** The loop of [advance_state]: [None] when the fuel ran out. *)
Fixpoint advance_loop (fuel : nat) (transfer_id : Z) (verified : VerifiedTransfer) (now : Z)
    : storage (R := R) (option unit) :=
  match fuel with
  | O => mret None
  | S fuel =>
      current ← exec (select (fun db => chain_transfer_state_current db !! transfer_id));
      current ← lift (ok_or current (corrupt "a canonical transfer has no current state"));
      state ← lift (corrupt_chain (TransferState_from_str (st_state current)));
      match next_step state (vt_state verified) with
      | None => mret (Some tt)
      | Some next =>
          swapped ← exec (swap_state transfer_id (st_state_version current) state next now);
          if negb (swapped =? 1) then mret (Some tt)
          else
            _ ← insert_state_event transfer_id (Some state) next
                  (i64_saturating_add (st_state_version current) 1) verified now;
            advance_loop fuel transfer_id verified now
      end
  end.
(** Two steps lead from canonical to finalized; the third read stops. *)
Definition advance_state (transfer_id : Z) (verified : VerifiedTransfer) (now : Z) : storage (R := R) unit :=
  _ ← advance_loop 3 transfer_id verified now; mret tt.

Definition record_verdict (event : ChainEventKey) (verdict : string) (reason : option string)
    (evidence_count independent_groups discarded_count : Z) (transfer_id : option Z)
    (verifier_version : string) (now : Z) : storage (R := R) unit :=
  let i32 n := default I32_MAX (i32_try_from n) in
  exec (upsert_verdict (stored_key event) {|
    vd_verdict := verdict; vd_reason := reason; vd_evidence_count := i32 evidence_count;
    vd_independent_groups := i32 independent_groups; vd_discarded_count := i32 discarded_count;
    vd_transfer_id := transfer_id; vd_verifier_version := verifier_version; vd_attempts := 1;
    vd_decided_at := now |}).

Definition attest (transfer_id : Z) (verifier_version : string) (now : Z) (_ : unit)
    (attestation : Z * AttestationRole) : storage (R := R) unit :=
  let '(observation_id, role) := attestation in
  id ← new_uuid;
  exec (insert_attestation id transfer_id observation_id (AttestationRole_as_str role) verifier_version now).

Definition commit_verified (event : ChainEventKey) (verified : VerifiedTransfer) (verifier_version : string)
    (now : Z) : storage (R := R) VerdictOutcome :=
  let transfer := vt_transfer verified in
  id ← new_uuid;
  created ← exec (insert_transfer id (transfer_row transfer verifier_version now));
  '(transfer_id, newly_created) ← (match created with
    | Some id => mret (id, true)
    | None => id ← find_transfer_id transfer; mret (id, false)
    end);
  _ ← (if (newly_created : bool) then open_transfer_lifecycle transfer_id verified now else mret tt);
  _ ← for_each (attest transfer_id verifier_version now) (vt_attestations verified) tt;
  _ ← advance_state transfer_id verified now;
  _ ← record_verdict event "verified" (Some (TransferState_as_str (vt_state verified)))
        (len_u32 (vt_attestations verified)) (vt_independent_groups verified) (len_u32 (vt_discarded verified))
        (Some transfer_id) verifier_version now;
  mret (if newly_created : bool then TransferCreated transfer_id else TransferAdvanced transfer_id).

Definition commit_item (conflict_id : Z) (_ : unit) (item : Z * string) : storage (R := R) unit :=
  let '(observation_id, value) := item in
  exec (upsert_conflict_item conflict_id observation_id (JObject [("value", JString value)])).
Definition commit_conflict (event : ChainEventKey) (now : Z) (_ : unit) (conflict : FieldConflict)
    : storage (R := R) unit :=
  id ← new_uuid;
  conflict_id ← exec (upsert_conflict id (stored_key event) (ConflictField_as_str (fc_field conflict)) now);
  for_each (commit_item conflict_id) (fc_items conflict) tt.
Definition commit_conflicts (event : ChainEventKey) (conflicts : list FieldConflict) (now : Z)
    : storage (R := R) unit :=
  for_each (commit_conflict event now) conflicts tt.

Definition pg_commit_verdict (lease : ComponentLease) (event : ChainEventKey) (verdict : Verdict)
    (evidence_count : Z) (verifier_version : string) (now : Z) : storage (R := R) VerdictOutcome :=
  _ ← eff_map_err unavailable begin_transaction;
  _ ← hold_lease lease;
  outcome ← (match verdict with
    | Verified verified => commit_verified event verified verifier_version now
    | Conflicted conflicts discarded =>
        _ ← commit_conflicts event conflicts now;
        _ ← record_verdict event "conflicted" (Some (conflict_fields conflicts)) evidence_count 0
              (len_u32 discarded) None verifier_version now;
        mret ConflictRecorded
    | Insufficient reason discarded =>
        _ ← record_verdict event "insufficient" (Some (InsufficientReason_as_str reason)) evidence_count 0
              (len_u32 discarded) None verifier_version now;
        mret VerdictPending
    | Rejected reason discarded =>
        _ ← record_verdict event "rejected" (Some (RejectionReason_as_str reason)) evidence_count 0
              (len_u32 discarded) None verifier_version now;
        mret VerdictRefused
    end);
  _ ← eff_map_err unavailable commit;
  mret outcome.

(** [impl VerificationRepository for PostgresRepository] *)
#[export] Instance postgres_verification : VerificationRepository (Session R) := {|
  find_finality_policy := pg_find_finality_policy; events_awaiting_verdict := pg_events_awaiting_verdict;
  evidence_for := pg_evidence_for; commit_verdict := pg_commit_verdict |}.
End repository.
