(* ===== verification/EvidenceBooks.v ===== *)
(** * Evidence through any run

    What the calls of the evidence path leave in the database: component
    leases and their fence tokens, the append-only observations and the
    cursors, the states a canonical transfer walks through, and what stands
    behind every canonical transfer. *)

From Stdlib Require Import Ascii String Strings.Byte.
From stdpp Require Import gmap.
From S2P Require Import Prelude RustStd Externals Effects Money Chain Observations Verification VerificationService.
From S2P Require Import Settlement SettlementService Database StorageSettlement SettlementBooks Operations StorageOperations OperationsBooks StorageObservations StorageVerification.

Local Open Scope Z_scope.

(** ** The states of a transfer

    The history of a canonical transfer, entry by entry: the state before and
    the state after. *)
Definition walk_entry (version : Z) : option (option string * string) :=
  match version with
  | 1 => Some (None, "canonical")
  | 2 => Some (Some "canonical", "confirmed")
  | 3 => Some (Some "confirmed", "finalized")
  | _ => None
  end.
Definition history (db : Database) (id version : Z) : option (option string * string) :=
  (fun event => (sv_previous_state event, sv_new_state event)) <$> chain_transfer_state_events db !! (id, version).

(** A transfer has walked to its current state, version by version; what is
    not a transfer has no state. *)
Definition on_course (db : Database) (id : Z) : Prop :=
  match chain_transfers db !! id with
  | None => chain_transfer_state_current db !! id = None /\ chain_transfer_processing db !! id = None
            /\ forall version, history db id version = None
  | Some _ => is_Some (chain_transfer_processing db !! id)
      /\ exists row previous, chain_transfer_state_current db !! id = Some row
           /\ walk_entry (st_state_version row) = Some (previous, st_state row)
           /\ forall version, history db id version
                = if decide (1 <= version <= st_state_version row) then walk_entry version else None
  end.
Definition walked (db : Database) : Prop := forall id, on_course db id.

Lemma walk_entry_range version entry : walk_entry version = Some entry -> 1 <= version <= 3.
Proof. unfold walk_entry. repeat (case_match; try done; subst; try lia). Qed.

(** The step the code takes from an entry of the walk is the next entry. *)
Lemma next_step_walk version previous text state target next :
  walk_entry version = Some (previous, text) -> TransferState_from_str text = Ok state ->
  next_step state target = Some next ->
  version <= 2 /\ TransferState_as_str state = text
  /\ walk_entry (version + 1) = Some (Some text, TransferState_as_str next).
Proof.
  intros Hw Hs Hn. pose proof (walk_entry_range _ _ Hw) as Hr.
  assert (version = 1 \/ version = 2 \/ version = 3) as [-> | [-> | -> ]] by lia; injection Hw as <- <-;
    vm_compute in Hs; injection Hs as <-; destruct target; simplify_eq/=; done.
Qed.

(** One transfer's states changed, and nothing else. *)
Definition restated (id : Z) (db db' : Database) : Prop :=
  exists current events,
    db' = on_state_current (fun _ => current) (on_state_events (fun _ => events) db)
    /\ (forall j, j <> id -> current !! j = chain_transfer_state_current db !! j)
    /\ forall j version, j <> id -> events !! (j, version) = chain_transfer_state_events db !! (j, version).

Lemma restated_refl id db : restated id db db.
Proof. exists (chain_transfer_state_current db), (chain_transfer_state_events db). by destruct db. Qed.
Lemma restated_trans id db1 db2 db3 : restated id db1 db2 -> restated id db2 db3 -> restated id db1 db3.
Proof.
  intros (c2 & e2 & -> & Hc2 & He2) (c3 & e3 & -> & Hc3 & He3). exists c3, e3. split_and!; [done|..].
  - intros j Hj. rewrite Hc3 by done. cbn. by apply Hc2.
  - intros j v Hj. rewrite He3 by done. cbn. by apply He2.
Qed.

Lemma on_course_restated id j db db' : restated id db db' -> j <> id -> on_course db j -> on_course db' j.
Proof.
  intros (c & e & -> & Hc & He) Hj.
  assert (forall v, history (on_state_current (fun _ => c) (on_state_events (fun _ => e) db)) j v = history db j v)
    as Hh by (intros v; unfold history; cbn; by rewrite He).
  unfold on_course. cbn [chain_transfers chain_transfer_state_current chain_transfer_processing
    on_state_current on_state_events]. rewrite (Hc j Hj).
  destruct (chain_transfers db !! j); by setoid_rewrite Hh.
Qed.

(** A transfer moved forward along its walk. *)
Definition forward (id : Z) (db db' : Database) : Prop :=
  restated id db db' /\ on_course db' id
  /\ forall row, chain_transfer_state_current db !! id = Some row ->
     exists row', chain_transfer_state_current db' !! id = Some row' /\ st_state_version row <= st_state_version row'.

Lemma forward_refl id db : on_course db id -> forward id db db.
Proof. intros Ho. split_and!; [apply restated_refl|done|]. intros row Hrow. by exists row. Qed.
Lemma forward_trans id db1 db2 db3 : forward id db1 db2 -> forward id db2 db3 -> forward id db1 db3.
Proof.
  intros (R1 & _ & H1) (R2 & O2 & H2). split_and!; [by eapply restated_trans|done|].
  intros row Hrow. destruct (H1 row Hrow) as (row2 & Hrow2 & ?). destruct (H2 row2 Hrow2) as (row3 & ? & ?).
  exists row3. split; [done|lia].
Qed.

Section specs.
Context {R : Type} `{Postgres R} `{U256Lib} `{UuidLib} `{TimeLib}.

Lemma within_bind_uuid_exec {A} (st : Z -> statement A) db now (Q : A -> Database -> Prop) :
  (forall id a db', st id db = Ok (a, db') -> Q a db') ->
  within db now (id ← new_uuid; exec (R := R) (st id)) Q.
Proof. intros HQ. apply within_bind_uuid. intros id. apply within_exec. intros a db'. apply HQ. Qed.

(** A state event is appended. *)
Lemma insert_state_event_spec id previous next version v t db now :
  within db now (insert_state_event (R := R) id previous next version v t) (fun _ db' =>
    exists event, db' = on_state_events <[(id, version) := event]> db
      /\ (sv_previous_state event, sv_new_state event)
         = (TransferState_as_str <$> previous, TransferState_as_str next)).
Proof.
  apply within_bind_uuid_exec. intros uid [] db' Hst. unfold insert_state_event_row in Hst. inv_res.
  simplify_eq. by eexists.
Qed.

(** The swap of the state that was read. *)
Lemma swap_state_spec id row state next t db n db' :
  chain_transfer_state_current db !! id = Some row -> TransferState_as_str state = st_state row ->
  swap_state id (st_state_version row) state next t db = Ok (n, db') ->
  n = 1 /\ db' = on_state_current <[id := mkStateRow (TransferState_as_str next) (st_state_version row + 1) t]> db.
Proof.
  intros Hrow Hs. unfold swap_state, update_row. rewrite Hrow, Z.eqb_refl, bool_decide_true by done. cbn [andb].
  intros Hup. apply res_bind_Ok in Hup as ([m table] & Hset & [= <- <-]).
  apply res_bind_Ok in Hset as (row' & Hset & [= <- <-]).
  by apply res_bind_Ok in Hset as (version & ->%bigint_next_Ok & [= <-]).
Qed.

(** One step of the walk. *)
Lemma forward_step id row previous next event t db :
  on_course db id -> is_Some (chain_transfers db !! id) -> chain_transfer_state_current db !! id = Some row ->
  walk_entry (st_state_version row + 1) = Some (Some (st_state row), next) ->
  (sv_previous_state event, sv_new_state event) = (Some previous, next) -> previous = st_state row ->
  forward id db (on_state_events <[(id, st_state_version row + 1) := event]>
    (on_state_current <[id := mkStateRow next (st_state_version row + 1) t]> db)).
Proof.
  intros Ho [tr Htr] Hrow Hw He ->. split_and!.
  - exists (<[id := mkStateRow next (st_state_version row + 1) t]> (chain_transfer_state_current db)),
      (<[(id, st_state_version row + 1) := event]> (chain_transfer_state_events db)).
    split_and!; [by destruct db|intros j Hj; by rewrite lookup_insert_ne|].
    intros j v Hj. rewrite lookup_insert_ne; [done|congruence].
  - unfold on_course in *. cbn. rewrite Htr in Ho |- *. destruct Ho as (Hp & row0 & prev0 & Hrow0 & _ & Hh).
    assert (row0 = row) as -> by congruence. split; [done|]. exists (mkStateRow next (st_state_version row + 1) t), (Some (st_state row)).
    rewrite lookup_insert_eq. split_and!; [done..|]. intros v. specialize (Hh v). unfold history in *. cbn.
    destruct (decide (v = st_state_version row + 1)) as [->|Hv].
    + rewrite lookup_insert_eq, decide_True; [|pose proof (walk_entry_range _ _ Hw); lia].
      cbn. by rewrite He, Hw.
    + rewrite lookup_insert_ne by congruence. rewrite Hh.
      by destruct (decide (1 <= v <= st_state_version row)), (decide (1 <= v <= st_state_version row + 1)); try lia.
  - intros row' Hrow'. assert (row' = row) as -> by congruence. cbn. rewrite lookup_insert_eq. eexists. split; [done|]. cbn. lia.
Qed.

(** The walk ends, at the verified state or beyond it. *)
Definition arrived (id : Z) (v : VerifiedTransfer) (db : Database) : Prop :=
  exists row state, chain_transfer_state_current db !! id = Some row
    /\ TransferState_from_str (st_state row) = Ok state /\ next_step state (vt_state v) = None.
Lemma advance_loop_spec fuel id row v t db now :
  on_course db id -> is_Some (chain_transfers db !! id) -> chain_transfer_state_current db !! id = Some row ->
  3 - st_state_version row < Z.of_nat fuel ->
  within db now (advance_loop (R := R) fuel id v t) (fun r db' => r = Some tt /\ forward id db db' /\ arrived id v db').
Proof.
  revert db row. induction fuel as [|fuel IH]; intros db row Ho Htr Hrow Hfuel.
  { unfold on_course in Ho. destruct Htr as [tr Htr]. rewrite Htr in Ho.
    destruct Ho as (_ & row0 & p & Hrow0 & Hw%walk_entry_range & _). simplify_eq. lia. }
  cbn [advance_loop]. apply within_bind_exec. intros current db1 [= <- <-]. rewrite Hrow.
  apply within_bind_lift. intros current [= <-]. apply within_bind_lift. intros state Hs.
  apply map_err_Ok in Hs. destruct (next_step state (vt_state v)) as [next|] eqn:Hn.
  2:{ apply within_ret. split_and!; [done|by apply forward_refl|by exists row, state]. }
  destruct Htr as [tr Htr]. pose proof Ho as Ho'. unfold on_course in Ho'. rewrite Htr in Ho'.
  destruct Ho' as (_ & row0 & p & Hrow0 & Hw & _). simplify_eq.
  destruct (next_step_walk _ _ _ _ _ _ Hw Hs Hn) as (Hle & Htext & Hw').
  apply within_bind_exec. intros n db1 Hswap.
  apply (swap_state_spec _ row) in Hswap as [-> ->]; [|done|by rewrite Htext]. cbn [Z.eqb negb].
  eapply within_bind; [apply insert_state_event_spec|]. intros [] db2 (event & -> & He).
  assert (i64_saturating_add (st_state_version row) 1 = st_state_version row + 1) as ->.
  { apply walk_entry_range in Hw. apply saturate_id. unfold I64_MIN, I64_MAX. lia. }
  cbn [fmap option_fmap option_map] in He. rewrite Htext in He.
  pose proof (forward_step id row _ _ event t db Ho (ex_intro _ tr Htr) Hrow Hw' He eq_refl) as Hf.
  eapply within_weaken.
  - eapply IH; [apply Hf|cbn; by exists tr|cbn; apply lookup_insert_eq|cbn; lia].
  - intros r db3 (-> & Hf' & Ha). split_and!; [done|by eapply forward_trans|done].
Qed.

Lemma advance_state_spec id v t db now :
  on_course db id -> is_Some (chain_transfers db !! id) ->
  within db now (advance_state (R := R) id v t) (fun _ db' => forward id db db' /\ arrived id v db').
Proof.
  intros Ho [tr Htr]. pose proof Ho as Ho'. unfold on_course in Ho'. rewrite Htr in Ho'.
  destruct Ho' as (_ & row & p & Hrow & Hw%walk_entry_range & _).
  eapply within_bind; [eapply advance_loop_spec; [done|by exists tr|done|lia]|].
  intros r db' (_ & ? & ?). by apply within_ret.
Qed.

(** ** What a verdict writes *)

Lemma transfer_of_Some key id db :
  transfer_of key db = Some id -> exists row, chain_transfers db !! id = Some row /\ tr_event row = key.
Proof.
  unfold transfer_of. intros ([i row] & [Hrow Hk]%find_where_Some & ->)%fmap_Some_1.
  bool_to_prop. by exists row.
Qed.
Lemma transfer_of_None key id row db :
  transfer_of key db = None -> chain_transfers db !! id = Some row -> tr_event row <> key.
Proof.
  unfold transfer_of. intros Hf%fmap_None%find_where_None Hrow. specialize (Hf id row Hrow). simpl in Hf. by bool_to_prop.
Qed.

(** A transfer is opened. *)
Definition created (id : Z) (v : VerifiedTransfer) (version : string) (t : Z) (db db' : Database) : Prop :=
  transfer_of (canonical_key (vt_transfer v)) db = None /\ chain_transfers db !! id = None
  /\ exists event, (sv_previous_state event, sv_new_state event) = (None, "canonical")
     /\ db' = on_processing <[id := mkProcessingRow 0 "pending" None 0 t]>
                (on_state_current <[id := mkStateRow "canonical" 1 t]>
                  (on_state_events <[(id, 1) := event]>
                    (on_transfers <[id := transfer_row (vt_transfer v) version t]> db))).

(** Readings are attested, one after the other. *)
Inductive attested (id : Z) (version : string) (t : Z) : list (Z * AttestationRole) -> Database -> Database -> Prop :=
  | attested_nil db : attested id version t [] db db
  | attested_snoc seen observation role attestation db db1 db2 :
      attested id version t seen db db1 ->
      insert_attestation attestation id observation (AttestationRole_as_str role) version t db1 = Ok (tt, db2) ->
      attested id version t (seen ++ [(observation, role)]) db db2.

Definition verified_step (event : ChainEventKey) (v : VerifiedTransfer) (version : string) (t : Z)
    (db : Database) (outcome : VerdictOutcome) (db' : Database) : Prop :=
  exists id db1 db2 db3 row,
    ((outcome = TransferCreated id /\ created id v version t db db1)
     \/ (outcome = TransferAdvanced id /\ transfer_of (canonical_key (vt_transfer v)) db = Some id /\ db1 = db))
    /\ attested id version t (vt_attestations v) db1 db2
    /\ forward id db2 db3 /\ arrived id v db3
    /\ db' = on_verdicts <[stored_key event := row]> db3
    /\ vd_verdict row = "verified" /\ vd_transfer_id row = Some id /\ vd_decided_at row = t.
(** Any other verdict. *)
Definition noted_verdict (event : ChainEventKey) (t : Z) (db db' : Database) : Prop :=
  exists conflicts items row,
    db' = on_verdicts <[stored_key event := row]>
            (on_conflict_items (fun _ => items) (on_conflicts (fun _ => conflicts) db))
    /\ vd_verdict row <> "verified" /\ vd_decided_at row = t.
Definition verdict_step (lease : ComponentLease) (event : ChainEventKey) (verdict : Verdict) (version : string) (t : Z)
    (db : Database) (outcome : VerdictOutcome) (db' : Database) : Prop :=
  holds_lease lease db
  /\ match verdict with
     | Verified v => verified_step event v version t db outcome db'
     | _ => noted_verdict event t db db'
     end.

Lemma attested_frame id version t l db db' :
  attested id version t l db db' -> exists table, db' = on_attestations (fun _ => table) db.
Proof.
  induction 1 as [db|seen o role a db db1 db2 _ [table ->] Hins].
  - exists (chain_transfer_attestations db). by destruct db.
  - unfold insert_attestation in Hins. cbn in Hins. repeat case_match; inv_res; simplify_eq; by eexists.
Qed.

Lemma on_course_created id v version t db db' :
  on_course db id -> created id v version t db db' -> on_course db' id.
Proof.
  intros Ho (_ & Hnew & event & He & ->). unfold on_course in *. rewrite Hnew in Ho. cbn. rewrite !lookup_insert_eq.
  destruct Ho as (_ & _ & Hh). split; [done|]. exists (mkStateRow "canonical" 1 t), None. split_and!; [done..|].
  intros k. specialize (Hh k). unfold history in *. cbn. destruct (decide (k = 1)) as [->|Hk].
  - rewrite lookup_insert_eq. cbn. by rewrite He.
  - rewrite lookup_insert_ne by congruence. rewrite Hh. by rewrite decide_False by lia.
Qed.

Lemma on_course_attestations f id db : on_course (on_attestations f db) id <-> on_course db id.
Proof. done. Qed.

(** What the statements write. *)
Lemma insert_transfer_spec id row db r db' :
  insert_transfer id row db = Ok (r, db') ->
  (r = None /\ db' = db /\ is_Some (transfer_of (tr_event row) db))
  \/ (r = Some id /\ transfer_of (tr_event row) db = None /\ chain_transfers db !! id = None
      /\ db' = on_transfers <[id := row]> db).
Proof.
  unfold insert_transfer. destruct (tr_event row) as [[[[? ?] ?] ?] index] eqn:He. intros Hins.
  apply res_bind_Ok in Hins as ([] & _ & Hins). destruct (transfer_of _ db) as [other|] eqn:Ht.
  - injection Hins as <- <-. left. by split_and!.
  - apply res_bind_Ok in Hins as ([] & Hnew%guard_err_Ok%is_row_false & Hins).
    apply res_bind_Ok in Hins as ([] & _ & Hins). apply res_bind_Ok in Hins as ([] & _ & [= <- <-]).
    right. by split_and!.
Qed.

Lemma upsert_verdict_spec key row db u db' :
  upsert_verdict key row db = Ok (u, db') ->
  exists row', db' = on_verdicts <[key := row']> db /\ vd_verdict row' = vd_verdict row
    /\ vd_decided_at row' = vd_decided_at row
    /\ (is_Some (vd_transfer_id row) -> vd_transfer_id row' = vd_transfer_id row).
Proof.
  unfold upsert_verdict. destruct key as [[[[? ?] ?] ?] index]. intros Hup.
  apply res_bind_Ok in Hup as ([] & _ & Hup). destruct (chain_event_verdicts db !! _) as [stored|].
  - apply res_bind_Ok in Hup as (attempts & _ & Hup). apply res_bind_Ok in Hup as ([] & _ & [= <- <-]).
    eexists. split_and!; [done..|]. cbn. by intros [x ->].
  - apply res_bind_Ok in Hup as ([] & _ & [= <- <-]). by exists row.
Qed.

Lemma record_verdict_spec event verdict reason n g d transfer version t db now :
  within db now (record_verdict (R := R) event verdict reason n g d transfer version t) (fun _ db' =>
    exists row, db' = on_verdicts <[stored_key event := row]> db /\ vd_verdict row = verdict
      /\ vd_decided_at row = t /\ (is_Some transfer -> vd_transfer_id row = transfer)).
Proof. apply within_exec. intros u db' Hup. by apply upsert_verdict_spec in Hup. Qed.

Lemma open_lifecycle_spec id v version t db now :
  chain_transfers db !! id = None -> transfer_of (canonical_key (vt_transfer v)) db = None ->
  within (on_transfers <[id := transfer_row (vt_transfer v) version t]> db) now
    (open_transfer_lifecycle (R := R) id v t) (fun _ db' => created id v version t db db').
Proof.
  intros Hnew Hnone. eapply within_bind; [apply insert_state_event_spec|]. intros [] db1 (event & -> & He).
  apply within_bind_exec. intros [] db2 Hcur. apply within_exec. intros [] db3 Hproc.
  unfold open_current in Hcur. apply res_bind_Ok in Hcur as ([] & _ & Hcur).
  apply res_bind_Ok in Hcur as ([] & _ & [= <-]).
  unfold open_processing in Hproc. apply res_bind_Ok in Hproc as ([] & _ & Hproc).
  apply res_bind_Ok in Hproc as ([] & _ & [= <-]). split_and!; [done..|]. by exists event.
Qed.

Lemma attest_all_spec id version t l db now :
  within db now (for_each (attest (R := R) id version t) l tt) (fun _ db' => attested id version t l db db').
Proof.
  apply (within_for_each_seen (attest id version t) (fun seen db' => attested id version t seen db db'));
    [|constructor].
  intros seen [observation role] rest [] db1 _ Hseen. apply within_bind_uuid_exec.
  intros a [] db2 Hins. by econstructor.
Qed.

Lemma commit_verified_spec event v version t db now :
  walked db ->
  within db now (commit_verified (R := R) event v version t)
    (fun outcome db' => verified_step event v version t db outcome db').
Proof.
  intros Hw. apply within_bind_uuid. intros uid. apply within_bind_exec. intros found db1 Hins.
  set (key := canonical_key (vt_transfer v)).
  eapply (within_bind _ _ _ _ (fun '(id, fresh) db2 => db2 = db1 /\
    if fresh : bool then db1 = on_transfers <[id := transfer_row (vt_transfer v) version t]> db
                         /\ chain_transfers db !! id = None /\ transfer_of key db = None
    else db1 = db /\ transfer_of key db = Some id)).
  { apply insert_transfer_spec in Hins as [(-> & -> & [id Hid])|(-> & Hnone & Hnew & ->)].
    - eapply (within_bind _ _ _ _ (fun id' db2 => db2 = db /\ transfer_of key db = Some id')).
      + apply within_bind_exec. intros r db2 [= <- <-]. apply within_lift. by intros id' Hid'%ok_or_Ok.
      + intros id' db2 [-> Hid']. by apply within_ret.
    - by apply within_ret. }
  intros [id fresh] db2 [-> Hcase].
  eapply (within_bind _ _ _ _ (fun _ db2 => on_course db2 id /\ is_Some (chain_transfers db2 !! id)
    /\ if fresh then created id v version t db db2 else transfer_of key db = Some id /\ db2 = db)).
  { destruct fresh; [destruct Hcase as (-> & Hnew & Hnone)|destruct Hcase as [-> Hid]].
    - eapply within_weaken; [by apply open_lifecycle_spec|]. intros [] db2 Hc.
      split_and!; [by eapply on_course_created| |done].
      destruct Hc as (_ & _ & event' & _ & ->). cbn. rewrite lookup_insert_eq. by eexists.
    - apply within_ret. destruct (transfer_of_Some _ _ _ Hid) as (row & Hrow & _).
      split_and!; [apply Hw|by eexists|done..]. }
  intros [] db2 (Ho & Htr & Hopen).
  eapply within_bind; [apply attest_all_spec|]. intros [] db3 Hat.
  destruct (attested_frame _ _ _ _ _ _ Hat) as [table Hdb3].
  eapply within_bind; [apply advance_state_spec; by rewrite Hdb3|]. intros [] db4 [Hf Ha].
  eapply within_bind; [apply record_verdict_spec|]. intros [] db5 (row & -> & Hv & Ht & Hid).
  apply within_ret. exists id, db2, db3, db4, row. split_and!; try done; [|by apply Hid].
  destruct fresh; [by left|right]. by destruct Hopen as [? ->].
Qed.

(** The disagreements written, over any earlier ones. *)
Definition disputed (db db' : Database) : Prop :=
  exists conflicts items, db' = on_conflict_items (fun _ => items) (on_conflicts (fun _ => conflicts) db).
Lemma disputed_refl db : disputed db db.
Proof. exists (chain_observation_conflicts db), (chain_observation_conflict_items db). by destruct db. Qed.

Lemma commit_conflicts_spec event conflicts t db now :
  within db now (commit_conflicts (R := R) event conflicts t) (fun _ db' => disputed db db').
Proof.
  apply within_for_each; [|apply disputed_refl]. intros [] conflict db1 (c & i & ->).
  apply within_bind_uuid. intros uid. apply within_bind_exec. intros cid db2 Hup.
  apply within_for_each.
  - intros [] [o value] db3 (c2 & i2 & ->). apply within_exec. intros [] db4 Hit.
    unfold upsert_conflict_item in Hit. case_match; [simplify_eq; by eexists _, _|].
    apply res_bind_Ok in Hit as ([] & _ & Hit). apply res_bind_Ok in Hit as ([] & _ & [= <-]). by eexists _, _.
  - unfold upsert_conflict in Hup. destruct (stored_key event) as [[[[? ?] ?] ?] index].
    apply res_bind_Ok in Hup as ([] & _ & Hup). cbn in Hup. case_match; [simplify_eq; by eexists _, _|].
    apply res_bind_Ok in Hup as ([] & _ & [= <- <-]). by eexists _, _.
Qed.

Lemma note_verdict_spec event name reason n d version t db0 db now :
  name <> "verified" -> disputed db0 db ->
  within db now (record_verdict (R := R) event name reason n 0 d None version t)
    (fun _ db' => noted_verdict event t db0 db').
Proof.
  intros Hname (conflicts & items & ->). eapply within_weaken; [apply record_verdict_spec|].
  intros [] db' (row & -> & Hv & Ht & _). exists conflicts, items, row. by rewrite Hv.
Qed.

Lemma pg_commit_verdict_spec lease event verdict n version t db0 db now :
  walked db0 ->
  ends db0 db now (pg_commit_verdict (R := R) lease event verdict n version t)
    (verdict_step lease event verdict version t db0).
Proof.
  intros Hw. apply ends_begin. intros now'. eapply ends_bind; [apply hold_lease_spec|].
  intros [] db1 [-> Hlease%lease_holds].
  eapply (ends_bind _ _ _ _ _ (verdict_step lease event verdict version t db0)).
  2:{ intros outcome db1 Hstep. by apply ends_commit. }
  unfold verdict_step. destruct verdict as [v|conflicts discarded|reason discarded|reason discarded].
  - eapply within_weaken; [by apply commit_verified_spec|]. done.
  - eapply within_bind; [apply commit_conflicts_spec|]. intros [] db1 Hd.
    eapply within_bind; [by apply note_verdict_spec|]. intros [] db2 Hn. by apply within_ret.
  - eapply within_bind; [apply note_verdict_spec; [done|apply disputed_refl]|]. intros. by apply within_ret.
  - eapply within_bind; [apply note_verdict_spec; [done|apply disputed_refl]|]. intros. by apply within_ret.
Qed.
End specs.

(** ** Intake *)

(** No source states the same claim twice. *)
Definition claims_unique (observations : gmap Z ObservationRow) : Prop :=
  forall i j a b, observations !! i = Some a -> observations !! j = Some b ->
    ob_source_id a = ob_source_id b -> ob_semantic_hash a = ob_semantic_hash b -> i = j.

Lemma is_claimed_true source hash db :
  is_claimed source hash db = true <-> exists id row, chain_observations db !! id = Some row
    /\ ob_source_id row = source /\ ob_semantic_hash row = hash.
Proof. unfold is_claimed. rewrite bool_decide_eq_true. unfold map_Exists. naive_solver. Qed.

Lemma insert_observation_row_spec id row db fresh db' :
  insert_observation_row id row db = Ok (fresh, db') ->
  if fresh : bool
  then is_claimed (ob_source_id row) (ob_semantic_hash row) db = false /\ chain_observations db !! id = None
       /\ db' = on_observations <[id := row]> db
  else is_claimed (ob_source_id row) (ob_semantic_hash row) db = true /\ db' = db.
Proof.
  unfold insert_observation_row. intros Hins. apply res_bind_Ok in Hins as ([] & _ & Hins).
  destruct (is_claimed _ _ _) eqn:Hc; [by simplify_eq|].
  apply res_bind_Ok in Hins as ([] & Hnew%guard_err_Ok%is_row_false & Hins).
  do 2 (apply res_bind_Ok in Hins as ([] & _ & Hins)).
  apply res_bind_Ok in Hins as ([] & _ & [= <- <-]). done.
Qed.

Section intake.
Context {R : Type} `{Postgres R} `{U256Lib} `{UuidLib} `{TimeLib} `{NumericText}.

(** What the loop over a batch has done: the table has grown by [recorded]
    rows, each of them a reading of the batch written under the session's own
    role, and every reading it has passed is in the table. *)
Record taken_in (source : ChainSource) (before : gmap Z ObservationRow) (seen : list ResolvedObservation)
    (counts : Z * Z) (after : gmap Z ObservationRow) : Prop := {
  ti_kept : before ⊆ after;
  ti_new : forall id row, after !! id = Some row -> before !! id = None ->
    exists observation, observation ∈ seen /\ row = observation_row session_user source observation;
  ti_fresh : forall id row, after !! id = Some row -> before !! id = None -> forall j stored,
    before !! j = Some stored -> ob_source_id stored = ob_source_id row -> ob_semantic_hash stored <> ob_semantic_hash row;
  ti_stored : forall observation, observation ∈ seen -> exists id row, after !! id = Some row
    /\ ob_source_id row = cs_id source /\ ob_semantic_hash row = ro_semantic_hash observation;
  ti_size : Z.of_nat (size after) = Z.of_nat (size before) + counts.1;
  ti_counts : counts.1 + counts.2 = Z.of_nat (length seen) /\ 0 <= counts.1 /\ 0 <= counts.2;
  ti_unique : claims_unique before -> claims_unique after;
}.

Lemma taken_in_nil source before : taken_in source before [] (0, 0) before.
Proof. split; cbn; try done; [congruence..|by intros o ?%elem_of_nil|lia]. Qed.

Lemma taken_in_new source before seen n d after o id :
  taken_in source before seen (n, d) after -> after !! id = None ->
  (forall j row, after !! j = Some row -> ob_source_id row = cs_id source ->
     ob_semantic_hash row <> ro_semantic_hash o) ->
  taken_in source before (seen ++ [o]) (n + 1, d) (<[id := observation_row session_user source o]> after).
Proof.
  intros T Hnew Hfree. destruct T as [Tk Tn Tf Ts Tz Tc Tu]. cbn in *. split; cbn.
  - etransitivity; [done|]. by apply insert_subseteq.
  - intros j row [[<- <-]|[Hj Hrow]]%lookup_insert_Some Hnone.
    + exists o. split; [set_solver|done].
    + destruct (Tn j row Hrow Hnone) as (o' & ? & ?). exists o'. split; [set_solver|done].
  - intros j row [[<- <-]|[Hj Hrow]]%lookup_insert_Some Hnone k stored Hk Hs; [|by eapply Tf].
    cbn in *. eapply Hfree; [by eapply lookup_weaken|done].
  - intros o' [Ho'| ->%list_elem_of_singleton]%elem_of_app.
    + destruct (Ts o' Ho') as (j & row & Hrow & ? & ?). exists j, row. split_and!; [|done..].
      rewrite lookup_insert_ne; [done|]. intros ->. congruence.
    + exists id, (observation_row session_user source o). rewrite lookup_insert_eq. done.
  - rewrite map_size_insert_None by done. lia.
  - rewrite length_app. cbn. lia.
  - intros Hu%Tu i j a b [[<- <-]|[Hi Ha]]%lookup_insert_Some [[<- <-]|[Hj Hb]]%lookup_insert_Some Hs Hh; try done.
    + symmetry in Hs, Hh. by destruct (Hfree j b Hb Hs).
    + by destruct (Hfree i a Ha Hs).
    + by eapply Hu.
Qed.

Lemma taken_in_again source before seen n d after o :
  taken_in source before seen (n, d) after ->
  (exists id row, after !! id = Some row /\ ob_source_id row = cs_id source
     /\ ob_semantic_hash row = ro_semantic_hash o) ->
  taken_in source before (seen ++ [o]) (n, d + 1) after.
Proof.
  intros [Tk Tn Tf Ts Tz Tc Tu] Hin. cbn in *. split; cbn; try done.
  - intros j row Hrow Hnone. destruct (Tn j row Hrow Hnone) as (o' & ? & ?). exists o'. split; [set_solver|done].
  - intros o' [Ho'| ->%list_elem_of_singleton]%elem_of_app; [by apply Ts|done].
  - rewrite length_app. cbn. lia.
Qed.

Lemma record_all_spec source observations db now :
  Z.of_nat (length observations) <= U32_MAX ->
  within db now (for_each (record_one (R := R) source) observations (0, 0)) (fun counts db' =>
    exists table, db' = on_observations (fun _ => table) db
      /\ taken_in source (chain_observations db) observations counts table).
Proof.
  intros Hlen.
  apply (within_for_each_acc (record_one source) (fun seen counts db' => exists table,
    db' = on_observations (fun _ => table) db /\ taken_in source (chain_observations db) seen counts table)).
  2:{ exists (chain_observations db). split; [by destruct db|apply taken_in_nil]. }
  intros seen o rest [n d] db1 Hl (table & -> & T). unfold record_one.
  eapply within_bind; [apply within_bind_uuid_exec; intros id fresh db2 Hins; exact (ex_intro _ id Hins)|].
  intros fresh db2 [id Hins]. apply insert_observation_row_spec in Hins. apply within_ret.
  assert (forall k, 0 <= k < Z.of_nat (length observations) -> u32_saturating_add k 1 = k + 1) as Hadd.
  { intros k Hk. apply saturate_id. lia. }
  assert (Z.of_nat (length seen) < Z.of_nat (length observations)) as Hlt by (rewrite Hl, length_app; cbn; lia).
  pose proof (ti_counts _ _ _ _ _ T) as (Hc & Hn & Hd). cbn in Hc, Hn, Hd.
  destruct fresh; [destruct Hins as (Hfree & Hnew & ->)|destruct Hins as (Hclaimed & ->)].
  - rewrite Hadd by lia. eexists. split; [done|]. cbn. apply taken_in_new; [done|done|].
    intros j row Hrow Hs Hh. apply not_true_iff_false in Hfree. apply Hfree, is_claimed_true. by exists j, row.
  - rewrite Hadd by lia. exists table. split; [done|]. apply taken_in_again; [done|].
    by apply is_claimed_true in Hclaimed.
Qed.

(** A cursor that was moved: by the role that speaks for the source, under a
    fence token that is not older, and to no smaller number. *)
Definition cursor_moved (key : Z * string * Z) (row : CursorRow) (kind : CursorKind) (db : Database) : Prop :=
  speaks_for session_user key.1.1 db = true
  /\ forall stored, chain_cursors db !! key = Some stored ->
     cu_fence_token stored <= cu_fence_token row
     /\ (CursorKind_is_numeric kind = true -> numeric_le (cu_cursor_value stored) (cu_cursor_value row) = Some true).

Definition position_row (position : CursorPosition) (now : Z) : CursorRow :=
  mkCursorRow (CursorKind_as_str (cp_kind position)) (cp_value position)
    (cp_last_block_hash position) (cp_fence_token position) now.

Lemma advance_cursor_spec source kind collector position db now :
  within db now (advance_cursor (R := R) source kind collector position) (fun advanced db' =>
    let key := (source, ObservationKind_as_str kind, collector) in
    if advanced : bool
    then db' = on_cursors <[key := position_row position now]> db
         /\ cursor_moved key (position_row position now) (cp_kind position) db
    else db' = db).
Proof.
  apply within_bind_run_at. intros advanced db1 Hup. unfold upsert_cursor in Hup.
  apply res_bind_Ok in Hup as ([] & Hspeak%guard_err_Ok%negb_false_iff & Hup).
  apply res_bind_Ok in Hup as ([] & _ & Hup).
  destruct (chain_cursors db !! _) as [stored|] eqn:Hs.
  - apply res_bind_Ok in Hup as (moved & Hmoved & Hup). destruct moved; injection Hup as <- <-.
    + apply within_ret. split; [done|]. split; [done|]. intros stored' Hs'. rewrite Hs in Hs'. injection Hs' as <-.
      destruct (Z.leb_spec (cu_fence_token stored) (cp_fence_token position)); cbn in Hmoved; [|done].
      split; [done|]. intros Hn. cbn. rewrite Hn in Hmoved. by apply ok_or_Ok in Hmoved.
    + apply within_bind_exec. intros token db2 [= <- <-]. rewrite Hs. cbn.
      destruct (_ <? _); [by apply within_lift|by apply within_ret].
  - apply res_bind_Ok in Hup as ([] & _ & Hup). apply res_bind_Ok in Hup as ([] & _ & [= <- <-]).
    apply within_ret. split; [done|]. split; [done|]. intros stored'. by rewrite Hs.
Qed.

(** A call of the intake, committed. *)
Definition intake_commit (source : ChainSource) (lease : ComponentLease) (observations : list ResolvedObservation)
    (cursor : option (Z * ObservationKind * CursorPosition)) (db : Database) (report : IntakeReport) (db' : Database)
    : Prop :=
  holds_lease lease db
  /\ exists table, taken_in source (chain_observations db) observations (ir_recorded report, ir_duplicates report) table
     /\ match cursor with
        | Some (collector, kind, position) =>
            let key := (cs_id source, ObservationKind_as_str kind, collector) in
            if ir_cursor_advanced report
            then exists now, db' = on_cursors <[key := position_row position now]> (on_observations (fun _ => table) db)
                   /\ cursor_moved key (position_row position now) (cp_kind position) db
            else db' = on_observations (fun _ => table) db
        | None => db' = on_observations (fun _ => table) db
        end.

(** It writes observations and cursors only. *)
Lemma intake_commit_tables source lease observations cursor db report db' :
  intake_commit source lease observations cursor db report db' ->
  exists table cursors, db' = on_cursors (fun _ => cursors) (on_observations (fun _ => table) db)
    /\ taken_in source (chain_observations db) observations (ir_recorded report, ir_duplicates report) table.
Proof.
  intros (_ & table & T & Hdb). exists table.
  assert (on_observations (fun _ => table) db
    = on_cursors (fun _ => chain_cursors db) (on_observations (fun _ => table) db)) as Hsame by by destruct db.
  destruct cursor as [[[collector kind] position]|]; cbn zeta in Hdb; [destruct (ir_cursor_advanced report)|].
  - destruct Hdb as (now & -> & _). by eexists.
  - exists (chain_cursors db). by rewrite Hdb.
  - exists (chain_cursors db). by rewrite Hdb.
Qed.

(** A batch of claims that are all known adds nothing. *)
Lemma intake_commit_known source lease observations cursor db report db' :
  intake_commit source lease observations cursor db report db' ->
  (forall observation, observation ∈ observations -> exists id row, chain_observations db !! id = Some row
     /\ ob_source_id row = cs_id source /\ ob_semantic_hash row = ro_semantic_hash observation) ->
  ir_recorded report = 0 /\ chain_observations db' = chain_observations db.
Proof.
  intros Hc Hknown. destruct (intake_commit_tables _ _ _ _ _ _ _ Hc) as (table & cursors & -> & T). cbn.
  assert (table = chain_observations db) as ->.
  { apply map_eq. intros id. destruct (chain_observations db !! id) as [row|] eqn:Hrow.
    - by eapply lookup_weaken; [|apply T].
    - destruct (table !! id) as [row|] eqn:Hnew; [|done].
      destruct (ti_new _ _ _ _ _ T id row Hnew Hrow) as (o & Ho & ->).
      destruct (Hknown o Ho) as (j & r & Hr & Hs & Hh). by destruct (ti_fresh _ _ _ _ _ T id _ Hnew Hrow j r Hr). }
  split; [|done]. pose proof (ti_size _ _ _ _ _ T) as Hsize. cbn in Hsize. lia.
Qed.

Lemma pg_record_observations_transacts source lease observations cursor :
  Z.of_nat (length observations) <= U32_MAX ->
  transacts (intake_commit source lease observations cursor)
    (pg_record_observations (R := R) source lease observations cursor).
Proof.
  intros Hlen db0 db now. apply ends_begin. intros now'. eapply ends_bind; [apply hold_lease_spec|].
  intros [] db1 [-> Hlease%lease_holds].
  eapply ends_bind; [by apply record_all_spec|]. intros [n d] db1 (table & -> & T).
  destruct cursor as [[[collector kind] position]|].
  - eapply ends_bind; [apply advance_cursor_spec|]. intros advanced db2 Hadv. apply ends_commit.
    split; [done|]. exists table. split; [done|]. cbn. destruct advanced; [|done].
    exists now'. by destruct Hadv.
  - eapply (ends_bind _ _ _ _ _ (fun _ db2 => db2 = on_observations (fun _ => table) db0)); [by apply within_ret|].
    intros advanced db2 ->. apply ends_commit. split; [done|]. by exists table.
Qed.
End intake.

(** ** Leases *)

Section leases.
Context {R : Type} `{Postgres R} `{U256Lib} `{UuidLib} `{TimeLib} `{NumericText}.

(** The lease table after an answer. *)
Definition lease_step (component holder : string) (expiry now : Z) (db : Database) (answer : option ComponentLease)
    (db' : Database) : Prop :=
  match answer with
  | None => db' = db /\ exists row, component_leases db !! component = Some row
              /\ lr_holder row <> holder /\ now <= lr_lease_until row
  | Some lease => lease = mkComponentLease component holder (cl_fence_token lease) expiry
      /\ db' = on_component_leases <[component := mkLeaseRow holder (cl_fence_token lease) expiry now]> db
      /\ forall row, component_leases db !! component = Some row ->
         (lr_holder row = holder /\ cl_fence_token lease = lr_fence_token row)
         \/ (lr_holder row <> holder /\ lr_lease_until row < now /\ cl_fence_token lease = lr_fence_token row + 1)
  end.

Lemma upsert_lease_spec component holder expiry now db answer db' :
  upsert_lease component holder expiry now db = Ok (answer, db') -> lease_step component holder expiry now db answer db'.
Proof.
  unfold upsert_lease. intros Hup. apply res_bind_Ok in Hup as ([] & _ & Hup).
  destruct (component_leases db !! component) as [row|] eqn:Hrow.
  2:{ injection Hup as <- <-. split_and!; [done..|]. by rewrite Hrow. }
  case_bool_decide as Hh.
  - injection Hup as <- <-. split_and!; [done..|]. intros row' Hrow'. rewrite Hrow in Hrow'. injection Hrow' as <-. by left.
  - destruct (Z.ltb_spec (lr_lease_until row) now).
    + apply res_bind_Ok in Hup as (token & ->%bigint_next_Ok & [= <- <-]). split_and!; [done..|].
      intros row' Hrow'. rewrite Hrow in Hrow'. injection Hrow' as <-. by right.
    + injection Hup as <- <-. split; [done|]. by exists row.
Qed.

Lemma pg_acquire_transacts component holder ttl now :
  transacts (fun db answer db' => exists expiry, odt_checked_add now (duration_seconds ttl) = Some expiry
      /\ lease_step component holder expiry now db answer db')
    (pg_acquire_component_lease (R := R) component holder ttl now).
Proof.
  intros db0 db t. apply ends_bind_lift. intros [] _. apply ends_bind_lift. intros expiry Hu%ok_or_Ok.
  eapply ends_weaken; [apply transacts_map_err, transacts_pool|].
  intros answer db' (t' & Hst). exists expiry. split; [done|]. by apply upsert_lease_spec.
Qed.
End leases.

(** ** Any run of the evidence path *)

Section runs.
Context {R : Type} `{Postgres R} `{U256Lib} `{UuidLib} `{TimeLib} `{NumericText}.

(** The calls that write, with any arguments and whatever they return. *)
Inductive evidence_call : Session R -> Session R -> Prop :=
  | call_acquire component holder ttl now s :
      evidence_call s (pg_acquire_component_lease component holder ttl now s).2
  | call_record source lease observations cursor s : Z.of_nat (length observations) <= U32_MAX ->
      evidence_call s (pg_record_observations source lease observations cursor s).2
  | call_verdict lease event verdict n version now s :
      evidence_call s (pg_commit_verdict lease event verdict n version now s).2.

(** What they do to the committed state: nothing, or one step. *)
Inductive evidence_move (db : Database) : Database -> Prop :=
  | move_none : evidence_move db db
  | move_lease component holder expiry now answer db' :
      lease_step component holder expiry now db answer db' -> evidence_move db db'
  | move_intake source lease observations cursor report db' :
      intake_commit (R := R) source lease observations cursor db report db' -> evidence_move db db'
  | move_verdict lease event verdict version now outcome db' :
      verdict_step lease event verdict version now db outcome db' -> evidence_move db db'.

Lemma ends_move {E A} (m : eff (Session R) E A) (T : A -> Database -> Prop) s :
  (forall db now, ends (committed s) db now m T) -> (forall a db', T a db' -> evidence_move (committed s) db') ->
  evidence_move (committed s) (committed (m s).2).
Proof.
  intros Hm Hmove. specialize (Hm (working s) (transaction_now s) s eq_refl eq_refl eq_refl).
  destruct (m s) as [[a|e] s']; cbn in *; [by eapply Hmove|].
  destruct Hm as [->|[a Ha]]; [constructor|by eapply Hmove].
Qed.

Lemma evidence_call_move s s' : evidence_call s s' -> walked (committed s) ->
  evidence_move (committed s) (committed s').
Proof.
  intros [component holder ttl now s0|source lease observations cursor s0 Hlen|lease event verdict n version now s0] Hw.
  - eapply ends_move; [intros; apply pg_acquire_transacts|]. intros a db' (expiry & _ & Hstep). by eapply move_lease.
  - eapply ends_move; [intros; by apply pg_record_observations_transacts|]. intros. by eapply move_intake.
  - eapply ends_move; [intros; by apply pg_commit_verdict_spec|]. intros. by eapply move_verdict.
Qed.

(** A canonical transfer stays as it is, and its state never goes back. *)
Definition transfers_carried (db db' : Database) : Prop :=
  forall id row, chain_transfers db !! id = Some row -> chain_transfers db' !! id = Some row
    /\ forall current, chain_transfer_state_current db !! id = Some current ->
       exists current', chain_transfer_state_current db' !! id = Some current'
         /\ st_state_version current <= st_state_version current'.
Lemma transfers_carried_same db db' :
  chain_transfers db' = chain_transfers db -> chain_transfer_state_current db' = chain_transfer_state_current db ->
  transfers_carried db db'.
Proof. intros Et Es id row Hrow. rewrite Et, Es. split; [done|]. intros current Hc. by exists current. Qed.
Lemma transfers_carried_refl db : transfers_carried db db.
Proof. by apply transfers_carried_same. Qed.
Lemma transfers_carried_trans db1 db2 db3 :
  transfers_carried db1 db2 -> transfers_carried db2 db3 -> transfers_carried db1 db3.
Proof.
  intros C1 C2 id row Hrow. destruct (C1 id row Hrow) as [Hrow2 Hs2]. destruct (C2 id row Hrow2) as [Hrow3 Hs3].
  split; [done|]. intros current Hc. destruct (Hs2 current Hc) as (c2 & Hc2 & ?).
  destruct (Hs3 c2 Hc2) as (c3 & ? & ?). exists c3. split; [done|lia].
Qed.

Lemma created_walked id v version t db db' :
  walked db -> created id v version t db db' -> walked db' /\ transfers_carried db db'.
Proof.
  intros Hw Hc. split.
  - intros j. destruct (decide (j = id)) as [->|Hj]; [by eapply on_course_created|].
    destruct Hc as (_ & _ & event & _ & ->). specialize (Hw j). unfold on_course, history in *. cbn.
    rewrite !(lookup_insert_ne _ id j) by done.
    assert (forall k, <[(id, 1) := event]> (chain_transfer_state_events db) !! (j, k)
      = chain_transfer_state_events db !! (j, k)) as Hk by (intros k; by rewrite lookup_insert_ne by congruence).
    destruct (chain_transfers db !! j); by setoid_rewrite Hk.
  - destruct Hc as (_ & Hnew & event & _ & ->). intros j row Hrow. cbn.
    assert (j <> id) by congruence. rewrite !lookup_insert_ne by done. split; [done|].
    intros current Hcur. by exists current.
Qed.

Lemma forward_walked id db db' : walked db -> forward id db db' -> walked db' /\ transfers_carried db db'.
Proof.
  intros Hw (Hr & Ho & Hf). split.
  - intros j. destruct (decide (j = id)) as [->|Hj]; [done|]. by eapply on_course_restated.
  - destruct Hr as (c & e & -> & Hc & He). intros j row Hrow. split; [done|]. intros current Hcur.
    destruct (decide (j = id)) as [->|Hj]; [by apply Hf|]. exists current. cbn. by rewrite Hc.
Qed.

Lemma evidence_move_walked db db' : evidence_move db db' -> walked db -> walked db' /\ transfers_carried db db'.
Proof.
  intros [|component holder expiry now answer db1 Hl|source lease obs cursor report db1 Hi
    |lease event verdict version now outcome db1 [_ Hv]] Hw.
  - split; [done|by apply transfers_carried_same].
  - destruct answer as [l|]; [destruct Hl as (_ & -> & _)|destruct Hl as [-> _]]; (split; [done|by apply transfers_carried_same]).
  - destruct (intake_commit_tables _ _ _ _ _ _ _ Hi) as (table & cursors & -> & _).
    split; [done|by apply transfers_carried_same].
  - destruct verdict as [v|? ?|? ?|? ?].
    2-4: destruct Hv as (c & i & row & -> & _); (split; [done|by apply transfers_carried_same]).
    destruct Hv as (id & db1' & db2 & db3 & row & Hopen & Hat & Hf & _ & -> & _).
    assert (walked db1' /\ transfers_carried db db1') as [Hw1 C1].
    { destruct Hopen as [[_ Hc]|(_ & _ & ->)]; [by eapply created_walked|split; [done|by apply transfers_carried_same]]. }
    destruct (attested_frame _ _ _ _ _ _ Hat) as [table ->].
    destruct (forward_walked _ (on_attestations (fun _ => table) db1') _ Hw1 Hf) as [Hw3 C3]. split; [done|].
    eapply transfers_carried_trans; [exact C1|exact C3].
Qed.

(** C10: The state of a canonical transfer is a walk, forward only.  Through
    any calls of the evidence path, with any arguments and however they end,
    every transfer keeps the row it was created with; it stands at version
    one to three of canonical, confirmed, finalized; its history holds
    exactly one event per version, each naming the state before and after;
    and neither the version nor with it the state ever goes back. *)
Theorem transfer_states_walk_forward s s' :
  walked (committed s) -> rtc evidence_call s s' ->
  walked (committed s') /\ transfers_carried (committed s) (committed s').
Proof.
  intros Hw Hr. induction Hr as [s|s1 s2 s3 Hc _ IH]; [by split; [|apply transfers_carried_refl]|].
  destruct (evidence_move_walked _ _ (evidence_call_move _ _ Hc Hw) Hw) as [Hw2 C2].
  destruct (IH Hw2) as [Hw3 C3]. split; [done|]. by eapply transfers_carried_trans.
Qed.
End runs.

(** ** One holder at a time *)

Section fencing.
Context {R : Type} `{Postgres R} `{U256Lib} `{UuidLib} `{TimeLib} `{TimeSerde} `{NumericText}.

(** Steps of any component: an attempt to take a lease, or anything that
    leaves the lease table alone. *)
Inductive component_step (acquires : string -> string -> Z -> Prop) : Session R -> Session R -> Prop :=
  | step_acquire component holder ttl now s : acquires component holder now ->
      component_step acquires s (pg_acquire_component_lease component holder ttl now s).2
  | step_other s s' : component_leases (committed s') = component_leases (committed s) ->
      component_step acquires s s'.

Lemma component_step_lease acquires s s' c :
  component_step acquires s s' ->
  component_leases (committed s') !! c = component_leases (committed s) !! c
  \/ exists holder expiry now lease, acquires c holder now
       /\ lease_step c holder expiry now (committed s) (Some lease) (committed s').
Proof.
  intros [component holder ttl now s0 Ha|s0 s1 Hsame]; [|left; by rewrite Hsame].
  pose proof (pg_acquire_transacts component holder ttl now _ _ _ s0 eq_refl eq_refl eq_refl) as Ht.
  destruct (pg_acquire_component_lease component holder ttl now s0) as [r s1]. cbn in *.
  assert (committed s1 = committed s0 \/ exists answer expiry, lease_step component holder expiry now
    (committed s0) answer (committed s1)) as [->|([lease|] & expiry & Hstep)].
  { destruct r as [a|e]; [right; destruct Ht as (x & _ & ?); by exists a, x|].
    destruct Ht as [?|(a & x & _ & ?)]; [by left|right; by exists a, x]. }
  - by left.
  - destruct (decide (component = c)) as [->|Hc]; [right; by exists holder, expiry, now, lease|].
    left. destruct Hstep as (_ & -> & _). cbn. by rewrite lookup_insert_ne.
  - left. by destruct Hstep as [-> _].
Qed.

(** Tokens only grow, and one token has one holder. *)
Lemma tokens_grow acquires s s' c row :
  rtc (component_step acquires) s s' -> component_leases (committed s) !! c = Some row ->
  exists row', component_leases (committed s') !! c = Some row' /\ lr_fence_token row <= lr_fence_token row'
    /\ (lr_fence_token row = lr_fence_token row' -> lr_holder row = lr_holder row').
Proof.
  intros Hr. revert row. induction Hr as [s|s1 s2 s3 Hstep _ IH]; intros row Hrow; [by exists row|].
  destruct (component_step_lease _ _ _ c Hstep) as [Hsame|(holder & expiry & now & lease & _ & Hl)].
  - apply IH. by rewrite Hsame.
  - destruct Hl as (_ & Hdb & Hcase). specialize (Hcase row Hrow).
    destruct (IH (mkLeaseRow holder (cl_fence_token lease) expiry now)) as (row' & Hrow' & Hle & Hh).
    { rewrite Hdb. cbn. by rewrite lookup_insert_eq. }
    cbn in *. exists row'. destruct Hcase as [[? ?]|(? & _ & ?)]; (split_and!; [done|lia|]); intros; [|lia].
    rewrite <- Hh by lia. done.
Qed.

(** A call that ends in an error and commits nothing. *)
Definition refused {A} (m : storage (R := R) A) (s : Session R) : Prop :=
  (exists e, (m s).1 = Err e) /\ committed (m s).2 = committed s.
Lemma refused_without_lease {A} (k : storage (R := R) A) lease s :
  ~ holds_lease lease (committed s) ->
  refused (_ ← eff_map_err unavailable begin_transaction; _ ← hold_lease lease; k) s.
Proof.
  intros Hno. unfold refused, hold_lease, mbind, eff_bind, eff_map_err, begin_transaction, run_at.
  destruct (next_fault (runtime s)) as [[d|] r], (database_now r) as [t r']; cbn; [by split; [eexists|]|].
  destruct (next_fault r') as [[d|] r'']; cbn; [by split; [eexists|]|].
  destruct (component_leases (committed s) !! cl_component lease) as [row|] eqn:Hrow; cbn; [|by split; [eexists|]].
  destruct (bool_decide _ && _ && _) eqn:Hb; cbn; [|by split; [eexists|]].
  bool_to_prop. destruct Hno. by exists row.
Qed.

(** A lease that was granted is in the table. *)
Lemma granted_row component holder ttl now s lease s1 :
  pg_acquire_component_lease component holder ttl now s = (Ok (Some lease), s1) ->
  lease = mkComponentLease component holder (cl_fence_token lease) (cl_lease_until lease)
  /\ component_leases (committed s1) !! component
     = Some (mkLeaseRow holder (cl_fence_token lease) (cl_lease_until lease) now)
  /\ forall row, component_leases (committed s) !! component = Some row -> lr_holder row <> holder ->
     cl_fence_token lease = lr_fence_token row + 1 /\ lr_lease_until row < now.
Proof.
  intros Hacq. pose proof (pg_acquire_transacts component holder ttl now _ _ _ s eq_refl eq_refl eq_refl) as Ht.
  rewrite Hacq in Ht. cbn in Ht. destruct Ht as (expiry & _ & Hlease & Hdb & Hcase).
  assert (cl_lease_until lease = expiry) as Hexp by (by rewrite Hlease).
  rewrite Hexp. split_and!; [done| |].
  - rewrite Hdb. cbn. by rewrite lookup_insert_eq.
  - intros row Hrow Hne. by destruct (Hcase row Hrow) as [[? _]|(_ & ? & ?)].
Qed.

(** Nobody else is granted a lease that has not run out. *)
Lemma live_lease_excludes component row other ttl now s answer s' :
  component_leases (committed s) !! component = Some row -> other <> lr_holder row -> now <= lr_lease_until row ->
  pg_acquire_component_lease component other ttl now s = (answer, s') ->
  committed s' = committed s /\ forall taken, answer <> Ok (Some taken).
Proof.
  intros Hrow Hne Hnow Hacq.
  pose proof (pg_acquire_transacts component other ttl now _ _ _ s eq_refl eq_refl eq_refl) as Ht.
  rewrite Hacq in Ht. cbn in Ht.
  assert (forall a x db', lease_step component other x now (committed s) a db' -> db' = committed s /\ a = None) as Hnone.
  { intros [l|] x db' Hl; [|by destruct Hl as [-> _]]. destruct Hl as (_ & _ & Hl).
    destruct (Hl _ Hrow) as [[? _]|(_ & ? & _)]; [done|lia]. }
  destruct answer as [a|e].
  - destruct Ht as (x & _ & Hl). destruct (Hnone _ _ _ Hl) as [-> ->]. by split; [|intros ? [=]].
  - split; [|by intros ? [=]]. destruct Ht as [->|(a & x & _ & Hl)]; [done|]. by destruct (Hnone _ _ _ Hl).
Qed.

(** It stays in the table while only others ask, before it has run out. *)
Lemma live_lease_kept component row s s' :
  rtc (component_step (fun c h t => c = component -> h <> lr_holder row /\ t <= lr_lease_until row)) s s' ->
  component_leases (committed s) !! component = Some row -> component_leases (committed s') !! component = Some row.
Proof.
  induction 1 as [s|s1 s2 s3 Hstep _ IH]; [done|]. intros Hrow. apply IH.
  destruct (component_step_lease _ _ _ component Hstep) as [->|(h & x & t & l & Ha & _ & _ & Hl)]; [done|].
  destruct (Ha eq_refl) as [? ?]. destruct (Hl _ Hrow) as [[? _]|(_ & ? & _)]; [done|lia].
Qed.

(** C11: A component has one holder at a time, and a holder that was
    replaced writes nothing.  While a lease that was granted has not run out
    by the clock of whoever asks, no other holder is granted it, whatever
    other holders ask for and anybody writes meanwhile (the holder itself
    may have asked again only for another component: a renewal of its own
    is a new lease with its own term).  Once another holder is granted it, the token is a
    larger one, and for ever after every write under the old lease, of
    observations, of verdicts, of settlements and of parked transfers, ends
    in an error with nothing committed. *)
Theorem replaced_holder_writes_nothing component holder ttl now s lease s1 :
  pg_acquire_component_lease component holder ttl now s = (Ok (Some lease), s1) ->
  (forall s2 other ttl' now' answer s3,
     rtc (component_step (fun c h t => c = component -> h <> holder /\ t <= cl_lease_until lease)) s1 s2 ->
     other <> holder -> now' <= cl_lease_until lease ->
     pg_acquire_component_lease component other ttl' now' s2 = (answer, s3) ->
     committed s3 = committed s2 /\ forall taken, answer <> Ok (Some taken))
  /\ (forall s2 other ttl' now' taken s3 s4,
     rtc (component_step (fun _ _ _ => True)) s1 s2 -> other <> holder ->
     pg_acquire_component_lease component other ttl' now' s2 = (Ok (Some taken), s3) ->
     rtc (component_step (fun _ _ _ => True)) s3 s4 ->
     cl_fence_token lease < cl_fence_token taken
     /\ (forall source observations cursor, refused (pg_record_observations source lease observations cursor) s4)
     /\ (forall event verdict n version t, refused (pg_commit_verdict lease event verdict n version t) s4)
     /\ (forall command, refused (pg_settle lease command) s4)
     /\ (forall transfer unresolved, refused (pg_record_unresolved lease transfer unresolved) s4)).
Proof.
  intros Hacq. destruct (granted_row _ _ _ _ _ _ _ Hacq) as (Hlease & Hrow & _). split.
  - intros s2 other ttl' now' answer s3 Hrun Hne Hnow Hacq'.
    set (row := mkLeaseRow holder (cl_fence_token lease) (cl_lease_until lease) now) in *.
    eapply (live_lease_excludes component row); [|exact Hne|exact Hnow|exact Hacq'].
    by apply (live_lease_kept component row s1).
  - intros s2 other ttl' now' taken s3 s4 Hrun Hne Hacq' Hrun'.
    destruct (tokens_grow _ _ _ _ _ Hrun Hrow) as (row2 & Hrow2 & Hle & Hh). cbn in Hle, Hh.
    destruct (granted_row _ _ _ _ _ _ _ Hacq') as (_ & Hrow3 & Hnext).
    destruct (tokens_grow _ _ _ _ _ Hrun' Hrow3) as (row4 & Hrow4 & Hle4 & _). cbn in Hle4.
    assert (cl_fence_token lease < cl_fence_token taken) as Hlt.
    { destruct (decide (lr_holder row2 = other)) as [Ho|Ho]; [|destruct (Hnext _ Hrow2 Ho); lia].
      destruct (decide (cl_fence_token lease = lr_fence_token row2)) as [E|Hneq]; [by destruct Hne; rewrite Hh|].
      pose proof (pg_acquire_transacts component other ttl' now' _ _ _ s2 eq_refl eq_refl eq_refl) as Ht.
      rewrite Hacq' in Ht. cbn in Ht. destruct Ht as (x & _ & _ & _ & Hcase).
      destruct (Hcase _ Hrow2) as [[_ ?]|(? & _)]; [lia|done]. }
    assert (~ holds_lease lease (committed s4)) as Hno.
    { intros (row & Hr & _ & Htok). rewrite Hlease in Hr. cbn in Hr.
      assert (row = row4) as -> by congruence. lia. }
    split_and!; [done|intros; by apply refused_without_lease..].
Qed.
End fencing.

(** ** What the intake leaves *)

Section intake_runs.
Context {R : Type} `{Postgres R} `{U256Lib} `{UuidLib} `{TimeLib} `{NumericText}.

(** C12: Intake appends, once and under its own name.  A call that succeeds
    keeps every observation there was, and every reading of its batch is then
    in the table; the report counts exactly the rows that were added, the
    others having been there under the same source and claim; every new row
    is a reading of the batch with the session's own role as its principal.
    Taking the same readings in again, in any batch, adds nothing. *)
Theorem intake_appends_once source lease observations cursor s report s1 :
  Z.of_nat (length observations) <= U32_MAX ->
  pg_record_observations source lease observations cursor s = (Ok report, s1) ->
  let before := chain_observations (committed s) in let after := chain_observations (committed s1) in
  before ⊆ after
  /\ ir_recorded report + ir_duplicates report = Z.of_nat (length observations)
  /\ Z.of_nat (size after) = Z.of_nat (size before) + ir_recorded report
  /\ (forall observation, observation ∈ observations -> exists id row, after !! id = Some row
        /\ ob_source_id row = cs_id source /\ ob_semantic_hash row = ro_semantic_hash observation)
  /\ (forall id row, after !! id = Some row -> before !! id = None ->
        exists observation, observation ∈ observations /\ row = observation_row session_user source observation)
  /\ (claims_unique before -> claims_unique after)
  /\ forall again lease' cursor' s2 report' s3, chain_observations (committed s1) ⊆ chain_observations (committed s2) ->
     again ⊆ observations -> Z.of_nat (length again) <= U32_MAX ->
     pg_record_observations source lease' again cursor' s2 = (Ok report', s3) ->
     ir_recorded report' = 0 /\ chain_observations (committed s3) = chain_observations (committed s2).
Proof.
  intros Hlen Hrec before after.
  pose proof (pg_record_observations_transacts source lease observations cursor Hlen _ _ _ s eq_refl eq_refl eq_refl) as Ht.
  rewrite Hrec in Ht. cbn in Ht. destruct (intake_commit_tables _ _ _ _ _ _ _ Ht) as (table & cursors & Hdb & T).
  assert (after = table) as -> by (unfold after; by rewrite Hdb).
  destruct T as [Tk Tn _ Ts Tz (Tc & _ & _) Tu]. cbn in *. split_and!; try done.
  intros again lease' cursor' s2 report' s3 Hsub Hagain Hlen' Hrec'.
  pose proof (pg_record_observations_transacts source lease' again cursor' Hlen' _ _ _ s2 eq_refl eq_refl eq_refl) as Ht'.
  rewrite Hrec' in Ht'. cbn in Ht'. destruct (intake_commit_known _ _ _ _ _ _ _ Ht') as [? ?]; [|done].
  intros o Ho%Hagain. destruct (Ts o Ho) as (id & row & Hrow & ? & ?). exists id, row.
  split_and!; [|done..]. rewrite Hdb in Hsub. cbn in Hsub. by eapply lookup_weaken.
Qed.

(** Calls of lanes that count blocks or milliseconds, with a position the code
    accepts. *)
Inductive lane_call : Session R -> Session R -> Prop :=
  | lane_record source lease observations cursor s :
      Z.of_nat (length observations) <= U32_MAX ->
      (forall collector kind position, cursor = Some (collector, kind, position) ->
         exists unit value hash token, CursorKind_is_numeric unit = true
           /\ CursorPosition_new unit value hash token = Ok position) ->
      lane_call s (pg_record_observations source lease observations cursor s).2.

Definition counted (row : CursorRow) : Prop := cu_cursor_value row <> "" /\ all_digits (cu_cursor_value row) = true.
Definition cursor_place (row : CursorRow) : Z := digits_value 0 (cu_cursor_value row).

(** A cursor after a run: where it was or further on, and untouched by a role
    that does not speak for its source. *)
Definition cursors_carried (db db' : Database) : Prop :=
  chain_sources db' = chain_sources db
  /\ forall key row, chain_cursors db !! key = Some row -> exists row', chain_cursors db' !! key = Some row'
     /\ cu_fence_token row <= cu_fence_token row' /\ cursor_place row <= cursor_place row'
     /\ (speaks_for session_user key.1.1 db = false -> row' = row).

Lemma cursors_carried_same db db' :
  chain_sources db' = chain_sources db -> chain_cursors db' = chain_cursors db -> cursors_carried db db'.
Proof. intros Es Ec. split; [done|]. intros key row Hrow. exists row. by rewrite Ec. Qed.
Lemma cursors_carried_trans db1 db2 db3 :
  cursors_carried db1 db2 -> cursors_carried db2 db3 -> cursors_carried db1 db3.
Proof.
  intros [E1 C1] [E2 C2]. split; [congruence|]. intros key row Hrow.
  destruct (C1 key row Hrow) as (row2 & Hrow2 & ? & ? & K2). destruct (C2 key row2 Hrow2) as (row3 & Hrow3 & ? & ? & K3).
  exists row3. split_and!; [done|lia..|]. intros Hs. rewrite <- (K2 Hs). apply K3. unfold speaks_for in *. by rewrite E1.
Qed.

Lemma position_counted unit value hash token position now :
  CursorKind_is_numeric unit = true -> CursorPosition_new unit value hash token = Ok position ->
  CursorKind_is_numeric (cp_kind position) = true /\ counted (position_row position now).
Proof.
  unfold CursorPosition_new. intros Hn. rewrite Hn. intros Hp. inv_res. bool_to_prop. split; [done|]. split; [done|].
  by bool_to_prop.
Qed.

Lemma lane_commit_carried source lease observations cursor db report db' :
  (forall collector kind position, cursor = Some (collector, kind, position) ->
     exists unit value hash token, CursorKind_is_numeric unit = true
       /\ CursorPosition_new unit value hash token = Ok position) ->
  map_Forall (fun _ => counted) (chain_cursors db) ->
  intake_commit source lease observations cursor db report db' ->
  map_Forall (fun _ => counted) (chain_cursors db') /\ cursors_carried db db'.
Proof.
  intros Hpos Hall (_ & table & _ & Hdb).
  destruct cursor as [[[collector kind] position]|]; cbn zeta in Hdb; [destruct (ir_cursor_advanced report)|].
  2-3: rewrite Hdb; split; [done|by apply cursors_carried_same].
  destruct Hdb as (now & -> & Hspeak & Hmoved). set (key := (cs_id source, _, _)) in *.
  destruct (Hpos collector kind position eq_refl) as (unit & value & hash & token & Hnum & Hnew).
  destruct (position_counted _ _ _ _ _ now Hnum Hnew) as [Hkind Hcount]. split; [by apply map_Forall_insert_2|].
  split; [done|]. intros key' row Hrow. cbn. destruct (decide (key = key')) as [<-|Hne].
  - rewrite lookup_insert_eq. eexists. split; [done|]. destruct (Hmoved row Hrow) as [Hf Hv]. specialize (Hv Hkind).
    destruct (Hall key row Hrow) as [H1' H2'], Hcount as [H3' H4']. rewrite numeric_le_digits in Hv by done.
    injection Hv as Hv. bool_to_prop. split_and!; [done|done|]. rewrite Hspeak. done.
  - rewrite lookup_insert_ne by done. by exists row.
Qed.

(** C13: A recovery point never moves back.  Through any calls of lanes that
    count blocks or milliseconds, however they end, a stored cursor keeps its
    key, its fence token and its position never decrease, and a role that
    does not speak for the source leaves it exactly as it was. *)
Theorem cursor_never_moves_back s s' :
  map_Forall (fun _ => counted) (chain_cursors (committed s)) -> rtc lane_call s s' ->
  map_Forall (fun _ => counted) (chain_cursors (committed s')) /\ cursors_carried (committed s) (committed s').
Proof.
  intros Hall Hr. induction Hr as [s|s1 s2 s3 Hc _ IH]; [by split; [|apply cursors_carried_same]|].
  assert (map_Forall (fun _ => counted) (chain_cursors (committed s2)) /\ cursors_carried (committed s1) (committed s2))
    as [Hall2 C2].
  { destruct Hc as [source lease observations cursor s Hlen Hpos].
    pose proof (pg_record_observations_transacts source lease observations cursor Hlen _ _ _ s eq_refl eq_refl eq_refl) as Ht.
    destruct (pg_record_observations source lease observations cursor s) as [[report|e] s2]; cbn in *;
      [by eapply lane_commit_carried|].
    destruct Ht as [->|[report Ht]]; [by split; [|apply cursors_carried_same]|by eapply lane_commit_carried]. }
  destruct (IH Hall2) as [Hall3 C3]. split; [done|]. by eapply cursors_carried_trans.
Qed.
End intake_runs.

(** ** A watched collector *)

Import ReferenceInstances.
#[local] Existing Instance quiet_postgres.

(** Texts of digits compare as numbers, and no other text is one. *)
#[refine, local] Instance numeric_reference : NumericText := {|
  numeric_le a b := if bool_decide (a <> "") && bool_decide (b <> "") && all_digits a && all_digits b
                    then Some (digits_value 0 a <=? digits_value 0 b) else None |}.
Proof. intros a b Ha Hb -> ->. by rewrite !bool_decide_true. Defined.

Definition watch_database : Database :=
  on_state_current (fun _ => ∅) (on_processing (fun _ => ∅) (on_attestations (fun _ => ∅) (on_transfers (fun _ => ∅)
    (on_component_leases (fun _ => ∅)
      (on_finality_policies (fun _ => {[1 := mkFinalityPolicyRow "tron" "mainnet" "mainnet" "v1" "active" 10 "finalized" 1 3600 0]})
        (on_sources (fun _ => {[1 := mkSourceRow "tron" "mainnet" "mainnet" "own" "own" "own_node" "gateway" true "active" 0]})
          (on_assets (fun _ => {[7 := mkAssetRow "tron" "mainnet" "mainnet" (repeat x01 20) "USDT" 6 "active"]})
            (on_collectors (fun _ => {[8 := mkCollectorRow 7 (repeat x03 20) "TTo" "active" 0 (Some 1)]})
              sample_database)))))))).
Definition watch_session : Session Z := mkSession watch_database watch_database 0 1.

Definition seen_transfer : ObservedTransfer := {|
  ot_chain := "tron"; ot_network := "mainnet"; ot_chain_environment := Mainnet;
  ot_tx_hash := mkTxHash "abcdef01"; ot_event_index := 0; ot_block_number := Some 100;
  ot_block_hash := Some "block-1"; ot_parent_hash := Some "block-0"; ot_block_time := Some 0;
  ot_token_key := mkAddressKey (repeat x01 20); ot_token_display := "USDT";
  ot_from_address := mkAddressKey (repeat x02 20); ot_from_address_text := "TFrom";
  ot_to_address := mkAddressKey (repeat x03 20); ot_to_address_text := "TTo";
  ot_amount_raw := mkRawAmount 1000; ot_decimals := 6; ot_memo := None;
  ot_execution_status := Success; ot_source_finality := SrcFinalized; ot_source_head := Some 120;
  ot_evidence_sha256 := "0000000000000000000000000000000000000000000000000000000000000000"; ot_evidence_uri := None |}.
Definition seen_observation : ResolvedObservation := {|
  ro_transfer := seen_transfer; ro_kind := TargetedLookup; ro_collector_address_id := 8; ro_asset_id := Some 7;
  ro_semantic_hash := repeat x00 32; ro_observer_version := "o1"; ro_parser_version := "p1"; ro_fence_token := 1;
  ro_observed_at := 60 |}.
Definition watch_lease : ComponentLease := mkComponentLease "observer" "a" 1 1000000000050.
Definition lane_position (place : string) : CursorPosition := mkCursorPosition CursorBlock place None 1.
Definition seen_verdict : VerifiedTransfer := {|
  vt_transfer := {| ct_asset_id := 7; ct_collector_address_id := 8; ct_chain := "tron"; ct_network := "mainnet";
    ct_chain_environment := Mainnet; ct_tx_hash := mkTxHash "abcdef01"; ct_event_index := 0; ct_block_number := 100;
    ct_block_hash := "block-1"; ct_block_time := 0; ct_token_key := mkAddressKey (repeat x01 20);
    ct_from_address := mkAddressKey (repeat x02 20); ct_from_address_text := "TFrom";
    ct_to_address := mkAddressKey (repeat x03 20); ct_to_address_text := "TTo"; ct_amount_raw := mkRawAmount 1000;
    ct_decimals := 6; ct_memo := None |};
  vt_attestations := [(1, Reverify)]; vt_independent_groups := 1; vt_had_own_node := true; vt_state := Finalized;
  vt_confirmations := 20; vt_policy_version := "v1"; vt_discarded := [] |}.

Definition held_session : Session Z := (pg_acquire_component_lease "observer" "a" 1000 50 watch_session).2.
Definition seen_session : Session Z :=
  (pg_record_observations sample_source watch_lease [seen_observation] (Some (8, CursorScan, lane_position "100")) held_session).2.
Definition moved_session : Session Z :=
  (pg_record_observations sample_source watch_lease [seen_observation] (Some (8, CursorScan, lane_position "102")) seen_session).2.
Definition verified_session : Session Z :=
  (pg_commit_verdict watch_lease sample_event (Verified seen_verdict) 1 "v1" 70 seen_session).2.

Lemma watch_walked : walked watch_database.
Proof.
  intros id. unfold on_course, history.
  cbn [chain_transfers chain_transfer_state_current chain_transfer_processing chain_transfer_state_events watch_database
    on_state_current on_processing on_attestations on_transfers on_component_leases on_finality_policies on_sources
    on_assets on_collectors sample_database].
  rewrite !lookup_empty. split_and!; [done..|]. intros version. by rewrite lookup_empty.
Qed.

Lemma watch_run : rtc evidence_call watch_session verified_session.
Proof.
  apply (rtc_l _ watch_session held_session verified_session).
  { exact (call_acquire "observer" "a" 1000 50 watch_session). }
  apply (rtc_l _ held_session seen_session verified_session).
  { refine (call_record sample_source watch_lease [seen_observation] (Some (8, CursorScan, lane_position "100")) held_session _).
    cbn. unfold U32_MAX. lia. }
  apply rtc_once. exact (call_verdict watch_lease sample_event (Verified seen_verdict) 1 "v1" 70 seen_session).
Qed.

(** A transfer is created and walks to finalized in one verdict. *)
Lemma transfer_states_walk_forward_witness :
  walked (committed verified_session) /\ history (committed verified_session) 2 3 = Some (Some "confirmed", "finalized").
Proof.
  split; [|vm_compute; reflexivity].
  exact (proj1 (transfer_states_walk_forward watch_session verified_session watch_walked watch_run)).
Defined.

Lemma intake_appends_once_witness :
  exists report, pg_record_observations sample_source watch_lease [seen_observation] None held_session
      = (Ok report, (pg_record_observations sample_source watch_lease [seen_observation] None held_session).2)
    /\ ir_recorded report = 1 /\ ir_recorded report + ir_duplicates report = 1.
Proof.
  destruct (pg_record_observations sample_source watch_lease [seen_observation] None held_session) as [[report|e] s1] eqn:Hr.
  2:{ assert ((pg_record_observations sample_source watch_lease [seen_observation] None held_session).1
        = Ok (mkIntakeReport 1 0 0 false)) as Hx by (vm_compute; reflexivity). rewrite Hr in Hx. discriminate Hx. }
  exists report. split; [exact eq_refl|].
  assert ((pg_record_observations sample_source watch_lease [seen_observation] None held_session).1
    = Ok (mkIntakeReport 1 0 0 false)) as Hx by (vm_compute; reflexivity).
  rewrite Hr in Hx. cbn in Hx. injection Hx as Hx. split; [by rewrite Hx|].
  assert (Z.of_nat (length [seen_observation]) <= U32_MAX) as Hlen by (cbn; unfold U32_MAX; lia).
  exact (proj1 (proj2 (intake_appends_once sample_source watch_lease [seen_observation] None held_session report s1 Hlen Hr))).
Defined.

(** The lane moves from block 100 to block 102. *)
Lemma cursor_never_moves_back_witness :
  exists row, chain_cursors (committed moved_session) !! (1, "cursor_scan", 8) = Some row
    /\ cu_cursor_value row = "102" /\ 100 <= cursor_place row.
Proof.
  assert (map_Forall (fun _ => counted) (chain_cursors (committed seen_session))) as Hall.
  { assert (chain_cursors (committed seen_session) = {[(1, "cursor_scan", 8) := mkCursorRow "block" "100" None 1 100]}) as ->
      by (vm_compute; reflexivity).
    intros key row [<- <-]%lookup_singleton_Some. by split. }
  assert (rtc lane_call seen_session moved_session) as Hrun.
  { apply rtc_once.
    refine (lane_record sample_source watch_lease [seen_observation] (Some (8, CursorScan, lane_position "102")) seen_session _ _).
    - cbn. unfold U32_MAX. lia.
    - intros collector kind position [= <- <- <-]. by exists CursorBlock, "102", None, 1. }
  assert (chain_cursors (committed seen_session) !! (1, "cursor_scan", 8) = Some (mkCursorRow "block" "100" None 1 100)) as Hs
    by (vm_compute; reflexivity).
  destruct (cursor_never_moves_back seen_session moved_session Hall Hrun) as [_ [_ Hc]].
  destruct (Hc _ _ Hs) as (row & Hrow & _ & Hplace & _). exists row. split; [exact Hrow|].
  assert (chain_cursors (committed moved_session) !! (1, "cursor_scan", 8) = Some (mkCursorRow "block" "102" None 1 100)) as Hm
    by (vm_compute; reflexivity).
  rewrite Hm in Hrow. injection Hrow as <-. split; [exact eq_refl|exact Hplace].
Defined.

(** The lease of [a] has run out and [b] has it: [a] records nothing. *)
Definition taken_session : Session Z := (pg_acquire_component_lease "observer" "b" 1000 2000000000000 held_session).2.
Lemma replaced_holder_writes_nothing_witness :
  exists lease taken,
    pg_acquire_component_lease "observer" "a" 1000 50 watch_session = (Ok (Some lease), held_session)
    /\ pg_acquire_component_lease "observer" "b" 1000 2000000000000 held_session = (Ok (Some taken), taken_session)
    /\ cl_fence_token lease = 1 /\ cl_fence_token taken = 2
    /\ refused (pg_record_observations sample_source lease [seen_observation] None) taken_session.
Proof.
  exists watch_lease, (mkComponentLease "observer" "b" 2 3000000000000).
  assert (pg_acquire_component_lease "observer" "a" 1000 50 watch_session = (Ok (Some watch_lease), held_session)) as Ha.
  { unfold held_session.
    assert ((pg_acquire_component_lease "observer" "a" 1000 50 watch_session).1 = Ok (Some watch_lease)) as <-
      by (vm_compute; reflexivity). apply surjective_pairing. }
  assert (pg_acquire_component_lease "observer" "b" 1000 2000000000000 held_session
    = (Ok (Some (mkComponentLease "observer" "b" 2 3000000000000)), taken_session)) as Hb.
  { unfold taken_session.
    assert ((pg_acquire_component_lease "observer" "b" 1000 2000000000000 held_session).1
      = Ok (Some (mkComponentLease "observer" "b" 2 3000000000000))) as <- by (vm_compute; reflexivity).
    apply surjective_pairing. }
  split; [exact Ha|]. split; [exact Hb|]. split; [exact eq_refl|]. split; [exact eq_refl|].
  destruct (replaced_holder_writes_nothing "observer" "a" 1000 50 watch_session watch_lease held_session Ha) as [_ Hf].
  destruct (Hf held_session "b" 1000 2000000000000 _ taken_session taken_session (rtc_refl _ _) ltac:(discriminate) Hb
    (rtc_refl _ _)) as (_ & Hrec & _).
  apply Hrec.
Defined.
