(* ===== verification/EvidenceTruth.v ===== *)
(** * What stands behind a canonical transfer

    The verification service over PostgreSQL: every transfer it makes
    canonical, and with it everything settlement may act on, rests on stored
    readings that were written by their sources' own roles and agree with it,
    with the verifier's own among them and from enough provider groups. *)

From Stdlib Require Import Ascii String Strings.Byte.
From stdpp Require Import gmap.
From S2P Require Import Prelude RustStd Externals Effects Money Chain Observations Verification VerificationService.
From S2P Require Import Settlement SettlementService Database StorageSettlement SettlementBooks Operations StorageOperations OperationsBooks StorageObservations StorageVerification EvidenceBooks.

Local Open Scope Z_scope.

(** ** Readings and rows *)

(** A stored hash that reads back as itself. *)
Definition normal_key (key : EventKey) : Prop :=
  let '(_, _, _, tx_hash, _) := key in TxHash_new tx_hash = Ok (mkTxHash tx_hash).

(** What a reading says of the row it was read from. *)
Record read_from (id : Z) (row : ObservationRow) (source : SourceRow) (r : EvidenceReading) : Prop := {
  rf_id : er_observation_id r = id;
  rf_group : er_provider_group r = so_provider_group source;
  rf_principal : er_source_principal r = ob_source_principal row;
  rf_declared : er_declared_principal r = so_db_principal source;
  rf_kind : ObservationKind_as_str (er_kind r) = ob_observation_kind row;
  rf_status : ExecutionStatus_as_str (ot_execution_status (er_transfer r)) = ob_execution_status row;
  rf_amount : as_u256 (ot_amount_raw (er_transfer r)) = ob_amount_raw row /\ RawAmount_wf (ot_amount_raw (er_transfer r));
  rf_token : AddressKey_as_bytes (ot_token_key (er_transfer r)) = ob_token_key row;
  rf_to : AddressKey_as_bytes (ot_to_address (er_transfer r)) = ob_to_address_key row;
  rf_memo : Memo_as_str <$> ot_memo (er_transfer r) = trim <$> ob_memo row
    /\ forall m, ot_memo (er_transfer r) = Some m -> Memo_wf m;
  rf_event : normal_key (ob_event row) -> event_key (er_transfer r) = ob_event row;
}.

Section readings.
Context `{U256Lib} `{TimeLib} `{UuidLib}.

Lemma memo_read memo r :
  match memo with Some memo => memo ← Memo_new memo; Ok (Some memo) | None => Ok None end = Ok r ->
  Memo_as_str <$> r = trim <$> memo /\ forall m, r = Some m -> Memo_wf m.
Proof.
  destruct memo as [m|]; [|by intros [= <-]]. intros (memo & Hm & [= <-])%res_bind_Ok. split.
  - unfold Memo_new in Hm. by inv_res.
  - intros ? [= <-]. by eapply Memo_new_wf.
Qed.

Lemma amount_read z a : RawAmount_from_str (numeric_text z) = Ok a -> as_u256 a = z /\ RawAmount_wf a.
Proof.
  intros Ha. destruct (parse_numeric z a) as [Hz Hr].
  - unfold parse_raw. by rewrite Ha.
  - split; [done|]. unfold RawAmount_wf, is_u256. lia.
Qed.

Lemma EvidenceReading_reads id row source r :
  EvidenceReading_try_from (id, row, source) = Ok r -> read_from id row source r.
Proof.
  unfold EvidenceReading_try_from. destruct (ob_event row) as [[[[chain network] environment] tx] index] eqn:He.
  intros (env & Henv%map_err_Ok & Hr)%res_bind_Ok. apply res_bind_Ok in Hr as (h & Hh%map_err_Ok & Hr).
  apply res_bind_Ok in Hr as (token & [-> _]%map_err_Ok%AddressKey_new_Ok & Hr).
  apply res_bind_Ok in Hr as (from_ & _ & Hr).
  apply res_bind_Ok in Hr as (to & [-> _]%map_err_Ok%AddressKey_new_Ok & Hr).
  apply res_bind_Ok in Hr as (amount & Ha%map_err_Ok%amount_read & Hr).
  apply res_bind_Ok in Hr as (memo & Hm%map_err_Ok%memo_read & Hr).
  apply res_bind_Ok in Hr as (status & Hs%map_err_Ok & Hr).
  apply res_bind_Ok in Hr as (finality & _ & Hr).
  apply res_bind_Ok in Hr as (kind & Hk%map_err_Ok & [= <-]).
  split; cbn; try done.
  - symmetry. exact (text_parse_sound (E := ChainError) (A := ObservationKind) (ob_observation_kind row) kind Hk).
  - symmetry. exact (text_parse_sound (E := ChainError) (A := ExecutionStatus) (ob_execution_status row) status Hs).
  - rewrite He. unfold normal_key. intros Hn. rewrite Hn in Hh. injection Hh as <-.
    assert (environment = ChainEnvironment_as_str env) as ->; [|done].
    exact (text_parse_sound (E := ChainError) (A := ChainEnvironment) environment env Henv).
Qed.

(** The evidence of an event is exactly what is stored for it. *)
Lemma evidence_rows_spec key db id row source :
  (id, row, source) ∈ evidence_rows key db <-> chain_observations db !! id = Some row /\ ob_event row = key
    /\ chain_sources db !! ob_source_id row = Some source.
Proof.
  unfold evidence_rows. rewrite sort_by_perm, list_elem_of_omap. split.
  - intros ([i o] & Hin%elem_of_map_to_list & Ho). case_bool_decide as Hk; [|done].
    apply fmap_Some_1 in Ho as (src & Hsrc & [= -> -> ->]). done.
  - intros (Hrow & Hk & Hsrc). exists (id, row). split; [by apply elem_of_map_to_list|].
    rewrite bool_decide_true by done. by rewrite Hsrc.
Qed.

Definition evidence_from (db : Database) (key : EventKey) (evidence : list EvidenceReading) : Prop :=
  collect EvidenceReading_try_from (evidence_rows key db) = Ok evidence.

Lemma evidence_from_elem db key evidence r :
  evidence_from db key evidence -> r ∈ evidence ->
  exists id row source, chain_observations db !! id = Some row /\ ob_event row = key
    /\ chain_sources db !! ob_source_id row = Some source /\ read_from id row source r.
Proof.
  intros He%collect_Ok Hr. apply list_elem_of_lookup in Hr as [i Hi].
  destruct (Forall2_lookup_r _ _ _ _ _ He Hi) as ([[id row] source] & Hin & Hread).
  apply list_elem_of_lookup_2, evidence_rows_spec in Hin as (? & ? & ?). exists id, row, source.
  split_and!; [done..|]. by apply EvidenceReading_reads.
Qed.

Lemma evidence_from_complete db evidence id row source :
  evidence_from db (ob_event row) evidence -> chain_observations db !! id = Some row ->
  chain_sources db !! ob_source_id row = Some source -> exists r, r ∈ evidence /\ read_from id row source r.
Proof.
  intros He%collect_Ok Hrow Hsrc.
  assert ((id, row, source) ∈ evidence_rows (ob_event row) db) as Hin by by apply evidence_rows_spec.
  apply list_elem_of_lookup in Hin as [i Hi]. destruct (Forall2_lookup_l _ _ _ _ _ He Hi) as (r & Hr & Hread).
  exists r. split; [by eapply list_elem_of_lookup_2|by apply EvidenceReading_reads].
Qed.

(** Readings that do not conflict agree on the money. *)
Lemma no_conflict_money l a b :
  (forall r, r ∈ l -> RawAmount_wf (ot_amount_raw (er_transfer r))
     /\ forall m, ot_memo (er_transfer r) = Some m -> Memo_wf m) ->
  find_conflicts l = [] -> a ∈ l -> b ∈ l ->
  ot_amount_raw (er_transfer a) = ot_amount_raw (er_transfer b)
  /\ ot_to_address (er_transfer a) = ot_to_address (er_transfer b)
  /\ ot_token_key (er_transfer a) = ot_token_key (er_transfer b)
  /\ ot_memo (er_transfer a) = ot_memo (er_transfer b).
Proof.
  intros Hwf Hno%find_conflicts_nil Ha Hb. destruct (Hwf a Ha) as [Ha1 Ha2], (Hwf b Hb) as [Hb1 Hb2].
  unfold COMPARED_FIELDS in Hno. rewrite !Forall_cons in Hno. simpl in Hno.
  destruct Hno as (A1 & A2 & A3 & _ & A5 & _). split_and!.
  - eapply RawAmount_to_string_inj; [done..|]. by apply (A1 a b).
  - apply AddressKey_to_hex_inj. by apply (A2 a b).
  - apply AddressKey_to_hex_inj. by apply (A3 a b).
  - apply memo_text_inj; [done..|]. by apply (A5 a b).
Qed.
End readings.

(** ** What a transfer rests on *)

(** A reading, written by the role of its source, of the transfer as it is. *)
Definition supports (source : SourceRow) (observation : ObservationRow) (row : TransferRow) : Prop :=
  ob_event observation = tr_event row /\ ob_source_principal observation = so_db_principal source
  /\ ob_execution_status observation = "success" /\ ob_amount_raw observation = tr_amount_raw row
  /\ ob_to_address_key observation = tr_to_address_key row /\ ob_token_key observation = tr_token_key row
  /\ trim <$> ob_memo observation = tr_memo row.
Definition stands_on (db : Database) (row : TransferRow) (attestation : AttestationRow) : Prop :=
  exists observation source, chain_observations db !! an_observation_id attestation = Some observation
    /\ chain_sources db !! ob_source_id observation = Some source
    /\ an_provider_group attestation = so_provider_group source /\ an_source_kind attestation = so_kind source
    /\ supports source observation row.
(** One of the readings is of the kind the verifier's own lookup records.  The
    rule asks for no more: which source the lookup went to is not looked at
    (the observers' batches record another kind, [CursorScan]). *)
Definition reread_by_verifier (db : Database) (id : Z) : Prop :=
  exists a attestation observation, chain_transfer_attestations db !! a = Some attestation
    /\ an_transfer_id attestation = id
    /\ chain_observations db !! an_observation_id attestation = Some observation
    /\ ob_observation_kind observation = "targeted_lookup".
(** The provider groups settlement counts. *)
Definition groups_of (db : Database) (id : Z) : Z :=
  distinct_count (map (fun entry => an_provider_group (snd entry)) (attestations_of db id)).
Definition policy_for (db : Database) (key : EventKey) (policy : FinalityPolicyRow) : Prop :=
  let '(chain, network, environment, _, _) := key in
  fi_chain policy = chain /\ fi_network policy = network /\ fi_chain_environment policy = environment
  /\ fi_status policy = "active" /\ exists id, chain_finality_policies db !! id = Some policy.

Record backed (db : Database) : Prop := {
  bk_unique : forall i j a b, chain_transfers db !! i = Some a -> chain_transfers db !! j = Some b ->
    tr_event a = tr_event b -> i = j;
  bk_known : forall a attestation, chain_transfer_attestations db !! a = Some attestation ->
    exists row, chain_transfers db !! an_transfer_id attestation = Some row /\ stands_on db row attestation;
  bk_proven : forall id row, chain_transfers db !! id = Some row -> reread_by_verifier db id
    /\ exists policy, policy_for db (tr_event row) policy /\ fi_min_independent_groups policy <= groups_of db id;
  bk_normal : map_Forall (fun _ observation => normal_key (ob_event observation)) (chain_observations db);
}.

(** More observations, and nothing else a transfer rests on. *)
Definition grown (db db' : Database) : Prop :=
  exists table cursors, db' = on_cursors (fun _ => cursors) (on_observations (fun _ => table) db)
    /\ chain_observations db ⊆ table.
Lemma grown_refl db : grown db db.
Proof. exists (chain_observations db), (chain_cursors db). by destruct db. Qed.
Lemma grown_trans db1 db2 db3 : grown db1 db2 -> grown db2 db3 -> grown db1 db3.
Proof. intros (t & c & -> & Ht) (t' & c' & -> & Ht'). exists t', c'. split; [done|]. by etransitivity. Qed.

Lemma backed_grown db db' :
  grown db db' -> map_Forall (fun _ o => normal_key (ob_event o)) (chain_observations db') -> backed db -> backed db'.
Proof.
  intros (table & cursors & -> & Hsub) Hn [U K P _]. cbn in *. split; cbn; try done.
  - intros a att Ha. destruct (K a att Ha) as (row & Hrow & o & src & Ho & Hs). exists row. split; [done|].
    exists o, src. split; [by eapply lookup_weaken|done].
  - intros id row Hrow. destruct (P id row Hrow) as [(a & att & o & Ha & Hid & Ho & Hk) Hpol]. split; [|done].
    exists a, att, o. split_and!; [done|done|by eapply lookup_weaken|done].
Qed.

(** ** Attestations *)

Lemma distinct_count_mono (l k : list string) : l ⊆ k -> distinct_count l <= distinct_count k.
Proof. intros Hsub. unfold distinct_count. apply inj_le, subseteq_size. set_solver. Qed.

Lemma groups_of_mono db db' id :
  chain_transfer_attestations db ⊆ chain_transfer_attestations db' -> groups_of db id <= groups_of db' id.
Proof.
  intros Hsub. apply distinct_count_mono. intros g. unfold attestations_of. rewrite !list_elem_of_fmap.
  intros ([a att] & -> & [Hid Hin%elem_of_map_to_list]%list_elem_of_filter). exists (a, att). split; [done|].
  apply list_elem_of_filter. split; [done|]. by eapply elem_of_map_to_list, lookup_weaken.
Qed.

(** What attesting some readings did. *)
Record attesting (id : Z) (ids : list Z) (db : Database) (before after : gmap Z AttestationRow) : Prop := {
  ag_kept : before ⊆ after;
  ag_new : forall a attestation, after !! a = Some attestation -> before !! a = None ->
    an_transfer_id attestation = id /\ an_observation_id attestation ∈ ids
    /\ exists observation source, chain_observations db !! an_observation_id attestation = Some observation
         /\ chain_sources db !! ob_source_id observation = Some source
         /\ an_provider_group attestation = so_provider_group source /\ an_source_kind attestation = so_kind source;
  ag_all : forall o observation, o ∈ ids -> chain_observations db !! o = Some observation ->
    is_Some (chain_sources db !! ob_source_id observation) ->
    exists a attestation, after !! a = Some attestation /\ an_observation_id attestation = o;
}.

Lemma attested_attesting id version t l db db' :
  attested id version t l db db' ->
  attesting id l.*1 db (chain_transfer_attestations db) (chain_transfer_attestations db').
Proof.
  intros Hat. induction Hat as [db|seen o role a db db1 db2 Hat IH Hins].
  { split; [done|congruence|]. intros o observation Ho. by apply elem_of_nil in Ho. }
  destruct (attested_frame _ _ _ _ _ _ Hat) as [table ->]. destruct IH as [Kk Kn Ka]. cbn in Kk, Kn, Ka.
  rewrite fmap_app. cbn [fmap list_fmap fst].
  assert (forall b att (m : gmap Z AttestationRow), m !! b = Some att -> chain_transfer_attestations db !! b = None -> m = table ->
    an_transfer_id att = id /\ an_observation_id att ∈ seen.*1 ++ [o]
    /\ exists observation source, chain_observations db !! an_observation_id att = Some observation
         /\ chain_sources db !! ob_source_id observation = Some source
         /\ an_provider_group att = so_provider_group source /\ an_source_kind att = so_kind source) as Hold.
  { intros b att m Hb Hnone ->. destruct (Kn b att Hb Hnone) as (? & ? & ?). split_and!; [done|set_solver|done]. }
  unfold insert_attestation in Hins. cbn in Hins.
  destruct (chain_observations db !! o) as [observation|] eqn:Ho.
  2:{ injection Hins as <-. cbn. split; [done|by intros; eapply Hold|].
      intros o' obs [Hin| ->%list_elem_of_singleton]%elem_of_app Hobs; [by eapply Ka|congruence]. }
  destruct (chain_sources db !! ob_source_id observation) as [source|] eqn:Hs.
  2:{ injection Hins as <-. cbn. split; [done|by intros; eapply Hold|].
      intros o' obs [Hin| ->%list_elem_of_singleton]%elem_of_app Hobs; [by eapply Ka|].
      assert (obs = observation) as -> by congruence. rewrite Hs. by intros [? ?]. }
  destruct (find_where _ table) as [[b att]|] eqn:Hf; cbn in Hins.
  - injection Hins as <-. cbn. split; [done|by intros; eapply Hold|].
    intros o' obs [Hin| ->%list_elem_of_singleton]%elem_of_app Hobs; [by eapply Ka|]. intros _.
    apply find_where_Some in Hf as [Hb Heq]. bool_to_prop. by exists b, att.
  - apply res_bind_Ok in Hins as ([] & Hfree%guard_err_Ok%is_row_false & Hins). cbn in Hfree.
    apply res_bind_Ok in Hins as ([] & _ & [= <-]). cbn. split.
    + etransitivity; [done|]. by apply insert_subseteq.
    + intros b att [[<- <-]|[Hne Hb]]%lookup_insert_Some Hnone; [|by eapply Hold].
      cbn. split_and!; [done|set_solver|]. by exists observation, source.
    + intros o' obs [Hin| ->%list_elem_of_singleton]%elem_of_app Hobs Hsrc.
      * destruct (Ka o' obs Hin Hobs Hsrc) as (b & att & Hb & ?). exists b, att. split; [|done].
        rewrite lookup_insert_ne; [done|]. intros ->. congruence.
      * intros. eexists a, _. by rewrite lookup_insert_eq.
Qed.

(** ** A verdict rests on what was read *)

Section verdicts.
Context `{U256Lib} `{TimeLib} `{UuidLib}.

(** The policy a verdict was taken under is the stored one. *)
Definition policy_from (db : Database) (event : ChainEventKey) (policy : FinalityPolicy) : Prop :=
  exists row, policy_for db (stored_key event) row /\ fp_min_independent_groups policy = fi_min_independent_groups row.

(** A genuine reading of the evidence, with its row. *)
Definition accepted_row (db : Database) (event : ChainEventKey) (r : EvidenceReading) (id : Z)
    (observation : ObservationRow) (source : SourceRow) : Prop :=
  chain_observations db !! id = Some observation /\ ob_event observation = stored_key event
  /\ chain_sources db !! ob_source_id observation = Some source /\ read_from id observation source r
  /\ ob_source_principal observation = so_db_principal source.

Context (db0 db : Database) (event : ChainEventKey) (evidence : list EvidenceReading)
  (policy : FinalityPolicy) (now : Z) (v : VerifiedTransfer).
Context (B0 : backed db0) (G : grown db0 db) (He : evidence_from db0 (stored_key event) evidence)
  (Hp : policy_from db event policy) (Hv : verify evidence policy now = Ok (Verified v)).
Let A := filter (fun r => genuine r) evidence.

Lemma accepted_has_row r : r ∈ A -> exists id observation source, accepted_row db event r id observation source.
Proof.
  intros [Hr Hg]%genuine_elem. destruct (evidence_from_elem _ _ _ _ He Hr) as (id & row & src & Hrow & Hk & Hs & Hread).
  destruct G as (table & cursors & -> & Hsub). exists id, row, src. split_and!; [by eapply lookup_weaken|done..|].
  by rewrite <- (rf_principal _ _ _ _ Hread), Hg, (rf_declared _ _ _ _ Hread).
Qed.

Lemma accepted_agree a b : a ∈ A -> b ∈ A ->
  ot_amount_raw (er_transfer a) = ot_amount_raw (er_transfer b)
  /\ ot_to_address (er_transfer a) = ot_to_address (er_transfer b)
  /\ ot_token_key (er_transfer a) = ot_token_key (er_transfer b)
  /\ ot_memo (er_transfer a) = ot_memo (er_transfer b).
Proof.
  intros Ha Hb. pose proof (verify_Verified _ _ _ _ Hv) as [_ _ Hno _ _ _ _ _ _ _ _].
  apply (no_conflict_money A); [|done..]. intros r Hr. destruct (accepted_has_row r Hr) as (? & ? & ? & _ & _ & _ & Hread & _).
  split; [apply Hread|apply (rf_memo _ _ _ _ Hread)].
Qed.

Lemma accepted_succeeded r id observation source :
  r ∈ A -> accepted_row db event r id observation source -> ob_execution_status observation = "success".
Proof.
  intros Hr (_ & _ & _ & Hread & _). pose proof (verify_Verified _ _ _ _ Hv) as [_ _ _ Hrej _ _ _ _ _ _ _].
  apply rejection_None in Hrej. rewrite Forall_forall in Hrej. destruct (Hrej r Hr) as [Hs _].
  by rewrite <- (rf_status _ _ _ _ Hread), Hs.
Qed.

(** The reading that became the transfer. *)
Lemma canonical_reading : exists r, r ∈ A
  /\ ot_amount_raw (er_transfer r) = ct_amount_raw (vt_transfer v)
  /\ ot_to_address (er_transfer r) = ct_to_address (vt_transfer v)
  /\ ot_token_key (er_transfer r) = ct_token_key (vt_transfer v) /\ ot_memo (er_transfer r) = ct_memo (vt_transfer v)
  /\ canonical_key (vt_transfer v) = event_key (er_transfer r).
Proof.
  pose proof (verify_Verified _ _ _ _ Hv) as [_ _ _ _ _ Ht _ _ _ _ _].
  destruct (canonical_transfer_Some _ _ Ht) as
    (r & Hr & _ & _ & Hch & Hne & Hen & Htx & Hix & _ & _ & _ & Htk & Hto & Ham & Hme & _).
  exists r. split_and!; [done..|]. unfold canonical_key, event_key. congruence.
Qed.

Lemma canonical_key_stored : canonical_key (vt_transfer v) = stored_key event.
Proof.
  destruct canonical_reading as (r & Hr & _ & _ & _ & _ & ->). apply genuine_elem in Hr as [Hr _].
  destruct (evidence_from_elem _ _ _ _ He Hr) as (id & row & src & Hrow & <- & _ & Hread).
  apply (rf_event _ _ _ _ Hread). by apply (bk_normal _ B0 id row).
Qed.

(** A row that agrees with one accepted reading is supported by all. *)
Lemma accepted_supports r r' id id' observation observation' source source' row :
  r ∈ A -> r' ∈ A -> accepted_row db event r id observation source ->
  accepted_row db event r' id' observation' source' ->
  supports source' observation' row -> supports source observation row.
Proof.
  intros Hr Hr' Hrow Hrow' (S1 & _ & _ & S4 & S5 & S6 & S7).
  pose proof (accepted_succeeded _ _ _ _ Hr Hrow) as Hs.
  destruct Hrow as (_ & Hk & _ & Hread & Hg), Hrow' as (_ & Hk' & _ & Hread' & _).
  destruct (accepted_agree r r' Hr Hr') as (E1 & E2 & E3 & E4). unfold supports. split_and!; [congruence|done|done|..].
  - by rewrite <- S4, <- (proj1 (rf_amount _ _ _ _ Hread)), E1, (proj1 (rf_amount _ _ _ _ Hread')).
  - by rewrite <- S5, <- (rf_to _ _ _ _ Hread), E2, (rf_to _ _ _ _ Hread').
  - by rewrite <- S6, <- (rf_token _ _ _ _ Hread), E3, (rf_token _ _ _ _ Hread').
  - by rewrite <- S7, <- (proj1 (rf_memo _ _ _ _ Hread)), E4, (proj1 (rf_memo _ _ _ _ Hread')).
Qed.

(** A transfer that is opened is supported by every accepted reading. *)
Lemma opened_supported r id observation source version t :
  r ∈ A -> accepted_row db event r id observation source ->
  supports source observation (transfer_row (vt_transfer v) version t).
Proof.
  intros Hr Hrow. destruct canonical_reading as (c & Hc & E1 & E2 & E3 & E4 & _).
  destruct (accepted_has_row c Hc) as (cid & cobs & csrc & Hcrow). eapply (accepted_supports r c); try done.
  pose proof (accepted_succeeded _ _ _ _ Hc Hcrow) as Hs. destruct Hcrow as (_ & Hk & _ & Hread & Hg).
  unfold supports. cbn. rewrite canonical_key_stored, <- E1, <- E2, <- E3, <- E4. split_and!; [done..| | | |].
  - by rewrite (proj1 (rf_amount _ _ _ _ Hread)).
  - by rewrite (rf_to _ _ _ _ Hread).
  - by rewrite (rf_token _ _ _ _ Hread).
  - by rewrite (proj1 (rf_memo _ _ _ _ Hread)).
Qed.

(** So is one that was there: it was attested by a reading of the evidence. *)
Lemma existing_supported r id observation source tid row :
  r ∈ A -> accepted_row db event r id observation source ->
  chain_transfers db !! tid = Some row -> tr_event row = stored_key event -> supports source observation row.
Proof.
  intros Hr Hrow Htid Hev.
  assert (chain_transfers db0 = chain_transfers db /\ chain_sources db = chain_sources db0
    /\ chain_observations db0 ⊆ chain_observations db) as (Et & Es & Hsub).
  { destruct G as (table & cursors & -> & Hsub). done. }
  rewrite <- Et in Htid. destruct (bk_proven _ B0 tid row Htid) as [(a & att & o & Ha & Hid & _) _].
  destruct (bk_known _ B0 a att Ha) as (row' & Hrow' & o' & src & Ho' & Hsrc & _ & _ & Hsup).
  rewrite Hid in Hrow'. assert (row' = row) as -> by congruence.
  pose proof Hsup as (S1 & S2 & _). rewrite Hev in S1. pose proof He as He'. rewrite <- S1 in He'.
  destruct (evidence_from_complete _ _ _ _ _ He' Ho' Hsrc) as (r' & Hr' & Hread').
  eapply (accepted_supports r r' _ (an_observation_id att) _ o' _ src); try done.
  - apply genuine_elem. split; [done|]. by rewrite (rf_principal _ _ _ _ Hread'), (rf_declared _ _ _ _ Hread').
  - split_and!; [by eapply lookup_weaken|done|by rewrite Es|done|done].
Qed.

(** The transfers after the transfer was opened or found. *)
Lemma transfers_after id version t db1 outcome :
  backed db ->
  (outcome = TransferCreated id /\ created id v version t db db1)
  \/ (outcome = TransferAdvanced id /\ transfer_of (canonical_key (vt_transfer v)) db = Some id /\ db1 = db) ->
  exists row, chain_transfers db1 !! id = Some row /\ tr_event row = stored_key event
    /\ (forall i other, chain_transfers db1 !! i = Some other -> i = id \/ chain_transfers db !! i = Some other)
    /\ chain_transfers db ⊆ chain_transfers db1
    /\ (chain_transfers db !! id = Some row \/ chain_transfers db !! id = None
        /\ forall i other, chain_transfers db !! i = Some other -> tr_event other <> stored_key event)
    /\ (forall r oid observation source, r ∈ A -> accepted_row db event r oid observation source ->
          supports source observation row).
Proof.
  intros B [[_ (Hnone & Hnew & e & _ & ->)]|(_ & Hid & ->)].
  - exists (transfer_row (vt_transfer v) version t). cbn. rewrite lookup_insert_eq. split_and!.
    + done.
    + apply canonical_key_stored.
    + intros i other [[<- _]|[_ ?]]%lookup_insert_Some; [by left|by right].
    + by apply insert_subseteq.
    + right. split; [done|]. intros i other Hi. rewrite <- canonical_key_stored. by eapply transfer_of_None.
    + intros. by eapply opened_supported.
  - destruct (transfer_of_Some _ _ _ Hid) as (row & Hrow & Hev). rewrite canonical_key_stored in Hev.
    exists row. split_and!; [done..|by right|done|by left|]. intros. by eapply existing_supported.
Qed.

(** Every accepted reading is attested, with the group of its source. *)
Lemma accepted_attested id tables after r :
  backed db -> attesting id (vt_attestations v).*1 tables (chain_transfer_attestations db) after ->
  chain_observations tables = chain_observations db -> chain_sources tables = chain_sources db ->
  (forall i other, chain_transfers db !! i = Some other -> tr_event other <> stored_key event) -> r ∈ A ->
  exists a attestation, after !! a = Some attestation /\ an_transfer_id attestation = id
    /\ an_observation_id attestation = er_observation_id r /\ an_provider_group attestation = er_provider_group r.
Proof.
  intros B [Kk Kn Ka] Eo Es Hfresh Hr. rewrite Eo, Es in *.
  destruct (accepted_has_row r Hr) as (oid & obs & src & Hobs & Hk & Hsrc & Hread & _).
  destruct (Ka oid obs) as (a & att & Ha & Hatt).
  - pose proof (verify_Verified _ _ _ _ Hv) as [_ _ _ _ _ _ -> _ _ _ _]. apply attestation_roles_keys.
    exists r. split; [done|apply Hread].
  - done.
  - by rewrite Hsrc.
  - exists a, att. destruct (chain_transfer_attestations db !! a) as [old|] eqn:Hold.
    + exfalso. destruct (bk_known _ B a old Hold) as (row & Hrow & o & s0 & Ho & _ & _ & _ & S1 & _).
      assert (att = old) as -> by (pose proof (lookup_weaken _ _ _ _ Hold Kk); congruence).
      rewrite Hatt in Ho. assert (o = obs) as -> by congruence. by apply (Hfresh _ _ Hrow); rewrite <- S1.
    + destruct (Kn a att Ha Hold) as (Hid & _ & o & s0 & Ho & Hs0 & Hg & _). rewrite Hatt in Ho.
      assert (o = obs) as -> by congruence. assert (s0 = src) as -> by congruence.
      split_and!; [done|done|by rewrite Hatt, (rf_id _ _ _ _ Hread)|by rewrite Hg, (rf_group _ _ _ _ Hread)].
Qed.

(** What the verdict demanded of the readings holds of the attestations. *)
Lemma reread_after id (table : gmap Z AttestationRow) :
  (forall r, r ∈ A -> exists a att, table !! a = Some att /\ an_transfer_id att = id
     /\ an_observation_id att = er_observation_id r /\ an_provider_group att = er_provider_group r) ->
  exists a att observation, table !! a = Some att /\ an_transfer_id att = id
    /\ chain_observations db !! an_observation_id att = Some observation
    /\ ob_observation_kind observation = "targeted_lookup".
Proof.
  intros Hall. pose proof (verify_Verified _ _ _ _ Hv) as [_ _ _ _ Hins _ _ _ _ _ _].
  apply insufficiency_reread in Hins as [(k & Hk & Hkind) _]. destruct (Hall k Hk) as (a & att & Ha & Hid & Hobs & _).
  destruct (accepted_has_row k Hk) as (oid & o & src & Ho & _ & _ & Hread & _). exists a, att, o. split_and!; [done|done|..].
  - by rewrite Hobs, (rf_id _ _ _ _ Hread).
  - by rewrite <- (rf_kind _ _ _ _ Hread), Hkind.
Qed.

Lemma groups_after id (table : gmap Z AttestationRow) :
  (forall r, r ∈ A -> exists a att, table !! a = Some att /\ an_transfer_id att = id
     /\ an_observation_id att = er_observation_id r /\ an_provider_group att = er_provider_group r) ->
  exists row, policy_for db (stored_key event) row
    /\ fi_min_independent_groups row <= distinct_count (map (fun entry => an_provider_group (snd entry))
         (filter (fun entry => an_transfer_id (snd entry) = id) (map_to_list table))).
Proof.
  intros Hall. destruct Hp as (row & Hrow & Hmin). exists row. split; [done|]. rewrite <- Hmin.
  pose proof (verify_Verified _ _ _ _ Hv) as [_ _ _ _ Hins _ _ _ _ _ _].
  apply insufficiency_reread in Hins as [_ Hle]. etransitivity; [exact Hle|].
  assert (independent_groups A <= distinct_count (er_provider_group <$> A)) as Hgr.
  { unfold independent_groups. destruct (u32_try_from _) as [n|] eqn:Hn; cbn.
    - apply checked_Some in Hn as [-> _]. done.
    - pose proof (distinct_count_le (er_provider_group <$> A)). unfold u32_try_from, checked in Hn.
      destruct (in_range 0 U32_MAX _) eqn:Hr; [done|]. apply not_true_iff_false in Hr. rewrite in_range_spec in Hr. lia. }
  etransitivity; [exact Hgr|]. apply distinct_count_mono. intros g (r & -> & Hr)%list_elem_of_fmap.
  destruct (Hall r Hr) as (a & att & Ha & Hid & _ & Hg). apply list_elem_of_fmap. exists (a, att). split; [done|].
  apply list_elem_of_filter. split; [done|by apply elem_of_map_to_list].
Qed.

Lemma backed_verified version t outcome db' :
  backed db -> verified_step event v version t db outcome db' -> backed db'.
Proof.
  intros B (id & db1 & db2 & db3 & vrow & Hopen & Hat & ((cur & evs & -> & _) & _) & _ & -> & _).
  destruct (transfers_after id version t db1 outcome B Hopen) as (row & Hrow & Hev & Hothers & Htr & Hcase & Hsup).
  pose proof (attested_attesting _ _ _ _ _ _ Hat) as Kat. destruct (attested_frame _ _ _ _ _ _ Hat) as [table ->].
  assert (chain_observations db1 = chain_observations db /\ chain_sources db1 = chain_sources db
    /\ chain_finality_policies db1 = chain_finality_policies db
    /\ chain_transfer_attestations db1 = chain_transfer_attestations db) as (Eo & Es & Ep & Ea).
  { by destruct Hopen as [[_ (_ & _ & e & _ & ->)]|(_ & _ & ->)]. }
  cbn in Kat. rewrite Ea in Kat. pose proof Kat as [Kk Kn _]. rewrite Eo, Es in Kn.
  destruct B as [U K P N] eqn:HB. clear HB.
  assert (forall i other, chain_transfers db !! i = Some other -> tr_event other = stored_key event -> i = id) as Hone.
  { intros i other Hi He'. destruct Hcase as [Hid|[_ Hfree]]; [eapply U; [done|done|congruence]|by destruct (Hfree i other)]. }
  split; cbn; rewrite ?Eo.
  - intros i j a b Hi Hj Hab. destruct (Hothers i a Hi) as [->|Hi'], (Hothers j b Hj) as [->|Hj']; try done.
    + symmetry. eapply Hone; [done|]. congruence.
    + eapply Hone; [done|]. congruence.
    + by eapply U.
  - intros a att Ha. unfold stands_on. cbn. rewrite Eo, Es.
    destruct (chain_transfer_attestations db !! a) as [old|] eqn:Hold.
    + pose proof (lookup_weaken _ _ _ _ Hold Kk). assert (att = old) as -> by congruence.
      destruct (K a old Hold) as (r & Hr & Hst). exists r. split; [by eapply lookup_weaken|done].
    + destruct (Kn a att Ha Hold) as (Hid & Hin & o & src & Ho & Hsrc & Hg & Hk). exists row. rewrite Hid. split; [done|].
      exists o, src. split_and!; [done..|].
      pose proof (verify_Verified _ _ _ _ Hv) as [_ _ _ _ _ _ Hroles _ _ _ _]. rewrite Hroles in Hin.
      apply attestation_roles_keys in Hin as (r & Hr & Hoid).
      destruct (accepted_has_row r Hr) as (oid & obs & s0 & Hacc). pose proof Hacc as (Hobs & _ & Hs0 & Hread & _).
      assert (oid = an_observation_id att) as -> by (rewrite <- (rf_id _ _ _ _ Hread); done).
      assert (obs = o) as -> by congruence. assert (s0 = src) as -> by congruence. by eapply Hsup.
  - intros i other Hi. unfold reread_by_verifier, policy_for. cbn. rewrite Eo, Ep.
    destruct (chain_transfers db !! i) as [old|] eqn:Hold.
    + pose proof (lookup_weaken _ _ _ _ Hold Htr). assert (other = old) as -> by congruence.
      destruct (P i old Hold) as [(a & att & o & Ha & Hid & Ho & Hk) (pol & Hpol & Hmin)]. split.
      * exists a, att, o. split_and!; [by eapply lookup_weaken|done..].
      * exists pol. split; [done|]. etransitivity; [exact Hmin|]. by apply groups_of_mono.
    + destruct (Hothers i other Hi) as [->|]; [|congruence]. assert (other = row) as -> by congruence.
      destruct Hcase as [|[_ Hfree]]; [congruence|].
      assert (forall r, r ∈ A -> exists a att, table !! a = Some att /\ an_transfer_id att = id
        /\ an_observation_id att = er_observation_id r /\ an_provider_group att = er_provider_group r) as Hall.
      { intros r Hr. by eapply (accepted_attested id db1). }
      split; [by apply reread_after|]. rewrite Hev. by apply groups_after.
  - done.
Qed.
End verdicts.

(** ** A pass over PostgreSQL *)

Section pass.
Context {R : Type} `{Postgres R} `{U256Lib} `{TimeLib} `{UuidLib} `{HashLib} `{NumericText} `{ChainReader (Session R)}.
Context (repository_error_text : RepositoryError -> string).

(** The verifier's own reader: it reads the chain and not the database, and
    the hash it reports reads back as itself. *)
Context (reader_reads : forall event s, committed (reader_lookup event s).2 = committed s).
Context (reader_hashes : forall event s transfer s', reader_lookup event s = (Ok (Some transfer), s') ->
  TxHash_new (TxHash_as_str (ot_tx_hash transfer)) = Ok (ot_tx_hash transfer)).

Definition sound (db : Database) : Prop := walked db /\ backed db.
Definition safe (s : Session R) : Prop := sound (committed s).
(** What was read from [db] still stands. *)
Definition since (db : Database) (s : Session R) : Prop := sound db /\ safe s /\ grown db (committed s).

Lemma since_safe db s : since db s -> safe s.
Proof. by intros (_ & ? & _). Qed.
Lemma since_now s : safe s -> since (committed s) s.
Proof. intros Hs. split_and!; [done|done|apply grown_refl]. Qed.

Lemma clock_same {E} (s : Session R) : committed ((read_clock : eff (Session R) E Z) s).2 = committed s.
Proof. unfold read_clock, clock_now. cbn. by destruct (now_utc (runtime s)). Qed.

(** A read of the pool. *)
Lemma pool_fetch_reads {A} (f : Database -> A) s :
  committed (pool_fetch (R := R) f s).2 = committed s
  /\ forall a, (pool_fetch (R := R) f s).1 = Ok a -> a = f (committed s).
Proof.
  pose proof (transacts_map_err unavailable _ _ (transacts_pool (fun _ => select f)) _ _ _ s eq_refl eq_refl eq_refl) as Ht.
  unfold pool_fetch, run_pool. destruct (eff_map_err _ _ s) as [[a|e] s1]; cbn in *.
  - destruct Ht as (? & [= <- <-]). by split; [|intros ? [= <-]].
  - split; [|done]. by destruct Ht as [?|(a & ? & [= <- <-])].
Qed.

Lemma triple_fetch {A} (f : Database -> A) db X :
  (forall s, safe s -> X s) ->
  triple (since db) (pool_fetch (R := R) f) (fun a s => since db s /\ a = f (committed s)) X.
Proof.
  intros HX s Hs. destruct (pool_fetch_reads f s) as [Hc Ha].
  assert (since db (pool_fetch f s).2) as Hs' by (unfold since, safe in *; by rewrite Hc).
  destruct (pool_fetch f s) as [[a|e] s1]; cbn in *; [|by eapply HX, since_safe].
  split; [done|]. rewrite Hc. by apply Ha.
Qed.

(** The policy of a chain. *)
Lemma find_policy_triple db event :
  triple (since db) (pg_find_finality_policy (R := R) (ck_chain event) (ck_network event) (ck_chain_environment event))
    (fun policy s => since db s /\ forall p, policy = Some p -> policy_from (committed s) event p) safe.
Proof.
  unfold pg_find_finality_policy. eapply triple_bind; [by apply triple_fetch|].
  intros [[id row]|].
  - eapply triple_bind; [apply triple_lift; intros s [? _]; by eapply since_safe|]. intros p. apply triple_ret.
    intros s (Hp & Hs & Hrow). split; [done|]. intros p' [= <-]. symmetry in Hrow. unfold active_finality_policy in Hrow.
    apply head_Some_elem_of in Hrow. apply list_elem_of_filter in Hrow as [(? & ? & ? & ?) Hin%elem_of_map_to_list].
    exists row. split; [by split_and!; try done; exists id|]. unfold FinalityPolicy_try_from in Hp.
    apply res_bind_Ok in Hp as (f & _ & Hp). apply res_bind_Ok in Hp as (g & Hg%ok_or_Ok & [= <-]).
    by apply checked_Some in Hg as [-> _].
  - apply triple_ret. intros s [Hs _]. by split.
Qed.

(** The evidence of an event, read afresh. *)
Definition read_evidence (event : ChainEventKey) (evidence : list EvidenceReading) (s : Session R) : Prop :=
  exists db, since db s /\ evidence_from db (stored_key event) evidence.

(** Calls that only add observations. *)
Definition grows {E A} (m : eff (Session R) E A) (Q : A -> Prop) : Prop :=
  forall s, safe s -> safe (m s).2 /\ grown (committed s) (committed (m s).2) /\ forall a, (m s).1 = Ok a -> Q a.
Lemma grows_same {E A} (m : eff (Session R) E A) (Q : A -> Prop) :
  (forall s, committed (m s).2 = committed s) -> (forall s a, (m s).1 = Ok a -> Q a) -> grows m Q.
Proof. intros Hm HQ s Hs. unfold safe in *. rewrite Hm. split_and!; [done|apply grown_refl|apply HQ]. Qed.
Lemma grows_ret {E A} (a : A) (Q : A -> Prop) : Q a -> grows (mret a : eff (Session R) E A) Q.
Proof. intros HQ. apply grows_same; [done|]. by intros s ? [= <-]. Qed.
Lemma grows_bind {E A B} (m : eff (Session R) E A) (k : A -> eff (Session R) E B) P Q :
  grows m P -> (forall a, P a -> grows (k a) Q) -> grows (mbind k m) Q.
Proof.
  intros Hm Hk s Hs. destruct (Hm s Hs) as (Hs1 & Hg1 & HP). unfold mbind, eff_bind.
  destruct (m s) as [[a|e] s1]; cbn in *; [|by split_and!].
  destruct (Hk a (HP a eq_refl) s1 Hs1) as (? & ? & ?). split_and!; [done|by eapply grown_trans|done].
Qed.
Lemma grows_map_err {E F A} (f : E -> F) (m : eff (Session R) E A) Q : grows m Q -> grows (eff_map_err f m) Q.
Proof.
  intros Hm s Hs. destruct (Hm s Hs) as (? & ? & HQ). unfold eff_map_err.
  destruct (m s) as [[a|e] s1]; cbn in *; split_and!; try done. intros ? [= <-]. by apply HQ.
Qed.

Lemma grows_record source lease observation :
  TxHash_new (TxHash_as_str (ot_tx_hash (ro_transfer observation))) = Ok (ot_tx_hash (ro_transfer observation)) ->
  grows (pg_record_observations (R := R) source lease [observation] None) (fun _ => True).
Proof.
  intros Hhash s Hs.
  pose proof (pg_record_observations_transacts source lease [observation] None ltac:(cbn; unfold U32_MAX; lia)
    _ _ _ s eq_refl eq_refl eq_refl) as Ht.
  assert (forall report db', intake_commit source lease [observation] None (committed s) report db' ->
    sound db' /\ grown (committed s) db') as Hstep.
  { intros report db' Hc. destruct (intake_commit_tables _ _ _ _ _ _ _ Hc) as (table & cursors & -> & T).
    assert (grown (committed s) (on_cursors (fun _ => cursors) (on_observations (fun _ => table) (committed s)))) as Hg.
    { exists table, cursors. split; [done|apply T]. }
    destruct Hs as [Hw B]. split_and!; [|done]. split; [done|]. eapply backed_grown; [exact Hg| |done].
    intros id row Hrow. cbn in Hrow. destruct (chain_observations (committed s) !! id) as [old|] eqn:Hold.
    - pose proof (lookup_weaken _ _ _ _ Hold (ti_kept _ _ _ _ _ T)). assert (row = old) as -> by congruence.
      by apply (bk_normal _ B id).
    - destruct (ti_new _ _ _ _ _ T id row Hrow Hold) as (o & ->%list_elem_of_singleton & ->). cbn.
      unfold normal_key, event_key. rewrite Hhash. by destruct (ot_tx_hash _). }
  unfold safe. destruct (pg_record_observations source lease [observation] None s) as [[report|e] s1]; cbn in *.
  - destruct (Hstep _ _ Ht). by split_and!.
  - destruct Ht as [->|[report Ht]]; [split_and!; [done|apply grown_refl|done]|]. destruct (Hstep _ _ Ht). by split_and!.
Qed.

Lemma grows_reread self lease event : grows (reread repository_error_text self lease event) (fun _ => True).
Proof.
  unfold reread. eapply (grows_bind _ _ (fun found => forall transfer, found = Some transfer ->
    TxHash_new (TxHash_as_str (ot_tx_hash transfer)) = Ok (ot_tx_hash transfer))).
  { apply grows_same; [apply reader_reads|]. intros s found Hf transfer ->.
    eapply (reader_hashes event s transfer (reader_lookup event s).2). destruct (reader_lookup event s). by simplify_eq/=. }
  intros [transfer|] Hhash; [|by apply grows_ret]. specialize (Hhash _ eq_refl).
  eapply (grows_bind _ _ (fun _ => True)).
  { apply grows_map_err, grows_same; [|done]. intros s. unfold watched_collectors. cbn. unfold pg_watched_collectors.
    unfold mbind, eff_bind. pose proof (proj1 (pool_fetch_reads (watch_rows (cs_chain (vs_verifier_source self))
      (cs_network (vs_verifier_source self)) (ChainEnvironment_as_str (cs_chain_environment (vs_verifier_source self)))) s)) as Hc.
    by destruct (pool_fetch _ s) as [[rows|e] s1]. }
  intros collectors _. destruct (list_find _ _); [|by apply grows_ret].
  eapply (grows_bind _ _ (fun _ => True)); [apply grows_same; [apply clock_same|done]|]. intros now _.
  destruct (service_resolve _ _ _ _ _) as [resolved|] eqn:Hr; [|by apply grows_ret].
  eapply (grows_bind _ _ (fun _ => True)); [apply grows_map_err, grows_record|intros; by apply grows_ret].
  unfold service_resolve in Hr. apply bind_Some in Hr as ([i c] & _ & [= <-]). done.
Qed.

(** What more observations do not disturb. *)
Definition ready (event : ChainEventKey) (policy : FinalityPolicy) (evidence : list EvidenceReading) (s : Session R) : Prop :=
  read_evidence event evidence s /\ policy_from (committed s) event policy.
Lemma ready_safe event policy evidence s : ready event policy evidence s -> safe s.
Proof. intros [(db & Hs & _) _]. by eapply since_safe. Qed.
Lemma policy_from_grown db db' event policy : grown db db' -> policy_from db event policy -> policy_from db' event policy.
Proof. by intros (table & cursors & -> & _). Qed.
Lemma triple_grows {E A} (m : eff (Session R) E A) event policy evidence (X : Session R -> Prop) :
  grows m (fun _ => True) -> (forall s, ready event policy evidence s -> X s) ->
  triple (ready event policy evidence) m (fun _ => ready event policy evidence) X.
Proof.
  intros Hm HX s Hs. destruct (Hm s (ready_safe _ _ _ _ Hs)) as (Hs' & Hg & _).
  assert (ready event policy evidence (m s).2) as Hr.
  { destruct Hs as [(db & (Hd & _ & Hgd) & He) Hp]. split; [|by eapply policy_from_grown].
    exists db. split; [|done]. split_and!; [done|done|by eapply grown_trans]. }
  destruct (m s) as [[a|e] s1]; [done|]. by apply HX.
Qed.

Lemma evidence_ready event policy :
  triple (fun s => safe s /\ policy_from (committed s) event policy)
    (eff_map_err VsRepository (pg_evidence_for (R := R) event)) (fun evidence => ready event policy evidence) safe.
Proof.
  apply triple_map_err. intros s [Hs Hp]. unfold pg_evidence_for, mbind, eff_bind.
  destruct (pool_fetch_reads (evidence_rows (stored_key event)) s) as [Hc Ha].
  destruct (pool_fetch _ s) as [[rows|e] s1]; cbn in *; [|by unfold safe in *; rewrite Hc].
  rewrite (Ha rows eq_refl). destruct (collect _ _) as [evidence|e] eqn:He; [|by unfold safe in *; rewrite Hc].
  split; [|by rewrite Hc]. exists (committed s). split; [|done]. unfold since, safe in *. rewrite Hc.
  split_and!; [done|done|apply grown_refl].
Qed.

Lemma verify_now_triple event policy evidence :
  triple (ready event policy evidence) (verify_now evidence policy)
    (fun verdict s => ready event policy evidence s /\ exists now, verify evidence policy now = Ok verdict) safe.
Proof.
  unfold verify_now. eapply triple_bind.
  { apply triple_grows; [apply grows_same; [apply clock_same|done]|apply ready_safe]. }
  intros now. eapply triple_weaken; [apply (triple_lift safe _ (ready event policy evidence)); apply ready_safe|done|].
  intros verdict s [Hv%map_err_Ok Hr]. split; [done|]. by exists now.
Qed.

Lemma commit_triple lease event policy evidence verdict n version t now :
  verify evidence policy now = Ok verdict ->
  triple (ready event policy evidence)
    (eff_map_err VsRepository (pg_commit_verdict (R := R) lease event verdict n version t)) (fun _ => safe) safe.
Proof.
  intros Hv. apply triple_map_err. intros s [(db & (Hd & [Hw B] & Hg) & He) Hp].
  pose proof (pg_commit_verdict_spec lease event verdict n version t _ _ _ Hw s eq_refl eq_refl eq_refl) as Ht.
  assert (forall outcome db', verdict_step lease event verdict version t (committed s) outcome db' -> sound db') as Hstep.
  { intros outcome db' Hstep. split; [by eapply evidence_move_walked; [eapply (move_verdict (R := R))|]|].
    destruct Hstep as [_ Hstep]. destruct verdict as [v|? ?|? ?|? ?].
    2-4: destruct Hstep as (c & i & row & -> & _); by destruct B.
    eapply (backed_verified db (committed s) event evidence policy now v); [apply Hd|done..]. }
  unfold safe. destruct (pg_commit_verdict lease event verdict n version t s) as [[o|e] s1]; cbn in *; [by eapply Hstep|].
  destruct Ht as [->|[o Ht]]; [done|by eapply Hstep].
Qed.

Lemma ensure_triple self lease event policy evidence report :
  triple (ready event policy evidence) (ensure_own_reread repository_error_text self lease event evidence report)
    (fun x s => safe s /\ forall evidence' flag, x.2 = Some (evidence', flag) -> ready event policy evidence' s) safe.
Proof.
  unfold ensure_own_reread. destruct (has_own_reread self evidence).
  { apply triple_ret. intros s Hs. split; [by eapply ready_safe|]. by intros ? ? [= <- _]. }
  eapply (triple_bind safe _ _ _ (fun _ => ready event policy evidence)).
  { apply triple_attempt, triple_grows; [apply grows_reread|done]. }
  intros [[]|error].
  - eapply triple_bind; [eapply triple_weaken; [apply (evidence_ready event policy)| |done]|].
    + intros s Hs. split; [by eapply ready_safe|apply Hs].
    + intros fresh. apply triple_ret. intros s Hs. split; [by eapply ready_safe|]. by intros ? ? [= <- _].
  - apply triple_ret. intros s Hs. split; [by eapply ready_safe|]. by intros ? ? [= <- _].
  - destruct (ChainReaderError_is_transient error); apply triple_ret; intros s Hs; (split; [by eapply ready_safe|]); [done|].
    by intros ? ? [= <- _].
Qed.

Lemma deepen_triple self lease event policy evidence flag verdict report :
  triple (fun s => ready event policy evidence s /\ exists now, verify evidence policy now = Ok verdict)
    (deepen repository_error_text self lease event policy evidence flag verdict report)
    (fun '(_, evidence', verdict') s => ready event policy evidence' s /\ exists now, verify evidence' policy now = Ok verdict')
    safe.
Proof.
  unfold deepen. destruct (negb flag && awaits_depth verdict policy); [|by apply triple_ret].
  intros s [Hs Hv]. revert s Hs. eapply (triple_bind safe (attempt (reread repository_error_text self lease event)) _
    (ready event policy evidence) (fun _ => ready event policy evidence)).
  { apply triple_attempt, triple_grows; [apply grows_reread|done]. }
  intros [[]|error]; [|by apply triple_ret..].
  eapply triple_bind; [eapply triple_weaken; [apply (evidence_ready event policy)| |done]|].
  { intros s Hs. split; [by eapply ready_safe|apply Hs]. }
  intros fresh. eapply triple_bind; [apply verify_now_triple|]. intros verdict'. by apply triple_ret.
Qed.

Lemma verify_event_triple self lease report event :
  triple safe (verify_event repository_error_text self lease report event) (fun _ => safe) safe.
Proof.
  unfold verify_event. eapply (triple_bind safe _ _ _ (fun policy s => safe s
    /\ forall p, policy = Some p -> policy_from (committed s) event p)).
  { apply triple_map_err. intros s Hs. pose proof (find_policy_triple (committed s) event s (since_now s Hs)) as Hf.
    cbn. destruct (pg_find_finality_policy _ _ _ s) as [[p|e] s1]; cbn in *; [|done].
    destruct Hf as [Hf Hp]. split; [by eapply since_safe|done]. }
  intros [policy|]; [|by apply triple_ret; intros s [? _]].
  eapply triple_bind; [eapply triple_weaken; [apply (evidence_ready event policy)| |done]|].
  { intros s [Hs Hp]. split; [done|by apply Hp]. }
  intros evidence. eapply triple_bind; [apply ensure_triple|]. intros [report1 [[evidence1 flag]|]].
  2: by apply triple_ret; intros s [? _].
  eapply triple_bind; [eapply triple_weaken; [apply verify_now_triple| |done]; intros s [_ Hr]; by eapply Hr|].
  intros verdict. eapply triple_bind; [apply deepen_triple|]. intros [[report2 evidence2] verdict2].
  intros s [Hs [now Hv]]. revert s Hs.
  eapply (triple_bind safe read_clock _ (ready event policy evidence2)).
  { apply triple_grows; [apply grows_same; [apply clock_same|done]|apply ready_safe]. }
  intros t. eapply triple_bind; [by eapply commit_triple|]. intros outcome. by apply triple_ret.
Qed.

(** C6: Every canonical transfer rests on evidence.  A verification pass over
    PostgreSQL, whatever the chain answers and however it ends, also with a
    commit that was lost or its answer, keeps this of the whole database:
    each transfer stands for one event; every attestation of it names a
    stored reading of that event, written under the role its source is
    registered with, that reports success and the amount, recipient, token
    and memo of the transfer; one of them is the verifier's own reading; and
    the provider groups settlement counts are as many as the active policy of
    the chain asks.  It also keeps every transfer on its walk. *)
Theorem canonical_transfers_rest_on_evidence self lease limit s :
  walked (committed s) -> backed (committed s) ->
  walked (committed (verify_pending repository_error_text self lease limit s).2)
  /\ backed (committed (verify_pending repository_error_text self lease limit s).2).
Proof.
  intros Hw B.
  assert (triple safe (verify_pending repository_error_text self lease limit) (fun _ => safe) safe) as Ht.
  { unfold verify_pending. destruct (_ || _).
    { eapply triple_weaken; [apply (triple_lift safe _ safe)|..]; [done|done|by intros ? ? [_ ?]]. }
    eapply (triple_bind safe _ _ _ (fun _ => safe)).
    { intros s0 Hs0. unfold safe in *. pose proof (clock_same (E := VerificationServiceError) s0) as Hc.
      destruct (read_clock s0) as [[t|e] s1]; cbn in *; by rewrite Hc. }
    intros now. eapply (triple_bind safe _ _ _ (fun _ => safe)).
    { apply triple_map_err. intros s0 Hs0. cbn. unfold pg_events_awaiting_verdict, mbind, eff_bind, safe in *.
      pose proof (proj1 (pool_fetch_reads (awaiting_rows limit (now - DEPTH_REREAD_INTERVAL)) s0)) as Hc.
      destruct (pool_fetch _ s0) as [[rows|e] s1]; cbn in *; [destruct (collect _ _)|]; cbn; by rewrite Hc. }
    intros events. apply triple_for_each. intros. apply verify_event_triple. }
  specialize (Ht s (conj Hw B)). by destruct (verify_pending repository_error_text self lease limit s) as [[r|e] s1].
Qed.
End pass.

(** ** What settlement is handed *)

Section handed.
Context {R : Type} `{Postgres R} `{U256Lib} `{TimeLib} `{UuidLib}.

Lemma pending_rows_elem limit db row :
  row ∈ pending_rows limit db -> exists transfer, chain_transfers db !! pt_transfer_id row = Some transfer
    /\ pending_row db (pt_transfer_id row, transfer) = Some row.
Proof.
  intros Hin%elem_of_limited. apply list_elem_of_omap in Hin as ([id transfer] & Hin%elem_of_map_to_list & Hrow).
  assert (pt_transfer_id row = id) as ->; [|by exists transfer].
  unfold pending_row in Hrow. repeat case_match; simplify_eq; done.
Qed.

(** The row a pending transfer is made of. *)
Lemma pending_row_facts db id transfer row :
  pending_row db (id, transfer) = Some row ->
  (exists state, chain_transfer_state_current db !! id = Some state /\ st_state state = pt_state row
     /\ pt_state row ∈ ["finalized"; "invalidated"])
  /\ (exists processing, chain_transfer_processing db !! id = Some processing
       /\ pr_processing_state processing = "pending")
  /\ pt_amount_raw row = numeric_text (tr_amount_raw transfer) /\ pt_independent_groups row = groups_of db id
  /\ pt_collector_address_id row = tr_collector_address_id transfer.
Proof.
  unfold pending_row. intros Hrow. destruct (chain_transfer_state_current db !! id) as [state|]; [|done]. cbn in Hrow.
  destruct (chain_transfer_processing db !! id) as [processing|]; [|done].
  destruct (_ && _) eqn:Hb; [|done]. injection Hrow as <-. bool_to_prop. cbn.
  split_and!; [by exists state|by exists processing|done..].
Qed.

(** C7: Settlement is handed proven money only.  In a database where every
    canonical transfer rests on evidence and is on its walk, each transfer
    that awaits settlement is finalized, with its three states on record; it
    carries the amount of its canonical row, on which every attesting reading
    agrees; and the number of independent groups it is handed with is at
    least what the chain's active policy asks. *)
Theorem settlement_is_handed_proven_money limit (s : Session R) transfers s' transfer :
  walked (committed s) -> backed (committed s) ->
  pg_transfers_awaiting_settlement limit s = (Ok transfers, s') -> transfer ∈ transfers ->
  let id := tf_transfer_id (pd_facts transfer) in
  tf_state (pd_facts transfer) = Finalized
  /\ (forall version, history (committed s) id version = walk_entry version)
  /\ exists row policy, chain_transfers (committed s) !! id = Some row
     /\ as_u256 (tf_amount_raw (pd_facts transfer)) = tr_amount_raw row
     /\ tf_collector_address_id (pd_facts transfer) = tr_collector_address_id row
     /\ (forall a attestation, chain_transfer_attestations (committed s) !! a = Some attestation ->
           an_transfer_id attestation = id -> stands_on (committed s) row attestation)
     /\ reread_by_verifier (committed s) id
     /\ policy_for (committed s) (tr_event row) policy
     /\ Z.min U32_MAX (fi_min_independent_groups policy) <= pd_independent_groups transfer.
Proof.
  intros Hw B Hrun Hin id. unfold pg_transfers_awaiting_settlement in Hrun.
  apply eff_bind_Ok in Hrun as (rows & s1 & Hrows & [Hc _]%lift_Ok).
  destruct (pool_fetch_reads (pending_rows limit) s) as [_ Hf]. rewrite Hrows in Hf. rewrite (Hf rows eq_refl) in Hc.
  apply collect_Ok in Hc. apply list_elem_of_lookup in Hin as [i Hi].
  destruct (Forall2_lookup_r _ _ _ _ _ Hc Hi) as (prow & Hprow & Htry). apply list_elem_of_lookup_2 in Hprow.
  apply pending_rows_elem in Hprow as (row & Hrow & Hpend).
  unfold PendingTransfer_try_from in Htry. apply res_bind_Ok in Htry as (amount & Ha%map_err_Ok & Htry).
  apply res_bind_Ok in Htry as (memo & _ & Htry). apply res_bind_Ok in Htry as (state & Hst%map_err_Ok & Htry).
  apply res_bind_Ok in Htry as (allocated & _ & [= <-]). subst id.
  cbn [pd_facts pd_independent_groups tf_transfer_id tf_state tf_amount_raw tf_collector_address_id].
  destruct (pending_row_facts _ _ _ _ Hpend) as ((cur & Hcur & Htext & Hfin) & _ & Hamount & Hgroups & Hcoll).
  specialize (Hw (pt_transfer_id prow)). unfold on_course in Hw. rewrite Hrow in Hw.
  destruct Hw as (_ & cur' & previous & Hcur' & Hentry & Hhist). assert (cur' = cur) as -> by congruence.
  rewrite Htext in Hentry. assert (pt_state prow = "finalized" /\ st_state_version cur = 3) as [Hf' Hver].
  { unfold walk_entry in Hentry. rewrite elem_of_cons, list_elem_of_singleton in Hfin.
    repeat case_match; simplify_eq; destruct Hfin; try congruence; done. }
  split_and!.
  - rewrite Hf' in Hst. vm_compute in Hst. congruence.
  - intros version. rewrite Hhist, Hver. destruct (decide _) as [|Hno]; [done|].
    destruct (walk_entry version) as [entry|] eqn:Hwe; [by apply walk_entry_range in Hwe|done].
  - destruct (bk_proven _ B _ _ Hrow) as [Hre (policy & Hpol & Hmin)]. exists row, policy.
    rewrite Hamount in Ha. apply amount_read in Ha as [Ha _]. split_and!; [done..| |done|done|].
    + intros a att Hatt Hid. destruct (bk_known _ B a att Hatt) as (row' & Hrow' & Hst').
      rewrite Hid in Hrow'. by assert (row' = row) as -> by congruence.
    + rewrite Hgroups. destruct (u32_try_from (groups_of _ _)) as [n|] eqn:Hn; [|apply Z.le_min_l].
      apply checked_Some in Hn as [-> _]. etransitivity; [apply Z.le_min_r|exact Hmin].
Qed.
End handed.

(** ** A pass over the watched collector

    The chain is not asked again: the verifier has read the event before. *)

Import ReferenceInstances.
#[local] Existing Instance quiet_postgres.
#[local] Existing Instance numeric_reference.
#[local] Instance quiet_reader : ChainReader (Session Z) := {| reader_lookup _ := mret (Some seen_transfer) |}.

Definition pass_session : Session Z := (verify_pending (fun _ => "") sample_verifier watch_lease 10 seen_session).2.

Lemma seen_walked : walked (committed seen_session).
Proof.
  assert (rtc evidence_call watch_session seen_session) as Hrun.
  { apply (rtc_l _ watch_session held_session seen_session).
    { exact (call_acquire "observer" "a" 1000 50 watch_session). }
    apply rtc_once.
    refine (call_record sample_source watch_lease [seen_observation] (Some (8, CursorScan, lane_position "100")) held_session _).
    cbn. unfold U32_MAX. lia. }
  clear -Hrun. pose proof watch_walked as Hw. change (walked (committed watch_session)) in Hw. revert Hw.
  induction Hrun as [s|s1 s2 s3 Hc _ IH]; [done|]. intros Hw. apply IH.
  by eapply evidence_move_walked; [apply evidence_call_move|].
Qed.
Lemma seen_backed : backed (committed seen_session).
Proof.
  assert (chain_transfers (committed seen_session) = ∅) as Et by (vm_compute; reflexivity).
  assert (chain_transfer_attestations (committed seen_session) = ∅) as Ea by (vm_compute; reflexivity).
  assert (chain_observations (committed seen_session) = {[1 := observation_row "gateway" sample_source seen_observation]}) as Eo
    by (vm_compute; reflexivity).
  split; rewrite ?Et, ?Ea, ?Eo.
  - intros i j a b. by rewrite lookup_empty.
  - intros a att. by rewrite lookup_empty.
  - intros id row. by rewrite lookup_empty.
  - intros id row [<- <-]%lookup_singleton_Some. vm_compute. reflexivity.
Qed.

Lemma quiet_reads event (s : Session Z) : committed (reader_lookup event s).2 = committed s.
Proof. done. Qed.
Lemma quiet_hashes event (s : Session Z) transfer s' :
  reader_lookup event s = (Ok (Some transfer), s') ->
  TxHash_new (TxHash_as_str (ot_tx_hash transfer)) = Ok (ot_tx_hash transfer).
Proof. intros [= <- _]. vm_compute. reflexivity. Qed.

(** The pass creates a transfer and finalizes it. *)
Lemma canonical_transfers_rest_on_evidence_witness :
  walked (committed pass_session) /\ backed (committed pass_session)
  /\ st_state <$> chain_transfer_state_current (committed pass_session) !! 2 = Some "finalized".
Proof.
  destruct (canonical_transfers_rest_on_evidence (R := Z) (fun _ => "") quiet_reads quiet_hashes sample_verifier
    watch_lease 10 seen_session seen_walked seen_backed) as [Hw B].
  split; [exact Hw|]. split; [exact B|]. vm_compute. reflexivity.
Defined.

Lemma pass_sound : walked (committed pass_session) /\ backed (committed pass_session).
Proof.
  assert (triple safe (verify_event (fun _ => "") sample_verifier watch_lease VerificationReport_default sample_event)
    (fun _ => safe) safe) as Ht.
  { apply verify_event_triple; [apply quiet_reads|apply quiet_hashes]. }
  assert (committed pass_session
    = committed (verify_event (fun _ => "") sample_verifier watch_lease VerificationReport_default sample_event seen_session).2)
    as -> by (vm_compute; reflexivity).
  specialize (Ht seen_session (conj seen_walked seen_backed)). by destruct (verify_event _ _ _ _ _ _) as [[r|e] s1].
Qed.

Lemma settlement_is_handed_proven_money_witness :
  exists transfers s' transfer, pg_transfers_awaiting_settlement 10 pass_session = (Ok transfers, s')
    /\ transfer ∈ transfers /\ tf_state (pd_facts transfer) = Finalized.
Proof.
  destruct (pg_transfers_awaiting_settlement 10 pass_session) as [[transfers|e] s'] eqn:Hrun.
  2:{ assert (is_ok (pg_transfers_awaiting_settlement 10 pass_session).1 = true) as Hx by (vm_compute; reflexivity).
      rewrite Hrun in Hx. discriminate Hx. }
  destruct transfers as [|transfer rest].
  { assert (length (default [] (result_ok (pg_transfers_awaiting_settlement 10 pass_session).1)) = 1%nat) as Hx
      by (vm_compute; reflexivity). rewrite Hrun in Hx. discriminate Hx. }
  exists (transfer :: rest), s', transfer. split; [exact eq_refl|]. split; [by left|].
  destruct pass_sound as [Hw B].
  exact (proj1 (settlement_is_handed_proven_money 10 pass_session _ _ transfer Hw B Hrun (list_elem_of_here _ _))).
Defined.
