(* ===== verification/TronAddress.v ===== *)
(** * TRON addresses

    [gateway-tron/src/address.rs]: the canonical 21 bytes of an address, its
    base58check text, and the hexadecimal forms of the node API. *)

From Stdlib Require Import Ascii String Strings.Byte.
From S2P Require Import Prelude RustStd Externals Chain.

Local Open Scope Z_scope.

Definition TRON_ADDRESS_PREFIX : byte := x41.
Definition TRON_ADDRESS_BYTES : nat := 21.
Definition CHECKSUM_BYTES : nat := 4.

Inductive TronAddressError := NotBase58 | WrongLength | BadChecksum | WrongPrefix | AddressNotHex.
#[export] Instance TronAddressError_eq_dec : EqDecision TronAddressError.
Proof. solve_decision. Defined.

Definition TronAddressError_to_string (e : TronAddressError) : string :=
  match e with
  | NotBase58 => "a TRON address must be base58"
  | WrongLength => "a TRON address must be 21 bytes plus a 4-byte checksum"
  | BadChecksum => "the address checksum does not match"
  | WrongPrefix => "a TRON address starts with 0x41"
  | AddressNotHex => "the value is not hexadecimal"
  end.

(** The digit ranges with their [wrapping_sub] and [wrapping_add], which the
    ranges keep from wrapping. *)
Definition hex_value (b : Z) : result TronAddressError Z :=
  if in_range 48 57 b then Ok (b - 48)
  else if in_range 97 102 b then Ok (b - 97 + 10)
  else if in_range 65 70 b then Ok (b - 65 + 10)
  else Err AddressNotHex.

(** The loop over [chunks_exact(2)]. *)
Fixpoint decode_pairs (raw : string) : result TronAddressError (list byte) :=
  match raw with
  | String high (String low rest) =>
      high ← hex_value (ascii_Z high);
      low ← hex_value (ascii_Z low);
      bytes ← decode_pairs rest;
      Ok (byte_of_Z (Z.lor (Z.shiftl high 4) low) :: bytes)
  | _ => Ok []
  end.
Definition decode_hex (value : string) : result TronAddressError (list byte) :=
  if negb (str_len value mod 2 =? 0) then Err AddressNotHex else decode_pairs value.

Definition from_evm_bytes (bytes : list byte) : result TronAddressError AddressKey :=
  if negb (length bytes =? TRON_ADDRESS_BYTES - 1)%nat then Err WrongLength
  else map_err (fun _ => WrongLength) (AddressKey_new (TRON_ADDRESS_PREFIX :: bytes)).

Definition from_hex (value : string) : result TronAddressError AddressKey :=
  let trimmed := trim value in
  let trimmed := default trimmed (strip_prefix "0x" trimmed) in
  bytes ← decode_hex trimmed;
  if (length bytes =? TRON_ADDRESS_BYTES)%nat then
    if negb (bool_decide (head bytes = Some TRON_ADDRESS_PREFIX)) then Err WrongPrefix
    else map_err (fun _ => WrongLength) (AddressKey_new bytes)
  else if (length bytes =? 20)%nat then from_evm_bytes bytes
  else Err WrongLength.

Section base58.
Context `{HashLib} `{Base58Lib}.

Definition double_sha256 (bytes : list byte) : list byte := sha256 (sha256 bytes).

Definition from_base58 (value : string) : result TronAddressError AddressKey :=
  decoded ← ok_or (bs58_decode (trim value)) NotBase58;
  if negb (length decoded =? TRON_ADDRESS_BYTES + CHECKSUM_BYTES)%nat then Err WrongLength
  else
    let body := take TRON_ADDRESS_BYTES decoded in
    let checksum := drop TRON_ADDRESS_BYTES decoded in
    if negb (bool_decide (checksum = take CHECKSUM_BYTES (double_sha256 body))) then Err BadChecksum
    else if negb (bool_decide (head body = Some TRON_ADDRESS_PREFIX)) then Err WrongPrefix
    else map_err (fun _ => WrongLength) (AddressKey_new body).

Definition to_base58 (address : AddressKey) : result TronAddressError string :=
  let bytes := AddressKey_as_bytes address in
  if negb (length bytes =? TRON_ADDRESS_BYTES)%nat then Err WrongLength
  else if negb (bool_decide (head bytes = Some TRON_ADDRESS_PREFIX)) then Err WrongPrefix
  else Ok (bs58_encode (bytes ++ take CHECKSUM_BYTES (double_sha256 bytes))).
End base58.

(** * Lemmas *)

(** A canonical TRON address. *)
Definition TronAddress_wf (k : AddressKey) : Prop :=
  length (AddressKey_as_bytes k) = TRON_ADDRESS_BYTES
  /\ head (AddressKey_as_bytes k) = Some TRON_ADDRESS_PREFIX.

Lemma AddressKey_new_21 bytes :
  length bytes = TRON_ADDRESS_BYTES -> AddressKey_new bytes = Ok (mkAddressKey bytes).
Proof.
  intros Hl. apply AddressKey_new_Ok. split; [done|]. unfold AddressKey_wf. simpl. rewrite Hl. split.
  - intros ->. done.
  - unfold MAX_ADDRESS_KEY_BYTES, TRON_ADDRESS_BYTES. lia.
Qed.

Lemma from_evm_bytes_Ok bytes k :
  from_evm_bytes bytes = Ok k <->
  length bytes = 20%nat /\ k = mkAddressKey (TRON_ADDRESS_PREFIX :: bytes).
Proof.
  unfold from_evm_bytes. destruct (Nat.eqb_spec (length bytes) (TRON_ADDRESS_BYTES - 1)) as [Hl|Hl]; cbn [negb].
  - rewrite AddressKey_new_21 by (simpl; rewrite Hl; done). cbn. rewrite Hl. unfold TRON_ADDRESS_BYTES. naive_solver.
  - split; [done|]. intros [? _]. unfold TRON_ADDRESS_BYTES in Hl. lia.
Qed.

Lemma hex_value_digit b :
  (exists h, hex_value (ascii_Z (hex_digit (Z.shiftr (byte_Z b) 4))) = Ok h
     /\ exists l, hex_value (ascii_Z (hex_digit (Z.land (byte_Z b) 0x0f))) = Ok l
        /\ byte_of_Z (Z.lor (Z.shiftl h 4) l) = b).
Proof.
  assert (match hex_value (ascii_Z (hex_digit (Z.shiftr (byte_Z b) 4))),
                hex_value (ascii_Z (hex_digit (Z.land (byte_Z b) 0x0f))) with
          | Ok h, Ok l => Byte.eqb (byte_of_Z (Z.lor (Z.shiftl h 4) l)) b
          | _, _ => false
          end = true) as Hb by (by destruct b).
  destruct (hex_value _) as [h|]; [|done]. destruct (hex_value _) as [l|]; [|done].
  exists h. split; [done|]. exists l. split; [done|]. by apply Byte.byte_dec_bl.
Qed.

Lemma decode_pairs_hex l : decode_pairs (hex_of_bytes l) = Ok l.
Proof.
  induction l as [|b l IH]; cbn [hex_of_bytes decode_pairs]; [done|].
  destruct (hex_value_digit b) as (h & -> & lo & -> & Hb). cbn [mbind result_bind].
  rewrite IH. cbn [mbind result_bind]. by rewrite Hb.
Qed.

Lemma decode_hex_of_bytes l : decode_hex (hex_of_bytes l) = Ok l.
Proof.
  unfold decode_hex, str_len. rewrite hex_of_bytes_length, Nat2Z.inj_mul.
  change (Z.of_nat 2) with 2. rewrite Z.mul_comm, Z.mod_mul by lia. cbn [Z.eqb negb]. apply decode_pairs_hex.
Qed.

(** ** Hexadecimal text *)

Lemma hex_value_range b n : hex_value b = Ok n -> 0 <= n < 16.
Proof.
  unfold hex_value. destruct (in_range 48 57 b) eqn:H1; [|destruct (in_range 97 102 b) eqn:H2;
    [|destruct (in_range 65 70 b) eqn:H3; [|done]]]; intros [= <-];
    match goal with E : in_range _ _ _ = true |- _ => apply in_range_spec in E end; lia.
Qed.

Lemma hex_value_spec c n : 0 <= n < 16 -> hex_value (ascii_Z c) = Ok n <-> ascii_to_lower c = hex_digit n.
Proof.
  intros Hn.
  assert (forallb (fun n => Bool.eqb (match hex_value (ascii_Z c) with Ok m => m =? n | Err _ => false end)
    (Ascii.eqb (ascii_to_lower c) (hex_digit n))) (seqZ 0 16) = true) as Hall
    by (destruct c as [[] [] [] [] [] [] [] []]; vm_compute; reflexivity).
  rewrite forallb_forall in Hall. specialize (Hall n ltac:(apply list_elem_of_In, elem_of_seqZ; lia)).
  apply Bool.eqb_prop in Hall. destruct (hex_value (ascii_Z c)) as [m|];
    destruct (Ascii.eqb_spec (ascii_to_lower c) (hex_digit n)); try done.
  - apply Z.eqb_eq in Hall. by subst.
  - apply Z.eqb_neq in Hall. split; [congruence|done].
Qed.

Lemma nibbles_byte h l b : 0 <= h < 16 -> 0 <= l < 16 ->
  byte_of_Z (Z.lor (Z.shiftl h 4) l) = b <-> h = Z.shiftr (byte_Z b) 4 /\ l = Z.land (byte_Z b) 0x0f.
Proof.
  intros Hh Hl.
  assert (forallb (fun h => forallb (fun l =>
    let b := byte_of_Z (Z.lor (Z.shiftl h 4) l) in
    (h =? Z.shiftr (byte_Z b) 4) && (l =? Z.land (byte_Z b) 0x0f)) (seqZ 0 16)) (seqZ 0 16) = true) as Hall
    by (vm_compute; reflexivity).
  rewrite forallb_forall in Hall. specialize (Hall h ltac:(apply list_elem_of_In, elem_of_seqZ; lia)).
  rewrite forallb_forall in Hall. specialize (Hall l ltac:(apply list_elem_of_In, elem_of_seqZ; lia)).
  apply andb_true_iff in Hall as [E1%Z.eqb_eq E2%Z.eqb_eq]. split; [by intros <-|].
  intros [-> ->]. clear. by destruct b.
Qed.

(** A text decodes to the bytes whose hexadecimal form it is, in either case. *)
Lemma decode_hex_spec s bytes : decode_hex s = Ok bytes <-> to_ascii_lowercase s = hex_of_bytes bytes.
Proof.
  assert (forall n s, (String.length s <= n)%nat -> forall bytes,
    (str_len s mod 2 = 0 /\ decode_pairs s = Ok bytes) <-> to_ascii_lowercase s = hex_of_bytes bytes) as Hgen.
  { clear. induction n as [|n IH]; intros s Hn bytes.
    - destruct s; [|cbn in Hn; lia]. destruct bytes; cbn; split; try done. by intros [_ [=]].
    - destruct s as [|a [|b s]].
      + destruct bytes; cbn; split; try done. by intros [_ [=]].
      + split; [by intros [[=] _]|]. intros E. apply (f_equal String.length) in E. rewrite hex_of_bytes_length in E.
        cbn in E. lia.
      + cbn [decode_pairs to_ascii_lowercase str_map]. fold (to_ascii_lowercase s).
        assert (str_len (String a (String b s)) mod 2 = str_len s mod 2) as ->.
        { unfold str_len. cbn [String.length]. rewrite !Nat2Z.inj_succ.
          replace (Z.succ (Z.succ (Z.of_nat (String.length s)))) with (Z.of_nat (String.length s) + 1 * 2) by lia.
          by rewrite Z.mod_add by lia. }
        assert (String.length s <= n)%nat as Hs by (cbn in Hn; lia). split.
        * intros [Hm Hd]. destruct (hex_value (ascii_Z a)) as [h|] eqn:Ha; [|done]. cbn [mbind result_bind] in Hd.
          destruct (hex_value (ascii_Z b)) as [l|] eqn:Hb; [|done]. cbn [mbind result_bind] in Hd.
          destruct (decode_pairs s) as [rest|] eqn:Hr; [|done]. injection Hd as <-.
          pose proof (hex_value_range _ _ Ha) as Hh. pose proof (hex_value_range _ _ Hb) as Hl.
          apply hex_value_spec in Ha, Hb; [|done..]. cbn [hex_of_bytes].
          destruct (proj1 (nibbles_byte h l _ Hh Hl) eq_refl) as [<- <-].
          rewrite Ha, Hb. do 2 f_equal. by apply IH.
        * destruct bytes as [|x bytes]; [done|]. cbn [hex_of_bytes]. intros [= Ha Hb Hr].
          destruct (hex_value_digit x) as (h & Hh & l & Hl & Hx).
          pose proof (hex_value_range _ _ Hh) as Hhr. pose proof (hex_value_range _ _ Hl) as Hlr.
          destruct (proj1 (nibbles_byte h l x Hhr Hlr) Hx) as [E1 E2]. rewrite <- E1 in Ha. rewrite <- E2 in Hb.
          apply hex_value_spec in Ha, Hb; [|done..]. apply IH in Hr as [Hm Hd]; [|done]. split; [done|].
          rewrite Ha, Hb, Hd. cbn [mbind result_bind]. by rewrite Hx. }
  rewrite <- (Hgen (String.length s) s (le_n _) bytes). unfold decode_hex.
  destruct (Z.eqb_spec (str_len s mod 2) 0); cbn [negb]; [tauto|]. split; [done|]. by intros [? _].
Qed.

(** [text] is the hexadecimal form of [bytes]: around it blanks, before it
    perhaps 0x. *)
Definition hex_text (text : string) (bytes : list byte) : Prop :=
  to_ascii_lowercase (default (trim text) (strip_prefix "0x" (trim text))) = hex_of_bytes bytes.

Lemma hex_text_inj text a b : hex_text text a -> hex_text text b -> a = b.
Proof. unfold hex_text. intros -> Hb. by apply hex_of_bytes_inj. Qed.

Lemma from_hex_spec value k :
  from_hex value = Ok k <-> exists bytes, hex_text value bytes
    /\ ((length bytes = 21%nat /\ head bytes = Some x41 /\ k = mkAddressKey bytes)
        \/ (length bytes = 20%nat /\ k = mkAddressKey (x41 :: bytes))).
Proof.
  unfold from_hex, hex_text. cbv zeta. set (text := default _ _). split.
  - destruct (decode_hex text) as [bytes|] eqn:Hd; [|done]. apply decode_hex_spec in Hd. cbn [mbind result_bind].
    destruct (Nat.eqb_spec (length bytes) TRON_ADDRESS_BYTES) as [Hl|Hl].
    + case_bool_decide as Hh; cbn [negb]; [|done]. rewrite AddressKey_new_21 by done. intros [= <-].
      exists bytes. split; [done|]. by left.
    + destruct (Nat.eqb_spec (length bytes) 20) as [H20|]; [|done]. intros [_ ->]%from_evm_bytes_Ok.
      exists bytes. split; [done|]. by right.
  - intros (bytes & Hd%decode_hex_spec & Hcase). rewrite Hd. cbn [mbind result_bind].
    destruct Hcase as [(Hl & Hh & ->)|(Hl & ->)]; rewrite Hl; cbn [Nat.eqb TRON_ADDRESS_BYTES].
    + rewrite bool_decide_eq_true_2 by done. cbn [negb]. by rewrite AddressKey_new_21.
    + by apply from_evm_bytes_Ok.
Qed.

Lemma hex_digit_not_blank n : not_blank (hex_digit n) = true /\ hex_digit n <> "x"%char.
Proof.
  unfold hex_digit. pose proof (Z.land_ones n 4 ltac:(lia)) as Hm. change (Z.ones 4) with 15 in Hm.
  rewrite Hm. clear Hm. pose proof (Z.mod_pos_bound n (2 ^ 4) ltac:(lia)) as Hb.
  destruct (n mod 2 ^ 4) as [|p|p]; [done| |lia].
  assert (p < 16)%positive by lia.
  do 4 (destruct p as [p|p|]; try done; try lia).
Qed.

Lemma hex_of_bytes_not_blank l : str_forallb not_blank (hex_of_bytes l) = true.
Proof.
  induction l as [|b l IH]; [done|]. cbn [hex_of_bytes str_forallb].
  by rewrite (proj1 (hex_digit_not_blank _)), (proj1 (hex_digit_not_blank _)), IH.
Qed.

Lemma hex_of_bytes_no_prefix l : strip_prefix "0x" (hex_of_bytes l) = None \/ l = [].
Proof.
  destruct l as [|b l]; [by right|left]. cbn [hex_of_bytes strip_prefix].
  destruct (Ascii.eqb _ _); [|done]. destruct (Ascii.eqb_spec "x" (hex_digit (Z.land (byte_Z b) 15))); [|done].
  by destruct (proj2 (hex_digit_not_blank (Z.land (byte_Z b) 15))).
Qed.

Lemma from_hex_shape value k : from_hex value = Ok k -> TronAddress_wf k.
Proof.
  unfold from_hex. cbv zeta. destruct (decode_hex _) as [bytes|]; [|done]. cbn [mbind result_bind].
  destruct (Nat.eqb_spec (length bytes) TRON_ADDRESS_BYTES) as [Hl|Hl].
  - case_bool_decide as Hh; cbn [negb]; [|done]. rewrite AddressKey_new_21 by done.
    intros [= <-]. by split.
  - destruct (Nat.eqb_spec (length bytes) 20) as [H20|]; [|done].
    intros [_ ->]%from_evm_bytes_Ok. split; [|done]. simpl. by rewrite H20.
Qed.

Section tron_address_properties.
Context `{HashLib} `{Base58Lib}.

Lemma from_base58_Ok value k :
  from_base58 value = Ok k ->
  TronAddress_wf k
  /\ bs58_decode (trim value)
     = Some (AddressKey_as_bytes k ++ take CHECKSUM_BYTES (double_sha256 (AddressKey_as_bytes k))).
Proof.
  unfold from_base58. destruct (bs58_decode (trim value)) as [decoded|]; [|done].
  cbn [ok_or mbind result_bind].
  destruct (Nat.eqb_spec (length decoded) (TRON_ADDRESS_BYTES + CHECKSUM_BYTES)) as [Hl|]; [|done].
  cbn [negb]. case_bool_decide as Hc; [|done]. cbn [negb]. case_bool_decide as Hp; [|done]. cbn [negb].
  assert (length (take TRON_ADDRESS_BYTES decoded) = TRON_ADDRESS_BYTES) as Hb
    by (rewrite length_take, Hl; done).
  rewrite AddressKey_new_21 by done. intros [= <-]. split; [by split|].
  cbn [AddressKey_as_bytes]. f_equal. rewrite <- Hc. symmetry. apply take_drop.
Qed.

(** C38: However an address is read (base58check, hexadecimal with or without
    its prefixes, or the twenty bytes of an event log), it is the canonical
    21 bytes that start with 0x41; and base58 text is accepted only when its
    last four bytes are the checksum of that address. *)
Theorem tron_addresses_are_canonical value bytes k :
  (from_base58 value = Ok k \/ from_hex value = Ok k \/ from_evm_bytes bytes = Ok k) ->
  TronAddress_wf k
  /\ (from_base58 value = Ok k ->
      bs58_decode (trim value)
      = Some (AddressKey_as_bytes k ++ take CHECKSUM_BYTES (double_sha256 (AddressKey_as_bytes k)))).
Proof.
  intros Hk. split; [|intros Hf; apply (from_base58_Ok _ _ Hf)].
  destruct Hk as [Hk|[Hk|Hk]]; [apply (from_base58_Ok _ _ Hk)|by apply from_hex_shape in Hk|].
  apply from_evm_bytes_Ok in Hk as [Hl ->]. split; [|done]. simpl. by rewrite Hl.
Qed.

(** Every canonical address survives each of its written forms: the
    base58check text, the 42 hexadecimal digits with or without [0x], the 40
    digits without the network byte, and the twenty bytes of an event log
    all read back as the same address. *)
Theorem tron_address_round_trips k :
  TronAddress_wf k ->
  (exists text, to_base58 k = Ok text /\ from_base58 text = Ok k)
  /\ from_hex (AddressKey_to_hex k) = Ok k
  /\ from_hex ("0x" +:+ AddressKey_to_hex k) = Ok k
  /\ from_hex (hex_of_bytes (tail (AddressKey_as_bytes k))) = Ok k
  /\ from_evm_bytes (tail (AddressKey_as_bytes k)) = Ok k.
Proof.
  destruct k as [bytes]. intros [Hl Hh]. cbn [AddressKey_as_bytes] in *.
  destruct bytes as [|p evm]; [done|]. injection Hh as ->. cbn [tail].
  assert (length evm = 20%nat) as Hevm by (unfold TRON_ADDRESS_BYTES in Hl; simpl in Hl; lia).
  assert (Hfrom : from_evm_bytes evm = Ok (mkAddressKey (TRON_ADDRESS_PREFIX :: evm)))
    by (by apply from_evm_bytes_Ok).
  assert (H21 : forall value, trim value = value ->
    default value (strip_prefix "0x" value) = hex_of_bytes (TRON_ADDRESS_PREFIX :: evm) ->
    from_hex value = Ok (mkAddressKey (TRON_ADDRESS_PREFIX :: evm))).
  { intros value Ht Hs. unfold from_hex. cbv zeta. rewrite Ht, Hs, decode_hex_of_bytes.
    cbn [mbind result_bind]. rewrite Hl, Nat.eqb_refl, bool_decide_eq_true_2 by done. cbn [negb].
    by rewrite AddressKey_new_21. }
  pose proof (hex_of_bytes_not_blank (TRON_ADDRESS_PREFIX :: evm)) as Hnb.
  split_and!; [| | | |done].
  - unfold to_base58. cbn [AddressKey_as_bytes]. rewrite Hl, Nat.eqb_refl, bool_decide_eq_true_2 by done.
    cbn [negb]. eexists. split; [done|]. unfold from_base58.
    rewrite trim_id, bs58_decode_encode by apply bs58_encode_not_blank. cbn [ok_or mbind result_bind].
    set (body := TRON_ADDRESS_PREFIX :: evm) in *.
    rewrite length_app, length_take, Hl. unfold double_sha256 at 1. rewrite sha256_length.
    change (TRON_ADDRESS_BYTES + CHECKSUM_BYTES `min` 32)%nat with (TRON_ADDRESS_BYTES + CHECKSUM_BYTES)%nat.
    rewrite Nat.eqb_refl. cbn [negb].
    rewrite take_app_length', drop_app_length' by done.
    rewrite !bool_decide_eq_true_2 by done. cbn [negb]. by rewrite AddressKey_new_21.
  - apply H21; [by apply trim_id|]. unfold AddressKey_to_hex. cbn [AddressKey_as_bytes].
    by destruct (hex_of_bytes_no_prefix (TRON_ADDRESS_PREFIX :: evm)) as [->|].
  - apply H21; [|done]. apply trim_id. unfold AddressKey_to_hex. cbn [AddressKey_as_bytes].
    rewrite !str_app_cons. exact Hnb.
  - unfold from_hex. cbv zeta. rewrite trim_id by apply hex_of_bytes_not_blank.
    destruct (hex_of_bytes_no_prefix evm) as [->| ->]; [|done]. cbn [default].
    rewrite decode_hex_of_bytes. cbn [mbind result_bind]. by rewrite Hevm.
Qed.
End tron_address_properties.

Import ReferenceInstances.

Definition sample_tron_key : AddressKey := mkAddressKey (TRON_ADDRESS_PREFIX :: repeat x07 20).

Lemma tron_addresses_are_canonical_witness : TronAddress_wf sample_tron_key.
Proof.
  apply (tron_addresses_are_canonical "" (repeat x07 20) sample_tron_key). right. right. reflexivity.
Defined.

Lemma tron_address_round_trips_witness : from_hex (AddressKey_to_hex sample_tron_key) = Ok sample_tron_key.
Proof. apply (tron_address_round_trips sample_tron_key). split; reflexivity. Defined.
