(* ===== verification/Merchant.v ===== *)
(** * The merchant's requests

    [gateway-application/src/payment_intents.rs], [quotes.rs] and the ports
    they call: creating, reading and cancelling an order, issuing a quote for
    it on one of the merchant's addresses, and sweeping what expired.  The
    counters of [QuoteMetrics] are left out: no result depends on them. *)

From Stdlib Require Import Ascii String Strings.Byte.
From S2P Require Import Prelude RustStd Externals Effects Money PaymentIntent Quote Observations Operations.

Local Open Scope Z_scope.

Definition CREATE_ROUTE : string := "POST /v1/payment-intents".
Definition CANCEL_ROUTE : string := "POST /v1/payment-intents/:id/cancel".
Definition ISSUE_ROUTE : string := "POST /v1/payment-intents/:id/quotes".

(** ** Ports *)

Record ApiCredential := mkApiCredential { ap_merchant_id : Z; ap_key_id : Z }.
Inductive IdempotentCreate := Created (intent : PaymentIntent) | Replayed (intent : PaymentIntent).
Inductive IdempotentQuote := Issued (quote : IssuedQuote) | QuoteReplayed (quote : IssuedQuote).
Record ExpiryResult := mkExpiryResult { ex_quotes_expired : Z; ex_leases_archived : Z }.
Record CollectorCandidate := mkCollectorCandidate {
  cc_id : Z;
  cc_address : string;
  cc_open_leases : Z;                (* u64 *)
}.
Record QuoteContext := mkQuoteContext {
  qc_candidates : list CollectorCandidate;
  qc_price : option PriceSnapshot;
  qc_policy : option QuotePolicySnapshot;
  qc_rail_health : option RailHealthSnapshot;
  qc_rail_stop_reason : option string;
}.

Class PaymentIntentRepository (W : Type) := {
  authenticate_api_key : list byte -> eff W RepositoryError (option ApiCredential);
  create_idempotently : PaymentIntent -> Z -> string -> string -> list byte ->
    eff W RepositoryError IdempotentCreate;
  find_by_id : Z -> Z -> eff W RepositoryError (option PaymentIntent);
  cancel_idempotently : Z -> Z -> Z -> string -> string -> list byte -> option string ->
    eff W RepositoryError (option IdempotentCreate);
}.
Class QuoteRepository (W : Type) := {
  find_quote_replay : Z -> string -> string -> list byte -> eff W RepositoryError (option IssuedQuote);
  load_quote_context : Z -> Z -> CurrencyCode -> eff W RepositoryError QuoteContext;
  issue_quote_idempotently : QuotePlan -> Z -> string -> string -> list byte ->
    eff W RepositoryError IdempotentQuote;
  expire_quotes_and_archive_leases : Z -> Z -> eff W RepositoryError ExpiryResult;
}.

(** [Uuid::now_v7] *)
Class UuidSource (W : Type) := { source_uuid : W -> Z * W }.
Definition draw_uuid {W E} `{UuidSource W} : eff W E Z := fun w => let '(u, w) := source_uuid w in (Ok u, w).

(** ** Orders *)

Record CreatePaymentIntent := mkCreatePaymentIntent {
  ci_amount_minor : string;
  ci_currency : string;
  ci_reference : string;
  ci_description : option string;
  ci_metadata : json;
}.
Record CreatePaymentIntentResult := mkCreatePaymentIntentResult {
  cp_intent : PaymentIntent;
  cp_replayed : bool;
}.

Inductive ServiceError :=
  | SvcInvalidIdempotencyKey
  | SvcNotFound
  | InvalidCancellationReason
  | SvcMoney (e : MoneyError)
  | SvcPaymentIntent (e : PaymentIntentError)
  | SvcRepository (e : RepositoryError)
  | SvcInternal (detail : string).

Definition intent_key (key : string) : result ServiceError unit :=
  if negb (well_formed_key key) then Err SvcInvalidIdempotencyKey else Ok tt.

Definition string_or_null (s : option string) : json :=
  match s with Some s => JString s | None => JNull end.

Section payment_intents.
Context `{HashLib} `{JsonLib} `{UuidLib}.

(** [serde_json::to_vec] of the input, fields in the order of the struct. *)
Definition create_request_hash (input : CreatePaymentIntent) : list byte :=
  sha256 (as_bytes (json_to_string (JObject
    [("amount_minor", JString (ci_amount_minor input)); ("currency", JString (ci_currency input));
     ("reference", JString (ci_reference input)); ("description", string_or_null (ci_description input));
     ("metadata", ci_metadata input)]))).

(** [serde_json::to_vec(&(intent_id, reason))] *)
Definition cancel_request_hash (intent_id : Z) (reason : option string) : list byte :=
  sha256 (as_bytes (json_to_string (JArray [JString (uuid_to_string intent_id); string_or_null reason]))).

Definition cancellation_reason (reason : option string) : result ServiceError (option string) :=
  let reason := r ← reason; let r := trim r in if bool_decide (r = "") then None else Some r in
  _ ← guard_err (is_some_and reason (fun r => 500 <? chars_count r)) InvalidCancellationReason;
  Ok reason.

Context {W : Type} `{PaymentIntentRepository W} `{Clock W} `{UuidSource W}.

Definition create (merchant_id actor_key_id : Z) (idempotency_key : string) (input : CreatePaymentIntent)
    : eff W ServiceError CreatePaymentIntentResult :=
  _ ← lift (intent_key idempotency_key);
  let request_hash := create_request_hash input in
  currency ← lift (map_err SvcMoney (CurrencyCode_new (ci_currency input)));
  amount ← lift (map_err SvcMoney (FiatAmount_parse_positive currency (ci_amount_minor input)));
  now ← read_clock;
  id ← draw_uuid;
  intent ← lift (map_err SvcPaymentIntent (PaymentIntent_create id merchant_id amount
    (ci_reference input) (ci_description input) (ci_metadata input) now));
  stored ← eff_map_err SvcRepository
    (create_idempotently intent actor_key_id CREATE_ROUTE idempotency_key request_hash);
  match stored with
  | Created intent => mret {| cp_intent := intent; cp_replayed := false |}
  | Replayed intent => mret {| cp_intent := intent; cp_replayed := true |}
  end.

Definition cancel (merchant_id actor_key_id : Z) (idempotency_key : string) (intent_id : Z)
    (reason : option string) : eff W ServiceError CreatePaymentIntentResult :=
  _ ← lift (intent_key idempotency_key);
  reason ← lift (cancellation_reason reason);
  let request_hash := cancel_request_hash intent_id reason in
  stored ← eff_map_err SvcRepository (cancel_idempotently merchant_id intent_id actor_key_id
    CANCEL_ROUTE idempotency_key request_hash reason);
  match stored with
  | None => lift (Err SvcNotFound)
  | Some (Created intent) => mret {| cp_intent := intent; cp_replayed := false |}
  | Some (Replayed intent) => mret {| cp_intent := intent; cp_replayed := true |}
  end.

Definition get (merchant_id intent_id : Z) : eff W ServiceError PaymentIntent :=
  row ← eff_map_err SvcRepository (find_by_id merchant_id intent_id);
  lift (ok_or row SvcNotFound).
End payment_intents.

(** ** Quotes *)

Record IssueQuote := mkIssueQuote { is_payment_intent_id : Z; is_asset_id : Z }.
Record IssueQuoteResult := mkIssueQuoteResult { ir_quote : IssuedQuote; ir_replayed : bool }.
Definition MAX_COLLECTOR_ATTEMPTS : nat := 8.
Record QuoteService := mkQuoteService { max_open_leases_per_collector : option Z }.

Inductive QuoteServiceError :=
  | QsInvalidIdempotencyKey
  | PaymentIntentNotFound
  | InvalidExpiryBatchLimit
  | RailStopped (reason : string)
  | CapacityExhausted
  | QsQuote (e : QuoteError)
  | QsRepository (e : RepositoryError).
Definition QuoteServiceError_is_transient (e : QuoteServiceError) : bool :=
  match e with QsRepository error => RepositoryError_is_transient error | _ => false end.

Definition quote_key (key : string) : result QuoteServiceError unit :=
  if negb (well_formed_key key) then Err QsInvalidIdempotencyKey else Ok tt.

(** Refusals another of the merchant's addresses may not share. *)
Definition is_spillover (e : RepositoryError) : bool :=
  match e with AmountSlotsExhausted | CollectorUnavailable => true | _ => false end.

Section quotes.
Context `{HashLib} `{U256Lib} `{TimeLib}.

Definition quote_request_hash (input : IssueQuote) : list byte :=
  sha256 (uuid_as_bytes (is_payment_intent_id input) ++ uuid_as_bytes (is_asset_id input)).

Definition is_admitted (self : QuoteService) (candidate : CollectorCandidate) : bool :=
  match max_open_leases_per_collector self with
  | None => true
  | Some limit => cc_open_leases candidate <? limit
  end.
Definition admitted (self : QuoteService) (context : QuoteContext) : list CollectorCandidate :=
  take MAX_COLLECTOR_ATTEMPTS (filter (fun c => is_admitted self c = true) (qc_candidates context)).

Context {W : Type} `{PaymentIntentRepository W} `{QuoteRepository W} `{Clock W} `{UuidSource W}.

(** The plan for one address. *)
Definition plan_for (merchant_id : Z) (intent : PaymentIntent) (input : IssueQuote)
    (context : QuoteContext) (candidate : CollectorCandidate) : eff W QuoteServiceError QuotePlan :=
  now ← read_clock;
  quote_id ← draw_uuid;
  attempt_id ← draw_uuid;
  lift (map_err QsQuote (QuotePlan_build quote_id attempt_id merchant_id (pi_id intent)
    (is_asset_id input) (cc_id candidate) (cc_address candidate) (pi_amount intent)
    (qc_price context) (qc_policy context) (qc_rail_health context) now)).

(** The loop over the admitted addresses. *)
Fixpoint try_addresses (merchant_id actor_key_id : Z) (idempotency_key : string) (input : IssueQuote)
    (request_hash : list byte) (intent : PaymentIntent) (context : QuoteContext)
    (candidates : list CollectorCandidate) (last_refusal : option RepositoryError)
    : eff W QuoteServiceError IssueQuoteResult :=
  match candidates with
  | [] => lift (Err (QsRepository (default CollectorUnavailable last_refusal)))
  | candidate :: candidates =>
      plan ← plan_for merchant_id intent input context candidate;
      outcome ← attempt (issue_quote_idempotently plan actor_key_id ISSUE_ROUTE idempotency_key request_hash);
      match outcome with
      | Ok (Issued quote) => mret {| ir_quote := quote; ir_replayed := false |}
      | Ok (QuoteReplayed quote) => mret {| ir_quote := quote; ir_replayed := true |}
      | Err error =>
          if is_spillover error
          then try_addresses merchant_id actor_key_id idempotency_key input request_hash intent context
                 candidates (Some error)
          else lift (Err (QsRepository error))
      end
  end.

Definition issue (self : QuoteService) (merchant_id actor_key_id : Z) (idempotency_key : string)
    (input : IssueQuote) : eff W QuoteServiceError IssueQuoteResult :=
  _ ← lift (quote_key idempotency_key);
  let request_hash := quote_request_hash input in
  replay ← eff_map_err QsRepository
    (find_quote_replay merchant_id ISSUE_ROUTE idempotency_key request_hash);
  match replay with
  | Some quote => mret {| ir_quote := quote; ir_replayed := true |}
  | None =>
      intent ← eff_map_err QsRepository (find_by_id merchant_id (is_payment_intent_id input));
      intent ← lift (ok_or intent PaymentIntentNotFound);
      context ← eff_map_err QsRepository
        (load_quote_context merchant_id (is_asset_id input) (fiat_currency (pi_amount intent)));
      match qc_rail_stop_reason context with
      | Some reason => lift (Err (RailStopped reason))
      | None =>
          match admitted self context with
          | [] => lift (Err CapacityExhausted)
          | candidates => try_addresses merchant_id actor_key_id idempotency_key input request_hash intent
                            context candidates None
          end
      end
  end.

(** [expire_due], which [ExpirySweeper::sweep_expired] calls. *)
Definition expire_due (limit : Z) : eff W QuoteServiceError ExpiryResult :=
  _ ← lift (guard_err ((limit =? 0) || (10000 <? limit)) InvalidExpiryBatchLimit);
  now ← read_clock;
  eff_map_err QsRepository (expire_quotes_and_archive_leases now limit).
End quotes.
