(* ===== verification/StorageMerchant.v ===== *)
(** * The merchant's requests in storage

    [gateway-storage/src/postgres.rs], [postgres/intents.rs] and
    [postgres/quotes.rs]: orders and quotes under idempotency keys, the
    exact-amount reservation on a collector, cancellation, and the sweep that
    expires quotes and archives reservations. *)

From Stdlib Require Import Ascii String Strings.Byte.
From stdpp Require Import gmap.
From S2P Require Import Prelude RustStd Externals Effects Money Chain PaymentIntent Quote Observations.
From S2P Require Import Settlement SettlementService Database StorageSettlement Operations StorageOperations.
From S2P Require Import TronAddress Merchant.

Local Open Scope Z_scope.

(** ** Rows *)

Record IssuedQuoteRow := mkIssuedQuoteRow {
  qw_id : Z;
  qw_attempt_id : Z;
  qw_payment_intent_id : Z;
  qw_asset_id : Z;
  qw_collector_address_id : Z;
  qw_collector_address : string;
  qw_price_snapshot_id : Z;
  qw_quote_policy_id : Z;
  qw_rail_health_snapshot_id : Z;
  qw_fiat_currency : string;
  qw_fiat_amount_minor : Z;
  qw_amount_raw : string;
  qw_rate_numerator : string;
  qw_rate_denominator : string;
  qw_price_sources : json;
  qw_price_observed_at : Z;
  qw_policy_version : string;
  qw_rail_health_observed_at : Z;
  qw_created_at : Z;
  qw_expires_at : Z;
  qw_late_payment_until : Z;
  qw_asset_chain : string;
  qw_asset_network : string;
  qw_asset_environment : string;
  qw_asset_symbol : string;
  qw_asset_decimals : Z;             (* i16 *)
  qw_contract_address_key : list byte;
  qw_checkout_token : string;
}.

(** A row of the context query; the lateral joins give a row or nothing. *)
Record QuoteContextRow := mkQuoteContextRow {
  xr_collector_address_id : Z;
  xr_collector_address : string;
  xr_valid_from : Z;                 (* the order of the rows *)
  xr_open_leases : Z;                (* i64 *)
  xr_price : option (Z * PriceSnapshotRow);
  xr_policy : option (Z * QuotePolicyRow);
  xr_rail : option (Z * RailHealthRow);
  xr_rail_stop_reason : option string;
}.

(** [HEX_DIGITS[byte >> 4]] and [HEX_DIGITS[byte & 0x0f]] *)
Definition HEX_DIGITS : string := "0123456789abcdef".
Definition hex_digit (nibble : Z) : string := substring (Z.to_nat nibble) 1 HEX_DIGITS.
Definition byte_hex (b : byte) : string :=
  String.append (hex_digit (Z.shiftr (byte_Z b) 4)) (hex_digit (Z.land (byte_Z b) 15)).

Section conversions.
Context `{U256Lib} `{HashLib} `{Base58Lib}.

Definition contract_display (chain : string) (key : list byte) : result RepositoryError string :=
  if bool_decide (chain = "tron") then
    address ← map_err (fun error => CorruptData (TronAddressError_to_string error))
      (if Nat.eqb (length key) 20 then from_evm_bytes key
       else map_err (fun _ => WrongLength) (AddressKey_new key));
    map_err (fun error => CorruptData (TronAddressError_to_string error)) (to_base58 address)
  else Ok (String.concat "" (map byte_hex key)).

Definition IssuedQuote_try_from (row : IssuedQuoteRow) : result RepositoryError IssuedQuote :=
  currency ← corrupt_money (CurrencyCode_new (qw_fiat_currency row));
  fiat_amount ← corrupt_money (FiatAmount_positive currency (qw_fiat_amount_minor row));
  amount_raw ← corrupt_money (RawAmount_from_str (qw_amount_raw row));
  rate_numerator ← corrupt_money (RawAmount_from_str (qw_rate_numerator row));
  rate_denominator ← corrupt_money (RawAmount_from_str (qw_rate_denominator row));
  _ ← guard_err (is_none (json_as_array (qw_price_sources row)))
        (CorruptData "quote price sources are not an array");
  decimals ← ok_or (checked 0 255 (qw_asset_decimals row)) (CorruptData "asset decimals out of range");
  contract_address ← contract_display (qw_asset_chain row) (qw_contract_address_key row);
  Ok {| iq_id := qw_id row; iq_attempt_id := qw_attempt_id row;
        iq_payment_intent_id := qw_payment_intent_id row; iq_asset_id := qw_asset_id row;
        iq_collector_address_id := qw_collector_address_id row;
        iq_collector_address := qw_collector_address row;
        iq_price_snapshot_id := qw_price_snapshot_id row; iq_quote_policy_id := qw_quote_policy_id row;
        iq_rail_health_snapshot_id := qw_rail_health_snapshot_id row;
        iq_fiat_amount := fiat_amount; iq_amount_raw := amount_raw;
        iq_rate_numerator := rate_numerator; iq_rate_denominator := rate_denominator;
        iq_price_sources := qw_price_sources row; iq_price_observed_at := qw_price_observed_at row;
        iq_policy_version := qw_policy_version row;
        iq_rail_health_observed_at := qw_rail_health_observed_at row;
        iq_created_at := qw_created_at row; iq_expires_at := qw_expires_at row;
        iq_late_payment_until := qw_late_payment_until row;
        iq_amount := RawAmount_to_decimal_string amount_raw decimals;
        iq_asset := {| qa_chain := qw_asset_chain row; qa_network := qw_asset_network row;
                       qa_chain_environment := qw_asset_environment row;
                       qa_symbol := qw_asset_symbol row; qa_decimals := decimals;
                       qa_contract_address := contract_address |};
        iq_checkout_token := qw_checkout_token row |}.

(** The columns of a lateral join are all there or none is, so [required]
    never finds one missing. *)
Definition price_of (entry : Z * PriceSnapshotRow) : result RepositoryError PriceSnapshot :=
  let '(id, row) := entry in
  rate_numerator ← corrupt_money (RawAmount_from_str (numeric_text (sp_rate_numerator row)));
  rate_denominator ← corrupt_money (RawAmount_from_str (numeric_text (sp_rate_denominator row)));
  Ok {| ps_id := id; ps_rate_numerator := rate_numerator; ps_rate_denominator := rate_denominator;
        ps_sources := sp_sources row; ps_observed_at := sp_observed_at row |}.
Definition policy_of (entry : Z * QuotePolicyRow) : result RepositoryError QuotePolicySnapshot :=
  let '(id, row) := entry in
  amount_slot_count ← ok_or (u32_try_from (qp_amount_slot_count row))
    (corrupt "policy amount slot count is negative");
  Ok {| Quote.qp_id := id; Quote.qp_version := qp_version row;
        Quote.qp_quote_ttl_seconds := qp_quote_ttl_seconds row;
        Quote.qp_late_payment_window_seconds := qp_late_payment_window_seconds row;
        Quote.qp_amount_slot_count := amount_slot_count;
        Quote.qp_max_price_age_seconds := qp_max_price_age_seconds row;
        Quote.qp_max_policy_age_seconds := qp_max_policy_age_seconds row;
        Quote.qp_max_rail_health_age_seconds := qp_max_rail_health_age_seconds row;
        Quote.qp_observed_at := qp_observed_at row |}.
Definition rail_of (entry : Z * RailHealthRow) : result RepositoryError RailHealthSnapshot :=
  let '(id, row) := entry in
  health ← (if bool_decide (rh_health row = "healthy") then Ok Quote.Healthy
            else if bool_decide (rh_health row = "degraded") then Ok Quote.Degraded
            else if bool_decide (rh_health row = "unavailable") then Ok Quote.Unavailable
            else Err (corrupt (String.append "unknown rail health: " (rh_health row))));
  Ok {| Quote.rh_id := id; Quote.rh_health := health; Quote.rh_observed_at := rh_observed_at row |}.

(** [Option::map(..).transpose()] *)
Definition transpose {E A B} (f : A -> result E B) (o : option A) : result E (option B) :=
  match o with Some a => Some <$> f a | None => Ok None end.

Definition CollectorCandidate_of (row : QuoteContextRow) : result RepositoryError CollectorCandidate :=
  open_leases ← ok_or (u64_try_from (xr_open_leases row)) (corrupt "negative lease count");
  Ok {| cc_id := xr_collector_address_id row; cc_address := xr_collector_address row;
        cc_open_leases := open_leases |}.
Definition QuoteContext_try_from (row : QuoteContextRow) : result RepositoryError QuoteContext :=
  price ← transpose price_of (xr_price row);
  policy ← transpose policy_of (xr_policy row);
  rail_health ← transpose rail_of (xr_rail row);
  candidate ← CollectorCandidate_of row;
  Ok {| qc_candidates := [candidate]; qc_price := price; qc_policy := policy;
        qc_rail_health := rail_health; qc_rail_stop_reason := xr_rail_stop_reason row |}.

(** A row of [payment_intents] with its key. *)
Definition PaymentIntent_try_from (entry : Z * IntentRow) : result RepositoryError PaymentIntent :=
  let '(id, row) := entry in
  currency ← map_err (fun error => CorruptData (MoneyError_to_string error)) (CurrencyCode_new (ir_currency row));
  amount ← map_err (fun error => CorruptData (MoneyError_to_string error))
             (FiatAmount_positive currency (ir_amount_minor row));
  status ← map_err (fun error => CorruptData (PaymentIntentError_to_string error))
             (PaymentIntentStatus_from_str (ir_status row));
  _ ← guard_err (negb (json_is_object (ir_metadata row)))
        (CorruptData "payment intent metadata is not an object");
  Ok {| pi_id := id; pi_merchant_id := ir_merchant_id row; pi_amount := amount; pi_status := status;
        pi_reference := ir_reference row; pi_description := ir_description row;
        pi_metadata := ir_metadata row; pi_created_at := ir_created_at row;
        pi_updated_at := ir_updated_at row |}.
End conversions.

(** Equality of two [JSONB] values, whose objects have their keys in one
    order. *)
Section json_eqb.
Variable json_eqb : json -> json -> bool.

Fixpoint json_items_eqb (a b : list json) : bool :=
  match a, b with
  | [], [] => true
  | x :: a, y :: b => json_eqb x y && json_items_eqb a b
  | _, _ => false
  end.
Fixpoint json_fields_eqb (a b : list (string * json)) : bool :=
  match a, b with
  | [], [] => true
  | (k, x) :: a, (l, y) :: b => bool_decide (k = l) && json_eqb x y && json_fields_eqb a b
  | _, _ => false
  end.
End json_eqb.
Fixpoint json_eqb (a b : json) : bool :=
  match a, b with
  | JNull, JNull => true
  | JBool x, JBool y => Bool.eqb x y
  | JNumber x, JNumber y | JString x, JString y => bool_decide (x = y)
  | JArray x, JArray y => json_items_eqb json_eqb x y
  | JObject x, JObject y => json_fields_eqb json_eqb x y
  | _, _ => false
  end.

(** ** Queries *)

Definition intent_row (merchant_id intent_id : Z) (db : Database) : option (Z * IntentRow) :=
  row ← payment_intents db !! intent_id;
  if ir_merchant_id row =? merchant_id then Some (intent_id, row) else None.

Definition idempotency_record (merchant_id : Z) (route idempotency_key : string) (db : Database)
    : option (list byte * Z) :=
  row ← api_idempotency_records db !! (merchant_id, route, idempotency_key);
  Some (id_request_hash row, id_resource_id row).

(** [SELECT EXISTS (.. decisions UNION ALL .. claims)] of an intent *)
Definition money_or_decision (intent_id : Z) (db : Database) : bool :=
  bool_decide (map_Exists (fun key _ => fst key = intent_id) (payment_settlement_decisions db))
  || bool_decide (map_Exists (fun _ claim => cr_payment_intent_id claim = intent_id)
                    (chain_transfer_intent_claims db)).

(** The collector policy of a merchant. *)
Definition receives_for (merchant_id : Z) (merchant : MerchantRow) (collector : CollectorRow) : bool :=
  (bool_decide (mr_collector_policy merchant = "own")
     && bool_decide (co_merchant_id collector = Some merchant_id))
  || (bool_decide (mr_collector_policy merchant = "shared") && is_none (co_merchant_id collector)).

(** [ORDER BY observed_at DESC, id DESC LIMIT 1] *)
Definition newest {V} (observed_at : V -> Z) (where_ : V -> bool) (m : gmap Z V) : option (Z * V) :=
  head (sort_by (fun a b => match observed_at (snd b) ?= observed_at (snd a) with
                            | Eq => fst b ?= fst a | c => c end)
          (filter (fun entry => where_ (snd entry) = true) (map_to_list m))).

Definition open_leases (collector_id : Z) (db : Database) : Z :=
  Z.of_nat (size (filter (fun '(_, lease) => al_collector_address_id lease = collector_id)
                    (amount_leases db))).

Definition context_row (merchant_id asset_id : Z) (currency : CurrencyCode) (now : Z) (db : Database)
    (entry : Z * CollectorRow) : option QuoteContextRow :=
  let '(id, collector) := entry in
  asset ← chain_assets db !! co_asset_id collector;
  merchant ← merchants db !! merchant_id;
  if (co_asset_id collector =? asset_id) && bool_decide (co_state collector = "active")
     && (co_valid_from collector <=? now) && bool_decide (at_status asset = "active")
     && receives_for merchant_id merchant collector
  then Some {|
    xr_collector_address_id := id; xr_collector_address := co_address_text collector;
    xr_valid_from := co_valid_from collector; xr_open_leases := open_leases id db;
    xr_price := newest sp_observed_at (fun snapshot => (sp_asset_id snapshot =? asset_id)
      && bool_decide (sp_fiat_currency snapshot = CurrencyCode_as_str currency)) (price_snapshots db);
    xr_policy := find_where (fun candidate => (qp_asset_id candidate =? asset_id)
      && bool_decide (qp_fiat_currency candidate = CurrencyCode_as_str currency)
      && bool_decide (qp_status candidate = "active")) (quote_policies db);
    xr_rail := newest rh_observed_at (fun snapshot => rh_asset_id snapshot =? asset_id)
      (rail_health_snapshots db);
    xr_rail_stop_reason := rs_reason_code ∘ snd <$> find_where (is_open_stop asset_id) (rail_stops db) |}
  else None.
(** [ORDER BY open_leases, collector.valid_from, collector.id LIMIT 8] *)
Definition by_load (a b : QuoteContextRow) : comparison :=
  match xr_open_leases a ?= xr_open_leases b with
  | Eq => match xr_valid_from a ?= xr_valid_from b with
          | Eq => xr_collector_address_id a ?= xr_collector_address_id b
          | c => c
          end
  | c => c
  end.
Definition context_rows (merchant_id asset_id : Z) (currency : CurrencyCode) (now : Z) (db : Database)
    : list QuoteContextRow :=
  take 8 (sort_by by_load
    (omap (context_row merchant_id asset_id currency now db) (map_to_list (collector_addresses db)))).

(** The collector, the evidence and the merchant a plan was built on are as
    the plan has them. *)
Definition collector_row (plan : QuotePlan) (slots : Z) (db : Database) : option Z :=
  collector ← collector_addresses db !! plan_collector_address_id plan;
  asset ← chain_assets db !! co_asset_id collector;
  price ← price_snapshots db !! plan_price_snapshot_id plan;
  policy ← quote_policies db !! plan_quote_policy_id plan;
  rail ← rail_health_snapshots db !! plan_rail_health_snapshot_id plan;
  merchant ← merchants db !! plan_merchant_id plan;
  let currency := CurrencyCode_as_str (fiat_currency (plan_fiat_amount plan)) in
  let unix_timestamp t := t / 1000000000 in
  if (co_asset_id collector =? plan_asset_id plan) && bool_decide (co_state collector = "active")
     && (co_valid_from collector <=? plan_created_at plan) && bool_decide (at_status asset = "active")
     && (sp_asset_id price =? co_asset_id collector) && bool_decide (sp_fiat_currency price = currency)
     && (sp_rate_numerator price =? as_u256 (plan_rate_numerator plan))
     && (sp_rate_denominator price =? as_u256 (plan_rate_denominator plan))
     && json_eqb (sp_sources price) (plan_price_sources plan)
     && (sp_observed_at price =? plan_price_observed_at plan)
     && (qp_asset_id policy =? co_asset_id collector) && bool_decide (qp_fiat_currency policy = currency)
     && bool_decide (qp_status policy = "active") && bool_decide (qp_version policy = plan_policy_version plan)
     && (qp_quote_ttl_seconds policy
           =? unix_timestamp (plan_expires_at plan) - unix_timestamp (plan_created_at plan))
     && (qp_late_payment_window_seconds policy
           =? unix_timestamp (plan_late_payment_until plan) - unix_timestamp (plan_expires_at plan))
     && (qp_amount_slot_count policy =? slots)
     && (qp_max_price_age_seconds policy =? plan_max_price_age_seconds plan)
     && (qp_max_policy_age_seconds policy =? plan_max_policy_age_seconds plan)
     && (qp_max_rail_health_age_seconds policy =? plan_max_rail_health_age_seconds plan)
     && (qp_observed_at policy =? plan_policy_observed_at plan)
     && (rh_asset_id rail =? co_asset_id collector) && bool_decide (rh_health rail = "healthy")
     && (rh_observed_at rail =? plan_rail_health_observed_at plan)
     && bool_decide (co_address_text collector = plan_collector_address plan)
     && receives_for (plan_merchant_id plan) merchant collector
  then Some (plan_collector_address_id plan) else None.

(** An amount is reserved on a collector. *)
Definition is_leased (collector_id amount_raw : Z) (db : Database) : bool :=
  bool_decide (map_Exists (fun _ lease => al_collector_address_id lease = collector_id
                                          /\ al_amount_raw lease = amount_raw) (amount_leases db)).
(** [generate_series(0, n - 1) .. WHERE NOT EXISTS .. ORDER BY slot LIMIT 1] *)
Definition free_slot (collector_id base_amount_raw slots : Z) (db : Database) : option Z :=
  List.find (fun slot => negb (is_leased collector_id (base_amount_raw + slot) db))
    (map Z.of_nat (seq 0 (Z.to_nat slots))).

Definition quote_row (merchant_id quote_id : Z) (db : Database) : option IssuedQuoteRow :=
  quote ← payment_quotes db !! quote_id;
  '(attempt_id, attempt) ← find_where (fun attempt => tt_quote_id attempt =? quote_id) (payment_attempts db);
  collector ← collector_addresses db !! qr_collector_address_id quote;
  asset ← chain_assets db !! qr_asset_id quote;
  if qr_merchant_id quote =? merchant_id
  then Some {|
    qw_id := quote_id; qw_attempt_id := attempt_id; qw_payment_intent_id := qr_payment_intent_id quote;
    qw_asset_id := qr_asset_id quote; qw_collector_address_id := qr_collector_address_id quote;
    qw_collector_address := co_address_text collector; qw_price_snapshot_id := qr_price_snapshot_id quote;
    qw_quote_policy_id := qr_quote_policy_id quote;
    qw_rail_health_snapshot_id := qr_rail_health_snapshot_id quote;
    qw_fiat_currency := qr_fiat_currency quote; qw_fiat_amount_minor := qr_fiat_amount_minor quote;
    qw_amount_raw := numeric_text (qr_amount_raw quote);
    qw_rate_numerator := numeric_text (qr_rate_numerator quote);
    qw_rate_denominator := numeric_text (qr_rate_denominator quote);
    qw_price_sources := qr_price_sources quote; qw_price_observed_at := qr_price_observed_at quote;
    qw_policy_version := qr_policy_version quote;
    qw_rail_health_observed_at := qr_rail_health_observed_at quote; qw_created_at := qr_created_at quote;
    qw_expires_at := qr_expires_at quote; qw_late_payment_until := qr_late_payment_until quote;
    qw_asset_chain := at_chain asset; qw_asset_network := at_network asset;
    qw_asset_environment := at_chain_environment asset; qw_asset_symbol := at_display_symbol asset;
    qw_asset_decimals := at_decimals asset; qw_contract_address_key := at_contract_address_key asset;
    qw_checkout_token := tt_checkout_token attempt |}
  else None.

(** The attempts a sweep expires, and the reservations it archives. *)
Definition due_attempts (now limit : Z) (db : Database) : list (Z * AttemptRow) :=
  take (Z.to_nat limit) (sort_by (fun a b =>
      match tt_quote_expires_at (snd a) ?= tt_quote_expires_at (snd b) with Eq => fst a ?= fst b | c => c end)
    (filter (fun entry => tt_status (snd entry) = "awaiting_payment" /\ tt_quote_expires_at (snd entry) <= now)
       (map_to_list (payment_attempts db)))).
Definition due_leases (now limit : Z) (db : Database) : list (Z * AmountLeaseRow * Z) :=
  take (Z.to_nat limit) (sort_by (fun a b =>
      match al_lease_until (snd (fst a)) ?= al_lease_until (snd (fst b)) with
      | Eq => fst (fst a) ?= fst (fst b) | c => c end)
    (omap (fun '(id, lease) =>
       attempt ← payment_attempts db !! al_attempt_id lease;
       if al_lease_until lease <=? now then Some (id, lease, tt_merchant_id attempt) else None)
       (map_to_list (amount_leases db)))).

(** ** Statements *)

Definition use_api_key (secret_hash : list byte) (now : Z) : statement (option (Z * Z)) := fun db =>
  match find_where (fun key => bool_decide (mk_secret_hash key = secret_hash) && is_none (mk_revoked_at key)
          && match merchants db !! mk_merchant_id key with
             | Some merchant => bool_decide (mr_status merchant = "active") | None => false end)
          (merchant_api_keys db) with
  | Some (id, key) =>
      Ok (Some (mk_merchant_id key, id),
          on_merchant_keys <[id := {| mk_merchant_id := mk_merchant_id key;
            mk_secret_hash := mk_secret_hash key; mk_last_used_at := Some now;
            mk_revoked_at := mk_revoked_at key |}]> db)
  | None => Ok (None, db)
  end.

(** [INSERT INTO api_idempotency_records .. ON CONFLICT .. DO NOTHING RETURNING resource_id] *)
Definition insert_idempotency (merchant_id : Z) (route idempotency_key : string) (request_hash : list byte)
    (resource_id : Z) : statement (option Z) := fun db =>
  _ ← check_constraint "api_idempotency_records_idempotency_key_check"
        (in_range 16 128 (char_length idempotency_key));
  _ ← check_constraint "api_idempotency_records_request_hash_check" (Nat.eqb (length request_hash) 32);
  let key := (merchant_id, route, idempotency_key) in
  if is_row (api_idempotency_records db) key then Ok (None, db)
  else
    _ ← foreign_key "api_idempotency_records_merchant_id_fkey" (is_row (merchants db) merchant_id);
    Ok (Some resource_id, on_idempotency <[key := {| id_request_hash := request_hash;
      id_resource_id := resource_id; id_completed_at := None |}]> db).

Definition complete_idempotency (merchant_id : Z) (route idempotency_key : string) (now : Z)
    : statement Z := fun db =>
  '(rows, table) ← update_row (merchant_id, route, idempotency_key) (fun _ => true)
    (fun row => Ok {| id_request_hash := id_request_hash row; id_resource_id := id_resource_id row;
                      id_completed_at := Some now |}) (api_idempotency_records db);
  Ok (rows, on_idempotency (fun _ => table) db).

Definition INTENT_STATES : list string :=
  ["requires_quote"; "awaiting_payment"; "partially_paid"; "risk_hold"; "paid"; "expired"; "cancelled"].

Definition insert_intent_row (id : Z) (row : IntentRow) : statement unit := fun db =>
  _ ← check_constraint "payment_intents_amount_minor_check" (0 <? ir_amount_minor row);
  _ ← check_constraint "payment_intents_currency_check"
        (bool_decide (to_ascii_uppercase (ir_currency row) = ir_currency row));
  _ ← check_constraint "payment_intents_status_check" (bool_decide (ir_status row ∈ INTENT_STATES));
  _ ← check_constraint "payment_intents_reference_check" (in_range 1 128 (char_length (ir_reference row)));
  _ ← check_constraint "payment_intents_description_check"
        (negb (is_some_and (ir_description row) (fun d => 500 <? char_length d)));
  _ ← check_constraint "payment_intents_metadata_check" (json_is_object (ir_metadata row));
  _ ← unique_key "payment_intents_pkey" (is_row (payment_intents db) id);
  _ ← unique_key "payment_intents_merchant_id_reference_key"
        (is_some (find_where (fun other => (ir_merchant_id other =? ir_merchant_id row)
           && bool_decide (ir_reference other = ir_reference row)) (payment_intents db)));
  _ ← foreign_key "payment_intents_merchant_id_fkey" (is_row (merchants db) (ir_merchant_id row));
  Ok (tt, on_intents <[id := row]> db).

(** [UPDATE payment_intents SET status, version = version + 1, updated_at WHERE id ..] *)
Definition set_intent (intent_id : Z) (where_ : IntentRow -> bool) (status : string) (now : Z)
    : statement Z := fun db =>
  '(rows, table) ← update_row intent_id where_
    (fun intent => version ← bigint_next (ir_version intent); Ok (intent_with status version now intent))
    (payment_intents db);
  Ok (rows, on_intents (fun _ => table) db).

(** [UPDATE payment_attempts .. WHERE payment_intent_id AND status RETURNING id] *)
Definition cancel_attempts (intent_id now : Z) : statement (list Z) := fun db =>
  let where_ attempt := (tt_payment_intent_id attempt =? intent_id)
                        && bool_decide (tt_status attempt = "awaiting_payment") in
  Ok (map fst (filter (fun entry => where_ (snd entry) = true) (map_to_list (payment_attempts db))),
      on_attempts (fmap (fun attempt => if where_ attempt then attempt_with "cancelled" now attempt
                                        else attempt)) db).

Definition insert_quote_row (id : Z) (row : QuoteRow) : statement unit := fun db =>
  _ ← check_constraint ""                (* the trigger payment_quotes_collector_tenancy *)
        (match collector_addresses db !! qr_collector_address_id row, merchants db !! qr_merchant_id row with
         | Some collector, Some merchant => receives_for (qr_merchant_id row) merchant collector
         | _, _ => false
         end);
  _ ← check_constraint "payment_quotes_fiat_currency_check"
        (bool_decide (to_ascii_uppercase (qr_fiat_currency row) = qr_fiat_currency row));
  _ ← check_constraint "payment_quotes_amount_check"
        ((0 <? qr_fiat_amount_minor row) && (0 <? qr_base_amount_raw row) && (0 <? qr_amount_raw row)
         && (0 <? qr_rate_numerator row) && (0 <? qr_rate_denominator row));
  _ ← check_constraint "payment_quotes_price_sources_check"
        (match json_as_array (qr_price_sources row) with Some (_ :: _) => true | _ => false end);
  _ ← check_constraint "payment_quotes_policy_version_check"
        (in_range 1 100 (char_length (qr_policy_version row)));
  _ ← check_constraint "payment_quotes_check"
        ((qr_created_at row <? qr_expires_at row) && (qr_expires_at row <? qr_late_payment_until row));
  _ ← unique_key "payment_quotes_pkey" (is_row (payment_quotes db) id);
  _ ← foreign_key "payment_quotes_intent_merchant_fk"
        (match payment_intents db !! qr_payment_intent_id row with
         | Some intent => ir_merchant_id intent =? qr_merchant_id row | None => false end);
  _ ← foreign_key "payment_quotes_collector_asset_fk"
        (match collector_addresses db !! qr_collector_address_id row with
         | Some collector => co_asset_id collector =? qr_asset_id row | None => false end);
  _ ← foreign_key "payment_quotes_price_snapshot_identity_fk"
        (match price_snapshots db !! qr_price_snapshot_id row with
         | Some price => (sp_asset_id price =? qr_asset_id row)
             && bool_decide (sp_fiat_currency price = qr_fiat_currency row) | None => false end);
  _ ← foreign_key "payment_quotes_policy_identity_fk"
        (match quote_policies db !! qr_quote_policy_id row with
         | Some policy => (qp_asset_id policy =? qr_asset_id row)
             && bool_decide (qp_fiat_currency policy = qr_fiat_currency row) | None => false end);
  _ ← foreign_key "payment_quotes_rail_health_identity_fk"
        (match rail_health_snapshots db !! qr_rail_health_snapshot_id row with
         | Some rail => rh_asset_id rail =? qr_asset_id row | None => false end);
  Ok (tt, on_quotes <[id := row]> db).

(** Live attempts of an intent. *)
Definition is_live_of (intent_id : Z) (attempt : AttemptRow) : bool :=
  (tt_payment_intent_id attempt =? intent_id) && bool_decide (tt_status attempt = "awaiting_payment").

(** The generated token has the format its check asks for. *)
Definition insert_attempt_row (id : Z) (row : AttemptRow) : statement unit := fun db =>
  _ ← check_constraint "payment_attempts_expected_amount_raw_check" (0 <? tt_expected_amount_raw row);
  _ ← check_constraint "payment_attempts_check" (tt_quote_expires_at row <? tt_late_payment_until row);
  _ ← unique_key "payment_attempts_pkey" (is_row (payment_attempts db) id);
  _ ← unique_key "payment_attempts_quote_id_key"
        (is_some (find_where (fun other => tt_quote_id other =? tt_quote_id row) (payment_attempts db)));
  _ ← unique_key "payment_attempts_one_live_per_intent"
        (is_some (find_where (is_live_of (tt_payment_intent_id row)) (payment_attempts db)));
  _ ← unique_key "payment_attempts_checkout_token_key"
        (is_some (find_where (fun other => bool_decide (tt_checkout_token other = tt_checkout_token row))
           (payment_attempts db)));
  _ ← foreign_key "payment_attempts_quote_identity_fk"
        (match payment_quotes db !! tt_quote_id row with
         | Some quote => (qr_merchant_id quote =? tt_merchant_id row)
             && (qr_payment_intent_id quote =? tt_payment_intent_id row)
             && (qr_collector_address_id quote =? tt_collector_address_id row)
         | None => false end);
  Ok (tt, on_attempts <[id := row]> db).

Definition attempt_is_at (attempt_id collector_id : Z) (db : Database) : bool :=
  match payment_attempts db !! attempt_id with
  | Some attempt => tt_collector_address_id attempt =? collector_id | None => false end.

Definition insert_lease_row (id : Z) (row : AmountLeaseRow) : statement unit := fun db =>
  _ ← check_constraint "amount_leases_check"
        ((0 <? al_amount_raw row) && (al_leased_from row <? al_lease_until row));
  _ ← unique_key "amount_leases_pkey" (is_row (amount_leases db) id);
  _ ← unique_key "amount_leases_attempt_id_key"
        (is_some (find_where (fun other => al_attempt_id other =? al_attempt_id row) (amount_leases db)));
  _ ← unique_key "amount_leases_collector_address_id_amount_raw_key"
        (is_leased (al_collector_address_id row) (al_amount_raw row) db);
  _ ← foreign_key "amount_leases_attempt_collector_fk"
        (attempt_is_at (al_attempt_id row) (al_collector_address_id row) db);
  Ok (tt, on_amount_leases <[id := row]> db).

Definition insert_history_row (id : Z) (row : LeaseHistoryRow) : statement unit := fun db =>
  let lease := ah_lease row in
  _ ← check_constraint "amount_lease_history_check"
        ((0 <? al_amount_raw lease) && (al_leased_from lease <=? ah_released_at row));
  _ ← unique_key "amount_lease_history_pkey" (is_row (amount_lease_history db) id);
  _ ← unique_key "amount_lease_history_lease_id_key"
        (is_some (find_where (fun other => ah_lease_id other =? ah_lease_id row) (amount_lease_history db)));
  _ ← unique_key "amount_lease_history_attempt_id_key"
        (is_some (find_where (fun other => al_attempt_id (ah_lease other) =? al_attempt_id lease)
           (amount_lease_history db)));
  _ ← foreign_key "amount_lease_history_attempt_collector_fk"
        (attempt_is_at (al_attempt_id lease) (al_collector_address_id lease) db);
  Ok (tt, on_lease_history <[id := row]> db).

Definition delete_lease (id : Z) : statement unit := fun db => Ok (tt, on_amount_leases (delete id) db).

(** [UPDATE payment_attempts SET status = 'expired', updated_at WHERE id] *)
Definition expire_attempt (attempt_id now : Z) : statement Z := fun db =>
  '(rows, table) ← update_row attempt_id (fun _ => true)
    (fun attempt => Ok (attempt_with "expired" now attempt)) (payment_attempts db);
  Ok (rows, on_attempts (fun _ => table) db).

(** [UPDATE payment_intents AS intent .. FROM payment_intents AS previous ..
    RETURNING previous.status] *)
Definition expire_intent (intent_id now : Z) : statement (option string) := fun db =>
  match payment_intents db !! intent_id with
  | None => Ok (None, db)
  | Some previous =>
      if bool_decide (ir_status previous = "awaiting_payment") then
        version ← bigint_next (ir_version previous);
        Ok (Some (ir_status previous), on_intents <[intent_id := intent_with "expired" version now previous]> db)
      else Ok (Some (ir_status previous), db)
  end.

(** The constraint a statement violated. *)
Definition violated (e : SqlError) : option string :=
  match e with SqlViolation _ constraint => Some constraint | _ => None end.

Section repository.
Context {R : Type} `{Postgres R} `{U256Lib} `{UuidLib} `{TimeSerde} `{HashLib} `{Base58Lib}.

Definition classify_insert_error (error : SqlError) : RepositoryError :=
  if bool_decide (violated error = Some "payment_intents_merchant_id_reference_key")
  then DuplicateReference else unavailable error.
Definition classify_quote_insert_error (error : SqlError) : RepositoryError :=
  if bool_decide (violated error = Some "payment_attempts_one_live_per_intent")
  then PaymentIntentNotQuotable else unavailable error.
Definition classify_lease_insert_error (error : SqlError) : RepositoryError :=
  if bool_decide (violated error = Some "amount_leases_collector_address_id_amount_raw_key")
     || bool_decide (violated error = Some "amount_leases_attempt_id_key")
  then AmountSlotsExhausted else unavailable error.

Definition insert_system_audit (merchant_id : Z) (action resource_type : string) (resource_id : Z)
    (payload : json) : storage (R := R) unit :=
  id ← new_uuid;
  eff_map_err unavailable (run_at (fun now => insert_audit id {|
    au_merchant_id := Some merchant_id; au_actor_type := "system"; au_actor_id := None;
    au_action := action; au_resource_type := resource_type; au_resource_id := Some resource_id;
    au_reason := None; au_payload := payload; au_created_at := now |})).

(** ** Orders *)

Definition pg_authenticate_api_key (secret_hash : list byte) : storage (R := R) (option ApiCredential) :=
  row ← eff_map_err unavailable (run_pool_at (fun now => use_api_key secret_hash now));
  mret ((fun '(merchant_id, key_id) => {| ap_merchant_id := merchant_id; ap_key_id := key_id |}) <$> row).

Definition find_intent (merchant_id intent_id : Z) : storage (R := R) (option PaymentIntent) :=
  row ← exec (select (intent_row merchant_id intent_id));
  lift (transpose PaymentIntent_try_from row).

Definition pg_find_by_id (merchant_id intent_id : Z) : storage (R := R) (option PaymentIntent) :=
  row ← pool_fetch (intent_row merchant_id intent_id);
  lift (transpose PaymentIntent_try_from row).

Definition insert_intent (intent : PaymentIntent) : storage (R := R) unit :=
  eff_map_err classify_insert_error (run (insert_intent_row (pi_id intent) {|
    ir_merchant_id := pi_merchant_id intent; ir_amount_minor := minor_units (pi_amount intent);
    ir_currency := CurrencyCode_as_str (fiat_currency (pi_amount intent));
    ir_status := PaymentIntentStatus_as_str (pi_status intent); ir_reference := pi_reference intent;
    ir_description := pi_description intent; ir_metadata := pi_metadata intent; ir_version := 0;
    ir_created_at := pi_created_at intent; ir_updated_at := pi_updated_at intent |})).

Definition insert_creation_audit_event (intent : PaymentIntent) (actor_key_id : Z) : storage (R := R) unit :=
  id ← new_uuid;
  eff_map_err unavailable (run_at (fun now => insert_audit id {|
    au_merchant_id := Some (pi_merchant_id intent); au_actor_type := "api_key";
    au_actor_id := Some actor_key_id; au_action := "payment_intent.created";
    au_resource_type := "payment_intent"; au_resource_id := Some (pi_id intent); au_reason := None;
    au_payload := JObject
      [("amount_minor", JString (dec_signed (minor_units (pi_amount intent))));
       ("currency", JString (CurrencyCode_as_str (fiat_currency (pi_amount intent))));
       ("reference", JString (pi_reference intent))];
    au_created_at := now |})).

(** The record a spent key points to, when it was spent on the same request. *)
Definition spent_record (merchant_id : Z) (route idempotency_key : string) (request_hash : list byte)
    : storage (R := R) Z :=
  existing ← fetch_one (idempotency_record merchant_id route idempotency_key);
  _ ← lift (guard_err (negb (bool_decide (fst existing = request_hash))) IdempotencyConflict);
  mret (snd existing).
Definition complete (merchant_id : Z) (route idempotency_key : string) : storage (R := R) unit :=
  _ ← eff_map_err unavailable (run_at (fun now => complete_idempotency merchant_id route idempotency_key now));
  mret tt.

Definition pg_create_idempotently (intent : PaymentIntent) (actor_key_id : Z) (route idempotency_key : string)
    (request_hash : list byte) : storage (R := R) IdempotentCreate :=
  _ ← eff_map_err unavailable begin_transaction;
  inserted ← exec (insert_idempotency (pi_merchant_id intent) route idempotency_key request_hash (pi_id intent));
  if is_some inserted then
    _ ← insert_intent intent;
    _ ← insert_creation_audit_event intent actor_key_id;
    _ ← complete (pi_merchant_id intent) route idempotency_key;
    _ ← eff_map_err unavailable commit;
    mret (Created intent)
  else
    resource ← spent_record (pi_merchant_id intent) route idempotency_key request_hash;
    replayed ← find_intent (pi_merchant_id intent) resource;
    replayed ← lift (ok_or replayed
      (CorruptData "idempotency record references a missing payment intent"));
    _ ← eff_map_err unavailable commit;
    mret (Replayed replayed).

Definition CANCELLABLE_STATES : list string := ["requires_quote"; "awaiting_payment"; "expired"].

Definition pg_cancel_idempotently (merchant_id intent_id actor_key_id : Z) (route idempotency_key : string)
    (request_hash : list byte) (reason : option string) : storage (R := R) (option IdempotentCreate) :=
  _ ← eff_map_err unavailable begin_transaction;
  recorded ← exec (insert_idempotency merchant_id route idempotency_key request_hash intent_id);
  if is_none recorded then
    resource ← spent_record merchant_id route idempotency_key request_hash;
    intent ← find_intent merchant_id resource;
    _ ← eff_map_err unavailable commit;
    mret (Replayed <$> intent)
  else
    status ← exec (select (fun db => ir_status ∘ snd <$> intent_row merchant_id intent_id db));
    match status with
    | None => mret None
    | Some status =>
        money ← exec (select (money_or_decision intent_id));
        _ ← lift (guard_err (negb (bool_decide (status ∈ CANCELLABLE_STATES)) || money)
                    PaymentIntentNotCancellable);
        now ← read_now_utc;
        _ ← exec (set_intent intent_id (fun _ => true) "cancelled" now);
        cancelled_attempts ← exec (cancel_attempts intent_id now);
        _ ← insert_system_audit merchant_id "payment_intent.cancelled" "payment_intent" intent_id
              (JObject [("actor_key_id", uuid_json actor_key_id);
                        ("cancelled_attempts", JArray (map uuid_json cancelled_attempts));
                        ("previous_status", JString status); ("reason", string_or_null reason)]);
        _ ← enqueue_outbox (Some merchant_id) "webhook" "payment_intent.cancelled" "payment_intent" intent_id
              (JObject [("payment_intent_id", uuid_json intent_id); ("reason", string_or_null reason)]) now;
        _ ← complete merchant_id route idempotency_key;
        intent ← find_intent merchant_id intent_id;
        intent ← lift (ok_or intent (CorruptData "a cancelled intent is missing"));
        _ ← eff_map_err unavailable commit;
        mret (Some (Created intent))
    end.

(** ** Quotes *)

Definition find_quote (merchant_id quote_id : Z) : storage (R := R) (option IssuedQuote) :=
  row ← exec (select (quote_row merchant_id quote_id));
  lift (transpose IssuedQuote_try_from row).

Definition pg_find_quote_replay (merchant_id : Z) (route idempotency_key : string) (request_hash : list byte)
    : storage (R := R) (option IssuedQuote) :=
  _ ← eff_map_err unavailable begin_transaction;
  existing ← exec (select (idempotency_record merchant_id route idempotency_key));
  match existing with
  | None => _ ← eff_map_err unavailable commit; mret None
  | Some (existing_hash, quote_id) =>
      _ ← lift (guard_err (negb (bool_decide (existing_hash = request_hash))) IdempotencyConflict);
      quote ← find_quote merchant_id quote_id;
      quote ← lift (ok_or quote (CorruptData "idempotency record references a missing quote"));
      _ ← eff_map_err unavailable commit;
      mret (Some quote)
  end.

Definition pg_load_quote_context (merchant_id asset_id : Z) (currency : CurrencyCode)
    : storage (R := R) QuoteContext :=
  rows ← eff_map_err unavailable
    (run_pool_at (fun now => select (context_rows merchant_id asset_id currency now)));
  candidates ← lift (collect CollectorCandidate_of rows);
  first ← lift (ok_or (head rows) CollectorUnavailable);
  context ← lift (QuoteContext_try_from first);
  mret {| qc_candidates := candidates; qc_price := qc_price context; qc_policy := qc_policy context;
          qc_rail_health := qc_rail_health context; qc_rail_stop_reason := qc_rail_stop_reason context |}.

(** [replace(gen_random_uuid()::text || gen_random_uuid()::text, '-', '')] *)
Definition without_dashes (s : string) : string :=
  string_of_list_ascii (List.filter (fun c => negb (ascii_Z c =? 45)) (list_ascii_of_string s)).
Definition new_checkout_token {E} : eff (Session R) E string :=
  first ← gen_random_uuid; second ← gen_random_uuid;
  mret (without_dashes (String.append (uuid_to_string first) (uuid_to_string second))).

Definition planned_quote (plan : QuotePlan) (amount_raw : RawAmount) : QuoteRow := {|
  qr_payment_intent_id := plan_payment_intent_id plan; qr_merchant_id := plan_merchant_id plan;
  qr_asset_id := plan_asset_id plan; qr_collector_address_id := plan_collector_address_id plan;
  qr_price_snapshot_id := plan_price_snapshot_id plan; qr_quote_policy_id := plan_quote_policy_id plan;
  qr_rail_health_snapshot_id := plan_rail_health_snapshot_id plan;
  qr_fiat_currency := CurrencyCode_as_str (fiat_currency (plan_fiat_amount plan));
  qr_fiat_amount_minor := minor_units (plan_fiat_amount plan);
  qr_base_amount_raw := as_u256 (plan_base_amount_raw plan); qr_amount_raw := as_u256 amount_raw;
  qr_rate_numerator := as_u256 (plan_rate_numerator plan);
  qr_rate_denominator := as_u256 (plan_rate_denominator plan);
  qr_price_sources := plan_price_sources plan; qr_price_observed_at := plan_price_observed_at plan;
  qr_policy_version := plan_policy_version plan;
  qr_rail_health_observed_at := plan_rail_health_observed_at plan; qr_created_at := plan_created_at plan;
  qr_expires_at := plan_expires_at plan; qr_late_payment_until := plan_late_payment_until plan |}.
Definition planned_attempt (plan : QuotePlan) (amount_raw : RawAmount) (token : string) : AttemptRow := {|
  tt_payment_intent_id := plan_payment_intent_id plan; tt_merchant_id := plan_merchant_id plan;
  tt_quote_id := plan_quote_id plan; tt_collector_address_id := plan_collector_address_id plan;
  tt_expected_amount_raw := as_u256 amount_raw; tt_memo_reference := None;
  tt_quote_expires_at := plan_expires_at plan; tt_late_payment_until := plan_late_payment_until plan;
  tt_status := "awaiting_payment"; tt_created_at := plan_created_at plan;
  tt_updated_at := plan_created_at plan; tt_checkout_token := token |}.
Definition planned_lease (plan : QuotePlan) (amount_raw : RawAmount) : AmountLeaseRow := {|
  al_collector_address_id := plan_collector_address_id plan; al_amount_raw := as_u256 amount_raw;
  al_attempt_id := plan_attempt_id plan; al_leased_from := plan_created_at plan;
  al_lease_until := plan_late_payment_until plan |}.

Definition insert_quote_attempt_and_lease (plan : QuotePlan) (amount_raw : RawAmount)
    : storage (R := R) Z :=
  _ ← eff_map_err classify_quote_insert_error
        (run (insert_quote_row (plan_quote_id plan) (planned_quote plan amount_raw)));
  token ← new_checkout_token;
  _ ← eff_map_err classify_quote_insert_error
        (run (insert_attempt_row (plan_attempt_id plan) (planned_attempt plan amount_raw token)));
  lease_id ← new_uuid;
  _ ← eff_map_err classify_lease_insert_error
        (run (insert_lease_row lease_id (planned_lease plan amount_raw)));
  mret lease_id.

(** The three events: action, resource and payload. *)
Definition quote_events (plan : QuotePlan) (lease_id : Z) (amount_raw : RawAmount)
    : list (string * string * Z * json) :=
  [("payment_quote.issued", "payment_quote", plan_quote_id plan,
    JObject [("amount_raw", JString (RawAmount_to_string amount_raw));
             ("attempt_id", uuid_json (plan_attempt_id plan));
             ("expires_at", odt_serialize (plan_expires_at plan));
             ("late_payment_until", odt_serialize (plan_late_payment_until plan));
             ("payment_intent_id", uuid_json (plan_payment_intent_id plan));
             ("policy_version", JString (plan_policy_version plan))]);
   ("amount_lease.allocated", "amount_lease", lease_id,
    JObject [("amount_raw", JString (RawAmount_to_string amount_raw));
             ("attempt_id", uuid_json (plan_attempt_id plan));
             ("collector_address_id", uuid_json (plan_collector_address_id plan));
             ("lease_until", odt_serialize (plan_late_payment_until plan))]);
   ("payment_intent.awaiting_payment", "payment_intent", plan_payment_intent_id plan,
    JObject [("attempt_id", uuid_json (plan_attempt_id plan)); ("quote_id", uuid_json (plan_quote_id plan))])].

Definition insert_quote_audit_events (plan : QuotePlan) (actor_key_id lease_id : Z) (amount_raw : RawAmount)
    : storage (R := R) unit :=
  for_each (fun _ '(action, resource_type, resource_id, payload) =>
    id ← new_uuid;
    exec (insert_audit id {|
      au_merchant_id := Some (plan_merchant_id plan); au_actor_type := "api_key";
      au_actor_id := Some actor_key_id; au_action := action; au_resource_type := resource_type;
      au_resource_id := Some resource_id; au_reason := None; au_payload := payload;
      au_created_at := plan_created_at plan |})) (quote_events plan lease_id amount_raw) tt.

(** [i32::try_from(plan.amount_slot_count())] *)
Definition slot_count (plan : QuotePlan) : result RepositoryError Z :=
  ok_or (i32_try_from (plan_amount_slot_count plan))
    (CorruptData "amount slot count exceeds PostgreSQL integer").

(** The locked intent still takes this quote. *)
Definition require_quotable (plan : QuotePlan) : storage (R := R) unit :=
  intent ← exec (select (intent_row (plan_merchant_id plan) (plan_payment_intent_id plan)));
  '(_, intent) ← lift (ok_or intent PaymentIntentNotQuotable);
  requotable ←
    (if bool_decide (ir_status intent = "expired")
     then money ← exec (select (money_or_decision (plan_payment_intent_id plan))); mret (negb money)
     else mret false);
  lift (guard_err ((negb (bool_decide (ir_status intent = "requires_quote")) && negb requotable)
                   || negb (ir_amount_minor intent =? minor_units (plan_fiat_amount plan))
                   || negb (bool_decide (ir_currency intent
                              = CurrencyCode_as_str (fiat_currency (plan_fiat_amount plan)))))
          PaymentIntentNotQuotable).

(** The collector row is locked and the smallest free amount taken. *)
Definition reserve_amount (plan : QuotePlan) : storage (R := R) RawAmount :=
  slots ← lift (slot_count plan);
  collector_exists ← exec (select (collector_row plan slots));
  _ ← lift (ok_or collector_exists CollectorUnavailable);
  slot ← exec (select (free_slot (plan_collector_address_id plan) (as_u256 (plan_base_amount_raw plan)) slots));
  slot ← lift (ok_or slot AmountSlotsExhausted);
  slot ← lift (ok_or (u32_try_from slot) (CorruptData "negative amount slot"));
  lift (map_err (fun error => CorruptData (MoneyError_to_string error))
    (RawAmount_checked_add_u32 (plan_base_amount_raw plan) slot)).

Definition pg_issue_quote_idempotently (plan : QuotePlan) (actor_key_id : Z) (route idempotency_key : string)
    (request_hash : list byte) : storage (R := R) IdempotentQuote :=
  _ ← eff_map_err unavailable begin_transaction;
  inserted ← exec (insert_idempotency (plan_merchant_id plan) route idempotency_key request_hash
    (plan_quote_id plan));
  if is_none inserted then
    resource ← spent_record (plan_merchant_id plan) route idempotency_key request_hash;
    quote ← find_quote (plan_merchant_id plan) resource;
    quote ← lift (ok_or quote (CorruptData "idempotency record references a missing quote"));
    _ ← eff_map_err unavailable commit;
    mret (QuoteReplayed quote)
  else
    _ ← require_quotable plan;
    amount_raw ← reserve_amount plan;
    lease_id ← insert_quote_attempt_and_lease plan amount_raw;
    updated ← exec (set_intent (plan_payment_intent_id plan) (fun intent =>
      (ir_merchant_id intent =? plan_merchant_id plan)
      && bool_decide (ir_status intent ∈ ["requires_quote"; "expired"])) "awaiting_payment" (plan_created_at plan));
    _ ← lift (guard_err (negb (updated =? 1)) PaymentIntentNotQuotable);
    _ ← insert_quote_audit_events plan actor_key_id lease_id amount_raw;
    _ ← complete (plan_merchant_id plan) route idempotency_key;
    quote ← find_quote (plan_merchant_id plan) (plan_quote_id plan);
    quote ← lift (ok_or quote (CorruptData "issued quote is missing"));
    _ ← eff_map_err unavailable commit;
    mret (Issued quote).

(** ** Expiry *)

(** The audit events of an expired attempt. *)
Definition expiry_events (attempt_id : Z) (attempt : AttemptRow) (intent_status : string) (now : Z)
    : list (string * string * Z * json) :=
  let quote_id := tt_quote_id attempt in
  let intent_id := tt_payment_intent_id attempt in
  [("payment_quote.expired", "payment_quote", quote_id,
    JObject [("attempt_id", uuid_json attempt_id); ("expired_at", odt_serialize now)]);
   ("payment_attempt.expired", "payment_attempt", attempt_id,
    JObject [("expired_at", odt_serialize now); ("quote_id", uuid_json quote_id)]);
   if bool_decide (intent_status = "awaiting_payment") then
     ("payment_intent.expired", "payment_intent", intent_id,
      JObject [("attempt_id", uuid_json attempt_id); ("expired_at", odt_serialize now);
               ("quote_id", uuid_json quote_id)])
   else if bool_decide (intent_status ∈ ["partially_paid"; "risk_hold"]) then
     ("payment_intent.quote_window_closed", "payment_intent", intent_id,
      JObject [("attempt_id", uuid_json attempt_id); ("expired_at", odt_serialize now);
               ("kept_status", JString intent_status)])
   else
     ("payment_intent.inconsistent_attempt_expired", "payment_intent", intent_id,
      JObject [("attempt_id", uuid_json attempt_id); ("expired_at", odt_serialize now);
               ("intent_status", JString intent_status)])].

Definition expire_one (now : Z) (entry : Z * AttemptRow) : storage (R := R) unit :=
  let '(attempt_id, attempt) := entry in
  updated ← exec (expire_attempt attempt_id now);
  _ ← lift (guard_err (negb (updated =? 1))
              (CorruptData "a locked attempt due for expiry could not be expired"));
  status ← exec (fun db => '(row, db) ← expire_intent (tt_payment_intent_id attempt) now db;
                           match row with Some status => Ok (status, db) | None => Err SqlRowNotFound end);
  for_each (fun _ '(action, resource_type, resource_id, payload) =>
    insert_system_audit (tt_merchant_id attempt) action resource_type resource_id payload)
    (expiry_events attempt_id attempt status now) tt.

Definition archive_one (now : Z) (entry : Z * AmountLeaseRow * Z) : storage (R := R) unit :=
  let '(lease_id, lease, merchant_id) := entry in
  id ← new_uuid;
  _ ← exec (insert_history_row id {| ah_lease_id := lease_id; ah_lease := lease; ah_released_at := now;
                                    ah_release_reason := "expired" |});
  _ ← exec (delete_lease lease_id);
  insert_system_audit merchant_id "amount_lease.archived" "amount_lease" lease_id
    (JObject [("amount_raw", JString (numeric_text (al_amount_raw lease)));
              ("attempt_id", uuid_json (al_attempt_id lease)); ("release_reason", JString "expired");
              ("released_at", odt_serialize now)]).

Definition pg_expire_quotes_and_archive_leases (now limit : Z) : storage (R := R) ExpiryResult :=
  _ ← eff_map_err unavailable begin_transaction;
  due ← exec (select (due_attempts now limit));
  _ ← for_each (fun _ entry => expire_one now entry) due tt;
  leases ← exec (select (due_leases now limit));
  _ ← for_each (fun _ entry => archive_one now entry) leases tt;
  quotes_expired ← lift (ok_or (u64_try_from (Z.of_nat (length due)))
    (CorruptData "expiry result count overflow"));
  leases_archived ← lift (ok_or (u64_try_from (Z.of_nat (length leases)))
    (CorruptData "archive result count overflow"));
  _ ← eff_map_err unavailable commit;
  mret {| ex_quotes_expired := quotes_expired; ex_leases_archived := leases_archived |}.

(** [impl PaymentIntentRepository] and [impl QuoteRepository for PostgresRepository] *)
#[export] Instance postgres_payment_intents : PaymentIntentRepository (Session R) := {|
  authenticate_api_key := pg_authenticate_api_key;
  create_idempotently := pg_create_idempotently;
  find_by_id := pg_find_by_id;
  cancel_idempotently := pg_cancel_idempotently |}.
#[export] Instance postgres_quotes : QuoteRepository (Session R) := {|
  find_quote_replay := pg_find_quote_replay;
  load_quote_context := pg_load_quote_context;
  issue_quote_idempotently := pg_issue_quote_idempotently;
  expire_quotes_and_archive_leases := pg_expire_quotes_and_archive_leases |}.
#[export] Instance session_uuid : UuidSource (Session R) := {|
  source_uuid s := let '(u, r) := now_v7 (runtime s) in
                   (u, mkSession (committed s) (working s) (transaction_now s) r) |}.
End repository.
