(* ===== verification/MerchantBooks.v ===== *)
(** * The merchant's orders in the books

    What [StorageMerchant] does to the tables: specifications of creation,
    quoting, cancellation and expiry, the lifecycle of an order across every
    call of the gateway, the exclusive reservation of exact amounts, and the
    replay of a request under its key. *)

From Stdlib Require Import Ascii String Strings.Byte.
From stdpp Require Import gmap.
From S2P Require Import Prelude RustStd Externals Effects Money Chain PaymentIntent Quote Observations.
From S2P Require Import Settlement SettlementService Database StorageSettlement SettlementBooks.
From S2P Require Import Operations StorageOperations OperationsBooks TronAddress Merchant StorageMerchant.

Local Open Scope Z_scope.

(** ** Statements *)

(** Takes a chain of checks apart and leaves the row written. *)
Ltac checks H := repeat (apply res_bind_Ok in H as (? & _ & H)).

(** The record of a key is written first: what follows does not see it. *)
Section commute.
Context (f : gmap (Z * string * string) IdempotencyRow -> gmap (Z * string * string) IdempotencyRow).

Lemma key_audit g db : on_idempotency f (on_audit g db) = on_audit g (on_idempotency f db).
Proof. reflexivity. Qed.
Lemma key_intents g db : on_idempotency f (on_intents g db) = on_intents g (on_idempotency f db).
Proof. reflexivity. Qed.
Lemma key_quotes g db : on_idempotency f (on_quotes g db) = on_quotes g (on_idempotency f db).
Proof. reflexivity. Qed.
Lemma key_attempts g db : on_idempotency f (on_attempts g db) = on_attempts g (on_idempotency f db).
Proof. reflexivity. Qed.
Lemma key_leases g db : on_idempotency f (on_amount_leases g db) = on_amount_leases g (on_idempotency f db).
Proof. reflexivity. Qed.
Lemma key_events g db : on_idempotency f (on_domain_events g db) = on_domain_events g (on_idempotency f db).
Proof. reflexivity. Qed.
Lemma key_decisions g db : on_idempotency f (on_decisions g db) = on_decisions g (on_idempotency f db).
Proof. reflexivity. Qed.
Lemma key_payment_events g db :
  on_idempotency f (on_payment_events g db) = on_payment_events g (on_idempotency f db).
Proof. reflexivity. Qed.
End commute.

Lemma key_key k v w db : on_idempotency <[k := v]> (on_idempotency <[k := w]> db) = on_idempotency <[k := v]> db.
Proof. unfold on_idempotency. simpl. by rewrite insert_insert_eq. Qed.

Create Rewrite HintDb keys.
#[export] Hint Rewrite key_audit key_intents key_quotes key_attempts key_leases key_events key_decisions
  key_payment_events key_key : keys.
(** Two ways of writing the same database. *)
Ltac same_db := autorewrite with keys; reflexivity.

Lemma insert_audit_Ok id row db u db' : insert_audit id row db = Ok (u, db') -> audited db db'.
Proof. unfold insert_audit. intros H. checks H. injection H as _ <-. by eexists. Qed.

Lemma audited_refl db : audited db db.
Proof. exists (audit_events db). by destruct db. Qed.
Lemma audited_trans db1 db2 db3 : audited db1 db2 -> audited db2 db3 -> audited db1 db3.
Proof. intros [t ->] [t' ->]. by exists t'. Qed.

Lemma insert_idempotency_Ok m route key hash resource db r db' :
  insert_idempotency m route key hash resource db = Ok (r, db') ->
  (r = None /\ db' = db /\ is_Some (api_idempotency_records db !! (m, route, key)))
  \/ (r = Some resource /\ api_idempotency_records db !! (m, route, key) = None
      /\ is_Some (merchants db !! m)
      /\ db' = on_idempotency <[(m, route, key) := mkIdempotencyRow hash resource None]> db).
Proof.
  unfold insert_idempotency. intros H. do 2 apply res_bind_Ok in H as (? & _ & H).
  destruct (is_row (api_idempotency_records db) _) eqn:Hr.
  - injection H as <- <-. left. split_and!; [done..|by apply is_row_true].
  - unfold foreign_key in H. apply res_bind_Ok in H as (? & Hm%guard_err_Ok & H). injection H as <- <-.
    right. split_and!; [done|by apply is_row_false|by apply is_row_true, negb_false_iff|done].
Qed.

Lemma complete_idempotency_Ok m route key now row db n db' :
  api_idempotency_records db !! (m, route, key) = Some row ->
  complete_idempotency m route key now db = Ok (n, db') ->
  db' = on_idempotency <[(m, route, key) :=
          mkIdempotencyRow (id_request_hash row) (id_resource_id row) (Some now)]> db.
Proof.
  intros Hrow. unfold complete_idempotency, update_row. rewrite Hrow. cbn. by intros [= _ <-].
Qed.

Lemma set_intent_Ok i where_ status t db n db' :
  set_intent i where_ status t db = Ok (n, db') ->
  (n = 0 /\ db' = db /\ (forall row, payment_intents db !! i = Some row -> where_ row = false))
  \/ exists row version, payment_intents db !! i = Some row /\ where_ row = true /\ n = 1
     /\ db' = on_intents <[i := intent_with status version t row]> db.
Proof.
  unfold set_intent. intros H. destruct (update_row _ _ _ _) as [[rows table]|] eqn:Hu; simpl in H; simplify_eq.
  apply update_row_Ok in Hu as [(-> & -> & Hno)|(row & row' & Hrow & Hw & Hset & -> & ->)].
  - left. split_and!; [done|by destruct db|done].
  - right. destruct (bigint_next _) as [v|]; simpl in Hset; simplify_eq. by exists row, v.
Qed.

Section specs.
Context {R : Type} `{Postgres R} `{U256Lib} `{UuidLib} `{TimeSerde} `{HashLib} `{Base58Lib}.

Lemma insert_system_audit_spec m action type id payload db now :
  within db now (insert_system_audit (R := R) m action type id payload) (fun _ => audited db).
Proof.
  apply within_bind_uuid. intros u. apply within_map_err, within_run_at. intros [] db' Hst.
  by eapply insert_audit_Ok.
Qed.

Lemma complete_spec m route key row db now :
  api_idempotency_records db !! (m, route, key) = Some row ->
  within db now (complete (R := R) m route key) (fun _ db' => exists t,
    db' = on_idempotency <[(m, route, key) :=
            mkIdempotencyRow (id_request_hash row) (id_resource_id row) (Some t)]> db).
Proof.
  intros Hrow. apply within_bind_run_at. intros n db' Hst. apply within_ret.
  exists now. by eapply complete_idempotency_Ok.
Qed.

(** A spent key answers for the request it was spent on. *)
Lemma spent_record_spec m route key hash db now :
  within db now (spent_record (R := R) m route key hash) (fun resource db' => db' = db /\
    exists row, api_idempotency_records db !! (m, route, key) = Some row
      /\ id_request_hash row = hash /\ id_resource_id row = resource).
Proof.
  apply within_bind_exec. intros [h resource] db' Hst. unfold idempotency_record in Hst.
  destruct (api_idempotency_records db !! _) as [row|] eqn:Hrow; simpl in Hst; simplify_eq.
  apply within_bind_lift. intros _ Hh%guard_err_Ok. bool_to_prop. apply within_ret. split; [done|].
  by exists row.
Qed.

Lemma find_intent_spec m i db now :
  within db now (find_intent (R := R) m i) (fun p db' => db' = db /\
    transpose PaymentIntent_try_from (intent_row m i db) = Ok p).
Proof. apply within_bind_select, within_lift. done. Qed.
Lemma find_quote_spec m q db now :
  within db now (find_quote (R := R) m q) (fun p db' => db' = db /\
    transpose IssuedQuote_try_from (quote_row m q db) = Ok p).
Proof. apply within_bind_select, within_lift. done. Qed.

(** ** Creation *)

(** The row of a new order. *)
Definition stored (intent : PaymentIntent) : IntentRow := {|
  ir_merchant_id := pi_merchant_id intent; ir_amount_minor := minor_units (pi_amount intent);
  ir_currency := CurrencyCode_as_str (fiat_currency (pi_amount intent));
  ir_status := PaymentIntentStatus_as_str (pi_status intent); ir_reference := pi_reference intent;
  ir_description := pi_description intent; ir_metadata := pi_metadata intent; ir_version := 0;
  ir_created_at := pi_created_at intent; ir_updated_at := pi_updated_at intent |}.

(** A key spent on this request, and the resource it was spent on. *)
Definition spent (m : Z) (route key : string) (hash : list byte) (db : Database) (resource : Z) : Prop :=
  exists row, api_idempotency_records db !! (m, route, key) = Some row
    /\ id_request_hash row = hash /\ id_resource_id row = resource.

Definition replay_of (m : Z) (route key : string) (hash : list byte) (db : Database) (p : PaymentIntent) : Prop :=
  exists resource entry, spent m route key hash db resource
    /\ intent_row m resource db = Some entry /\ PaymentIntent_try_from entry = Ok p.

Definition create_step (intent : PaymentIntent) (route key : string) (hash : list byte) (db : Database)
    (result : IdempotentCreate) (db' : Database) : Prop :=
  let m := pi_merchant_id intent in
  (result = Created intent
   /\ api_idempotency_records db !! (m, route, key) = None /\ payment_intents db !! pi_id intent = None
   /\ map_Forall (fun _ other => ir_merchant_id other = m -> ir_reference other <> pi_reference intent)
        (payment_intents db)
   /\ exists record, id_request_hash record = hash /\ id_resource_id record = pi_id intent
      /\ audited (on_idempotency <[(m, route, key) := record]>
                    (on_intents <[pi_id intent := stored intent]> db)) db')
  \/ (exists p, result = Replayed p /\ replay_of m route key hash db p /\ db' = db).

Lemma find_where_none {K V} `{Countable K} (p : V -> bool) (m : gmap K V) :
  is_some (find_where p m) = false -> map_Forall (fun _ v => p v = false) m.
Proof. intros Hf. apply find_where_None. by destruct (find_where p m). Qed.

Lemma insert_intent_row_Ok id row db u db' :
  insert_intent_row id row db = Ok (u, db') ->
  payment_intents db !! id = None
  /\ map_Forall (fun _ other => ir_merchant_id other = ir_merchant_id row ->
       ir_reference other <> ir_reference row) (payment_intents db)
  /\ db' = on_intents <[id := row]> db.
Proof.
  unfold insert_intent_row. intros Hst. do 6 apply res_bind_Ok in Hst as (? & _ & Hst).
  apply res_bind_Ok in Hst as (? & Hid%guard_err_Ok & Hst).
  apply res_bind_Ok in Hst as (? & Href%guard_err_Ok & Hst). checks Hst. injection Hst as _ <-.
  split_and!; [by apply is_row_false| |done]. apply find_where_none in Href.
  intros k other Ho Hm Hr. specialize (Href k other Ho). simpl in Href.
  rewrite Hm, Hr, Z.eqb_refl, bool_decide_eq_true_2 in Href by done. done.
Qed.

Lemma transpose_Some {E A B} (f : A -> result E B) o b :
  transpose f o = Ok (Some b) -> exists a, o = Some a /\ f a = Ok b.
Proof. destruct o as [a|]; [|done]. simpl. destruct (f a) eqn:Hf; [|done]. intros [= <-]. by exists a. Qed.

Lemma pg_create_transacts intent actor route key hash :
  transacts (create_step intent route key hash) (pg_create_idempotently (R := R) intent actor route key hash).
Proof.
  intros db0 db now. apply ends_begin. intros now'. apply ends_bind_exec. intros inserted db1 Hins.
  apply insert_idempotency_Ok in Hins as [(-> & -> & _)|(-> & Hnone & _ & ->)]; cbn [is_some].
  - eapply ends_bind; [apply spent_record_spec|]. intros resource db1 [-> Hsp].
    eapply ends_bind; [apply find_intent_spec|]. intros found db1 [-> Hf].
    apply ends_bind_lift. intros p ->%ok_or_Ok. apply transpose_Some in Hf as (entry & He & Hp).
    apply ends_commit. right. exists p. split_and!; [done| |done]. by exists resource, entry.
  - apply ends_bind_run_at. intros [] db1 (Hid & Href & ->)%insert_intent_row_Ok. cbn in Hid, Href.
    eapply (ends_bind _ _ _ _ _ (fun _ => audited _)).
    { apply within_bind_uuid. intros u. apply within_map_err, within_run_at. intros [] db' Hst.
      by eapply insert_audit_Ok. }
    intros [] db1 [trail ->]. eapply ends_bind; [apply complete_spec; cbn; by rewrite lookup_insert_eq|].
    intros [] db1 [t ->]. apply ends_commit. left. split_and!; [done..|].
    exists (mkIdempotencyRow hash (pi_id intent) (Some t)). split_and!; [done..|]. exists trail. same_db.
Qed.

(** ** Cancellation *)

(** The live attempts of an order, closed. *)
Definition close_attempts (i now : Z) (attempts : gmap Z AttemptRow) : gmap Z AttemptRow :=
  (fun attempt => if is_live_of i attempt then attempt_with "cancelled" now attempt else attempt) <$> attempts.

Definition cancel_step (m i : Z) (route key : string) (hash : list byte) (db : Database)
    (result : option IdempotentCreate) (db' : Database) : Prop :=
  (result = None /\ db' = db)
  \/ (exists p, result = Some (Replayed p) /\ replay_of m route key hash db p /\ db' = db)
  \/ (exists p row record version now trail db1,
        result = Some (Created p) /\ api_idempotency_records db !! (m, route, key) = None
        /\ intent_row m i db = Some (i, row) /\ ir_status row ∈ CANCELLABLE_STATES
        /\ money_or_decision i db = false
        /\ PaymentIntent_try_from (i, intent_with "cancelled" version now row) = Ok p
        /\ id_request_hash record = hash /\ id_resource_id record = i
        /\ queued (fun _ => 0%nat)
             (on_audit (fun _ => trail) (on_attempts (close_attempts i now)
                (on_intents <[i := intent_with "cancelled" version now row]> db))) db1
        /\ db' = on_idempotency <[(m, route, key) := record]> db1).

Lemma intent_row_Some m i db e :
  intent_row m i db = Some e -> exists row, e = (i, row) /\ payment_intents db !! i = Some row
    /\ ir_merchant_id row = m.
Proof.
  unfold intent_row. destruct (payment_intents db !! i) as [row|] eqn:Hrow; [|done]. simpl.
  destruct (Z.eqb_spec (ir_merchant_id row) m); [|done]. intros [= <-]. by exists row.
Qed.

Lemma pg_cancel_transacts m i actor route key hash reason :
  transacts (cancel_step m i route key hash)
    (pg_cancel_idempotently (R := R) m i actor route key hash reason).
Proof.
  intros db0 db now. apply ends_begin. intros now'. apply ends_bind_exec. intros inserted db1 Hins.
  apply insert_idempotency_Ok in Hins as [(-> & -> & _)|(-> & Hnone & _ & ->)]; cbn [is_none].
  { eapply ends_bind; [apply spent_record_spec|]. intros resource db1 [-> Hsp].
    eapply ends_bind; [apply find_intent_spec|]. intros [p|] db1 [-> Hf]; apply ends_commit; [|by left].
    apply transpose_Some in Hf as (entry & He & Hp). right; left. exists p.
    split_and!; [done| |done]. by exists resource, entry. }
  apply ends_bind_select. cbn. unfold intent_row at 1. cbn.
  destruct (intent_row m i db0) as [[i' row]|] eqn:Hrow; unfold intent_row in Hrow; rewrite Hrow; cbn;
    [|apply ends_ret_same; by left].
  fold (intent_row m i db0) in Hrow. destruct (intent_row_Some _ _ _ _ Hrow) as (row' & [= -> <-] & Hi & Hm).
  apply ends_bind_select. apply ends_bind_lift. intros _ Hg%guard_err_Ok. apply orb_false_iff in Hg as [Hst Hmoney].
  bool_to_prop. apply ends_bind_now. intros t. apply ends_bind_exec. intros n db1 Hset.
  apply set_intent_Ok in Hset as [(_ & _ & Hno)|(row' & version & Hi' & _ & _ & ->)]; [by specialize (Hno row Hi)|].
  cbn in Hi'. rewrite Hi in Hi'. injection Hi' as <-.
  apply ends_bind_exec. intros ids db1 [= _ <-]. eapply ends_bind; [apply insert_system_audit_spec|].
  intros [] db1 [trail ->]. eapply ends_bind; [by apply enqueue_other_spec|]. intros [] db1 Hq.
  destruct (queued_same_orders _ _ _ Hq) as (_ & _ & _ & Hrec). cbn in Hrec.
  eapply ends_bind; [apply complete_spec; rewrite Hrec, lookup_insert_eq; done|]. intros [] db2 [t' ->].
  eapply ends_bind; [apply find_intent_spec|]. intros found db2 [-> Hf].
  apply ends_bind_lift. intros p ->%ok_or_Ok. apply transpose_Some in Hf as (entry & He & Hp).
  apply ends_commit. right; right.
  destruct (queued_same_money _ _ _ Hq) as (_ & _ & _ & _ & _ & Hin & _). cbn in Hin.
  apply intent_row_Some in He as (row' & -> & He & _). cbn in He. rewrite Hin, lookup_insert_eq in He.
  injection He as <-.
  destruct Hq as (events & (d & e & ->) & Hsub & Hnews).
  eexists p, row, (mkIdempotencyRow hash i (Some t')), version, t, trail, _.
  split_and!; [done..| |].
  - eexists events. split_and!; [eexists d, e; reflexivity|done|]. exact Hnews.
  - same_db.
Qed.

(** ** Quotes *)

(** The order takes the quote: never quoted, or its last quote ran out before
    any money or decision. *)
Definition quotable (plan : QuotePlan) (intent : IntentRow) (db : Database) : Prop :=
  payment_intents db !! plan_payment_intent_id plan = Some intent
  /\ ir_merchant_id intent = plan_merchant_id plan
  /\ (ir_status intent = "requires_quote"
      \/ ir_status intent = "expired" /\ money_or_decision (plan_payment_intent_id plan) db = false)
  /\ ir_amount_minor intent = minor_units (plan_fiat_amount plan)
  /\ ir_currency intent = CurrencyCode_as_str (fiat_currency (plan_fiat_amount plan)).

(** The smallest amount from the base on that is free on the collector. *)
Definition slot_of (plan : QuotePlan) (amount : RawAmount) (db : Database) : Prop :=
  exists slots slot, slot_count plan = Ok slots /\ is_Some (collector_row plan slots db)
    /\ free_slot (plan_collector_address_id plan) (as_u256 (plan_base_amount_raw plan)) slots db = Some slot
    /\ RawAmount_checked_add_u32 (plan_base_amount_raw plan) slot = Ok amount.

(** The quote, its attempt and its reservation. *)
Definition with_quote (plan : QuotePlan) (amount : RawAmount) (token : string) (lease_id : Z) (db : Database)
    : Database :=
  on_amount_leases <[lease_id := planned_lease plan amount]>
    (on_attempts <[plan_attempt_id plan := planned_attempt plan amount token]>
       (on_quotes <[plan_quote_id plan := planned_quote plan amount]> db)).
Definition fresh_quote (plan : QuotePlan) (amount : RawAmount) (lease_id : Z) (db : Database) : Prop :=
  payment_quotes db !! plan_quote_id plan = None /\ payment_attempts db !! plan_attempt_id plan = None
  /\ amount_leases db !! lease_id = None
  /\ map_Forall (fun _ other => is_live_of (plan_payment_intent_id plan) other = false) (payment_attempts db)
  /\ is_leased (plan_collector_address_id plan) (as_u256 amount) db = false
  /\ plan_created_at plan < plan_late_payment_until plan /\ 0 < as_u256 amount
  /\ map_Forall (fun _ other => tt_quote_id other <> plan_quote_id plan) (payment_attempts db).

Definition issue_step (plan : QuotePlan) (route key : string) (hash : list byte) (db : Database)
    (result : IdempotentQuote) (db' : Database) : Prop :=
  let m := plan_merchant_id plan in
  (exists q resource row, result = QuoteReplayed q /\ spent m route key hash db resource
     /\ quote_row m resource db = Some row /\ IssuedQuote_try_from row = Ok q /\ db' = db)
  \/ (exists q row intent amount token lease_id record version,
        result = Issued q /\ api_idempotency_records db !! (m, route, key) = None
        /\ quotable plan intent db /\ slot_of plan amount db /\ fresh_quote plan amount lease_id db
        /\ id_request_hash record = hash /\ id_resource_id record = plan_quote_id plan
        /\ audited (on_idempotency <[(m, route, key) := record]>
             (on_intents <[plan_payment_intent_id plan :=
                intent_with "awaiting_payment" version (plan_created_at plan) intent]>
                (with_quote plan amount token lease_id db))) db'
        /\ quote_row m (plan_quote_id plan) db' = Some row /\ IssuedQuote_try_from row = Ok q).

Lemma require_quotable_spec plan db now :
  within db now (require_quotable (R := R) plan) (fun _ db' => db' = db /\ exists intent, quotable plan intent db).
Proof.
  apply within_bind_select, within_bind_lift. intros [i intent] Hi%ok_or_Ok.
  apply intent_row_Some in Hi as (row & [= -> <-] & Hi & Hm).
  eapply (within_bind _ _ _ _ (fun requotable db' => db' = db /\ (requotable = true ->
    ir_status intent = "expired" /\ money_or_decision (plan_payment_intent_id plan) db = false))).
  { case_bool_decide as He; [|by apply within_ret]. apply within_bind_select, within_ret.
    split; [done|]. intros ?%negb_true_iff. done. }
  intros requotable db' [-> Hre]. apply within_lift. intros [] Hg%guard_err_Ok. split; [done|].
  apply orb_false_iff in Hg as [Hg Hcur]. apply orb_false_iff in Hg as [Hst Hamt].
  apply andb_false_iff in Hst. exists intent. split_and!; [done..| |by bool_to_prop|by bool_to_prop].
  destruct Hst as [Hst|Hst]; bool_to_prop; [by left|right; by apply Hre].
Qed.

Lemma reserve_amount_spec plan db now :
  within db now (reserve_amount (R := R) plan) (fun amount db' => db' = db /\ slot_of plan amount db).
Proof.
  apply within_bind_lift. intros slots Hslots. apply within_bind_select, within_bind_lift.
  intros c Hc%ok_or_Ok. apply within_bind_select, within_bind_lift. intros slot Hslot%ok_or_Ok.
  apply within_bind_lift. intros slot' Hs%ok_or_Ok. apply checked_Some in Hs as [-> _].
  apply within_lift. intros amount Ha%map_err_Ok. split; [done|]. exists slots, slot. by rewrite Hc.
Qed.

Lemma insert_quote_row_Ok id row db u db' :
  insert_quote_row id row db = Ok (u, db') ->
  payment_quotes db !! id = None /\ qr_created_at row < qr_expires_at row < qr_late_payment_until row
  /\ db' = on_quotes <[id := row]> db.
Proof.
  unfold insert_quote_row. intros Hst. do 5 apply res_bind_Ok in Hst as (? & _ & Hst).
  apply res_bind_Ok in Hst as (? & Ht%guard_err_Ok & Hst).
  apply res_bind_Ok in Hst as (? & Hid%guard_err_Ok & Hst). checks Hst. injection Hst as _ <-.
  bool_to_prop. split_and!; [by apply is_row_false|lia..|done].
Qed.

Lemma insert_attempt_row_Ok id row db u db' :
  insert_attempt_row id row db = Ok (u, db') ->
  payment_attempts db !! id = None
  /\ map_Forall (fun _ other => is_live_of (tt_payment_intent_id row) other = false) (payment_attempts db)
  /\ map_Forall (fun _ other => tt_quote_id other <> tt_quote_id row) (payment_attempts db)
  /\ db' = on_attempts <[id := row]> db.
Proof.
  unfold insert_attempt_row. intros Hst. do 2 apply res_bind_Ok in Hst as (? & _ & Hst).
  apply res_bind_Ok in Hst as (? & Hid%guard_err_Ok & Hst).
  apply res_bind_Ok in Hst as (? & Hq%guard_err_Ok & Hst).
  apply res_bind_Ok in Hst as (? & Hlive%guard_err_Ok & Hst). checks Hst. injection Hst as _ <-.
  split_and!; [by apply is_row_false|by apply find_where_none| |done].
  apply find_where_none in Hq. intros a y Ha Hy. specialize (Hq a y Ha). cbn in Hq. lia.
Qed.

Lemma insert_lease_row_Ok id row db u db' :
  insert_lease_row id row db = Ok (u, db') ->
  0 < al_amount_raw row /\ amount_leases db !! id = None
  /\ is_leased (al_collector_address_id row) (al_amount_raw row) db = false
  /\ db' = on_amount_leases <[id := row]> db.
Proof.
  unfold insert_lease_row. intros Hst. apply res_bind_Ok in Hst as (? & Hc%guard_err_Ok & Hst).
  apply res_bind_Ok in Hst as (? & Hid%guard_err_Ok & Hst). apply res_bind_Ok in Hst as (? & _ & Hst).
  apply res_bind_Ok in Hst as (? & Hl%guard_err_Ok & Hst). checks Hst. injection Hst as _ <-.
  bool_to_prop. split_and!; [lia|by apply is_row_false|done|done].
Qed.

Lemma insert_quote_attempt_and_lease_spec plan amount db now :
  within db now (insert_quote_attempt_and_lease (R := R) plan amount) (fun lease_id db' =>
    fresh_quote plan amount lease_id db /\ exists token, db' = with_quote plan amount token lease_id db).
Proof.
  apply within_bind_run_at. intros [] db1 (Hq & Hwin & ->)%insert_quote_row_Ok.
  eapply (within_bind _ _ _ _ (fun _ db' => db' = _)).
  { eapply (within_bind _ _ _ _ (fun _ db' => db' = _)); [by apply within_random_uuid|]. intros u1 db' ->.
    eapply (within_bind _ _ _ _ (fun _ db' => db' = _)); [by apply within_random_uuid|]. intros u2 db' ->.
    by apply within_ret. }
  intros token db1 ->. apply within_bind_run_at. intros [] db1 (Ha & Hlive & Hone & ->)%insert_attempt_row_Ok.
  apply within_bind_uuid. intros lease_id. apply within_bind_run_at.
  intros [] db1 (Hpos & Hl & Hfree & ->)%insert_lease_row_Ok. apply within_ret.
  cbn in *. split; [|by exists token]. unfold fresh_quote. split_and!; try done. lia.
Qed.

Lemma insert_quote_audit_events_spec plan actor lease_id amount db now :
  within db now (insert_quote_audit_events (R := R) plan actor lease_id amount) (fun _ => audited db).
Proof.
  apply (within_for_each _ (audited db)); [|apply audited_refl].
  intros [] [[[action type] resource] payload] db1 Ha. apply within_bind_uuid. intros id.
  apply within_exec. intros [] db2 Hst%insert_audit_Ok. by eapply audited_trans.
Qed.

Lemma pg_issue_transacts plan actor route key hash :
  transacts (issue_step plan route key hash)
    (pg_issue_quote_idempotently (R := R) plan actor route key hash).
Proof.
  intros db0 db now. apply ends_begin. intros now'. apply ends_bind_exec. intros inserted db1 Hins.
  apply insert_idempotency_Ok in Hins as [(-> & -> & _)|(-> & Hnone & _ & ->)]; cbn [is_none].
  { eapply ends_bind; [apply spent_record_spec|]. intros resource db1 [-> Hsp].
    eapply ends_bind; [apply find_quote_spec|]. intros found db1 [-> Hf].
    apply ends_bind_lift. intros q ->%ok_or_Ok. apply transpose_Some in Hf as (row & Hr & Hq).
    apply ends_commit. left. by exists q, resource, row. }
  eapply ends_bind; [apply require_quotable_spec|]. intros [] db1 [-> [intent Hquot]].
  eapply ends_bind; [apply reserve_amount_spec|]. intros amount db1 [-> Hslot].
  eapply ends_bind; [apply insert_quote_attempt_and_lease_spec|]. intros lease_id db1 (Hfresh & token & ->).
  apply ends_bind_exec. intros n db1 Hset. apply ends_bind_lift. intros _ Hn%guard_err_Ok. bool_to_prop. subst n.
  apply set_intent_Ok in Hset as [(? & _)|(intent' & version & Hi & _ & _ & ->)]; [done|].
  pose proof Hquot as (Hi' & _). cbn in Hi, Hi'. rewrite Hi' in Hi. injection Hi as <-.
  eapply ends_bind; [apply insert_quote_audit_events_spec|]. intros [] db1 [trail ->].
  eapply ends_bind; [apply complete_spec; cbn; by rewrite lookup_insert_eq|]. intros [] db1 [t ->].
  eapply ends_bind; [apply find_quote_spec|]. intros found db1 [-> Hf].
  apply ends_bind_lift. intros q ->%ok_or_Ok. apply transpose_Some in Hf as (row & Hr & Hq).
  apply ends_commit. right.
  exists q, row, intent, amount, token, lease_id, (mkIdempotencyRow hash (plan_quote_id plan) (Some t)), version.
  split_and!; try done. exists trail. unfold with_quote. same_db.
Qed.
End specs.

(** ** Expiry *)

Lemma due_attempts_spec now limit db :
  NoDup (fst <$> due_attempts now limit db)
  /\ forall a attempt, (a, attempt) ∈ due_attempts now limit db ->
     payment_attempts db !! a = Some attempt /\ tt_status attempt = "awaiting_payment"
     /\ tt_quote_expires_at attempt <= now.
Proof.
  unfold due_attempts. split.
  - apply NoDup_limited. eapply sublist_NoDup; [apply (NoDup_fst_map_to_list (payment_attempts db))|].
    apply fmap_sublist, sublist_filter.
  - intros a attempt Hin%elem_of_limited. apply list_elem_of_filter in Hin as [[Hs He] Hin].
    by apply elem_of_map_to_list in Hin.
Qed.

Lemma due_leases_spec now limit db :
  NoDup ((fun e => fst (fst e)) <$> due_leases now limit db)
  /\ forall l lease m, (l, lease, m) ∈ due_leases now limit db ->
     amount_leases db !! l = Some lease /\ al_lease_until lease <= now.
Proof.
  unfold due_leases. split.
  - apply NoDup_limited. generalize (NoDup_fst_map_to_list (amount_leases db)).
    induction (map_to_list (amount_leases db)) as [|[l lease] t IH]; [intros; constructor|].
    cbn [fmap list_fmap]. intros [Hn Ht]%NoDup_cons. csimpl.
    destruct (payment_attempts db !! al_attempt_id lease) as [attempt|]; csimpl; [|by apply IH].
    destruct (al_lease_until lease <=? now); csimpl; [|by apply IH]. apply NoDup_cons. split; [|by apply IH].
    intros Hin. apply Hn. apply list_elem_of_fmap in Hin as ([[l' lease'] m] & -> & Hin).
    apply list_elem_of_omap in Hin as ([l2 lease2] & Hin & Hx). simpl in Hx.
    destruct (payment_attempts db !! al_attempt_id lease2); simpl in Hx; [|done].
    destruct (al_lease_until lease2 <=? now); [|done]. injection Hx as -> -> _.
    apply list_elem_of_fmap. by exists (l', lease').
  - intros l lease m Hin%elem_of_limited. apply list_elem_of_omap in Hin as ([l2 lease2] & Hin & Hx). simpl in Hx.
    destruct (payment_attempts db !! al_attempt_id lease2); simpl in Hx; [|done].
    destruct (al_lease_until lease2 <=? now) eqn:Hle; [|done]. injection Hx as -> -> _. bool_to_prop.
    by apply elem_of_map_to_list in Hin.
Qed.

(** The attempts expired, and the orders that waited for their first money. *)
Definition expire_attempts (now : Z) (due : list (Z * AttemptRow)) (attempts : gmap Z AttemptRow)
    : gmap Z AttemptRow :=
  foldl (fun m entry => <[fst entry := attempt_with "expired" now (snd entry)]> m) attempts due.
Definition waits_in (due : list (Z * AttemptRow)) (i : Z) : bool :=
  existsb (fun entry => tt_payment_intent_id (snd entry) =? i) due.
Definition expired_row (now : Z) (due : list (Z * AttemptRow)) (i : Z) (row : IntentRow) : IntentRow :=
  if bool_decide (ir_status row = "awaiting_payment") && waits_in due i
  then intent_with "expired" (ir_version row + 1) now row else row.
Definition expire_intents (now : Z) (due : list (Z * AttemptRow)) (intents : gmap Z IntentRow)
    : gmap Z IntentRow := map_imap (fun i row => Some (expired_row now due i row)) intents.

(** The reservations released, and what the history keeps of them. *)
Definition release (leases : list (Z * AmountLeaseRow * Z)) (m : gmap Z AmountLeaseRow) : gmap Z AmountLeaseRow :=
  foldl (fun m entry => delete (fst (fst entry)) m) m leases.
Definition archived (now : Z) (entry : Z * AmountLeaseRow * Z) : LeaseHistoryRow :=
  {| ah_lease_id := fst (fst entry); ah_lease := snd (fst entry); ah_released_at := now;
     ah_release_reason := "expired" |}.
Definition archives (now : Z) (leases : list (Z * AmountLeaseRow * Z)) (history history' : gmap Z LeaseHistoryRow)
    : Prop :=
  history ⊆ history'
  /\ (forall h row, history' !! h = Some row ->
        history !! h = Some row \/ exists entry, entry ∈ leases /\ row = archived now entry)
  /\ (forall entry, entry ∈ leases -> exists h, history' !! h = Some (archived now entry)).

Definition expired_in (now limit : Z) (db : Database) : Database :=
  let due := due_attempts now limit db in
  on_intents (expire_intents now due) (on_attempts (expire_attempts now due) db).
Definition expire_step (now limit : Z) (db : Database) (result : ExpiryResult) (db' : Database) : Prop :=
  let db1 := expired_in now limit db in
  let leases := due_leases now limit db1 in
  exists history,
    archives now leases (amount_lease_history db) history
    /\ audited (on_lease_history (fun _ => history) (on_amount_leases (release leases) db1)) db'
    /\ result = {| ex_quotes_expired := Z.of_nat (length (due_attempts now limit db));
                   ex_leases_archived := Z.of_nat (length leases) |}.

Lemma expire_attempts_snoc now seen x m :
  expire_attempts now (seen ++ [x]) m = <[fst x := attempt_with "expired" now (snd x)]> (expire_attempts now seen m).
Proof. unfold expire_attempts. by rewrite foldl_app. Qed.

Lemma expire_attempts_lookup_ne now seen m a :
  a ∉ (fst <$> seen) -> expire_attempts now seen m !! a = m !! a.
Proof.
  induction seen as [|x seen IH] using rev_ind; [done|]. rewrite fmap_app, expire_attempts_snoc.
  intros Ha. rewrite lookup_insert_ne by set_solver. apply IH. set_solver.
Qed.

Lemma expire_attempts_lookup now due m a attempt :
  NoDup (fst <$> due) -> (a, attempt) ∈ due ->
  expire_attempts now due m !! a = Some (attempt_with "expired" now attempt).
Proof.
  induction due as [|x due IH] using rev_ind; [by intros _ ?%elem_of_nil|].
  rewrite fmap_app, expire_attempts_snoc. intros (Hd & Hx & _)%NoDup_app Hin.
  apply elem_of_app in Hin as [Hin|Hin].
  - rewrite lookup_insert_ne; [by apply IH|]. intros <-. eapply Hx; [|by apply list_elem_of_singleton].
    apply list_elem_of_fmap. by exists (fst x, attempt).
  - apply list_elem_of_singleton in Hin as <-. by rewrite lookup_insert_eq.
Qed.

Lemma expire_intents_lookup now due m i :
  expire_intents now due m !! i = expired_row now due i <$> m !! i.
Proof. unfold expire_intents. rewrite map_lookup_imap. by destruct (m !! i). Qed.

Lemma expire_intents_snoc now seen x m row :
  m !! tt_payment_intent_id (snd x) = Some row ->
  expire_intents now (seen ++ [x]) m =
  (let row' := expired_row now seen (tt_payment_intent_id (snd x)) row in
   if bool_decide (ir_status row' = "awaiting_payment")
   then <[tt_payment_intent_id (snd x) := intent_with "expired" (ir_version row' + 1) now row']>
          (expire_intents now seen m)
   else expire_intents now seen m).
Proof.
  intros Hrow. set (i := tt_payment_intent_id (snd x)) in *. apply map_eq. intros j.
  rewrite expire_intents_lookup. unfold expired_row at 1, waits_in. rewrite existsb_app. simpl.
  destruct (decide (j = i)) as [->|Hne].
  - rewrite Hrow. simpl. subst i. rewrite Z.eqb_refl, orb_true_r, andb_true_r.
    unfold expired_row. fold (waits_in seen (tt_payment_intent_id (snd x))).
    destruct (bool_decide (ir_status row = "awaiting_payment")) eqn:Hs; simpl.
    + destruct (waits_in seen _) eqn:Hw; simpl.
      * rewrite expire_intents_lookup, Hrow. simpl. unfold expired_row. by rewrite Hs, Hw.
      * rewrite Hs. simpl. by rewrite lookup_insert_eq.
    + rewrite Hs. rewrite expire_intents_lookup, Hrow. simpl. unfold expired_row. by rewrite Hs.
  - assert ((tt_payment_intent_id (snd x) =? j) = false) as -> by (apply Z.eqb_neq; subst i; congruence).
    rewrite !orb_false_r. destruct (bool_decide _); [rewrite lookup_insert_ne by done|]; by rewrite expire_intents_lookup.
Qed.

Lemma release_snoc seen x m : release (seen ++ [x]) m = delete (fst (fst x)) (release seen m).
Proof. unfold release. by rewrite foldl_app. Qed.

Lemma release_lookup leases m l :
  release leases m !! l = if decide (l ∈ ((fun e => fst (fst e)) <$> leases)) then None else m !! l.
Proof.
  induction leases as [|x leases IH] using rev_ind; [done|]. rewrite release_snoc, fmap_app.
  destruct (decide (l = fst (fst x))) as [->|Hne].
  - rewrite lookup_delete_eq, decide_True; [done|]. set_solver.
  - rewrite lookup_delete_ne, IH by done. repeat case_decide; set_solver.
Qed.

(** Tables written one after another. *)
Lemma attempts_audit f g db : on_attempts f (on_audit g db) = on_audit g (on_attempts f db).
Proof. reflexivity. Qed.
Lemma attempts_intents f g db : on_attempts f (on_intents g db) = on_intents g (on_attempts f db).
Proof. reflexivity. Qed.
Lemma intents_audit f g db : on_intents f (on_audit g db) = on_audit g (on_intents f db).
Proof. reflexivity. Qed.
Lemma leases_audit f g db : on_amount_leases f (on_audit g db) = on_audit g (on_amount_leases f db).
Proof. reflexivity. Qed.
Lemma leases_history f g db :
  on_amount_leases f (on_lease_history g db) = on_lease_history g (on_amount_leases f db).
Proof. reflexivity. Qed.
Lemma history_audit f g db : on_lease_history f (on_audit g db) = on_audit g (on_lease_history f db).
Proof. reflexivity. Qed.
Lemma attempts_attempts f g db : on_attempts f (on_attempts g db) = on_attempts (fun m => f (g m)) db.
Proof. reflexivity. Qed.
Lemma intents_intents f g db : on_intents f (on_intents g db) = on_intents (fun m => f (g m)) db.
Proof. reflexivity. Qed.
Lemma leases_leases f g db : on_amount_leases f (on_amount_leases g db) = on_amount_leases (fun m => f (g m)) db.
Proof. reflexivity. Qed.
Lemma history_history f g db : on_lease_history f (on_lease_history g db) = on_lease_history (fun m => f (g m)) db.
Proof. reflexivity. Qed.
Lemma on_attempts_ext f g db : f (payment_attempts db) = g (payment_attempts db) -> on_attempts f db = on_attempts g db.
Proof. unfold on_attempts. by intros ->. Qed.
Lemma on_intents_ext f g db : f (payment_intents db) = g (payment_intents db) -> on_intents f db = on_intents g db.
Proof. unfold on_intents. by intros ->. Qed.
Lemma on_leases_ext f g db : f (amount_leases db) = g (amount_leases db) -> on_amount_leases f db = on_amount_leases g db.
Proof. unfold on_amount_leases. by intros ->. Qed.

Create Rewrite HintDb tables.
#[export] Hint Rewrite attempts_audit attempts_intents intents_audit leases_audit leases_history history_audit
  attempts_attempts intents_intents leases_leases history_history : tables.

Section sweep.
Context {R : Type} `{Postgres R} `{U256Lib} `{UuidLib} `{TimeSerde} `{HashLib} `{Base58Lib}.

Lemma system_audits_spec m events db now :
  within db now (for_each (fun _ '(action, type, id, payload) =>
    insert_system_audit (R := R) m action type id payload) events tt) (fun _ => audited db).
Proof.
  apply (within_for_each _ (audited db)); [|apply audited_refl].
  intros [] [[[action type] id] payload] db1 Ha. eapply within_weaken; [apply insert_system_audit_spec|].
  intros [] db2 Hd. by eapply audited_trans.
Qed.

Lemma expire_one_spec t seen a attempt db0 db now :
  payment_attempts db0 !! a = Some attempt -> a ∉ (fst <$> seen) ->
  audited (on_intents (expire_intents t seen) (on_attempts (expire_attempts t seen) db0)) db ->
  within db now (expire_one (R := R) t (a, attempt)) (fun _ =>
    audited (on_intents (expire_intents t (seen ++ [(a, attempt)]))
               (on_attempts (expire_attempts t (seen ++ [(a, attempt)])) db0))).
Proof.
  intros Ha Hseen [trail ->]. apply within_bind_exec. intros n db1 Hst. apply within_bind_lift. intros _ _.
  unfold expire_attempt, update_row in Hst. cbn in Hst.
  rewrite expire_attempts_lookup_ne, Ha in Hst by done. injection Hst as _ <-.
  apply within_bind_exec. intros status db1 Hst.
  eapply within_weaken; [apply system_audits_spec|]. intros [] db2 Haud. eapply audited_trans; [|exact Haud].
  clear Haud db2. exists trail. set (i := tt_payment_intent_id attempt) in *.
  apply res_bind_Ok in Hst as ([r db2] & Hexp & Hst). destruct r as [r|]; [|done]. injection Hst as <- <-.
  unfold expire_intent in Hexp. cbn in Hexp. rewrite expire_intents_lookup in Hexp.
  destruct (payment_intents db0 !! i) as [row|] eqn:Hrow; [|done]. cbn in Hexp.
  rewrite (on_attempts_ext _ (fun m => <[a := attempt_with "expired" t attempt]> (expire_attempts t seen m)) db0)
    by apply expire_attempts_snoc.
  pose proof (expire_intents_snoc t seen (a, attempt) (payment_intents db0) row Hrow) as Hsn. cbn in Hsn. fold i in Hsn.
  erewrite (on_intents_ext (expire_intents t (seen ++ _)) (fun _ => _)); [|cbn; exact Hsn].
  destruct (bool_decide (ir_status (expired_row t seen i row) = "awaiting_payment")).
  - apply res_bind_Ok in Hexp as (version & ->%bigint_next_Ok & [= _ <-]). by autorewrite with tables.
  - injection Hexp as _ <-. by autorewrite with tables.
Qed.

Lemma insert_history_row_Ok id row db u db' :
  insert_history_row id row db = Ok (u, db') ->
  amount_lease_history db !! id = None /\ db' = on_lease_history <[id := row]> db.
Proof.
  unfold insert_history_row. intros Hst. apply res_bind_Ok in Hst as (? & _ & Hst).
  apply res_bind_Ok in Hst as (? & Hid%guard_err_Ok & Hst). checks Hst. injection Hst as _ <-.
  split; [by apply is_row_false|done].
Qed.

Definition archiving (t : Z) (seen : list (Z * AmountLeaseRow * Z)) (db0 db : Database) : Prop :=
  exists history, archives t seen (amount_lease_history db0) history
    /\ audited (on_lease_history (fun _ => history) (on_amount_leases (release seen) db0)) db.

Lemma archive_one_spec t seen entry db0 db now :
  archiving t seen db0 db ->
  within db now (archive_one (R := R) t entry) (fun _ => archiving t (seen ++ [entry]) db0).
Proof.
  destruct entry as [[l lease] m]. intros (history & (Hsub & Hold & Hnew) & [trail ->]).
  apply within_bind_uuid. intros id. apply within_bind_exec.
  intros [] db1 [Hid ->]%insert_history_row_Ok. cbn in Hid.
  apply within_bind_exec. intros [] db1 [= <-]. eapply within_weaken; [apply insert_system_audit_spec|].
  intros [] db2 Haud. exists (<[id := archived t (l, lease, m)]> history). split.
  - split_and!.
    + etransitivity; [done|]. by apply insert_subseteq.
    + intros h row Hrow. apply lookup_insert_Some in Hrow as [[<- <-]|[_ Hrow]].
      * right. exists (l, lease, m). split; [set_solver|done].
      * destruct (Hold h row Hrow) as [?|(e & ? & ?)]; [by left|right]. exists e. split; [set_solver|done].
    + intros e [He| ->%list_elem_of_singleton]%elem_of_app; [|exists id; by rewrite lookup_insert_eq].
      destruct (Hnew e He) as [h Hh]. exists h. rewrite lookup_insert_ne; [done|]. intros <-. congruence.
  - eapply audited_trans; [|exact Haud]. exists trail.
    rewrite (on_leases_ext (release (seen ++ _)) (fun m => delete l (release seen m))) by apply release_snoc.
    by autorewrite with tables.
Qed.

Lemma pg_expire_transacts t limit :
  transacts (expire_step t limit) (pg_expire_quotes_and_archive_leases (R := R) t limit).
Proof.
  intros db0 db now. apply ends_begin. intros now'. apply ends_bind_select.
  destruct (due_attempts_spec t limit db0) as [Hnd Hdue].
  eapply (ends_bind _ _ _ _ _ (fun _ => audited (expired_in t limit db0))).
  { apply (within_for_each_seen _ (fun seen =>
      audited (on_intents (expire_intents t seen) (on_attempts (expire_attempts t seen) db0)))).
    - intros seen [a attempt] rest [] db1 Hl Hi. apply expire_one_spec; [|
        |done].
      + apply Hdue. rewrite Hl. set_solver.
      + rewrite Hl, fmap_app, fmap_cons in Hnd. apply NoDup_app in Hnd as (_ & Hx & _). intros Hin.
        apply (Hx a Hin). set_solver.
    - exists (audit_events db0). destruct db0. cbv [on_intents on_attempts on_audit]. cbn. f_equal.
      apply map_eq. intros i. rewrite expire_intents_lookup. unfold expired_row. simpl.
      destruct (_ !! i) as [row|]; simpl; [|done]. by rewrite andb_false_r. }
  intros [] db1 [trail ->]. apply ends_bind_select.
  eapply (ends_bind _ _ _ _ _ (fun _ => archiving t (due_leases t limit (expired_in t limit db0)) _)).
  { apply (within_for_each_seen _ (fun seen => archiving t seen (on_audit (fun _ => trail) (expired_in t limit db0)))).
    - intros seen entry rest [] db1 _ Hi. by apply archive_one_spec.
    - eexists. split; [split_and!; [reflexivity|by left|set_solver]|]. eexists trail. reflexivity. }
  intros [] db1 (history & Harch & [trail' ->]).
  apply ends_bind_lift. intros n Hn%ok_or_Ok. apply checked_Some in Hn as [-> _].
  apply ends_bind_lift. intros n Hn%ok_or_Ok. apply checked_Some in Hn as [-> _].
  apply ends_commit. exists history. split_and!; [exact Harch| |done].
  exists trail'. by autorewrite with tables.
Qed.
End sweep.

(** * Orders as a state machine

    What any call of the gateway does to orders, attempts, allocations, quotes
    and reservations is one of six steps. *)

Definition same_reservations (db db' : Database) : Prop :=
  payment_quotes db' = payment_quotes db /\ amount_leases db' = amount_leases db
  /\ amount_lease_history db' = amount_lease_history db.
Definition same_payments (db db' : Database) : Prop :=
  payment_intents db' = payment_intents db /\ payment_attempts db' = payment_attempts db
  /\ payment_allocations db' = payment_allocations db.

Inductive order_step (clock : Z) (db db' : Database) : Prop :=
  | order_still : same_payments db db' -> same_reservations db db' -> order_step clock db db'
  | order_credited i a t row attempt paid now al version :
      payment_intents db !! i = Some row -> ir_status row ∈ PAYABLE_INTENT_STATES ->
      payment_attempts db !! a = Some attempt -> tt_payment_intent_id attempt = i ->
      payment_allocations db !! (a, t) = None -> ar_payment_intent_id al = i ->
      payment_intents db' =
        <[i := intent_with (if paid : bool then "paid" else "partially_paid") version now row]> (payment_intents db) ->
      payment_attempts db' =
        <[a := attempt_with (if paid then "settled" else tt_status attempt) now attempt]> (payment_attempts db) ->
      payment_allocations db' = <[(a, t) := al]> (payment_allocations db) ->
      same_reservations db db' -> order_step clock db db'
  | order_opened i row :
      payment_intents db !! i = None -> ir_status row = "requires_quote" ->
      payment_intents db' = <[i := row]> (payment_intents db) ->
      payment_attempts db' = payment_attempts db -> payment_allocations db' = payment_allocations db ->
      same_reservations db db' -> order_step clock db db'
  | order_quoted plan row amount token lease_id version :
      plan_created_at plan = clock ->
      payment_intents db !! plan_payment_intent_id plan = Some row ->
      ir_status row ∈ ["requires_quote"; "expired"] -> fresh_quote plan amount lease_id db ->
      payment_intents db' = <[plan_payment_intent_id plan :=
        intent_with "awaiting_payment" version (plan_created_at plan) row]> (payment_intents db) ->
      payment_attempts db' =
        <[plan_attempt_id plan := planned_attempt plan amount token]> (payment_attempts db) ->
      payment_allocations db' = payment_allocations db ->
      payment_quotes db' = <[plan_quote_id plan := planned_quote plan amount]> (payment_quotes db) ->
      amount_leases db' = <[lease_id := planned_lease plan amount]> (amount_leases db) ->
      amount_lease_history db' = amount_lease_history db -> order_step clock db db'
  | order_cancelled i row now version :
      payment_intents db !! i = Some row -> ir_status row ∈ CANCELLABLE_STATES ->
      money_or_decision i db = false ->
      payment_intents db' = <[i := intent_with "cancelled" version now row]> (payment_intents db) ->
      payment_attempts db' = close_attempts i now (payment_attempts db) ->
      payment_allocations db' = payment_allocations db ->
      same_reservations db db' -> order_step clock db db'
  | order_swept limit (due := due_attempts clock limit db) leases :
      NoDup ((fun e => fst (fst e)) <$> leases) ->
      (forall l lease m, (l, lease, m) ∈ leases ->
         amount_leases db !! l = Some lease /\ al_lease_until lease <= clock) ->
      payment_intents db' = expire_intents clock due (payment_intents db) ->
      payment_attempts db' = expire_attempts clock due (payment_attempts db) ->
      payment_allocations db' = payment_allocations db -> payment_quotes db' = payment_quotes db ->
      amount_leases db' = release leases (amount_leases db) ->
      archives clock leases (amount_lease_history db) (amount_lease_history db') -> order_step clock db db'.

(** ** Every call is such a step *)

Lemma aside_order clock db db' : aside db db' -> order_step clock db db'.
Proof.
  intros ((_ & _ & _ & E4 & E5 & E6 & _) & _ & _ & (F1 & F2 & F3 & _) & _). by apply order_still.
Qed.

Lemma queued_order clock f db db' : queued f db db' -> order_step clock db db'.
Proof.
  intros Hq. destruct (queued_same_money _ _ _ Hq) as (_ & _ & _ & E4 & E5 & E6 & _),
    (queued_same_orders _ _ _ Hq) as (F1 & F2 & F3 & _). by apply order_still.
Qed.

Lemma parked_order clock t state db db' : parked t state db db' -> order_step clock db db'.
Proof.
  intros (row & row' & _ & _ & _ & Hn). destruct (noted_same_money _ _ Hn) as (_ & _ & _ & E4 & E5 & E6 & _),
    (noted_same_orders _ _ Hn) as (F1 & F2 & F3 & _). by apply order_still.
Qed.

(** The reservations after money was credited. *)
Lemma credited_reservations command amount state paid t db db' :
  credited command amount state paid t db db' -> same_reservations db db'.
Proof.
  intros (row & row' & transfer & attempt & al & db1 & db2 & (claim & _ & -> & _) & _ & _ & _ & _ & _ & _
    & _ & _ & _ & _ & _ & _ & _ & (a & i & i' & f & _ & _ & _ & _ & _ & _ & _ & _ & _ & Hq) & Hq').
  destruct (queued_same_orders _ _ _ Hq) as (E1 & E2 & E3 & _), (queued_same_orders _ _ _ Hq') as (F1 & F2 & F3 & _).
  split_and!; [rewrite F1, E1|rewrite F2, E2|rewrite F3, E3]; done.
Qed.

Lemma credited_intent command amount state paid t db db' :
  credited command amount state paid t db db' ->
  exists row version, payment_intents db !! sc_payment_intent_id command = Some row
    /\ ir_status row ∈ PAYABLE_INTENT_STATES
    /\ payment_intents db' = <[sc_payment_intent_id command :=
         intent_with (if paid then "paid" else "partially_paid") version t row]> (payment_intents db).
Proof.
  intros (row & row' & transfer & attempt & al & db1 & db2 & (claim & _ & -> & _) & _ & _ & _ & _ & _ & _
    & _ & _ & _ & _ & _ & _ & _ & (a & i & i' & f & _ & _ & _ & Hi & _ & Hp & (v & ->) & _ & _ & Hq) & Hq').
  exists i, v. split_and!; [done..|].
  destruct (queued_same_money _ _ _ Hq) as (_ & _ & _ & _ & _ & E & _),
    (queued_same_money _ _ _ Hq') as (_ & _ & _ & _ & _ & F & _). by rewrite F, E.
Qed.

Lemma credited_order clock command amount state paid t db db' al :
  credited command amount state paid t db db' ->
  ar_payment_intent_id al = sc_payment_intent_id command ->
  forall db'', payment_allocations db'' =
    <[(sc_attempt_id command, sc_transfer_id command) := al]> (payment_allocations db) ->
  payment_intents db'' = payment_intents db' -> payment_attempts db'' = payment_attempts db' ->
  same_reservations db' db'' -> order_step clock db db''.
Proof.
  intros Hcr Hal db'' Eal Ei Ea (F1 & F2 & F3). destruct (credited_intent _ _ _ _ _ _ _ Hcr) as (row & v & Hi & Hp & Ei').
  destruct (credited_reservations _ _ _ _ _ _ _ Hcr) as (G1 & G2 & G3).
  destruct (credited_tables _ _ _ _ _ _ _ Hcr)
    as (? & ? & ? & attempt & ? & ? & ? & ? & _ & _ & Ha & _ & Hnone & Hai & _ & _ & _ & _ & _ & _ & _ & _ & _ & _
        & _ & _ & _ & _ & Ea' & _).
  eapply (order_credited _ _ _ _ _ _ row attempt paid t al v); try done.
  - by rewrite Ei.
  - by rewrite Ea.
  - split_and!; congruence.
Qed.

Lemma settle_order clock lease command record db db' :
  balanced db -> settle_step lease command db record db' -> order_step clock db db'.
Proof.
  intros Hb Hs. apply settle_step_case in Hs; [|done].
  destruct Hs as [_|record db' _ _ Hpk|outcome amount t db' _ _ Hcr].
  - by apply aside_order.
  - by eapply parked_order.
  - pose proof Hcr as (_ & al & _ & Hi & _ & E)%credited_allocation. by eapply credited_order.
Qed.

Lemma unresolved_order clock lease transfer db db' : unresolved_step lease transfer db db' -> order_step clock db db'.
Proof.
  intros (_ & [(row & row' & _ & _ & _ & _ & Hq)|[_ Hq]]); [|by eapply queued_order].
  destruct (queued_same_money _ _ _ Hq) as (_ & _ & _ & E4 & E5 & E6 & _),
    (queued_same_orders _ _ _ Hq) as (F1 & F2 & F3 & _). by apply order_still.
Qed.

Lemma proposal_order clock db db' : proposal_step db db' -> order_step clock db db'.
Proof. intros [->|(table & _ & [trail ->])]; by apply order_still. Qed.

Section operators.
Context {R : Type} `{Postgres R} `{U256Lib} `{UuidLib} `{TimeSerde}.

Lemma honor_order clock credential key hash resolution t db result db' db'' :
  honor_step credential key hash resolution t db result db' ->
  same_payments db' db'' -> same_reservations db' db'' -> order_step clock db db''.
Proof.
  intros (plan & a & i & id & row & db1 & _ & _ & _ & _ & _ & _ & Hh & [trail ->] & _) (E1 & E2 & E3) Hr.
  pose proof Hh as (_ & al & _ & Hi & _ & Eal)%honored_allocation.
  destruct Hh as (db2 & al2 & Hcr & _ & (d & e & ->)).
  assert (order_step clock (on_resolutions <[(oc_key_id credential, key) := row]> db) db'') as Hs.
  { eapply credited_order; [exact Hcr|exact Hi|..]; [by rewrite E3|by rewrite E1|by rewrite E2|exact Hr]. }
  inversion Hs; by econstructor.
Qed.

Lemma close_order clock credential key hash resolution t db result db' :
  close_step credential key hash resolution t db result db' -> order_step clock db db'.
Proof.
  intros (id & m & rem & row & disp & db1 & _ & _ & _ & (p & p' & _ & _ & _ & _ & ->) & [trail ->] & _).
  by apply order_still.
Qed.

Lemma resolve_order clock credential key hash resolution t db result db' :
  resolve_step credential key hash resolution t db result db' -> order_step clock db db'.
Proof.
  intros [(row & _ & _ & _ & ->)|Hs]; [by apply aside_order|]. case_bool_decide; [|by eapply close_order].
  by eapply honor_order.
Qed.

Lemma approve_order clock approver proposal_id key reason t db result db' :
  approve_step approver proposal_id key reason t db result db' -> order_step clock db db'.
Proof.
  intros [(row & _ & _ & ->)|(p & allocate & db1 & _ & _ & _ & _ & _ & Hh & [trail ->])]; [by apply aside_order|].
  by eapply honor_order.
Qed.
End operators.

Section merchants.
Context `{U256Lib} `{HashLib} `{Base58Lib}.

Lemma create_order clock intent route key hash db result db' :
  pi_status intent = RequiresQuote ->
  create_step intent route key hash db result db' -> order_step clock db db'.
Proof.
  intros Hst [(_ & _ & Hid & _ & record & _ & _ & [trail ->])|(p & _ & _ & ->)]; [|by apply aside_order].
  eapply (order_opened _ _ _ (pi_id intent) (stored intent)); try done. cbn. by rewrite Hst.
Qed.

Lemma cancel_order clock m i route key hash db result db' :
  cancel_step m i route key hash db result db' -> order_step clock db db'.
Proof.
  intros [[_ ->]|[(p & _ & _ & ->)|(p & row & record & v & now & trail & db1 & _ & _ & Hrow & Hst & Hm & _ & _ & _ & Hq & ->)]];
    [by apply aside_order..|].
  apply intent_row_Some in Hrow as (row' & [= <-] & Hrow & _).
  destruct (queued_same_money _ _ _ Hq) as (_ & _ & _ & E4 & E5 & E6 & _),
    (queued_same_orders _ _ _ Hq) as (F1 & F2 & F3 & _).
  by eapply (order_cancelled _ _ _ i row now v).
Qed.

Lemma issue_order plan route key hash db result db' :
  issue_step plan route key hash db result db' -> order_step (plan_created_at plan) db db'.
Proof.
  intros [(q & resource & row & _ & _ & _ & _ & ->)|(q & row & intent & amount & token & lease_id & record & v
    & _ & _ & (Hi & _ & Hst & _) & _ & Hf & _ & _ & [trail ->] & _)]; [by apply aside_order|].
  eapply (order_quoted _ _ _ plan intent amount token lease_id v); try done.
  destruct Hst as [->|[-> _]]; set_solver.
Qed.

Lemma expire_order now limit db result db' :
  expire_step now limit db result db' -> order_step now db db'.
Proof.
  intros (history & Harch & [trail ->] & _).
  destruct (due_leases_spec now limit (expired_in now limit db)) as [Hnd Hdue].
  by eapply (order_swept _ _ _ limit (due_leases now limit (expired_in now limit db))).
Qed.
End merchants.

(** ** Lifecycles *)

(** How the status of an order moves. *)
Inductive intent_move : string -> string -> Prop :=
  | move_quoted s : s ∈ ["requires_quote"; "expired"] -> intent_move s "awaiting_payment"
  | move_expired : intent_move "awaiting_payment" "expired"
  | move_partially_paid s : s ∈ PAYABLE_INTENT_STATES -> intent_move s "partially_paid"
  | move_paid s : s ∈ PAYABLE_INTENT_STATES -> intent_move s "paid"
  | move_cancelled s : s ∈ CANCELLABLE_STATES -> intent_move s "cancelled".

(** Orders that have received money. *)
Definition FUNDED_STATES : list string := ["partially_paid"; "paid"].

Lemma paid_is_final s : rtc intent_move "paid" s -> s = "paid".
Proof.
  intros Hr. inversion Hr as [|x y z Hm _]; subst; [done|]. unfold PAYABLE_INTENT_STATES, CANCELLABLE_STATES in Hm.
  inversion Hm; subst; set_solver.
Qed.
Lemma cancelled_is_final s : rtc intent_move "cancelled" s -> s = "cancelled".
Proof.
  intros Hr. inversion Hr as [|x y z Hm _]; subst; [done|].
  inversion Hm; subst; unfold PAYABLE_INTENT_STATES, CANCELLABLE_STATES in *; set_solver.
Qed.
Lemma funded_is_kept s s' : rtc intent_move s s' -> s ∈ FUNDED_STATES -> s' ∈ FUNDED_STATES.
Proof.
  induction 1 as [|x y z Hm _ IH]; [done|]. intros Hx. apply IH.
  inversion Hm; subst; unfold FUNDED_STATES, PAYABLE_INTENT_STATES, CANCELLABLE_STATES in *; set_solver.
Qed.

(** The order, its owner and what it asks for never change. *)
Definition same_intent (row row' : IntentRow) : Prop :=
  exists status version now, row' = intent_with status version now row.
Definition same_attempt (attempt attempt' : AttemptRow) : Prop :=
  exists status now, attempt' = attempt_with status now attempt.

Lemma same_intent_refl row : same_intent row row.
Proof. exists (ir_status row), (ir_version row), (ir_updated_at row). by destruct row. Qed.
Lemma same_intent_trans r1 r2 r3 : same_intent r1 r2 -> same_intent r2 r3 -> same_intent r1 r3.
Proof. intros (s & v & t & ->) (s' & v' & t' & ->). by exists s', v', t'. Qed.
Lemma same_attempt_refl x : same_attempt x x.
Proof. exists (tt_status x), (tt_updated_at x). by destruct x. Qed.
Lemma same_attempt_trans x y z : same_attempt x y -> same_attempt y z -> same_attempt x z.
Proof. intros (s & t & ->) (s' & t' & ->). by exists s', t'. Qed.

(** What a database carries over into a later one. *)
Record carried (db db' : Database) : Prop := {
  car_intent i row : payment_intents db !! i = Some row ->
    exists row', payment_intents db' !! i = Some row' /\ same_intent row row'
      /\ rtc intent_move (ir_status row) (ir_status row');
  car_attempt a attempt : payment_attempts db !! a = Some attempt ->
    exists attempt', payment_attempts db' !! a = Some attempt' /\ same_attempt attempt attempt';
  car_quotes : payment_quotes db ⊆ payment_quotes db';
  car_allocations : payment_allocations db ⊆ payment_allocations db';
}.

Lemma carried_refl db : carried db db.
Proof.
  split; [| |done|done].
  - intros i row Hi. exists row. split_and!; [done|apply same_intent_refl|done].
  - intros a x Ha. exists x. split; [done|apply same_attempt_refl].
Qed.
Lemma carried_trans db1 db2 db3 : carried db1 db2 -> carried db2 db3 -> carried db1 db3.
Proof.
  intros [A1 A2 A3 A4] [B1 B2 B3 B4]. split; [| |by etransitivity|by etransitivity].
  - intros i row Hi. destruct (A1 i row Hi) as (r2 & H2 & S2 & M2), (B1 i r2 H2) as (r3 & H3 & S3 & M3).
    exists r3. split_and!; [done|by eapply same_intent_trans|by etransitivity].
  - intros a x Ha. destruct (A2 a x Ha) as (y & Hy & Sy), (B2 a y Hy) as (z & Hz & Sz).
    exists z. split; [done|by eapply same_attempt_trans].
Qed.

(** An order and an attempt rewritten in place. *)
Definition intents_carried (m m' : gmap Z IntentRow) : Prop :=
  forall i row, m !! i = Some row ->
    exists row', m' !! i = Some row' /\ same_intent row row' /\ rtc intent_move (ir_status row) (ir_status row').
Definition attempts_carried (m m' : gmap Z AttemptRow) : Prop :=
  forall a x, m !! a = Some x -> exists x', m' !! a = Some x' /\ same_attempt x x'.

Lemma intents_carried_refl m : intents_carried m m.
Proof. intros i row Hi. exists row. split_and!; [done|apply same_intent_refl|done]. Qed.
Lemma attempts_carried_refl m : attempts_carried m m.
Proof. intros a x Ha. exists x. split; [done|apply same_attempt_refl]. Qed.

Lemma intents_carried_insert m i row status version now :
  m !! i = Some row -> intent_move (ir_status row) status ->
  intents_carried m (<[i := intent_with status version now row]> m).
Proof.
  intros Hi Hm j r Hj. destruct (decide (i = j)) as [<-|Hne].
  - rewrite lookup_insert_eq. rewrite Hi in Hj. injection Hj as <-. eexists. split_and!; [done|by do 3 eexists|].
    by apply rtc_once.
  - rewrite lookup_insert_ne by done. by apply intents_carried_refl.
Qed.
Lemma attempts_carried_insert m a x status now :
  m !! a = Some x -> attempts_carried m (<[a := attempt_with status now x]> m).
Proof.
  intros Ha b y Hb. destruct (decide (a = b)) as [<-|Hne].
  - rewrite lookup_insert_eq. rewrite Ha in Hb. injection Hb as <-. eexists. split; [done|by do 2 eexists].
  - rewrite lookup_insert_ne by done. by apply attempts_carried_refl.
Qed.

Lemma expire_intents_carried now due m : intents_carried m (expire_intents now due m).
Proof.
  intros i row Hi. rewrite expire_intents_lookup, Hi. simpl. eexists. split; [done|].
  unfold expired_row. case_bool_decide as Hs; simpl; [|split; [apply same_intent_refl|done]].
  destruct (waits_in due i); [|split; [apply same_intent_refl|done]]. split; [by do 3 eexists|].
  rewrite Hs. apply rtc_once, move_expired.
Qed.

(** What became of each attempt of a sweep. *)
Lemma expire_attempts_cases now limit db a :
  let due := due_attempts now limit db in
  expire_attempts now due (payment_attempts db) !! a = payment_attempts db !! a
  \/ exists x, payment_attempts db !! a = Some x /\ tt_status x = "awaiting_payment" /\ (a, x) ∈ due
     /\ expire_attempts now due (payment_attempts db) !! a = Some (attempt_with "expired" now x).
Proof.
  destruct (due_attempts_spec now limit db) as [Hnd Hdue]. simpl.
  destruct (decide (a ∈ (fst <$> due_attempts now limit db))) as [Hin|Hin].
  - apply list_elem_of_fmap in Hin as ([a' x] & -> & Hin). right. exists x.
    destruct (Hdue a' x Hin) as (? & ? & ?). split_and!; [done..|]. by apply expire_attempts_lookup.
  - left. by apply expire_attempts_lookup_ne.
Qed.

Lemma close_attempts_lookup i now m a :
  close_attempts i now m !! a =
  (fun x => if is_live_of i x then attempt_with "cancelled" now x else x) <$> m !! a.
Proof. apply lookup_fmap. Qed.

Lemma order_step_carried clock db db' : order_step clock db db' -> carried db db'.
Proof.
  intros [(E1 & E2 & E3) (E4 & _)
    |i a t row x paid now al v Hi Hp Ha Hai Hnone Hal E1 E2 E3 (E4 & _)
    |i row Hnone Hst E1 E2 E3 (E4 & _)
    |plan row amount token l v Hclock Hi Hst (Hq & Ha & _) E1 E2 E3 E4 _ _
    |i row now v Hi Hst _ E1 E2 E3 (E4 & _)
    |limit due leases _ _ E1 E2 E3 E4 _ _]; split; rewrite ?E1, ?E2, ?E3, ?E4; try done.
  all: try apply intents_carried_refl; try apply attempts_carried_refl.
  - apply intents_carried_insert; [done|]. destruct paid; by constructor.
  - by apply attempts_carried_insert.
  - by apply insert_subseteq.
  - intros j r Hj. rewrite lookup_insert_ne by (intros ->; congruence). by apply intents_carried_refl.
  - apply intents_carried_insert; [done|by constructor].
  - intros b x Hb. rewrite lookup_insert_ne by (intros <-; congruence). by apply attempts_carried_refl.
  - by apply insert_subseteq.
  - apply intents_carried_insert; [done|by constructor].
  - intros b x Hb. rewrite close_attempts_lookup, Hb. simpl. eexists. split; [done|].
    destruct (is_live_of i x); [by do 2 eexists|apply same_attempt_refl].
  - apply expire_intents_carried.
  - intros b x Hb. destruct (expire_attempts_cases clock limit db b) as [E|(y & Hy & _ & _ & E)]; subst due; rewrite E.
    + by apply attempts_carried_refl.
    + rewrite Hb in Hy. injection Hy as <-. eexists. split; [done|by do 2 eexists].
Qed.

(** ** Reservations *)

(** The reservation of an attempt: its collector and its exact amount, from
    its creation to the end of its late-payment window. *)
Definition lease_of (a : Z) (attempt : AttemptRow) : AmountLeaseRow := {|
  al_collector_address_id := tt_collector_address_id attempt;
  al_amount_raw := tt_expected_amount_raw attempt; al_attempt_id := a;
  al_leased_from := tt_created_at attempt; al_lease_until := tt_late_payment_until attempt |}.

Definition is_reservation (db : Database) (lease : AmountLeaseRow) : Prop :=
  exists attempt, payment_attempts db !! al_attempt_id lease = Some attempt
    /\ lease = lease_of (al_attempt_id lease) attempt.

Record orderly (db : Database) : Prop := {
  (** only partially or fully paid orders have received money *)
  ord_funded k al : payment_allocations db !! k = Some al ->
    exists row, payment_intents db !! ar_payment_intent_id al = Some row /\ ir_status row ∈ FUNDED_STATES;
  (** reservations, held and archived, are those of attempts *)
  ord_leased l lease : amount_leases db !! l = Some lease -> is_reservation db lease;
  ord_archived h row : amount_lease_history db !! h = Some row ->
    is_reservation db (ah_lease row) /\ al_lease_until (ah_lease row) <= ah_released_at row;
  (** every attempt has one, and gives it up only after its late window *)
  ord_reserved a attempt : payment_attempts db !! a = Some attempt ->
    (exists l, amount_leases db !! l = Some (lease_of a attempt))
    \/ (exists h row, amount_lease_history db !! h = Some row /\ ah_lease row = lease_of a attempt);
  (** no amount is reserved twice on a collector *)
  ord_exclusive l l' lease lease' : amount_leases db !! l = Some lease -> amount_leases db !! l' = Some lease' ->
    al_collector_address_id lease = al_collector_address_id lease' ->
    al_amount_raw lease = al_amount_raw lease' -> l = l';
  (** at most one attempt of an order waits for money *)
  ord_live a a' x x' : payment_attempts db !! a = Some x -> payment_attempts db !! a' = Some x' ->
    is_live_of (tt_payment_intent_id x) x = true -> is_live_of (tt_payment_intent_id x) x' = true -> a = a';
  (** a quote has one attempt *)
  ord_quoted a a' x x' : payment_attempts db !! a = Some x -> payment_attempts db !! a' = Some x' ->
    tt_quote_id x = tt_quote_id x' -> a = a';
}.

(** The attempts of [m'] are those of [m], and none of them started to wait. *)
Definition attempts_kept (m m' : gmap Z AttemptRow) : Prop :=
  forall a x', m' !! a = Some x' -> exists x, m !! a = Some x /\ same_attempt x x'
    /\ (tt_status x' = "awaiting_payment" -> tt_status x = "awaiting_payment").

Lemma attempts_kept_insert m a x status now :
  m !! a = Some x -> (status = "awaiting_payment" -> tt_status x = "awaiting_payment") ->
  attempts_kept m (<[a := attempt_with status now x]> m).
Proof.
  intros Ha Hs b y Hb. apply lookup_insert_Some in Hb as [[<- <-]|[_ Hb]].
  - exists x. split_and!; [done|by do 2 eexists|done].
  - exists y. split_and!; [done|apply same_attempt_refl|done].
Qed.
Lemma attempts_kept_refl m : attempts_kept m m.
Proof. intros a x Ha. exists x. split_and!; [done|apply same_attempt_refl|done]. Qed.
Lemma close_attempts_kept i now m : attempts_kept m (close_attempts i now m).
Proof.
  intros a x' Ha. rewrite close_attempts_lookup in Ha. destruct (m !! a) as [x|]; [|done].
  injection Ha as <-. exists x. split; [done|]. destruct (is_live_of i x); [|split; [apply same_attempt_refl|done]].
  split; [by do 2 eexists|done].
Qed.
Lemma expire_attempts_kept now limit db :
  attempts_kept (payment_attempts db)
    (expire_attempts now (due_attempts now limit db) (payment_attempts db)).
Proof.
  intros a x' Ha. destruct (expire_attempts_cases now limit db a) as [E|(y & Hy & _ & _ & E)]; rewrite E in Ha.
  - exists x'. split_and!; [done|apply same_attempt_refl|done].
  - injection Ha as <-. exists y. split_and!; [done|by do 2 eexists|done].
Qed.

Lemma is_live_of_spec i x : is_live_of i x = true <->
  tt_payment_intent_id x = i /\ tt_status x = "awaiting_payment".
Proof. unfold is_live_of. rewrite andb_true_iff, Z.eqb_eq, bool_decide_eq_true. done. Qed.

Lemma reservation_carried db db' lease :
  attempts_carried (payment_attempts db) (payment_attempts db') ->
  is_reservation db lease -> is_reservation db' lease.
Proof.
  intros Hc (x & Hx & Hl). destruct (Hc _ x Hx) as (x' & Hx' & (s & t & ->)). exists (attempt_with s t x).
  by split.
Qed.

(** What the later states of the attempts do not disturb. *)
Lemma live_kept m m' :
  attempts_kept m m' ->
  (forall a a' x x', m !! a = Some x -> m !! a' = Some x' -> is_live_of (tt_payment_intent_id x) x = true ->
     is_live_of (tt_payment_intent_id x) x' = true -> a = a') ->
  forall a a' x x', m' !! a = Some x -> m' !! a' = Some x' -> is_live_of (tt_payment_intent_id x) x = true ->
     is_live_of (tt_payment_intent_id x) x' = true -> a = a'.
Proof.
  intros Hk Hl a a' x x' Hx Hx' [_ Hs]%is_live_of_spec [Hi Hs']%is_live_of_spec.
  destruct (Hk a x Hx) as (y & Hy & (s & t & ->) & Hw), (Hk a' x' Hx') as (y' & Hy' & (s' & t' & ->) & Hw').
  cbn in *. eapply (Hl a a' y y'); [done..| |]; apply is_live_of_spec; auto.
Qed.

Lemma quoted_kept m m' :
  attempts_kept m m' ->
  (forall a a' x x', m !! a = Some x -> m !! a' = Some x' -> tt_quote_id x = tt_quote_id x' -> a = a') ->
  forall a a' x x', m' !! a = Some x -> m' !! a' = Some x' -> tt_quote_id x = tt_quote_id x' -> a = a'.
Proof.
  intros Hk Hq a a' x x' Hx Hx' E.
  destruct (Hk a x Hx) as (y & Hy & (s & t & ->) & _), (Hk a' x' Hx') as (y' & Hy' & (s' & t' & ->) & _).
  by apply (Hq a a' y y').
Qed.

(** The orders that have money keep a funded status. *)
Lemma funded_carried db db' :
  orderly db -> carried db db' ->
  (forall k al, payment_allocations db' !! k = Some al ->
     payment_allocations db !! k = Some al
     \/ exists row, payment_intents db' !! ar_payment_intent_id al = Some row /\ ir_status row ∈ FUNDED_STATES) ->
  forall k al, payment_allocations db' !! k = Some al ->
    exists row, payment_intents db' !! ar_payment_intent_id al = Some row /\ ir_status row ∈ FUNDED_STATES.
Proof.
  intros Ho Hc Hal k al Hk. destruct (Hal k al Hk) as [Hold|?]; [|done].
  destruct (ord_funded _ Ho k al Hold) as (row & Hrow & Hf).
  destruct (car_intent _ _ Hc _ _ Hrow) as (row' & Hrow' & _ & Hm). exists row'. split; [done|].
  by eapply funded_is_kept.
Qed.

(** Nothing new is reserved, and nothing released. *)
Lemma orderly_kept db db' :
  orderly db -> carried db db' -> same_reservations db db' ->
  attempts_kept (payment_attempts db) (payment_attempts db') ->
  (forall k al, payment_allocations db' !! k = Some al ->
     payment_allocations db !! k = Some al
     \/ exists row, payment_intents db' !! ar_payment_intent_id al = Some row /\ ir_status row ∈ FUNDED_STATES) ->
  orderly db'.
Proof.
  intros Ho Hc (_ & E2 & E3) Hk Hal. pose proof (car_attempt _ _ Hc) as Ha. split; rewrite ?E2, ?E3.
  - by eapply funded_carried.
  - intros l lease Hl. eapply reservation_carried; [exact Ha|]. by eapply ord_leased.
  - intros h row Hh. destruct (ord_archived _ Ho h row Hh) as [Hr Hle]. split; [|done].
    by eapply reservation_carried.
  - intros a x' Hx'. destruct (Hk a x' Hx') as (x & Hx & (s & t & ->) & _). by apply (ord_reserved _ Ho a x Hx).
  - apply (ord_exclusive _ Ho).
  - eapply live_kept; [done|apply (ord_live _ Ho)].
  - eapply quoted_kept; [done|apply (ord_quoted _ Ho)].
Qed.

Lemma is_leased_false c amount db :
  is_leased c amount db = false -> forall l lease, amount_leases db !! l = Some lease ->
  al_collector_address_id lease = c -> al_amount_raw lease <> amount.
Proof.
  intros Hf l lease Hl Hc Ha. apply bool_decide_eq_false in Hf. apply Hf. by exists l, lease.
Qed.

Lemma orderly_quoted db db' plan amount token lease_id :
  orderly db -> carried db db' -> fresh_quote plan amount lease_id db ->
  payment_attempts db' = <[plan_attempt_id plan := planned_attempt plan amount token]> (payment_attempts db) ->
  payment_allocations db' = payment_allocations db ->
  amount_leases db' = <[lease_id := planned_lease plan amount]> (amount_leases db) ->
  amount_lease_history db' = amount_lease_history db -> orderly db'.
Proof.
  intros Ho Hc (_ & Ha & Hl & Hlive & Hfree & _ & _ & Hone) E2 E3 E5 E6. pose proof (car_attempt _ _ Hc) as Hca.
  pose proof (is_leased_false _ _ _ Hfree) as Hnew. split; rewrite ?E2, ?E5, ?E6.
  - eapply funded_carried; [done..|]. rewrite E3. by left.
  - intros l lease Hlk. apply lookup_insert_Some in Hlk as [[<- <-]|[_ Hlk]].
    + eexists. rewrite E2. cbn. by rewrite lookup_insert_eq.
    + eapply reservation_carried; [exact Hca|]. by eapply ord_leased.
  - intros h row Hh. destruct (ord_archived _ Ho h row Hh) as [Hr Hle]. split; [|done]. by eapply reservation_carried.
  - intros a x Hx. apply lookup_insert_Some in Hx as [[<- <-]|[_ Hx]].
    + left. exists lease_id. by rewrite lookup_insert_eq.
    + destruct (ord_reserved _ Ho a x Hx) as [[l Hlk]|?]; [left|by right]. exists l.
      rewrite lookup_insert_ne; [done|]. intros <-. congruence.
  - intros l l' x x' Hx Hx' Hcol Hamt. apply lookup_insert_Some in Hx as [[<- <-]|[_ Hx]];
      apply lookup_insert_Some in Hx' as [[<- <-]|[_ Hx']]; [done| | |by eapply (ord_exclusive _ Ho)].
    + by destruct (Hnew l' x' Hx').
    + by destruct (Hnew l x Hx).
  - intros a a' x x' Hx Hx' [_ Hs]%is_live_of_spec [Hi Hs']%is_live_of_spec.
    apply lookup_insert_Some in Hx as [[<- <-]|[_ Hx]]; apply lookup_insert_Some in Hx' as [[<- <-]|[_ Hx']]; [done| | |].
    + specialize (Hlive a' x' Hx'). simpl in Hlive. cbn in Hi.
      by rewrite (proj2 (is_live_of_spec _ _) (conj Hi Hs')) in Hlive.
    + specialize (Hlive a x Hx). simpl in Hlive. cbn in Hi.
      by rewrite (proj2 (is_live_of_spec _ _) (conj (eq_sym Hi) Hs)) in Hlive.
    + eapply (ord_live _ Ho a a' x x'); [done..| |]; by apply is_live_of_spec.
  - intros a a' x x' Hx Hx' Hq.
    apply lookup_insert_Some in Hx as [[<- <-]|[_ Hx]]; apply lookup_insert_Some in Hx' as [[<- <-]|[_ Hx']]; [done| | |].
    + by destruct (Hone a' x' Hx').
    + by destruct (Hone a x Hx).
    + by eapply (ord_quoted _ Ho a a' x x').
Qed.

Lemma orderly_swept db db' now leases :
  orderly db -> carried db db' ->
  (forall l lease m, (l, lease, m) ∈ leases -> amount_leases db !! l = Some lease /\ al_lease_until lease <= now) ->
  attempts_kept (payment_attempts db) (payment_attempts db') ->
  payment_allocations db' = payment_allocations db ->
  amount_leases db' = release leases (amount_leases db) ->
  archives now leases (amount_lease_history db) (amount_lease_history db') -> orderly db'.
Proof.
  intros Ho Hc Hdue Hk E3 E5 (Hsub & Hold & Hnew). pose proof (car_attempt _ _ Hc) as Hca.
  assert (forall l lease, amount_leases db' !! l = Some lease -> amount_leases db !! l = Some lease) as Hless.
  { intros l lease. rewrite E5, release_lookup. by case_decide. }
  split.
  - eapply funded_carried; [done..|]. rewrite E3. by left.
  - intros l lease Hl. eapply reservation_carried; [exact Hca|]. eapply ord_leased; [done|by apply Hless].
  - intros h row Hh. destruct (Hold h row Hh) as [Hh'|([[l lease] m] & Hin & ->)].
    + destruct (ord_archived _ Ho h row Hh') as [Hr Hle]. split; [|done]. by eapply reservation_carried.
    + destruct (Hdue l lease m Hin) as [Hl Hle]. cbn. split; [|done].
      eapply reservation_carried; [exact Hca|]. by eapply ord_leased.
  - intros a x' Hx'. destruct (Hk a x' Hx') as (x & Hx & (s & t & ->) & _).
    destruct (ord_reserved _ Ho a x Hx) as [[l Hl]|(h & row & Hh & Hr)].
    + destruct (decide (l ∈ ((fun e => fst (fst e)) <$> leases))) as [Hin|Hin].
      * apply list_elem_of_fmap in Hin as ([[l' lease] m] & -> & Hin). right.
        destruct (Hdue l' lease m Hin) as [Hl' _]. cbn in Hl. rewrite Hl' in Hl. injection Hl as ->.
        destruct (Hnew _ Hin) as [h Hh]. by exists h, (archived now (l', lease_of a x, m)).
      * left. exists l. by rewrite E5, release_lookup, decide_False.
    + right. exists h, row. split; [|done]. by eapply lookup_weaken.
  - intros l l' x x' Hx Hx'. apply (ord_exclusive _ Ho); by apply Hless.
  - eapply live_kept; [done|apply (ord_live _ Ho)].
  - eapply quoted_kept; [done|apply (ord_quoted _ Ho)].
Qed.

Lemma order_step_orderly clock db db' : order_step clock db db' -> orderly db -> orderly db'.
Proof.
  intros Hs Ho. pose proof (order_step_carried _ _ _ Hs) as Hc.
  destruct Hs as [(E1 & E2 & E3) Hr
    |i a t row x paid now al v Hi Hp Ha Hai Hnone Hal E1 E2 E3 Hr
    |i row Hnone Hst E1 E2 E3 Hr
    |plan row amount token l v Hclock Hi Hst Hf E1 E2 E3 E4 E5 E6
    |i row now v Hi Hst _ E1 E2 E3 Hr
    |limit due leases Hnd Hdue E1 E2 E3 E4 E5 Harch].
  - apply (orderly_kept db); [done..|rewrite E2; apply attempts_kept_refl|rewrite E3; by left].
  - apply (orderly_kept db); [done..|rewrite E2; apply attempts_kept_insert; [done|by destruct paid]|].
    intros k al' Hk. rewrite E3 in Hk. apply lookup_insert_Some in Hk as [[_ <-]|[_ Hk]]; [right|by left].
    rewrite Hal, E1, lookup_insert_eq. eexists. split; [done|]. unfold FUNDED_STATES. destruct paid; set_solver.
  - apply (orderly_kept db); [done..|rewrite E2; apply attempts_kept_refl|rewrite E3; by left].
  - by eapply orderly_quoted.
  - apply (orderly_kept db); [done..|rewrite E2; apply close_attempts_kept|rewrite E3; by left].
  - eapply orderly_swept; try done. rewrite E2. apply expire_attempts_kept.
Qed.

(** ** The books through orders *)

(** The tables only money moves. *)
Definition same_ledger (db db' : Database) : Prop :=
  chain_transfer_processing db' = chain_transfer_processing db /\ chain_transfers db' = chain_transfers db
  /\ chain_transfer_intent_claims db' = chain_transfer_intent_claims db
  /\ payment_allocations db' = payment_allocations db
  /\ payment_fulfillments db' = payment_fulfillments db /\ same_control db db'
  /\ forall j, paid_events j db' = paid_events j db.

(** No order became paid and no attempt settled, and none stopped being so. *)
Definition same_paid (m m' : gmap Z IntentRow) : Prop :=
  forall i, (exists row, m' !! i = Some row /\ ir_status row = "paid")
            <-> (exists row, m !! i = Some row /\ ir_status row = "paid").
Definition same_settled (m m' : gmap Z AttemptRow) : Prop :=
  forall a x', m' !! a = Some x' -> tt_status x' = "settled" ->
    exists x, m !! a = Some x /\ tt_status x = "settled".

Lemma balanced_reordered db db' :
  same_ledger db db' -> carried db db' -> same_paid (payment_intents db) (payment_intents db') ->
  same_settled (payment_attempts db) (payment_attempts db') -> balanced db -> balanced db'.
Proof.
  intros (E1 & E2 & E3 & E4 & E5 & _ & E6) Hc Hp Hs [B1 B2 B3 B4 B5 B6 B7].
  split; unfold transfer_total; rewrite ?E1, ?E2, ?E3, ?E4, ?E5.
  - exact B1.
  - intros a t al Hal. destruct (B2 a t al Hal) as (Hpos & Hcl & x & transfer & Hx & Hi & Ht & Hcol).
    split_and!; [done..|]. destruct (car_attempt _ _ Hc a x Hx) as (x' & Hx' & (s & now & ->)).
    by exists (attempt_with s now x), transfer.
  - exact B3.
  - intros i. by rewrite B4, (Hp i).
  - intros i. by rewrite E6, B5.
  - intros i row Hi Hpaid. destruct (proj1 (Hp i)) as (row0 & Hr0 & Hp0); [by exists row|]. by eapply B6.
  - intros a x' Hx' Hst. destruct (Hs a x' Hx' Hst) as (x & Hx & ?). by eapply B7.
Qed.

Lemma governed_reordered threshold db db' :
  same_ledger db db' -> carried db db' -> same_paid (payment_intents db) (payment_intents db') ->
  same_settled (payment_attempts db) (payment_attempts db') -> governed threshold db -> governed threshold db'.
Proof.
  intros Hl Hc Hp Hs G. pose proof Hl as (_ & _ & _ & E4 & _ & (Er & Ep) & _).
  eapply governed_frame; [done| |done|by apply moved_same|by rewrite E4].
  eapply balanced_reordered; [done..|by eapply gov_balanced].
Qed.

Lemma same_paid_insert m i row row' :
  m !! i = Some row -> ir_status row <> "paid" -> ir_status row' <> "paid" -> same_paid m (<[i := row']> m).
Proof.
  intros Hi Hs Hs' j. destruct (decide (i = j)) as [<-|Hne].
  - rewrite lookup_insert_eq, Hi. split; intros (r & [= <-] & ?); done.
  - by rewrite lookup_insert_ne.
Qed.

Lemma same_settled_kept m m' :
  (forall a x', m' !! a = Some x' -> tt_status x' = "settled" -> m !! a = Some x') -> same_settled m m'.
Proof. intros Hm a x' Hx' Hs. exists x'. split; [by apply Hm|done]. Qed.

Lemma cancellable_not_paid s : s ∈ CANCELLABLE_STATES -> s <> "paid".
Proof. unfold CANCELLABLE_STATES. set_solver. Qed.

Section governed_orders.
Context `{U256Lib} `{HashLib} `{Base58Lib}.

Lemma create_governed threshold intent route key hash db result db' :
  pi_status intent = RequiresQuote -> create_step intent route key hash db result db' ->
  governed threshold db -> governed threshold db'.
Proof.
  intros Hst Hstep. pose proof (order_step_carried 0 _ _ (create_order _ _ _ _ _ _ _ _ Hst Hstep)) as Hc. revert Hc.
  destruct Hstep as [(_ & _ & Hid & _ & record & _ & _ & [trail ->])|(p & _ & _ & ->)]; [|done].
  intros Hc. apply governed_reordered; [done|done| |by apply same_settled_kept].
  cbn. intros j. destruct (decide (pi_id intent = j)) as [<-|Hne]; [|by rewrite lookup_insert_ne].
  rewrite lookup_insert_eq, Hid. split; [|by intros (r & ? & _)]. intros (r & [= <-] & Hp).
  cbn in Hp. by rewrite Hst in Hp.
Qed.

Lemma cancel_governed threshold m i route key hash db result db' :
  cancel_step m i route key hash db result db' -> governed threshold db -> governed threshold db'.
Proof.
  intros Hstep. pose proof (order_step_carried 0 _ _ (cancel_order _ _ _ _ _ _ _ _ _ Hstep)) as Hc. revert Hc.
  destruct Hstep as [[_ ->]|[(p & _ & _ & ->)|(p & row & record & v & now & trail & db1 & _ & _ & Hrow & Hst & _ & _
    & _ & _ & Hq & ->)]]; [done..|]. intros Hc.
  apply intent_row_Some in Hrow as (row' & [= <-] & Hrow & _).
  destruct (queued_same_money _ _ _ Hq) as (E1 & E2 & E3 & E4 & E5 & E6 & E7), (queued_same_control _ _ _ Hq) as [E8 E9].
  apply governed_reordered; [|done|cbn; rewrite E6|cbn; rewrite E5].
  - split_and!; [done..|]. intros j. destruct Hq as (_ & _ & _ & Hn). specialize (Hn j).
    etransitivity; [exact Hn|]. by rewrite Nat.add_0_r.
  - cbn. eapply same_paid_insert; [done|by apply cancellable_not_paid|done].
  - apply same_settled_kept. intros a x'. change (payment_attempts (on_audit _ _)) with (close_attempts i now (payment_attempts db)).
    rewrite close_attempts_lookup.
    destruct (payment_attempts db !! a) as [x|]; [|done]. intros [= <-]. by destruct (is_live_of i x).
Qed.

Lemma issue_governed threshold plan route key hash db result db' :
  issue_step plan route key hash db result db' -> governed threshold db -> governed threshold db'.
Proof.
  intros Hstep. pose proof (order_step_carried _ _ _ (issue_order _ _ _ _ _ _ _ Hstep)) as Hc. revert Hc.
  destruct Hstep as [(q & resource & row & _ & _ & _ & _ & ->)|(q & row & intent & amount & token & lease_id & record & v
    & _ & _ & (Hi & _ & Hst & _) & _ & (_ & Ha & _) & _ & _ & [trail ->] & _)]; [done|]. intros Hc.
  apply governed_reordered; [done|done| |].
  - cbn. eapply same_paid_insert; [done| |done]. by destruct Hst as [->|[-> _]].
  - apply same_settled_kept. cbn. intros a x' Hx' Hs. by apply lookup_insert_Some in Hx' as [[_ <-]|[_ ?]].
Qed.

Lemma expire_governed threshold now limit db result db' :
  expire_step now limit db result db' -> governed threshold db -> governed threshold db'.
Proof.
  intros Hstep. pose proof (order_step_carried _ _ _ (expire_order _ _ _ _ _ Hstep)) as Hc. revert Hc.
  destruct Hstep as (history & _ & [trail ->] & _). intros Hc. apply governed_reordered; [done|done| |].
  - cbn. intros i. rewrite expire_intents_lookup. destruct (payment_intents db !! i) as [row|]; [|done]. cbn.
    unfold expired_row. case_bool_decide as Hs; cbn; [|done]. destruct (waits_in _ i); [|done].
    split; intros (r & [= <-] & Hp); [done|congruence].
  - apply same_settled_kept. cbn. intros a x'.
    destruct (expire_attempts_cases now limit db a) as [->|(y & _ & _ & _ & ->)]; [done|]. by intros [= <-].
Qed.
End governed_orders.

(** ** Spent keys *)

(** A spent key stays spent, on the same request. *)
Definition keys_kept (db db' : Database) : Prop := api_idempotency_records db ⊆ api_idempotency_records db'.

#[export] Instance keys_kept_preorder : PreOrder keys_kept.
Proof. unfold keys_kept. split; [intros db|intros db1 db2 db3 ? ?]; [done|by etransitivity]. Qed.

Lemma keys_refl db : keys_kept db db.
Proof. reflexivity. Qed.
#[local] Hint Resolve keys_refl : core.
Lemma keys_same db db' : api_idempotency_records db' = api_idempotency_records db -> keys_kept db db'.
Proof. unfold keys_kept. by intros ->. Qed.
Lemma aside_keys db db' : aside db db' -> keys_kept db db'.
Proof. intros (_ & _ & _ & (_ & _ & _ & E) & _). by apply keys_same. Qed.
Lemma queued_keys f db db' : queued f db db' -> keys_kept db db'.
Proof. intros Hq. apply queued_same_orders in Hq as (_ & _ & _ & E). by apply keys_same. Qed.
Lemma parked_keys t state db db' : parked t state db db' -> keys_kept db db'.
Proof. intros (r & r' & _ & _ & _ & Hn). apply noted_same_orders in Hn as (_ & _ & _ & E). by apply keys_same. Qed.
Lemma credited_keys command amount state paid t db db' :
  credited command amount state paid t db db' -> keys_kept db db'.
Proof.
  intros (row & row' & transfer & attempt & al & db1 & db2 & (claim & _ & -> & _) & _ & _ & _ & _ & _ & _
    & _ & _ & _ & _ & _ & _ & _ & (a & i & i' & f & _ & _ & _ & _ & _ & _ & _ & _ & _ & Hq) & Hq').
  apply queued_keys in Hq, Hq'. etransitivity; [exact Hq|exact Hq'].
Qed.
Lemma settle_keys lease command record db db' :
  balanced db -> settle_step lease command db record db' -> keys_kept db db'.
Proof.
  intros Hb Hs. apply settle_step_case in Hs; [|done].
  destruct Hs as [_|record db' _ _ Hpk|outcome amount t db' _ _ Hcr]; [done|by eapply parked_keys|by eapply credited_keys].
Qed.
Lemma unresolved_keys lease transfer db db' : unresolved_step lease transfer db db' -> keys_kept db db'.
Proof.
  intros (_ & [(row & row' & _ & _ & _ & _ & Hq)|[_ Hq]]); apply queued_keys in Hq; exact Hq.
Qed.
Lemma proposal_keys db db' : proposal_step db db' -> keys_kept db db'.
Proof. intros [->|(table & _ & [trail ->])]; by apply keys_same. Qed.

Section operator_keys.
Context {R : Type} `{Postgres R} `{U256Lib} `{UuidLib} `{TimeSerde}.

Lemma honor_keys credential key hash resolution t db result db' :
  honor_step credential key hash resolution t db result db' -> keys_kept db db'.
Proof.
  intros (plan & a & i & id & row & db1 & _ & _ & _ & _ & _ & _ & (db2 & al & Hcr & _ & (d & e & ->)) & [trail ->] & _).
  apply credited_keys in Hcr. exact Hcr.
Qed.
Lemma resolve_keys credential key hash resolution t db result db' :
  resolve_step credential key hash resolution t db result db' -> keys_kept db db'.
Proof.
  intros [(row & _ & _ & _ & ->)|Hs]; [done|]. case_bool_decide; [by eapply honor_keys|].
  destruct Hs as (id & m & rem & row & disp & db1 & _ & _ & _ & (p & p' & _ & _ & _ & _ & ->) & [trail ->] & _).
  by apply keys_same.
Qed.
Lemma approve_keys approver proposal_id key reason t db result db' :
  approve_step approver proposal_id key reason t db result db' -> keys_kept db db'.
Proof.
  intros [(row & _ & _ & ->)|(p & allocate & db1 & _ & _ & _ & _ & _ & Hh & [trail ->])]; [done|].
  apply honor_keys in Hh. exact Hh.
Qed.
End operator_keys.

Section merchant_keys.
Context `{U256Lib} `{HashLib} `{Base58Lib}.

Lemma create_keys intent route key hash db result db' :
  create_step intent route key hash db result db' -> keys_kept db db'.
Proof.
  intros [(_ & Hnone & _ & _ & record & _ & _ & [trail ->])|(p & _ & _ & ->)]; [|done]. by apply insert_subseteq.
Qed.
Lemma cancel_keys m i route key hash db result db' :
  cancel_step m i route key hash db result db' -> keys_kept db db'.
Proof.
  intros [[_ ->]|[(p & _ & _ & ->)|(p & row & record & v & now & trail & db1 & _ & Hnone & _ & _ & _ & _ & _ & _ & Hq & ->)]];
    [done..|]. apply queued_same_orders in Hq as (_ & _ & _ & E). unfold keys_kept. cbn in E |- *. rewrite E.
  by apply insert_subseteq.
Qed.
Lemma issue_keys plan route key hash db result db' :
  issue_step plan route key hash db result db' -> keys_kept db db'.
Proof.
  intros [(q & resource & row & _ & _ & _ & _ & ->)|(q & row & intent & amount & token & lease_id & record & v
    & _ & Hnone & _ & _ & _ & _ & _ & [trail ->] & _)]; [done|]. by apply insert_subseteq.
Qed.
Lemma expire_keys now limit db result db' : expire_step now limit db result db' -> keys_kept db db'.
Proof. intros (history & _ & [trail ->] & _). by apply keys_same. Qed.
End merchant_keys.

(** ** Every call of the gateway *)

Section shop.
Context {R : Type} `{Postgres R} `{U256Lib} `{HashLib} `{UuidLib} `{TimeLib} `{TimeSerde} `{JsonLib} `{Base58Lib}.
Context (self : OperationsService).

Let threshold : Z := as_u256 (dual_control_min_raw (os_honor_policy self)).

(** A merchant's request or a sweep, or a call of the payment side. *)
Inductive shop_step : Session R -> Session R -> Prop :=
  | shop_gateway s s' : gateway_step self s s' -> shop_step s s'
  | shop_create merchant actor key input s : shop_step s (create merchant actor key input s).2
  | shop_cancel merchant actor key intent reason s : shop_step s (cancel merchant actor key intent reason s).2
  | shop_get merchant intent s : shop_step s (get merchant intent s).2
  | shop_issue service merchant actor key input s : shop_step s (issue service merchant actor key input s).2
  | shop_expire limit s : shop_step s (expire_due limit s).2
  | shop_authenticate hash s : shop_step s (authenticate_api_key hash s).2.

Lemma find_quote_replay_transacts m route key hash :
  transacts (fun db r db' => db' = db /\ match r with
      | None => api_idempotency_records db !! (m, route, key) = None
      | Some q => exists resource row, spent m route key hash db resource
          /\ quote_row m resource db = Some row /\ IssuedQuote_try_from row = Ok q end)
    (pg_find_quote_replay (R := R) m route key hash).
Proof.
  intros db0 db now. apply ends_begin. intros now'. apply ends_bind_select. unfold idempotency_record.
  destruct (api_idempotency_records db0 !! (m, route, key)) as [row|] eqn:Hrow; cbn; [|by apply ends_commit].
  apply ends_bind_lift. intros _ Hh%guard_err_Ok. bool_to_prop.
  eapply ends_bind; [apply find_quote_spec|]. intros found db1 [-> Hf].
  apply ends_bind_lift. intros q ->%ok_or_Ok. apply transpose_Some in Hf as (qrow & Hr & Hq).
  apply ends_commit. split; [done|]. exists (id_resource_id row), qrow. split_and!; [by exists row|done..].
Qed.

Lemma created_status id m amount reference description metadata now p :
  PaymentIntent_create id m amount reference description metadata now = Ok p ->
  pi_status p = RequiresQuote /\ pi_merchant_id p = m.
Proof.
  intros Hp. pose proof (payment_intent_create_spec id m amount reference description metadata now) as Hs.
  rewrite Hp in Hs. by destruct Hs as (_ & ? & _ & ? & _).
Qed.

Section keeps.
Context (I : Database -> Prop).
Abbreviation keeps m := (holds (fun s : Session R => I (committed s)) m (fun _ => True)).

Lemma keeps_draw {E} : keeps (draw_uuid (E := E)).
Proof. intros s Hs. unfold draw_uuid, source_uuid, session_uuid. cbn. by destruct (now_v7 _). Qed.

Lemma keeps_find_by_id m i : keeps (pg_find_by_id m i).
Proof.
  eapply holds_bind; [apply keeps_read|]. intros row _. apply holds_pure.
Qed.

Lemma keeps_load_context m asset currency : keeps (pg_load_quote_context m asset currency).
Proof.
  eapply holds_bind; [apply holds_pool; by intros now db x db' G [= <- <-]|].
  intros rows _. do 3 (eapply holds_bind; [apply holds_pure|]; intros ? _). by apply holds_ret.
Qed.

Ltac shop_step :=
  match goal with
  | |- holds _ (mbind _ (lift _)) _ => eapply holds_bind; [apply holds_lift|]; intros ? ?
  | |- holds _ (mbind _ read_clock) _ => eapply holds_bind; [apply holds_system_clock|]; intros ? _
  | |- holds _ (mbind _ draw_uuid) _ => eapply holds_bind; [apply keeps_draw|]; intros ? _
  | |- holds _ (lift _) _ => by eapply holds_weaken; [apply holds_lift|]
  | |- holds _ (mret _) _ => by apply holds_ret
  end.

(** A plan is made for the merchant that asked. *)
Lemma holds_plan merchant intent input context candidate :
  holds (fun s : Session R => I (committed s)) (plan_for merchant intent input context candidate)
    (fun plan => plan_merchant_id plan = merchant).
Proof.
  unfold plan_for. do 3 shop_step. eapply holds_weaken; [apply holds_lift|]. intros plan Hp%map_err_Ok.
  by apply build_identity in Hp as (_ & _ & ? & _).
Qed.

Lemma create_holds merchant actor key input :
  (forall intent route key hash db result db', pi_status intent = RequiresQuote -> pi_merchant_id intent = merchant ->
     create_step intent route key hash db result db' -> I db -> I db') ->
  keeps (create merchant actor key input).
Proof.
  intros Icreate. unfold create. do 5 shop_step.
  eapply holds_bind; [apply holds_lift|]. intros intent Hint%map_err_Ok.
  eapply holds_bind; [apply holds_map_err; eapply transacts_holds; [apply pg_create_transacts|]|].
  - intros db r db' G Hs. apply created_status in Hint as [? ?]. by eapply Icreate.
  - intros [p|p] _; shop_step.
Qed.

Lemma cancel_holds merchant actor key i reason :
  (forall i route key hash db result db', cancel_step merchant i route key hash db result db' -> I db -> I db') ->
  keeps (cancel merchant actor key i reason).
Proof.
  intros Icancel. unfold cancel. do 2 shop_step.
  eapply holds_bind; [apply holds_map_err; eapply transacts_holds; [apply pg_cancel_transacts|]|].
  - intros db r db' G Hs. by eapply Icancel.
  - intros [[p|p]|] _; shop_step.
Qed.

Lemma issue_holds service merchant actor key input :
  (forall plan route key hash db result db', plan_merchant_id plan = merchant ->
     issue_step plan route key hash db result db' -> I db -> I db') ->
  keeps (issue service merchant actor key input).
Proof.
  intros Iissue. unfold issue. shop_step.
  eapply holds_bind; [apply holds_map_err; eapply transacts_holds; [apply find_quote_replay_transacts|]|].
  { by intros db r db' G [-> _]. }
  intros [q|] _; [shop_step|]. eapply holds_bind; [apply holds_map_err, keeps_find_by_id|]. intros found _.
  shop_step. eapply holds_bind; [apply holds_map_err, keeps_load_context|].
  intros context _. destruct (qc_rail_stop_reason context); [shop_step|].
  destruct (admitted service context) as [|c l]; [shop_step|].
  generalize (@None RepositoryError). generalize (c :: l).
  induction l0 as [|candidate rest IH]; intros refusal; cbn [try_addresses]; [shop_step|].
  eapply holds_bind; [apply holds_plan|]. intros plan Hm.
  eapply (holds_bind _ _ _ (fun _ => True)).
  - eapply holds_weaken; [eapply holds_attempt, transacts_holds; [apply pg_issue_transacts|]|done].
    intros db r db' G Hs. exact (Iissue _ _ _ _ _ _ _ Hm Hs G).
  - intros [[q|q]|e] _; [shop_step..|]. destruct (is_spillover e); [apply IH|shop_step].
Qed.

Hypothesis Igateway : forall s s', gateway_step self s s' -> I (committed s) -> I (committed s').
Hypothesis Icreate : forall intent route key hash db result db', pi_status intent = RequiresQuote ->
  create_step intent route key hash db result db' -> I db -> I db'.
Hypothesis Icancel : forall m i route key hash db result db',
  cancel_step m i route key hash db result db' -> I db -> I db'.
Hypothesis Iissue : forall plan route key hash db result db',
  issue_step plan route key hash db result db' -> I db -> I db'.
Hypothesis Iexpire : forall now limit db result db', expire_step now limit db result db' -> I db -> I db'.
Hypothesis Iaside : forall db db', aside db db' -> I db -> I db'.

Lemma create_keeps merchant actor key input : keeps (create merchant actor key input).
Proof. apply create_holds. intros. by eapply Icreate. Qed.
Lemma cancel_keeps merchant actor key i reason : keeps (cancel merchant actor key i reason).
Proof. apply cancel_holds. intros. by eapply Icancel. Qed.
Lemma issue_keeps service merchant actor key input : keeps (issue service merchant actor key input).
Proof. apply issue_holds. intros. by eapply Iissue. Qed.

Lemma expire_keeps limit : keeps (expire_due limit).
Proof.
  unfold expire_due. do 2 shop_step. apply holds_map_err. eapply transacts_holds; [apply pg_expire_transacts|].
  intros db r db' G Hs. by eapply Iexpire.
Qed.

Lemma authenticate_keeps hash : keeps (pg_authenticate_api_key hash).
Proof.
  eapply holds_bind; [apply holds_pool|intros row _; by apply holds_ret].
  intros now db x db' G Hst. eapply Iaside; [|done]. unfold use_api_key in Hst.
  destruct (find_where _ _) as [[id k]|]; by simplify_eq.
Qed.

Lemma shop_step_keeps s s' : shop_step s s' -> I (committed s) -> I (committed s').
Proof.
  intros Hstep G. destruct Hstep as [s s' Hg|m a key input s|m a key i reason s|m i s|service m a key input s|limit s|hash s].
  - by eapply Igateway.
  - by apply create_keeps.
  - by apply cancel_keeps.
  - assert (keeps (get m i)) as Hm; [|by apply Hm].
    eapply holds_bind; [apply holds_map_err, keeps_find_by_id|]. intros row _. shop_step.
  - by apply issue_keeps.
  - by apply expire_keeps.
  - by apply authenticate_keeps.
Qed.

Lemma shop_steps_keep s s' : rtc shop_step s s' -> I (committed s) -> I (committed s').
Proof. induction 1 as [|s1 s2 s3 Hstep _ IH]; [done|]. intros G. by apply IH, (shop_step_keeps s1). Qed.
End keeps.

(** ** What holds after any calls *)

(** The state reached from [db0]. *)
Definition shop_state (db0 db : Database) : Prop :=
  governed threshold db /\ orderly db /\ carried db0 db /\ keys_kept db0 db.

Lemma shop_state_step db0 clock db db' :
  order_step clock db db' -> keys_kept db db' -> (governed threshold db -> governed threshold db') ->
  shop_state db0 db -> shop_state db0 db'.
Proof.
  intros Hs Hk Hg (G & O & C & K). split_and!; [by apply Hg|by eapply order_step_orderly| |by etransitivity].
  eapply carried_trans; [done|by eapply order_step_carried].
Qed.

Lemma shop_state_gateway db0 s s' :
  gateway_step self s s' -> shop_state db0 (committed s) -> shop_state db0 (committed s').
Proof.
  apply gateway_step_keeps.
  - intros lease command record db db' Hs St. pose proof (gov_balanced _ _ (proj1 St)) as Hb.
    eapply (shop_state_step _ 0); [by eapply settle_order|by eapply settle_keys|by eapply governed_settle|done].
  - intros lease transfer db db' Hs. eapply (shop_state_step _ 0); [by eapply unresolved_order|by eapply unresolved_keys|by eapply governed_unresolved].
  - intros credential key hash resolution t db result db' Hd Hs.
    eapply (shop_state_step _ 0); [by eapply resolve_order|by eapply resolve_keys|by eapply governed_resolve].
  - intros db db' Hs. eapply (shop_state_step _ 0); [by eapply proposal_order|by eapply proposal_keys|by eapply governed_proposal].
  - intros approver proposal_id key reason t db result db' Hs.
    eapply (shop_state_step _ 0); [by eapply approve_order|by eapply approve_keys|by eapply governed_approve].
  - intros db db' Hs. eapply (shop_state_step _ 0); [by eapply aside_order|by eapply aside_keys|by eapply governed_aside].
Qed.

Lemma shop_state_create db0 intent route key hash db result db' :
  pi_status intent = RequiresQuote -> create_step intent route key hash db result db' ->
  shop_state db0 db -> shop_state db0 db'.
Proof.
  intros Hst Hs. eapply (shop_state_step _ 0); [by eapply create_order|by eapply create_keys|by eapply create_governed].
Qed.
Lemma shop_state_cancel db0 m i route key hash db result db' :
  cancel_step m i route key hash db result db' -> shop_state db0 db -> shop_state db0 db'.
Proof.
  intros Hs. eapply (shop_state_step _ 0); [by eapply cancel_order|by eapply cancel_keys|by eapply cancel_governed].
Qed.
Lemma shop_state_issue db0 plan route key hash db result db' :
  issue_step plan route key hash db result db' -> shop_state db0 db -> shop_state db0 db'.
Proof.
  intros Hs. eapply shop_state_step; [by eapply issue_order|by eapply issue_keys|by eapply issue_governed].
Qed.
Lemma shop_state_aside db0 db db' : aside db db' -> shop_state db0 db -> shop_state db0 db'.
Proof.
  intros Hs. eapply (shop_state_step _ 0); [by eapply aside_order|by eapply aside_keys|by eapply governed_aside].
Qed.

Lemma shop_steps_state db0 s s' :
  rtc shop_step s s' -> shop_state db0 (committed s) -> shop_state db0 (committed s').
Proof.
  apply shop_steps_keep.
  - apply shop_state_gateway.
  - intros intent route key hash db result db'. apply shop_state_create.
  - intros m i route key hash db result db'. apply shop_state_cancel.
  - intros plan route key hash db result db'. apply shop_state_issue.
  - intros now limit db result db' Hs. eapply shop_state_step; [by eapply expire_order|by eapply expire_keys|by eapply expire_governed].
  - apply shop_state_aside.
Qed.

Lemma shop_run s s' :
  governed threshold (committed s) -> orderly (committed s) -> rtc shop_step s s' ->
  shop_state (committed s) (committed s').
Proof. intros G O Hr. eapply shop_steps_state; [done|]. split_and!; [done..|apply carried_refl|done]. Qed.

(** C8: An order lives its lifecycle.  Whatever requests, sweeps, settlement
    passes and operator calls follow each other, with whatever failures, an
    order stays the order it was (its merchant, amount, currency and reference
    never change) and its status only moves along the allowed transitions; a
    paid order stays paid, a cancelled one stays cancelled and never has money
    allocated to it, what was allocated stays allocated, and the books
    balance. *)
Theorem orders_live_their_lifecycle s s' :
  governed threshold (committed s) -> orderly (committed s) -> rtc shop_step s s' ->
  balanced (committed s')
  /\ payment_allocations (committed s) ⊆ payment_allocations (committed s')
  /\ forall i row, payment_intents (committed s) !! i = Some row ->
     exists row', payment_intents (committed s') !! i = Some row' /\ same_intent row row'
       /\ rtc intent_move (ir_status row) (ir_status row')
       /\ (ir_status row = "paid" -> ir_status row' = "paid")
       /\ (ir_status row = "cancelled" -> ir_status row' = "cancelled"
           /\ forall k al, payment_allocations (committed s') !! k = Some al -> ar_payment_intent_id al <> i).
Proof.
  intros G O Hr. destruct (shop_run _ _ G O Hr) as (G' & O' & C & _). split_and!; [by eapply gov_balanced|apply C|].
  intros i row Hi. destruct (car_intent _ _ C i row Hi) as (row' & Hi' & Hs & Hm). exists row'.
  split_and!; [done..| |].
  - intros E. rewrite E in Hm. by apply paid_is_final.
  - intros E. rewrite E in Hm. apply cancelled_is_final in Hm. split; [done|]. intros k al Hal <-.
    destruct (ord_funded _ O' k al Hal) as (row2 & Hr2 & Hf). rewrite Hi' in Hr2. injection Hr2 as <-.
    rewrite Hm in Hf. unfold FUNDED_STATES in Hf. set_solver.
Qed.
End shop.

(** ** Exact amounts over time *)

(** Nothing was released after [clock], and attempts with the same amount on
    the same collector have windows that do not meet. *)
Record apart (clock : Z) (db : Database) : Prop := {
  apart_released h row : amount_lease_history db !! h = Some row -> ah_released_at row <= clock;
  apart_windows a a' x x' : payment_attempts db !! a = Some x -> payment_attempts db !! a' = Some x' -> a <> a' ->
    tt_collector_address_id x = tt_collector_address_id x' ->
    tt_expected_amount_raw x = tt_expected_amount_raw x' ->
    tt_late_payment_until x <= tt_created_at x' \/ tt_late_payment_until x' <= tt_created_at x;
}.

Lemma apart_kept clock clock' db db' :
  clock <= clock' -> attempts_kept (payment_attempts db) (payment_attempts db') ->
  (forall h row, amount_lease_history db' !! h = Some row ->
     amount_lease_history db !! h = Some row \/ ah_released_at row <= clock') ->
  apart clock db -> apart clock' db'.
Proof.
  intros Hle Hk Hh [A1 A2]. split.
  - intros h row Hr. destruct (Hh h row Hr) as [Hr'|?]; [|done]. specialize (A1 h row Hr'). lia.
  - intros a a' x x' Hx Hx' Hne Hc He. destruct (Hk a x Hx) as (y & Hy & (s & t & ->) & _),
      (Hk a' x' Hx') as (y' & Hy' & (s' & t' & ->) & _). by apply (A2 a a' y y').
Qed.

(** A new attempt comes after the windows of those that had its amount. *)
Lemma apart_quoted clock clock' db db' plan amount token lease_id :
  clock <= clock' -> plan_created_at plan = clock' -> orderly db -> fresh_quote plan amount lease_id db ->
  payment_attempts db' = <[plan_attempt_id plan := planned_attempt plan amount token]> (payment_attempts db) ->
  amount_lease_history db' = amount_lease_history db -> apart clock db -> apart clock' db'.
Proof.
  intros Hle Hnow Ho (_ & Ha & _ & _ & Hfree & _) E2 E6 A. pose proof (is_leased_false _ _ _ Hfree) as Hnew.
  assert (forall a x, payment_attempts db !! a = Some x ->
    tt_collector_address_id x = plan_collector_address_id plan -> tt_expected_amount_raw x = as_u256 amount ->
    tt_late_payment_until x <= clock') as Hpast.
  { intros a x Hx Hc He. destruct (ord_reserved _ Ho a x Hx) as [[l Hl]|(h & row & Hh & Hr)].
    - by destruct (Hnew l _ Hl).
    - destruct (ord_archived _ Ho h row Hh) as [_ Hu]. rewrite Hr in Hu. cbn in Hu.
      pose proof (apart_released _ _ A h row Hh). lia. }
  split; rewrite ?E2, ?E6.
  - intros h row Hh. pose proof (apart_released _ _ A h row Hh). lia.
  - intros a a' x x' Hx Hx' Hne Hc He.
    apply lookup_insert_Some in Hx as [[<- <-]|[_ Hx]]; apply lookup_insert_Some in Hx' as [[<- <-]|[_ Hx']]; [done| | |].
    + right. cbn in *. rewrite Hnow. by eapply Hpast.
    + left. cbn in *. rewrite Hnow. by eapply Hpast.
    + by apply (apart_windows _ _ A a a').
Qed.

Lemma order_step_apart clock clock' db db' :
  clock <= clock' -> order_step clock' db db' -> orderly db -> apart clock db -> apart clock' db'.
Proof.
  intros Hle Hs Ho A.
  destruct Hs as [(E1 & E2 & E3) (_ & _ & E6)
    |i a t row x paid now al v Hi Hp Ha Hai Hnone Hal E1 E2 E3 (_ & _ & E6)
    |i row Hnone Hst E1 E2 E3 (_ & _ & E6)
    |plan row amount token l v Hclock Hi Hst Hf E1 E2 E3 E4 E5 E6
    |i row now v Hi Hst _ E1 E2 E3 (_ & _ & E6)
    |limit due leases Hnd Hdue E1 E2 E3 E4 E5 (_ & Hold & _)].
  - apply (apart_kept clock _ db); [done|rewrite E2; apply attempts_kept_refl|rewrite E6; by left|done].
  - apply (apart_kept clock _ db); [done|rewrite E2; apply attempts_kept_insert; [done|by destruct paid]|rewrite E6; by left|done].
  - apply (apart_kept clock _ db); [done|rewrite E2; apply attempts_kept_refl|rewrite E6; by left|done].
  - by eapply apart_quoted.
  - apply (apart_kept clock _ db); [done|rewrite E2; apply close_attempts_kept|rewrite E6; by left|done].
  - apply (apart_kept clock _ db); [done|rewrite E2; apply expire_attempts_kept| |done].
    intros h r Hr. destruct (Hold h r Hr) as [?|(e & _ & ->)]; [by left|right]. cbn. lia.
Qed.

Section dated.
Context {R : Type} `{Postgres R} `{U256Lib} `{HashLib} `{UuidLib} `{TimeLib} `{TimeSerde} `{JsonLib} `{Base58Lib}.
Context (self : OperationsService).

Let threshold : Z := as_u256 (dual_control_min_raw (os_honor_policy self)).

(** A call with the reading of the clock a quote or a sweep was made at. *)
Inductive dated_call (clock : Z) : Session R -> Session R -> Prop :=
  | dated_quote plan actor route key hash s : plan_created_at plan = clock ->
      dated_call clock s (pg_issue_quote_idempotently plan actor route key hash s).2
  | dated_sweep limit s : dated_call clock s (pg_expire_quotes_and_archive_leases clock limit s).2
  | dated_create merchant actor key input s : dated_call clock s (create merchant actor key input s).2
  | dated_cancel merchant actor key intent reason s :
      dated_call clock s (cancel merchant actor key intent reason s).2
  | dated_gateway s s' : gateway_step self s s' -> dated_call clock s s'.

(** Calls one after another; the clock they read never goes back. *)
Inductive dated_run (clock0 : Z) (s0 : Session R) : Z -> Session R -> Prop :=
  | dated_start : dated_run clock0 s0 clock0 s0
  | dated_next clock clock' s s' :
      dated_run clock0 s0 clock s -> clock <= clock' -> dated_call clock' s s' -> dated_run clock0 s0 clock' s'.

Definition dated_state (clock : Z) (db : Database) : Prop :=
  governed threshold db /\ orderly db /\ apart clock db.

Lemma dated_state_step clock db db' :
  order_step clock db db' -> (governed threshold db -> governed threshold db') ->
  dated_state clock db -> dated_state clock db'.
Proof.
  intros Hs Hg (G & O & A). split_and!; [by apply Hg|by eapply order_step_orderly|].
  by eapply order_step_apart.
Qed.

Lemma dated_call_state clock s s' :
  dated_call clock s s' -> dated_state clock (committed s) -> dated_state clock (committed s').
Proof.
  intros Hc St. destruct Hc as [plan actor route key hash s Hnow|limit s|merchant actor key input s
    |merchant actor key intent reason s|s s' Hg].
  - eapply (transacts_holds _ (dated_state clock)); [apply pg_issue_transacts| |done].
    intros db r db' St' Hs. eapply dated_state_step; [rewrite <- Hnow; by eapply issue_order|by eapply issue_governed|done].
  - eapply (transacts_holds _ (dated_state clock)); [apply pg_expire_transacts| |done].
    intros db r db' St' Hs. eapply dated_state_step; [by eapply expire_order|by eapply expire_governed|done].
  - apply (create_keeps (dated_state clock)); [|done]. intros p route k hash db r db' Hst Hs.
    eapply dated_state_step; [by eapply create_order|by eapply create_governed].
  - apply (cancel_keeps (dated_state clock)); [|done]. intros m i route k hash db r db' Hs.
    eapply dated_state_step; [by eapply cancel_order|by eapply cancel_governed].
  - revert St. eapply gateway_step_keeps; [..|exact Hg].
    + intros lease command record db db' Hs St'. eapply dated_state_step; [|by eapply governed_settle|done].
      eapply settle_order; [|done]. by eapply gov_balanced, St'.
    + intros lease transfer db db' Hs. eapply dated_state_step; [by eapply unresolved_order|by eapply governed_unresolved].
    + intros credential k hash resolution t db result db' Hd Hs.
      eapply dated_state_step; [by eapply resolve_order|by eapply governed_resolve].
    + intros db db' Hs. eapply dated_state_step; [by eapply proposal_order|by eapply governed_proposal].
    + intros approver proposal_id k reason t db result db' Hs.
      eapply dated_state_step; [by eapply approve_order|by eapply governed_approve].
    + intros db db' Hs. eapply dated_state_step; [by eapply aside_order|by eapply governed_aside].
Qed.

Lemma dated_run_state clock0 s0 clock s :
  dated_run clock0 s0 clock s -> dated_state clock0 (committed s0) -> dated_state clock (committed s).
Proof.
  intros Hr St. induction Hr as [|clock clock' s s' _ IH Hle Hc]; [done|]. eapply dated_call_state; [done|].
  destruct (IH) as (G & O & A). split_and!; [done..|].
  apply (apart_kept clock _ (committed s)); [done|apply attempts_kept_refl|by left|done].
Qed.

(** A candidate is the reservation of its attempt, for the amount that came. *)
Lemma candidate_is_reserved transfer db r :
  orderly db -> tf_memo transfer = None -> r ∈ candidate_rows transfer db ->
  exists x, payment_attempts db !! ca_attempt_id r = Some x
    /\ tt_collector_address_id x = tf_collector_address_id transfer
    /\ tt_expected_amount_raw x = as_u256 (tf_amount_raw transfer)
    /\ ca_leased_from r = tt_created_at x /\ ca_leased_until r = tt_late_payment_until x.
Proof.
  intros Ho Hmemo Hin. unfold candidate_rows in Hin. rewrite Hmemo in Hin.
  assert (forall lease where_, is_reservation db lease -> candidate_row db lease where_ = Some r ->
    (forall x, where_ x = true -> al_collector_address_id lease = tf_collector_address_id transfer
       /\ al_amount_raw lease = as_u256 (tf_amount_raw transfer)) ->
    exists x, payment_attempts db !! ca_attempt_id r = Some x
      /\ tt_collector_address_id x = tf_collector_address_id transfer
      /\ tt_expected_amount_raw x = as_u256 (tf_amount_raw transfer)
      /\ ca_leased_from r = tt_created_at x /\ ca_leased_until r = tt_late_payment_until x) as Hrow.
  { intros lease where_ (x & Hx & Hl) Hc Hw. set (a := al_attempt_id lease) in *. clearbody a. subst lease.
    unfold candidate_row in Hc. cbn in Hc. rewrite Hx in Hc. cbn in Hc.
    destruct (where_ x) eqn:E; [|done]. injection Hc as <-. exists x. by destruct (Hw x E). }
  apply elem_of_app in Hin as [Hin|Hin]; apply list_elem_of_omap in Hin as ([k v] & Hkv & Hc);
    apply elem_of_map_to_list in Hkv.
  - eapply Hrow; [by eapply ord_leased|exact Hc|]. intros x Hw. rewrite orb_false_r in Hw. by bool_to_prop.
  - eapply Hrow; [by eapply ord_archived|exact Hc|]. intros x Hw. cbn in Hw. bool_to_prop. by split.
Qed.

(** C9: An exact amount names one order.  As long as the clock the services
    read does not go back, quotes, sweeps, cancellations, settlements and
    operator calls leave at most one attempt that reserved the amount of a
    transfer on its collector at the time of its block: of the candidates that
    settlement is offered for a transfer without a memo, two whose windows
    contain the block time are the same attempt. *)
Theorem exact_amount_names_one_attempt clock0 s0 clock s transfer r r' :
  dated_state clock0 (committed s0) -> dated_run clock0 s0 clock s -> tf_memo transfer = None ->
  r ∈ candidate_rows transfer (committed s) -> r' ∈ candidate_rows transfer (committed s) ->
  ca_leased_from r <= tf_block_time transfer < ca_leased_until r ->
  ca_leased_from r' <= tf_block_time transfer < ca_leased_until r' ->
  ca_attempt_id r = ca_attempt_id r'.
Proof.
  intros St Hrun Hmemo Hr Hr' Hw Hw'. destruct (dated_run_state _ _ _ _ Hrun St) as (_ & Ho & A).
  destruct (candidate_is_reserved _ _ _ Ho Hmemo Hr) as (x & Hx & Hc & He & Hf & Hu).
  destruct (candidate_is_reserved _ _ _ Ho Hmemo Hr') as (x' & Hx' & Hc' & He' & Hf' & Hu').
  destruct (decide (ca_attempt_id r = ca_attempt_id r')) as [|Hne]; [done|].
  destruct (apart_windows _ _ A _ _ x x' Hx Hx' Hne); [congruence..|lia|lia].
Qed.
End dated.

(** ** A shop with one collector *)

Import ReferenceInstances.
#[local] Existing Instance quiet_postgres.

Definition NANOS : Z := 1000000000.
Definition shop_sources : json :=
  JArray [JObject [("provider_group", JString "a")]; JObject [("provider_group", JString "b")]].
Definition shop_database : Database := {|
  merchants := {[1 := mkMerchantRow "active" "own"]}; merchant_api_keys := ∅; operator_api_keys := ∅;
  component_leases := ∅;
  chain_assets := {[1 := mkAssetRow "tron" "nile" "testnet" (repeat x01 20) "USDT" 6 "active"]};
  collector_addresses := {[7 := mkCollectorRow 1 (repeat x02 20) "TCollector" "active" 0 (Some 1)]};
  price_snapshots := {[1 := mkPriceSnapshotRow 1 "EUR" 20 1 shop_sources 0 None 2 0]}; price_readings := ∅;
  quote_policies := {[1 := mkQuotePolicyRow 1 "EUR" "v1" "active" 60 30 5 600 600 600 0 2 100]};
  rail_health_snapshots := {[1 := mkRailHealthRow 1 "healthy" 0 None None]}; rail_stops := ∅;
  chain_sources := ∅; chain_observations := ∅; chain_cursors := ∅; chain_finality_policies := ∅;
  chain_event_verdicts := ∅; chain_observation_conflicts := ∅; chain_observation_conflict_items := ∅;
  chain_transfers := ∅; chain_transfer_state_events := ∅; chain_transfer_state_current := ∅; chain_transfer_processing := ∅;
  chain_transfer_attestations := ∅; payment_intents := ∅; payment_quotes := ∅; payment_attempts := ∅;
  amount_leases := ∅; amount_lease_history := ∅; payment_settlement_policies := ∅;
  payment_settlement_policy_tiers := ∅; payment_risk_evaluations := ∅; operator_risk_provider_bindings := ∅;
  chain_transfer_intent_claims := ∅; payment_allocations := ∅; payment_settlement_decisions := ∅;
  payment_fulfillments := ∅; payment_events := ∅; domain_events := ∅; api_idempotency_records := ∅;
  audit_events := ∅; manual_resolution_requests := ∅; overpayment_remainder_dispositions := ∅;
  manual_honor_proposals := ∅; webhook_endpoints := ∅; webhook_deliveries := ∅;
  webhook_redeliveries := ∅;
  component_health := ∅; component_health_events := ∅; reconciliation_runs := ∅;
  reconciliation_discrepancies := ∅ |}.
Definition shop_session : Session Z := mkSession shop_database shop_database 0 1.
Definition order_of (reference : string) : CreatePaymentIntent :=
  mkCreatePaymentIntent "50" "EUR" reference None (JObject []).
Definition shop_plan (quote attempt intent now : Z) : QuotePlan := {|
  plan_quote_id := quote; plan_attempt_id := attempt; plan_merchant_id := 1; plan_payment_intent_id := intent;
  plan_asset_id := 1; plan_collector_address_id := 7; plan_collector_address := "TCollector";
  plan_price_snapshot_id := 1; plan_quote_policy_id := 1; plan_rail_health_snapshot_id := 1;
  plan_fiat_amount := mkFiatAmount (mkCurrencyCode "EUR") 50; plan_base_amount_raw := mkRawAmount 1000;
  plan_rate_numerator := mkRawAmount 20; plan_rate_denominator := mkRawAmount 1;
  plan_price_sources := shop_sources; plan_price_observed_at := 0; plan_policy_version := "v1";
  plan_policy_observed_at := 0; plan_max_price_age_seconds := 600; plan_max_policy_age_seconds := 600;
  plan_max_rail_health_age_seconds := 600; plan_rail_health_observed_at := 0; plan_amount_slot_count := 5;
  plan_created_at := now; plan_expires_at := now + 60 * NANOS; plan_late_payment_until := now + 90 * NANOS |}.
Definition created_session : Session Z := (create 1 10 "create-order-0001" (order_of "order-1") shop_session).2.
Definition opened_session : Session Z := (create 1 10 "create-order-0002" (order_of "order-2") created_session).2.
(** Both orders are quoted, the second after the window of the first, so both
    ask for the same amount. *)
Definition quoted_session : Session Z :=
  (pg_issue_quote_idempotently (shop_plan 101 201 1 100) 10 ISSUE_ROUTE "issue-order-00001"
     (quote_request_hash (mkIssueQuote 1 1)) opened_session).2.
Definition swept_session : Session Z := (pg_expire_quotes_and_archive_leases (200 * NANOS) 10 quoted_session).2.
Definition requoted_session : Session Z :=
  (pg_issue_quote_idempotently (shop_plan 102 202 3 (300 * NANOS)) 10 ISSUE_ROUTE "issue-order-00002"
     (quote_request_hash (mkIssueQuote 3 1)) swept_session).2.
Definition late_transfer : TransferFacts := {|
  tf_transfer_id := 1; tf_collector_address_id := 7; tf_amount_raw := mkRawAmount 1000;
  tf_memo := None; tf_block_time := 310 * NANOS; tf_state := Finalized |}.

Lemma shop_governed threshold : governed threshold shop_database.
Proof.
  split; [split|..];
    cbn [chain_transfer_processing chain_transfers chain_transfer_intent_claims payment_allocations
      payment_attempts payment_intents payment_fulfillments manual_resolution_requests shop_database];
    intros *; rewrite ?lookup_empty; try done.
  - split; [by intros [? [=]]|by intros (? & [=] & _)].
Qed.
Lemma shop_orderly : orderly shop_database.
Proof.
  split; cbn [payment_allocations amount_leases amount_lease_history payment_attempts shop_database];
    intros *; by rewrite ?lookup_empty.
Qed.
Lemma shop_apart clock : apart clock shop_database.
Proof. split; cbn [amount_lease_history payment_attempts shop_database]; intros *; by rewrite ?lookup_empty. Qed.

Lemma opened_state : shop_state OperationsService_new shop_database (committed opened_session).
Proof.
  apply (shop_run OperationsService_new shop_session opened_session); [apply shop_governed|apply shop_orderly|].
  apply (rtc_l _ _ created_session); [apply shop_create|]. apply rtc_once, shop_create.
Qed.

(** The first order is quoted and then cancelled. *)
Definition quote_service : QuoteService := {| max_open_leases_per_collector := None |}.
Definition issued_session : Session Z :=
  (issue quote_service 1 10 "issue-order-00001" (mkIssueQuote 1 1) opened_session).2.
Definition cancelled_session : Session Z := (cancel 1 10 "cancel-order-0001" 1 None issued_session).2.

Lemma cancelled_run : rtc (shop_step OperationsService_new) opened_session cancelled_session.
Proof. apply (rtc_l _ _ issued_session); [apply shop_issue|apply rtc_once, shop_cancel]. Qed.

Lemma orders_live_their_lifecycle_witness :
  balanced (committed cancelled_session)
  /\ exists row row', payment_intents (committed opened_session) !! 1 = Some row /\ ir_status row = "requires_quote"
       /\ payment_intents (committed cancelled_session) !! 1 = Some row' /\ ir_status row' = "cancelled"
       /\ same_intent row row' /\ rtc intent_move (ir_status row) (ir_status row').
Proof.
  destruct opened_state as (G & O & _).
  destruct (orders_live_their_lifecycle OperationsService_new opened_session cancelled_session G O cancelled_run)
    as (Hb & _ & Hall).
  split; [done|].
  destruct (payment_intents (committed opened_session) !! 1) as [row|] eqn:H1; [|vm_compute in H1; discriminate H1].
  destruct (Hall 1 row H1) as (row' & H2 & Hs & Hm & _). exists row, row'. split_and!; [done| |done| |done|done].
  - vm_compute in H1. injection H1 as <-. reflexivity.
  - vm_compute in H2. injection H2 as <-. reflexivity.
Defined.

Lemma quoted_run : dated_run OperationsService_new 0 shop_session 100 quoted_session.
Proof.
  apply (dated_next _ _ _ 0 100 opened_session); [|vm_compute; discriminate|by apply dated_quote].
  apply (dated_next _ _ _ 0 0 created_session); [|vm_compute; discriminate|apply dated_create].
  apply (dated_next _ _ _ 0 0 shop_session); [apply dated_start|vm_compute; discriminate|apply dated_create].
Qed.
Lemma requoted_run : dated_run OperationsService_new 0 shop_session (300 * NANOS) requoted_session.
Proof.
  apply (dated_next _ _ _ (200 * NANOS) (300 * NANOS) swept_session); [|vm_compute; discriminate|by apply dated_quote].
  apply (dated_next _ _ _ 100 (200 * NANOS) quoted_session); [apply quoted_run|vm_compute; discriminate|apply dated_sweep].
Qed.

(** The amount of the first order is given to the second after its window; a
    transfer of it then is for the second. *)
Lemma exact_amount_names_one_attempt_witness :
  exists r, candidate_rows late_transfer (committed requoted_session) = [r] /\ ca_attempt_id r = 202
    /\ ca_attempt_id r = ca_attempt_id r.
Proof.
  destruct (candidate_rows late_transfer (committed requoted_session)) as [|r [|]] eqn:Hr;
    [vm_compute in Hr; discriminate Hr| |vm_compute in Hr; discriminate Hr].
  assert (ca_attempt_id r = 202 /\ ca_leased_from r = 300 * NANOS /\ ca_leased_until r = 390 * NANOS) as (Ha & Hf & Hu)
    by (vm_compute in Hr; injection Hr as <-; by split_and!).
  assert (dated_state OperationsService_new 0 (committed shop_session)) as Hstart.
  { split; [apply shop_governed|split; [apply shop_orderly|apply shop_apart]]. }
  assert (r ∈ candidate_rows late_transfer (committed requoted_session)) as Hin by (rewrite Hr; left).
  assert (ca_leased_from r <= tf_block_time late_transfer < ca_leased_until r) as Hw
    by (rewrite Hf, Hu; vm_compute; by split).
  exists r. split; [exact eq_refl|]. split; [exact Ha|].
  exact (exact_amount_names_one_attempt OperationsService_new 0 shop_session (300 * NANOS) requoted_session
    late_transfer r r Hstart requoted_run eq_refl Hin Hin Hw Hw).
Defined.
