(* ===== verification/MerchantReplay.v ===== *)
(** * Requests under their keys

    A request that is repeated with its idempotency key answers with what the
    first one made and changes nothing, whatever happened in between; what a
    new quote reserves; what a sweep expires and archives. *)

From Stdlib Require Import Ascii String Strings.Byte.
From stdpp Require Import gmap.
From S2P Require Import Prelude RustStd Externals Effects Money Chain PaymentIntent Quote Observations.
From S2P Require Import Settlement SettlementService Database StorageSettlement SettlementBooks.
From S2P Require Import Operations StorageOperations OperationsBooks TronAddress Merchant StorageMerchant MerchantBooks.

Local Open Scope Z_scope.

(** ** A call as a step of the committed state *)

Section steps.
Context {R : Type} `{Postgres R}.

(** A call that returns made the step; one that fails made none, or made one
    and lost the news. *)
Definition steps {E A} (T : Database -> A -> Database -> Prop) (m : eff (Session R) E A) : Prop :=
  forall s, match (m s).1 with
            | Ok a => T (committed s) a (committed (m s).2)
            | Err _ => committed (m s).2 = committed s \/ exists a, T (committed s) a (committed (m s).2)
            end.

Lemma steps_transacts {E A} T (m : eff (Session R) E A) : transacts T m -> steps T m.
Proof. intros Hm s. exact (Hm _ _ _ s eq_refl eq_refl eq_refl). Qed.

Lemma steps_map_err {E F A} (f : E -> F) T (m : eff (Session R) E A) : steps T m -> steps T (eff_map_err f m).
Proof. intros Hm s. specialize (Hm s). unfold eff_map_err. by destruct (m s) as [[a|e] s1]. Qed.

(** A call that reads, and one whose answer is turned into another. *)
Lemma steps_bind_quiet {E A B} (P : A -> Prop) T (m : eff (Session R) E A) (k : A -> eff (Session R) E B) :
  (forall db0 : Database, holds (fun s : Session R => committed s = db0) m P) ->
  (forall a, P a -> steps T (k a)) -> steps T (mbind k m).
Proof.
  intros Hm Hk s. destruct (Hm (committed s) s eq_refl) as [Hc HP]. unfold mbind, eff_bind.
  destruct (m s) as [[a|e] s1]; simpl in *; [|by left]. rewrite <- Hc. by apply Hk, HP.
Qed.

Lemma steps_bind_answer {E A B} (T : Database -> A -> Database -> Prop) (T' : Database -> B -> Database -> Prop)
    (m : eff (Session R) E A) (r : A -> result E B) k :
  steps T m -> (forall a s, k a s = (r a, s)) ->
  (forall db a db', T db a db' ->
     match r a with Ok b => T' db b db' | Err _ => db' = db \/ exists b, T' db b db' end) ->
  steps T' (mbind k m).
Proof.
  intros Hm Hk HT s. specialize (Hm s). unfold mbind, eff_bind. destruct (m s) as [[a|e] s1]; simpl in *.
  - rewrite Hk. simpl. by apply HT in Hm.
  - destruct Hm as [?|[a Ha]]; [by left|]. apply HT in Ha. destruct (r a) as [b|]; [right; by exists b|done].
Qed.

Lemma quiet_lift {E A} (r : result E A) (db0 : Database) :
  holds (fun s : Session R => committed s = db0) (lift r) (fun a => r = Ok a).
Proof. apply holds_lift. Qed.
Lemma quiet_clock {E} (db0 : Database) :
  holds (fun s : Session R => committed s = db0) (read_clock (E := E)) (fun _ => True).
Proof. intros s Hs. unfold read_clock, clock_now, system_clock. cbn. by destruct (now_utc _). Qed.
Lemma quiet_uuid {E} (db0 : Database) :
  holds (fun s : Session R => committed s = db0) (draw_uuid (E := E)) (fun _ => True).
Proof. intros s Hs. unfold draw_uuid, source_uuid, session_uuid. cbn. by destruct (now_v7 _). Qed.
End steps.

(** Takes a service call apart up to the repository. *)
Ltac quiet :=
  match goal with
  | |- steps _ (mbind _ (lift _)) => eapply steps_bind_quiet; [apply quiet_lift|]
  | |- steps _ (mbind _ read_clock) => eapply steps_bind_quiet; [apply quiet_clock|]; intros ? _
  | |- steps _ (mbind _ draw_uuid) => eapply steps_bind_quiet; [apply quiet_uuid|]; intros ? _
  end.

(** ** Orders *)

(** The order a row shows, apart from its state. *)
Definition shows (id : Z) (row : IntentRow) (p : PaymentIntent) : Prop :=
  pi_id p = id /\ pi_merchant_id p = ir_merchant_id row /\ minor_units (pi_amount p) = ir_amount_minor row
  /\ CurrencyCode_as_str (fiat_currency (pi_amount p)) = to_ascii_uppercase (ir_currency row)
  /\ pi_reference p = ir_reference row /\ pi_description p = ir_description row
  /\ pi_metadata p = ir_metadata row /\ pi_created_at p = ir_created_at row.

(** The same order, perhaps in another state. *)
Definition same_order (p p' : PaymentIntent) : Prop :=
  pi_id p' = pi_id p /\ pi_merchant_id p' = pi_merchant_id p /\ pi_amount p' = pi_amount p
  /\ pi_reference p' = pi_reference p /\ pi_description p' = pi_description p
  /\ pi_metadata p' = pi_metadata p /\ pi_created_at p' = pi_created_at p.

Lemma shows_same_order id row row' p p' :
  shows id row p -> same_intent row row' -> shows id row' p' -> same_order p p'.
Proof.
  intros (A1 & A2 & A3 & A4 & A5 & A6 & A7 & A8) (s & v & t & ->) (B1 & B2 & B3 & B4 & B5 & B6 & B7 & B8).
  cbn -[to_ascii_uppercase] in *.
  assert (pi_amount p' = pi_amount p).
  { destruct (pi_amount p) as [[c] u], (pi_amount p') as [[c'] u']. cbn -[to_ascii_uppercase] in *. congruence. }
  unfold same_order. split_and!; congruence.
Qed.

Lemma try_from_shows id row p : PaymentIntent_try_from (id, row) = Ok p -> shows id row p.
Proof.
  unfold PaymentIntent_try_from. intros (c & Hc%map_err_Ok & Hp)%res_bind_Ok.
  apply res_bind_Ok in Hp as (amount & Ha%map_err_Ok & Hp). apply res_bind_Ok in Hp as (status & _ & Hp).
  apply res_bind_Ok in Hp as (? & _ & Hp). injection Hp as <-. apply CurrencyCode_new_Ok in Hc as (Hc & _).
  unfold FiatAmount_positive in Ha. destruct (_ <=? 0); [done|]. injection Ha as <-. unfold shows. cbn. by split_and!.
Qed.

Section orders.
Context {R : Type} `{Postgres R} `{U256Lib} `{HashLib} `{UuidLib} `{TimeLib} `{TimeSerde} `{JsonLib} `{Base58Lib}.
Context (self : OperationsService).

Let threshold : Z := as_u256 (dual_control_min_raw (os_honor_policy self)).

Definition create_answer (stored : IdempotentCreate) : CreatePaymentIntentResult :=
  match stored with
  | Created p => {| cp_intent := p; cp_replayed := false |}
  | Replayed p => {| cp_intent := p; cp_replayed := true |}
  end.

(** What a creation did. *)
Definition created_step (m : Z) (key : string) (input : CreatePaymentIntent) (db : Database)
    (result : CreatePaymentIntentResult) (db' : Database) : Prop :=
  exists intent stored, pi_merchant_id intent = m
    /\ to_ascii_uppercase (CurrencyCode_as_str (fiat_currency (pi_amount intent)))
       = CurrencyCode_as_str (fiat_currency (pi_amount intent))
    /\ create_step intent CREATE_ROUTE key (create_request_hash input) db stored db'
    /\ result = create_answer stored.

Lemma create_steps m actor key input : steps (R := R) (created_step m key input) (create m actor key input).
Proof.
  unfold create. quiet. intros _ _. quiet. intros currency Hcur%map_err_Ok. quiet. intros amount Ham%map_err_Ok.
  do 2 quiet. quiet. intros intent Hint%map_err_Ok.
  eapply (steps_bind_answer _ _ _ (fun stored => Ok (create_answer stored)));
    [apply steps_map_err, steps_transacts, pg_create_transacts|by intros [p|p] s|].
  intros db stored db' Hs. exists intent, stored.
  pose proof (payment_intent_create_spec a0 m amount (ci_reference input) (ci_description input) (ci_metadata input) a)
    as Hspec. rewrite Hint in Hspec. destruct Hspec as (_ & _ & Hpa & Hpm & _).
  split_and!; [done| |done|done]. rewrite Hpa.
  assert (fiat_currency amount = currency) as ->.
  { unfold FiatAmount_parse_positive, FiatAmount_positive in Ham. case_match; [done|].
    apply res_bind_Ok in Ham as (u & _ & Hu). case_match; [done|]. by injection Hu as <-. }
  apply CurrencyCode_new_Ok in Hcur as (-> & _). apply to_ascii_uppercase_idem.
Qed.

(** A key spent on a request, and the order it made. *)
Definition keeps_order (m : Z) (key : string) (hash : list byte) (db : Database) (p : PaymentIntent) : Prop :=
  spent m CREATE_ROUTE key hash db (pi_id p)
  /\ exists row, payment_intents db !! pi_id p = Some row /\ ir_merchant_id row = m /\ shows (pi_id p) row p.

Lemma created_keeps_order m key input db result db' :
  created_step m key input db result db' ->
  keeps_order m key (create_request_hash input) db' (cp_intent result).
Proof.
  intros (intent & stored & <- & Hup & Hs & ->). destruct Hs as [(-> & Hnone & Hid & _ & record & Hh & Hr & [trail ->])
    |(p & -> & (resource & [i row] & Hsp & Hrow & Hp) & ->)]; cbn.
  - split; [exists record; cbn; by rewrite lookup_insert_eq|]. exists (MerchantBooks.stored intent). cbn.
    rewrite lookup_insert_eq. by split_and!.
  - apply intent_row_Some in Hrow as (row' & [= -> <-] & Hrow & Hm). apply try_from_shows in Hp.
    pose proof Hp as (Hid & _). unfold keeps_order. rewrite Hid. split; [done|]. by exists row.
Qed.

Lemma spent_carried m route key hash db db' resource :
  keys_kept db db' -> spent m route key hash db resource -> spent m route key hash db' resource.
Proof. intros Hk (row & Hrow & Hh). exists row. split; [|done]. by eapply lookup_weaken. Qed.

(** Later, the key answers with the order it made and nothing is written. *)
Lemma created_again m key hash input db result db' p :
  keeps_order m key hash db p -> created_step m key input db result db' ->
  db' = db /\ create_request_hash input = hash /\ cp_replayed result = true
  /\ exists row, payment_intents db !! pi_id p = Some row /\ shows (pi_id p) row (cp_intent result).
Proof.
  intros ((record & Hrec & Hh & Hr) & _) (intent & stored & <- & _ & Hs & ->).
  destruct Hs as [(_ & Hnone & _)|(p' & -> & (resource & [i row] & (record' & Hrec' & Hh' & Hr') & Hrow & Hp) & ->)];
    [congruence|]. rewrite Hrec in Hrec'. injection Hrec' as <-. cbn.
  apply intent_row_Some in Hrow as (row' & [= -> <-] & Hrow & _). apply try_from_shows in Hp.
  assert (resource = pi_id p) as -> by congruence. split_and!; [done|congruence|done|by exists row].
Qed.

(** A key creates one order.  After an order was created, or answered for,
    under an idempotency key, no further request of the merchant with that key
    writes anything, whatever other calls came in between and however the
    request ends; one that is answered is the same request, is marked as a
    replay, and shows the same order (identifier, amount, reference,
    description, metadata). *)
Theorem create_is_idempotent m actor key input s result s1 s2 actor' input' r s3 :
  governed threshold (committed s1) -> orderly (committed s1) ->
  create m actor key input s = (Ok result, s1) -> rtc (shop_step self) s1 s2 ->
  create m actor' key input' s2 = (r, s3) ->
  committed s3 = committed s2
  /\ forall result', r = Ok result' ->
     create_request_hash input' = create_request_hash input /\ cp_replayed result' = true
     /\ same_order (cp_intent result) (cp_intent result').
Proof.
  intros G O Hc1 Hrun Hc2. pose proof (create_steps m actor key input s) as S1. rewrite Hc1 in S1. cbn in S1.
  apply created_keeps_order in S1 as (Hsp & row & Hrow & Hm & Hsh).
  destruct (shop_run self _ _ G O Hrun) as (_ & _ & C & K). apply (spent_carried _ _ _ _ _ _ _ K) in Hsp.
  destruct (car_intent _ _ C _ _ Hrow) as (row2 & Hrow2 & Hsame & _).
  assert (keeps_order m key (create_request_hash input) (committed s2) (cp_intent result)) as Hkeep.
  { split; [done|]. exists row2. split; [done|]. destruct Hsame as (st & v & t & ->). by split. }
  pose proof (create_steps m actor' key input' s2) as S2. rewrite Hc2 in S2. cbn in S2.
  destruct r as [result'|e].
  - destruct (created_again _ _ _ _ _ _ _ _ Hkeep S2) as (-> & Hh & Hrep & row' & Hrow' & Hsh').
    split; [done|]. intros ? [= <-]. split_and!; [done..|]. rewrite Hrow2 in Hrow'. injection Hrow' as <-.
    by eapply shows_same_order.
  - split; [|done]. destruct S2 as [?|[x S2]]; [done|]. by apply (created_again _ _ _ _ _ _ _ _ Hkeep S2).
Qed.
End orders.

(** ** Quotes *)

(** The quote a row shows: everything but the address text and the asset, which
    are looked up anew. *)
Definition quote_terms (row : IssuedQuoteRow)
    : (Z * Z * Z * Z * Z) * (Z * Z * Z) * (string * Z * string * string * string)
      * (json * Z * string * Z) * (Z * Z * Z * string) :=
  ((qw_id row, qw_attempt_id row, qw_payment_intent_id row, qw_asset_id row, qw_collector_address_id row),
   (qw_price_snapshot_id row, qw_quote_policy_id row, qw_rail_health_snapshot_id row),
   (qw_fiat_currency row, qw_fiat_amount_minor row, qw_amount_raw row, qw_rate_numerator row, qw_rate_denominator row),
   (qw_price_sources row, qw_price_observed_at row, qw_policy_version row, qw_rail_health_observed_at row),
   (qw_created_at row, qw_expires_at row, qw_late_payment_until row, qw_checkout_token row)).

(** The same quote, its address and its asset as they are configured now. *)
Definition same_quote (q q' : IssuedQuote) : Prop :=
  iq_id q' = iq_id q /\ iq_attempt_id q' = iq_attempt_id q /\ iq_payment_intent_id q' = iq_payment_intent_id q
  /\ iq_asset_id q' = iq_asset_id q /\ iq_collector_address_id q' = iq_collector_address_id q
  /\ iq_fiat_amount q' = iq_fiat_amount q /\ iq_amount_raw q' = iq_amount_raw q
  /\ iq_rate_numerator q' = iq_rate_numerator q /\ iq_rate_denominator q' = iq_rate_denominator q
  /\ iq_price_snapshot_id q' = iq_price_snapshot_id q /\ iq_policy_version q' = iq_policy_version q
  /\ iq_created_at q' = iq_created_at q /\ iq_expires_at q' = iq_expires_at q
  /\ iq_late_payment_until q' = iq_late_payment_until q /\ iq_checkout_token q' = iq_checkout_token q.

Section quotes.
Context {R : Type} `{Postgres R} `{U256Lib} `{HashLib} `{UuidLib} `{TimeLib} `{TimeSerde} `{JsonLib} `{Base58Lib}.
Lemma quote_terms_same row row' q q' :
  quote_terms row' = quote_terms row -> IssuedQuote_try_from row = Ok q -> IssuedQuote_try_from row' = Ok q' ->
  same_quote q q'.
Proof.
  intros [=] Hq Hq'. unfold IssuedQuote_try_from in Hq, Hq'.
  repeat match goal with
  | H : mbind _ _ = Ok _ |- _ => let a := fresh "a" in let Ha := fresh "Ha" in apply res_bind_Ok in H as (a & Ha & H)
  end.
  injection Hq as <-. injection Hq' as <-. unfold same_quote. cbn. split_and!; congruence.
Qed.

(** The row of a quote is made of the stored quote and its attempt. *)
Lemma quote_row_parts m id db row :
  quote_row m id db = Some row -> exists quote a attempt,
    payment_quotes db !! id = Some quote /\ qr_merchant_id quote = m
    /\ payment_attempts db !! a = Some attempt /\ tt_quote_id attempt = id
    /\ quote_terms row = ((id, a, qr_payment_intent_id quote, qr_asset_id quote, qr_collector_address_id quote),
         (qr_price_snapshot_id quote, qr_quote_policy_id quote, qr_rail_health_snapshot_id quote),
         (qr_fiat_currency quote, qr_fiat_amount_minor quote, numeric_text (qr_amount_raw quote),
          numeric_text (qr_rate_numerator quote), numeric_text (qr_rate_denominator quote)),
         (qr_price_sources quote, qr_price_observed_at quote, qr_policy_version quote,
          qr_rail_health_observed_at quote),
         (qr_created_at quote, qr_expires_at quote, qr_late_payment_until quote, tt_checkout_token attempt)).
Proof.
  unfold quote_row. destruct (payment_quotes db !! id) as [quote|] eqn:Hq; cbn; [|done].
  destruct (find_where _ _) as [[a attempt]|] eqn:Ha; cbn; [|done].
  destruct (collector_addresses db !! _) as [c|]; cbn; [|done]. destruct (chain_assets db !! _) as [asset|]; cbn; [|done].
  destruct (qr_merchant_id quote =? m) eqn:Hm; [|done]. intros [= <-]. apply find_where_Some in Ha as [Ha He].
  exists quote, a, attempt. split_and!; [done|lia|done|lia|done].
Qed.

(** A key spent on a quote, and the quote it stands for. *)
Definition keeps_quote (m : Z) (key : string) (hash : list byte) (db : Database) (q : IssuedQuote) : Prop :=
  exists resource row, spent m ISSUE_ROUTE key hash db resource
    /\ quote_row m resource db = Some row /\ IssuedQuote_try_from row = Ok q.

Lemma issue_step_keeps_quote plan key hash db result db' :
  issue_step plan ISSUE_ROUTE key hash db result db' ->
  keeps_quote (plan_merchant_id plan) key hash db' (match result with Issued q | QuoteReplayed q => q end).
Proof.
  intros [(q & resource & row & -> & Hs & Hr & Hq & ->)
    |(q & row & intent & amount & token & l & record & v & -> & _ & _ & _ & _ & Hh & Hres & [trail ->] & Hr & Hq)].
  - by exists resource, row.
  - exists (plan_quote_id plan), row. split_and!; [|done..]. exists record. by cbn; rewrite lookup_insert_eq.
Qed.

(** The quote of a key stays the quote of the key. *)
Lemma keeps_quote_again m key hash hash' db db' q q' :
  keeps_quote m key hash db q -> carried db db' -> keys_kept db db' -> orderly db' ->
  keeps_quote m key hash' db' q' -> hash' = hash /\ same_quote q q'.
Proof.
  intros (id & row & Hsp & Hr & Hq) C K O (id' & row' & (rec' & Hrec' & Hh' & Hid') & Hr' & Hq').
  apply (spent_carried _ _ _ _ _ _ _ K) in Hsp as (rec & Hrec & Hh & Hid).
  rewrite Hrec in Hrec'. injection Hrec' as <-. split; [congruence|]. assert (id' = id) as -> by congruence.
  apply quote_row_parts in Hr as (quote & a & x & Hquote & _ & Hx & Hxq & Hterms).
  apply quote_row_parts in Hr' as (quote' & a' & x' & Hquote' & _ & Hx' & Hxq' & Hterms').
  assert (quote' = quote) as ->
    by (pose proof (lookup_weaken _ _ _ _ Hquote (car_quotes _ _ C)); congruence).
  destruct (car_attempt _ _ C a x Hx) as (x2 & Hx2 & (st & t & ->)).
  assert (a' = a) as -> by (eapply (ord_quoted _ O); [done..|]; cbn; congruence).
  rewrite Hx2 in Hx'. injection Hx' as <-. eapply quote_terms_same; [|done..]. by rewrite Hterms, Hterms'.
Qed.

Lemma try_addresses_keeps_quote m actor key input hash intent context candidates refusal s result s' :
  try_addresses (W := Session R) m actor key input hash intent context candidates refusal s = (Ok result, s') ->
  keeps_quote m key hash (committed s') (ir_quote result).
Proof.
  revert refusal s. induction candidates as [|c rest IH]; intros refusal s; cbn [try_addresses]; [by intros [? ?]%lift_Ok|].
  intros (plan & s1 & Hplan & Hk)%eff_bind_Ok. apply eff_bind_Ok in Hk as (outcome & s2 & Ho & Hk).
  apply (proj1 (attempt_Ok (F := QuoteServiceError) _ _ _ _)) in Ho.
  assert (plan_merchant_id plan = m) as <-.
  { unfold plan_for in Hplan. do 3 apply eff_bind_Ok in Hplan as (? & ? & _ & Hplan).
    apply lift_Ok in Hplan as [Hb%map_err_Ok _]. by apply build_identity in Hb as (_ & _ & ? & _). }
  pose proof (steps_transacts _ _ (pg_issue_transacts plan actor ISSUE_ROUTE key hash) s1) as Hstep.
  cbn in Ho. rewrite Ho in Hstep. cbn in Hstep. destruct outcome as [[q|q]|e].
  - apply mret_Ok in Hk as [-> ->]. apply (issue_step_keeps_quote _ _ _ _ _ _ Hstep).
  - apply mret_Ok in Hk as [-> ->]. apply (issue_step_keeps_quote _ _ _ _ _ _ Hstep).
  - destruct (is_spillover e); [by apply IH in Hk|by apply lift_Ok in Hk as [? ?]].
Qed.

Lemma issue_keeps_quote service m actor key input s result s' :
  issue (W := Session R) service m actor key input s = (Ok result, s') ->
  keeps_quote m key (quote_request_hash input) (committed s') (ir_quote result).
Proof.
  unfold issue. intros ([] & s1 & _ & Hk)%eff_bind_Ok.
  apply eff_bind_Ok in Hk as (replay & s2 & Hr%eff_map_err_Ok & Hk).
  pose proof (steps_transacts _ _ (find_quote_replay_transacts m ISSUE_ROUTE key (quote_request_hash input)) s1) as Hstep.
  cbn in Hr. rewrite Hr in Hstep. cbn in Hstep. destruct replay as [q|].
  - destruct Hstep as [Hc (resource & row & Hsp & Hrow & Hq)]. apply mret_Ok in Hk as [-> ->]. cbn. rewrite Hc.
    by exists resource, row.
  - do 3 apply eff_bind_Ok in Hk as (? & ? & _ & Hk). destruct (qc_rail_stop_reason _); [by apply lift_Ok in Hk as [? ?]|].
    destruct (admitted service _) as [|c l]; [by apply lift_Ok in Hk as [? ?]|]. by eapply try_addresses_keeps_quote.
Qed.

(** A spent key ends in the replay: nothing is planned and nothing written. *)
Lemma issue_spent service m actor key input hash resource s r s' :
  spent m ISSUE_ROUTE key hash (committed s) resource ->
  issue (W := Session R) service m actor key input s = (r, s') ->
  committed s' = committed s
  /\ forall result, r = Ok result -> ir_replayed result = true
     /\ keeps_quote m key (quote_request_hash input) (committed s') (ir_quote result).
Proof.
  intros (rec & Hrec & _) Hi. unfold issue in Hi.
  destruct (lift (W := Session R) (quote_key key) s) as [[[]|e] s0] eqn:Hkey.
  2: { apply lift_Err in Hkey as [Hkey ->]. unfold mbind, eff_bind, lift in Hi. rewrite Hkey in Hi.
       injection Hi as <- <-. done. }
  apply lift_Ok in Hkey as [Hkey ->]. unfold mbind at 1, eff_bind at 1, lift at 1 in Hi. rewrite Hkey in Hi.
  pose proof (steps_transacts _ _ (find_quote_replay_transacts m ISSUE_ROUTE key (quote_request_hash input)) s) as Hstep.
  unfold mbind at 1, eff_bind at 1, eff_map_err at 1 in Hi. cbn [find_quote_replay postgres_quotes] in Hi.
  destruct (pg_find_quote_replay _ _ _ _ s) as [[[q|]|e] s1]; cbn in Hstep, Hi.
  - injection Hi as <- <-. destruct Hstep as [Hc (resource' & row & Hsp & Hrow & Hq)]. split; [done|].
    intros ? [= <-]. split; [done|]. rewrite Hc. by exists resource', row.
  - destruct Hstep as [_ Hnone]. congruence.
  - injection Hi as <- <-. split; [|done]. by destruct Hstep as [?|(? & ? & _)].
Qed.

Context (self : OperationsService).

Let threshold : Z := as_u256 (dual_control_min_raw (os_honor_policy self)).

(** The two identifiers of a request, and the text its hash is taken of. *)
Definition IssueQuote_wf (input : IssueQuote) : Prop :=
  is_uuid (is_payment_intent_id input) /\ is_uuid (is_asset_id input).
Definition quote_request_text (input : IssueQuote) : list byte :=
  be_bytes 16 (is_payment_intent_id input) ++ be_bytes 16 (is_asset_id input).

Lemma quote_request_hash_inj input input' :
  IssueQuote_wf input -> IssueQuote_wf input' -> quote_request_hash input' = quote_request_hash input ->
  input' = input \/ collision sha256 (quote_request_text input') (quote_request_text input).
Proof.
  intros [Hi Ha] [Hi' Ha'] E.
  destruct (decide (quote_request_text input' = quote_request_text input)) as [Et|Hne]; [left|by right].
  apply app_inj_1 in Et as [E1 E2]; [|by rewrite !be_bytes_length].
  apply (be_bytes_inj 16) in E1; [|assumption..]. apply (be_bytes_inj 16) in E2; [|assumption..].
  destruct input, input'. cbn in *. by subst.
Qed.

(** C14: A key buys one quote.  After a quote was issued, or answered for, under
    an idempotency key, no further request of the merchant with that key
    writes anything, whatever other calls came in between and however the
    request ends: no second amount is reserved.  One that is answered is for
    the same order and asset, unless the two requests are a SHA-256 collision;
    it is marked as a replay, and shows the same quote: identifier, attempt,
    collector, exact amount, rate, windows and checkout token. *)
Theorem issue_is_idempotent service m actor key input s result s1 s2 service' actor' input' r s3 :
  governed threshold (committed s1) -> orderly (committed s1) -> IssueQuote_wf input -> IssueQuote_wf input' ->
  issue service m actor key input s = (Ok result, s1) -> rtc (shop_step self) s1 s2 ->
  issue service' m actor' key input' s2 = (r, s3) ->
  committed s3 = committed s2
  /\ forall result', r = Ok result' ->
     (input' = input \/ collision sha256 (quote_request_text input') (quote_request_text input))
     /\ ir_replayed result' = true /\ same_quote (ir_quote result) (ir_quote result').
Proof.
  intros G O Hw Hw' Hi1 Hrun Hi2. apply issue_keeps_quote in Hi1.
  destruct (shop_run self _ _ G O Hrun) as (_ & O2 & C & K).
  destruct Hi1 as (id & row & Hsp & Hq).
  destruct (issue_spent _ _ _ _ _ _ _ _ _ _ (spent_carried _ _ _ _ _ _ _ K Hsp) Hi2) as [Hc Hres].
  split; [done|]. intros result' E. destruct (Hres result' E) as [Hrep Hkeep]. rewrite Hc in Hkeep.
  destruct (keeps_quote_again _ _ (quote_request_hash input) _ _ _ (ir_quote result) _
    (ex_intro _ id (ex_intro _ row (conj Hsp Hq))) C K O2 Hkeep) as [Hh Hs].
  split_and!; [by apply quote_request_hash_inj|done..].
Qed.
End quotes.

(** ** A new quote *)

Section offers.
Context {R : Type} `{Postgres R} `{U256Lib} `{HashLib} `{UuidLib} `{TimeLib} `{TimeSerde} `{JsonLib} `{Base58Lib}.

(** The slot taken is the first free one. *)
Lemma find_first {A} (p : A -> bool) l x :
  List.find p l = Some x -> exists l1 l2, l = l1 ++ x :: l2 /\ p x = true /\ Forall (fun y => p y = false) l1.
Proof.
  induction l as [|y l IH]; [done|]. cbn. destruct (p y) eqn:Hy.
  - intros [= <-]. by exists [], l.
  - intros (l1 & l2 & -> & Hx & Hl)%IH. exists (y :: l1), l2. split_and!; [done..|]. by constructor.
Qed.

Lemma free_slot_first c base slots db slot :
  free_slot c base slots db = Some slot ->
  0 <= slot < slots /\ is_leased c (base + slot) db = false
  /\ forall k, 0 <= k < slot -> is_leased c (base + k) db = true.
Proof.
  intros (l1 & l2 & Hl & Hf & Hall)%find_first. apply negb_true_iff in Hf.
  assert (slot = Z.of_nat (length l1) /\ (length l1 < Z.to_nat slots)%nat) as [-> Hlt].
  { assert ((l1 ++ slot :: l2) !! length l1 = Some slot) as Hx by (by rewrite list_lookup_middle).
    change (map Z.of_nat) with (fmap (M := list) Z.of_nat) in Hl. rewrite <- Hl, list_lookup_fmap in Hx.
    destruct (seq 0 (Z.to_nat slots) !! length l1) as [n|] eqn:Hn; [|done]. injection Hx as <-.
    apply lookup_seq in Hn. lia. }
  split_and!; [lia|lia|done|]. intros k Hk. rewrite Forall_forall in Hall.
  apply negb_false_iff, Hall. assert (map Z.of_nat (seq 0 (Z.to_nat slots)) !! Z.to_nat k = Some k) as Hx.
  { change (map Z.of_nat) with (fmap (M := list) Z.of_nat). rewrite list_lookup_fmap, lookup_seq_lt by lia. cbn.
    f_equal. lia. }
  rewrite Hl, lookup_app_l in Hx by lia. by eapply list_elem_of_lookup_2.
Qed.

Lemma add_slot base slot amount :
  RawAmount_wf base -> 0 <= slot <= I32_MAX -> RawAmount_checked_add_u32 base slot = Ok amount ->
  as_u256 amount = as_u256 base + slot.
Proof.
  intros Hb Hs Ha. unfold RawAmount_checked_add_u32 in Ha. rewrite u256_checked_add_law in Ha.
  - destruct (checked _ _ _) as [v|] eqn:Hv; [|done]. apply checked_Some in Hv as [-> _]. by injection Ha as <-.
  - done.
  - unfold is_u256, U256_MAX, I32_MAX in *. lia.
Qed.

Lemma quoted_amount row q : IssuedQuote_try_from row = Ok q ->
  iq_id q = qw_id row /\ iq_attempt_id q = qw_attempt_id row /\ iq_payment_intent_id q = qw_payment_intent_id row
  /\ iq_expires_at q = qw_expires_at row /\ iq_late_payment_until q = qw_late_payment_until row
  /\ RawAmount_from_str (qw_amount_raw row) = Ok (iq_amount_raw q).
Proof.
  intros Hq. unfold IssuedQuote_try_from in Hq.
  repeat (let a := fresh "a" in let Ha := fresh "Ha" in apply res_bind_Ok in Hq as (a & Ha & Hq)).
  injection Hq as <-. cbn. split_and!; try done. by apply map_err_Ok in Ha1.
Qed.

(** A new quote takes the smallest free amount.  It asks for the base amount
    plus the first slot that is not reserved on the collector, always within
    the policy's number of slots; the amount shown is the amount stored with
    the quote, expected of its attempt and reserved on the collector until the
    end of the late-payment window, and the order waits for it. *)
Theorem new_quote_takes_smallest_free_amount plan actor route key hash s q s' :
  RawAmount_wf (plan_base_amount_raw plan) ->
  pg_issue_quote_idempotently (R := R) plan actor route key hash s = (Ok (Issued q), s') ->
  let c := plan_collector_address_id plan in
  let base := as_u256 (plan_base_amount_raw plan) in
  exists slot token lease_id intent version,
    0 <= slot < plan_amount_slot_count plan /\ as_u256 (iq_amount_raw q) = base + slot
    /\ is_leased c (base + slot) (committed s) = false
    /\ (forall k, 0 <= k < slot -> is_leased c (base + k) (committed s) = true)
    /\ quotable plan intent (committed s)
    /\ payment_quotes (committed s') =
         <[plan_quote_id plan := planned_quote plan (iq_amount_raw q)]> (payment_quotes (committed s))
    /\ payment_attempts (committed s') =
         <[plan_attempt_id plan := planned_attempt plan (iq_amount_raw q) token]> (payment_attempts (committed s))
    /\ amount_leases (committed s') =
         <[lease_id := planned_lease plan (iq_amount_raw q)]> (amount_leases (committed s))
    /\ payment_intents (committed s') = <[plan_payment_intent_id plan :=
         intent_with "awaiting_payment" version (plan_created_at plan) intent]> (payment_intents (committed s))
    /\ iq_id q = plan_quote_id plan /\ iq_attempt_id q = plan_attempt_id plan
    /\ iq_payment_intent_id q = plan_payment_intent_id plan
    /\ iq_expires_at q = plan_expires_at plan /\ iq_late_payment_until q = plan_late_payment_until plan.
Proof.
  intros Hwf Hi. pose proof (steps_transacts _ _ (pg_issue_transacts plan actor route key hash) s) as Hstep.
  rewrite Hi in Hstep. cbn in Hstep.
  destruct Hstep as [(? & ? & ? & [=] & _)|(q' & row & intent & amount & token & l & record & v & [= <-] & _ & Hquot
    & (slots & slot & Hslots & _ & Hslot & Hadd) & Hfresh & _ & _ & [trail Hdb] & Hrow & Hq)].
  apply ok_or_Ok, checked_Some in Hslots as [-> Hrange].
  apply free_slot_first in Hslot as (Hlt & Hfree & Hbusy). apply add_slot in Hadd as Hamount; [|done|lia].
  apply quote_row_parts in Hrow as (quote & a & x & Hquote & _ & Hx & Hxq & Hterms).
  apply quoted_amount in Hq as (Q1 & Q2 & Q3 & Q4 & Q5 & Q6).
  rewrite Hdb in Hquote, Hx. cbn in Hquote, Hx. rewrite lookup_insert_eq in Hquote. injection Hquote as <-.
  injection Hterms as T1 T2 T3 _ _ _ _ _ _ _ T6 _ _ _ _ _ _ _ T4 T5 _. cbn in *.
  assert (a = plan_attempt_id plan) as ->.
  { destruct Hfresh as (_ & _ & _ & _ & _ & _ & _ & Hone).
    apply lookup_insert_Some in Hx as [[<- _]|[_ Hx]]; [done|]. by destruct (Hone a x Hx). }
  assert (iq_amount_raw q = amount) as ->.
  { rewrite T6 in Q6. destruct (parse_numeric (as_u256 amount) (iq_amount_raw q)) as [E _]; [by apply map_err_Ok|].
    destruct (iq_amount_raw q), amount. cbn in E. by subst. }
  exists slot, token, l, intent, v. rewrite Hdb. cbn. split_and!; try done; try congruence; lia.
Qed.

(** ** A sweep *)

Lemma waits_in_true due i :
  waits_in due i = true -> exists a x, (a, x) ∈ due /\ tt_payment_intent_id x = i.
Proof.
  intros ([a x] & Hin & Hi)%existsb_exists. exists a, x. cbn in Hi. split; [by apply list_elem_of_In|lia].
Qed.

(** C15: A sweep expires what is due and nothing else.  Every attempt is left as
    it was or, when it waited for money and its quote had run out, expired; an
    order becomes expired only when it was waiting for its first money and such
    an attempt was its own, so a partially paid or paid order keeps its status;
    a reservation goes only when its late-payment window is over, and is kept
    in the history.  A sweep its limit did not cut leaves no waiting attempt
    with an expired quote and no reservation past its window. *)
Theorem sweep_expires_what_is_due now limit s result s' :
  orderly (committed s) ->
  pg_expire_quotes_and_archive_leases (R := R) now limit s = (Ok result, s') ->
  let db := committed s in let db' := committed s' in
  (forall a x, payment_attempts db !! a = Some x ->
     payment_attempts db' !! a = Some x
     \/ tt_status x = "awaiting_payment" /\ tt_quote_expires_at x <= now
        /\ payment_attempts db' !! a = Some (attempt_with "expired" now x))
  /\ (forall i row, payment_intents db !! i = Some row ->
     payment_intents db' !! i = Some row
     \/ ir_status row = "awaiting_payment"
        /\ payment_intents db' !! i = Some (intent_with "expired" (ir_version row + 1) now row)
        /\ exists a x, payment_attempts db' !! a = Some (attempt_with "expired" now x)
             /\ tt_payment_intent_id x = i /\ tt_quote_expires_at x <= now)
  /\ (forall l lease, amount_leases db !! l = Some lease ->
     amount_leases db' !! l = Some lease
     \/ al_lease_until lease <= now /\ amount_leases db' !! l = None
        /\ exists h, amount_lease_history db' !! h = Some (mkLeaseHistoryRow l lease now "expired"))
  /\ (ex_quotes_expired result < limit -> forall a x, payment_attempts db' !! a = Some x ->
     tt_status x = "awaiting_payment" -> now < tt_quote_expires_at x)
  /\ (ex_leases_archived result < limit -> forall l lease, amount_leases db' !! l = Some lease ->
     now < al_lease_until lease).
Proof.
  intros O Hm. pose proof (steps_transacts _ _ (pg_expire_transacts now limit) s) as Hstep.
  rewrite Hm in Hstep. cbn in Hstep. destruct Hstep as (history & (_ & _ & Hkept) & [trail ->] & ->).
  cbn. set (db := committed s) in *. set (due := due_attempts now limit db).
  destruct (due_attempts_spec now limit db) as [Hnd Hdue].
  destruct (due_leases_spec now limit (expired_in now limit db)) as [_ Hleases]. split_and!.
  - intros a x Hx. destruct (expire_attempts_cases now limit db a) as [E|(y & Hy & Hs & Hin & E)]; fold due in E.
    + left. by rewrite E.
    + right. rewrite Hx in Hy. injection Hy as <-. by destruct (Hdue a x Hin) as (_ & _ & ?).
  - intros i row Hi. rewrite expire_intents_lookup, Hi. cbn. unfold expired_row.
    case_bool_decide as Hs; cbn; [|by left]. destruct (waits_in due i) eqn:Hw; [right|by left].
    split_and!; [done..|]. apply waits_in_true in Hw as (a & x & Hin & Hxi). exists a, x.
    destruct (Hdue a x Hin) as (_ & _ & ?). split_and!; [by apply expire_attempts_lookup|done..].
  - intros l lease Hl. rewrite release_lookup. case_decide as Hin; [right|by left].
    apply list_elem_of_fmap in Hin as ([[l' lease'] m] & -> & Hin). destruct (Hleases _ _ _ Hin) as [Hl' Hle].
    cbn in Hl, Hl'. assert (lease' = lease) as -> by congruence. split_and!; [done..|]. apply (Hkept _ Hin).
  - intros Hlt a x Hx Hs. destruct (expire_attempts_cases now limit db a) as [E|(y & Hy & _ & _ & E)]; fold due in E.
    + destruct (Z.le_gt_cases (tt_quote_expires_at x) now) as [Hle|?]; [|lia]. exfalso. rewrite E in Hx.
      assert ((a, x) ∈ due) as Hin.
      { apply limited_complete; [unfold due, due_attempts in Hlt; lia|].
        apply list_elem_of_filter. split; [done|by apply elem_of_map_to_list]. }
      unfold due in E. rewrite (expire_attempts_lookup _ _ _ _ _ Hnd Hin), Hx in E. injection E as E.
      rewrite <- E in Hs. done.
    + rewrite E in Hx. by injection Hx as <-.
  - intros Hlt l lease Hl. rewrite release_lookup in Hl. case_decide as Hin; [done|].
    destruct (Z.le_gt_cases (al_lease_until lease) now) as [Hle|?]; [|lia]. destruct Hin.
    destruct (ord_leased _ O l lease Hl) as (x & Hx & _).
    assert (is_Some (payment_attempts (expired_in now limit db) !! al_attempt_id lease)) as [x' Hx'].
    { cbn. destruct (expire_attempts_cases now limit db (al_attempt_id lease)) as [E|(y & _ & _ & _ & E)]; rewrite E; by eexists. }
    apply list_elem_of_fmap. exists (l, lease, tt_merchant_id x'). split; [done|]. apply limited_complete.
    + unfold due_leases in Hlt. lia.
    + apply list_elem_of_omap. exists (l, lease). split; [by apply elem_of_map_to_list|]. rewrite Hx'. cbn.
      by rewrite (proj2 (Z.leb_le _ _) Hle).
Qed.
End offers.

(** ** In a shop *)

Import ReferenceInstances.
#[local] Existing Instance quiet_postgres.

Lemma Ok_inj {E A} (a b : A) : Ok (E := E) a = Ok b -> a = b.
Proof. by intros [= ->]. Qed.

Lemma shop_reaches s : rtc (shop_step OperationsService_new) shop_session s ->
  governed (as_u256 (dual_control_min_raw (os_honor_policy OperationsService_new))) (committed s)
  /\ orderly (committed s).
Proof. intros Hr. by destruct (shop_run OperationsService_new shop_session s (shop_governed _) shop_orderly Hr) as (G & O & _). Qed.

(** The order is created, quoted and cancelled; the repeated creation shows it. *)
Lemma create_is_idempotent_witness :
  exists result s1 result' s3, create 1 10 "create-order-0001" (order_of "order-1") shop_session = (Ok result, s1)
    /\ create 1 11 "create-order-0001" (order_of "order-1") cancelled_session = (Ok result', s3)
    /\ committed s3 = committed cancelled_session /\ cp_replayed result' = true
    /\ pi_status (cp_intent result') = Cancelled /\ same_order (cp_intent result) (cp_intent result').
Proof.
  assert (is_ok (create 1 10 "create-order-0001" (order_of "order-1") shop_session).1 = true) as Hok
    by (vm_compute; reflexivity).
  destruct (create 1 10 "create-order-0001" (order_of "order-1") shop_session) as [[result|e] s1] eqn:H1;
    [|discriminate Hok].
  assert (s1 = created_session) as Hs1 by (unfold created_session; rewrite H1; exact eq_refl).
  assert ((fun r => pi_status (cp_intent r)) <$>
    (create 1 11 "create-order-0001" (order_of "order-1") cancelled_session).1 = Ok Cancelled) as Hst
    by (vm_compute; reflexivity).
  destruct (create 1 11 "create-order-0001" (order_of "order-1") cancelled_session) as [[result'|e] s3] eqn:H3;
    [|discriminate Hst].
  assert (rtc (shop_step OperationsService_new) s1 cancelled_session) as Hrun.
  { rewrite Hs1. apply (rtc_l _ _ opened_session); [apply shop_create|apply cancelled_run]. }
  assert (rtc (shop_step OperationsService_new) shop_session s1) as Hto
    by (rewrite Hs1; apply rtc_once, shop_create).
  destruct (shop_reaches s1 Hto) as [G O].
  destruct (create_is_idempotent OperationsService_new 1 10 "create-order-0001" (order_of "order-1") shop_session
    result s1 cancelled_session 11 (order_of "order-1") (Ok result') s3 G O H1 Hrun H3) as [Hc Hres].
  destruct (Hres result' eq_refl) as (_ & Hrep & Hsame).
  exists result, s1, result', s3.
  split; [exact eq_refl|]. split; [exact eq_refl|]. split; [exact Hc|]. split; [exact Hrep|]. split; [|exact Hsame].
  exact (Ok_inj _ _ Hst).
Defined.

(** The quote is issued and its order cancelled; the repeated request shows
    the quote and reserves nothing. *)
Lemma issue_is_idempotent_witness :
  exists result s1 result' s3,
    issue quote_service 1 10 "issue-order-00001" (mkIssueQuote 1 1) opened_session = (Ok result, s1)
    /\ issue quote_service 1 11 "issue-order-00001" (mkIssueQuote 1 1) cancelled_session = (Ok result', s3)
    /\ committed s3 = committed cancelled_session /\ ir_replayed result' = true
    /\ same_quote (ir_quote result) (ir_quote result').
Proof.
  assert (is_ok (issue quote_service 1 10 "issue-order-00001" (mkIssueQuote 1 1) opened_session).1 = true) as Hok1
    by (vm_compute; reflexivity).
  destruct (issue quote_service 1 10 "issue-order-00001" (mkIssueQuote 1 1) opened_session) as [[result|e] s1] eqn:H1;
    [|discriminate Hok1].
  assert (s1 = issued_session) as Hs1 by (unfold issued_session; rewrite H1; exact eq_refl).
  assert (is_ok (issue quote_service 1 11 "issue-order-00001" (mkIssueQuote 1 1) cancelled_session).1 = true) as Hok
    by (vm_compute; reflexivity).
  destruct (issue quote_service 1 11 "issue-order-00001" (mkIssueQuote 1 1) cancelled_session)
    as [[result'|e] s3] eqn:H3; [|discriminate Hok].
  assert (rtc (shop_step OperationsService_new) s1 cancelled_session) as Hrun
    by (rewrite Hs1; apply rtc_once, shop_cancel).
  assert (rtc (shop_step OperationsService_new) shop_session s1) as Hto.
  { rewrite Hs1. apply (rtc_l _ _ created_session); [apply shop_create|].
    apply (rtc_l _ _ opened_session); [apply shop_create|apply rtc_once, shop_issue]. }
  destruct (shop_reaches s1 Hto) as [G O].
  assert (IssueQuote_wf (mkIssueQuote 1 1)) as Hw by (split; unfold is_uuid; cbn; lia).
  destruct (issue_is_idempotent OperationsService_new quote_service 1 10 "issue-order-00001" (mkIssueQuote 1 1)
    opened_session result s1 cancelled_session quote_service 11 (mkIssueQuote 1 1) (Ok result') s3 G O Hw Hw H1 Hrun H3)
    as [Hc Hres].
  destruct (Hres result' eq_refl) as (_ & Hrep & Hsame). exists result, s1, result', s3.
  split; [exact eq_refl|]. split; [exact eq_refl|]. split; [exact Hc|]. split; [exact Hrep|exact Hsame].
Defined.

(** The second order is quoted while the first holds the base amount. *)
Lemma new_quote_takes_smallest_free_amount_witness :
  exists q s', pg_issue_quote_idempotently (shop_plan 102 202 3 100) 10 ISSUE_ROUTE "issue-order-00002"
      (quote_request_hash (mkIssueQuote 3 1)) quoted_session = (Ok (Issued q), s')
    /\ as_u256 (iq_amount_raw q) = 1001 /\ iq_attempt_id q = 202.
Proof.
  assert ((fun r => match r with Issued _ => true | QuoteReplayed _ => false end) <$>
    (pg_issue_quote_idempotently (shop_plan 102 202 3 100) 10 ISSUE_ROUTE "issue-order-00002"
      (quote_request_hash (mkIssueQuote 3 1)) quoted_session).1 = Ok true) as Hok by (vm_compute; reflexivity).
  destruct (pg_issue_quote_idempotently (shop_plan 102 202 3 100) 10 ISSUE_ROUTE "issue-order-00002"
    (quote_request_hash (mkIssueQuote 3 1)) quoted_session) as [[[q|q]|e] s'] eqn:Hi; [|discriminate Hok..].
  assert (RawAmount_wf (plan_base_amount_raw (shop_plan 102 202 3 100))) as Hwf by (vm_compute; by split).
  destruct (new_quote_takes_smallest_free_amount (shop_plan 102 202 3 100) 10 ISSUE_ROUTE "issue-order-00002"
    (quote_request_hash (mkIssueQuote 3 1)) quoted_session q s' Hwf Hi)
    as (slot & token & l & intent & v & Hslot & Hamt & Hfree & Hbusy & _ & _ & _ & _ & _ & _ & Ha & _).
  exists q, s'. split; [exact eq_refl|]. split; [|exact Ha]. rewrite Hamt. cbn in Hslot.
  assert (slot <> 0) by (intros ->; vm_compute in Hfree; discriminate Hfree).
  assert (~ 1 < slot) by (intros Hlt; specialize (Hbusy 1 ltac:(lia)); vm_compute in Hbusy; discriminate Hbusy).
  assert (slot = 1) as -> by lia. reflexivity.
Defined.

Lemma sweep_expires_what_is_due_witness :
  exists result s', pg_expire_quotes_and_archive_leases (200 * NANOS) 10 quoted_session = (Ok result, s')
    /\ ex_quotes_expired result = 1
    /\ (forall a x, payment_attempts (committed s') !! a = Some x -> tt_status x = "awaiting_payment" ->
          200 * NANOS < tt_quote_expires_at x).
Proof.
  assert (ex_quotes_expired <$> (pg_expire_quotes_and_archive_leases (200 * NANOS) 10 quoted_session).1 = Ok 1) as Hone
    by (vm_compute; reflexivity).
  destruct (pg_expire_quotes_and_archive_leases (200 * NANOS) 10 quoted_session) as [[result|e] s'] eqn:Hm;
    [|discriminate Hone].
  assert (dated_state OperationsService_new 0 (committed shop_session)) as Hstart.
  { split; [apply shop_governed|split; [apply shop_orderly|apply shop_apart]]. }
  destruct (dated_run_state _ _ _ _ _ quoted_run Hstart) as (_ & O & _).
  destruct (sweep_expires_what_is_due (200 * NANOS) 10 quoted_session result s' O Hm) as (_ & _ & _ & Hall & _).
  exists result, s'. split; [exact eq_refl|]. split.
  - exact (Ok_inj _ _ Hone).
  - apply Hall. rewrite (Ok_inj _ _ Hone). reflexivity.
Defined.
