(* ===== verification/WebhookSign.v ===== *)
(** * Webhook signing

    [gateway-domain/src/webhook.rs]: the secret of a merchant endpoint is
    derived from the deployment's master key, and every delivery carries an
    HMAC over its timestamp and its body. *)

From Stdlib Require Import Ascii String Strings.Byte.
From S2P Require Import Prelude RustStd Externals Chain.

Local Open Scope Z_scope.

Definition MIN_MASTER_KEY_BYTES : Z := 32.

Inductive WebhookError := WeakMasterKey.

Record SigningSecret := mkSigningSecret { secret_bytes : list byte }.

Definition SECRET_LABEL : list byte := as_bytes "gateway-webhook-secret-v1".

(** The local [hex] of the file: the digits of [chain::hex_digit]. *)
Definition hex (bytes : list byte) : string := hex_of_bytes bytes.

Section webhook.
Context `{HashLib}.

(** HMAC accepts a key of any length, so [new_from_slice] never fails; the
    updates concatenate. *)
Definition derive_message (key_version merchant_id endpoint_id : Z) : list byte :=
  SECRET_LABEL ++ be_bytes 4 key_version ++ uuid_as_bytes merchant_id ++ uuid_as_bytes endpoint_id.
Definition SigningSecret_derive (master_key : list byte) (key_version merchant_id endpoint_id : Z)
    : result WebhookError SigningSecret :=
  if Z.of_nat (length master_key) <? MIN_MASTER_KEY_BYTES then Err WeakMasterKey
  else Ok (mkSigningSecret (hmac_sha256 master_key (derive_message key_version merchant_id endpoint_id))).

Definition SigningSecret_expose (s : SigningSecret) : string := hex (secret_bytes s).
Definition SigningSecret_fingerprint (s : SigningSecret) : list byte := sha256 (secret_bytes s).

(** The bytes a delivery signs: the timestamp, a dot, the body. *)
Definition event_message (timestamp_unix : Z) (body : list byte) : list byte :=
  as_bytes (dec_signed timestamp_unix) ++ as_bytes "." ++ body.

(** The [v1] value of one secret. *)
Definition event_mac (secret : SigningSecret) (timestamp_unix : Z) (body : list byte) : string :=
  hex (hmac_sha256 (secret_bytes secret) (event_message timestamp_unix body)).

Definition sign_event (secret : SigningSecret) (timestamp_unix : Z) (body : list byte) : string :=
  "t=" +:+ dec_signed timestamp_unix +:+ ",v1=" +:+ event_mac secret timestamp_unix body.

Definition sign_event_with_all (secrets : list SigningSecret) (timestamp_unix : Z)
    (body : list byte) : string :=
  fold_left (fun line secret => line +:+ ",v1=" +:+ event_mac secret timestamp_unix body)
    secrets ("t=" +:+ dec_signed timestamp_unix).
End webhook.

(** * Lemmas *)

(** Decimal text holds no dot. *)
Definition is_dec_char (c : ascii) : bool := is_ascii_digit c || Ascii.eqb c "-".

Lemma dec_signed_chars n : str_forallb is_dec_char (dec_signed n) = true.
Proof.
  assert (forall m, str_forallb is_dec_char (dec_unsigned m) = true) as Hu.
  { intros m. eapply str_forallb_impl; [|apply dec_unsigned_digits].
    intros c Hc. unfold is_dec_char. unfold all_digits in *. by rewrite Hc. }
  unfold dec_signed. destruct (_ <? _); [|apply Hu]. cbn. apply Hu.
Qed.

(** Text without a separator, a separator and a body determine both. *)
Lemma separated_inj (sep : ascii) (p : ascii -> bool) a b x y :
  p sep = false -> str_forallb p a = true -> str_forallb p b = true ->
  as_bytes a ++ as_bytes (String sep "") ++ x = as_bytes b ++ as_bytes (String sep "") ++ y ->
  a = b /\ x = y.
Proof.
  intros Hsep. revert b. induction a as [|c a IH]; intros [|d b] Ha Hb; cbn in *.
  - intros [= ?]. done.
  - intros [= Hc Hrest]. exfalso. apply andb_prop in Hb as [Hd _].
    apply (f_equal ascii_of_byte) in Hc. rewrite !ascii_of_byte_of_ascii in Hc. congruence.
  - intros [= Hc Hrest]. exfalso. apply andb_prop in Ha as [Hd _].
    apply (f_equal ascii_of_byte) in Hc. rewrite !ascii_of_byte_of_ascii in Hc. congruence.
  - apply andb_prop in Ha as [_ Ha], Hb as [_ Hb]. intros [= Hc Hrest].
    apply (f_equal ascii_of_byte) in Hc. rewrite !ascii_of_byte_of_ascii in Hc.
    destruct (IH b Ha Hb Hrest) as [-> ->]. by subst.
Qed.

Definition i64_range (n : Z) : Prop := I64_MIN <= n <= I64_MAX.

Section webhook_properties.
Context `{HashLib}.

Lemma derive_message_inj v1 v2 m1 m2 e1 e2 :
  - 2 ^ 31 <= v1 < 2 ^ 31 -> - 2 ^ 31 <= v2 < 2 ^ 31 ->
  is_uuid m1 -> is_uuid m2 -> is_uuid e1 -> is_uuid e2 ->
  derive_message v1 m1 e1 = derive_message v2 m2 e2 -> v1 = v2 /\ m1 = m2 /\ e1 = e2.
Proof.
  intros Hv1 Hv2 Hm1 Hm2 He1 He2 Heq. unfold derive_message in Heq.
  apply app_inv_head in Heq.
  apply app_inj_1 in Heq as [Hv Heq]; [|by rewrite !be_bytes_length].
  apply app_inj_1 in Heq as [Hm He]; [|unfold uuid_as_bytes; by rewrite !be_bytes_length].
  apply be_bytes_inj_signed in Hv; [|lia|exact Hv1|exact Hv2].
  apply be_bytes_inj in Hm; [|exact Hm1|exact Hm2]. apply be_bytes_inj in He; [done|exact He1|exact He2].
Qed.

(** Each endpoint, merchant and key version has its own secret: with one
    master key (at least 32 bytes, or derivation fails) two derivations
    agree only for the same triple, unless the two messages authenticated
    are themselves an HMAC collision under that key. *)
Theorem signing_secrets_are_separate key v1 v2 m1 m2 e1 e2 s1 s2 :
  - 2 ^ 31 <= v1 < 2 ^ 31 -> - 2 ^ 31 <= v2 < 2 ^ 31 ->
  is_uuid m1 -> is_uuid m2 -> is_uuid e1 -> is_uuid e2 ->
  SigningSecret_derive key v1 m1 e1 = Ok s1 -> SigningSecret_derive key v2 m2 e2 = Ok s2 ->
  MIN_MASTER_KEY_BYTES <= Z.of_nat (length key) /\ length (secret_bytes s1) = 32%nat
  /\ (SigningSecret_expose s1 = SigningSecret_expose s2 ->
      (v1 = v2 /\ m1 = m2 /\ e1 = e2)
      \/ collision (hmac_sha256 key) (derive_message v1 m1 e1) (derive_message v2 m2 e2)).
Proof.
  intros Hv1 Hv2 Hm1 Hm2 He1 He2. unfold SigningSecret_derive.
  destruct (Z.ltb_spec (Z.of_nat (length key)) MIN_MASTER_KEY_BYTES); [done|].
  intros [= <-] [= <-]. split_and!; [done|apply hmac_sha256_length|].
  intros Heq%hex_of_bytes_inj. simpl in Heq.
  destruct (decide (derive_message v1 m1 e1 = derive_message v2 m2 e2)) as [Hm|Hm].
  - left. by apply derive_message_inj.
  - right. by split.
Qed.

Lemma sign_event_with_all_app l1 l2 t body :
  sign_event_with_all (l1 ++ l2) t body
  = fold_left (fun line s => line +:+ ",v1=" +:+ event_mac s t body) l2 (sign_event_with_all l1 t body).
Proof. unfold sign_event_with_all. apply fold_left_app. Qed.

(** A signature covers its timestamp and its body: two deliveries under
    one secret carry the same [v1] value only if they agree on both, unless
    the two signed messages are themselves an HMAC collision.  One secret signs the line [sign_event]
    writes, and adding a secret during a rotation appends its value. *)
Theorem signature_binds_timestamp_and_body s t1 t2 body1 body2 :
  i64_range t1 -> i64_range t2 ->
  (event_mac s t1 body1 = event_mac s t2 body2 ->
     (t1 = t2 /\ body1 = body2)
     \/ collision (hmac_sha256 (secret_bytes s)) (event_message t1 body1) (event_message t2 body2))
  /\ sign_event_with_all [s] t1 body1 = sign_event s t1 body1
  /\ forall l, sign_event_with_all (l ++ [s]) t1 body1
               = sign_event_with_all l t1 body1 +:+ ",v1=" +:+ event_mac s t1 body1.
Proof.
  intros Ht1 Ht2. split_and!.
  - intros Heq%hex_of_bytes_inj.
    destruct (decide (event_message t1 body1 = event_message t2 body2)) as [Hm|Hm].
    + left. apply (separated_inj "." is_dec_char) in Hm as [Hd ->];
        [|done|apply dec_signed_chars..].
      split; [|done]. apply parse_i64_dec_signed in Ht1, Ht2. rewrite Hd in Ht1. congruence.
    + right. by split.
  - unfold sign_event_with_all, sign_event. cbn [fold_left]. by rewrite !str_app_assoc.
  - intros l. by rewrite sign_event_with_all_app.
Qed.
End webhook_properties.

Import ReferenceInstances.

Lemma signing_secrets_are_separate_witness :
  MIN_MASTER_KEY_BYTES <= Z.of_nat (length (repeat x01 32)).
Proof.
  apply (signing_secrets_are_separate (repeat x01 32) 1 1 2 2 3 4
    (mkSigningSecret (hmac_sha256 (repeat x01 32) (derive_message 1 2 3)))
    (mkSigningSecret (hmac_sha256 (repeat x01 32) (derive_message 1 2 4))));
    first [lia | reflexivity | (split; vm_compute; congruence)].
Defined.

Lemma signature_binds_timestamp_and_body_witness :
  sign_event_with_all [mkSigningSecret (repeat x01 32)] 7 [x02]
  = sign_event (mkSigningSecret (repeat x01 32)) 7 [x02].
Proof.
  apply (signature_binds_timestamp_and_body (mkSigningSecret (repeat x01 32)) 7 8 [x02] [x03]);
    split; vm_compute; congruence.
Defined.
