(* ===== verification/RustNet.v ===== *)
(** * [std::net] and lossy UTF-8

    What the delivery code uses of Rust's network types: the addresses with
    their order, [IpAddr::from_str], and [String::from_utf8_lossy]. *)

From Stdlib Require Import Ascii String Strings.Byte.
From S2P Require Import Prelude RustStd.

Local Open Scope Z_scope.

(** ** Addresses *)

Inductive Ipv4Addr := Ipv4 (a b c d : Z).                       (* four octets *)
Inductive Ipv6Addr := Ipv6 (s0 s1 s2 s3 s4 s5 s6 s7 : Z).       (* eight segments *)
Inductive IpAddr := V4 (ip : Ipv4Addr) | V6 (ip : Ipv6Addr).

#[export] Instance Ipv4Addr_eq_dec : EqDecision Ipv4Addr.
Proof. solve_decision. Defined.
#[export] Instance Ipv6Addr_eq_dec : EqDecision Ipv6Addr.
Proof. solve_decision. Defined.
#[export] Instance IpAddr_eq_dec : EqDecision IpAddr.
Proof. solve_decision. Defined.

Inductive SocketAddr :=
  | SockV4 (ip : Ipv4Addr) (port : Z)
  | SockV6 (ip : Ipv6Addr) (port flowinfo scope_id : Z).

Definition SocketAddr_ip (s : SocketAddr) : IpAddr :=
  match s with SockV4 ip _ => V4 ip | SockV6 ip _ _ _ => V6 ip end.
Definition SocketAddr_port (s : SocketAddr) : Z :=
  match s with SockV4 _ port | SockV6 _ port _ _ => port end.
(** [SocketAddr::new] *)
Definition SocketAddr_new (ip : IpAddr) (port : Z) : SocketAddr :=
  match ip with V4 ip => SockV4 ip port | V6 ip => SockV6 ip port 0 0 end.

(** The derived [Ord]: version 4 first, then field by field. *)
Definition SocketAddr_key (s : SocketAddr) : list Z :=
  match s with
  | SockV4 (Ipv4 a b c d) port => [0; a; b; c; d; port]
  | SockV6 (Ipv6 a b c d e f g h) port flow scope => [1; a; b; c; d; e; f; g; h; port; flow; scope]
  end.
Fixpoint lex_compare (a b : list Z) : comparison :=
  match a, b with
  | [], [] => Eq
  | [], _ :: _ => Lt
  | _ :: _, [] => Gt
  | x :: a, y :: b => match Z.compare x y with Eq => lex_compare a b | o => o end
  end.
Definition SocketAddr_cmp (s t : SocketAddr) : comparison :=
  lex_compare (SocketAddr_key s) (SocketAddr_key t).

(** ** [IpAddr::from_str]

    A parser takes the remaining text and returns a value with the rest, or
    [None] and consumes nothing. *)

Definition Parser (A : Type) : Type := string -> option (A * string).

Definition hex_digit_value (c : ascii) : option Z :=
  let z := ascii_Z c in
  if in_range 48 57 z then Some (z - 48)
  else if in_range 97 102 z then Some (z - 87)
  else if in_range 65 70 z then Some (z - 55)
  else None.
Definition radix_digit (radix : Z) (c : ascii) : option Z :=
  match hex_digit_value c with Some d => if d <? radix then Some d else None | None => None end.

(** The digits at the front, with their value and number. *)
Fixpoint read_digits (radix : Z) (s : string) (value count : Z) : Z * Z * string :=
  match s with
  | EmptyString => (value, count, s)
  | String c t =>
      match radix_digit radix c with
      | Some d => read_digits radix t (value * radix + d) (count + 1)
      | None => (value, count, s)
      end
  end.

(** [read_number]: at most [max_digits] digits and [max_value], and no leading
    zero unless allowed. *)
Definition read_number (radix max_digits max_value : Z) (allow_zero_prefix : bool) : Parser Z :=
  fun s =>
    let '(value, count, rest) := read_digits radix s 0 0 in
    let leading_zero := match s with String c _ => Ascii.eqb c "0" | EmptyString => false end in
    if (count =? 0) || (max_digits <? count) || (max_value <? value)
       || (negb allow_zero_prefix && leading_zero && (1 <? count))
    then None else Some (value, rest).

Definition read_given_char (c : ascii) : Parser unit :=
  fun s => match s with
           | String d t => if Ascii.eqb c d then Some (tt, t) else None
           | EmptyString => None
           end.

(** [read_separator]: the separator precedes every element but the first. *)
Definition read_separator {A} (sep : ascii) (index : Z) (inner : Parser A) : Parser A :=
  fun s => if 0 <? index
           then '(_, s) ← read_given_char sep s; inner s
           else inner s.

Definition read_ipv4_addr : Parser Ipv4Addr :=
  fun s =>
    let octet i := read_separator "." i (read_number 10 3 255 false) in
    '(a, s) ← octet 0 s; '(b, s) ← octet 1 s; '(c, s) ← octet 2 s; '(d, s) ← octet 3 s;
    Some (Ipv4 a b c d, s).

(** [read_groups]: up to [limit] groups, an embedded IPv4 address counting for
    two; the groups, whether one was an IPv4 address, and the rest. *)
Fixpoint read_groups (limit : nat) (index : Z) (s : string) : list Z * bool * string :=
  match limit with
  | O => ([], false, s)
  | S limit' =>
      let embedded :=
        match limit' with
        | O => None
        | S _ => read_separator ":" index read_ipv4_addr s
        end in
      match embedded with
      | Some (Ipv4 a b c d, rest) => ([a * 256 + b; c * 256 + d], true, rest)
      | None =>
          match read_separator ":" index (read_number 16 4 65535 true) s with
          | Some (g, rest) =>
              let '(groups, v4, rest) := read_groups limit' (index + 1) rest in
              (g :: groups, v4, rest)
          | None => ([], false, s)
          end
      end
  end.

Definition ipv6_of_list (l : list Z) : option Ipv6Addr :=
  match l with
  | [a; b; c; d; e; f; g; h] => Some (Ipv6 a b c d e f g h)
  | _ => None
  end.

Definition read_ipv6_addr : Parser Ipv6Addr :=
  fun s =>
    let '(head, head_v4, rest) := read_groups 8 0 s in
    if (length head =? 8)%nat then (fun ip => (ip, rest)) <$> ipv6_of_list head
    else if head_v4 then None
    else
      '(_, rest) ← read_given_char ":" rest; '(_, rest) ← read_given_char ":" rest;
      let '(tail, _, rest) := read_groups (8 - (length head + 1)) 0 rest in
      (fun ip => (ip, rest)) <$> ipv6_of_list (head ++ repeat 0 (8 - length head - length tail) ++ tail).

(** [s.parse::<IpAddr>()]: the whole text must be read. *)
Definition parse_ip (s : string) : option IpAddr :=
  match (match read_ipv4_addr s with
         | Some (ip, rest) => Some (V4 ip, rest)
         | None => (fun '(ip, rest) => (V6 ip, rest)) <$> read_ipv6_addr s
         end) with
  | Some (ip, EmptyString) => Some ip
  | _ => None
  end.

(** ** Printing addresses *)

Definition hex_char (d : Z) : string :=
  default "" (String.get (Z.to_nat d) "0123456789abcdef" ≫= fun c => Some (String c EmptyString)).
(** [{:x}] of a segment: no leading zeros. *)
Definition hex_segment (z : Z) : string :=
  let digits := [Z.land (Z.shiftr z 12) 15; Z.land (Z.shiftr z 8) 15; Z.land (Z.shiftr z 4) 15] in
  let fix skip l := match l with [] => "" | d :: l => if d =? 0 then skip l else String.append (hex_char d) (String.concat "" (hex_char <$> l)) end in
  String.append (skip digits) (hex_char (Z.land z 15)).
Definition Ipv4Addr_to_string (ip : Ipv4Addr) : string :=
  let '(Ipv4 a b c d) := ip in String.concat "." (dec_unsigned <$> [a; b; c; d]).

(** The longest run of zero segments, the first of equals: its start and its
    length. *)
Fixpoint zero_span (i : nat) (segments : list Z) (current longest : nat * nat) : nat * nat :=
  match segments with
  | [] => longest
  | segment :: segments =>
      if segment =? 0 then
        let current := (if bool_decide (current.2 = 0%nat) then i else current.1, S current.2) in
        zero_span (S i) segments current (if (longest.2 <? current.2)%nat then current else longest)
      else zero_span (S i) segments (0%nat, 0%nat) longest
  end.
Definition fmt_subslice (chunk : list Z) : string := String.concat ":" (hex_segment <$> chunk).
Definition Ipv6Addr_to_string (ip : Ipv6Addr) : string :=
  let '(Ipv6 a b c d e f g h) := ip in
  let segments := [a; b; c; d; e; f; g; h] in
  if bool_decide ([a; b; c; d; e] = [0; 0; 0; 0; 0]) && (f =? 0xffff) then
    String.append "::ffff:"
      (Ipv4Addr_to_string (Ipv4 (Z.shiftr g 8) (Z.land g 255) (Z.shiftr h 8) (Z.land h 255)))
  else
    let '(start, len) := zero_span 0 segments (0%nat, 0%nat) (0%nat, 0%nat) in
    if (1 <? len)%nat then
      String.append (fmt_subslice (take start segments))
        (String.append "::" (fmt_subslice (drop (start + len) segments)))
    else fmt_subslice segments.
Definition IpAddr_to_string (ip : IpAddr) : string :=
  match ip with V4 ip => Ipv4Addr_to_string ip | V6 ip => Ipv6Addr_to_string ip end.

(** ** [String::from_utf8_lossy]

    Every maximal invalid piece becomes the replacement character. *)

Definition REPLACEMENT : list byte := [xef; xbf; xbd].

Definition is_cont (b : byte) : bool := in_range 0x80 0xBF (byte_Z b).

(** The well-formed second bytes after the first byte of a longer sequence. *)
Definition second_ok (first second : byte) : bool :=
  let f := byte_Z first in let s := byte_Z second in
  if in_range 0xC2 0xDF f then in_range 0x80 0xBF s
  else if f =? 0xE0 then in_range 0xA0 0xBF s
  else if in_range 0xE1 0xEC f then in_range 0x80 0xBF s
  else if f =? 0xED then in_range 0x80 0x9F s
  else if in_range 0xEE 0xEF f then in_range 0x80 0xBF s
  else if f =? 0xF0 then in_range 0x90 0xBF s
  else if in_range 0xF1 0xF3 f then in_range 0x80 0xBF s
  else if f =? 0xF4 then in_range 0x80 0x8F s
  else false.
Definition utf8_char_width (b : byte) : Z :=
  let z := byte_Z b in
  if in_range 0 0x7F z then 1
  else if in_range 0xC2 0xDF z then 2
  else if in_range 0xE0 0xEF z then 3
  else if in_range 0xF0 0xF4 z then 4
  else 0.

(** One character or one invalid piece at the front: what is written and how
    many bytes are read. *)
Definition lossy_step (b : byte) (rest : list byte) : list byte * nat :=
  match utf8_char_width b, rest with
  | 1, _ => ([b], 1%nat)
  | 2, c :: _ => if second_ok b c then ([b; c], 2%nat) else (REPLACEMENT, 1%nat)
  | 3, c :: d :: _ =>
      if second_ok b c then if is_cont d then ([b; c; d], 3%nat) else (REPLACEMENT, 2%nat)
      else (REPLACEMENT, 1%nat)
  | 3, [c] => (REPLACEMENT, if second_ok b c then 2%nat else 1%nat)
  | 4, c :: d :: e :: _ =>
      if second_ok b c then
        if is_cont d then if is_cont e then ([b; c; d; e], 4%nat) else (REPLACEMENT, 3%nat)
        else (REPLACEMENT, 2%nat)
      else (REPLACEMENT, 1%nat)
  | 4, [c; d] =>
      (REPLACEMENT, if second_ok b c then if is_cont d then 3%nat else 2%nat else 1%nat)
  | 4, [c] => (REPLACEMENT, if second_ok b c then 2%nat else 1%nat)
  | _, _ => (REPLACEMENT, 1%nat)
  end.

Fixpoint lossy_bytes (fuel : nat) (l : list byte) : list byte :=
  match fuel, l with
  | S fuel, b :: rest =>
      let '(out, n) := lossy_step b rest in out ++ lossy_bytes fuel (drop n l)
  | _, _ => []
  end.
Definition from_utf8_lossy (l : list byte) : string :=
  string_of_list_byte (lossy_bytes (length l) l).

(** * Lemmas *)

Lemma lex_compare_eq a b : lex_compare a b = Eq <-> a = b.
Proof.
  revert b. induction a as [|x a IH]; intros [|y b]; simpl; [done..|].
  destruct (Z.compare_spec x y) as [->|?|?].
  - rewrite IH. split; congruence.
  - split; [done|]. intros [=]. lia.
  - split; [done|]. intros [=]. lia.
Qed.

Lemma SocketAddr_cmp_eq s t : SocketAddr_cmp s t = Eq <-> s = t.
Proof.
  unfold SocketAddr_cmp. rewrite lex_compare_eq. split; [|by intros ->].
  by destruct s as [[] ?|[] ? ? ?], t as [[] ?|[] ? ? ?]; intros [=]; subst.
Qed.

(** A replacement triples an invalid byte at most. *)
Lemma lossy_step_size b rest :
  (length (lossy_step b rest).1 <= 3 * (lossy_step b rest).2)%nat.
Proof.
  unfold lossy_step, REPLACEMENT. destruct (utf8_char_width b) as [|[[]|[[]|[]|]|]|];
    destruct rest as [|c [|d [|e rest]]]; repeat case_match; simpl; lia.
Qed.

Lemma lossy_step_pos b rest : (1 <= (lossy_step b rest).2 <= S (length rest))%nat.
Proof.
  unfold lossy_step. destruct (utf8_char_width b) as [|[[]|[[]|[]|]|]|];
    destruct rest as [|c [|d [|e rest]]]; repeat case_match; simpl; lia.
Qed.

Lemma from_utf8_lossy_size l : (String.length (from_utf8_lossy l) <= 3 * length l)%nat.
Proof.
  assert (forall fuel l, (length (lossy_bytes fuel l) <= 3 * length l)%nat) as Hl.
  { induction fuel as [|fuel IH]; intros [|b rest]; simpl; try lia.
    pose proof (lossy_step_size b rest). pose proof (lossy_step_pos b rest).
    destruct (lossy_step b rest) as [out n]. simpl in *. rewrite length_app.
    specialize (IH (drop n (b :: rest))). rewrite length_drop in IH. simpl in IH. lia. }
  unfold from_utf8_lossy. specialize (Hl (length l) l).
  rewrite <- as_bytes_length. unfold as_bytes. by rewrite list_byte_of_string_of_list_byte.
Qed.

(** ASCII text is kept as it is. *)
Lemma from_utf8_lossy_ascii s :
  str_forallb (fun c => in_range 0 0x7F (ascii_Z c)) s = true -> from_utf8_lossy (as_bytes s) = s.
Proof.
  unfold from_utf8_lossy. induction s as [|c s IH]; simpl; [done|].
  intros [Hc Hs]%andb_prop. specialize (IH Hs).
  assert (utf8_char_width (byte_of_ascii c) = 1) as Hw.
  { unfold utf8_char_width.
    replace (byte_Z (byte_of_ascii c)) with (ascii_Z c); [by rewrite Hc|].
    by destruct c as [[] [] [] [] [] [] [] []]. }
  unfold as_bytes in *. cbn [list_byte_of_string list_ascii_of_string List.map length lossy_bytes].
  unfold lossy_step. rewrite Hw. cbn [drop app string_of_list_byte List.map string_of_list_ascii].
  rewrite ascii_of_byte_of_ascii. by f_equal.
Qed.

(** ** Ranges of parsed addresses *)

Definition v4_wf (ip : Ipv4Addr) : Prop :=
  let '(Ipv4 a b c d) := ip in 0 <= a < 256 /\ 0 <= b < 256 /\ 0 <= c < 256 /\ 0 <= d < 256.
Definition v6_wf (ip : Ipv6Addr) : Prop :=
  let '(Ipv6 s0 s1 s2 s3 s4 s5 s6 s7) := ip in
  Forall (fun s => 0 <= s < 65536) [s0; s1; s2; s3; s4; s5; s6; s7].
Definition ip_wf (ip : IpAddr) : Prop := match ip with V4 v4 => v4_wf v4 | V6 v6 => v6_wf v6 end.

Lemma radix_digit_range radix c d : radix_digit radix c = Some d -> 0 <= d < radix.
Proof.
  unfold radix_digit. destruct (hex_digit_value c) as [v|] eqn:Hv; [|done].
  destruct (Z.ltb_spec v radix); [|done]. intros [= <-]. split; [|done].
  unfold hex_digit_value in Hv. repeat case_match; simplify_eq;
    match goal with E : in_range _ _ _ = true |- _ => apply in_range_spec in E; lia end.
Qed.

Lemma read_digits_nonneg radix s value count :
  0 <= radix -> 0 <= value -> 0 <= (read_digits radix s value count).1.1.
Proof.
  intros Hr. revert value count. induction s as [|c s IH]; intros value count Hv; simpl; [done|].
  destruct (radix_digit radix c) as [d|] eqn:Hd; [|done]. apply radix_digit_range in Hd.
  apply IH. nia.
Qed.

Lemma read_number_range radix digits max zero s v rest :
  0 <= radix -> read_number radix digits max zero s = Some (v, rest) -> 0 <= v <= max.
Proof.
  intros Hr. unfold read_number. pose proof (read_digits_nonneg radix s 0 0 Hr ltac:(lia)) as Hn.
  destruct (read_digits radix s 0 0) as [[value count] r]. simpl in Hn.
  destruct (_ || _) eqn:E; [done|]. intros [= <- _]. bool_to_prop; lia.
Qed.

Lemma read_separator_inner {A} sep i (p : Parser A) s x :
  read_separator sep i p s = Some x -> exists s', p s' = Some x.
Proof.
  unfold read_separator. destruct (_ <? _); [|eauto]. intros H.
  destruct (read_given_char sep s) as [[]|]; [|done]. eauto.
Qed.

Lemma read_ipv4_addr_wf s ip rest : read_ipv4_addr s = Some (ip, rest) -> v4_wf ip.
Proof.
  unfold read_ipv4_addr. cbv zeta beta. intros H.
  do 4 match type of H with (mbind _ ?e) = _ =>
    destruct e as [[? ?]|] eqn:?; [cbn [mbind option_bind] in H|done] end.
  simplify_eq. unfold v4_wf.
  repeat match goal with E : read_separator _ _ _ _ = Some _ |- _ =>
    apply read_separator_inner in E as [? E]; apply read_number_range in E; [|lia] end.
  lia.
Qed.

Lemma read_groups_range limit : forall index s,
  Forall (fun g => 0 <= g < 65536) (read_groups limit index s).1.1.
Proof.
  induction limit as [|limit IH]; intros index s; cbn [read_groups]; [constructor|].
  destruct (match limit with O => None | S _ => _ end) as [[[a b c d] rest]|] eqn:He.
  - assert (v4_wf (Ipv4 a b c d)) as Hwf.
    { destruct limit; [done|]. apply read_separator_inner in He as [? He]. by apply read_ipv4_addr_wf in He. }
    simpl in Hwf. repeat constructor; lia.
  - destruct (read_separator ":" index (read_number 16 4 65535 true) s) as [[g rest]|] eqn:Hg; [|constructor].
    apply read_separator_inner in Hg as [? Hg]. apply read_number_range in Hg; [|lia].
    specialize (IH (index + 1) rest). destruct (read_groups limit (index + 1) rest) as [[gs v4] r].
    constructor; [lia|done].
Qed.

Lemma ipv6_of_list_wf l ip :
  Forall (fun g => 0 <= g < 65536) l -> ipv6_of_list l = Some ip -> v6_wf ip.
Proof.
  intros Hl Hi. unfold ipv6_of_list in Hi. repeat (destruct l as [|? l]; try done). by simplify_eq.
Qed.

Lemma read_ipv6_addr_wf s ip rest : read_ipv6_addr s = Some (ip, rest) -> v6_wf ip.
Proof.
  unfold read_ipv6_addr. pose proof (read_groups_range 8 0 s) as Hh.
  destruct (read_groups 8 0 s) as [[head v4] r]. simpl in Hh.
  destruct (_ =? _)%nat.
  - destruct (ipv6_of_list head) eqn:E; simpl; [|done]. intros [= <- _]. by eapply ipv6_of_list_wf.
  - destruct v4; [done|]. intros H.
    destruct (read_given_char _ r) as [[? r1]|]; [|done]. cbn in H.
    destruct (read_given_char _ r1) as [[? r2]|]; [|done]. cbn in H.
    pose proof (read_groups_range (8 - (length head + 1)) 0 r2) as Ht.
    destruct (read_groups _ 0 r2) as [[tail v] r3]. simpl in Ht.
    destruct (ipv6_of_list _) eqn:E in H; [|done]. simpl in H. simplify_eq.
    eapply ipv6_of_list_wf; [|exact E]. rewrite !Forall_app. split_and!; [done| |done].
    apply Forall_forall. intros x Hx%list_elem_of_In%repeat_spec. subst. lia.
Qed.

Lemma parse_ip_wf s ip : parse_ip s = Some ip -> ip_wf ip.
Proof.
  unfold parse_ip. destruct (read_ipv4_addr s) as [[v4 rest]|] eqn:E.
  - destruct rest; [|done]. intros [= <-]. by apply read_ipv4_addr_wf in E.
  - destruct (read_ipv6_addr s) as [[v6 rest]|] eqn:E6; [|done]. simpl. destruct rest; [|done].
    intros [= <-]. by apply read_ipv6_addr_wf in E6.
Qed.
