(* ===== verification/WebhookSender.v ===== *)
(** * Webhook delivery

    [gateway-webhook/src/lib.rs]: one signed event is posted once, over HTTPS,
    to addresses that were resolved, checked and pinned beforehand; a refusing
    peer's answer is kept up to a bound.  The URL parser, the resolver and the
    HTTP client are parameters. *)

From Stdlib Require Import Ascii String Strings.Byte.
From stdpp Require Import sets.
From S2P Require Import Prelude RustStd Externals RustNet.

Local Open Scope Z_scope.

Definition MAX_DETAIL_CHARS : nat := 500.
Definition MAX_DETAIL_BYTES : nat := 2048.
Definition WEBHOOK_PORT : Z := 443.
Definition DNS_TIMEOUT : Z := 5000.   (* milliseconds *)

Inductive SenderError := Unusable (message : string).
Inductive SafeDeliveryError :=
  | InvalidEndpoint | ResolutionFailed | NoAddresses | NonPublicAddress | ClientUnavailable.
Definition SafeDeliveryError_to_string (e : SafeDeliveryError) : string :=
  match e with
  | InvalidEndpoint => "webhook endpoint URL is not allowed"
  | ResolutionFailed => "webhook endpoint hostname could not be resolved"
  | NoAddresses => "webhook endpoint hostname resolved to no addresses"
  | NonPublicAddress => "webhook endpoint resolved to a non-public address"
  | ClientUnavailable => "webhook HTTP client is unavailable"
  end.

(** [gateway-application/src/outbox.rs] *)
Record PreviousSecret := mkPreviousSecret { ps_version : Z; ps_fingerprint : list byte }.
Record WebhookEndpoint := mkWebhookEndpoint {
  we_id : Z;                         (* Uuid *)
  we_merchant_id : Z;                (* Uuid *)
  we_url : string;
  we_secret_version : Z;             (* i32 *)
  we_secret_fingerprint : list byte; (* 32 bytes *)
  we_previous_secret : option PreviousSecret;
}.
Inductive DeliveryResult :=
  | Accepted (status duration_ms : Z)
  | Refused (status duration_ms : Z) (detail : string)
  | Unreachable (detail : string) (duration_ms : Z).

(** ** The parameters *)

(** The [url] crate. *)
Class UrlLib := {
  Url : Type;
  Url_parse : string -> option Url;
  url_scheme : Url -> string;
  url_host_str : Url -> option string;
  url_username : Url -> string;
  url_password : Url -> option string;
  url_query : Url -> option string;
  url_fragment : Url -> option string;
  url_port_or_known_default : Url -> option Z;
}.

(** What [build_client] asks of [reqwest]. *)
Record ClientConfig := mkClientConfig {
  cc_timeout : Z;                    (* milliseconds *)
  cc_connect_timeout : Z;
  cc_follow_redirects : bool;
  cc_https_only : bool;
  cc_use_proxy : bool;
  cc_user_agent : string;
  cc_resolve_to_addrs : option (string * list SocketAddr);
}.

(** The answers of [response.chunk()] in turn. *)
Inductive ChunkRead := ChunkData (bytes : list byte) | ChunkEnd | ChunkError.

Record ReqwestError := mkReqwestError { is_timeout : bool; is_connect : bool; is_body : bool }.

Section sender.
Context `{UrlLib} `{UuidLib}.

Record SentRequest := mkSentRequest {
  sr_client : ClientConfig;
  sr_url : Url;
  sr_headers : list (string * string);
  sr_body : list byte;
}.
Inductive SendResult :=
  | Response (status : Z) (chunks : list ChunkRead)
  | SendFailed (error : ReqwestError).

(** The resolver within its time limit, the client builder, the exchange of
    one request, and the text of a status. *)
Record Network := mkNetwork {
  nw_lookup_host : Z -> string -> Z -> option (list SocketAddr);
  nw_build : ClientConfig -> result string unit;
  nw_send : SentRequest -> SendResult;
  nw_status_text : Z -> string;
}.

Record HttpWebhookSender := mkHttpWebhookSender { hs_timeout : Z; hs_user_agent : string }.

(** ** Addresses *)

Definition is_public_ipv4 (ip : Ipv4Addr) : bool :=
  let '(Ipv4 a b c d) := ip in
  negb (((a =? 0) || (a =? 10) || (a =? 127) || in_range 224 255 a)
        || ((a =? 100) && in_range 64 127 b)
        || ((a =? 169) && (b =? 254))
        || ((a =? 172) && in_range 16 31 b)
        || ((a =? 192) && (b =? 0) && ((c =? 0) || (c =? 2)))
        || ((a =? 192) && (b =? 88) && (c =? 99))
        || ((a =? 192) && (b =? 168))
        || ((a =? 198) && in_range 18 19 b)
        || ((a =? 198) && (b =? 51) && (c =? 100))
        || ((a =? 203) && (b =? 0) && (c =? 113))).

(** [to_be_bytes] of a segment is its quotient and remainder by 256. *)
Definition mapped_ipv4 (ip : Ipv6Addr) : option Ipv4Addr :=
  let '(Ipv6 s0 s1 s2 s3 s4 s5 s6 s7) := ip in
  if (s0 =? 0) && (s1 =? 0) && (s2 =? 0) && (s3 =? 0) && (s4 =? 0) && (s5 =? 65535)
  then Some (Ipv4 (s6 / 256) (s6 mod 256) (s7 / 256) (s7 mod 256)) else None.

Definition is_public_ipv6 (ip : Ipv6Addr) : bool :=
  let '(Ipv6 s0 s1 s2 s3 s4 s5 s6 s7) := ip in
  if negb (in_range 0x2000 0x3fff s0) then false
  else
    let iana_special_2001 := (s0 =? 0x2001) && (s1 <=? 0x01ff) in
    let documentation_2001 := (s0 =? 0x2001) && (s1 =? 0x0db8) in
    let documentation_3fff := (s0 =? 0x3fff) && (s1 <=? 0x0fff) in
    negb iana_special_2001 && negb documentation_2001 && negb documentation_3fff.

Definition is_public_ip (ip : IpAddr) : bool :=
  match ip with
  | V4 ip => is_public_ipv4 ip
  | V6 ip => match mapped_ipv4 ip with
             | None => is_public_ipv6 ip
             | Some v4 => is_public_ipv4 v4
             end
  end.

Definition approve_answers (answers : list SocketAddr) : result SafeDeliveryError (list SocketAddr) :=
  let unique := btree_set SocketAddr_cmp answers in
  match unique with
  | [] => Err NoAddresses
  | _ =>
      if existsb (fun address => negb (SocketAddr_port address =? WEBHOOK_PORT)
                                 || negb (is_public_ip (SocketAddr_ip address))) unique
      then Err NonPublicAddress
      else Ok unique
  end.

(** ** The request *)

Definition validate_url (raw_url : string) : result SafeDeliveryError Url :=
  authority ← ok_or (strip_prefix "https://" raw_url) InvalidEndpoint;
  if bool_decide (authority = "") || bool_decide (is_Some (strip_prefix "/" authority))
  then Err InvalidEndpoint
  else
    url ← ok_or (Url_parse raw_url) InvalidEndpoint;
    if negb (String.eqb (url_scheme url) "https")
       || bool_decide (url_host_str url = None)
       || negb (bool_decide (url_username url = ""))
       || bool_decide (is_Some (url_password url))
       || bool_decide (is_Some (url_query url))
       || bool_decide (is_Some (url_fragment url))
       || negb (bool_decide (url_port_or_known_default url = Some WEBHOOK_PORT))
    then Err InvalidEndpoint
    else Ok url.

Definition validate_endpoint_url (raw_url : string) : result string unit :=
  map_err SafeDeliveryError_to_string ((fun _ => tt) <$> validate_url raw_url).

Definition client_config (timeout : Z) (user_agent : string)
    (pinned : option (string * list SocketAddr)) : ClientConfig :=
  {| cc_timeout := timeout; cc_connect_timeout := Z.min timeout 10000;
     cc_follow_redirects := false; cc_https_only := true; cc_use_proxy := false;
     cc_user_agent := user_agent; cc_resolve_to_addrs := pinned |}.
Definition build_client (nw : Network) (timeout : Z) (user_agent : string)
    (pinned : option (string * list SocketAddr)) : result SenderError ClientConfig :=
  let config := client_config timeout user_agent pinned in
  _ ← map_err Unusable (nw_build nw config); Ok config.

Definition HttpWebhookSender_new (nw : Network) (timeout : Z) (user_agent : string)
    : result SenderError HttpWebhookSender :=
  _ ← build_client nw timeout user_agent None; Ok (mkHttpWebhookSender timeout user_agent).

Definition approved_request (nw : Network) (self : HttpWebhookSender) (raw_url : string)
    : result SafeDeliveryError (ClientConfig * Url) :=
  parsed ← validate_url raw_url;
  host ← ok_or (url_host_str parsed) InvalidEndpoint;
  answers ← match parse_ip host with
            | Some ip => Ok [SocketAddr_new ip WEBHOOK_PORT]
            | None => ok_or (nw_lookup_host nw (Z.min DNS_TIMEOUT (hs_timeout self)) host WEBHOOK_PORT)
                            ResolutionFailed
            end;
  approved ← approve_answers answers;
  client ← map_err (fun _ => ClientUnavailable)
             (build_client nw (hs_timeout self) (hs_user_agent self) (Some (host, approved)));
  Ok (client, parsed).

(** ** The answer *)

Definition append_bounded (body chunk : list byte) : list byte * bool :=
  let remaining := (MAX_DETAIL_BYTES - length body)%nat in
  let body := body ++ take (Nat.min (length chunk) remaining) chunk in
  (body, (length body =? MAX_DETAIL_BYTES)%nat).

Fixpoint read_body (body : list byte) (chunks : list ChunkRead) : option (list byte) :=
  if (length body <? MAX_DETAIL_BYTES)%nat then
    match chunks with
    | ChunkData chunk :: chunks =>
        let '(body, full) := append_bounded body chunk in
        if full then Some body else read_body body chunks
    | ChunkError :: _ => None
    | ChunkEnd :: _ | [] => Some body
    end
  else Some body.
Definition bounded_response_body (chunks : list ChunkRead) : option string :=
  from_utf8_lossy <$> read_body [] chunks.

Definition safe_reqwest_error (e : ReqwestError) : string :=
  if is_timeout e then "webhook request timed out"
  else if is_connect e then "webhook endpoint could not be reached"
  else if is_body e then "webhook request body failed"
  else "webhook request failed".

Definition elapsed_ms (elapsed_millis : Z) : Z := default U32_MAX (u32_try_from elapsed_millis).

Definition truncate (value : string) : string := chars_take MAX_DETAIL_CHARS value.
Definition detail (nw : Network) (status : Z) (body : option string) : string :=
  match body with
  | Some body =>
      if bool_decide (trim body = "") then nw_status_text nw status
      else truncate (nw_status_text nw status +:+ ": " +:+ body)
  | None => nw_status_text nw status
  end.

Definition is_success (status : Z) : bool := in_range 200 299 status.

(** [deliver], with the requests it sent.  [elapsed] gives the milliseconds
    since the start at the end of the exchange, and [elapsed_refused] at the
    later reading of a refusal. *)
Definition deliver (nw : Network) (self : HttpWebhookSender) (elapsed elapsed_refused : Z)
    (endpoint : WebhookEndpoint) (event_id : Z) (body : list byte) (signature : string)
    : list SentRequest * DeliveryResult :=
  match approved_request nw self (we_url endpoint) with
  | Err error => ([], Unreachable (SafeDeliveryError_to_string error) (elapsed_ms elapsed))
  | Ok (client, url) =>
      let request :=
        {| sr_client := client; sr_url := url;
           sr_headers := [("content-type", "application/json"); ("gateway-signature", signature);
                          ("gateway-event-id", uuid_to_string event_id)];
           sr_body := body |} in
      ([request],
       match nw_send nw request with
       | Response status chunks =>
           if is_success status then Accepted status (elapsed_ms elapsed)
           else Refused status (elapsed_ms elapsed_refused)
                  (detail nw status (bounded_response_body chunks))
       | SendFailed error => Unreachable (safe_reqwest_error error) (elapsed_ms elapsed)
       end)
  end.
End sender.

(** * Lemmas *)

Lemma approve_answers_Ok answers approved :
  approve_answers answers = Ok approved ->
  approved <> [] /\ (forall s, s ∈ approved <-> s ∈ answers)
  /\ forall s, s ∈ approved -> SocketAddr_port s = WEBHOOK_PORT /\ is_public_ip (SocketAddr_ip s) = true.
Proof.
  unfold approve_answers. intros Ha.
  assert (Hset : forall s, s ∈ btree_set SocketAddr_cmp answers <-> s ∈ answers)
    by (intros s; apply btree_set_elem, SocketAddr_cmp_eq).
  destruct (btree_set SocketAddr_cmp answers) as [|x l]; [done|].
  destruct (existsb _ _) eqn:Hex; [done|]. simplify_eq. split_and!; [done..|].
  intros s Hs.
  destruct ((SocketAddr_port s =? WEBHOOK_PORT) && is_public_ip (SocketAddr_ip s)) eqn:E.
  { apply andb_prop in E as [?%Z.eqb_eq ?]. done. }
  exfalso. rewrite <- not_true_iff_false in Hex. apply Hex. apply existsb_exists.
  exists s. split; [by apply list_elem_of_In|]. by rewrite <- negb_andb, E.
Qed.

Lemma approve_answers_Err answers :
  (answers = [] -> approve_answers answers = Err NoAddresses)
  /\ (forall s, s ∈ answers -> is_public_ip (SocketAddr_ip s) = false ->
        approve_answers answers = Err NonPublicAddress).
Proof.
  split; [by intros ->|]. intros s Hs Hip. unfold approve_answers.
  assert (s ∈ btree_set SocketAddr_cmp answers) as Hin
    by (by apply btree_set_elem; [apply SocketAddr_cmp_eq|]).
  destruct (btree_set SocketAddr_cmp answers) as [|x l] eqn:E; [by apply not_elem_of_nil in Hin|].
  rewrite (proj2 (existsb_exists _ _)); [done|].
  exists s. split; [by apply list_elem_of_In|]. by rewrite Hip, orb_true_r.
Qed.

(** The bytes a body stream delivers before it ends. *)
Fixpoint stream_data (chunks : list ChunkRead) : list byte :=
  match chunks with
  | ChunkData c :: chunks => c ++ stream_data chunks
  | _ => []
  end.

Lemma read_body_spec body chunks kept :
  (length body <= MAX_DETAIL_BYTES)%nat -> read_body body chunks = Some kept ->
  kept = take MAX_DETAIL_BYTES (body ++ stream_data chunks).
Proof.
  revert body. induction chunks as [|ch chunks IH]; intros body Hb Hr.
  - cbn [read_body stream_data] in *. rewrite app_nil_r, take_ge by lia. by repeat case_match; simplify_eq.
  - cbn [read_body] in Hr. destruct (Nat.ltb_spec (length body) MAX_DETAIL_BYTES) as [Hlt|Hge].
    2:{ simplify_eq. rewrite take_app_le, take_ge by lia. done. }
    destruct ch as [c| |]; cbn [stream_data]; simplify_eq; [|by rewrite app_nil_r, take_ge by lia].
    unfold append_bounded in Hr. cbv zeta in Hr.
    set (k := take _ c) in Hr.
    assert (k = take (MAX_DETAIL_BYTES - length body) c) as Hk.
    { unfold k. destruct (Nat.le_ge_cases (length c) (MAX_DETAIL_BYTES - length body)) as [Hle|Hle].
      - rewrite Nat.min_l, !take_ge by lia. done.
      - by rewrite Nat.min_r by lia. }
    destruct (Nat.eqb_spec (length (body ++ k)) MAX_DETAIL_BYTES) as [Hfull|Hnf].
    + injection Hr as <-. rewrite take_app, (take_ge body), take_app_le; [by rewrite Hk| |lia].
      rewrite Hk, length_app, length_take in Hfull. lia.
    + rewrite length_app, Hk, length_take in Hnf.
      assert (k = c) as Hkc by (rewrite Hk; apply take_ge; lia).
      rewrite Hkc in Hr. apply IH in Hr; [by rewrite app_assoc|]. rewrite length_app. lia.
Qed.

(** A read error shows only before the budget is used up. *)
Lemma read_body_None body chunks :
  (length body <= MAX_DETAIL_BYTES)%nat -> read_body body chunks = None ->
  (length (body ++ stream_data chunks) < MAX_DETAIL_BYTES)%nat /\ ChunkError ∈ chunks.
Proof.
  revert body. induction chunks as [|ch chunks IH]; intros body Hb Hr.
  - cbn [read_body] in Hr. by case_match.
  - cbn [read_body] in Hr. destruct (Nat.ltb_spec (length body) MAX_DETAIL_BYTES) as [Hlt|Hge]; [|done].
    destruct ch as [c| |]; [|done|].
    2:{ cbn [stream_data]. rewrite app_nil_r. split; [done|left]. }
    unfold append_bounded in Hr. cbv zeta in Hr.
    destruct (Nat.eqb_spec (length (body ++ take (Nat.min (length c) (MAX_DETAIL_BYTES - length body)) c))
      MAX_DETAIL_BYTES) as [|Hnf]; [done|].
    rewrite length_app, length_take in Hnf.
    rewrite take_ge in Hr by lia. apply IH in Hr as [Hl Hin]; [|rewrite length_app; lia].
    cbn [stream_data]. rewrite app_assoc. split; [done|by right].
Qed.

Lemma chars_take_count n s : chars_count (chars_take n s) <= Z.of_nat n.
Proof.
  revert n. induction s as [|c s IH]; intros n; [by destruct n|]. cbn [chars_take].
  destruct (in_range 0x80 0xBF (ascii_Z c)) eqn:E.
  - specialize (IH n). unfold chars_count in *.
    cbn [list_ascii_of_string List.filter]. by rewrite E.
  - destruct n as [|n]; [done|]. specialize (IH n). unfold chars_count in *.
    cbn [list_ascii_of_string List.filter]. rewrite E. cbn [negb length]. lia.
Qed.

(** ** Reserved networks

    The blocks as an operator would write them: a base address and a prefix
    length. *)

Definition v4_value (ip : Ipv4Addr) : Z :=
  let '(Ipv4 a b c d) := ip in a * 2 ^ 24 + b * 2 ^ 16 + c * 2 ^ 8 + d.
Definition in_cidr (ip : Ipv4Addr) (block : Ipv4Addr * Z) : Prop :=
  v4_value ip / 2 ^ (32 - block.2) = v4_value block.1 / 2 ^ (32 - block.2).

Definition RESERVED_V4 : list (Ipv4Addr * Z) :=
  [ (Ipv4 0 0 0 0, 8); (Ipv4 10 0 0 0, 8); (Ipv4 100 64 0 0, 10); (Ipv4 127 0 0 0, 8);
    (Ipv4 169 254 0 0, 16); (Ipv4 172 16 0 0, 12); (Ipv4 192 0 0 0, 24); (Ipv4 192 0 2 0, 24);
    (Ipv4 192 88 99 0, 24); (Ipv4 192 168 0 0, 16); (Ipv4 198 18 0 0, 15); (Ipv4 198 51 100 0, 24);
    (Ipv4 203 0 113 0, 24); (Ipv4 224 0 0 0, 4); (Ipv4 240 0 0 0, 4) ].

(** The reserved blocks as conditions on the octets. *)
Lemma in_cidr_octets a b c d x y z n :
  v4_wf (Ipv4 a b c d) -> v4_wf (Ipv4 x y z 0) ->
  (in_cidr (Ipv4 a b c d) (Ipv4 x y z 0, 8) <-> a = x)
  /\ (in_cidr (Ipv4 a b c d) (Ipv4 x y z 0, 16) <-> a = x /\ b = y)
  /\ (in_cidr (Ipv4 a b c d) (Ipv4 x y z 0, 24) <-> a = x /\ b = y /\ c = z)
  /\ (0 <= n <= 8 -> in_cidr (Ipv4 a b c d) (Ipv4 x y z 0, 8 + n) <-> a = x /\ b / 2 ^ (8 - n) = y / 2 ^ (8 - n))
  /\ (in_cidr (Ipv4 a b c d) (Ipv4 x y z 0, 4) <-> a / 16 = x / 16).
Proof.
  intros Ha Hx. unfold in_cidr. cbn [fst snd v4_value v4_wf] in *.
  assert (H24 : forall a b c d, 0 <= a < 256 /\ 0 <= b < 256 /\ 0 <= c < 256 /\ 0 <= d < 256 ->
    (a * 2 ^ 24 + b * 2 ^ 16 + c * 2 ^ 8 + d) / 2 ^ 24 = a) by (intros; symmetry; apply (Z.div_unique _ _ _ (b0 * 2 ^ 16 + c0 * 2 ^ 8 + d0)); lia).
  assert (H16 : forall a b c d, 0 <= a < 256 /\ 0 <= b < 256 /\ 0 <= c < 256 /\ 0 <= d < 256 ->
    (a * 2 ^ 24 + b * 2 ^ 16 + c * 2 ^ 8 + d) / 2 ^ 16 = a * 256 + b) by (intros; symmetry; apply (Z.div_unique _ _ _ (c0 * 2 ^ 8 + d0)); lia).
  assert (H8 : forall a b c d, 0 <= a < 256 /\ 0 <= b < 256 /\ 0 <= c < 256 /\ 0 <= d < 256 ->
    (a * 2 ^ 24 + b * 2 ^ 16 + c * 2 ^ 8 + d) / 2 ^ 8 = a * 65536 + b * 256 + c) by (intros; symmetry; apply (Z.div_unique _ _ _ d0); lia).
  change (32 - 8) with 24. change (32 - 16) with 16. change (32 - 24) with 8. change (32 - 4) with (24 + 4).
  split_and!.
  - rewrite !H24 by lia. done.
  - rewrite !H16 by lia. lia.
  - rewrite !H8 by lia. lia.
  - intros Hn. replace (32 - (8 + n)) with (16 + (8 - n)) by lia.
    rewrite (Z.pow_add_r 2 16 (8 - n)) by lia. rewrite <- !Z.div_div by lia. rewrite !H16 by lia.
    replace 256 with (2 ^ n * 2 ^ (8 - n)) by (rewrite <- Z.pow_add_r by lia; by replace (n + (8 - n)) with 8 by lia).
    assert (0 < 2 ^ (8 - n)) by (apply Z.pow_pos_nonneg; lia). assert (0 < 2 ^ n) by (apply Z.pow_pos_nonneg; lia).
    assert (2 ^ n * 2 ^ (8 - n) = 256) by (rewrite <- Z.pow_add_r by lia; by replace (n + (8 - n)) with 8 by lia).
    rewrite !Z.mul_assoc, !Z.div_add_l by lia.
    assert (forall v, 0 <= v < 256 -> 0 <= v / 2 ^ (8 - n) < 2 ^ n) as Hq
      by (intros v Hv; split; [apply Z.div_pos; lia|apply Z.div_lt_upper_bound; lia]).
    pose proof (Hq b ltac:(lia)). pose proof (Hq y ltac:(lia)). split; [|intros [-> ->]; done].
    intros Heq. assert (a = x) by nia. split; [done|]. subst. lia.
  - rewrite (Z.pow_add_r 2 24 4) by lia. rewrite <- !Z.div_div by lia. by rewrite !H24 by lia.
Qed.

Lemma div_interval v k lo : 0 < k -> (v / k = lo <-> k * lo <= v <= k * lo + k - 1).
Proof.
  intros Hk. pose proof (Z.div_mod v k ltac:(lia)). pose proof (Z.mod_pos_bound v k Hk).
  split; [intros; nia|]. intros Hv. symmetry. apply (Z.div_unique _ _ _ (v - k * lo)); lia.
Qed.

Lemma is_public_ipv4_spec ip :
  v4_wf ip -> (is_public_ipv4 ip = true <-> Forall (fun block => ~ in_cidr ip block) RESERVED_V4).
Proof.
  destruct ip as [a b c d]. intros Hwf. unfold RESERVED_V4. rewrite !Forall_cons, Forall_nil.
  assert (H8 : forall x y z, v4_wf (Ipv4 x y z 0) -> in_cidr (Ipv4 a b c d) (Ipv4 x y z 0, 8) <-> a = x)
    by (intros x y z Hx; apply (in_cidr_octets a b c d x y z 0 Hwf Hx)).
  assert (H16 : forall x y z, v4_wf (Ipv4 x y z 0) ->
    in_cidr (Ipv4 a b c d) (Ipv4 x y z 0, 16) <-> a = x /\ b = y)
    by (intros x y z Hx; apply (in_cidr_octets a b c d x y z 0 Hwf Hx)).
  assert (H24 : forall x y z, v4_wf (Ipv4 x y z 0) ->
    in_cidr (Ipv4 a b c d) (Ipv4 x y z 0, 24) <-> a = x /\ b = y /\ c = z)
    by (intros x y z Hx; apply (in_cidr_octets a b c d x y z 0 Hwf Hx)).
  assert (H4 : forall x y z, v4_wf (Ipv4 x y z 0) ->
    in_cidr (Ipv4 a b c d) (Ipv4 x y z 0, 4) <-> 16 * (x / 16) <= a <= 16 * (x / 16) + 15).
  { intros x y z Hx. rewrite (proj2 (proj2 (proj2 (proj2 (in_cidr_octets a b c d x y z 0 Hwf Hx))))).
    rewrite div_interval by lia. lia. }
  assert (Hn : forall n x y z, 0 <= n <= 8 -> v4_wf (Ipv4 x y z 0) ->
    in_cidr (Ipv4 a b c d) (Ipv4 x y z 0, 8 + n)
    <-> a = x /\ 2 ^ (8 - n) * (y / 2 ^ (8 - n)) <= b <= 2 ^ (8 - n) * (y / 2 ^ (8 - n)) + 2 ^ (8 - n) - 1).
  { intros n x y z Hn Hx. rewrite (proj1 (proj2 (proj2 (proj2 (in_cidr_octets a b c d x y z n Hwf Hx))))) by done.
    rewrite div_interval by (apply Z.pow_pos_nonneg; lia). done. }
  pose proof (Hn 2 100 64 0 ltac:(lia) ltac:(cbn; lia)) as Hcgn.
  pose proof (Hn 4 172 16 0 ltac:(lia) ltac:(cbn; lia)) as H172.
  pose proof (Hn 7 198 18 0 ltac:(lia) ltac:(cbn; lia)) as H198.
  cbn in Hcgn, H172, H198. rewrite Hcgn, H172, H198, !H8, !H16, !H24, !H4 by (cbn; lia).
  change (16 * (224 / 16) + 15) with 239. change (16 * (240 / 16) + 15) with 255.
  change (16 * (224 / 16)) with 224. change (16 * (240 / 16)) with 240.
  assert (Hmulti : 224 <= a /\ a <= 255 <-> 224 <= a <= 239 \/ 240 <= a <= 255) by lia.
  unfold is_public_ipv4, in_range. rewrite negb_true_iff, <- not_true_iff_false.
  rewrite !orb_true_iff, !andb_true_iff, !orb_true_iff, !Z.eqb_eq, !Z.leb_le, Hmulti. tauto.
Qed.

Lemma mapped_ipv4_wf ip v4 : v6_wf ip -> mapped_ipv4 ip = Some v4 -> v4_wf v4.
Proof.
  destruct ip as [s0 s1 s2 s3 s4 s5 s6 s7]. unfold v6_wf. rewrite !Forall_cons. intros Hwf Hm.
  unfold mapped_ipv4 in Hm. destruct (_ && _); simplify_eq. unfold v4_wf.
  pose proof (Z.mod_pos_bound s6 256 ltac:(lia)). pose proof (Z.mod_pos_bound s7 256 ltac:(lia)).
  split_and!; try lia; first [apply Z.div_pos; lia|apply Z.div_lt_upper_bound; lia].
Qed.

(** ** Addresses of version 6 *)

Definition v6_value (ip : Ipv6Addr) : Z :=
  let '(Ipv6 s0 s1 s2 s3 s4 s5 s6 s7) := ip in
  s0 * 2 ^ 112 + s1 * 2 ^ 96 + s2 * 2 ^ 80 + s3 * 2 ^ 64 + s4 * 2 ^ 48 + s5 * 2 ^ 32 + s6 * 2 ^ 16 + s7.
Definition in_cidr6 (ip : Ipv6Addr) (block : Ipv6Addr * Z) : Prop :=
  v6_value ip / 2 ^ (128 - block.2) = v6_value block.1 / 2 ^ (128 - block.2).

(** Global unicast, and the blocks of the IANA special-purpose registry that
    are not globally reachable, with multicast; 6to4 (2002::/16) is not among
    them: the sender lets it through. *)
Definition GLOBAL_UNICAST : Ipv6Addr * Z := (Ipv6 0x2000 0 0 0 0 0 0 0, 3).
Definition RESERVED_V6 : list (Ipv6Addr * Z) :=
  [ (Ipv6 0 0 0 0 0 0 0 1, 128); (Ipv6 0 0 0 0 0 0 0 0, 128); (Ipv6 0x64 0xff9b 0 0 0 0 0 0, 96);
    (Ipv6 0x64 0xff9b 1 0 0 0 0 0, 48); (Ipv6 0x100 0 0 0 0 0 0 0, 64); (Ipv6 0x100 0 0 1 0 0 0 0, 64);
    (Ipv6 0x2001 0 0 0 0 0 0 0, 23); (Ipv6 0x2001 0xdb8 0 0 0 0 0 0, 32); (Ipv6 0x3fff 0 0 0 0 0 0 0, 20);
    (Ipv6 0x5f00 0 0 0 0 0 0 0, 16); (Ipv6 0xfc00 0 0 0 0 0 0 0, 7); (Ipv6 0xfe80 0 0 0 0 0 0 0, 10);
    (Ipv6 0xff00 0 0 0 0 0 0 0, 8) ].

(** The version 4 address that ::ffff:0:0/96 maps. *)
Definition maps (v6 : Ipv6Addr) (v4 : Ipv4Addr) : Prop :=
  v4_wf v4 /\ v6_value v6 = 0xffff * 2 ^ 32 + v4_value v4.

(** An address a delivery may be sent to: of version 4, or mapped from it,
    outside every reserved block; of version 6, global unicast outside every
    reserved block. *)
Definition deliverable (ip : IpAddr) : Prop :=
  let v4_ok v4 := Forall (fun block => ~ in_cidr v4 block) RESERVED_V4 in
  match ip with
  | V4 v4 => v4_ok v4
  | V6 v6 => (exists v4, maps v6 v4 /\ v4_ok v4)
      \/ (in_cidr6 v6 GLOBAL_UNICAST /\ Forall (fun block => ~ in_cidr6 v6 block) RESERVED_V6)
  end.

(** The top segments decide a block of at most 32 bits. *)
Lemma in_cidr6_top s0 s1 s2 s3 s4 s5 s6 s7 x y n :
  v6_wf (Ipv6 s0 s1 s2 s3 s4 s5 s6 s7) -> 0 <= n <= 32 ->
  in_cidr6 (Ipv6 s0 s1 s2 s3 s4 s5 s6 s7) (Ipv6 x y 0 0 0 0 0 0, n)
  <-> (s0 * 2 ^ 16 + s1) / 2 ^ (32 - n) = (x * 2 ^ 16 + y) / 2 ^ (32 - n).
Proof.
  unfold v6_wf, in_cidr6. rewrite !Forall_cons. intros Hwf Hn. cbn [fst snd v6_value].
  assert (forall a b c, 0 <= c < 2 ^ 96 -> (a * 2 ^ 112 + b * 2 ^ 96 + c) / 2 ^ (128 - n)
    = (a * 2 ^ 16 + b) / 2 ^ (32 - n)) as Htop.
  { intros a b c Hc. replace (128 - n) with (96 + (32 - n)) by lia. rewrite Z.pow_add_r by lia.
    rewrite <- Z.div_div by (try apply Z.pow_pos_nonneg; lia). f_equal. symmetry. apply (Z.div_unique _ _ _ c); lia. }
  pose proof (Htop s0 s1 (s2 * 2 ^ 80 + s3 * 2 ^ 64 + s4 * 2 ^ 48 + s5 * 2 ^ 32 + s6 * 2 ^ 16 + s7) ltac:(lia)) as E1.
  pose proof (Htop x y (0 * 2 ^ 80 + 0 * 2 ^ 64 + 0 * 2 ^ 48 + 0 * 2 ^ 32 + 0 * 2 ^ 16 + 0) ltac:(lia)) as E2.
  rewrite !Z.add_assoc in E1, E2. by rewrite E1, E2.
Qed.

(** A block outside 2000::/3 has no address of it. *)
Lemma outside_global v6 base n :
  in_cidr6 v6 GLOBAL_UNICAST -> 3 <= n <= 128 -> v6_value base / 2 ^ 125 <> 1 -> ~ in_cidr6 v6 (base, n).
Proof.
  unfold in_cidr6, GLOBAL_UNICAST. cbn [fst snd]. change (128 - 3) with 125. intros Hg Hn Hb Hin. apply (f_equal (fun q => q / 2 ^ (n - 3))) in Hin.
  rewrite !Z.div_div, <- !Z.pow_add_r in Hin by (try apply Z.pow_pos_nonneg; lia).
  replace (128 - n + (n - 3)) with 125 in Hin by lia. rewrite <- Hin in Hb. apply Hb. rewrite Hg. reflexivity.
Qed.

Lemma mapped_ipv4_spec v6 v4 : v6_wf v6 -> mapped_ipv4 v6 = Some v4 <-> maps v6 v4.
Proof.
  destruct v6 as [s0 s1 s2 s3 s4 s5 s6 s7], v4 as [a b c d]. intros Hwf. pose proof Hwf as Hseg.
  unfold v6_wf in Hseg. rewrite !Forall_cons in Hseg. split.
  - intros Hm. split; [by eapply mapped_ipv4_wf|]. unfold mapped_ipv4 in Hm. destruct (_ && _) eqn:Hb; [|done].
    bool_to_prop. injection Hm as <- <- <- <-. cbn [v6_value v4_value].
    pose proof (Z.div_mod s6 256 ltac:(lia)). pose proof (Z.div_mod s7 256 ltac:(lia)). subst. lia.
  - intros [Hv4 Hv]. cbn [v4_wf v6_value v4_value] in *.
    assert (s0 = 0 /\ s1 = 0 /\ s2 = 0 /\ s3 = 0 /\ s4 = 0 /\ s5 = 65535) as (-> & -> & -> & -> & -> & ->) by lia.
    cbn [mapped_ipv4 Z.eqb Pos.eqb andb]. assert (s6 = a * 256 + b /\ s7 = c * 256 + d) as [-> ->] by lia.
    f_equal. f_equal; [rewrite Z.div_add_l, Z.div_small by lia; lia|rewrite Z.add_comm, Z.mod_add, Z.mod_small by lia; lia|
      rewrite Z.div_add_l, Z.div_small by lia; lia|rewrite Z.add_comm, Z.mod_add, Z.mod_small by lia; lia].
Qed.

Lemma is_public_ipv6_spec v6 :
  v6_wf v6 -> (is_public_ipv6 v6 = true
    <-> in_cidr6 v6 GLOBAL_UNICAST /\ Forall (fun block => ~ in_cidr6 v6 block) RESERVED_V6).
Proof.
  destruct v6 as [s0 s1 s2 s3 s4 s5 s6 s7]. intros Hwf. pose proof Hwf as Hseg.
  unfold v6_wf in Hseg. rewrite !Forall_cons in Hseg. assert (0 <= s0 < 65536 /\ 0 <= s1 < 65536) as [H0' H1'] by lia.
  clear Hseg. set (v6 := Ipv6 s0 s1 s2 s3 s4 s5 s6 s7) in *.
  assert (in_cidr6 v6 GLOBAL_UNICAST <-> 0x2000 <= s0 <= 0x3fff) as Hg.
  { unfold v6, GLOBAL_UNICAST. rewrite in_cidr6_top by (done || lia). change (32 - 3) with 29.
    change ((0x2000 * 2 ^ 16 + 0) / 2 ^ 29) with 1. rewrite div_interval by lia. lia. }
  assert (in_cidr6 v6 (Ipv6 0x2001 0 0 0 0 0 0 0, 23) <-> s0 = 0x2001 /\ s1 <= 0x1ff) as H23.
  { unfold v6. rewrite in_cidr6_top by (done || lia). change (32 - 23) with 9.
    change ((0x2001 * 2 ^ 16 + 0) / 2 ^ 9) with 1048704. rewrite div_interval by lia. lia. }
  assert (in_cidr6 v6 (Ipv6 0x2001 0xdb8 0 0 0 0 0 0, 32) <-> s0 = 0x2001 /\ s1 = 0xdb8) as H32.
  { unfold v6. rewrite in_cidr6_top by (done || lia). change (32 - 32) with 0.
    change ((0x2001 * 2 ^ 16 + 0xdb8) / 2 ^ 0) with 536939960. rewrite div_interval by lia. lia. }
  assert (in_cidr6 v6 (Ipv6 0x3fff 0 0 0 0 0 0 0, 20) <-> s0 = 0x3fff /\ s1 <= 0xfff) as H20.
  { unfold v6. rewrite in_cidr6_top by (done || lia). change (32 - 20) with 12.
    change ((0x3fff * 2 ^ 16 + 0) / 2 ^ 12) with 262128. rewrite div_interval by lia. lia. }
  unfold RESERVED_V6. rewrite !Forall_cons, Forall_nil, H23, H32, H20.
  assert (is_public_ipv6 v6 = true <-> 0x2000 <= s0 <= 0x3fff /\ ~ (s0 = 0x2001 /\ s1 <= 0x1ff)
    /\ ~ (s0 = 0x2001 /\ s1 = 0xdb8) /\ ~ (s0 = 0x3fff /\ s1 <= 0xfff)) as ->.
  { unfold v6, is_public_ipv6. destruct (in_range 0x2000 0x3fff s0) eqn:Hr; cbn [negb].
    - apply in_range_spec in Hr. rewrite !andb_true_iff, !negb_true_iff, !andb_false_iff, !Z.eqb_neq, !Z.leb_gt. lia.
    - split; [done|]. intros [Hin _]. apply in_range_spec in Hin. congruence. }
  rewrite <- Hg. split; [|tauto]. intros (Hglobal & Hrest). split; [done|].
  split_and!; try tauto; (apply outside_global; [done|lia|vm_compute; discriminate]).
Qed.

Lemma is_public_ip_spec ip : ip_wf ip -> (is_public_ip ip = true <-> deliverable ip).
Proof.
  destruct ip as [v4|v6]; cbn [is_public_ip ip_wf deliverable]; intros Hwf; [by apply is_public_ipv4_spec|].
  destruct (mapped_ipv4 v6) as [v4|] eqn:Hm.
  - apply mapped_ipv4_spec in Hm as [Hv4 Hv]; [|done]. rewrite is_public_ipv4_spec by done. split.
    + intros Hok. left. by exists v4.
    + intros [(v4' & [Hv4' Hv'] & Hok)|[Hg _]].
      * assert (v4' = v4) as <-; [|done]. destruct v4 as [a b c d], v4' as [a' b' c' d']. cbn [v4_value v4_wf] in *.
        assert (a = a' /\ b = b' /\ c = c' /\ d = d') by lia. naive_solver.
      * unfold in_cidr6 in Hg. rewrite Hv in Hg. destruct v4 as [a b c d]. cbn [fst snd v4_value v4_wf GLOBAL_UNICAST] in *.
        rewrite Z.div_small in Hg by lia. by vm_compute in Hg.
  - rewrite is_public_ipv6_spec by done. split; [by right|]. intros [(v4 & Hmaps & _)|?]; [|done].
    apply mapped_ipv4_spec in Hmaps; [|done]. congruence.
Qed.

Section sender_properties.
Context `{UrlLib} `{UuidLib}.

Lemma validate_url_Ok raw url :
  validate_url raw = Ok url ->
  Url_parse raw = Some url /\ url_scheme url = "https" /\ is_Some (url_host_str url)
  /\ url_username url = "" /\ url_password url = None /\ url_query url = None
  /\ url_fragment url = None /\ url_port_or_known_default url = Some WEBHOOK_PORT.
Proof.
  unfold validate_url. unfold_res. destruct (strip_prefix _ raw); [|done].
  destruct (_ || _); [done|]. destruct (Url_parse raw) as [u|]; [|done].
  destruct (_ || _) eqn:E; [done|]. intros [= <-]. bool_to_prop. apply String.eqb_eq in H1.
  split_and!; try done; try (by apply eq_None_not_Some). by destruct (url_host_str u).
Qed.

(** C26: A delivery sends at most one request.  It is sent only over HTTPS to
    port 443, through a client that follows no redirect, uses no proxy and
    connects only to the approved addresses; every one of them is a version 4
    address outside the reserved networks, in its own form or mapped, or a
    global unicast address of version 6 outside the reserved ones (6to4
    addresses, 2002::/16, are let through and are not counted as reserved
    here).  The request carries the given body and signature.  The event counts
    as accepted exactly when that request got a success status. *)
Theorem delivery_reaches_only_public_addresses nw self e1 e2 endpoint id body sig :
  (forall limit host port l, nw_lookup_host nw limit host port = Some l ->
     Forall (fun s => ip_wf (SocketAddr_ip s)) l) ->
  let delivery := deliver nw self e1 e2 endpoint id body sig in
  (delivery.1 = [] /\ exists detail ms, delivery.2 = Unreachable detail ms)
  \/ exists req host addresses,
       delivery.1 = [req] /\ sr_body req = body /\ ("gateway-signature", sig) ∈ sr_headers req
       /\ url_scheme (sr_url req) = "https" /\ url_port_or_known_default (sr_url req) = Some WEBHOOK_PORT
       /\ url_host_str (sr_url req) = Some host
       /\ cc_follow_redirects (sr_client req) = false /\ cc_use_proxy (sr_client req) = false
       /\ cc_https_only (sr_client req) = true
       /\ cc_resolve_to_addrs (sr_client req) = Some (host, addresses) /\ addresses <> []
       /\ Forall (fun s => SocketAddr_port s = WEBHOOK_PORT /\ deliverable (SocketAddr_ip s)) addresses
       /\ (forall st, (exists ms, delivery.2 = Accepted st ms)
             <-> 200 <= st <= 299 /\ exists chunks, nw_send nw req = Response st chunks).
Proof.
  intros Hlookup. cbv zeta. unfold deliver. destruct (approved_request nw self _) as [[client url]|err] eqn:Ha.
  2:{ left. eauto. }
  right. unfold approved_request in Ha.
  destruct (validate_url (we_url endpoint)) as [u|] eqn:Hv; [|done]. cbn [mbind result_bind] in Ha.
  apply validate_url_Ok in Hv as (_ & Hs & [host Hh] & _ & _ & _ & _ & Hp).
  rewrite Hh in Ha. cbn [ok_or mbind result_bind] in Ha.
  destruct (match parse_ip host with Some _ => _ | None => _ end) as [answers|] eqn:Hans; [|done].
  assert (Forall (fun s => ip_wf (SocketAddr_ip s)) answers) as Hwf.
  { destruct (parse_ip host) as [ip|] eqn:Hip.
    - injection Hans as <-. apply Forall_singleton. destruct ip; by apply (parse_ip_wf _ _ Hip).
    - destruct (nw_lookup_host _ _ _ _) eqn:Hl; simplify_eq/=. by eapply Hlookup. }
  cbn [mbind result_bind] in Ha.
  destruct (approve_answers answers) as [approved|] eqn:Happ; [|done].
  apply approve_answers_Ok in Happ as (Hne & Hin & Hok). cbn [mbind result_bind] in Ha.
  unfold build_client in Ha. destruct (nw_build nw _); [|done]. cbn in Ha. injection Ha as <- <-.
  eexists _, host, approved. split_and!; try done; [set_solver| |].
  - apply Forall_forall. intros s Hs'. destruct (Hok s Hs') as [? Hpub]. split; [done|].
    apply is_public_ip_spec; [|done]. rewrite Forall_forall in Hwf. by apply Hwf, Hin.
  - intros st. cbn [snd]. destruct (nw_send nw _) as [status chunks|] eqn:Hsend; [|split; [intros [? ?]; done|]].
    2:{ intros (_ & chunks & ?). done. }
    destruct (is_success status) eqn:Hst; unfold is_success in Hst.
    + apply in_range_spec in Hst. split.
      * intros (ms & [= -> _]). split; [done|]. by exists chunks.
      * intros (_ & chunks' & [= -> _]). by eexists.
    + split; [intros (ms & ?); done|]. intros (Hr%in_range_spec & chunks' & [= -> _]). congruence.
Qed.

(** Registration accepts an endpoint that delivery always refuses: the
    check made when an endpoint is registered does not look at a literal
    address, so a URL of the loopback address is accepted and no event is
    ever sent to it. *)
Theorem registration_accepts_undeliverable nw self raw url :
  validate_url raw = Ok url -> url_host_str url = Some "127.0.0.1" ->
  validate_endpoint_url raw = Ok tt /\ approved_request nw self raw = Err NonPublicAddress.
Proof.
  intros Hv Hh. unfold validate_endpoint_url, approved_request. rewrite Hv.
  cbn [mbind result_bind]. rewrite Hh. by split.
Qed.
End sender_properties.

(** Of a rejecting peer's answer at most 2048 bytes are kept: exactly the
    first 2048 the stream delivers, and reading fails only on a stream error
    met before the budget is used up.  What is stored of it never exceeds 500
    characters. *)
Theorem refusal_detail_is_bounded `{UrlLib} (nw : Network) status chunks :
  (forall kept, read_body [] chunks = Some kept -> kept = take MAX_DETAIL_BYTES (stream_data chunks))
  /\ (read_body [] chunks = None ->
        (length (stream_data chunks) < MAX_DETAIL_BYTES)%nat /\ ChunkError ∈ chunks)
  /\ (forall text, bounded_response_body chunks = Some text ->
        (String.length text <= 3 * MAX_DETAIL_BYTES)%nat
        /\ (trim text <> "" ->
            chars_count (detail nw status (Some text)) <= Z.of_nat MAX_DETAIL_CHARS)).
Proof.
  split_and!.
  - intros kept Hk. by apply read_body_spec in Hk; [|unfold MAX_DETAIL_BYTES; simpl; lia].
  - intros Hn. by apply read_body_None in Hn; [|unfold MAX_DETAIL_BYTES; simpl; lia].
  - intros text Ht. unfold bounded_response_body in Ht. destruct (read_body [] chunks) as [kept|] eqn:Hk; [|done].
    injection Ht as <-. split.
    + apply read_body_spec in Hk; [|unfold MAX_DETAIL_BYTES; simpl; lia]. subst.
      etransitivity; [apply from_utf8_lossy_size|]. rewrite length_take. lia.
    + intros Hne. unfold detail. rewrite bool_decide_eq_false_2 by done. apply chars_take_count.
Qed.

(** The address test that guards deliveries lets 6to4 addresses through,
    although they lie in a special-purpose block inside [2000::/3]: the 6to4
    form of the loopback address and of a private address count as public. *)
Theorem six_to_four_counts_as_public :
  is_public_ip (V6 (Ipv6 0x2002 0x7f00 0x0001 0 0 0 0 1)) = true
  /\ is_public_ip (V6 (Ipv6 0x2002 0x0a00 0x0001 0 0 0 0 1)) = true
  /\ is_public_ip (V4 (Ipv4 127 0 0 1)) = false /\ is_public_ip (V4 (Ipv4 10 0 0 1)) = false.
Proof. by vm_compute. Qed.

(** ** A concrete network *)

Import ReferenceInstances.

Fixpoint before_slash (s : string) : string :=
  match s with
  | EmptyString => EmptyString
  | String c t => if Ascii.eqb c "/" then EmptyString else String c (before_slash t)
  end.

(** A URL parser good for plain [https://host/path] text. *)
#[local] Instance url_reference : UrlLib := {|
  Url := string;
  Url_parse s := before_slash <$> strip_prefix "https://" s;
  url_scheme _ := "https"; url_host_str u := Some u; url_username _ := ""; url_password _ := None;
  url_query _ := None; url_fragment _ := None; url_port_or_known_default _ := Some 443 |}.

Definition sample_network : Network := {|
  nw_lookup_host _ _ port := Some [SockV4 (Ipv4 93 184 216 34) port];
  nw_build _ := Ok tt; nw_send _ := Response 200 []; nw_status_text := dec_signed |}.
Definition sample_sender : HttpWebhookSender :=
  {| hs_timeout := 1000; hs_user_agent := "gateway" |}.
Definition sample_endpoint : WebhookEndpoint :=
  {| we_id := 1; we_merchant_id := 2; we_url := "https://shop.example/hook"; we_secret_version := 1;
     we_secret_fingerprint := []; we_previous_secret := None |}.

Lemma delivery_reaches_only_public_addresses_witness :
  exists req, (deliver sample_network sample_sender 5 5 sample_endpoint 3 [x01] "t=1,v1=00").1 = [req].
Proof.
  destruct (delivery_reaches_only_public_addresses sample_network sample_sender 5 5 sample_endpoint 3
    [x01] "t=1,v1=00") as [[Hnil _]|(req & _ & _ & Hs & _)].
  - intros limit host port l [= <-]. constructor; [vm_compute; repeat split; congruence|constructor].
  - discriminate Hnil.
  - exists req. exact Hs.
Defined.

Lemma registration_accepts_undeliverable_witness :
  validate_endpoint_url "https://127.0.0.1/hook" = Ok tt.
Proof.
  apply (registration_accepts_undeliverable sample_network sample_sender "https://127.0.0.1/hook" "127.0.0.1");
    reflexivity.
Defined.
