(* ===== verification/Outbox.v ===== *)
(** * The outbox

    [gateway-application/src/outbox.rs]: a pass claims the events that are due,
    groups them by merchant, and delivers the merchants concurrently, each
    merchant's events in order and each event to all of its endpoints.  An
    event ends a pass delivered, rescheduled or set aside. *)

From Stdlib Require Import Ascii String Strings.Byte.
From stdpp Require Import sets.
From S2P Require Import Prelude RustStd Externals Effects Futures Observations WebhookSign WebhookSender.

Local Open Scope Z_scope.

Record OutboxEvent := mkOutboxEvent {
  oe_id : Z;                         (* Uuid *)
  oe_merchant_id : option Z;         (* Option<Uuid> *)
  oe_event_type : string;
  oe_aggregate_type : string;
  oe_aggregate_id : Z;               (* Uuid *)
  oe_payload : json;
  oe_attempts : Z;                   (* i32 *)
  oe_created_at : Z;
  oe_target_endpoint_id : option Z;  (* Option<Uuid> *)
  oe_attempt_floor : Z;              (* i32 *)
}.

Record DeliveryAttempt := mkDeliveryAttempt {
  da_event_id : Z;
  da_endpoint_id : Z;
  da_attempt : Z;                    (* i32 *)
  da_status : option Z;              (* Option<i32> *)
  da_error : option string;
  da_duration_ms : Z;                (* u32 *)
}.

(** The trait [WebhookSender] and the repository. *)
Class EventSender (W : Type) := {
  sender_deliver : WebhookEndpoint -> Z -> list byte -> string -> W -> DeliveryResult * W;
}.
Class OutboxRepository (W : Type) := {
  claim_due_events : string -> Z -> Z -> Z -> Z -> eff W RepositoryError (list OutboxEvent);
  active_endpoints : Z -> eff W RepositoryError (list WebhookEndpoint);
  record_attempt : DeliveryAttempt -> Z -> eff W RepositoryError unit;
  mark_delivered : Z -> Z -> eff W RepositoryError unit;
  reschedule : Z -> Z -> string -> Z -> eff W RepositoryError unit;
  dead_letter : Z -> string -> Z -> eff W RepositoryError unit;
}.

Inductive OutboxError :=
  | OeInvalidBatchLimit
  | OeInvalidRetryCeiling
  | OeInvalidFairness
  | OeSerialization (detail : string)
  | OeWebhook (e : WebhookError)
  | OeRepository (e : RepositoryError).
Definition OutboxError_is_transient (e : OutboxError) : bool :=
  match e with OeRepository error => RepositoryError_is_transient error | _ => false end.

(** ** Reports *)

Record OutboxReport := mkOutboxReport {
  or_claimed : Z;                    (* u32 *)
  or_delivered : Z;
  or_rescheduled : Z;
  or_dead_lettered : Z;
  or_endpoints_missing : Z;
}.
Definition OutboxReport_default : OutboxReport := mkOutboxReport 0 0 0 0 0.
Definition absorb (self other : OutboxReport) : OutboxReport :=
  mkOutboxReport (u32_saturating_add (or_claimed self) (or_claimed other))
    (u32_saturating_add (or_delivered self) (or_delivered other))
    (u32_saturating_add (or_rescheduled self) (or_rescheduled other))
    (u32_saturating_add (or_dead_lettered self) (or_dead_lettered other))
    (u32_saturating_add (or_endpoints_missing self) (or_endpoints_missing other)).

Definition one_more (n : Z) : Z := u32_saturating_add n 1.
Definition add_claimed (r : OutboxReport) : OutboxReport :=
  let '(mkOutboxReport c d s l m) := r in mkOutboxReport (one_more c) d s l m.
Definition add_delivered (r : OutboxReport) : OutboxReport :=
  let '(mkOutboxReport c d s l m) := r in mkOutboxReport c (one_more d) s l m.
Definition add_rescheduled (r : OutboxReport) : OutboxReport :=
  let '(mkOutboxReport c d s l m) := r in mkOutboxReport c d (one_more s) l m.
Definition add_dead_lettered (r : OutboxReport) : OutboxReport :=
  let '(mkOutboxReport c d s l m) := r in mkOutboxReport c d s (one_more l) m.
Definition add_missing (r : OutboxReport) : OutboxReport :=
  let '(mkOutboxReport c d s l m) := r in mkOutboxReport c d s l (one_more m).

(** ** The service *)

Definition MAX_BATCH_LIMIT : Z := 500.

Record DeliveryFairness := mkDeliveryFairness {
  df_max_events_per_merchant : Z;    (* u32 *)
  df_concurrency : nat;
}.
Definition DeliveryFairness_default : DeliveryFairness := mkDeliveryFairness 20 8.

Record OutboxService := mkOutboxService {
  ob_master_key : list byte;
  ob_holder : string;
  ob_max_attempts : Z;               (* i32 *)
  ob_fairness : DeliveryFairness;
}.

Definition OutboxService_new (master_key : list byte) (holder : string) (max_attempts : Z)
    : result OutboxError OutboxService :=
  if Z.of_nat (length master_key) <? 32 then Err (OeWebhook WeakMasterKey)
  else if max_attempts <? 1 then Err OeInvalidRetryCeiling
  else Ok (mkOutboxService master_key holder max_attempts DeliveryFairness_default).

Definition with_fairness (self : OutboxService) (fairness : DeliveryFairness)
    : result OutboxError OutboxService :=
  if (df_max_events_per_merchant fairness =? 0) || (MAX_BATCH_LIMIT <? df_max_events_per_merchant fairness)
     || (df_concurrency fairness =? 0)%nat || (64 <? df_concurrency fairness)%nat
  then Err OeInvalidFairness
  else Ok (mkOutboxService (ob_master_key self) (ob_holder self) (ob_max_attempts self) fairness).

(** [backoff_for]: [1_i64 << doublings] minutes, at most six hours. *)
Definition backoff_for (attempt : Z) : Z :=
  let doublings := i32_saturating_sub (Z.max 1 (Z.min 8 attempt)) 1 in
  let seconds := saturate I64_MIN I64_MAX (60 * Z.shiftl 1 doublings) in
  duration_seconds (Z.min seconds (6 * 60 * 60)).

Definition unix_timestamp (t : Z) : Z := t / duration_seconds 1.

(** The loop that sorts the claimed events into queues, one per merchant. *)
Fixpoint push_event (event : OutboxEvent) (groups : list (option Z * list OutboxEvent))
    : list (option Z * list OutboxEvent) :=
  match groups with
  | [] => [(oe_merchant_id event, [event])]
  | (merchant, queue) :: rest =>
      if bool_decide (merchant = oe_merchant_id event) then (merchant, queue ++ [event]) :: rest
      else (merchant, queue) :: push_event event rest
  end.
Definition group_events (events : list OutboxEvent) : list (option Z * list OutboxEvent) :=
  fold_left (fun groups event => push_event event groups) events [].

Definition targets (event : OutboxEvent) (endpoints : list WebhookEndpoint) : list WebhookEndpoint :=
  match oe_target_endpoint_id event with
  | Some target => filter (fun endpoint => we_id endpoint = target) endpoints
  | None => endpoints
  end.

(** [used]: the attempts since the last redelivery, this one included. *)
Definition used_attempts (event : OutboxEvent) : Z :=
  i32_saturating_add (i32_saturating_sub (oe_attempts event) (oe_attempt_floor event)) 1.

(** The columns of a result: status, error, duration and whether it counts. *)
Definition attempt_columns (r : DeliveryResult) : option Z * option string * Z * bool :=
  match r with
  | Accepted status duration_ms => (Some status, None, duration_ms, true)
  | Refused status duration_ms detail => (Some status, Some detail, duration_ms, false)
  | Unreachable detail duration_ms => (None, Some detail, duration_ms, false)
  end.

Section outbox.
Context {W : Type} `{HashLib} `{UuidLib} `{JsonLib} `{TimeLib}.
Context `{Clock W} `{OutboxRepository W} `{EventSender W} `{Latency W}.

Definition repository {A} (m : eff W RepositoryError A) : task W OutboxError A :=
  await (eff_map_err OeRepository m).
Definition clock_task : task W OutboxError Z := call read_clock.
Definition send_task (endpoint : WebhookEndpoint) (event_id : Z) (body : list byte) (signature : string)
    : task W OutboxError DeliveryResult :=
  await (fun w => let '(r, w) := sender_deliver endpoint event_id body signature w in (Ok r, w)).

(** [json!] builds a sorted map. *)
Definition envelope (event : OutboxEvent) : json :=
  JObject [
    ("created_at", JNumber (dec_signed (unix_timestamp (oe_created_at event))));
    ("data", JObject [
       ("attributes", oe_payload event);
       ("id", JString (uuid_to_string (oe_aggregate_id event)));
       ("object", JString (oe_aggregate_type event))]);
    ("id", JString (uuid_to_string (oe_id event)));
    ("type", JString (oe_event_type event))].

(** A [Value] always serializes: its keys are strings. *)
Definition event_body (event : OutboxEvent) : list byte := as_bytes (json_to_string (envelope event)).

Definition derive (self : OutboxService) (version : Z) (endpoint : WebhookEndpoint)
    : result OutboxError SigningSecret :=
  map_err OeWebhook
    (SigningSecret_derive (ob_master_key self) version (we_merchant_id endpoint) (we_id endpoint)).

(** The previous secret, while it lasts and still matches its fingerprint. *)
Definition previous_signer (self : OutboxService) (endpoint : WebhookEndpoint)
    : result OutboxError (option SigningSecret) :=
  match we_previous_secret endpoint with
  | None => Ok None
  | Some previous =>
      secret ← derive self (ps_version previous) endpoint;
      Ok (if bool_decide (SigningSecret_fingerprint secret = ps_fingerprint previous)
          then Some secret else None)
  end.

(** The body of the loop of [deliver_to_all]. *)
Definition deliver_to (self : OutboxService) (event : OutboxEvent) (body : list byte)
    (all_accepted : bool) (endpoint : WebhookEndpoint) : task W OutboxError bool :=
  secret ← task_lift (derive self (we_secret_version endpoint) endpoint);
  if negb (bool_decide (SigningSecret_fingerprint secret = we_secret_fingerprint endpoint)) then
    now ← clock_task;
    _ ← repository (record_attempt
          {| da_event_id := oe_id event; da_endpoint_id := we_id endpoint;
             da_attempt := i32_saturating_add (oe_attempts event) 1; da_status := None;
             da_error := Some "signing_key_mismatch"; da_duration_ms := 0 |} now);
    mret false
  else
    previous ← task_lift (previous_signer self endpoint);
    now ← clock_task;
    let signing := secret :: option_list previous in
    let signature := sign_event_with_all signing (unix_timestamp now) body in
    outcome ← send_task endpoint (oe_id event) body signature;
    let '(status, error, duration_ms, accepted) := attempt_columns outcome in
    now ← clock_task;
    _ ← repository (record_attempt
          {| da_event_id := oe_id event; da_endpoint_id := we_id endpoint;
             da_attempt := i32_saturating_add (oe_attempts event) 1; da_status := status;
             da_error := error; da_duration_ms := duration_ms |} now);
    mret (if accepted then all_accepted else false).

Definition deliver_to_all (self : OutboxService) (event : OutboxEvent)
    (endpoints : list WebhookEndpoint) : task W OutboxError bool :=
  task_for_each (deliver_to self event (event_body event)) endpoints true.

(** What a failed delivery leads to. *)
Definition retry_or_give_up (self : OutboxService) (event : OutboxEvent) (report : OutboxReport)
    : task W OutboxError OutboxReport :=
  let used := used_attempts event in
  now ← clock_task;
  if ob_max_attempts self <=? used then
    _ ← repository (dead_letter (oe_id event) "delivery_attempts_exhausted" now);
    mret (add_dead_lettered report)
  else
    available_at ← task_lift (ok_or (odt_checked_add now (backoff_for used)) OeInvalidRetryCeiling);
    now ← clock_task;
    _ ← repository (reschedule (oe_id event) available_at "delivery_failed" now);
    mret (add_rescheduled report).

(** The delay of a first attempt is measured and handed to telemetry, which is
    outside the model; the clock is read for it. *)
Definition measure_first_attempt (event : OutboxEvent) : task W OutboxError unit :=
  if oe_attempts event =? 0 then _ ← clock_task; mret tt else mret tt.

(** The body of the loop of [deliver_merchant]. *)
Definition deliver_event (self : OutboxService) (endpoints : list WebhookEndpoint)
    (report : OutboxReport) (event : OutboxEvent) : task W OutboxError OutboxReport :=
  let report := add_claimed report in
  let to := targets event endpoints in
  if bool_decide (to = []) then
    let reason := if oe_target_endpoint_id event is Some _ then "redelivery_target_inactive"
                  else "no_active_endpoint" in
    now ← clock_task;
    _ ← repository (dead_letter (oe_id event) reason now);
    mret (add_dead_lettered (add_missing report))
  else
    _ ← measure_first_attempt event;
    accepted ← deliver_to_all self event to;
    if (accepted : bool) then
      now ← clock_task;
      _ ← repository (mark_delivered (oe_id event) now);
      mret (add_delivered report)
    else retry_or_give_up self event report.

Definition drop_event (report : OutboxReport) (event : OutboxEvent) : task W OutboxError OutboxReport :=
  now ← clock_task;
  _ ← repository (dead_letter (oe_id event) "webhook_event_without_merchant" now);
  mret (add_dead_lettered (add_claimed report)).

Definition deliver_merchant (self : OutboxService) (merchant : option Z) (events : list OutboxEvent)
    : task W OutboxError OutboxReport :=
  match merchant with
  | None => task_for_each drop_event events OutboxReport_default
  | Some merchant_id =>
      endpoints ← repository (active_endpoints merchant_id);
      task_for_each (deliver_event self endpoints) events OutboxReport_default
  end.

(** The reports of the merchants in order, or the first error. *)
Definition absorb_outcome (s : OutboxReport * option OutboxError) (outcome : result OutboxError OutboxReport)
    : OutboxReport * option OutboxError :=
  match outcome with
  | Ok part => (absorb s.1 part, s.2)
  | Err error => (s.1, match s.2 with Some first => Some first | None => Some error end)
  end.
Definition join_reports (outcomes : list (result OutboxError OutboxReport)) : result OutboxError OutboxReport :=
  let '(report, first_error) := fold_left absorb_outcome outcomes (OutboxReport_default, None) in
  match first_error with Some error => Err error | None => Ok report end.

Definition deliver_due (fuel : nat) (self : OutboxService) (limit : Z) (w : W)
    : option (result OutboxError OutboxReport * W) :=
  if (limit =? 0) || (MAX_BATCH_LIMIT <? limit) then Some (Err OeInvalidBatchLimit, w)
  else
    let '(now, w) := clock_now w in
    match claim_due_events (ob_holder self) limit (df_max_events_per_merchant (ob_fairness self)) 300 now w with
    | (Err e, w) => Some (Err (OeRepository e), w)
    | (Ok events, w) =>
        '(outcomes, w) ← bounded_join fuel
          ((fun '(merchant, queue) => deliver_merchant self merchant queue) <$> group_events events)
          (df_concurrency (ob_fairness self)) w;
        Some (join_reports outcomes, w)
    end.
End outbox.

(** * Lemmas *)

Lemma push_event_merchants event groups :
  (push_event event groups).*1
  = if decide (oe_merchant_id event ∈ groups.*1) then groups.*1 else groups.*1 ++ [oe_merchant_id event].
Proof.
  induction groups as [|[m q] groups IH]; cbn [push_event fmap list_fmap]; [by rewrite decide_False by set_solver|].
  case_bool_decide as Hm; cbn.
  - by rewrite decide_True by set_solver.
  - rewrite IH. repeat case_decide; set_solver.
Qed.

(** The queue of a merchant in the groups. *)
Definition queue_of (merchant : option Z) (groups : list (option Z * list OutboxEvent)) : list OutboxEvent :=
  mjoin (snd <$> filter (fun g => g.1 = merchant) groups).

Lemma queue_of_cons merchant m q groups :
  queue_of merchant ((m, q) :: groups) = (if decide (m = merchant) then q else []) ++ queue_of merchant groups.
Proof. unfold queue_of. rewrite filter_cons. cbn [fst]. by case_decide. Qed.

Lemma queue_of_none merchant groups : merchant ∉ groups.*1 -> queue_of merchant groups = [].
Proof.
  induction groups as [|[m q] groups IH]; intros Hni; [done|].
  rewrite fmap_cons, not_elem_of_cons in Hni. rewrite queue_of_cons, decide_False, IH; [done|tauto|].
  intros ->. tauto.
Qed.

Lemma push_event_queue event groups merchant :
  NoDup groups.*1 ->
  queue_of merchant (push_event event groups)
  = queue_of merchant groups ++ (if decide (oe_merchant_id event = merchant) then [event] else []).
Proof.
  induction groups as [|[m q] groups IH]; intros Hnd; cbn [push_event].
  - rewrite queue_of_cons. by case_decide.
  - rewrite fmap_cons, NoDup_cons in Hnd. destruct Hnd as [Hni Hnd]. cbn [fst] in Hni.
    case_bool_decide as Hm; rewrite !queue_of_cons.
    + subst m. case_decide as Hc; [|by rewrite app_nil_r].
      rewrite queue_of_none by congruence. by rewrite !app_nil_r.
    + rewrite IH by done. by rewrite app_assoc.
Qed.

(** The groups hold every event once, one queue per merchant, in order. *)
Lemma group_events_spec events :
  NoDup (group_events events).*1
  /\ forall merchant, queue_of merchant (group_events events)
                      = filter (fun e => oe_merchant_id e = merchant) events.
Proof.
  unfold group_events. induction events as [|e events IH] using rev_ind; [by split; [constructor|]|].
  destruct IH as [Hnd Hq]. rewrite fold_left_app. cbn [fold_left]. split.
  - rewrite push_event_merchants. case_decide; [done|]. apply NoDup_app. split_and!; [done|set_solver|].
    apply NoDup_singleton.
  - intros merchant. rewrite push_event_queue by done. rewrite Hq, filter_app, filter_cons, filter_nil. done.
Qed.

Lemma group_queue events merchant queue :
  (merchant, queue) ∈ group_events events -> queue = filter (fun e => oe_merchant_id e = merchant) events.
Proof.
  destruct (group_events_spec events) as [Hnd Hq]. intros Hin. rewrite <- Hq.
  clear Hq. induction (group_events events) as [|[m q] groups IH]; [by apply not_elem_of_nil in Hin|].
  rewrite fmap_cons, NoDup_cons in Hnd. destruct Hnd as [Hni Hnd]. cbn [fst] in Hni.
  rewrite queue_of_cons. apply elem_of_cons in Hin as [[= <- <-]|Hin].
  - rewrite decide_True, queue_of_none by done. by rewrite app_nil_r.
  - rewrite decide_False; [by apply IH|]. intros ->. apply Hni, list_elem_of_fmap. by exists (merchant, queue).
Qed.

(** The retry delay doubles from a minute and stops at the eighth attempt: the
    cap of six hours is above every delay. *)
Lemma backoff_for_spec n :
  backoff_for n = duration_seconds (60 * 2 ^ (Z.max 1 (Z.min 8 n) - 1)).
Proof.
  unfold backoff_for. f_equal.
  assert (Hc : 1 <= Z.max 1 (Z.min 8 n) <= 8) by lia.
  unfold i32_saturating_sub. rewrite (saturate_id (- I32_MAX - 1)) by (unfold I32_MAX; lia).
  assert (forall c, 1 <= c <= 8 -> 60 * 2 ^ (c - 1) <= 7680) as Hb.
  { intros c Hcc. assert (2 ^ (c - 1) <= 2 ^ 7) by (apply Z.pow_le_mono_r; lia). lia. }
  rewrite Z.shiftl_1_l. specialize (Hb _ Hc). assert (0 <= 2 ^ (Z.max 1 (Z.min 8 n) - 1)) by (apply Z.pow_nonneg; lia).
  rewrite saturate_id; [lia|]. unfold I64_MIN, I64_MAX. split; lia.
Qed.

(** ** Accounting *)

#[local] Instance any_world_preorder {W} : PreOrder (fun _ _ : W => True).
Proof. by split. Qed.

(** [t] ends well only with values that satisfy [Q], whatever the world does. *)
Definition yields {W E A} (Q : A -> Prop) (t : task W E A) : Prop :=
  forall w, tsafe (fun _ => True) (fun _ _ => True) (fun _ a => Q a) t w.

Lemma yields_ret {W E A} (Q : A -> Prop) (a : A) : Q a -> yields (W := W) (E := E) Q (mret a).
Proof. intros Ha w. by apply tsafe_ret. Qed.

Lemma yields_bind {W E A B} (P : A -> Prop) (Q : B -> Prop) (t : task W E A) (g : A -> task W E B) :
  yields P t -> (forall a, P a -> yields Q (g a)) -> yields Q (mbind g t).
Proof. intros Ht Hg w. eapply tsafe_bind; [apply _|apply Ht|]. intros w' a _ Ha. by apply Hg. Qed.

Lemma yields_any {W E A} (t : task W E A) : yields (fun _ => True) t.
Proof.
  intros w. eapply safe_weaken; [apply _|apply safe_returns|]. intros w' [a|e] _ _; done.
Qed.

Lemma yields_for_each {W E A S} (step : S -> A -> task W E S) (J : list A -> S -> Prop) l s :
  (forall seen x s, x ∈ l -> J seen s -> yields (J (seen ++ [x])) (step s x)) ->
  J [] s -> yields (J l) (task_for_each step l s).
Proof.
  intros Hstep HJ w. eapply (tsafe_for_each _ _ step (fun _ => J) l); [|done|done].
  intros w1 seen x s1 Hx HJ1. by apply Hstep.
Qed.

(** A report that adds up over [n] events. *)
Definition report_adds_up (n : Z) (r : OutboxReport) : Prop :=
  or_claimed r = n /\ n = or_delivered r + or_rescheduled r + or_dead_lettered r
  /\ 0 <= or_delivered r /\ 0 <= or_rescheduled r
  /\ 0 <= or_endpoints_missing r <= or_dead_lettered r.

Lemma one_more_small n : 0 <= n <= MAX_BATCH_LIMIT -> one_more n = n + 1.
Proof. intros Hn. apply saturate_id. unfold MAX_BATCH_LIMIT, U32_MAX in *. lia. Qed.

(** Moves a counter of a report that adds up. *)
Ltac count_up :=
  unfold report_adds_up in *;
  match goal with r : OutboxReport |- _ => destruct r end; simpl in *;
  rewrite !one_more_small by (unfold MAX_BATCH_LIMIT in *; lia); lia.

Section accounting.
Context {W : Type} `{HashLib} `{UuidLib} `{JsonLib} `{TimeLib}.
Context `{Clock W} `{OutboxRepository W} `{EventSender W} `{Latency W}.

Lemma deliver_event_adds_up self endpoints n report event :
  0 <= n < MAX_BATCH_LIMIT -> report_adds_up n report ->
  yields (report_adds_up (n + 1)) (deliver_event self endpoints report event).
Proof.
  intros Hn Hr. unfold deliver_event. case_bool_decide.
  - do 2 (eapply yields_bind; [apply yields_any|intros ? _]). apply yields_ret. count_up.
  - eapply yields_bind; [apply yields_any|intros [] _]. eapply yields_bind; [apply yields_any|]. intros [] _.
    + do 2 (eapply yields_bind; [apply yields_any|intros ? _]). apply yields_ret. count_up.
    + unfold retry_or_give_up. eapply yields_bind; [apply yields_any|intros now _].
      destruct (_ <=? _).
      * eapply yields_bind; [apply yields_any|intros ? _]. apply yields_ret. count_up.
      * do 3 (eapply yields_bind; [apply yields_any|intros ? _]). apply yields_ret. count_up.
Qed.

Lemma deliver_merchant_adds_up self merchant events :
  Z.of_nat (length events) <= MAX_BATCH_LIMIT ->
  yields (report_adds_up (Z.of_nat (length events))) (deliver_merchant self merchant events).
Proof.
  intros Hlen.
  assert (Hloop : forall step : OutboxReport -> OutboxEvent -> task W OutboxError OutboxReport,
    (forall n r e, 0 <= n < MAX_BATCH_LIMIT -> report_adds_up n r -> yields (report_adds_up (n + 1)) (step r e)) ->
    yields (report_adds_up (Z.of_nat (length events))) (task_for_each step events OutboxReport_default)).
  { intros step Hstep w. eapply tsafe_weaken; [apply _| |].
    - apply (yields_for_each step (fun seen r => Z.of_nat (length seen) <= Z.of_nat (length events) ->
        report_adds_up (Z.of_nat (length seen)) r) events OutboxReport_default).
      + intros seen x s Hx HJ w1. rewrite length_app. cbn [length].
        destruct (decide (Z.of_nat (length seen + 1) <= Z.of_nat (length events))) as [Hle|Hgt].
        * replace (Z.of_nat (length seen + 1)) with (Z.of_nat (length seen) + 1) by lia.
          eapply tsafe_weaken; [apply _|apply (Hstep (Z.of_nat (length seen))); [lia|apply HJ; lia]|]. done.
        * eapply tsafe_weaken; [apply _|apply yields_any|]. intros w' r _ _. cbv beta. lia.
      + intros _. unfold report_adds_up. simpl. lia.
    - intros w' r _ Hr. by apply Hr. }
  unfold deliver_merchant. destruct merchant as [merchant_id|].
  - eapply yields_bind; [apply yields_any|]. intros endpoints _. apply Hloop.
    intros. by apply deliver_event_adds_up.
  - apply Hloop. intros n r e Hn Hr. unfold drop_event.
    do 2 (eapply yields_bind; [apply yields_any|intros ? _]). apply yields_ret. count_up.
Qed.
End accounting.

Lemma group_events_length events :
  sum_list (length ∘ snd <$> group_events events) = length events.
Proof.
  assert (Hpush : forall e groups, sum_list (length ∘ snd <$> push_event e groups)
            = S (sum_list (length ∘ snd <$> groups))).
  { intros e groups. induction groups as [|[m q] groups IH]; cbn [push_event]; [done|].
    case_bool_decide; rewrite !fmap_cons; cbn [sum_list compose snd]; [rewrite length_app; simpl; lia|lia]. }
  unfold group_events. induction events as [|e events IH] using rev_ind; [done|].
  rewrite fold_left_app. cbn [fold_left]. rewrite Hpush, IH, length_app. simpl. lia.
Qed.

Lemma absorb_adds_up n m r s :
  0 <= n -> 0 <= m -> n + m <= MAX_BATCH_LIMIT ->
  report_adds_up n r -> report_adds_up m s -> report_adds_up (n + m) (absorb r s).
Proof.
  intros Hn Hm Hb Hr Hs. unfold report_adds_up, absorb, u32_saturating_add in *.
  destruct r, s; simpl in *. unfold MAX_BATCH_LIMIT, U32_MAX in *.
  rewrite !saturate_id by lia. lia.
Qed.

Lemma join_reports_adds_up (ns : list nat) outcomes report :
  Forall2 (fun n o => forall r, o = Ok r -> report_adds_up (Z.of_nat n) r) ns outcomes ->
  Z.of_nat (sum_list ns) <= MAX_BATCH_LIMIT ->
  join_reports outcomes = Ok report -> report_adds_up (Z.of_nat (sum_list ns)) report.
Proof.
  intros Hall Hb. unfold join_reports.
  assert (Hgen : forall ns outcomes n r first,
    Forall2 (fun n o => forall r, o = Ok r -> report_adds_up (Z.of_nat n) r) ns outcomes ->
    Z.of_nat (n + sum_list ns) <= MAX_BATCH_LIMIT ->
    (first = None -> report_adds_up (Z.of_nat n) r) ->
    let s := fold_left absorb_outcome outcomes (r, first) in
    s.2 = None -> first = None /\ report_adds_up (Z.of_nat (n + sum_list ns)) s.1).
  { clear. intros ns outcomes n r first Hall. revert n r first.
    induction Hall as [|k o ns outcomes Ho _ IH]; intros n r first Hb Hr; cbn [fold_left] in *;
      [|change (sum_list (k :: ns)) with (k + sum_list ns)%nat in *].
    - intros Hf. simpl in *. rewrite Nat.add_0_r. auto.
    - destruct o as [part|e]; cbn [absorb_outcome fst snd]; intros Hend.
      + assert (Hfold : first = None -> report_adds_up (Z.of_nat (n + k)) (absorb r part)).
        { intros Hf. rewrite Nat2Z.inj_add. apply absorb_adds_up; [lia..| |by apply Ho]. by apply Hr. }
        destruct (IH (n + k)%nat (absorb r part) first ltac:(lia) Hfold Hend) as [Hf Hadd].
        split; [done|]. by rewrite Nat.add_assoc.
      + destruct (IH (n + k)%nat r (match first with Some f => Some f | None => Some e end) ltac:(lia)
          ltac:(by destruct first) Hend) as [Hf _]. by destruct first. }
  specialize (Hgen ns outcomes 0%nat OutboxReport_default None Hall Hb).
  destruct (fold_left _ _ _) as [r [first|]]; [done|]. intros [= <-]. apply Hgen; [|done].
  intros _. unfold report_adds_up. simpl. lia.
Qed.

(** What a claim promises: no more events than asked for, each once. *)
Class OutboxClaims (W : Type) `{OutboxRepository W} : Prop :=
  claims_distinct holder n per ttl now w1 events w2 : 0 <= n ->
    claim_due_events holder n per ttl now w1 = (Ok events, w2) ->
    Z.of_nat (length events) <= n /\ NoDup (oe_id <$> events).

(** The claim a pass starts with. *)
Definition claim_batch {W} `{Clock W} `{OutboxRepository W} (self : OutboxService) (limit : Z) (w : W)
    : result RepositoryError (list OutboxEvent) * W :=
  claim_due_events (ob_holder self) limit (df_max_events_per_merchant (ob_fairness self)) 300
    (clock_now w).1 (clock_now w).2.

(** A pass that succeeds has a report of every merchant. *)
Lemma join_reports_all_ok outcomes report o :
  join_reports outcomes = Ok report -> o ∈ outcomes -> is_ok o = true.
Proof.
  unfold join_reports.
  assert (Hgen : forall s, (fold_left absorb_outcome outcomes s).2 = None ->
    s.2 = None /\ forall o, o ∈ outcomes -> is_ok o = true).
  { induction outcomes as [|x outcomes IH]; intros [r first]; cbn [fold_left].
    - intros Hf. split; [done|]. intros o' Ho'. by apply not_elem_of_nil in Ho'.
    - intros Hf. destruct (IH _ Hf) as [Hx Hall]. destruct x as [part|e]; cbn in Hx.
      + split; [done|]. intros o' [->|Ho']%elem_of_cons; [done|by apply Hall].
      + by destruct first. }
  specialize (Hgen (OutboxReport_default, None)). destruct (fold_left _ _ _) as [r [e|]]; [done|].
  intros _ Ho. by apply Hgen.
Qed.

(** Every event is in the queue of its merchant. *)
Lemma group_events_elem events e :
  e ∈ events -> exists i queue, group_events events !! i = Some (oe_merchant_id e, queue) /\ e ∈ queue.
Proof.
  intros He. destruct (group_events_spec events) as [_ Hq].
  assert (e ∈ queue_of (oe_merchant_id e) (group_events events)) as Hin by (rewrite Hq; by apply list_elem_of_filter).
  unfold queue_of in Hin. apply list_elem_of_join in Hin as (queue & Hin & (g & -> & [Hm Hg]%list_elem_of_filter)%list_elem_of_fmap).
  apply list_elem_of_lookup in Hg as [i Hi]. exists i, g.2. split; [|done]. rewrite Hi. destruct g. cbn in *. by subst.
Qed.

Section completion.
Context {W : Type} `{HashLib} `{UuidLib} `{JsonLib} `{TimeLib}.
Context `{Clock W} `{OutboxRepository W} `{EventSender W} `{Latency W}.

Lemma deliver_due_more_fuel fuel fuel' self limit (w : W) x :
  (fuel <= fuel')%nat -> deliver_due fuel self limit w = Some x -> deliver_due fuel' self limit w = Some x.
Proof.
  intros Hle. unfold deliver_due. destruct (_ || _); [done|]. destruct (clock_now w) as [now w1].
  destruct (claim_due_events _ _ _ _ _ _) as [[events|e] w2]; [|done].
  intros ([outcomes w3] & Hj & Hx)%bind_Some. by rewrite (bounded_join_more_fuel _ _ _ _ _ _ Hle Hj).
Qed.

Lemma outbox_pass_ends self limit (w : W) :
  OutboxClaims W -> 0 <= limit ->
  exists fuel outcome w',
    (forall fuel', (fuel <= fuel')%nat -> deliver_due fuel' self limit w = Some (outcome, w'))
    /\ forall report, outcome = Ok report -> 1 <= limit <= MAX_BATCH_LIMIT
       /\ exists events w2, claim_batch self limit w = (Ok events, w2) /\ Z.of_nat (length events) <= limit
          /\ report_adds_up (Z.of_nat (length events)) report.
Proof.
  intros Hclaim Hlimit. unfold deliver_due, claim_batch.
  destruct ((limit =? 0) || (MAX_BATCH_LIMIT <? limit)) eqn:Hb; [by exists 0%nat, (Err OeInvalidBatchLimit), w|].
  destruct (clock_now w) as [now w1]. cbn [fst snd].
  destruct (claim_due_events _ _ _ _ _ _) as [[events|e] w2] eqn:Hc; [|by exists 0%nat, (Err (OeRepository e)), w2].
  apply Hclaim in Hc as [Hlen _]; [|done]. bool_to_prop.
  set (Q := fun (i : nat) (_ : W) (o : result OutboxError OutboxReport) =>
    forall merchant queue r, group_events events !! i = Some (merchant, queue) -> o = Ok r ->
      report_adds_up (Z.of_nat (length queue)) r).
  assert (Hst : forall i, stable (fun _ _ : W => True) (Q i)) by (intros i ? ? ? _ Ha; exact Ha).
  destruct (bounded_join_safe (fun _ => True) (fun _ _ => True) Q Hst
    ((fun '(merchant, queue) => deliver_merchant self merchant queue) <$> group_events events)
    (df_concurrency (ob_fairness self)) w2) as (fuel & outcomes & w' & Hf & _ & _ & Hlen' & HQ); [done| |].
  - intros i p Hp. apply list_lookup_fmap_Some in Hp as ([merchant queue] & -> & Hg).
    eapply safe_weaken; [apply _| |].
    + apply deliver_merchant_adds_up.
      rewrite (group_queue events merchant queue) by (by eapply list_elem_of_lookup_2).
      pose proof (length_filter (fun e => oe_merchant_id e = merchant) events). lia.
    + intros w3 o _ Ho merchant' queue' r Hg' ->. rewrite Hg in Hg'. injection Hg' as <- <-. exact Ho.
  - exists fuel, (join_reports outcomes), w'. split.
    { intros fuel' Hle. by rewrite (Hf fuel' Hle). }
    intros report Hrep. split; [lia|]. exists events, w2. split_and!; [done..|].
    rewrite <- group_events_length. eapply join_reports_adds_up; [| |exact Hrep].
    + rewrite length_fmap in Hlen'. apply Forall2_same_length_lookup. split; [by rewrite length_fmap|].
      intros i n o Hn Ho r Hr. apply list_lookup_fmap_Some in Hn as ([m q] & -> & Hg).
      by eapply (HQ i o Ho).
    + rewrite group_events_length. lia.
Qed.
End completion.

(** ** A pass seen from outside

    The same world with every request that leaves the service and every
    decision handed to storage recorded. *)
Inductive OutboxLog :=
  | LogSent (endpoint : WebhookEndpoint) (event_id : Z) (body : list byte) (signature : string)
      (outcome : DeliveryResult)
  | LogAttempt (attempt : DeliveryAttempt)
  | LogDelivered (event_id : Z)
  | LogRescheduled (event_id available_at : Z)
  | LogDead (event_id : Z) (reason : string).

(** The event a decision was about. *)
Definition decision (x : OutboxLog) : option Z :=
  match x with
  | LogDelivered id | LogRescheduled id _ | LogDead id _ => Some id
  | LogSent _ _ _ _ _ | LogAttempt _ => None
  end.
Definition decided (log : list OutboxLog) : list Z := omap decision log.

#[local] Instance recording_clock {W} `{Clock W} : Clock (W * list OutboxLog) := unlogged_clock.
#[local] Instance recording_latency {W} `{Latency W} : Latency (W * list OutboxLog) :=
  {| latency w := latency w.1 |}.
#[local] Instance recording_sender {W} `{EventSender W} : EventSender (W * list OutboxLog) :=
  {| sender_deliver endpoint id body signature := fun '(w, log) =>
       let '(r, w) := sender_deliver endpoint id body signature w in
       (r, (w, log ++ [LogSent endpoint id body signature r])) |}.
#[local] Instance recording_outbox {W} `{OutboxRepository W} : OutboxRepository (W * list OutboxLog) := {|
  claim_due_events holder n per ttl now := unlogged (claim_due_events holder n per ttl now);
  active_endpoints merchant := unlogged (active_endpoints merchant);
  record_attempt attempt now := logged (LogAttempt attempt) (record_attempt attempt now);
  mark_delivered id now := logged (LogDelivered id) (mark_delivered id now);
  reschedule id at_ error now := logged (LogRescheduled id at_) (reschedule id at_ error now);
  dead_letter id reason now := logged (LogDead id reason) (dead_letter id reason now) |}.

(** What the world may be relied on to keep along a pass, call by call. *)
Record outbox_keeps {W} `{Clock W} `{OutboxRepository W} `{EventSender W}
    (J : W * list OutboxLog -> Prop) : Prop := {
  keep_clock w log : J (w, log) -> J ((clock_now w).2, log);
  keep_claim holder n per ttl now w log : J (w, log) -> J ((claim_due_events holder n per ttl now w).2, log);
  keep_endpoints merchant w log : J (w, log) -> J ((active_endpoints merchant w).2, log);
  keep_send endpoint id body signature w log : J (w, log) ->
    J ((sender_deliver endpoint id body signature w).2,
       log ++ [LogSent endpoint id body signature (sender_deliver endpoint id body signature w).1]);
  keep_record attempt now w log : J (w, log) -> J ((record_attempt attempt now w).2, log ++ [LogAttempt attempt]);
  keep_mark id now w log : J (w, log) -> J ((mark_delivered id now w).2, log ++ [LogDelivered id]);
  keep_reschedule id at_ error now w log : J (w, log) ->
    J ((reschedule id at_ error now w).2, log ++ [LogRescheduled id at_]);
  keep_dead id reason now w log : J (w, log) -> J ((dead_letter id reason now w).2, log ++ [LogDead id reason]);
}.

Section recorded_outbox.
Context {W : Type} `{HashLib} `{UuidLib} `{JsonLib} `{TimeLib}.
Context `{Clock W} `{OutboxRepository W} `{EventSender W} `{Latency W}.
Context (self : OutboxService) (events : list OutboxEvent).
Context (J : W * list OutboxLog -> Prop).
Hypothesis HJ : outbox_keeps J.

(** The signature is by the endpoint's own secret, whose fingerprint storage
    holds, and by the previous one while that matches too. *)
Definition signed_for (endpoint : WebhookEndpoint) (body : list byte) (signature : string) : Prop :=
  exists secret previous timestamp,
    derive self (we_secret_version endpoint) endpoint = Ok secret
    /\ SigningSecret_fingerprint secret = we_secret_fingerprint endpoint
    /\ previous_signer self endpoint = Ok previous
    /\ signature = sign_event_with_all (secret :: option_list previous) timestamp body.

(** Answered in a world of which [J] holds. *)
Definition answered {A} (m : eff W RepositoryError A) (a : A) : Prop :=
  exists w log w', J (w, log) /\ m w = (Ok a, w').

(** [endpoint] is one the event has to reach, by the endpoints storage lists
    for the event's merchant. *)
Definition addressed (event : OutboxEvent) (endpoints : list WebhookEndpoint) : Prop :=
  event ∈ events /\ exists merchant, oe_merchant_id event = Some merchant
    /\ answered (active_endpoints merchant) endpoints.

Definition accepted_by (log : list OutboxLog) (event : OutboxEvent) (endpoint : WebhookEndpoint) : Prop :=
  exists signature status ms,
    LogSent endpoint (oe_id event) (event_body event) signature (Accepted status ms) ∈ log.

Definition entry_ok (log : list OutboxLog) (x : OutboxLog) : Prop :=
  match x with
  | LogSent endpoint id body signature _ =>
      exists event endpoints, addressed event endpoints /\ endpoint ∈ targets event endpoints
        /\ id = oe_id event /\ body = event_body event /\ signed_for endpoint body signature
  | LogAttempt a =>
      exists event endpoints endpoint, addressed event endpoints /\ endpoint ∈ targets event endpoints
        /\ da_event_id a = oe_id event /\ da_endpoint_id a = we_id endpoint
        /\ da_attempt a = i32_saturating_add (oe_attempts event) 1
        /\ (da_error a = None -> accepted_by log event endpoint)
  | LogDelivered id =>
      exists event endpoints, addressed event endpoints /\ id = oe_id event
        /\ targets event endpoints <> []
        /\ forall endpoint, endpoint ∈ targets event endpoints -> accepted_by log event endpoint
  | LogRescheduled id available_at =>
      exists event now, event ∈ events /\ id = oe_id event /\ used_attempts event < ob_max_attempts self
        /\ odt_checked_add now (backoff_for (used_attempts event)) = Some available_at
  | LogDead id reason =>
      exists event, event ∈ events /\ id = oe_id event
        /\ ((oe_merchant_id event = None /\ reason = "webhook_event_without_merchant")
            \/ (exists endpoints, addressed event endpoints /\ targets event endpoints = []
                /\ reason = (if oe_target_endpoint_id event is Some _ then "redelivery_target_inactive"
                             else "no_active_endpoint"))
            \/ (ob_max_attempts self <= used_attempts event /\ reason = "delivery_attempts_exhausted"))
  end.

Definition log_true (w : W * list OutboxLog) : Prop := Forall (entry_ok w.2) w.2 /\ J w.
Definition log_grows (w w' : W * list OutboxLog) : Prop := w.2 `prefix_of` w'.2.

#[local] Instance log_grows_preorder : PreOrder log_grows.
Proof. split; [intros w; unfold log_grows; done|intros a b c; unfold log_grows; apply transitivity]. Qed.

Lemma accepted_by_grows log log' event endpoint :
  log ⊆ log' -> accepted_by log event endpoint -> accepted_by log' event endpoint.
Proof. intros Hl (s & st & ms & Hin). exists s, st, ms. by apply Hl. Qed.

Lemma entry_ok_grows log log' x : log ⊆ log' -> entry_ok log x -> entry_ok log' x.
Proof.
  intros Hl. destruct x as [|a|id| |]; cbn [entry_ok]; try done.
  - intros (event & endpoints & endpoint & ? & ? & ? & ? & ? & Ha). exists event, endpoints, endpoint.
    split_and!; try done. intros He. eapply accepted_by_grows; [done|by apply Ha].
  - intros (event & endpoints & ? & ? & ? & Ha). exists event, endpoints. split_and!; try done.
    intros e He. eapply accepted_by_grows; [done|by apply Ha].
Qed.

Lemma log_true_snoc (w w' : W) log x :
  entry_ok (log ++ [x]) x -> J (w', log ++ [x]) -> log_true (w, log) -> log_true (w', log ++ [x]).
Proof.
  unfold log_true. simpl. intros Hx HJ' [Hl _]. split; [|done]. apply Forall_app. split; [|by apply Forall_singleton].
  eapply Forall_impl; [exact Hl|]. intros y. apply entry_ok_grows. set_solver.
Qed.

Lemma log_grows_subset w w' : log_grows w w' -> w.2 ⊆ w'.2.
Proof. intros [l Hl]. rewrite Hl. set_solver. Qed.

Lemma log_grows_snoc (w w' : W) log x : log_grows (w, log) (w', log ++ [x]).
Proof. by exists [x]. Qed.

Abbreviation tsafe := (tsafe log_true log_grows).

(** The calls. *)
Lemma unlogged_safe {A} (m : eff W RepositoryError A) w :
  (forall w1 log, J (w1, log) -> J ((m w1).2, log)) ->
  tsafe (fun _ => answered m) (repository (unlogged m)) w.
Proof.
  intros Hk. apply tsafe_await; [apply _|]. intros [w1 log] _ [HI HJ0]. pose proof (Hk _ _ HJ0) as HJ1.
  unfold eff_map_err, unlogged.
  destruct (m w1) as [r w2] eqn:Hm. simpl. split_and!; [exact (conj HI HJ1)|unfold log_grows; done|].
  intros a Ha. destruct r; simplify_eq/=. by exists w1, log, w2.
Qed.

Lemma clock_safe w : tsafe (fun _ _ => True) clock_task w.
Proof.
  apply tsafe_call. intros [w1 log] _ [HI HJ1]. apply (keep_clock _ HJ) in HJ1. unfold read_clock. cbn.
  destruct (clock_now w1). split_and!; [exact (conj HI HJ1)|unfold log_grows; done|done].
Qed.

Lemma logged_safe {A} x (m : eff W RepositoryError A) w :
  (forall w1 log, J (w1, log) -> J ((m w1).2, log ++ [x])) ->
  (forall log, w.2 ⊆ log -> entry_ok (log ++ [x]) x) ->
  tsafe (fun w' _ => x ∈ w'.2) (repository (logged x m)) w.
Proof.
  intros Hk Hx. apply tsafe_await; [apply _|]. intros [w1 log] Hw HI. pose proof (Hk w1 log (proj2 HI)) as HJ1.
  unfold eff_map_err, logged.
  destruct (m w1) as [r w2]. simpl. split_and!; [|apply log_grows_snoc|intros; set_solver].
  eapply log_true_snoc; [|exact HJ1|exact HI]. apply Hx. by apply log_grows_subset in Hw.
Qed.

Lemma send_safe endpoint id body signature w :
  (forall log outcome, entry_ok log (LogSent endpoint id body signature outcome)) ->
  tsafe (fun w' outcome => LogSent endpoint id body signature outcome ∈ w'.2)
    (send_task endpoint id body signature) w.
Proof.
  intros Hx. apply tsafe_await; [apply _|]. intros [w1 log] Hw HI.
  pose proof (keep_send _ HJ endpoint id body signature w1 log (proj2 HI)) as HJ1. cbn.
  destruct (sender_deliver _ _ _ _ w1) as [r w2]. simpl. split_and!; [|apply log_grows_snoc|].
  - eapply log_true_snoc; [apply Hx|exact HJ1|exact HI].
  - intros a [= <-]. set_solver.
Qed.

(** ** The tasks *)

Lemma deliver_to_safe event endpoints endpoint all_accepted w :
  addressed event endpoints -> endpoint ∈ targets event endpoints ->
  tsafe (fun w' b => b = true -> all_accepted = true /\ accepted_by w'.2 event endpoint)
    (deliver_to self event (event_body event) all_accepted endpoint) w.
Proof.
  intros Hadd Hin. unfold deliver_to.
  eapply tsafe_bind; [apply _|apply (tsafe_lift _ _ (fun _ s => derive self (we_secret_version endpoint) endpoint = Ok s)); auto|].
  intros w1 secret _ Hsecret. case_bool_decide as Hfp; cbn [negb].
  2:{ eapply tsafe_bind; [apply _|apply clock_safe|]. intros w2 now _ _.
      eapply tsafe_bind; [apply _|apply logged_safe; [intros; by apply HJ|]|by intros; apply tsafe_ret].
      intros log _. exists event, endpoints, endpoint. by split_and!. }
  eapply tsafe_bind; [apply _|apply (tsafe_lift _ _ (fun _ p => previous_signer self endpoint = Ok p)); auto|].
  intros w2 previous _ Hprev. eapply tsafe_bind; [apply _|apply clock_safe|]. intros w3 now _ _.
  eapply tsafe_bind; [apply _|apply send_safe|].
  { intros log outcome. exists event, endpoints. split_and!; try done.
    exists secret, previous, (unix_timestamp now). by split_and!. }
  intros w4 outcome _ Hsent. cbv beta in Hsent.
  destruct (attempt_columns outcome) as [[[status error] ms] accepted] eqn:Hcols.
  assert (Hacc : forall log, w4.2 ⊆ log -> (accepted = true \/ error = None) -> accepted_by log event endpoint).
  { intros log Hlog Hor. destruct outcome as [st d|st d detail|detail d]; simpl in Hcols; simplify_eq;
      [|by destruct Hor..]. eexists _, st, _. by apply Hlog. }
  eapply tsafe_bind; [apply _|apply clock_safe|]. intros w5 now' Hw5 _.
  eapply tsafe_bind; [apply _|apply logged_safe; [intros; by apply HJ|]|].
  - intros log Hlog. exists event, endpoints, endpoint. split_and!; try done. simpl. intros He.
    apply Hacc; [|by right]. apply log_grows_subset in Hw5. set_solver.
  - intros w6 _ Hw6 _. apply tsafe_ret. destruct accepted; [|done]. intros ->. split; [done|].
    apply Hacc; [|by left]. apply log_grows_subset in Hw5, Hw6. set_solver.
Qed.

Lemma deliver_to_all_safe event endpoints w :
  addressed event endpoints ->
  tsafe (fun w' b => b = true ->
           forall endpoint, endpoint ∈ targets event endpoints -> accepted_by w'.2 event endpoint)
    (deliver_to_all self event (targets event endpoints)) w.
Proof.
  intros Hadd. unfold deliver_to_all.
  apply (tsafe_for_each log_true log_grows _ (fun w' seen b => b = true ->
    forall endpoint, endpoint ∈ seen -> accepted_by w'.2 event endpoint)).
  - intros w1 seen endpoint b Hin Hseen.
    eapply tsafe_weaken; [apply _|by eapply deliver_to_safe|].
    intros w2 b' Hw2 Hb' Heq e [He|He%list_elem_of_singleton]%elem_of_app; destruct (Hb' Heq) as [Hb Hacc].
    + eapply accepted_by_grows; [by apply log_grows_subset|by apply Hseen].
    + by subst.
  - intros w1 w2 seen b Hw Hseen Heq e He. eapply accepted_by_grows; [by apply log_grows_subset|by apply Hseen].
  - intros _ e He. by apply not_elem_of_nil in He.
Qed.

Lemma deliver_event_safe endpoints report event w :
  addressed event endpoints -> tsafe (fun w' _ => oe_id event ∈ decided w'.2) (deliver_event self endpoints report event) w.
Proof.
  intros Hadd. pose proof Hadd as [Hin _].
  assert (Hlog : forall x (w' : W * list OutboxLog), decision x = Some (oe_id event) -> x ∈ w'.2 -> oe_id event ∈ decided w'.2)
    by (intros x w' Hx Hx'; apply list_elem_of_omap; by exists x).
  unfold deliver_event. case_bool_decide as Ht.
  - eapply tsafe_bind; [apply _|apply clock_safe|]. intros w1 now _ _.
    eapply tsafe_bind; [apply _|apply logged_safe; [intros; by apply HJ|]|intros ? ? ? Hx; cbv beta in Hx; apply tsafe_ret; eapply Hlog; [|exact Hx]; done].
    intros log _. exists event. split_and!; try done. right. left. by exists endpoints.
  - eapply (tsafe_bind _ _ (fun _ _ => True)).
    { unfold measure_first_attempt. destruct (_ =? _); [|by apply tsafe_ret].
      eapply tsafe_bind; [apply _|apply clock_safe|by intros; apply tsafe_ret]. }
    intros w0 [] _ _. eapply tsafe_bind; [apply _|by apply deliver_to_all_safe|]. intros w1 [] _ Hacc; cbv beta in Hacc.
    + eapply tsafe_bind; [apply _|apply clock_safe|]. intros w2 now Hw2 _.
      eapply tsafe_bind; [apply _|apply logged_safe; [intros; by apply HJ|]|intros ? ? ? Hx; cbv beta in Hx; apply tsafe_ret; eapply Hlog; [|exact Hx]; done].
      intros log Hsub. exists event, endpoints. split_and!; try done. intros e He.
      eapply accepted_by_grows; [|by apply Hacc]. apply log_grows_subset in Hw2. set_solver.
    + unfold retry_or_give_up. eapply tsafe_bind; [apply _|apply clock_safe|]. intros w2 now _ _.
      destruct (Z.leb_spec (ob_max_attempts self) (used_attempts event)).
      * eapply tsafe_bind; [apply _|apply logged_safe; [intros; by apply HJ|]|intros ? ? ? Hx; cbv beta in Hx; apply tsafe_ret; eapply Hlog; [|exact Hx]; done].
        intros log _. exists event. split_and!; try done. right. by right.
      * eapply tsafe_bind; [apply _|apply (tsafe_lift _ _ (fun _ t => ok_or (E := OutboxError)
          (odt_checked_add now (backoff_for (used_attempts event))) OeInvalidRetryCeiling = Ok t)); auto|].
        intros w3 available_at _ Hat. cbv beta in Hat.
        eapply tsafe_bind; [apply _|apply clock_safe|]. intros w4 now' _ _.
        eapply tsafe_bind; [apply _|apply logged_safe; [intros; by apply HJ|]|intros ? ? ? Hx; cbv beta in Hx; apply tsafe_ret; eapply Hlog; [|exact Hx]; done].
        intros log _. exists event, now. split_and!; try done. by destruct (odt_checked_add _ _); simplify_eq/=.
Qed.

Lemma loop_safe (step : OutboxReport -> OutboxEvent -> task _ OutboxError OutboxReport) queue r w :
  (forall s e w1, e ∈ queue -> tsafe (fun w' _ => oe_id e ∈ decided w'.2) (step s e) w1) ->
  tsafe (fun w' _ => forall e, e ∈ queue -> oe_id e ∈ decided w'.2) (task_for_each step queue r) w.
Proof.
  intros Hstep.
  assert (Hgrow : forall w1 w2 id, log_grows w1 w2 -> id ∈ decided w1.2 -> id ∈ decided w2.2).
  { intros w1 w2 id Hw%log_grows_subset (x & Hx & Hd)%list_elem_of_omap. apply list_elem_of_omap. exists x. auto. }
  apply (tsafe_for_each log_true log_grows step (fun w' seen _ => forall e, e ∈ seen -> oe_id e ∈ decided w'.2)).
  - intros w1 seen e s He Hseen. eapply tsafe_weaken; [apply _|by apply Hstep|].
    intros w2 r' Hw2 Hd e' [He'|He'%list_elem_of_singleton]%elem_of_app; [|by subst]. by eapply Hgrow, Hseen.
  - intros w1 w2 seen s Hw Hseen e He. by eapply Hgrow, Hseen.
  - intros e He. by apply not_elem_of_nil in He.
Qed.

Lemma deliver_merchant_safe merchant queue w :
  (merchant, queue) ∈ group_events events ->
  tsafe (fun w' _ => forall e, e ∈ queue -> oe_id e ∈ decided w'.2) (deliver_merchant self merchant queue) w.
Proof.
  intros Hg. apply group_queue in Hg. subst queue. unfold deliver_merchant.
  assert (Hev : forall e, e ∈ filter (fun e => oe_merchant_id e = merchant) events ->
    oe_merchant_id e = merchant /\ e ∈ events) by (intros e He; by apply list_elem_of_filter in He).
  destruct merchant as [merchant_id|].
  - eapply tsafe_bind; [apply _|apply unlogged_safe, HJ|]. intros w1 endpoints _ Hend.
    apply loop_safe. intros s e w2 [Hm He]%Hev. apply deliver_event_safe. split; [done|by exists merchant_id].
  - apply loop_safe. intros s e w2 [Hm He]%Hev. unfold drop_event.
    eapply tsafe_bind; [apply _|apply clock_safe|]. intros w3 now _ _.
    eapply tsafe_bind; [apply _|apply logged_safe; [intros; by apply HJ|]|].
    + intros log _. exists e. split_and!; try done. by left.
    + intros w4 u _ Hx. apply tsafe_ret. apply list_elem_of_omap. by exists (LogDead (oe_id e) "webhook_event_without_merchant").
Qed.
End recorded_outbox.

Section recorded_pass.
Context {W : Type} `{HashLib} `{UuidLib} `{JsonLib} `{TimeLib}.
Context `{Clock W} `{OutboxRepository W} `{EventSender W} `{Latency W}.

Lemma outbox_pass_safe (J : W * list OutboxLog -> Prop) fuel self limit (w : W) outcome w' log :
  outbox_keeps J -> J (w, []) ->
  deliver_due fuel self limit (w, @nil OutboxLog) = Some (outcome, (w', log)) ->
  J (w', log)
  /\ (log = []
      \/ exists holder n per ttl now events,
           answered J (claim_due_events holder n per ttl now) events
           /\ forall x, x ∈ log -> entry_ok (W := W) self events J log x).
Proof.
  intros HJ HJ0. unfold deliver_due. destruct (_ || _); [intros [= <- <- <-]; split; [done|by left]|].
  cbn [clock_now recording_clock unlogged_clock]. apply (keep_clock _ HJ) in HJ0.
  destruct (clock_now w) as [now w1]. cbn [claim_due_events recording_outbox unlogged].
  destruct (claim_due_events _ _ _ _ _ w1) as [r w2] eqn:Hc.
  assert (HJ2 : J (w2, [])) by (change w2 with (r, w2).2; rewrite <- Hc; by apply HJ).
  destruct r as [events|e]; [|intros [= <- <- <-]; split; [done|by left]].
  destruct (bounded_join fuel _ _ _) as [[outcomes [w3 log3]]|] eqn:Hj; [|done].
  cbn. intros [= <- <- <-].
  pose proof (log_grows_preorder (W := W)) as Hpre.
  assert (Hst : forall i : nat, stable log_grows (fun (_ : W * list OutboxLog) (_ : result OutboxError OutboxReport) => True))
    by (intros i a b c _ _; exact I).
  match type of Hj with bounded_join _ ?futures ?bound ?start = _ =>
    destruct (@bounded_join_safe _ (log_true (W := W) self events J) log_grows Hpre _ (fun _ _ _ => True)
      Hst futures bound start) as (enough & outs & wf & Hf & HI & _) end.
  - split; [by apply Forall_nil|exact HJ2].
  - intros i p Hp. apply list_lookup_fmap_Some in Hp as ([merchant queue] & -> & Hg).
    eapply safe_weaken; [exact Hpre|apply deliver_merchant_safe; [exact HJ|by eapply list_elem_of_lookup_2]|done].
  - specialize (Hf (fuel `max` enough)%nat ltac:(lia)).
    rewrite (bounded_join_more_fuel fuel (fuel `max` enough)%nat _ _ _ _ ltac:(lia) Hj) in Hf.
    injection Hf as <- <-. destruct HI as [HI HJ1]. split; [exact HJ1|]. right.
    eexists _, _, _, _, now, events. split; [by exists w1, [], w2|]. rewrite Forall_forall in HI. exact HI.
Qed.

(** What a delivery pass sends and decides is true, whatever the
    interleaving of the merchants and however the pass ends.  Every request is
    the event's own body, to an endpoint the event is addressed to, signed
    with the secret whose fingerprint that endpoint was registered with.  An
    event is marked delivered only after every one of its endpoints accepted
    it; an attempt is recorded without an error only after it was accepted; an
    event is put off by the backoff of its attempt only below the ceiling, and
    set aside only when it has no merchant, no endpoint, or no attempt left. *)
Theorem outbox_pass_tells_the_truth fuel self limit (w : W) outcome w' log :
  deliver_due fuel self limit (w, @nil OutboxLog) = Some (outcome, (w', log)) ->
  log = []
  \/ exists holder n per ttl now events,
       returned_by (W := W) (claim_due_events holder n per ttl now) events
       /\ forall x, x ∈ log -> entry_ok (W := W) self events (fun _ => True) log x.
Proof.
  intros Hd. apply (outbox_pass_safe (fun _ => True)) in Hd as [_ [?|Hlog]]; [by left| |by split|done].
  destruct Hlog as (holder & n & per & ttl & now & events & (w1 & _ & w2 & _ & Hc) & Hok). right.
  eexists _, _, _, _, _, events. split; [by exists w1, w2|done].
Qed.
End recorded_pass.

(** ** Every claimed event, exactly once *)

Section decisions.
Context {W : Type} `{HashLib} `{UuidLib} `{JsonLib} `{TimeLib}.
Context `{Clock W} `{OutboxRepository W} `{EventSender W} `{Latency W}.

(** How many decisions are on record. *)
Definition decisions (w : W * list OutboxLog) : nat := length (decided w.2).

Lemma decisions_snoc (w w' : W) log x :
  decisions (w', log ++ [x]) = (decisions (w, log) + length (option_list (decision x)))%nat.
Proof.
  unfold decisions, decided. cbn [snd]. rewrite omap_app, length_app. cbn. by destruct (decision x).
Qed.

Abbreviation spends := (spends decisions).

Lemma unlogged_spends {A} (m : eff W RepositoryError A) : spends (repository (unlogged m)) 0.
Proof.
  apply spends_await. intros [w log]. unfold eff_map_err, unlogged. destruct (m w) as [r w'].
  unfold decisions. cbn. lia.
Qed.
Lemma logged_spends {A} x (m : eff W RepositoryError A) :
  spends (repository (logged x m)) (length (option_list (decision x))).
Proof.
  apply spends_await. intros [w log]. unfold eff_map_err, logged. destruct (m w) as [r w'].
  cbn [snd]. by rewrite (decisions_snoc w).
Qed.
Lemma clock_spends : spends clock_task 0.
Proof.
  apply spends_call. intros [w log]. unfold read_clock. cbn. destruct (clock_now w). unfold decisions. cbn. lia.
Qed.
Lemma send_spends endpoint id body signature : spends (send_task endpoint id body signature) 0.
Proof.
  apply spends_await. intros [w log]. cbn [sender_deliver recording_sender].
  destruct (sender_deliver _ _ _ _ w). cbn [snd]. rewrite (decisions_snoc w). cbn. lia.
Qed.

Lemma deliver_to_spends self event body all_accepted endpoint :
  spends (deliver_to self event body all_accepted endpoint) 0.
Proof.
  unfold deliver_to. apply (spends_bind decisions _ _ 0 0); [done|]. intros secret. destruct (negb _).
  - apply (spends_bind decisions _ _ 0 0); [apply clock_spends|]. intros now.
    apply (spends_bind decisions _ _ 0 0); [apply logged_spends|done].
  - apply (spends_bind decisions _ _ 0 0); [done|]. intros previous.
    apply (spends_bind decisions _ _ 0 0); [apply clock_spends|]. intros now.
    apply (spends_bind decisions _ _ 0 0); [apply send_spends|]. intros outcome.
    destruct (attempt_columns outcome) as [[[status error] ms] accepted].
    apply (spends_bind decisions _ _ 0 0); [apply clock_spends|]. intros now'.
    apply (spends_bind decisions _ _ 0 0); [apply logged_spends|done].
Qed.

Lemma deliver_event_spends self endpoints report event : spends (deliver_event self endpoints report event) 1.
Proof.
  unfold deliver_event. case_bool_decide.
  - apply (spends_bind decisions _ _ 0 1); [apply clock_spends|]. intros now.
    apply (spends_bind decisions _ _ 1 0); [apply logged_spends|done].
  - apply (spends_bind decisions _ _ 0 1).
    { unfold measure_first_attempt. destruct (_ =? _); [|done].
      apply (spends_bind decisions _ _ 0 0); [apply clock_spends|done]. }
    intros []. apply (spends_bind decisions _ _ 0 1).
    { eapply spends_mono; [apply (spends_for_each _ _ 0); intros; apply deliver_to_spends|lia]. }
    intros [].
    + apply (spends_bind decisions _ _ 0 1); [apply clock_spends|]. intros now.
      apply (spends_bind decisions _ _ 1 0); [apply logged_spends|done].
    + unfold retry_or_give_up. apply (spends_bind decisions _ _ 0 1); [apply clock_spends|]. intros now.
      destruct (_ <=? _).
      * apply (spends_bind decisions _ _ 1 0); [apply logged_spends|done].
      * apply (spends_bind decisions _ _ 0 1); [done|]. intros available_at.
        apply (spends_bind decisions _ _ 0 1); [apply clock_spends|]. intros now'.
        apply (spends_bind decisions _ _ 1 0); [apply logged_spends|done].
Qed.

Lemma deliver_merchant_spends self merchant queue : spends (deliver_merchant self merchant queue) (length queue).
Proof.
  rewrite <- (Nat.mul_1_l (length queue)). unfold deliver_merchant. destruct merchant as [merchant_id|].
  - apply (spends_bind decisions _ _ 0 (1 * length queue)); [apply unlogged_spends|]. intros endpoints.
    apply spends_for_each. intros. apply deliver_event_spends.
  - apply spends_for_each. intros report event. apply (spends_bind decisions _ _ 0 1); [apply clock_spends|]. intros now.
    apply (spends_bind decisions _ _ 1 0); [apply logged_spends|done].
Qed.

(** The claim of a recorded pass is the claim of the pass. *)
Lemma recorded_claims : OutboxClaims W -> OutboxClaims (W * list OutboxLog).
Proof.
  intros Hc holder n per ttl now [w1 log] events w2 Hn. cbn. unfold unlogged.
  destruct (claim_due_events holder n per ttl now w1) as [r w'] eqn:Hcl. intros [= -> _]. by eapply Hc.
Qed.
Lemma recorded_claim_batch self limit w log :
  claim_batch self limit (w, log) = ((claim_batch self limit w).1, ((claim_batch self limit w).2, log)).
Proof.
  unfold claim_batch. cbn [clock_now recording_clock unlogged_clock]. destruct (clock_now w) as [now w1]. cbn.
  unfold unlogged. by destruct (claim_due_events _ _ _ _ _ w1).
Qed.

(** A pass that succeeds has decided on every event it claimed, and made no
    more decisions than it claimed events. *)
Lemma outbox_pass_decides fuel self limit (w : W) report w' log events w2 :
  claim_batch self limit w = (Ok events, w2) ->
  deliver_due fuel self limit (w, @nil OutboxLog) = Some (Ok report, (w', log)) ->
  (forall e, e ∈ events -> oe_id e ∈ decided log) /\ (length (decided log) <= length events)%nat.
Proof.
  intros Hcl. unfold deliver_due. destruct (_ || _); [done|].
  cbn [clock_now recording_clock unlogged_clock]. unfold claim_batch in Hcl.
  destruct (clock_now w) as [now w1]. cbn [fst snd] in Hcl. cbn [claim_due_events recording_outbox]. unfold unlogged.
  rewrite Hcl. destruct (bounded_join fuel _ _ _) as [[outcomes [w3 log3]]|] eqn:Hj; [|done].
  cbn. intros [= Hrep -> ->]. split.
  - set (futures := (fun '(merchant, queue) => deliver_merchant self merchant queue) <$> group_events events) in *.
    set (Q := fun (i : nat) (w' : W * list OutboxLog) (o : result OutboxError OutboxReport) =>
      forall merchant queue r, group_events events !! i = Some (merchant, queue) -> o = Ok r ->
        forall e, e ∈ queue -> oe_id e ∈ decided w'.2).
    pose proof (log_grows_preorder (W := W)) as Hpre.
    assert (Hst : forall i, stable log_grows (Q i)).
    { intros i a b o Hab HQ merchant queue r Hg Ho e He. specialize (HQ merchant queue r Hg Ho e He).
      apply list_elem_of_omap in HQ as (x & Hx & Hd). apply list_elem_of_omap. exists x.
      split; [|done]. destruct Hab as [l Hl]. rewrite Hl. apply elem_of_app. by left. }
    destruct (@bounded_join_safe _ (log_true (W := W) self events (fun _ => True)) log_grows Hpre _ Q Hst
      futures (df_concurrency (ob_fairness self)) (w2, [])) as (enough & outs & wf & Hf & _ & _ & Hlen & HQ).
    + split; [by apply Forall_nil|done].
    + intros i p Hp. apply list_lookup_fmap_Some in Hp as ([merchant queue] & -> & Hg).
      eapply safe_weaken; [exact Hpre|apply (deliver_merchant_safe self events (fun _ => True) ltac:(by split));
        by eapply list_elem_of_lookup_2|].
      intros w4 o _ Ho merchant' queue' r Hg' -> e He. rewrite Hg in Hg'. injection Hg' as <- <-. by apply Ho.
    + specialize (Hf (fuel `max` enough)%nat ltac:(lia)).
      rewrite (bounded_join_more_fuel fuel (fuel `max` enough)%nat _ _ _ _ ltac:(lia) Hj) in Hf. injection Hf as <- <-.
      intros e (i & queue & Hg & He)%group_events_elem.
      assert (is_Some (outcomes !! i)) as [o Ho].
      { apply lookup_lt_is_Some. rewrite Hlen. unfold futures. rewrite length_fmap. by eapply lookup_lt_Some. }
      pose proof (join_reports_all_ok _ _ _ Hrep (list_elem_of_lookup_2 _ _ _ Ho)) as Hok. destruct o as [r|]; [|done].
      exact (HQ i _ Ho _ _ r Hg eq_refl e He).
  - eapply (bounded_join_spends decisions _ _ _ _ _ _ (length ∘ snd <$> group_events events)) in Hj.
    + rewrite group_events_length in Hj. exact Hj.
    + apply Forall2_fmap_l, Forall2_fmap_r, Forall2_same_length_lookup. split; [done|].
      intros i [merchant queue] [m q] H1' H2'. rewrite H1' in H2'. injection H2' as <- <-. apply deliver_merchant_spends.
Qed.

(** C29: A delivery pass always ends: whatever the endpoints and storage do,
    and however long each call is pending, every merchant's deliveries run to
    completion.  A pass that succeeds has decided on each event it claimed
    exactly once, that it is delivered, put off or set aside, and on no other;
    its report counts the claimed events, no more than its limit, and the
    three kinds of decisions add up to that count. *)
Theorem outbox_pass_completes self limit (w : W) :
  OutboxClaims W -> 0 <= limit ->
  exists fuel outcome w' log,
    (forall fuel', (fuel <= fuel')%nat ->
       deliver_due fuel' self limit (w, @nil OutboxLog) = Some (outcome, (w', log)))
    /\ forall report, outcome = Ok report -> 1 <= limit <= MAX_BATCH_LIMIT
       /\ exists events w2, claim_batch self limit w = (Ok events, w2)
          /\ decided log ≡ₚ (oe_id <$> events)
          /\ or_claimed report = Z.of_nat (length events) /\ or_claimed report <= limit
          /\ or_claimed report = or_delivered report + or_rescheduled report + or_dead_lettered report
          /\ 0 <= or_endpoints_missing report <= or_dead_lettered report.
Proof.
  intros Hclaim Hlimit.
  destruct (outbox_pass_ends self limit (w, @nil OutboxLog) (recorded_claims Hclaim) Hlimit)
    as (fuel & outcome & [w' log] & Hf & Hrep).
  exists fuel, outcome, w', log. split; [done|]. intros report ->.
  destruct (Hrep report eq_refl) as (Hl & events & [w2 log2] & Hcl & Hlen & Hadd). split; [done|].
  rewrite recorded_claim_batch in Hcl. injection Hcl as Hcl1 Hcl2 _.
  assert (claim_batch self limit w = (Ok events, w2)) as Hcl by (rewrite <- Hcl1, <- Hcl2; by destruct (claim_batch _ _ w)).
  destruct (outbox_pass_decides fuel self limit w report w' log events w2 Hcl (Hf fuel ltac:(lia))) as [Hall Hle].
  exists events, w2. split; [done|]. split; [|unfold report_adds_up in Hadd; lia].
  symmetry. apply submseteq_length_Permutation; [|by rewrite length_fmap].
  apply NoDup_submseteq; [by eapply Hclaim|]. intros id (e & -> & He)%list_elem_of_fmap. by apply Hall.
Qed.
End decisions.

(** ** A concrete pass: one event, one endpoint that accepts it. *)

Import ReferenceInstances.

Definition sample_service : OutboxService :=
  mkOutboxService (repeat x01 32) "worker" 5 DeliveryFairness_default.
Definition sample_webhook : WebhookEndpoint := {|
  we_id := 3; we_merchant_id := 2; we_url := "https://shop.example/hook"; we_secret_version := 1;
  we_secret_fingerprint :=
    sha256 (hmac_sha256 (repeat x01 32) (derive_message 1 2 3));
  we_previous_secret := None |}.
Definition sample_outbox_event : OutboxEvent := {|
  oe_id := 7; oe_merchant_id := Some 2; oe_event_type := "payment.settled";
  oe_aggregate_type := "payment_intent"; oe_aggregate_id := 9; oe_payload := JObject [];
  oe_attempts := 0; oe_created_at := 0; oe_target_endpoint_id := None; oe_attempt_floor := 0 |}.

#[local] Instance pass_clock : Clock unit := {| clock_now w := (0, w) |}.
#[local] Instance pass_latency : Latency unit := {| latency _ := 2%nat |}.
#[local] Instance pass_sender : EventSender unit :=
  {| sender_deliver _ _ _ _ w := (Accepted 200 15, w) |}.
#[local] Instance pass_outbox : OutboxRepository unit := {|
  claim_due_events _ n _ _ _ := mret (take (Z.to_nat n) [sample_outbox_event]);
  active_endpoints _ := mret [sample_webhook]; record_attempt _ _ := mret tt;
  mark_delivered _ _ := mret tt; reschedule _ _ _ _ := mret tt; dead_letter _ _ _ := mret tt |}.

Lemma outbox_pass_completes_witness :
  exists fuel report w' log, deliver_due fuel sample_service 10 (tt, @nil OutboxLog) = Some (Ok report, (w', log))
    /\ decided log = [7] /\ or_delivered report = 1.
Proof.
  destruct (outbox_pass_completes sample_service 10 tt) as (fuel & outcome & w' & log & Hf & Hrep).
  - intros holder n per ttl now w1 events w2 Hn [= <- _]. rewrite length_take.
    split; [simpl; lia|]. apply (NoDup_fmap_2_strong _ (take (Z.to_nat n) [sample_outbox_event])).
    + intros x y Hx%elem_of_take Hy%elem_of_take. destruct Hx as (i & Hx & _), Hy as (j & Hy & _).
      apply list_elem_of_lookup_2, list_elem_of_singleton in Hx, Hy. by subst.
    + apply (sublist_NoDup _ [sample_outbox_event]); [apply NoDup_singleton|apply sublist_take].
  - lia.
  - pose proof (Hf (fuel `max` 100)%nat ltac:(lia)) as Hrun.
    destruct (deliver_due 100 sample_service 10 (tt, @nil OutboxLog)) as [[outcome0 [w0 log0]]|] eqn:H100;
      [|vm_compute in H100; discriminate H100].
    rewrite (deliver_due_more_fuel (W := unit * list OutboxLog) 100 (fuel `max` 100)%nat _ _ _ _ ltac:(lia) H100) in Hrun. injection Hrun as -> -> ->.
    destruct outcome as [report|e]; [|vm_compute in H100; discriminate H100].
    destruct (Hrep report eq_refl) as (_ & events & w2 & [= <- _] & Hperm & _).
    exists 100%nat, report, w', log. split; [exact H100|]. split; [|vm_compute in H100; by injection H100 as <- _ _].
    apply Permutation_singleton_r. exact Hperm.
Defined.

Lemma outbox_pass_tells_the_truth_witness :
  exists outcome log, deliver_due 40 sample_service 10 (tt, @nil OutboxLog) = Some (outcome, (tt, log))
    /\ LogDelivered 7 ∈ log
    /\ exists events, entry_ok (W := unit) sample_service events (fun _ => True) log (LogDelivered 7).
Proof.
  destruct (deliver_due 40 sample_service 10 (tt, @nil OutboxLog)) as [[outcome [[] log]]|] eqn:Hrun;
    [|vm_compute in Hrun; discriminate Hrun].
  destruct (outbox_pass_tells_the_truth 40 sample_service 10 tt outcome tt log Hrun)
    as [Hnil|(holder & n & per & ttl & now & events & _ & Hok)].
  - subst log. vm_compute in Hrun. discriminate Hrun.
  - exists outcome, log. split; [reflexivity|].
    assert (Hin : LogDelivered 7 ∈ log).
    { vm_compute in Hrun. injection Hrun as <- <-. do 2 right. left. }
    split; [exact Hin|]. exists events. apply Hok. exact Hin.
Defined.
