(* ===== verification/StorageOutbox.v ===== *)
(** * The outbox in PostgreSQL

    [gateway-storage/src/outbox.rs] and [redelivery.rs]: claiming the events
    that are due, the endpoints of a merchant, the records of attempts, the
    three ways an event leaves a claim, and queueing an ended event again. *)

From Stdlib Require Import Ascii String Strings.Byte.
From stdpp Require Import gmap.
From S2P Require Import Prelude RustStd Externals Effects Chain Quote Observations WebhookSign WebhookSender Futures Outbox.
From S2P Require Import Settlement SettlementService Database StorageSettlement Operations StorageOperations.

Local Open Scope Z_scope.

(** ** Rows and queries *)

Definition OutboxEvent_from (entry : Z * DomainEventRow) : OutboxEvent :=
  let '(id, row) := entry in {|
  oe_id := id; oe_merchant_id := de_merchant_id row; oe_event_type := de_event_type row;
  oe_aggregate_type := de_aggregate_type row; oe_aggregate_id := de_aggregate_id row;
  oe_payload := de_payload row; oe_attempts := de_attempts row; oe_created_at := de_created_at row;
  oe_target_endpoint_id := de_target_endpoint_id row; oe_attempt_floor := de_attempt_floor row |}.

Record WebhookEndpointRow := mkWebhookEndpointRow {
  wx_id : Z;
  wx_merchant_id : Z;
  wx_url : string;
  wx_secret_version : Z;             (* i32 *)
  wx_secret_fingerprint : list byte;
  wx_previous_secret_version : option Z;
  wx_previous_secret_fingerprint : option (list byte);
}.

(** [try_into] of a vector into 32 bytes. *)
Definition fingerprint_of (bytes : list byte) (message : string) : result RepositoryError (list byte) :=
  if Nat.eqb (length bytes) 32 then Ok bytes else Err (corrupt message).
Definition WebhookEndpoint_try_from (row : WebhookEndpointRow) : result RepositoryError WebhookEndpoint :=
  fingerprint ← fingerprint_of (wx_secret_fingerprint row) "a webhook endpoint fingerprint is not 32 bytes";
  previous_secret ← (match wx_previous_secret_version row, wx_previous_secret_fingerprint row with
    | Some version, Some fingerprint =>
        fingerprint ← fingerprint_of fingerprint "a previous webhook secret fingerprint is not 32 bytes";
        Ok (Some {| ps_version := version; ps_fingerprint := fingerprint |})
    | _, _ => Ok None
    end);
  Ok {| we_id := wx_id row; we_merchant_id := wx_merchant_id row; we_url := wx_url row;
        we_secret_version := wx_secret_version row; we_secret_fingerprint := fingerprint;
        we_previous_secret := previous_secret |}.

(** The due conditions. *)
Definition is_due (now : Z) (event : DomainEventRow) : bool :=
  bool_decide (de_channel event = "webhook") && is_none (de_delivered_at event)
  && is_none (de_dead_lettered_at event) && (de_available_at event <=? now)
  && match de_claimed_until event with None => true | Some until => until <? now end.
Definition due_events (now : Z) (db : Database) : list (Z * DomainEventRow) :=
  filter (fun entry => is_due now (snd entry) = true) (map_to_list (domain_events db)).

(** [ORDER BY available_at, id] *)
Definition by_availability (a b : Z * DomainEventRow) : comparison :=
  match de_available_at (snd a) ?= de_available_at (snd b) with Eq => fst a ?= fst b | c => c end.
(** [row_number() OVER (PARTITION BY merchant_id ORDER BY available_at, id)] *)
Definition position (now : Z) (db : Database) (entry : Z * DomainEventRow) : Z :=
  1 + Z.of_nat (length (filter (fun other =>
        de_merchant_id (snd other) = de_merchant_id (snd entry) /\ by_availability other entry = Lt)
      (due_events now db))).
(** The rows of [due].  Nothing is locked by another worker here, and
    [RETURNING] promises no order; no theorem depends on the one below. *)
Definition claimable (limit per_merchant_limit now : Z) (db : Database) : list (Z * DomainEventRow) :=
  take (Z.to_nat limit) (sort_by by_availability
    (filter (fun entry => position now db entry <= per_merchant_limit) (due_events now db))).

(** An event with its delivery state changed. *)
Definition event_with (available_at attempts : Z) (last_error claimed_by : option string)
    (claimed_until delivered_at dead_lettered_at target : option Z) (attempt_floor : Z)
    (event : DomainEventRow) : DomainEventRow := {|
  de_merchant_id := de_merchant_id event; de_channel := de_channel event; de_event_type := de_event_type event;
  de_aggregate_type := de_aggregate_type event; de_aggregate_id := de_aggregate_id event;
  de_payload := de_payload event; de_available_at := available_at; de_attempts := attempts;
  de_last_error := last_error; de_claimed_by := claimed_by; de_claimed_until := claimed_until;
  de_delivered_at := delivered_at; de_dead_lettered_at := dead_lettered_at;
  de_created_at := de_created_at event; de_target_endpoint_id := target; de_attempt_floor := attempt_floor |}.
Definition claimed_row (holder : string) (until : Z) (event : DomainEventRow) : DomainEventRow :=
  event_with (de_available_at event) (de_attempts event) (de_last_error event) (Some holder) (Some until)
    (de_delivered_at event) (de_dead_lettered_at event) (de_target_endpoint_id event) (de_attempt_floor event) event.

Definition claim_events (holder : string) (limit per_merchant_limit now claimed_until : Z)
    : statement (list (Z * DomainEventRow)) := fun db =>
  let due := claimable limit per_merchant_limit now db in
  Ok ((fun entry => (fst entry, claimed_row holder claimed_until (snd entry))) <$> due,
      on_domain_events (fun events =>
        foldl (fun m entry => <[fst entry := claimed_row holder claimed_until (snd entry)]> m) events due) db).

(** The active endpoints, with the previous secret while it is valid. *)
Definition endpoint_row (now : Z) (entry : Z * EndpointRow) : WebhookEndpointRow :=
  let '(id, row) := entry in
  let valid := match er_previous_valid_until row with Some until => now <? until | None => false end in {|
  wx_id := id; wx_merchant_id := er_merchant_id row; wx_url := er_url row;
  wx_secret_version := er_secret_version row; wx_secret_fingerprint := er_secret_fingerprint row;
  wx_previous_secret_version := if valid then er_previous_secret_version row else None;
  wx_previous_secret_fingerprint := if valid then er_previous_secret_fingerprint row else None |}.
Definition endpoint_rows (merchant_id now : Z) (db : Database) : list WebhookEndpointRow :=
  endpoint_row now <$> sort_by (fun a b => er_created_at (snd a) ?= er_created_at (snd b))
    (filter (fun entry => er_merchant_id (snd entry) = merchant_id /\ er_status (snd entry) = "active")
       (map_to_list (webhook_endpoints db))).

(** [INSERT INTO webhook_deliveries .. ON CONFLICT .. DO UPDATE] *)
Definition insert_delivery (id : Z) (attempt : DeliveryAttempt) (now : Z) : statement unit := fun db =>
  let key := (da_event_id attempt, da_endpoint_id attempt, da_attempt attempt) in
  let duration_ms := default I32_MAX (i32_try_from (da_duration_ms attempt)) in
  let row id := {| dl_id := id; dl_response_status := da_status attempt; dl_error := da_error attempt;
                   dl_duration_ms := duration_ms; dl_delivered_at := now |} in
  _ ← check_constraint "webhook_deliveries_attempt_check" (0 <? da_attempt attempt);
  _ ← check_constraint "webhook_deliveries_duration_ms_check" (0 <=? duration_ms);
  match webhook_deliveries db !! key with
  | Some existing => Ok (tt, on_deliveries <[key := row (dl_id existing)]> db)
  | None =>
      _ ← unique_key "webhook_deliveries_pkey"
            (is_some (find_where (fun other => dl_id other =? id) (webhook_deliveries db)));
      _ ← foreign_key "webhook_deliveries_event_id_fkey" (is_row (domain_events db) (da_event_id attempt));
      _ ← foreign_key "webhook_deliveries_endpoint_id_fkey"
            (is_row (webhook_endpoints db) (da_endpoint_id attempt));
      Ok (tt, on_deliveries <[key := row id]> db)
  end.

(** [UPDATE domain_events SET .. WHERE id AND delivered_at IS NULL AND
    dead_lettered_at IS NULL] *)
Definition is_open (event : DomainEventRow) : bool :=
  is_none (de_delivered_at event) && is_none (de_dead_lettered_at event).
Definition update_event (event_id : Z) (set_ : DomainEventRow -> result SqlError DomainEventRow)
    : statement unit := fun db =>
  '(_, table) ← update_row event_id is_open set_ (domain_events db);
  Ok (tt, on_domain_events (fun _ => table) db).
Definition delivered_row (now : Z) (event : DomainEventRow) : result SqlError DomainEventRow :=
  attempts ← integer_next (de_attempts event);
  Ok (event_with (de_available_at event) attempts None None None (Some now) (de_dead_lettered_at event)
        (de_target_endpoint_id event) (de_attempt_floor event) event).
Definition rescheduled_row (available_at : Z) (error : string) (event : DomainEventRow)
    : result SqlError DomainEventRow :=
  attempts ← integer_next (de_attempts event);
  Ok (event_with available_at attempts (Some error) None None (de_delivered_at event) (de_dead_lettered_at event)
        (de_target_endpoint_id event) (de_attempt_floor event) event).
Definition dead_row (now : Z) (error : string) (event : DomainEventRow) : result SqlError DomainEventRow :=
  attempts ← integer_next (de_attempts event);
  Ok (event_with (de_available_at event) attempts (Some error) None None (de_delivered_at event) (Some now)
        (de_target_endpoint_id event) (de_attempt_floor event) event).

(** ** Redelivery *)

(** [SELECT EXISTS (.. webhook_endpoints ..)] *)
Definition is_reachable (merchant_id : Z) (endpoint_id : option Z) (db : Database) : bool :=
  bool_decide (map_Exists (fun id row => er_merchant_id row = merchant_id /\ er_status row = "active"
    /\ (endpoint_id = None \/ endpoint_id = Some id)) (webhook_endpoints db)).
(** The endpoint belongs to the merchant of the row. *)
Definition target_of (target merchant_id : option Z) (db : Database) : bool :=
  match target, merchant_id with
  | Some id, Some merchant_id =>
      match webhook_endpoints db !! id with Some row => er_merchant_id row =? merchant_id | None => false end
  | _, _ => true
  end.
Definition requeued_row (now : Z) (target : option Z) (event : DomainEventRow) : DomainEventRow :=
  event_with now (de_attempts event) None None None None None target (de_attempts event) event.
Definition requeue_event (event_id now : Z) (target : option Z) : statement unit := fun db =>
  '(_, table) ← update_row event_id (fun _ => true) (fun event =>
      _ ← foreign_key "domain_events_target_endpoint_fkey" (target_of target (de_merchant_id event) db);
      Ok (requeued_row now target event)) (domain_events db);
  Ok (tt, on_domain_events (fun _ => table) db).

Definition insert_redelivery (scope idempotency_key : string) (row : RedeliveryRow)
    : statement RedeliveryRow := fun db =>
  _ ← check_constraint "webhook_redeliveries_principal_check" (in_range 1 200 (char_length scope));
  _ ← check_constraint "webhook_redeliveries_actor_label_check" (in_range 1 100 (char_length (rd_actor_label row)));
  _ ← check_constraint "webhook_redeliveries_idempotency_key_check"
        (in_range 16 128 (char_length idempotency_key));
  _ ← check_constraint "webhook_redeliveries_request_hash_check" (Nat.eqb (length (rd_request_hash row)) 32);
  _ ← check_constraint "webhook_redeliveries_reason_check" (in_range 1 1000 (char_length (btrim (rd_reason row))));
  _ ← check_constraint "webhook_redeliveries_previous_state_check"
        (bool_decide (rd_previous_state row ∈ ["delivered"; "dead_lettered"]));
  _ ← check_constraint "webhook_redeliveries_previous_attempts_check" (0 <=? rd_previous_attempts row);
  _ ← unique_key "webhook_redeliveries_pkey"
        (is_some (find_where (fun other => rd_id other =? rd_id row) (webhook_redeliveries db)));
  _ ← unique_key "webhook_redeliveries_principal_idempotency_key_key"
        (is_row (webhook_redeliveries db) (scope, idempotency_key));
  _ ← foreign_key "webhook_redeliveries_event_id_fkey" (is_row (domain_events db) (rd_event_id row));
  _ ← foreign_key "webhook_redeliveries_merchant_id_fkey" (is_row (merchants db) (rd_merchant_id row));
  _ ← foreign_key "webhook_redeliveries_operator_key_id_fkey"
        (is_row_or_null (operator_api_keys db) (rd_operator_key_id row));
  _ ← foreign_key "webhook_redeliveries_endpoint_id_merchant_id_fkey"
        (target_of (rd_endpoint_id row) (Some (rd_merchant_id row)) db);
  Ok (row, on_redeliveries <[(scope, idempotency_key) := row]> db).

(** [StoredRedelivery::into_result] *)
Definition into_result (row : RedeliveryRow) (replayed : bool) : RedeliveryResult := {|
  rv_id := rd_id row; rv_event_id := rd_event_id row; rv_merchant_id := rd_merchant_id row;
  rv_endpoint_id := rd_endpoint_id row; rv_previous_state := rd_previous_state row;
  rv_previous_attempts := rd_previous_attempts row; rv_requested_at := rd_created_at row;
  rv_replayed := replayed |}.

(** ** The repository *)

Section repository.
Context {R : Type} `{Postgres R} `{UuidLib} `{TimeLib}.

Definition pg_claim_due_events (holder : string) (limit per_merchant_limit visibility_seconds now : Z)
    : storage (R := R) (list OutboxEvent) :=
  _ ← lift (guard_err (visibility_seconds <=? 0) (corrupt "a delivery claim needs a positive visibility window"));
  claimed_until ← lift (ok_or (odt_checked_add now (duration_seconds visibility_seconds))
    (corrupt "the delivery visibility window overflowed"));
  rows ← eff_map_err unavailable (run_pool (claim_events holder limit per_merchant_limit now claimed_until));
  mret (OutboxEvent_from <$> rows).

Definition pg_active_endpoints (merchant_id : Z) : storage (R := R) (list WebhookEndpoint) :=
  rows ← eff_map_err unavailable (run_pool_at (fun now => select (endpoint_rows merchant_id now)));
  lift (collect WebhookEndpoint_try_from rows).

Definition pg_record_attempt (attempt : DeliveryAttempt) (now : Z) : storage (R := R) unit :=
  id ← new_uuid;
  eff_map_err unavailable (run_pool (insert_delivery id attempt now)).

Definition pg_mark_delivered (event_id now : Z) : storage (R := R) unit :=
  eff_map_err unavailable (run_pool (update_event event_id (delivered_row now))).
Definition pg_reschedule (event_id available_at : Z) (error : string) (_now : Z) : storage (R := R) unit :=
  eff_map_err unavailable (run_pool (update_event event_id (rescheduled_row available_at error))).
Definition pg_dead_letter (event_id : Z) (error : string) (now : Z) : storage (R := R) unit :=
  eff_map_err unavailable (run_pool (update_event event_id (dead_row now error))).

(** [impl OutboxRepository for PostgresRepository] *)
#[export] Instance postgres_outbox : OutboxRepository (Session R) := {|
  claim_due_events := pg_claim_due_events; active_endpoints := pg_active_endpoints;
  record_attempt := pg_record_attempt; mark_delivered := pg_mark_delivered;
  reschedule := pg_reschedule; dead_letter := pg_dead_letter |}.

Definition red_storage (error : SqlError) : RedeliveryError := RedRepository (unavailable error).
Definition red_exec {A} (st : statement A) : eff (Session R) RedeliveryError A := eff_map_err red_storage (run st).

(** What the event was before: (delivered, dead-lettered). *)
Definition ended_state (event : DomainEventRow) : result RedeliveryError string :=
  match is_some (de_delivered_at event), is_some (de_dead_lettered_at event) with
  | true, _ => Ok "delivered"
  | false, true => Ok "dead_lettered"
  | false, false => Err StillQueued
  end.

Definition pg_redeliver_webhook_event (actor : RedeliveryActor) (idempotency_key : string)
    (request_hash : list byte) (request : WebhookRedelivery) (now : Z)
    : eff (Session R) RedeliveryError RedeliveryResult :=
  let scope := principal actor in
  _ ← eff_map_err red_storage begin_transaction;
  _ ← red_exec (select (fun _ => tt));               (* pg_advisory_xact_lock *)
  stored ← red_exec (select (fun db => webhook_redeliveries db !! (scope, idempotency_key)));
  match stored with
  | Some stored =>
      _ ← lift (guard_err (negb (bool_decide (rd_request_hash stored = request_hash))) RedIdempotencyConflict);
      _ ← eff_map_err red_storage commit;
      mret (into_result stored true)
  | None =>
      event ← red_exec (select (fun db => domain_events db !! wr_event_id request));
      event ← lift (ok_or event EventNotFound);
      _ ← lift (guard_err (negb (bool_decide (de_channel event = "webhook"))) NotAWebhook);
      merchant_id ← lift (ok_or (de_merchant_id event) NotAWebhook);
      previous_state ← lift (ended_state event);
      reachable ← red_exec (select (is_reachable merchant_id (wr_endpoint_id request)));
      _ ← lift (guard_err (negb reachable) EndpointNotFound);
      _ ← red_exec (requeue_event (wr_event_id request) now (wr_endpoint_id request));
      id ← new_uuid;
      stored ← red_exec (insert_redelivery scope idempotency_key {|
        rd_id := id; rd_event_id := wr_event_id request; rd_merchant_id := merchant_id;
        rd_endpoint_id := wr_endpoint_id request; rd_operator_key_id := operator_key_id actor;
        rd_actor_label := actor_label actor; rd_request_hash := request_hash;
        rd_reason := trim (wr_reason request); rd_previous_state := previous_state;
        rd_previous_attempts := de_attempts event; rd_created_at := now |});
      audit_id ← new_uuid;
      _ ← red_exec (insert_audit audit_id {|
        au_merchant_id := Some merchant_id; au_actor_type := "operator"; au_actor_id := operator_key_id actor;
        au_action := "webhook_event.redeliver"; au_resource_type := "domain_event";
        au_resource_id := Some (wr_event_id request); au_reason := Some (trim (wr_reason request));
        au_payload := JObject
          [("actor", JString (actor_label actor));
           ("endpoint_id", match wr_endpoint_id request with Some id => uuid_json id | None => JNull end);
           ("previous_attempts", JNumber (dec_signed (de_attempts event)));
           ("previous_state", JString previous_state); ("principal", JString scope);
           ("redelivery_id", uuid_json id)];
        au_created_at := now |});
      _ ← eff_map_err red_storage commit;
      mret (into_result stored false)
  end.

(** [impl RedeliveryRepository for PostgresRepository] *)
#[export] Instance postgres_redelivery : RedeliveryRepository (Session R) := {|
  redeliver_webhook_event := pg_redeliver_webhook_event |}.
End repository.
