(* ===== verification/OutboxBooks.v ===== *)
(** * The outbox through any deliveries

    What a claim takes from the queue, and what a delivery pass leaves behind
    in the database. *)

From Stdlib Require Import Ascii String Strings.Byte Sorting.Sorted.
From stdpp Require Import gmap.
From S2P Require Import Prelude RustStd Externals Effects Chain Quote Observations WebhookSign WebhookSender Futures Outbox.
From S2P Require Import Settlement SettlementService Database StorageSettlement SettlementBooks Operations StorageOperations OperationsBooks MerchantBooks StorageOutbox.

Local Open Scope Z_scope.

(** ** The order of the queue *)

Lemma by_availability_lt a b :
  by_availability a b = Lt <->
  de_available_at (snd a) < de_available_at (snd b)
  \/ de_available_at (snd a) = de_available_at (snd b) /\ fst a < fst b.
Proof.
  unfold by_availability. destruct (Z.compare_spec (de_available_at (snd a)) (de_available_at (snd b)));
    [rewrite Z.compare_lt_iff|..]; intuition (lia || done).
Qed.

Lemma by_availability_le a b :
  cmp_le by_availability a b <->
  de_available_at (snd a) < de_available_at (snd b)
  \/ de_available_at (snd a) = de_available_at (snd b) /\ fst a <= fst b.
Proof.
  unfold cmp_le, by_availability. destruct (Z.compare_spec (de_available_at (snd a)) (de_available_at (snd b)));
    [rewrite Z.compare_gt_iff|..]; intuition (lia || done).
Qed.

Lemma by_availability_total l : total_preorder_on by_availability l.
Proof.
  split.
  - intros x y _ _ Hgt. apply by_availability_le. unfold by_availability in Hgt.
    destruct (Z.compare_spec (de_available_at (snd x)) (de_available_at (snd y))); [|done|lia].
    apply Z.compare_gt_iff in Hgt. lia.
  - intros x y z _ _ _. rewrite !by_availability_le. lia.
Qed.

(** The last of some events. *)
Lemma latest (l : list (Z * DomainEventRow)) :
  l <> [] -> exists x, x ∈ l /\ forall y, y ∈ l -> cmp_le by_availability y x.
Proof.
  induction l as [|a l IH]; [done|]. intros _. destruct (decide (l = [])) as [->|Hl].
  - exists a. split; [left|]. intros y ->%list_elem_of_singleton. apply by_availability_le. lia.
  - destruct (IH Hl) as (x & Hx & Hmax). destruct (by_availability a x) eqn:Hc.
    1-2: exists x; split; [by right|]; intros y [->|Hy]%elem_of_cons; [unfold cmp_le; by rewrite Hc|by apply Hmax].
    exists a. split; [left|]. destruct (by_availability_total [a; x]) as [Hflip Htrans].
    assert (cmp_le by_availability x a) as Hxa by (apply Hflip; [set_solver..|done]).
    intros y [->|Hy]%elem_of_cons; [apply by_availability_le; lia|].
    specialize (Hmax y Hy). rewrite by_availability_le in Hmax, Hxa |- *. lia.
Qed.

(** ** What a claim takes *)

Lemma due_events_spec now db id row :
  (id, row) ∈ due_events now db <-> domain_events db !! id = Some row /\ is_due now row = true.
Proof. unfold due_events. rewrite list_elem_of_filter, elem_of_map_to_list. naive_solver. Qed.

Lemma due_events_NoDup now db : NoDup (fst <$> due_events now db).
Proof.
  eapply sublist_NoDup; [apply (NoDup_fst_map_to_list (domain_events db))|]. apply fmap_sublist, sublist_filter.
Qed.

Section claims.
Context (limit per now : Z) (db : Database).

Let due := due_events now db.
Let claimed := claimable limit per now db.

Lemma claimable_spec e : e ∈ claimed -> e ∈ due /\ position now db e <= per.
Proof. intros He%elem_of_limited. apply list_elem_of_filter in He. naive_solver. Qed.

Lemma claimable_NoDup : NoDup (fst <$> claimed).
Proof.
  apply NoDup_limited. eapply sublist_NoDup; [apply due_events_NoDup|]. apply fmap_sublist, sublist_filter.
Qed.

Lemma claimable_length : 0 <= limit -> Z.of_nat (length claimed) <= limit.
Proof. intros. unfold claimed, claimable. rewrite length_take. lia. Qed.

(** A merchant gets no more than its share. *)
Lemma claimable_share (merchant : option Z) :
  Z.of_nat (length (filter (fun e => de_merchant_id (snd e) = merchant) claimed)) <= Z.max 0 per.
Proof.
  set (mine := filter _ claimed). destruct (decide (mine = [])) as [->|Hne]; [cbn; lia|].
  destruct (latest mine Hne) as (x & Hx & Hmax). apply list_elem_of_filter in Hx as [Hm Hx].
  assert (NoDup (fst <$> mine)) as Hnd.
  { eapply sublist_NoDup; [apply claimable_NoDup|]. apply fmap_sublist, sublist_filter. }
  apply claimable_spec in Hx as [Hdue Hpos]. unfold position in Hpos.
  set (older := filter _ (due_events now db)) in Hpos.
  assert (length mine <= S (length older))%nat; [|lia].
  transitivity (length (x :: older)); [|done]. apply submseteq_length, NoDup_submseteq.
  { by eapply NoDup_fmap_1. }
  intros y Hy. apply elem_of_cons. destruct (decide (fst y = fst x)) as [E|Hid].
  - left. destruct y as [i yrow], x as [j xrow]. cbn in E. subst j.
    apply list_elem_of_filter in Hy as [_ Hy%claimable_spec]. destruct Hy as [Hy%due_events_spec _].
    apply due_events_spec in Hdue. naive_solver.
  - right. apply list_elem_of_filter in Hy as Hy'. destruct Hy' as [Hym [Hydue _]%claimable_spec].
    apply list_elem_of_filter. split; [|done]. split; [congruence|]. specialize (Hmax y Hy).
    rewrite by_availability_le in Hmax. apply by_availability_lt. lia.
Qed.

(** An event is left because the batch is full or its merchant has enough
    older ones. *)
Lemma claimable_left e :
  e ∈ due -> e ∉ claimed -> 0 <= limit ->
  Z.of_nat (length claimed) = limit
  \/ per <= Z.of_nat (length (filter (fun other => de_merchant_id (snd other) = de_merchant_id (snd e)
                                        /\ by_availability other e = Lt) due)).
Proof.
  intros He Hn Hl. destruct (Z.eq_dec (Z.of_nat (length claimed)) limit) as [|Hlen]; [by left|right].
  pose proof (claimable_length Hl). destruct (Z.le_gt_cases (position now db e) per) as [Hpos|Hpos];
    [|unfold position in Hpos; subst due; lia].
  destruct Hn. apply limited_complete; [unfold claimed, claimable in *; lia|].
  apply list_elem_of_filter. by split.
Qed.

(** Of one merchant the oldest go first. *)
Lemma claimable_oldest e other :
  e ∈ claimed -> other ∈ due -> de_merchant_id (snd other) = de_merchant_id (snd e) ->
  by_availability other e = Lt -> other ∈ claimed.
Proof.
  intros He Ho Hm Hlt. pose proof He as [Hdue Hpos]%claimable_spec.
  assert (position now db other <= per) as Hpo.
  { etransitivity; [|exact Hpos]. unfold position.
    assert (length (filter (fun x => de_merchant_id (snd x) = de_merchant_id (snd other)
              /\ by_availability x other = Lt) (due_events now db))
      <= length (filter (fun x => de_merchant_id (snd x) = de_merchant_id (snd e)
              /\ by_availability x e = Lt) (due_events now db)))%nat; [|lia].
    apply submseteq_length, NoDup_submseteq.
    - apply NoDup_filter. by eapply NoDup_fmap_1, due_events_NoDup.
    - intros x [[Hxm Hx] Hin]%list_elem_of_filter. apply list_elem_of_filter. split; [|done]. split; [congruence|].
      rewrite by_availability_lt in *. lia. }
  unfold claimed, claimable in *. set (sorted := sort_by _ _) in *.
  assert (other ∈ sorted) as Hin by (unfold sorted; rewrite sort_by_perm; by apply list_elem_of_filter).
  assert (StronglySorted (cmp_le by_availability) sorted) as Hsort by (apply sort_by_sorted, by_availability_total).
  rewrite <- (take_drop (Z.to_nat limit) sorted) in Hin. apply elem_of_app in Hin as [|Hin]; [done|]. exfalso.
  rewrite <- (take_drop (Z.to_nat limit) sorted) in Hsort.
  assert (cmp_le by_availability e other) as Hle.
  { clear -Hsort He Hin. revert Hsort He Hin. generalize (drop (Z.to_nat limit) sorted).
    induction (take (Z.to_nat limit) sorted) as [|a l IH]; intros tail Hs He Hin; [by apply elem_of_nil in He|].
    apply StronglySorted_inv in Hs as [Hs Ha]. apply elem_of_cons in He as [->|He]; [|by eapply IH].
    rewrite Forall_forall in Ha. apply Ha. apply elem_of_app. by right. }
  rewrite by_availability_le in Hle. rewrite by_availability_lt in Hlt. lia.
Qed.
End claims.

Lemma length_filter_fmap {A B} (f : A -> B) (P : B -> Prop) `{!forall b, Decision (P b)} (Q : A -> Prop)
    `{!forall a, Decision (Q a)} l :
  (forall a, P (f a) <-> Q a) -> length (filter P (f <$> l)) = length (filter Q l).
Proof.
  intros HPQ. induction l as [|a l IH]; [done|]. rewrite fmap_cons, !filter_cons.
  destruct (decide (P (f a))), (decide (Q a)); cbn; rewrite ?IH; naive_solver.
Qed.

(** The table after a claim. *)
Definition claim_all (holder : string) (until : Z) (claimed : list (Z * DomainEventRow))
    (events : gmap Z DomainEventRow) : gmap Z DomainEventRow :=
  foldl (fun m entry => <[fst entry := claimed_row holder until (snd entry)]> m) events claimed.

Lemma claim_all_lookup holder until claimed events id :
  NoDup (fst <$> claimed) -> (forall i row, (i, row) ∈ claimed -> events !! i = Some row) ->
  claim_all holder until claimed events !! id =
    if decide (id ∈ (fst <$> claimed)) then claimed_row holder until <$> events !! id else events !! id.
Proof.
  unfold claim_all. induction claimed as [|[i row] l IH] using rev_ind; [done|]. rewrite fmap_app, foldl_app. cbn.
  intros (Hd & Hx & _)%NoDup_app Hin. destruct (decide (id = i)) as [->|Hne].
  - rewrite lookup_insert_eq, decide_True by set_solver. rewrite (Hin i row); [done|]. set_solver.
  - rewrite lookup_insert_ne, IH by (done || (intros; apply Hin; set_solver)).
    repeat case_decide; set_solver.
Qed.

Section claiming.
Context {R : Type} `{Postgres R} `{UuidLib} `{TimeLib}.

Lemma pg_claim_spec holder limit per visibility now (s : Session R) events s' :
  pg_claim_due_events holder limit per visibility now s = (Ok events, s') ->
  exists until, odt_checked_add now (duration_seconds visibility) = Some until /\ 0 < visibility
    /\ events = (fun entry => OutboxEvent_from (fst entry, claimed_row holder until (snd entry)))
                  <$> claimable limit per now (committed s)
    /\ committed s' = on_domain_events (claim_all holder until (claimable limit per now (committed s))) (committed s).
Proof.
  unfold pg_claim_due_events. intros ([] & s1 & Hv & Hm)%eff_bind_Ok. apply lift_Ok in Hv as [Hv%guard_err_Ok ->].
  apply eff_bind_Ok in Hm as (until & s2 & Hu & Hm). apply lift_Ok in Hu as [Hu%ok_or_Ok ->].
  apply eff_bind_Ok in Hm as (rows & s3 & Hr & Hm). apply mret_Ok in Hm as [-> ->].
  apply pool_Ok in Hr as (t & Hr). unfold claim_events in Hr. injection Hr as <- <-. exists until.
  split_and!; [done|lia| |done]. by rewrite <- list_fmap_compose.
Qed.

Lemma claimable_lookup limit per now db id row :
  (id, row) ∈ claimable limit per now db -> domain_events db !! id = Some row.
Proof. intros [Hd _]%claimable_spec. by apply due_events_spec in Hd as [? _]. Qed.

(** A claim shares the queue.  It takes at most its limit of events, each
    once, all of them due, and marks them as taken until the end of its
    visibility window; no merchant gets more than its share, of one merchant
    the oldest go first, and a due event is left as it was only because the
    batch is full or because its merchant has a full share of older ones
    waiting. *)
Theorem claim_shares_the_queue holder limit per visibility now (s : Session R) events s' :
  0 <= limit -> pg_claim_due_events holder limit per visibility now s = (Ok events, s') ->
  let due := due_events now (committed s) in
  Z.of_nat (length events) <= limit /\ NoDup (oe_id <$> events)
  /\ (forall merchant, Z.of_nat (length (filter (fun e => oe_merchant_id e = merchant) events)) <= Z.max 0 per)
  /\ (forall e, e ∈ events -> exists row until, (oe_id e, row) ∈ due /\ e = OutboxEvent_from (oe_id e, row)
        /\ odt_checked_add now (duration_seconds visibility) = Some until
        /\ domain_events (committed s') !! oe_id e = Some (claimed_row holder until row)
        /\ forall id other, (id, other) ∈ due -> de_merchant_id other = de_merchant_id row ->
             by_availability (id, other) (oe_id e, row) = Lt -> id ∈ (oe_id <$> events))
  /\ (forall id row, domain_events (committed s) !! id = Some row -> id ∉ (oe_id <$> events) ->
        domain_events (committed s') !! id = Some row
        /\ (is_due now row = true ->
            Z.of_nat (length events) = limit
            \/ per <= Z.of_nat (length (filter (fun other => de_merchant_id (snd other) = de_merchant_id row
                                                  /\ by_availability other (id, row) = Lt) due)))).
Proof.
  intros Hl Hm. apply pg_claim_spec in Hm as (until & Hu & _ & -> & Hdb).
  set (claimed := claimable limit per now (committed s)) in *. cbn zeta.
  rewrite <- list_fmap_compose, length_fmap.
  replace (_ <$> claimed) with (fst <$> claimed) by (by apply list_fmap_ext).
  assert (forall id, domain_events (committed s') !! id = if decide (id ∈ (fst <$> claimed))
    then claimed_row holder until <$> domain_events (committed s) !! id else domain_events (committed s) !! id) as Hlook.
  { intros id. rewrite Hdb. cbn. apply claim_all_lookup; [apply claimable_NoDup|]. intros i row. apply claimable_lookup. }
  split_and!.
  - by apply claimable_length.
  - apply claimable_NoDup.
  - intros merchant. etransitivity; [|apply (claimable_share limit per now (committed s) merchant)].
    by erewrite length_filter_fmap.
  - intros e Hin%list_elem_of_fmap. destruct Hin as ([id row] & -> & Hin). exists row, until. cbn [fst snd] in *.
    split_and!; [by apply claimable_spec in Hin as [? _]|done|done| |].
    + change (domain_events (committed s') !! id = Some (claimed_row holder until row)).
      rewrite Hlook, decide_True, (claimable_lookup _ _ _ _ _ _ Hin); [done|].
      apply list_elem_of_fmap. by exists (id, row).
    + intros id' other Ho Hmer Hlt. apply list_elem_of_fmap. exists (id', other). split; [done|].
      by eapply claimable_oldest.
  - intros id row Hrow Hn. split; [by rewrite Hlook, decide_False|]. intros Hdue.
    apply (claimable_left limit per now (committed s) (id, row)); [by apply due_events_spec| |done].
    intros Hin. apply Hn. apply list_elem_of_fmap. by exists (id, row).
Qed.

(** Storage keeps what a delivery pass relies on. *)
#[export] Instance postgres_claims : OutboxClaims (Session R).
Proof.
  intros holder n per ttl now s events s' Hn (until & _ & _ & -> & _)%pg_claim_spec.
  rewrite length_fmap, <- list_fmap_compose. split; [by apply claimable_length|apply claimable_NoDup].
Qed.
End claiming.

(** ** What a pass leaves in the database *)

(** The network, reached through the server the process runs on. *)
Class Network (R : Type) := {
  network_deliver : WebhookEndpoint -> Z -> list byte -> string -> R -> DeliveryResult * R
}.
#[export] Instance session_sender {R} `{Network R} : EventSender (Session R) := {|
  sender_deliver endpoint id body signature s :=
    let '(r, rt) := network_deliver endpoint id body signature (runtime s) in
    (r, mkSession (committed s) (working s) (transaction_now s) rt) |}.

(** The event is the same; its delivery state is another. *)
Definition same_event (row row' : DomainEventRow) : Prop :=
  exists available attempts error by_ until delivered dead,
    row' = event_with available attempts error by_ until delivered dead (de_target_endpoint_id row)
             (de_attempt_floor row) row.

Lemma same_event_refl row : same_event row row.
Proof. by destruct row; repeat eexists. Qed.
Lemma same_event_trans r1 r2 r3 : same_event r1 r2 -> same_event r2 r3 -> same_event r1 r3.
Proof. intros (? & ? & ? & ? & ? & ? & ? & ->) (? & ? & ? & ? & ? & ? & ? & ->). by repeat eexists. Qed.

Lemma same_event_body `{UuidLib} `{JsonLib} `{TimeLib} id row row' :
  same_event row row' ->
  event_body (OutboxEvent_from (id, row')) = event_body (OutboxEvent_from (id, row))
  /\ oe_merchant_id (OutboxEvent_from (id, row')) = de_merchant_id row
  /\ oe_target_endpoint_id (OutboxEvent_from (id, row')) = de_target_endpoint_id row.
Proof. by intros (? & ? & ? & ? & ? & ? & ? & ->). Qed.

(** The state of an event after a pass, as the calls of the pass explain it. *)
Definition told (log : list OutboxLog) (id : Z) (row row' : DomainEventRow) : Prop :=
  same_event row row' /\ (is_open row = false -> row' = row)
  /\ (is_open row = true -> (de_delivered_at row' <> None -> LogDelivered id ∈ log)
      /\ (de_dead_lettered_at row' <> None -> exists reason, LogDead id reason ∈ log)).

Definition explained (db0 : Database) (db : Database) (log : list OutboxLog) : Prop :=
  webhook_endpoints db = webhook_endpoints db0
  /\ (forall id row', domain_events db !! id = Some row' ->
        exists row, domain_events db0 !! id = Some row /\ told log id row row').

Lemma is_open_spec row : is_open row = true <-> de_delivered_at row = None /\ de_dead_lettered_at row = None.
Proof. unfold is_open. destruct (de_delivered_at row), (de_dead_lettered_at row); cbn; naive_solver. Qed.

Lemma is_due_open now row : is_due now row = true -> is_open row = true.
Proof.
  unfold is_due, is_open. by destruct (bool_decide _), (is_none (de_delivered_at row)), (is_none (de_dead_lettered_at row)).
Qed.

Lemma told_refl log id row : told log id row row.
Proof.
  split_and!; [apply same_event_refl|done|]. intros [-> ->]%is_open_spec. by split.
Qed.
Lemma told_grows log log' id row row' : log ⊆ log' -> told log id row row' -> told log' id row row'.
Proof.
  intros Hl (Hs & Hc & Ho). split_and!; [done..|]. intros Hopen. destruct (Ho Hopen) as [Hd Hx]. split; [naive_solver|].
  intros Hne. destruct (Hx Hne) as [reason ?]. exists reason. naive_solver.
Qed.

(** A change of an open event. *)
Lemma told_step log log' id row row1 row2 :
  log ⊆ log' -> told log id row row1 -> is_open row1 = true -> same_event row1 row2 ->
  (de_delivered_at row2 <> None -> LogDelivered id ∈ log') ->
  (de_dead_lettered_at row2 <> None -> exists reason, LogDead id reason ∈ log') -> told log' id row row2.
Proof.
  intros Hl (Hs & Hc & _) Hopen H12 Hd Hx. split_and!; [by eapply same_event_trans| |done].
  intros Hclosed. rewrite (Hc Hclosed) in Hopen. congruence.
Qed.

Lemma explained_grows db0 db log log' : log ⊆ log' -> explained db0 db log -> explained db0 db log'.
Proof.
  intros Hl [He Hev]. split; [done|]. intros id row' Hrow. destruct (Hev id row' Hrow) as (row & ? & ?).
  exists row. split; [done|]. by eapply told_grows.
Qed.

(** One event is updated while it is open. *)
Lemma explained_update db0 db log x id set_ a db' :
  explained db0 db log -> update_event id set_ db = Ok (a, db') ->
  (forall row1 row2, is_open row1 = true -> set_ row1 = Ok row2 -> same_event row1 row2
     /\ (de_delivered_at row2 <> None -> x = LogDelivered id)
     /\ (de_dead_lettered_at row2 <> None -> exists reason, x = LogDead id reason)) ->
  explained db0 db' (log ++ [x]).
Proof.
  intros Hex Hst Hset. assert (log ⊆ log ++ [x]) as Hl by set_solver.
  unfold update_event, update_row in Hst. destruct (domain_events db !! id) as [row1|] eqn:Hrow1.
  2: { cbn in Hst. injection Hst as _ <-. by apply (explained_grows _ _ log). }
  destruct (is_open row1) eqn:Hopen; [|cbn in Hst; injection Hst as _ <-; by apply (explained_grows _ _ log)].
  destruct (set_ row1) as [row2|] eqn:Hset1; cbn in Hst; [|done]. injection Hst as _ <-.
  destruct (Hset row1 row2 Hopen Hset1) as (Hs & Hd & Hx). destruct Hex as [He Hev]. split; [done|].
  cbn. intros i row' Hi. apply lookup_insert_Some in Hi as [[<- <-]|[_ Hi]].
  - destruct (Hev id row1 Hrow1) as (row & Hrow & Ht). exists row. split; [done|]. eapply told_step; [done..| |].
    + intros Hne. rewrite (Hd Hne). set_solver.
    + intros Hne. destruct (Hx Hne) as [reason ->]. exists reason. set_solver.
  - destruct (Hev i row' Hi) as (row & Hrow & Ht). exists row. split; [done|]. by eapply told_grows.
Qed.

Section pass.
Context {R : Type} `{Postgres R} `{Network R} `{HashLib} `{UuidLib} `{JsonLib} `{TimeLib} `{Latency (Session R)}.
Context (db0 : Database).

Let J : Session R * list OutboxLog -> Prop := fun '(s, log) => explained db0 (committed s) log.

Lemma pool_any {E A} (f : SqlError -> E) (st : Z -> statement A) (s : Session R) :
  committed (eff_map_err f (run_pool_at st) s).2 = committed s
  \/ exists a now, st now (committed s) = Ok (a, committed (eff_map_err f (run_pool_at st) s).2).
Proof.
  pose proof (transacts_map_err f _ _ (transacts_pool st) _ _ _ s eq_refl eq_refl eq_refl) as Ht.
  destruct (eff_map_err _ _ s) as [[a|e] s']; cbn in *.
  - destruct Ht as [now Ht]. right. by exists a, now.
  - destruct Ht as [?|(a & now & Ht)]; [by left|right]. by exists a, now.
Qed.

(** One of the three updates. *)
Lemma keep_update id set_ x (s : Session R) log :
  J (s, log) ->
  (forall row1 row2, is_open row1 = true -> set_ row1 = Ok row2 -> same_event row1 row2
     /\ (de_delivered_at row2 <> None -> x = LogDelivered id)
     /\ (de_dead_lettered_at row2 <> None -> exists reason, x = LogDead id reason)) ->
  J ((eff_map_err unavailable (run_pool (update_event id set_)) s).2, log ++ [x]).
Proof.
  intros HJ Hset. unfold run_pool, J in *.
  destruct (pool_any unavailable (fun _ => update_event id set_) s) as [->|(a & now & Hst)].
  - eapply explained_grows; [|exact HJ]. set_solver.
  - by eapply explained_update.
Qed.

Lemma explained_claim holder limit per now until db log rows db' :
  explained db0 db log -> claim_events holder limit per now until db = Ok (rows, db') -> explained db0 db' log.
Proof.
  unfold claim_events. intros [He Hev] [= _ <-]. split; [done|]. cbn. intros id row' Hrow.
  change (claim_all holder until (claimable limit per now db) (domain_events db) !! id = Some row') in Hrow.
  rewrite claim_all_lookup in Hrow; [|apply claimable_NoDup|intros i r; apply claimable_lookup].
  case_decide as Hin; [|by apply Hev]. apply list_elem_of_fmap in Hin as ([i row1] & -> & Hin). cbn in *.
  rewrite (claimable_lookup _ _ _ _ _ _ Hin) in Hrow. injection Hrow as <-.
  destruct (Hev i row1 (claimable_lookup _ _ _ _ _ _ Hin)) as (row & Hrow & Ht). exists row. split; [done|].
  apply claimable_spec in Hin as [Hdue _]. apply due_events_spec in Hdue as [_ Hdue].
  apply is_due_open in Hdue as Hopen. apply is_open_spec in Hopen as Hnone. destruct Hnone as [Hn1 Hn2].
  eapply told_step; [done|exact Ht|done| | |]; [by repeat eexists| |]; cbn; congruence.
Qed.

Lemma keeps_explained : outbox_keeps J.
Proof.
  split.
  - intros s log HJ. unfold clock_now, system_clock, J in *. cbn. by destruct (now_utc _).
  - intros holder n per ttl now s log HJ. unfold J in *. cbn [claim_due_events postgres_outbox].
    unfold pg_claim_due_events, mbind, eff_bind, lift. destruct (guard_err _ _) as [[]|]; [|done].
    destruct (ok_or _ _) as [until|]; [|done].
    pose proof (pool_any unavailable (fun _ => claim_events holder n per now until) s) as Hp. fold (run_pool (claim_events holder n per now until)) in Hp.
    destruct (eff_map_err unavailable (run_pool _) s) as [[rows|e] s1]; cbn in *;
      (destruct Hp as [->|(a & t & Hst)]; [done|by eapply explained_claim]).
  - intros merchant s log HJ. unfold J in *. cbn [active_endpoints postgres_outbox].
    unfold pg_active_endpoints, mbind, eff_bind, lift.
    pose proof (pool_any unavailable (fun now => select (endpoint_rows merchant now)) s) as Hp.
    destruct (eff_map_err unavailable (run_pool_at _) s) as [[rows|e] s1]; cbn in *;
      (destruct Hp as [->|(a & t & Hst)]; [done|unfold select in Hst; congruence]).
  - intros endpoint id body signature s log HJ. unfold J in *. cbn.
    destruct (network_deliver _ _ _ _ _) as [r rt]. cbn. eapply explained_grows; [|exact HJ]. set_solver.
  - intros attempt now s log HJ. unfold J in *. cbn [record_attempt postgres_outbox].
    unfold pg_record_attempt, mbind, eff_bind, new_uuid. destruct (now_v7 _) as [id r].
    match goal with |- context [eff_map_err _ _ ?s1] =>
      destruct (pool_any unavailable (fun _ => insert_delivery id attempt now) s1) as [E|(a & t & Hst)] end.
    + unfold run_pool. rewrite E. eapply explained_grows; [|exact HJ]. set_solver.
    + unfold run_pool. revert Hst. generalize (committed (eff_map_err unavailable
        (run_pool_at (fun _ => insert_delivery id attempt now)) (mkSession (committed s) (working s) (transaction_now s) r)).2).
      intros db' Hst. eapply (explained_grows _ _ log); [set_solver|]. unfold insert_delivery in Hst.
      cbn [committed] in Hst. do 2 apply res_bind_Ok in Hst as (? & _ & Hst).
      destruct (webhook_deliveries _ !! _); [by injection Hst as _ <-|].
      do 3 apply res_bind_Ok in Hst as (? & _ & Hst). by injection Hst as _ <-.
  - intros id now s log HJ. apply keep_update; [done|]. intros row1 row2 [_ Hn]%is_open_spec Hset.
    apply res_bind_Ok in Hset as (n & _ & [= <-]). split; [by repeat eexists|]. cbn. split; [done|congruence].
  - intros id at_ error now s log HJ. apply keep_update; [done|]. intros row1 row2 [Hd Hn]%is_open_spec Hset.
    apply res_bind_Ok in Hset as (n & _ & [= <-]). split; [by repeat eexists|]. cbn. split; congruence.
  - intros id reason now s log HJ. apply keep_update; [done|]. intros row1 row2 [Hd _]%is_open_spec Hset.
    apply res_bind_Ok in Hset as (n & _ & [= <-]). split; [by repeat eexists|]. cbn. split; [congruence|by exists reason].
Qed.

Lemma explained_start (s : Session R) : committed s = db0 -> J (s, []).
Proof. intros E. unfold J. rewrite E. split; [done|]. intros id row Hrow. exists row. split; [done|apply told_refl]. Qed.

(** A claimed event is the event of its row. *)
Lemma claimed_event holder n per ttl now events event :
  answered J (claim_due_events holder n per ttl now) events -> event ∈ events ->
  exists row1 row, domain_events db0 !! oe_id event = Some row /\ same_event row row1
    /\ event = OutboxEvent_from (oe_id event, row1).
Proof.
  intros (s & log & s' & [_ Hev] & Hc) Hin. apply pg_claim_spec in Hc as (until & _ & _ & -> & _).
  apply list_elem_of_fmap in Hin as ([id row1] & -> & Hin). apply claimable_lookup in Hin.
  destruct (Hev id row1 Hin) as (row & Hrow & Hs & _). exists (claimed_row holder until row1), row.
  split_and!; [done| |done]. eapply same_event_trans; [exact Hs|]. by repeat eexists.
Qed.

(** The endpoints answered are all the active ones of the merchant. *)
Lemma answered_endpoints merchant endpoints id row :
  answered J (active_endpoints merchant) endpoints -> webhook_endpoints db0 !! id = Some row ->
  er_merchant_id row = merchant -> er_status row = "active" ->
  exists endpoint, endpoint ∈ endpoints /\ we_id endpoint = id /\ we_url endpoint = er_url row.
Proof.
  intros (s & log & s' & [He _] & Hc) Hrow Hm Ha. cbn [active_endpoints postgres_outbox] in Hc.
  apply eff_bind_Ok in Hc as (rows & s1 & Hr & Hc). apply lift_Ok in Hc as [Hc%collect_Ok _].
  apply pool_Ok in Hr as (now & Hr). injection Hr as <- _.
  assert (endpoint_row now (id, row) ∈ endpoint_rows merchant now (committed s)) as Hin.
  { apply list_elem_of_fmap. exists (id, row). split; [done|]. rewrite sort_by_perm. apply list_elem_of_filter.
    split; [done|]. apply elem_of_map_to_list. congruence. }
  apply list_elem_of_lookup in Hin as [k Hk]. destruct (Forall2_lookup_l _ _ _ _ _ Hc Hk) as (endpoint & Hke & Hf).
  exists endpoint. split; [by eapply list_elem_of_lookup_2|]. unfold WebhookEndpoint_try_from in Hf.
  do 2 apply res_bind_Ok in Hf as (? & _ & Hf). by injection Hf as <-.
Qed.

(** An endpoint answered is an active one of the merchant. *)
Lemma answered_endpoint_row merchant endpoints endpoint :
  answered J (active_endpoints merchant) endpoints -> endpoint ∈ endpoints ->
  exists row, webhook_endpoints db0 !! we_id endpoint = Some row /\ er_merchant_id row = merchant
    /\ er_status row = "active".
Proof.
  intros (s & log & s' & [He _] & Hc) Hin. cbn [active_endpoints postgres_outbox] in Hc.
  apply eff_bind_Ok in Hc as (rows & s1 & Hr & Hc). apply lift_Ok in Hc as [Hc%collect_Ok _].
  apply pool_Ok in Hr as (now & Hr). injection Hr as <- _.
  apply list_elem_of_lookup in Hin as [k Hk]. destruct (Forall2_lookup_r _ _ _ _ _ Hc Hk) as (er & Hke & Hf).
  apply list_elem_of_lookup_2, list_elem_of_fmap in Hke as ([id row] & -> & Hin).
  rewrite sort_by_perm in Hin. apply list_elem_of_filter in Hin as [[Hm Ha] Hin%elem_of_map_to_list].
  exists row. unfold WebhookEndpoint_try_from in Hf. do 2 apply res_bind_Ok in Hf as (? & _ & Hf). injection Hf as <-.
  cbn in *. split_and!; congruence.
Qed.

Lemma targets_some event endpoints endpoint :
  endpoint ∈ targets event endpoints ->
  endpoint ∈ endpoints /\ (oe_target_endpoint_id event = None \/ oe_target_endpoint_id event = Some (we_id endpoint)).
Proof.
  unfold targets. destruct (oe_target_endpoint_id event) as [target|]; [|by auto].
  intros [Ht Hin]%list_elem_of_filter. split; [done|]. right. by f_equal.
Qed.

Lemma targets_all event endpoints endpoint :
  endpoint ∈ endpoints -> oe_target_endpoint_id event = None \/ oe_target_endpoint_id event = Some (we_id endpoint) ->
  endpoint ∈ targets event endpoints.
Proof.
  intros Hin [Ht|Ht]; unfold targets; rewrite Ht; [done|]. by apply list_elem_of_filter.
Qed.
End pass.

#[local] Existing Instances recording_clock recording_latency recording_sender recording_outbox.

Section truth.
Context {R : Type} `{Postgres R} `{Network R} `{HashLib} `{UuidLib} `{JsonLib} `{TimeLib} `{Latency (Session R)}.

(** C27: What the database says about an event is true.  After a delivery pass,
    in any interleaving of the merchants' deliveries and whatever calls fail or
    lose their answer, no event was added and none changed but for its delivery
    state; an event that had ended is as it was; and one that is now delivered
    was accepted, with exactly its stored content, by every endpoint that was
    active for its merchant, or by the one endpoint it was redelivered to if
    that was active, and there is such an endpoint. *)
Theorem delivered_means_accepted fuel self limit (s : Session R) outcome s' log :
  deliver_due fuel self limit (s, @nil OutboxLog) = Some (outcome, (s', log)) ->
  forall id row', domain_events (committed s') !! id = Some row' ->
  exists row, domain_events (committed s) !! id = Some row /\ same_event row row'
    /\ (is_open row = false -> row' = row)
    /\ (is_open row = true -> de_delivered_at row' <> None ->
        exists merchant, de_merchant_id row = Some merchant
          /\ let wanted endpoint_id endpoint_row :=
               webhook_endpoints (committed s) !! endpoint_id = Some endpoint_row
               /\ er_merchant_id endpoint_row = merchant /\ er_status endpoint_row = "active"
               /\ (de_target_endpoint_id row = None \/ de_target_endpoint_id row = Some endpoint_id) in
             (forall endpoint_id endpoint_row, wanted endpoint_id endpoint_row ->
                exists endpoint, we_id endpoint = endpoint_id /\ we_url endpoint = er_url endpoint_row
                  /\ accepted_by log (OutboxEvent_from (id, row)) endpoint)
             /\ exists endpoint_id endpoint_row, wanted endpoint_id endpoint_row).
Proof.
  intros Hd id row' Hrow'.
  destruct (outbox_pass_safe _ _ _ _ _ _ _ _ (keeps_explained (committed s)) (explained_start _ s eq_refl) Hd)
    as [[He Hev] Hlog]. destruct (Hev id row' Hrow') as (row & Hrow & Hs & Hclosed & Hopen). exists row.
  split_and!; [done..|]. intros Ho Hdel. destruct (Hopen Ho) as [Hin _]. specialize (Hin Hdel).
  destruct Hlog as [->|(holder & n & per & ttl & now & events & Hclaim & Hok)]; [by apply elem_of_nil in Hin|].
  destruct (Hok _ Hin) as (event & endpoints & (Hev1 & merchant & Hmer & Hend) & -> & Hne & Hacc).
  destruct (claimed_event _ _ _ _ _ _ _ _ Hclaim Hev1) as (row1 & row2 & Hrow2 & Hs1 & Heq).
  assert (row2 = row) as -> by congruence.
  destruct (same_event_body (oe_id event) row row1 Hs1) as (Hbody & Hm & Ht). rewrite <- Heq in Hbody, Hm, Ht.
  exists merchant. split; [congruence|]. split.
  - intros eid erow (Herow & Hem & Hea & Htarget).
    destruct (answered_endpoints _ _ _ _ _ Hend Herow Hem Hea) as (endpoint & Hine & Hid & Hurl).
    exists endpoint. split_and!; [done..|].
    destruct (Hacc endpoint) as (signature & status & ms & Hsent).
    { apply targets_all; [done|]. rewrite Ht, Hid. done. }
    exists signature, status, ms. by rewrite <- Hbody.
  - destruct (targets event endpoints) as [|endpoint rest] eqn:Htg; [done|].
    assert (endpoint ∈ targets event endpoints) as [Hine Haddr]%targets_some by (rewrite Htg; by left).
    destruct (answered_endpoint_row _ _ _ _ Hend Hine) as (erow & Herow & Hem & Hea).
    exists (we_id endpoint), erow. split_and!; [done..|]. by rewrite <- Ht.
Qed.
End truth.

(** ** Redelivery *)

Section redelivery.
Context {R : Type} `{Postgres R} `{HashLib} `{UuidLib} `{JsonLib} `{TimeLib}.

(** What a request for redelivery did. *)
Definition redeliver_step (actor : RedeliveryActor) (key : string) (hash : list byte) (request : WebhookRedelivery)
    (now : Z) (db : Database) (result : RedeliveryResult) (db' : Database) : Prop :=
  let scope := principal actor in
  (exists row, webhook_redeliveries db !! (scope, key) = Some row /\ rd_request_hash row = hash
     /\ result = into_result row true /\ db' = db)
  \/ (exists event merchant state row,
        webhook_redeliveries db !! (scope, key) = None
        /\ domain_events db !! wr_event_id request = Some event /\ de_channel event = "webhook"
        /\ de_merchant_id event = Some merchant /\ ended_state event = Ok state
        /\ is_reachable merchant (wr_endpoint_id request) db = true
        /\ result = into_result row false
        /\ rd_request_hash row = hash /\ rd_previous_state row = state /\ rd_event_id row = wr_event_id request
        /\ audited (on_redeliveries <[(scope, key) := row]>
             (on_domain_events <[wr_event_id request := requeued_row now (wr_endpoint_id request) event]> db)) db').

Lemma insert_redelivery_Ok scope key row db r db' :
  insert_redelivery scope key row db = Ok (r, db') -> r = row /\ db' = on_redeliveries <[(scope, key) := row]> db.
Proof. unfold insert_redelivery. intros Hst. do 13 apply res_bind_Ok in Hst as (? & _ & Hst). by injection Hst as <- <-. Qed.

Lemma requeue_event_Ok id now target event db u db' :
  domain_events db !! id = Some event -> requeue_event id now target db = Ok (u, db') ->
  db' = on_domain_events <[id := requeued_row now target event]> db.
Proof.
  intros He. unfold requeue_event, update_row. rewrite He. intros Hst.
  apply res_bind_Ok in Hst as ([n table] & Hu & Hst). apply res_bind_Ok in Hu as (row & Hrow & [= _ <-]).
  apply res_bind_Ok in Hrow as (? & _ & [= <-]). by injection Hst as _ <-.
Qed.

Lemma pg_redeliver_transacts actor key hash request now :
  transacts (redeliver_step actor key hash request now) (pg_redeliver_webhook_event (R := R) actor key hash request now).
Proof.
  intros db0 db t. apply ends_begin. intros t'. apply ends_bind_select, ends_bind_select.
  destruct (webhook_redeliveries db0 !! (principal actor, key)) as [row|] eqn:Hrow.
  - apply ends_bind_lift. intros _ Hh%guard_err_Ok. bool_to_prop. apply ends_commit. left. by exists row.
  - apply ends_bind_select, ends_bind_lift. intros event He%ok_or_Ok.
    apply ends_bind_lift. intros _ Hch%guard_err_Ok. bool_to_prop.
    apply ends_bind_lift. intros merchant Hm%ok_or_Ok. apply ends_bind_lift. intros state Hs.
    apply ends_bind_select, ends_bind_lift. intros _ Hr%guard_err_Ok. apply negb_false_iff in Hr.
    apply ends_bind_run_at. intros [] db1 Hq%(requeue_event_Ok _ _ _ event); [|done].
    apply ends_bind_uuid. intros id. apply ends_bind_run_at. intros row db2 [-> Hi]%insert_redelivery_Ok.
    apply ends_bind_uuid. intros audit_id. apply ends_bind_run_at. intros [] db3 Ha.
    apply ends_commit. right. eexists event, merchant, state, _. subst db1 db2.
    split_and!; try done. by eapply insert_audit_Ok.
Qed.

(** ** Operations on the outbox, one after another *)

Inductive outbox_call : Session R -> Session R -> Prop :=
  | call_claim holder limit per visibility now s :
      outbox_call s (pg_claim_due_events holder limit per visibility now s).2
  | call_endpoints merchant s : outbox_call s (pg_active_endpoints merchant s).2
  | call_record attempt now s : outbox_call s (pg_record_attempt attempt now s).2
  | call_delivered id now s : outbox_call s (pg_mark_delivered id now s).2
  | call_reschedule id available_at error now s : outbox_call s (pg_reschedule id available_at error now s).2
  | call_dead id error now s : outbox_call s (pg_dead_letter id error now s).2
  | call_redeliver actor key hash request now s :
      outbox_call s (pg_redeliver_webhook_event actor key hash request now s).2.

(** What such a call does to the tables of the outbox. *)
Inductive outbox_move (db db' : Database) : Prop :=
  | move_none : domain_events db' = domain_events db -> webhook_redeliveries db' = webhook_redeliveries db ->
      outbox_move db db'
  | move_claim holder limit per now until :
      domain_events db' = claim_all holder until (claimable limit per now db) (domain_events db) ->
      webhook_redeliveries db' = webhook_redeliveries db -> outbox_move db db'
  | move_close id row row' :
      domain_events db !! id = Some row -> is_open row = true -> same_event row row' ->
      de_attempts row' = de_attempts row + 1 ->
      de_delivered_at row' = None \/ de_dead_lettered_at row' = None ->
      domain_events db' = <[id := row']> (domain_events db) ->
      webhook_redeliveries db' = webhook_redeliveries db -> outbox_move db db'
  | move_requeue id row now target key record :
      domain_events db !! id = Some row -> is_open row = false -> webhook_redeliveries db !! key = None ->
      rd_event_id record = id -> domain_events db' = <[id := requeued_row now target row]> (domain_events db) ->
      webhook_redeliveries db' = <[key := record]> (webhook_redeliveries db) -> outbox_move db db'.

Lemma pool_move {E A} (f : SqlError -> E) (st : Z -> statement A) (s : Session R) :
  (forall now a db', st now (committed s) = Ok (a, db') -> outbox_move (committed s) db') ->
  outbox_move (committed s) (committed (eff_map_err f (run_pool_at st) s).2).
Proof.
  intros Hst. destruct (pool_any f st s) as [->|(a & now & Ha)]; [by apply move_none|]. by eapply Hst.
Qed.

Lemma update_move id set_ db a db' :
  update_event id set_ db = Ok (a, db') ->
  (forall row row', is_open row = true -> set_ row = Ok row' -> same_event row row'
     /\ de_attempts row' = de_attempts row + 1 /\ (de_delivered_at row' = None \/ de_dead_lettered_at row' = None)) ->
  outbox_move db db'.
Proof.
  intros Hst Hset. unfold update_event, update_row in Hst.
  destruct (domain_events db !! id) as [row|] eqn:Hrow; [|cbn in Hst; injection Hst as _ <-; by apply move_none].
  destruct (is_open row) eqn:Ho; [|cbn in Hst; injection Hst as _ <-; by apply move_none].
  destruct (set_ row) as [row'|] eqn:Hr; cbn in Hst; [|done]. injection Hst as _ <-.
  destruct (Hset row row' Ho Hr) as (? & ? & ?). by eapply (move_close _ _ id row row').
Qed.

Lemma integer_next_Ok v v' : integer_next v = Ok v' -> v' = v + 1.
Proof. intros Hv%ok_or_Ok. by apply checked_Some in Hv as [-> _]. Qed.

Lemma ended_is_closed event state : ended_state event = Ok state -> is_open event = false.
Proof. unfold ended_state, is_open. by destruct (de_delivered_at event), (de_dead_lettered_at event). Qed.

Lemma claim_move holder limit per now until db a db' :
  claim_events holder limit per now until db = Ok (a, db') -> outbox_move db db'.
Proof. intros [= _ <-]. by apply (move_claim _ _ holder limit per now until). Qed.

Lemma outbox_call_move s s' : outbox_call s s' -> outbox_move (committed s) (committed s').
Proof.
  intros Hc. destruct Hc as [holder limit per visibility now s|merchant s|attempt now s|id now s|id at_ error now s
    |id error now s|actor key hash request now s].
  - unfold pg_claim_due_events, mbind, eff_bind, lift. destruct (guard_err _ _) as [[]|]; [|by apply move_none].
    destruct (ok_or _ _) as [until|]; [|by apply move_none].
    pose proof (pool_move unavailable (fun _ => claim_events holder limit per now until) s) as Hp. unfold run_pool.
    specialize (Hp (fun _ => claim_move _ _ _ _ _ _)). by destruct (eff_map_err _ _ s) as [[rows|e] s1].
  - pose proof (pool_move unavailable (fun now => select (endpoint_rows merchant now)) s) as Hp.
    assert (forall now a db', select (endpoint_rows merchant now) (committed s) = Ok (a, db') ->
      outbox_move (committed s) db') as Hst by (intros now a db' [= _ <-]; by apply move_none).
    specialize (Hp Hst). unfold pg_active_endpoints, mbind, eff_bind, lift.
    by destruct (eff_map_err _ _ s) as [[rows|e] s1].
  - unfold pg_record_attempt, mbind, eff_bind, new_uuid, run_pool. destruct (now_v7 _) as [id r].
    apply (pool_move unavailable _ (mkSession (committed s) (working s) (transaction_now s) r)). cbn [committed].
    intros t a db' Hst. unfold insert_delivery in Hst.
    do 2 apply res_bind_Ok in Hst as (? & _ & Hst). destruct (webhook_deliveries _ !! _).
    + injection Hst as _ <-. by apply move_none.
    + do 3 apply res_bind_Ok in Hst as (? & _ & Hst). injection Hst as _ <-. by apply move_none.
  - apply pool_move. intros _ a db' Hst. eapply update_move; [exact Hst|]. intros row row' [_ Hn]%is_open_spec Hr.
    apply res_bind_Ok in Hr as (n & ->%integer_next_Ok & [= <-]). split_and!; [by repeat eexists|done|by right].
  - apply pool_move. intros _ a db' Hst. eapply update_move; [exact Hst|]. intros row row' [Hn _]%is_open_spec Hr.
    apply res_bind_Ok in Hr as (n & ->%integer_next_Ok & [= <-]). split_and!; [by repeat eexists|done|by left].
  - apply pool_move. intros _ a db' Hst. eapply update_move; [exact Hst|]. intros row row' [Hn _]%is_open_spec Hr.
    apply res_bind_Ok in Hr as (n & ->%integer_next_Ok & [= <-]). split_and!; [by repeat eexists|done|by left].
  - pose proof (pg_redeliver_transacts actor key hash request now _ _ _ s eq_refl eq_refl eq_refl) as Ht.
    assert (forall result db', redeliver_step actor key hash request now (committed s) result db' ->
      outbox_move (committed s) db') as Hstep.
    { intros result db' [(row & _ & _ & _ & ->)|(event & merchant & state & row & Hnone & He & _ & _ & Hend & _ & _
        & _ & _ & Hid & [trail ->])]; [by apply move_none|].
      eapply (move_requeue _ _ (wr_event_id request) event now (wr_endpoint_id request)); try done.
      by eapply ended_is_closed. }
    destruct (pg_redeliver_webhook_event _ _ _ _ _ s) as [[result|e] s1]; cbn in *; [by eapply Hstep|].
    destruct Ht as [->|[result Ht]]; [by apply move_none|by eapply Hstep].
Qed.

(** *** An event through any calls *)

Definition event_ok (row : DomainEventRow) : Prop :=
  (de_delivered_at row = None \/ de_dead_lettered_at row = None) /\ de_attempt_floor row <= de_attempts row.

(** The content of an event: everything but its delivery state. *)
Definition content (row : DomainEventRow) : option Z * string * string * string * Z * json * Z :=
  (de_merchant_id row, de_channel row, de_event_type row, de_aggregate_type row, de_aggregate_id row,
   de_payload row, de_created_at row).

Record events_carried (db db' : Database) : Prop := {
  evc_redeliveries : webhook_redeliveries db ⊆ webhook_redeliveries db';
  evc_events id row : domain_events db !! id = Some row ->
    exists row', domain_events db' !! id = Some row' /\ content row' = content row
      /\ de_attempts row <= de_attempts row'
      /\ (is_open row = false -> row' = row
          \/ exists key record, webhook_redeliveries db !! key = None
               /\ webhook_redeliveries db' !! key = Some record /\ rd_event_id record = id);
}.

Lemma events_carried_refl db : events_carried db db.
Proof. split; [done|]. intros id row Hrow. exists row. split_and!; [done..|by left]. Qed.

Lemma events_carried_trans db1 db2 db3 : events_carried db1 db2 -> events_carried db2 db3 -> events_carried db1 db3.
Proof.
  intros [A1 A2] [B1 B2]. split; [by etransitivity|]. intros id row Hrow.
  destruct (A2 id row Hrow) as (row2 & Hr2 & C2 & N2 & E2). destruct (B2 id row2 Hr2) as (row3 & Hr3 & C3 & N3 & E3).
  exists row3. split_and!; [done|congruence|lia|]. intros Hc.
  destruct (E2 Hc) as [->|(key & record & Hk & Hr & Hid)].
  - destruct (E3 Hc) as [->|(key & record & Hk & Hr & Hid)]; [by left|right].
    exists key, record. split_and!; [|done..]. by eapply lookup_weaken_None.
  - right. exists key, record. split_and!; [done| |done]. by eapply lookup_weaken.
Qed.

Lemma outbox_move_carried db db' : outbox_move db db' -> events_carried db db'.
Proof.
  intros [E1 E2|holder limit per now until E1 E2|id row row' Hrow Ho Hs Hn _ E1 E2
    |id row now target key record Hrow Ho Hk Hid E1 E2]; split; rewrite ?E2; try done.
  - intros i row Hi. rewrite E1. exists row. split_and!; [done..|by left].
  - intros i row Hi. rewrite E1, claim_all_lookup, Hi; [|apply claimable_NoDup|intros j r; apply claimable_lookup].
    case_decide as Hin; [|exists row; split_and!; [done..|by left]].
    exists (claimed_row holder until row). split_and!; [done..|]. intros Hc. exfalso.
    apply list_elem_of_fmap in Hin as ([j r] & -> & Hin). apply claimable_lookup in Hin as Hj. cbn in *.
    apply claimable_spec in Hin as [Hdue _]. apply due_events_spec in Hdue as [_ Hdue%is_due_open]. congruence.
  - intros i r Hi. rewrite E1. destruct (decide (i = id)) as [->|Hne].
    + rewrite Hrow in Hi. injection Hi as <-. rewrite lookup_insert_eq. exists row'.
      split_and!; [done| |lia|congruence]. by destruct Hs as (? & ? & ? & ? & ? & ? & ? & ->).
    + rewrite lookup_insert_ne by done. exists r. split_and!; [done..|by left].
  - by apply insert_subseteq.
  - intros i r Hi. rewrite E1. destruct (decide (i = id)) as [->|Hne].
    + rewrite Hrow in Hi. injection Hi as <-. rewrite lookup_insert_eq. eexists. split_and!; [done..|].
      intros _. right. exists key, record. by rewrite lookup_insert_eq.
    + rewrite lookup_insert_ne by done. exists r. split_and!; [done..|by left].
Qed.

Lemma outbox_move_ok db db' :
  outbox_move db db' -> map_Forall (fun _ => event_ok) (domain_events db) -> map_Forall (fun _ => event_ok) (domain_events db').
Proof.
  intros Hm Hok. destruct Hm as [E1 _|holder limit per now until E1 _|id row row' Hrow Ho Hs Hn Hone E1 _
    |id row now target key record Hrow Ho Hk Hid E1 _]; rewrite E1; [done|..].
  - intros i r Hi. rewrite claim_all_lookup in Hi; [|apply claimable_NoDup|intros j x; apply claimable_lookup].
    case_decide; [|by eapply Hok]. destruct (domain_events db !! i) as [row|] eqn:Hrow; [|done].
    injection Hi as <-. by apply (Hok i row).
  - apply map_Forall_insert_2; [|done]. split; [done|]. destruct (Hok id row Hrow) as [_ Hf].
    destruct Hs as (? & ? & ? & ? & ? & ? & ? & ->). cbn in *. lia.
  - apply map_Forall_insert_2; [|done]. split; [by left|]. cbn. lia.
Qed.

(** Events are neither lost nor altered.  Whatever claims, deliveries,
    reschedulings, dead letters and redeliveries follow each other, with
    whatever failures, every event stays in the outbox with the content it was
    written with, is never both delivered and dead-lettered, its attempts only
    grow and its retry budget starts at an attempt that was made; and an event
    that had ended stays as it was, or a redelivery of it was recorded. *)
Theorem events_keep_their_content s s' :
  map_Forall (fun _ => event_ok) (domain_events (committed s)) -> rtc outbox_call s s' ->
  map_Forall (fun _ => event_ok) (domain_events (committed s'))
  /\ forall id row, domain_events (committed s) !! id = Some row ->
     exists row', domain_events (committed s') !! id = Some row' /\ content row' = content row
       /\ de_attempts row <= de_attempts row'
       /\ (is_open row = false -> row' = row
           \/ exists key record, webhook_redeliveries (committed s) !! key = None
                /\ webhook_redeliveries (committed s') !! key = Some record /\ rd_event_id record = id).
Proof.
  intros Hok Hr.
  assert (map_Forall (fun _ => event_ok) (domain_events (committed s'))
    /\ events_carried (committed s) (committed s')) as [Hok' C]; [|split; [done|apply C]].
  induction Hr as [s|s1 s2 s3 Hc _ IH]; [by split; [|apply events_carried_refl]|].
  apply outbox_call_move in Hc. destruct (IH (outbox_move_ok _ _ Hc Hok)) as [Hok3 C].
  split; [done|]. eapply events_carried_trans; [by apply outbox_move_carried|done].
Qed.

(** *** A claim is exclusive *)

(** Calls while an event is claimed: none of them hands it back, and the clock
    has not passed the end of the claim. *)
Inductive idle_call (id until : Z) : Session R -> Session R -> Prop :=
  | idle_claim holder limit per visibility now s : now <= until ->
      idle_call id until s (pg_claim_due_events holder limit per visibility now s).2
  | idle_endpoints merchant s : idle_call id until s (pg_active_endpoints merchant s).2
  | idle_record attempt now s : idle_call id until s (pg_record_attempt attempt now s).2
  | idle_delivered other now s : other <> id -> idle_call id until s (pg_mark_delivered other now s).2
  | idle_reschedule other available_at error now s : other <> id ->
      idle_call id until s (pg_reschedule other available_at error now s).2
  | idle_dead other error now s : other <> id -> idle_call id until s (pg_dead_letter other error now s).2
  | idle_redeliver actor key hash request now s :
      idle_call id until s (pg_redeliver_webhook_event actor key hash request now s).2.

Definition held (id until : Z) (db : Database) : Prop :=
  exists row, domain_events db !! id = Some row /\ is_open row = true /\ de_claimed_until row = Some until.

Lemma held_not_due id until now row db :
  domain_events db !! id = Some row -> held id until db -> now <= until -> is_due now row = false.
Proof.
  intros Hrow (row' & Hrow' & _ & Hu) Hle. assert (row' = row) as -> by congruence. unfold is_due. rewrite Hu.
  rewrite (proj2 (Z.ltb_ge until now)) by lia. apply andb_false_r.
Qed.

Lemma held_same id until db db' :
  domain_events db' !! id = domain_events db !! id -> held id until db -> held id until db'.
Proof. intros E (row & Hrow & Hh). exists row. by rewrite E. Qed.

Lemma held_claim id until holder limit per now u db :
  now <= until -> held id until db ->
  claim_all holder u (claimable limit per now db) (domain_events db) !! id = domain_events db !! id.
Proof.
  intros Hle Hh. rewrite claim_all_lookup; [|apply claimable_NoDup|intros j x; apply claimable_lookup].
  rewrite decide_False; [done|]. intros ([i row] & -> & Hin)%list_elem_of_fmap.
  apply claimable_spec in Hin as [[Hrow Hdue]%due_events_spec _].
  by rewrite (held_not_due _ _ _ _ _ Hrow Hh Hle) in Hdue.
Qed.

Lemma update_other id other set_ db a db' :
  other <> id -> update_event other set_ db = Ok (a, db') -> domain_events db' !! id = domain_events db !! id.
Proof.
  intros Hne. unfold update_event, update_row. destruct (domain_events db !! other) as [row|].
  2: { intros [= _ <-]. done. }
  destruct (is_open row); [|by intros [= _ <-]]. destruct (set_ row); cbn; [|done].
  intros [= _ <-]. cbn. by rewrite lookup_insert_ne.
Qed.

(** The event is untouched by a call on the pool. *)
Lemma pool_held {E A} id until (f : SqlError -> E) (st : Z -> statement A) (s : Session R) :
  (forall now a db', st now (committed s) = Ok (a, db') -> domain_events db' !! id = domain_events (committed s) !! id) ->
  held id until (committed s) -> held id until (committed (eff_map_err f (run_pool_at st) s).2).
Proof.
  intros Hst Hh. eapply held_same; [|exact Hh]. destruct (pool_any f st s) as [->|(a & now & Ha)]; [done|].
  by eapply Hst.
Qed.

Lemma idle_call_held id until s s' : idle_call id until s s' -> held id until (committed s) -> held id until (committed s').
Proof.
  intros Hc Hh. destruct Hc as [holder limit per visibility now s Hle|merchant s|attempt now s|other now s Hne
    |other at_ error now s Hne|other error now s Hne|actor key hash request now s].
  - unfold pg_claim_due_events, mbind, eff_bind, lift. destruct (guard_err _ _) as [[]|]; [|done].
    destruct (ok_or _ _) as [u|]; [|done].
    pose proof (pool_held id until unavailable (fun _ => claim_events holder limit per now u) s) as Hp. unfold run_pool.
    assert (held id until (committed (eff_map_err unavailable (run_pool_at (fun _ => claim_events holder limit per now u)) s).2))
      as Hk by (apply Hp; [intros _ a db' [= _ <-]; by eapply held_claim|done]).
    by destruct (eff_map_err _ _ s) as [[rows|e] s1].
  - pose proof (pool_held id until unavailable (fun now => select (endpoint_rows merchant now)) s) as Hp.
    assert (held id until (committed (eff_map_err unavailable (run_pool_at (fun now => select (endpoint_rows merchant now))) s).2))
      as Hk by (apply Hp; [intros now a db' [= _ <-]; done|done]).
    unfold pg_active_endpoints, mbind, eff_bind, lift. by destruct (eff_map_err _ _ s) as [[rows|e] s1].
  - unfold pg_record_attempt, mbind, eff_bind, new_uuid, run_pool. destruct (now_v7 _) as [u r].
    apply (pool_held id until unavailable _ (mkSession (committed s) (working s) (transaction_now s) r)); [|done].
    cbn [committed]. intros t a db' Hst. unfold insert_delivery in Hst.
    do 2 apply res_bind_Ok in Hst as (? & _ & Hst). destruct (webhook_deliveries _ !! _); [by injection Hst as _ <-|].
    do 3 apply res_bind_Ok in Hst as (? & _ & Hst). by injection Hst as _ <-.
  - apply pool_held; [|done]. intros _ a db' Hst. by eapply update_other.
  - apply pool_held; [|done]. intros _ a db' Hst. by eapply update_other.
  - apply pool_held; [|done]. intros _ a db' Hst. by eapply update_other.
  - pose proof (pg_redeliver_transacts actor key hash request now _ _ _ s eq_refl eq_refl eq_refl) as Ht.
    assert (forall result db', redeliver_step actor key hash request now (committed s) result db' ->
      held id until db') as Hstep.
    { intros result db' [(row & _ & _ & _ & ->)|(event & merchant & state & row & _ & He & _ & _ & Hend & _ & _
        & _ & _ & _ & [trail ->])]; [done|].
      eapply held_same; [|exact Hh]. cbn. rewrite lookup_insert_ne; [done|]. intros <-.
      destruct Hh as (row' & Hrow' & Ho & _). apply ended_is_closed in Hend. congruence. }
    destruct (pg_redeliver_webhook_event _ _ _ _ _ s) as [[result|e] s1]; cbn in *; [by eapply Hstep|].
    destruct Ht as [->|[result Ht]]; [done|by eapply Hstep].
Qed.

(** C28: A claimed event has one worker.  From the claim to the end of its
    visibility window no other claim is given the event, whatever the other
    workers and operators do meanwhile with other events, and however the calls
    end; only the outcome its worker reports, or the end of the window, makes it
    available again.  Asking for its redelivery meanwhile does nothing. *)
Theorem claim_is_exclusive holder limit per visibility now s events s1 event until s2
    holder' limit' per' visibility' now' events' s3 :
  pg_claim_due_events holder limit per visibility now s = (Ok events, s1) -> event ∈ events ->
  odt_checked_add now (duration_seconds visibility) = Some until ->
  rtc (idle_call (oe_id event) until) s1 s2 -> now' <= until ->
  pg_claim_due_events holder' limit' per' visibility' now' s2 = (Ok events', s3) ->
  oe_id event ∉ (oe_id <$> events').
Proof.
  intros Hc1 Hin Hu Hrun Hle Hc2. apply pg_claim_spec in Hc1 as (u & Hu' & _ & -> & Hdb).
  assert (u = until) as -> by congruence. apply list_elem_of_fmap in Hin as ([id row] & -> & Hin).
  change (oe_id _) with id in *.
  assert (held id until (committed s1)) as Hh.
  { exists (claimed_row holder until row). rewrite Hdb. cbn. split.
    - change (claim_all holder until (claimable limit per now (committed s)) (domain_events (committed s)) !! id
        = Some (claimed_row holder until row)).
      rewrite claim_all_lookup, decide_True, (claimable_lookup _ _ _ _ _ _ Hin);
        [done|apply list_elem_of_fmap; by exists (id, row)|apply claimable_NoDup|intros j x; apply claimable_lookup].
    - split; [|done]. apply claimable_spec in Hin as [[_ Hdue]%due_events_spec _]. by apply is_due_open in Hdue. }
  clear Hdb Hin. induction Hrun as [s1|s1 sx s2 Hstep _ IH]; [|by apply IH; [|eapply idle_call_held]].
  apply pg_claim_spec in Hc2 as (u & _ & _ & -> & _). rewrite <- list_fmap_compose.
  intros ([i row'] & -> & Hin)%list_elem_of_fmap. cbn in Hh.
  apply claimable_spec in Hin as [[Hrow' Hdue]%due_events_spec _].
  by rewrite (held_not_due _ _ _ _ _ Hrow' Hh Hle) in Hdue.
Qed.

(** *** What a redelivery does *)

(** A redelivery is the same event, once.  A request that is answered anew
    was for a webhook event that had ended and that an active endpoint can
    receive; the event is queued with its own content, due at once, with a full
    retry budget and only for the endpoint asked for.  The same key never
    queues it again: a later request of the principal with that key changes
    nothing, and is answered, with the first answer, only for the same
    request. *)
Theorem redelivery_is_the_same_event_once actor key hash request now s result s1 :
  pg_redeliver_webhook_event actor key hash request now s = (Ok result, s1) -> rv_replayed result = false ->
  (exists row merchant, domain_events (committed s) !! wr_event_id request = Some row /\ is_open row = false
     /\ de_merchant_id row = Some merchant /\ is_reachable merchant (wr_endpoint_id request) (committed s) = true
     /\ exists row', domain_events (committed s1) !! wr_event_id request = Some row' /\ content row' = content row
          /\ is_due now row' = true /\ used_attempts (OutboxEvent_from (wr_event_id request, row')) = 1
          /\ de_target_endpoint_id row' = wr_endpoint_id request)
  /\ forall hash' request' now' s2 r s3, webhook_redeliveries (committed s1) ⊆ webhook_redeliveries (committed s2) ->
     pg_redeliver_webhook_event actor key hash' request' now' s2 = (r, s3) ->
     committed s3 = committed s2
     /\ forall result', r = Ok result' -> hash' = hash /\ rv_replayed result' = true /\ rv_id result' = rv_id result
          /\ rv_event_id result' = wr_event_id request /\ rv_requested_at result' = rv_requested_at result.
Proof.
  intros Hr Hnew. pose proof (pg_redeliver_transacts actor key hash request now _ _ _ s eq_refl eq_refl eq_refl) as Ht.
  rewrite Hr in Ht. cbn in Ht. destruct Ht as [(row & _ & _ & -> & _)|(event & merchant & state & row & _ & He & Hch & Hm
    & Hend & Hreach & -> & Hh & _ & Hid & [trail Hdb])]; [done|]. split.
  - exists event, merchant. split_and!; [done|by eapply ended_is_closed|done..|].
    exists (requeued_row now (wr_endpoint_id request) event). rewrite Hdb. cbn. rewrite lookup_insert_eq.
    split_and!; [done..| | |done].
    + unfold is_due. cbn. rewrite Hch, Z.leb_refl. done.
    + unfold used_attempts. cbn. unfold i32_saturating_sub, i32_saturating_add. rewrite Z.sub_diag. done.
  - intros hash' request' now' s2 r s3 Hsub Hr2.
    assert (webhook_redeliveries (committed s2) !! (principal actor, key) = Some row) as Hrow.
    { eapply lookup_weaken; [|exact Hsub]. rewrite Hdb. cbn. by rewrite lookup_insert_eq. }
    pose proof (pg_redeliver_transacts actor key hash' request' now' _ _ _ s2 eq_refl eq_refl eq_refl) as Ht.
    rewrite Hr2 in Ht. cbn in Ht.
    assert (forall result' db', redeliver_step actor key hash' request' now' (committed s2) result' db' ->
      db' = committed s2 /\ hash' = hash /\ result' = into_result row true) as Hagain.
    { intros result' db' [(row2 & Hrow2 & Hh2 & -> & ->)|(? & ? & ? & ? & Hnone & _)]; [|congruence].
      rewrite Hrow in Hrow2. injection Hrow2 as <-. split_and!; [done|congruence|done]. }
    destruct r as [result'|e].
    + destruct (Hagain _ _ Ht) as (-> & -> & ->). split; [done|]. by intros ? [= <-].
    + split; [|done]. destruct Ht as [?|[result' Ht]]; [done|]. by destruct (Hagain _ _ Ht).
Qed.
End redelivery.

(** ** A queue of three events *)

Import ReferenceInstances.
#[local] Existing Instance quiet_postgres.
#[local] Instance quiet_network : Network Z := {| network_deliver _ _ _ _ r := (Accepted 200 15, r) |}.
#[local] Instance quiet_latency : Latency (Session Z) := {| latency _ := 1%nat |}.

Definition queued_event (merchant available_at : Z) : DomainEventRow :=
  outbox_row (Some merchant) "webhook" "payment_intent.paid" "payment_intent" 9 (JObject []) available_at.
Definition hook : WebhookEndpoint := {|
  we_id := 3; we_merchant_id := 1; we_url := "https://shop.example/hook"; we_secret_version := 1;
  we_secret_fingerprint := sha256 (hmac_sha256 (repeat x01 32) (derive_message 1 1 3)); we_previous_secret := None |}.
Definition queue_database : Database :=
  on_endpoints (fun _ => {[3 := mkEndpointRow 1 (we_url hook) 1 (we_secret_fingerprint hook) "active" 0 None None None]})
    (on_domain_events (fun _ => {[1 := queued_event 1 10; 2 := queued_event 1 20; 4 := queued_event 2 30]}) shop_database).
Definition queue_session : Session Z := mkSession queue_database queue_database 0 1.
Definition queue_service : OutboxService := mkOutboxService (repeat x01 32) "worker" 5 DeliveryFairness_default.

(** With one event per merchant the second of merchant 1 waits. *)
Lemma claim_shares_the_queue_witness :
  exists events s', pg_claim_due_events "worker" 10 1 60 100 queue_session = (Ok events, s')
    /\ (oe_id <$> events) = [1; 4] /\ Z.of_nat (length (filter (fun e => oe_merchant_id e = Some 1) events)) <= 1.
Proof.
  assert (match (pg_claim_due_events "worker" 10 1 60 100 queue_session).1 with
          | Ok events => oe_id <$> events | Err _ => [] end = [1; 4]) as Hids by (vm_compute; reflexivity).
  destruct (pg_claim_due_events "worker" 10 1 60 100 queue_session) as [[events|e] s'] eqn:Hc; [|discriminate Hids].
  exists events, s'. split; [exact eq_refl|]. split; [exact Hids|].
  destruct (claim_shares_the_queue "worker" 10 1 60 100 queue_session events s' ltac:(lia) Hc) as (_ & _ & Hshare & _).
  exact (Hshare (Some 1)).
Defined.

Definition delivery_pass := deliver_due 60 queue_service 10 (queue_session, @nil OutboxLog).

Lemma delivered_means_accepted_witness :
  exists outcome s' log row, delivery_pass = Some (outcome, (s', log))
    /\ domain_events (committed s') !! 1 = Some row /\ de_delivered_at row = Some 100
    /\ exists endpoint, we_id endpoint = 3 /\ accepted_by log (OutboxEvent_from (1, queued_event 1 10)) endpoint.
Proof.
  assert (match delivery_pass with
          | Some (_, (s', _)) => de_delivered_at <$> domain_events (committed s') !! 1
          | None => None end = Some (Some 100)) as Hd by (vm_compute; reflexivity).
  destruct delivery_pass as [[outcome [s' log]]|] eqn:Hrun; [|discriminate Hd].
  destruct (domain_events (committed s') !! 1) as [row|] eqn:Hrow; [|discriminate Hd]. injection Hd as Hd.
  exists outcome, s', log, row. split; [exact eq_refl|]. split; [exact Hrow|]. split; [exact Hd|].
  destruct (delivered_means_accepted 60 queue_service 10 queue_session outcome s' log Hrun 1 row Hrow)
    as (row0 & Hrow0 & _ & _ & Hacc).
  assert (row0 = queued_event 1 10) as -> by (vm_compute in Hrow0; injection Hrow0 as <-; reflexivity).
  destruct (Hacc eq_refl ltac:(congruence)) as (merchant & Hm & Hall & _). injection Hm as <-.
  destruct (Hall 3 (mkEndpointRow 1 (we_url hook) 1 (we_secret_fingerprint hook) "active" 0 None None None)
    (conj eq_refl (conj eq_refl (conj eq_refl (or_introl eq_refl))))) as (endpoint & Hid & _ & Hin).
  exists endpoint. split; [exact Hid|exact Hin].
Defined.

Definition claiming_session : Session Z := (pg_claim_due_events "worker" 10 1 60 100 queue_session).2.
Definition told_session : Session Z := (pg_mark_delivered 1 110 claiming_session).2.

Lemma events_keep_their_content_witness :
  exists row', domain_events (committed told_session) !! 1 = Some row' /\ de_delivered_at row' = Some 110
    /\ content row' = content (queued_event 1 10) /\ de_attempts row' = 1.
Proof.
  assert (rtc outbox_call queue_session told_session) as Hrun.
  { apply (rtc_l _ _ claiming_session); [apply call_claim|apply rtc_once, call_delivered]. }
  assert (map_Forall (fun _ => event_ok) (domain_events (committed queue_session))) as Hok.
  { intros id row Hrow. change (domain_events (committed queue_session)) with
      ({[1 := queued_event 1 10; 2 := queued_event 1 20; 4 := queued_event 2 30]} : gmap Z DomainEventRow) in Hrow.
    repeat (apply lookup_insert_Some in Hrow as [[_ <-]|[_ Hrow]]; [split; [by left|done]|]).
    apply lookup_singleton_Some in Hrow as [_ <-]. split; [by left|done]. }
  destruct (events_keep_their_content queue_session told_session Hok Hrun) as [_ Hall].
  destruct (Hall 1 (queued_event 1 10) eq_refl) as (row' & Hrow' & Hcontent & _).
  exists row'. split; [exact Hrow'|].
  assert (de_delivered_at <$> domain_events (committed told_session) !! 1 = Some (Some 110)) as Hd by (vm_compute; reflexivity).
  assert (de_attempts <$> domain_events (committed told_session) !! 1 = Some 1) as Ha by (vm_compute; reflexivity).
  rewrite Hrow' in Hd, Ha. injection Hd as Hd. injection Ha as Ha. split; [exact Hd|]. split; [exact Hcontent|exact Ha].
Defined.

(** A second worker, while the first holds event 1, gets the next one. *)
Lemma claim_is_exclusive_witness :
  exists events', (pg_claim_due_events "other" 10 5 60 105 claiming_session).1 = Ok events'
    /\ (oe_id <$> events') = [2] /\ 1 ∉ (oe_id <$> events').
Proof.
  assert (match (pg_claim_due_events "other" 10 5 60 105 claiming_session).1 with
          | Ok events => oe_id <$> events | Err _ => [] end = [2]) as Hids by (vm_compute; reflexivity).
  destruct (pg_claim_due_events "other" 10 5 60 105 claiming_session) as [[events'|e] s3] eqn:Hc2; [|discriminate Hids].
  exists events'. split; [exact eq_refl|]. split; [exact Hids|].
  destruct (pg_claim_due_events "worker" 10 1 60 100 queue_session) as [[events|e] s1] eqn:Hc1;
    [|vm_compute in Hc1; discriminate Hc1].
  assert (s1 = claiming_session) as -> by (unfold claiming_session; rewrite Hc1; exact eq_refl).
  assert (exists event, event ∈ events /\ oe_id event = 1) as (event & Hin & Hid).
  { vm_compute in Hc1. injection Hc1 as <-. eexists. split; [left|reflexivity]. }
  rewrite <- Hid. apply (claim_is_exclusive "worker" 10 1 60 100 queue_session events claiming_session event
    (100 + 60 * NANOS) claiming_session "other" 10 5 60 105 events' s3 Hc1 Hin); [reflexivity|apply rtc_refl| |exact Hc2].
  vm_compute. discriminate.
Defined.

(** The delivered event is asked for again. *)
Definition again : WebhookRedelivery := mkWebhookRedelivery 1 (Some 3) "the shop lost it".
Lemma redelivery_is_the_same_event_once_witness :
  exists result s1, pg_redeliver_webhook_event (ActorAdmin "ann") "again-0000000001" (repeat x02 32) again 200 told_session
      = (Ok result, s1)
    /\ (exists row', domain_events (committed s1) !! 1 = Some row' /\ is_due 200 row' = true)
    /\ committed (pg_redeliver_webhook_event (ActorAdmin "ann") "again-0000000001" (repeat x02 32) again 300 s1).2
       = committed s1.
Proof.
  assert (rv_replayed <$> (pg_redeliver_webhook_event (ActorAdmin "ann") "again-0000000001" (repeat x02 32) again 200
    told_session).1 = Ok (E := RedeliveryError) false) as Hok by (vm_compute; reflexivity).
  destruct (pg_redeliver_webhook_event (ActorAdmin "ann") "again-0000000001" (repeat x02 32) again 200 told_session)
    as [[result|e] s1] eqn:Hr; [|discriminate Hok]. injection Hok as Hok.
  destruct (redelivery_is_the_same_event_once (ActorAdmin "ann") "again-0000000001" (repeat x02 32) again 200 told_session
    result s1 Hr Hok) as [(row & merchant & _ & _ & _ & _ & row' & Hrow' & _ & Hdue & _) Hagain].
  exists result, s1. split; [exact eq_refl|]. split; [exists row'; split; [exact Hrow'|exact Hdue]|].
  destruct (pg_redeliver_webhook_event (ActorAdmin "ann") "again-0000000001" (repeat x02 32) again 300 s1) as [r s3] eqn:Hr2.
  destruct (Hagain (repeat x02 32) again 300 s1 r s3 ltac:(done) Hr2) as [Hc _]. exact Hc.
Defined.
