(* ===== verification/TronEvent.v ===== *)
(** * TRON event logs

    [gateway-tron/src/event.rs]: a provider's answer about a transaction
    becomes readings built from its event log, one per [Transfer] event. *)

From Stdlib Require Import Ascii String Strings.Byte.
From stdpp Require Import sets.
From S2P Require Import Prelude RustStd Externals Money Chain TronAddress.

Local Open Scope Z_scope.

Definition TRANSFER_TOPIC : string :=
  "ddf252ad1be2c89b69c2b068fc378daa952ba7f163c4a11628f55a4df523b3ef".
Definition WORD_BYTES : nat := 32.
Definition ADDRESS_PADDING_BYTES : nat := 12.

Inductive TronParseError :=
  | WrongWordLength (found : nat)
  | AddressWordNotPadded
  | EventNotHex
  | InvalidAddress
  | EventZeroAmount
  | EventInvalidTxHash
  | MissingExecutionResult
  | InvalidBlockTime
  | TooManyLogs
  | WrongTopicCount (found : nat).
#[export] Instance TronParseError_eq_dec : EqDecision TronParseError.
Proof. solve_decision. Defined.

(** ** Answers *)

Record LogEntry := mkLogEntry {
  le_address : string;
  le_topics : list string;
  le_data : string;
}.
Record Receipt := mkReceipt { rc_result : option string }.
Record TransactionInfo := mkTransactionInfo {
  ti_id : string;
  ti_block_number : option Z;
  ti_block_time_stamp : option Z;
  ti_result : option string;
  ti_receipt : option Receipt;
  ti_log : list LogEntry;
}.
Record BlockRef := mkBlockRef {
  br_number : Z;
  br_hash : string;
  br_parent_hash : option string;
  br_time : Z;
}.
Record ChainContext := mkChainContext {
  cx_chain : string;
  cx_network : string;
  cx_chain_environment : ChainEnvironment;
}.
Record HeadState := mkHeadState { hd_head : Z; hd_solid_head : Z }.

Definition finality_of (self : HeadState) (block_number : Z) : SourceFinality :=
  if block_number <=? hd_solid_head self then SrcFinalized
  else if block_number <=? hd_head self then SrcConfirmed
  else Seen.

Record ParsedTransfer := mkParsedTransfer {
  pt_event_index : Z;
  pt_contract : AddressKey;
  pt_from : AddressKey;
  pt_to : AddressKey;
  pt_amount : RawAmount;
}.

Record TokenView := mkTokenView {
  tv_token_key : AddressKey;
  tv_decimals : Z;
  tv_display : string;
}.

(** ** Decoding *)

Definition execution_status (info : TransactionInfo) : result TronParseError ExecutionStatus :=
  if match ti_result info with
     | Some result => negb (eq_ignore_ascii_case result "SUCCESS")
     | None => false
     end
  then Ok Failed
  else
    match receipt ← ti_receipt info; rc_result receipt with
    | Some result => if eq_ignore_ascii_case result "SUCCESS" then Ok Success else Ok Failed
    | None => Err MissingExecutionResult
    end.

Definition word_bytes (word : string) : result TronParseError (list byte) :=
  let trimmed := trim word in
  let trimmed := default trimmed (strip_prefix "0x" trimmed) in
  bytes ← map_err (fun _ => EventNotHex) (decode_hex trimmed);
  if negb (length bytes =? WORD_BYTES)%nat then Err (WrongWordLength (length bytes))
  else Ok bytes.

Definition address_from_word (word : string) : result TronParseError AddressKey :=
  bytes ← word_bytes word;
  if existsb (fun b => negb (Byte.eqb b x00)) (take ADDRESS_PADDING_BYTES bytes)
  then Err AddressWordNotPadded
  else map_err (fun _ => InvalidAddress) (from_evm_bytes (drop ADDRESS_PADDING_BYTES bytes)).

Section event.
Context `{U256Lib} `{HashLib} `{Base58Lib} `{TimeLib}.

Definition amount_from_word (word : string) : result TronParseError RawAmount :=
  bytes ← word_bytes word;
  map_err (fun _ => EventZeroAmount) (RawAmount_positive (u256_from_be_slice bytes)).

Definition parse_transfer_log (event_index : Z) (log : LogEntry)
    : result TronParseError ParsedTransfer :=
  contract ← map_err (fun _ => InvalidAddress) (from_hex (le_address log));
  match le_topics log with
  | [_; from_word; to_word] =>
      from ← address_from_word from_word;
      to ← address_from_word to_word;
      amount ← amount_from_word (le_data log);
      Ok {| pt_event_index := event_index; pt_contract := contract; pt_from := from;
            pt_to := to; pt_amount := amount |}
  | topics => Err (WrongTopicCount (length topics))
  end.

(** Whether a log is one [parse_transfers] decodes. *)
Definition is_transfer_log (log : LogEntry) : bool :=
  match le_topics log with
  | [] => false
  | topic :: _ =>
      eq_ignore_ascii_case (trim topic) TRANSFER_TOPIC && (length (le_topics log) =? 3)%nat
  end.

(** The loop over [info.log.iter().enumerate()], from [index] on. *)
Fixpoint parse_transfers_from (index : Z) (logs : list LogEntry)
    : result TronParseError (list ParsedTransfer) :=
  match logs with
  | [] => Ok []
  | log :: logs =>
      if negb (is_transfer_log log) then parse_transfers_from (index + 1) logs
      else
        event_index ← ok_or (i32_try_from index) TooManyLogs;
        transfer ← parse_transfer_log event_index log;
        transfers ← parse_transfers_from (index + 1) logs;
        Ok (transfer :: transfers)
  end.
Definition parse_transfers (info : TransactionInfo) : result TronParseError (list ParsedTransfer) :=
  parse_transfers_from 0 (ti_log info).

Definition display_of (address : AddressKey) : string :=
  match to_base58 address with Ok text => text | Err _ => AddressKey_to_hex address end.

Definition block_time (milliseconds : Z) : result TronParseError Z :=
  nanos ← ok_or (i128_checked_mul milliseconds 1000000) InvalidBlockTime;
  ok_or (odt_from_unix_nanos nanos) InvalidBlockTime.

Definition to_observation (transfer : ParsedTransfer) (info : TransactionInfo) (block : BlockRef)
    (context : ChainContext) (head : HeadState) (token : option TokenView)
    (evidence_sha256 : string) : result TronParseError ObservedTransfer :=
  tx_hash ← map_err (fun _ => EventInvalidTxHash) (TxHash_new (ti_id info));
  let known := match token with
               | Some t => if decide (tv_token_key t = pt_contract transfer) then Some t else None
               | None => None
               end in
  status ← execution_status info;
  Ok {| ot_chain := cx_chain context; ot_network := cx_network context;
        ot_chain_environment := cx_chain_environment context; ot_tx_hash := tx_hash;
        ot_event_index := pt_event_index transfer; ot_block_number := Some (br_number block);
        ot_block_hash := Some (br_hash block); ot_parent_hash := br_parent_hash block;
        ot_block_time := Some (br_time block); ot_token_key := pt_contract transfer;
        ot_token_display := match known with
                            | None => display_of (pt_contract transfer)
                            | Some token => tv_display token
                            end;
        ot_from_address := pt_from transfer; ot_from_address_text := display_of (pt_from transfer);
        ot_to_address := pt_to transfer; ot_to_address_text := display_of (pt_to transfer);
        ot_amount_raw := pt_amount transfer;
        ot_decimals := match known with None => 0 | Some token => tv_decimals token end;
        ot_memo := None; ot_execution_status := status;
        ot_source_finality := finality_of head (br_number block);
        ot_source_head := Some (hd_solid_head head);
        ot_evidence_sha256 := evidence_sha256; ot_evidence_uri := None |}.
End event.

(** * Lemmas *)

Lemma word_bytes_Ok word bytes :
  word_bytes word = Ok bytes -> length bytes = WORD_BYTES
  /\ decode_hex (default (trim word) (strip_prefix "0x" (trim word))) = Ok bytes.
Proof.
  unfold word_bytes. cbv zeta. destruct (decode_hex _) as [b|]; [|done]. cbn [map_err mbind result_bind].
  destruct (Nat.eqb_spec (length b) WORD_BYTES); [|done]. cbn [negb]. intros [= <-]. done.
Qed.

(** The last twenty bytes of the word, and only when the first twelve are
    zero. *)
Lemma address_from_word_Ok word k :
  address_from_word word = Ok k <->
  exists evm, word_bytes word = Ok (repeat x00 12 ++ evm) /\ length evm = 20%nat
    /\ k = mkAddressKey (TRON_ADDRESS_PREFIX :: evm).
Proof.
  unfold address_from_word. split.
  - destruct (word_bytes word) as [bytes|] eqn:Hw; [|done]. cbn [mbind result_bind].
    pose proof (proj1 (word_bytes_Ok _ _ Hw)) as Hl. destruct (existsb _ _) eqn:He; [done|].
    destruct (from_evm_bytes _) as [a|] eqn:Ha; [|done]. intros [= <-].
    apply from_evm_bytes_Ok in Ha as [Hd ->]. exists (drop ADDRESS_PADDING_BYTES bytes).
    split_and!; [|done..]. f_equal. rewrite <- (take_drop ADDRESS_PADDING_BYTES bytes) at 1. f_equal.
    assert (length (take ADDRESS_PADDING_BYTES bytes) = 12%nat) as Ht
      by (rewrite length_take, Hl; done).
    revert Ht He. generalize (take ADDRESS_PADDING_BYTES bytes). clear.
    assert (forall n l, length l = n -> existsb (fun b => negb (Byte.eqb b x00)) l = false ->
              l = repeat x00 n) as Hz; [|intros l; apply Hz].
    induction n as [|n IH]; intros [|b l]; simpl; try done. intros [= Hl] [Hb Hr]%orb_false_elim.
    f_equal; [|by apply IH]. apply negb_false_iff, Byte.byte_dec_bl in Hb. done.
  - intros (evm & -> & Hl & ->). cbn [mbind result_bind].
    rewrite (take_app_length' (repeat x00 12) evm), (drop_app_length' (repeat x00 12) evm) by done.
    change (existsb (fun b => negb (Byte.eqb b x00)) (repeat x00 12)) with false. cbn iota.
    by rewrite (proj2 (from_evm_bytes_Ok evm (mkAddressKey (TRON_ADDRESS_PREFIX :: evm)))).
Qed.

Section event_properties.
Context `{U256Lib} `{HashLib} `{Base58Lib} `{TimeLib}.

Lemma amount_from_word_Ok word a :
  amount_from_word word = Ok a <->
  exists bytes, word_bytes word = Ok bytes /\ 0 < be_value bytes /\ a = mkRawAmount (be_value bytes).
Proof.
  unfold amount_from_word. split.
  - destruct (word_bytes word) as [bytes|] eqn:Hw; [|done]. cbn [mbind result_bind].
    pose proof (proj1 (word_bytes_Ok _ _ Hw)) as Hl.
    rewrite u256_from_be_slice_law by (rewrite Hl; done).
    destruct (RawAmount_positive _) as [r|] eqn:Hr; [|done]. intros [= <-].
    apply RawAmount_positive_Ok in Hr as [Hne ->]. exists bytes. split_and!; [done| |done].
    pose proof (be_value_range bytes). lia.
  - intros (bytes & Hw & Hpos & ->). rewrite Hw. cbn [mbind result_bind].
    pose proof (proj1 (word_bytes_Ok _ _ Hw)) as Hl.
    rewrite u256_from_be_slice_law by (rewrite Hl; done).
    rewrite (proj2 (RawAmount_positive_Ok _ _)) by (split; [lia|reflexivity]). done.
Qed.

(** What the readers made of a log. *)
Definition parses_as (log : LogEntry) (t : ParsedTransfer) : Prop :=
  from_hex (le_address log) = Ok (pt_contract t)
  /\ exists topic from_word to_word,
       le_topics log = [topic; from_word; to_word]
       /\ address_from_word from_word = Ok (pt_from t) /\ address_from_word to_word = Ok (pt_to t)
       /\ amount_from_word (le_data log) = Ok (pt_amount t).

Lemma parses_as_inj log t u :
  parses_as log t -> parses_as log u -> pt_event_index t = pt_event_index u -> t = u.
Proof.
  intros (Hc & a & b & c & Ht & Hf & Hto & Ha) (Hc' & a' & b' & c' & Ht' & Hf' & Hto' & Ha') Hi.
  destruct t, u. simpl in *. congruence.
Qed.

Lemma parse_transfer_log_Ok index log t :
  parse_transfer_log index log = Ok t -> pt_event_index t = index /\ parses_as log t.
Proof.
  unfold parse_transfer_log, parses_as. unfold_res.
  destruct (from_hex (le_address log)) as [c|] eqn:Hc; [|done].
  destruct (le_topics log) as [|x [|y [|z [|w l]]]] eqn:Ht; try done.
  destruct (address_from_word y) as [f|] eqn:Hf; [|done].
  destruct (address_from_word z) as [to|] eqn:Hto; [|done].
  destruct (amount_from_word (le_data log)) as [a|] eqn:Ha; [|done].
  intros [= <-]. simpl. split; [done|]. split; [done|]. by exists x, y, z.
Qed.

Lemma parse_transfers_from_spec logs : forall index ts,
  parse_transfers_from index logs = Ok ts ->
  (forall t, t ∈ ts <-> exists k log, logs !! k = Some log /\ is_transfer_log log = true
              /\ pt_event_index t = index + Z.of_nat k /\ parses_as log t)
  /\ NoDup (pt_event_index <$> ts) /\ Forall (fun t => index <= pt_event_index t) ts.
Proof.
  induction logs as [|log logs IH]; intros index ts; cbn [parse_transfers_from].
  - intros [= <-]. split_and!; [|constructor..]. intros t. split; [set_solver|].
    intros (k & log & Hk & _). by destruct k.
  - assert (Hshift : forall t,
      (exists k l, logs !! k = Some l /\ is_transfer_log l = true
        /\ pt_event_index t = index + 1 + Z.of_nat k /\ parses_as l t)
      <-> exists k l, (log :: logs) !! S k = Some l /\ is_transfer_log l = true
        /\ pt_event_index t = index + Z.of_nat (S k) /\ parses_as l t).
    { intros t. split; intros (k & l & ? & ? & ? & ?); exists k, l; split_and!; (done || lia). }
    destruct (is_transfer_log log) eqn:Hlog; cbn [negb].
    + unfold_res. destruct (i32_try_from index) as [i|] eqn:Hi; [|done].
      apply checked_Some in Hi as [-> _].
      destruct (parse_transfer_log index log) as [x|] eqn:Hx; [|done].
      destruct (parse_transfers_from (index + 1) logs) as [rest|] eqn:Hr; [|done].
      intros [= <-]. apply IH in Hr as (Hin & Hnd & Hlow).
      pose proof (parse_transfer_log_Ok _ _ _ Hx) as [Hxi Hxd]. split_and!.
      * intros t. rewrite elem_of_cons, Hin, Hshift. split.
        -- intros [->|(k & l & Hrest)]; [|by exists (S k), l].
           exists 0%nat, log. split_and!; try done. lia.
        -- intros ([|k] & l & Hl & Ht & He & Hd); [|right; by exists k, l]. left.
           injection Hl as <-. apply (parses_as_inj log); [done..|]. lia.
      * cbn [fmap list_fmap]. constructor; [|done]. intros (y & Hy & Hyin)%list_elem_of_fmap.
        rewrite Forall_forall in Hlow. specialize (Hlow y Hyin). lia.
      * constructor; [lia|]. eapply Forall_impl; [exact Hlow|]. simpl. intros. lia.
    + intros Hr. apply IH in Hr as (Hin & Hnd & Hlow). split_and!; [|done|].
      * intros t. rewrite Hin, Hshift. split.
        -- intros (k & l & ?). by exists (S k), l.
        -- intros ([|k] & l & Hl & Ht & Hrest); [simpl in Hl; congruence|by exists k, l].
      * eapply Forall_impl; [exact Hlow|]. simpl. intros. lia.
Qed.
End event_properties.

Section event_theorems.
Context `{U256Lib} `{HashLib} `{Base58Lib} `{TimeLib}.

(** A log that is a [Transfer] event of three topics, and what it says: the
    contract is 21 bytes that start with 0x41, or 20 bytes that stand for them;
    an address is the last twenty bytes of a word of 32 whose first twelve are
    zero; the amount is the positive big-endian value of the data word. *)
Definition is_transfer_event (log : LogEntry) : Prop :=
  exists topic from_word to_word,
    le_topics log = [topic; from_word; to_word] /\ to_ascii_lowercase (trim topic) = TRANSFER_TOPIC.
Definition word_address (word : string) (k : AddressKey) : Prop :=
  exists evm, hex_text word (repeat x00 12 ++ evm) /\ length evm = 20%nat /\ k = mkAddressKey (x41 :: evm).
Definition decodes (log : LogEntry) (t : ParsedTransfer) : Prop :=
  (exists topic from_word to_word,
     le_topics log = [topic; from_word; to_word] /\ to_ascii_lowercase (trim topic) = TRANSFER_TOPIC
     /\ word_address from_word (pt_from t) /\ word_address to_word (pt_to t))
  /\ (exists bytes, hex_text (le_address log) bytes
      /\ ((length bytes = 21%nat /\ head bytes = Some x41 /\ pt_contract t = mkAddressKey bytes)
          \/ (length bytes = 20%nat /\ pt_contract t = mkAddressKey (x41 :: bytes))))
  /\ exists bytes, hex_text (le_data log) bytes /\ length bytes = 32%nat
      /\ 0 < be_value bytes /\ pt_amount t = mkRawAmount (be_value bytes).

Lemma is_transfer_log_spec log : is_transfer_log log = true <-> is_transfer_event log.
Proof.
  unfold is_transfer_log, is_transfer_event, eq_ignore_ascii_case.
  change (to_ascii_lowercase TRANSFER_TOPIC) with TRANSFER_TOPIC. split.
  - destruct (le_topics log) as [|topic [|a [|b [|c l]]]]; try done; rewrite andb_true_iff; try by intros [_ ?].
    intros [Ht%bool_decide_eq_true _]. by exists topic, a, b.
  - intros (topic & a & b & -> & Ht). by rewrite bool_decide_eq_true_2.
Qed.

Lemma parse_transfers_from_all logs : forall index ts k log,
  parse_transfers_from index logs = Ok ts -> logs !! k = Some log -> is_transfer_log log = true ->
  exists t, t ∈ ts /\ pt_event_index t = index + Z.of_nat k.
Proof.
  induction logs as [|x logs IH]; intros index ts k log; cbn [parse_transfers_from]; [by destruct k|].
  destruct (is_transfer_log x) eqn:Hx; cbn [negb].
  - unfold_res. destruct (i32_try_from index) as [i|] eqn:Hi; [|done]. apply checked_Some in Hi as [-> _].
    destruct (parse_transfer_log index x) as [t|] eqn:Ht; [|done].
    destruct (parse_transfers_from (index + 1) logs) as [rest|] eqn:Hr; [|done]. intros [= <-] Hk Hlog.
    destruct k as [|k].
    + exists t. apply parse_transfer_log_Ok in Ht as [-> _]. split; [by left|lia].
    + destruct (IH _ _ k log Hr Hk Hlog) as (t' & Hin & Ht'). exists t'. split; [by right|lia].
  - intros Hr Hk Hlog. destruct k as [|k]; [cbn in Hk; congruence|].
    destruct (IH _ _ k log Hr Hk Hlog) as (t' & Hin & Ht'). exists t'. split; [done|lia].
Qed.

Lemma word_bytes_spec word bytes : word_bytes word = Ok bytes <-> hex_text word bytes /\ length bytes = 32%nat.
Proof.
  split; [intros [Hl Hd%decode_hex_spec]%word_bytes_Ok; done|]. intros [Hd%decode_hex_spec Hl]. unfold word_bytes.
  cbv zeta. rewrite Hd. cbn [map_err mbind result_bind]. by rewrite Hl.
Qed.

Lemma word_address_spec word k : address_from_word word = Ok k <-> word_address word k.
Proof.
  rewrite address_from_word_Ok. unfold word_address. split.
  - intros (evm & [Ht _]%word_bytes_spec & Hl & ->). by exists evm.
  - intros (evm & Ht & Hl & ->). exists evm. split_and!; try done. apply word_bytes_spec. split; [done|].
    by rewrite length_app, Hl.
Qed.

Lemma decodes_spec log t : is_transfer_log log = true /\ parses_as log t <-> decodes log t.
Proof.
  unfold parses_as, decodes. rewrite from_hex_spec. unfold is_transfer_log, eq_ignore_ascii_case.
  change (to_ascii_lowercase TRANSFER_TOPIC) with TRANSFER_TOPIC. split.
  - intros (Hlog & Hc & topic & f & to & Ht & Hf%word_address_spec & Hto%word_address_spec & Ha).
    apply amount_from_word_Ok in Ha as (bytes & [Hd Hl]%word_bytes_spec & Hpos & Ha).
    rewrite Ht in Hlog. apply andb_true_iff in Hlog as [Htop%bool_decide_eq_true _].
    split_and!; [by exists topic, f, to|done|by exists bytes].
  - intros ((topic & f & to & Ht & Htop & Hf%word_address_spec & Hto%word_address_spec) & Hc & bytes & Hd & Hl & Hpos & Ha).
    rewrite Ht. split; [by rewrite bool_decide_eq_true_2|]. split; [done|]. exists topic, f, to.
    split_and!; [done..|]. apply amount_from_word_Ok. exists bytes. by rewrite word_bytes_spec.
Qed.

Lemma decodes_shape log t :
  decodes log t ->
  TronAddress_wf (pt_contract t) /\ TronAddress_wf (pt_from t) /\ TronAddress_wf (pt_to t)
  /\ 0 < as_u256 (pt_amount t) /\ RawAmount_wf (pt_amount t).
Proof.
  intros [_ (Hc & _ & f & w & _ & Hf & Hw & Ha)]%decodes_spec.
  assert (forall word k, address_from_word word = Ok k -> TronAddress_wf k) as Haddr.
  { intros word k (evm & _ & Hl & ->)%address_from_word_Ok. split; [|done]. simpl. by rewrite Hl. }
  apply amount_from_word_Ok in Ha as (bytes & Hb & Hpos & ->).
  split_and!; [by apply from_hex_shape in Hc|by eapply Haddr|by eapply Haddr|done|].
  unfold RawAmount_wf, is_u256. simpl. pose proof (be_value_range bytes) as Hr.
  apply word_bytes_Ok in Hb as [Hl _]. rewrite Hl in Hr.
  change (256 ^ Z.of_nat WORD_BYTES) with (U256_MAX + 1) in Hr. lia.
Qed.

(** C32: A decoded answer holds one transfer for exactly each log that is a
    [Transfer] event of three topics, under the log's own position in the
    transaction, so that no two share an index.  Sender and recipient are the
    last twenty bytes of hexadecimal words of 32 bytes whose first twelve are
    zero, behind the byte 0x41; the contract is a canonical address too; and
    the amount is the positive big-endian 256-bit value of the data word. *)
Theorem parse_transfers_exact info ts :
  parse_transfers info = Ok ts ->
  (forall t, t ∈ ts <-> exists k log, ti_log info !! k = Some log
              /\ pt_event_index t = Z.of_nat k /\ decodes log t)
  /\ (forall k log, ti_log info !! k = Some log -> is_transfer_event log ->
        exists t, t ∈ ts /\ pt_event_index t = Z.of_nat k)
  /\ NoDup (pt_event_index <$> ts)
  /\ Forall (fun t => TronAddress_wf (pt_contract t) /\ TronAddress_wf (pt_from t)
                      /\ TronAddress_wf (pt_to t) /\ 0 < as_u256 (pt_amount t)
                      /\ RawAmount_wf (pt_amount t)) ts.
Proof.
  intros Hparse. pose proof Hparse as (Hin & Hnd & _)%parse_transfers_from_spec.
  assert (forall t, t ∈ ts <-> exists k log, ti_log info !! k = Some log /\ pt_event_index t = Z.of_nat k
    /\ decodes log t) as Hin'.
  { intros t. rewrite Hin. setoid_rewrite <- decodes_spec. setoid_rewrite Z.add_0_l. naive_solver. }
  split_and!; [done| |done|].
  - intros k log Hk Hlog%is_transfer_log_spec. by eapply parse_transfers_from_all in Hparse.
  - apply Forall_forall. intros t (k & log & _ & _ & Hd)%Hin'. by eapply decodes_shape.
Qed.

(** One [Transfer] event of value zero makes the whole answer undecodable. *)
Lemma zero_value_undecodable info k log :
  ti_log info !! k = Some log -> is_transfer_event log -> hex_text (le_data log) (repeat x00 32) ->
  exists e, parse_transfers info = Err e.
Proof.
  intros Hk Hlog Hzero. destruct (parse_transfers info) as [ts|e] eqn:Hp; [exfalso|by exists e].
  pose proof (parse_transfers_from_all _ _ _ _ _ Hp Hk (proj2 (is_transfer_log_spec log) Hlog)) as (t & Hin & Ht).
  apply parse_transfers_from_spec in Hp as [Hspec _]. apply Hspec in Hin as (k' & log' & Hk' & Hlog' & Hidx & Hd).
  assert (k' = k) as -> by lia. rewrite Hk in Hk'. injection Hk' as <-.
  destruct (proj1 (decodes_spec log t) (conj Hlog' Hd)) as (_ & _ & bytes & Hb & _ & Hpos & _).
  rewrite (hex_text_inj _ _ _ Hb Hzero) in Hpos. by vm_compute in Hpos.
Qed.

(** A reading repeats the log and its block and adds nothing: a token is
    named and scaled from the allowlist only when its contract bytes match,
    and otherwise shown as its own address with no scale; success is
    reported only when the receipt says so and the answer does not deny it;
    a block counts as final exactly up to the solidified head. *)
Theorem observation_repeats_the_log t info block context head token evidence o :
  to_observation t info block context head token evidence = Ok o ->
  ot_event_index o = pt_event_index t /\ ot_token_key o = pt_contract t
  /\ ot_from_address o = pt_from t /\ ot_to_address o = pt_to t /\ ot_amount_raw o = pt_amount t
  /\ ot_block_number o = Some (br_number block) /\ ot_block_hash o = Some (br_hash block)
  /\ ot_block_time o = Some (br_time block) /\ ot_source_head o = Some (hd_solid_head head)
  /\ TxHash_new (ti_id info) = Ok (ot_tx_hash o)
  /\ ((exists k, token = Some k /\ tv_token_key k = pt_contract t
         /\ ot_token_display o = tv_display k /\ ot_decimals o = tv_decimals k)
      \/ ((forall k, token = Some k -> tv_token_key k <> pt_contract t)
          /\ ot_token_display o = display_of (pt_contract t) /\ ot_decimals o = 0))
  /\ (ot_execution_status o = Success ->
        (exists r text, ti_receipt info = Some r /\ rc_result r = Some text
           /\ eq_ignore_ascii_case text "SUCCESS" = true)
        /\ forall text, ti_result info = Some text -> eq_ignore_ascii_case text "SUCCESS" = true)
  /\ (ot_source_finality o = SrcFinalized <-> br_number block <= hd_solid_head head).
Proof.
  unfold to_observation. unfold_res. destruct (TxHash_new (ti_id info)) as [h|] eqn:Hh; [|done].
  destruct (execution_status info) as [st|] eqn:Hst; [|done]. intros [= <-]. cbn. split_and!; try done.
  - destruct token as [k|]; [|right; by split_and!]. case_decide as Hk.
    + left. by exists k.
    + right. split_and!; try done. by intros k' [= <-].
  - intros ->. unfold execution_status in Hst.
    destruct (ti_result info) as [text|]; [destruct (negb _) eqn:Hn; [done|]|];
      (destruct (ti_receipt info) as [[[r|]]|]; cbn in Hst; try done;
       destruct (eq_ignore_ascii_case r "SUCCESS") eqn:Hr; [|done];
       split; [by eexists _, r|]); [|done].
    intros text' [= <-]. by apply negb_false_iff.
  - unfold finality_of. zcases; split; intros; try done; lia.
Qed.
End event_theorems.

(** ** A concrete answer *)

Import ReferenceInstances.

Definition sample_word (n : Z) : string := hex_of_bytes (be_bytes 32 n).
Definition sample_log (amount : Z) : LogEntry := {|
  le_address := hex_of_bytes (repeat x0a 20);
  le_topics := [TRANSFER_TOPIC; sample_word 1; sample_word 2]; le_data := sample_word amount |}.
Definition sample_info (amounts : list Z) : TransactionInfo := {|
  ti_id := "aa01"; ti_block_number := Some 7; ti_block_time_stamp := Some 0; ti_result := None;
  ti_receipt := Some (mkReceipt (Some "SUCCESS")); ti_log := sample_log <$> amounts |}.
Definition sample_parsed : ParsedTransfer := {|
  pt_event_index := 0; pt_contract := mkAddressKey (x41 :: repeat x0a 20);
  pt_from := mkAddressKey (x41 :: be_bytes 20 1); pt_to := mkAddressKey (x41 :: be_bytes 20 2);
  pt_amount := mkRawAmount 5 |}.

Lemma parse_transfers_exact_witness :
  NoDup (pt_event_index <$> [sample_parsed]) /\ decodes (sample_log 5) sample_parsed.
Proof.
  destruct (parse_transfers_exact (sample_info [5]) [sample_parsed]) as (Hin & _ & Hnd & _); [vm_compute; reflexivity|].
  split; [exact Hnd|].
  destruct (proj1 (Hin sample_parsed) (list_elem_of_here _ _)) as (k & log & Hk & Hi & Hd).
  assert (k = 0%nat) as -> by (cbn in Hi; lia). injection Hk as <-. exact Hd.
Defined.

Definition sample_block : BlockRef :=
  {| br_number := 7; br_hash := "b7"; br_parent_hash := None; br_time := 0 |}.
Definition sample_context : ChainContext :=
  {| cx_chain := "tron"; cx_network := "mainnet"; cx_chain_environment := Mainnet |}.

Lemma observation_repeats_the_log_witness :
  exists o, to_observation sample_parsed (sample_info [5]) sample_block sample_context
    (mkHeadState 9 8) None "" = Ok o /\ ot_source_finality o = SrcFinalized.
Proof.
  destruct (to_observation sample_parsed (sample_info [5]) sample_block sample_context
    (mkHeadState 9 8) None "") as [o|e] eqn:Ho; [|vm_compute in Ho; discriminate Ho].
  exists o. split; [reflexivity|].
  apply (observation_repeats_the_log sample_parsed (sample_info [5]) sample_block sample_context
    (mkHeadState 9 8) None "" o Ho). vm_compute. congruence.
Defined.
