(* ===== verification/TronSource.v ===== *)
(** * The TRON source

    [gateway-tron/src/source.rs]: the two lanes of the observer and the
    verifier's direct read, over a transport that posts and gets text.  The
    transport and the JSON decoder are parameters. *)

From Stdlib Require Import Ascii String Strings.Byte.
From stdpp Require Import sets list_numbers.
From S2P Require Import Prelude RustStd Externals Effects Money Chain Observations Verification.
From S2P Require Import VerificationService TronAddress TronEvent.

Local Open Scope Z_scope.

Definition PROPOSED_FENCE_TOKEN : Z := 1.

Inductive ScanLane := BlockRange | AddressIndex.
Definition ScanLane_cursor_kind (l : ScanLane) : CursorKind :=
  match l with BlockRange => CursorBlock | AddressIndex => LogicalTime end.

Record TronSourceConfig := mkTronSourceConfig {
  tc_base_url : string;
  tc_api_key : option string;
  tc_api_key_header : string;
  tc_chain : string;
  tc_network : string;
  tc_chain_environment : ChainEnvironment;
  tc_lane : ScanLane;
  tc_request_timeout : Z;
  tc_max_blocks_per_scan : Z;        (* u32 *)
  tc_bootstrap_lookback_blocks : Z;  (* u32 *)
  tc_tokens : list TokenView;
  tc_user_agent : string;
}.
Definition tc_context (c : TronSourceConfig) : ChainContext :=
  {| cx_chain := tc_chain c; cx_network := tc_network c; cx_chain_environment := tc_chain_environment c |}.
Definition token_for (c : TronSourceConfig) (contract : AddressKey) : option TokenView :=
  snd <$> list_find (fun t => tv_token_key t = contract) (tc_tokens c).

Inductive TronSourceError :=
  | TronUnreachable (detail : string) | TronUnparseable (detail : string) | TronConfiguration (detail : string).
Definition ScanError_from (e : TronSourceError) : ScanError :=
  match e with
  | TronUnreachable detail => ScanUnreachable detail
  | TronUnparseable detail | TronConfiguration detail => ScanUnparseable detail
  end.
Definition ChainReaderError_from (e : TronSourceError) : ChainReaderError :=
  match e with
  | TronUnreachable detail => ReaderUnreachable detail
  | TronUnparseable detail | TronConfiguration detail => ReaderUnparseable detail
  end.

(** ** Answers *)

Record BlockRawData := mkBlockRawData {
  bw_number : option Z;
  bw_timestamp : option Z;
  bw_parent_hash : option string;
}.
Record BlockHeader := mkBlockHeader { bh_raw_data : option BlockRawData }.
Record BlockAnswer := mkBlockAnswer { ba_block_id : option string; ba_block_header : option BlockHeader }.
Record Trc20IndexEntry := mkTrc20IndexEntry { ie_transaction_id : option string; ie_block_timestamp : option Z }.
Record Trc20IndexPage := mkTrc20IndexPage { ip_data : list Trc20IndexEntry }.

Definition BlockAnswer_raw (a : BlockAnswer) : option BlockRawData :=
  header ← ba_block_header a; bh_raw_data header.
Definition BlockAnswer_number (a : BlockAnswer) : option Z :=
  raw ← BlockAnswer_raw a; bw_number raw.

(** [serde_json::from_str] at the four types, with the error's text. *)
Class TronJson := {
  json_block : string -> result string BlockAnswer;
  json_infos : string -> result string (list TransactionInfo);
  json_info : string -> result string TransactionInfo;
  json_index : string -> result string Trc20IndexPage;
}.

Class TronTransport (W : Type) := {
  transport_post : string -> json -> eff W TronSourceError string;
  transport_get : string -> eff W TronSourceError string;
}.

(** The texts of the errors [error.to_string()] shows. *)
Class ErrorTexts := {
  parse_error_text : TronParseError -> string;
  address_error_text : TronAddressError -> string;
  observation_error_text : ObservationError -> string;
  chain_error_text : ChainError -> string;
}.

Definition source_truncate (body : string) : string := chars_take 300 body.

Definition sha256_hex `{HashLib} (body : string) : string := hex_of_bytes (sha256 (as_bytes body)).

Section source.
Context {W : Type} `{U256Lib} `{TimeLib} `{HashLib} `{Base58Lib}.
Context `{Json : TronJson} `{TronTransport W} `{ErrorTexts}.

Definition parse_with {A} (decode : string -> result string A) (body : string)
    : result TronSourceError A :=
  map_err (fun error => TronUnparseable (error +:+ ": " +:+ source_truncate body)) (decode body).
Definition missing_head : TronSourceError :=
  TronUnparseable "the answer carries no head block number".
Definition unparseable_parse (e : TronParseError) : TronSourceError := TronUnparseable (parse_error_text e).

Definition into_block_ref (a : BlockAnswer) : result TronSourceError BlockRef :=
  number ← ok_or (BlockAnswer_number a) (TronUnparseable "the answer carries no block number");
  hash ← ok_or (ba_block_id a) (TronUnparseable "the answer carries no block hash");
  let raw := BlockAnswer_raw a in
  milliseconds ← ok_or (raw ← raw; bw_timestamp raw) (TronUnparseable "the answer carries no block time");
  time ← map_err unparseable_parse (block_time milliseconds);
  Ok {| br_number := number; br_hash := hash; br_parent_hash := (raw ← raw; bw_parent_hash raw);
        br_time := time |}.

Definition heads : eff W TronSourceError HeadState :=
  latest ← transport_post "wallet/getnowblock" (JObject []);
  solid ← transport_post "walletsolidity/getnowblock" (JObject []);
  latest ← lift (parse_with json_block latest);
  solid ← lift (parse_with json_block solid);
  head ← lift (ok_or (BlockAnswer_number latest) missing_head);
  solid_head ← lift (ok_or (BlockAnswer_number solid) missing_head);
  mret {| hd_head := head; hd_solid_head := solid_head |}.

Definition num_body (number : Z) : json := JObject [("num", JNumber (dec_signed number))].

Definition source_block (number : Z) : eff W TronSourceError BlockRef :=
  body ← transport_post "wallet/getblockbynum" (num_body number);
  answer ← lift (parse_with json_block body);
  lift (into_block_ref answer).

Definition block_transactions (number : Z) : eff W TronSourceError (string * list TransactionInfo) :=
  body ← transport_post "wallet/gettransactioninfobyblocknum" (num_body number);
  infos ← lift (parse_with json_infos body);
  mret (body, infos).

Definition source_transaction (tx_hash : TxHash)
    : eff W TronSourceError (option (string * TransactionInfo)) :=
  body ← transport_post "wallet/gettransactioninfobyid"
           (JObject [("value", JString (TxHash_as_str tx_hash))]);
  info ← lift (parse_with json_info body);
  mret (if bool_decide (ti_id info = "") then None else Some (body, info)).

Definition readings (config : TronSourceConfig) (info : TransactionInfo) (block : BlockRef)
    (head : HeadState) (watch : CollectorWatch) (evidence_sha256 : string)
    : result TronSourceError (list ObservedTransfer) :=
  parsed ← map_err unparseable_parse (parse_transfers info);
  collect (fun transfer =>
      map_err unparseable_parse
        (to_observation transfer info block (tc_context config) head
           (token_for config (pt_contract transfer)) evidence_sha256))
    (filter (fun transfer => pt_to transfer = cw_address_key watch) parsed).

(** The readings of one whole block, appended to those before it. *)
Definition block_readings (config : TronSourceConfig) (head : HeadState) (watch : CollectorWatch)
    (number : Z) : eff W TronSourceError (list ObservedTransfer * string) :=
  block ← source_block number;
  '(body, infos) ← block_transactions number;
  let evidence := sha256_hex body in
  found ← lift (collect (fun info => readings config info block head watch evidence) infos);
  mret (mjoin found, br_hash block).

(** [for number in from..=last], leaving once [limit] readings are found. *)
Fixpoint scan_loop (config : TronSourceConfig) (head : HeadState) (watch : CollectorWatch) (limit : Z)
    (numbers : list Z) (transfers : list ObservedTransfer) (scanned_to : option (Z * string))
    : eff W TronSourceError (list ObservedTransfer * option (Z * string)) :=
  match numbers with
  | [] => mret (transfers, scanned_to)
  | number :: rest =>
      '(found, hash) ← block_readings config head watch number;
      let transfers := transfers ++ found in
      let scanned_to := Some (number, hash) in
      if limit <=? len_u32 transfers then mret (transfers, scanned_to)
      else scan_loop config head watch limit rest transfers scanned_to
  end.

Definition scan_from (config : TronSourceConfig) (cursor : option CursorPosition) (head : HeadState)
    : result TronSourceError Z :=
  match cursor with
  | Some position =>
      value ← ok_or (parse_i64 (cp_value position)) (TronUnparseable "cursor is not a block number");
      Ok (i64_saturating_add value 1)
  | None => Ok (Z.max (i64_saturating_sub (hd_solid_head head) (tc_bootstrap_lookback_blocks config)) 0)
  end.

Definition block_cursor (scanned_to : option (Z * string)) : result TronSourceError (option CursorPosition) :=
  match scanned_to with
  | Some (number, hash) =>
      cursor ← map_err (fun e => TronUnparseable (observation_error_text e))
                 (CursorPosition_new CursorBlock (dec_signed number) (Some hash) PROPOSED_FENCE_TOKEN);
      Ok (Some cursor)
  | None => Ok None
  end.

Definition scan_blocks (config : TronSourceConfig) (watch : CollectorWatch)
    (cursor : option CursorPosition) (limit : Z) : eff W TronSourceError ScanPage :=
  head ← heads;
  from ← lift (scan_from config cursor head);
  if hd_solid_head head <? from
  then mret {| pg_transfers := []; pg_next_cursor := None; pg_head := Some (hd_solid_head head) |}
  else
    let last := Z.min (i64_saturating_add from (i64_saturating_sub (tc_max_blocks_per_scan config) 1))
                      (hd_solid_head head) in
    '(transfers, scanned_to) ← scan_loop config head watch limit (seqZ from (last - from + 1)) [] None;
    next_cursor ← lift (block_cursor scanned_to);
    mret {| pg_transfers := transfers; pg_next_cursor := next_cursor; pg_head := Some (hd_solid_head head) |}.

(** The state of the loop over an index page: readings, newest timestamp,
    transactions seen, and the blocks read so far. *)
Record IndexState := mkIndexState {
  is_transfers : list ObservedTransfer;
  is_latest : Z;
  is_seen : list string;
  is_blocks : list (Z * BlockRef);
}.
Definition index_block (blocks : list (Z * BlockRef)) (number : Z)
    : eff W TronSourceError (BlockRef * list (Z * BlockRef)) :=
  match list_find (fun entry => entry.1 = number) blocks with
  | Some (_, (_, block)) => mret (block, blocks)
  | None => block ← source_block number; mret (block, (number, block) :: blocks)
  end.

Definition index_step (config : TronSourceConfig) (head : HeadState) (watch : CollectorWatch)
    (st : IndexState) (entry : Trc20IndexEntry) : eff W TronSourceError IndexState :=
  let latest := Z.max (is_latest st) (default 0 (ie_block_timestamp entry)) in
  let skip := mkIndexState (is_transfers st) latest (is_seen st) (is_blocks st) in
  match ie_transaction_id entry with
  | None => mret skip
  | Some id =>
      if bool_decide (id ∈ is_seen st) then mret skip
      else
        let seen := is_seen st ++ [id] in
        tx_hash ← lift (map_err (fun e => TronUnparseable (chain_error_text e)) (TxHash_new id));
        found ← source_transaction tx_hash;
        match found with
        | None => mret (mkIndexState (is_transfers st) latest seen (is_blocks st))
        | Some (raw, info) =>
            match ti_block_number info with
            | None => mret (mkIndexState (is_transfers st) latest seen (is_blocks st))
            | Some number =>
                '(block, blocks) ← index_block (is_blocks st) number;
                let evidence := sha256_hex raw in
                found ← lift (readings config info block head watch evidence);
                mret (mkIndexState (is_transfers st ++ found) latest seen blocks)
            end
        end
  end.

Definition index_query (address : string) (limit min_timestamp : Z) : string :=
  "v1/accounts/" +:+ address +:+ "/transactions/trc20?only_to=true&limit=" +:+ dec_signed limit
  +:+ "&min_timestamp=" +:+ dec_signed min_timestamp +:+ "&order_by=block_timestamp,asc".

Definition scan_address_index (config : TronSourceConfig) (watch : CollectorWatch)
    (cursor : option CursorPosition) (limit : Z) : eff W TronSourceError ScanPage :=
  head ← heads;
  address ← lift (map_err (fun e => TronUnparseable (address_error_text e)) (to_base58 (cw_address_key watch)));
  min_timestamp ← lift (match cursor with
                        | Some position =>
                            ok_or (parse_i64 (cp_value position))
                              (TronUnparseable "cursor is not a millisecond timestamp")
                        | None => Ok 0
                        end);
  body ← transport_get (index_query address limit min_timestamp);
  page ← lift (parse_with json_index body);
  st ← for_each (index_step config head watch) (ip_data page) (mkIndexState [] min_timestamp [] []);
  next_cursor ← lift (if min_timestamp <? is_latest st
                      then cursor ← map_err (fun e => TronUnparseable (observation_error_text e))
                             (CursorPosition_new LogicalTime (dec_signed (is_latest st)) None
                                PROPOSED_FENCE_TOKEN);
                           Ok (Some cursor)
                      else Ok None);
  mret {| pg_transfers := is_transfers st; pg_next_cursor := next_cursor;
          pg_head := Some (hd_solid_head head) |}.

Definition read_event (config : TronSourceConfig) (event : ChainEventKey)
    : eff W TronSourceError (option ObservedTransfer) :=
  if negb (String.eqb (ck_chain event) (tc_chain config))
     || negb (String.eqb (ck_network event) (tc_network config))
     || negb (bool_decide (ck_chain_environment event = tc_chain_environment config))
  then mret None
  else
    found ← source_transaction (ck_tx_hash event);
    match found with
    | None => mret None
    | Some (body, info) =>
        match ti_block_number info with
        | None => mret None
        | Some number =>
            head ← heads;
            block ← source_block number;
            let evidence := sha256_hex body in
            parsed ← lift (map_err unparseable_parse (parse_transfers info));
            match list_find (fun t => pt_event_index t = ck_event_index event) parsed with
            | None => mret None
            | Some (_, transfer) =>
                reading ← lift (map_err unparseable_parse
                  (to_observation transfer info block (tc_context config) head
                     (token_for config (pt_contract transfer)) evidence));
                mret (Some reading)
            end
        end
    end.

Definition scan (config : TronSourceConfig) (watch : CollectorWatch) (cursor : option CursorPosition)
    (limit : Z) : eff W ScanError ScanPage :=
  if negb (String.eqb (cw_chain watch) (tc_chain config))
     || negb (String.eqb (cw_network watch) (tc_network config))
     || negb (bool_decide (cw_chain_environment watch = tc_chain_environment config))
  then lift (Err (ScanUnparseable "the watched collector belongs to another chain or environment"))
  else eff_map_err ScanError_from
         (match tc_lane config with
          | BlockRange => scan_blocks config watch cursor limit
          | AddressIndex => scan_address_index config watch cursor limit
          end).

Definition lookup_event (config : TronSourceConfig) (event : ChainEventKey)
    : eff W ChainReaderError (option ObservedTransfer) :=
  eff_map_err ChainReaderError_from (read_event config event).
End source.

(** * Lemmas *)

Lemma parse_i64_range s v : parse_i64 s = Some v -> I64_MIN <= v <= I64_MAX.
Proof.
  unfold parse_i64. destruct s as [|c t]; [done|]. repeat case_match; try done; intros [-> ?]%checked_Some; done.
Qed.

(** A prefix of a run of numbers is the run up to its last number. *)
Lemma walked_prefix from len walked number :
  walked `prefix_of` seqZ from len -> last walked = Some number ->
  walked = seqZ from (number - from + 1) /\ from <= number < from + len.
Proof.
  intros [rest Hpre] Hlast.
  assert (Hl : (length walked <= Z.to_nat len)%nat).
  { apply (f_equal length) in Hpre. rewrite length_app, length_seqZ in Hpre. lia. }
  assert (Hget : forall i x, walked !! i = Some x -> x = from + Z.of_nat i /\ Z.of_nat i < len).
  { intros i x Hi. assert (seqZ from len !! i = Some x) as Hs
      by (rewrite Hpre, lookup_app_l; [done|by eapply lookup_lt_Some]).
    apply lookup_seqZ in Hs. lia. }
  rewrite last_lookup in Hlast. apply Hget in Hlast as Hnum.
  pose proof (lookup_lt_Some _ _ _ Hlast). split; [|lia].
  apply list_eq_same_length with (length walked); [rewrite length_seqZ; lia|done|].
  intros i x y Hi Hx Hy. apply Hget in Hx as [-> _]. apply lookup_seqZ in Hy. lia.
Qed.

Lemma last_zip {A B} (l : list A) (k : list B) x :
  length l = length k -> last l = Some x -> exists y, last (zip l k) = Some (x, y).
Proof.
  revert k. induction l as [|a l IH]; intros [|b k] Hl Hx; try done.
  injection Hl as Hl. rewrite last_cons in Hx.
  change (zip (a :: l) (b :: k)) with ((a, b) :: zip l k). rewrite last_cons.
  destruct (last l) as [z|] eqn:E.
  - injection Hx as ->. destruct (IH k Hl eq_refl) as [y ->]. by exists y.
  - apply last_None in E as ->. destruct k; [|done]. simplify_eq. by exists b.
Qed.

Lemma last_zip_snd {A B} (l : list A) (k : list B) x y :
  length l = length k -> last (zip l k) = Some (x, y) -> last k = Some y.
Proof.
  intros Hl Hz. rewrite last_lookup in Hz. rewrite last_lookup. rewrite length_zip_with, Hl, Nat.min_id in Hz.
  by apply lookup_zip_Some in Hz as [_ ?].
Qed.

Lemma scan_from_range `{TimeLib} config cursor head from :
  scan_from config cursor head = Ok from -> I64_MIN < from <= I64_MAX.
Proof.
  unfold scan_from. destruct cursor as [p|].
  - destruct (parse_i64 (cp_value p)) as [v|] eqn:E; [|done]. intros [= <-].
    apply parse_i64_range in E. unfold i64_saturating_add, saturate, I64_MIN, I64_MAX in *. lia.
  - intros [= <-]. unfold i64_saturating_sub, saturate, I64_MIN, I64_MAX. lia.
Qed.

Section source_lemmas.
Context {W : Type} `{U256Lib} `{TimeLib} `{HashLib} `{Base58Lib}.
Context `{Json : TronJson} `{TronTransport W} `{ErrorTexts}.

(** The first block a scan has to read: the one after the cursor, and without
    a cursor the one [tc_bootstrap_lookback_blocks] below the solidified head,
    both inside [i64] and the second not negative. *)
Definition first_block (config : TronSourceConfig) (cursor : option CursorPosition) (head : HeadState)
    (from : Z) : Prop :=
  match cursor with
  | Some position => exists old, parse_i64 (cp_value position) = Some old /\ from = Z.min (old + 1) I64_MAX
  | None => from = Z.max 0 (Z.min I64_MAX (hd_solid_head head - tc_bootstrap_lookback_blocks config))
  end.

(** What the answers about block [number], given from [w] on, hold for
    [watch]: a reading of every transfer to it, in any transaction of the
    block, and no other; and the block's hash. *)
Definition block_read (config : TronSourceConfig) (head : HeadState) (watch : CollectorWatch)
    (number : Z) (found : list ObservedTransfer * string) (w w' : W) : Prop :=
  exists block w1 body infos,
    source_block number w = (Ok block, w1) /\ block_transactions number w1 = (Ok (body, infos), w')
    /\ found.2 = br_hash block
    /\ forall o, o ∈ found.1 <-> exists info k log t,
         info ∈ infos /\ ti_log info !! k = Some log /\ pt_event_index t = Z.of_nat k /\ decodes log t
         /\ pt_to t = cw_address_key watch
         /\ to_observation t info block (tc_context config) head (token_for config (pt_contract t))
              (sha256_hex body) = Ok o.
(** Blocks read one after another. *)
Fixpoint blocks_read config head watch (numbers : list Z) (founds : list (list ObservedTransfer * string))
    (w w' : W) : Prop :=
  match numbers, founds with
  | [], [] => w' = w
  | number :: numbers, found :: founds =>
      exists w1, block_read config head watch number found w w1
        /\ blocks_read config head watch numbers founds w1 w'
  | _, _ => False
  end.

Lemma scan_from_first config cursor head from :
  scan_from config cursor head = Ok from <-> first_block config cursor head from.
Proof.
  unfold scan_from, first_block. destruct cursor as [p|].
  - assert (forall v, parse_i64 (cp_value p) = Some v -> i64_saturating_add v 1 = Z.min (v + 1) I64_MAX) as Hsat
      by (intros v E%parse_i64_range; unfold i64_saturating_add, saturate, I64_MIN, I64_MAX in *; lia).
    destruct (parse_i64 (cp_value p)) as [v|] eqn:E; cbn [ok_or mbind result_bind].
    + rewrite Hsat by done. split; [intros [= <-]; by exists v|]. by intros (old & [= <-] & ->).
    + split; [done|]. by intros (old & ? & _).
  - assert (Z.max (i64_saturating_sub (hd_solid_head head) (tc_bootstrap_lookback_blocks config)) 0
      = Z.max 0 (Z.min I64_MAX (hd_solid_head head - tc_bootstrap_lookback_blocks config))) as ->
      by (unfold i64_saturating_sub, saturate, I64_MIN, I64_MAX; lia).
    naive_solver.
Qed.

Lemma readings_spec config info block head watch evidence ts :
  readings config info block head watch evidence = Ok ts ->
  forall o, o ∈ ts <-> exists k log t,
    ti_log info !! k = Some log /\ pt_event_index t = Z.of_nat k /\ decodes log t
    /\ pt_to t = cw_address_key watch
    /\ to_observation t info block (tc_context config) head (token_for config (pt_contract t)) evidence = Ok o.
Proof.
  unfold readings. destruct (parse_transfers info) as [parsed|] eqn:Hp; [|done]. cbn [map_err mbind result_bind].
  intros Hc%collect_Ok o. apply parse_transfers_from_spec in Hp as [Hin _].
  assert (forall t, t ∈ parsed <-> exists k log, ti_log info !! k = Some log /\ pt_event_index t = Z.of_nat k
    /\ decodes log t) as Hin'.
  { intros t. rewrite Hin. setoid_rewrite <- decodes_spec. setoid_rewrite Z.add_0_l. naive_solver. }
  split.
  - intros (i & Hi)%list_elem_of_lookup. destruct (Forall2_lookup_r _ _ _ _ _ Hc Hi) as (t & Ht & Ho).
    apply list_elem_of_lookup_2, list_elem_of_filter in Ht as [Hto (k & log & ? & ? & ?)%Hin'].
    exists k, log, t. split_and!; try done. by apply map_err_Ok in Ho.
  - intros (k & log & t & Hk & Hi & Hd & Hto & Ho).
    assert (t ∈ filter (fun transfer => pt_to transfer = cw_address_key watch) parsed) as Ht
      by (apply list_elem_of_filter; split; [done|apply Hin'; eauto]).
    apply list_elem_of_lookup in Ht as [i Hti]. destruct (Forall2_lookup_l _ _ _ _ _ Hc Hti) as (o' & Ho' & E).
    rewrite Ho in E. injection E as <-. by eapply list_elem_of_lookup_2.
Qed.

Lemma block_readings_read config head watch number w found w' :
  block_readings config head watch number w = (Ok found, w') -> block_read config head watch number found w w'.
Proof.
  unfold block_readings. intros Hrun. inv_eff Hrun. destruct v0 as [body infos]. inv_eff Hrun. simplify_eq.
  apply lift_Ok in Hm1 as [Hc ->]. apply collect_Ok in Hc. exists v, w0, body, infos. split_and!; [done..|].
  intros o. cbn [fst]. rewrite list_elem_of_join. split.
  - intros (l & Hl & Hin). apply list_elem_of_lookup in Hin as [i Hi].
    destruct (Forall2_lookup_r _ _ _ _ _ Hc Hi) as (info & Hinfo & Hr).
    apply (readings_spec _ _ _ _ _ _ _ Hr) in Hl as (k & log & t & ?). exists info, k, log, t.
    split; [by eapply list_elem_of_lookup_2|done].
  - intros (info & k & log & t & Hinfo & Ht). apply list_elem_of_lookup in Hinfo as [i Hi].
    destruct (Forall2_lookup_l _ _ _ _ _ Hc Hi) as (l & Hl & Hr). exists l.
    split; [|by eapply list_elem_of_lookup_2]. apply (readings_spec _ _ _ _ _ _ _ Hr). by exists k, log, t.
Qed.

Lemma scan_loop_blocks config head watch limit numbers : forall transfers scanned w ts scanned' w',
  scan_loop config head watch limit numbers transfers scanned w = (Ok (ts, scanned'), w') ->
  exists walked founds,
    walked `prefix_of` numbers /\ (walked = [] -> numbers = []) /\ length walked = length founds
    /\ blocks_read config head watch walked founds w w'
    /\ ts = transfers ++ mjoin founds.*1
    /\ scanned' = match last (zip walked founds.*2) with Some x => Some x | None => scanned end.
Proof.
  induction numbers as [|n numbers IH]; intros transfers scanned w ts scanned' w' Hrun;
    cbn [scan_loop] in Hrun.
  { inv_eff Hrun. simplify_eq. exists [], []. split_and!; try done. by rewrite app_nil_r. }
  inv_eff Hrun. destruct v as [found hash]. apply block_readings_read in Hm.
  destruct (limit <=? _).
  - inv_eff Hrun. simplify_eq. exists [n], [(found, hash)]. split_and!; try done.
    + by exists numbers.
    + by eexists.
    + simpl. by rewrite app_nil_r.
  - apply IH in Hrun as (walked & founds & [k ->] & _ & Hlen & Hread & -> & ->).
    exists (n :: walked), ((found, hash) :: founds). split_and!; try done.
    + by exists k.
    + cbn. by rewrite Hlen.
    + by exists w0.
    + simpl. by rewrite app_assoc.
    + cbn [fmap list_fmap zip_with snd]. rewrite last_cons. by destruct (last _).
Qed.

(** A reading carries the configured chain and the recipient of its transfer. *)
Lemma to_observation_shape config t info block head token evidence o :
  to_observation t info block (tc_context config) head token evidence = Ok o ->
  ot_to_address o = pt_to t /\ ot_chain o = tc_chain config /\ ot_network o = tc_network config
  /\ ot_chain_environment o = tc_chain_environment config.
Proof.
  unfold to_observation. unfold_res. destruct (TxHash_new _); [|done]. destruct (execution_status info); [|done].
  by intros [= <-].
Qed.

Lemma blocks_read_to_watch config head watch numbers : forall founds w w',
  blocks_read config head watch numbers founds w w' ->
  Forall (fun t => ot_to_address t = cw_address_key watch /\ ot_chain t = tc_chain config
                   /\ ot_network t = tc_network config
                   /\ ot_chain_environment t = tc_chain_environment config) (mjoin founds.*1).
Proof.
  induction numbers as [|n numbers IH]; intros [|[found hash] founds] w w'; cbn [blocks_read]; try done.
  intros (w1 & (block & w2 & body & infos & _ & _ & _ & Hin) & Hrest).
  change (mjoin ((found, hash) :: founds).*1) with (found ++ mjoin founds.*1). apply Forall_app.
  split; [|by eapply IH]. apply Forall_forall. intros o (info & k & log & t & _ & _ & _ & _ & <- & Ho)%Hin.
  by apply to_observation_shape in Ho.
Qed.

(** C31: The block lane moves its cursor only over blocks it has read whole
    and that are irreversible.  A scan starts at the block right after the old
    cursor, or without one at the configured distance below the solidified
    head; the cursor it proposes names the last block it read, at most
    [max_blocks_per_scan] blocks on and never past the solidified head, with
    that block's hash.  The readings of the page are, block after block from the
    first to the last, those of all transfers to the watched address in the
    answers of this scan, on the configured chain.  No cursor is proposed only
    when there is no solidified block to read (or none may be read). *)
Theorem block_lane_reads_whole_solid_blocks config watch cursor limit w page w' :
  0 <= tc_max_blocks_per_scan config <= U32_MAX ->
  scan_blocks config watch cursor limit w = (Ok page, w') ->
  exists head w1 from,
    heads w = (Ok head, w1) /\ first_block config cursor head from
    /\ pg_head page = Some (hd_solid_head head)
    /\ ((pg_next_cursor page = None /\ pg_transfers page = []
         /\ (hd_solid_head head < from \/ tc_max_blocks_per_scan config = 0))
        \/ exists number hash c founds,
             pg_next_cursor page = Some c /\ cp_kind c = CursorBlock
             /\ cp_value c = dec_signed number /\ cp_last_block_hash c = Some hash
             /\ from <= number <= hd_solid_head head
             /\ number < from + tc_max_blocks_per_scan config
             /\ blocks_read config head watch (seqZ from (number - from + 1)) founds w1 w'
             /\ pg_transfers page = mjoin founds.*1 /\ last founds.*2 = Some hash
             /\ Forall (fun t => ot_to_address t = cw_address_key watch /\ ot_chain t = tc_chain config
                   /\ ot_network t = tc_network config
                   /\ ot_chain_environment t = tc_chain_environment config) (pg_transfers page)).
Proof.
  intros Hmax Hrun. unfold scan_blocks in Hrun. inv_eff Hrun. apply lift_Ok in Hm0 as [Hfrom ->].
  exists v, w0, v0. split; [done|]. split; [by apply scan_from_first|].
  pose proof (scan_from_range _ _ _ _ Hfrom) as [Hlow Hhigh].
  destruct (Z.ltb_spec (hd_solid_head v) v0).
  { inv_eff Hrun. simplify_eq. split; [done|]. left. split_and!; [done..|by left]. }
  set (stop := Z.min _ _) in Hrun. inv_eff Hrun. destruct v1 as [ts scanned]. inv_eff Hrun.
  apply lift_Ok in Hm1 as [Hcur ->]. simplify_eq. cbn [pg_head pg_next_cursor pg_transfers]. split; [done|].
  apply scan_loop_blocks in Hm0 as (walked & founds & Hpre & Hnil & Hlen & Hread & -> & ->).
  cbn [app] in *.
  destruct (last walked) as [number|] eqn:Hlast.
  2:{ left. apply last_None in Hlast as ->. destruct founds; [|done]. injection Hcur as <-. split_and!; [done..|].
      specialize (Hnil eq_refl). apply (f_equal length) in Hnil. rewrite length_seqZ in Hnil. cbn in Hnil.
      unfold stop, i64_saturating_add, i64_saturating_sub, saturate, I64_MIN, I64_MAX, U32_MAX in *. right. lia. }
  right. destruct (walked_prefix v0 (stop - v0 + 1) walked number Hpre Hlast) as [Hw Hnum].
  destruct (last_zip walked founds.*2 number) as [hash Hz]; [by rewrite length_fmap|done|].
  rewrite Hz in Hcur. cbn [block_cursor] in Hcur.
  destruct (CursorPosition_new _ _ _ _) as [c|] eqn:Hc; [|done]. injection Hcur as <-.
  unfold CursorPosition_new in Hc. cbv zeta in Hc.
  destruct (negb _); [done|]. injection Hc as <-.
  assert (number <= stop) as Hstop by lia. unfold stop in Hstop.
  assert (number < v0 + tc_max_blocks_per_scan config).
  { unfold i64_saturating_add, i64_saturating_sub, saturate, I64_MIN, I64_MAX, U32_MAX in *. lia. }
  exists number, hash. eexists. exists founds. split_and!; try done; [lia..|by rewrite <- Hw| |by eapply blocks_read_to_watch].
  apply (last_zip_snd walked _ number); [by rewrite length_fmap|done].
Qed.

(** The verifier's direct read answers only about the event it was asked
    for on its own chain: for another chain, network or environment it says
    the event is unknown and asks nobody, and a reading it returns carries
    the configured chain and the asked event index, and was decoded from a
    log of the answered transaction at that very position. *)
Theorem direct_read_stays_on_its_chain config event w answer w' :
  read_event config event w = (Ok answer, w') ->
  (ck_chain event <> tc_chain config \/ ck_network event <> tc_network config
   \/ ck_chain_environment event <> tc_chain_environment config -> answer = None /\ w' = w)
  /\ forall reading, answer = Some reading ->
       ot_chain reading = ck_chain event /\ ot_network reading = ck_network event
       /\ ot_chain_environment reading = ck_chain_environment event
       /\ ot_event_index reading = ck_event_index event
       /\ exists body info w1 k log t,
            source_transaction (ck_tx_hash event) w = (Ok (Some (body, info)), w1)
            /\ ti_log info !! k = Some log
            /\ Z.of_nat k = ck_event_index event /\ decodes log t
            /\ ot_amount_raw reading = pt_amount t /\ ot_to_address reading = pt_to t
            /\ ot_token_key reading = pt_contract t
            /\ ot_evidence_sha256 reading = sha256_hex body.
Proof.
  unfold read_event. intros Hrun. destruct (_ || _) eqn:Hb.
  { inv_eff Hrun. by split. }
  bool_to_prop. apply String.eqb_eq in H5, H7. split; [naive_solver|]. intros reading ->.
  inv_eff Hrun. destruct v as [[body info]|]; [|inv_eff Hrun; done].
  destruct (ti_block_number info) as [number|]; [|inv_eff Hrun; done]. inv_eff Hrun.
  apply lift_Ok in Hm2 as [Hparse ->].
  destruct (parse_transfers info) as [ts|] eqn:Hts; [|done]. injection Hparse as <-.
  destruct (list_find _ ts) as [[i t]|] eqn:Hfind; [|inv_eff Hrun; done]. inv_eff Hrun. simplify_eq.
  apply lift_Ok in Hm2 as [Hobs ->].
  destruct (to_observation _ _ _ _ _ _ _) as [o|] eqn:Ho; [|done]. injection Hobs as <-.
  apply list_find_Some in Hfind as (Ht & Hidx & _). apply list_elem_of_lookup_2 in Ht.
  apply parse_transfers_from_spec in Hts as [Hspec _].
  apply Hspec in Ht as (k & log & Hk & Hlog & Hki & Hd).
  unfold to_observation in Ho. unfold_res. destruct (TxHash_new _); [|done].
  destruct (execution_status info); [|done]. injection Ho as <-. cbn. split_and!; try done.
  exists body, info, w0, k, log, t. split_and!; try done; [lia|]. by apply decodes_spec.
Qed.
End source_lemmas.

(** The source as the two interfaces the services use. *)
Definition tron_scanner {W} `{U256Lib} `{TimeLib} `{HashLib} `{Base58Lib} `{TronJson} `{TronTransport W}
    `{ErrorTexts} (config : TronSourceConfig) : ChainScanner W := {| scanner_scan := scan config |}.
Definition tron_reader {W} `{U256Lib} `{TimeLib} `{HashLib} `{Base58Lib} `{TronJson} `{TronTransport W}
    `{ErrorTexts} (config : TronSourceConfig) : ChainReader W := {| reader_lookup := lookup_event config |}.

(** ** A concrete chain

    Blocks five and six are solidified.  Block five holds one transaction
    whose only log is a transfer of [amount] between two strangers. *)

Import ReferenceInstances.

#[local] Instance sample_texts : ErrorTexts := {|
  parse_error_text _ := "parse"; address_error_text _ := "address"; observation_error_text _ := "cursor";
  chain_error_text _ := "chain" |}.

Definition sample_answer (number : Z) : BlockAnswer := {|
  ba_block_id := Some ("block" +:+ dec_signed number);
  ba_block_header := Some (mkBlockHeader (Some (mkBlockRawData (Some number) (Some 0) None))) |}.

#[local] Instance sample_transport : TronTransport unit := {|
  transport_post path body := mret (path +:+ "/" +:+
    match body with JObject [(_, JNumber n)] => n | JObject [(_, JString s)] => s | _ => "6" end);
  transport_get path := mret path |}.

(** The decoder of those answers. *)
Definition sample_json (amount : Z) : TronJson := {|
  json_block body :=
    Ok (sample_answer (if bool_decide (body = "wallet/getblockbynum/5") then 5 else 6));
  json_infos body :=
    Ok (if bool_decide (body = "wallet/gettransactioninfobyblocknum/5") then [sample_info [amount]] else []);
  json_info _ := Ok (sample_info [amount]);
  json_index _ := Ok (mkTrc20IndexPage []) |}.

Definition sample_config : TronSourceConfig := {|
  tc_base_url := ""; tc_api_key := None; tc_api_key_header := ""; tc_chain := "tron";
  tc_network := "mainnet"; tc_chain_environment := Mainnet; tc_lane := BlockRange;
  tc_request_timeout := 0; tc_max_blocks_per_scan := 10; tc_bootstrap_lookback_blocks := 0;
  tc_tokens := []; tc_user_agent := "" |}.
Definition sample_cursor : CursorPosition := {|
  cp_kind := CursorBlock; cp_value := "4"; cp_last_block_hash := None; cp_fence_token := 1 |}.

Lemma block_lane_reads_whole_solid_blocks_witness :
  exists page head, scan_blocks (Json := sample_json 5) sample_config sample_watch (Some sample_cursor) 10 tt = (Ok page, tt)
    /\ pg_head page = Some (hd_solid_head head).
Proof.
  destruct (scan_blocks (Json := sample_json 5) sample_config sample_watch (Some sample_cursor) 10 tt)
    as [[page|e] []] eqn:Hrun; [|vm_compute in Hrun; discriminate Hrun].
  destruct (block_lane_reads_whole_solid_blocks (Json := sample_json 5) sample_config sample_watch (Some sample_cursor) 10
    tt page tt) as (head & w1 & from & _ & _ & Hh & _); [vm_compute; split; congruence|exact Hrun|].
  exists page, head. split; [reflexivity|exact Hh].
Defined.

Lemma direct_read_stays_on_its_chain_witness :
  exists reading, read_event (Json := sample_json 5) sample_config sample_event tt = (Ok (Some reading), tt)
    /\ ot_event_index reading = ck_event_index sample_event.
Proof.
  destruct (read_event (Json := sample_json 5) sample_config sample_event tt)
    as [[[reading|]|e] []] eqn:Hrun; [|vm_compute in Hrun; discriminate Hrun..].
  exists reading. split; [reflexivity|].
  apply (direct_read_stays_on_its_chain (Json := sample_json 5) sample_config sample_event tt (Some reading) tt Hrun).
  reflexivity.
Defined.
