(* ===== verification/Observer.v ===== *)
(** * The observer's batch ([gateway-scheduler/src/observer.rs])

    One turn of the worker behind a source: for every watched collector it
    reads the chain from the stored cursor on and hands the page to the intake.
    The lease and the loop around the batches are the scheduler's. *)

From Stdlib Require Import Ascii String Strings.Byte.
From stdpp Require Import gmap.
From S2P Require Import Prelude RustStd Externals Money Chain Effects Observations Operations StorageObservations TronAddress TronEvent TronSource.

Local Open Scope Z_scope.

Inductive WorkerError := WorkerLeaseLost | Transient (detail : string) | Permanent (detail : string).
Record BatchOutcome := mkBatchOutcome { bo_processed : Z; bo_drained : bool }.

Record ObservationWorker := mkObservationWorker {
  ow_service : ObservationService;
  ow_source : ChainSource;
  ow_component : string;
  ow_batch_limit : Z;                (* u32 *)
}.

Definition ScanError_to_string (e : ScanError) : string :=
  match e with
  | ScanUnreachable detail => "the chain source is unreachable: " +:+ detail
  | ScanUnparseable detail => "the chain source answered with something unparseable: " +:+ detail
  end.

(** What a failed call makes of the batch. *)
Definition storage_failure (e : RepositoryError) : WorkerError := Transient (RepositoryError_to_string e).
Definition scan_failure (e : ScanError) : WorkerError :=
  if ScanError_is_transient e then Transient (ScanError_to_string e) else Permanent (ScanError_to_string e).
Definition intake_failure (e : ObservationError) : WorkerError :=
  if ObservationError_is_transient e then Transient (ObservationError_to_string e)
  else Permanent (ObservationError_to_string e).

(** [CursorPosition { fence_token: lease.fence_token, ..position }] *)
Definition under_lease (lease : ComponentLease) (position : CursorPosition) : CursorPosition := {|
  cp_kind := cp_kind position; cp_value := cp_value position;
  cp_last_block_hash := cp_last_block_hash position; cp_fence_token := cl_fence_token lease |}.

Section observer.
Context {W : Type} `{U256Lib} `{HashLib} `{Clock W} `{ObservationRepository W} `{Scanner : ChainScanner W}.

(** The body of the loop over the collectors; the warnings about refused
    readings go to the log. *)
Definition observe_collector (self : ObservationWorker) (lease : ComponentLease)
    (collectors : list CollectorWatch) (outcome : BatchOutcome) (watch : CollectorWatch)
    : eff W WorkerError BatchOutcome :=
  cursor ← eff_map_err storage_failure
    (find_cursor (cs_id (ow_source self)) CursorScan (cw_collector_address_id watch));
  page ← eff_map_err scan_failure (scanner_scan watch cursor (ow_batch_limit self));
  let read := len_u32 (pg_transfers page) in
  let drained := if ow_batch_limit self <=? read then false else bo_drained outcome in
  let next_cursor :=
    (fun position => (cw_collector_address_id watch, under_lease lease position)) <$> pg_next_cursor page in
  '(report, refused) ← eff_map_err intake_failure
    (intake (ow_service self) (ow_source self) lease CursorScan collectors (pg_transfers page) next_cursor);
  mret (mkBatchOutcome (u32_saturating_add (bo_processed outcome) (ir_recorded report)) drained).

Definition observer_run_batch (self : ObservationWorker) (lease : ComponentLease) : eff W WorkerError BatchOutcome :=
  let source := ow_source self in
  collectors ← eff_map_err storage_failure
    (watched_collectors (cs_chain source) (cs_network source) (cs_chain_environment source));
  for_each (observe_collector self lease collectors) collectors (mkBatchOutcome 0 true).
End observer.

(** ** A block the lane cannot pass *)

(** A loop ends where a step of it fails. *)
Lemma for_each_fails {W E A S} (step : S -> A -> eff W E S) pre x post s w s1 w1 e w2 :
  for_each step pre s w = (Ok s1, w1) -> step s1 x w1 = (Err e, w2) ->
  for_each step (pre ++ x :: post) s w = (Err e, w2).
Proof.
  revert s w. induction pre as [|y pre IH]; intros s w Hpre Hx; cbn [for_each app] in *.
  - injection Hpre as -> ->. unfold mbind, eff_bind. by rewrite Hx.
  - unfold mbind, eff_bind in *. destruct (step s y w) as [[s2|e2] w3]; [by apply IH|done].
Qed.

Section stuck.
Context {W : Type} `{U256Lib} `{TimeLib} `{HashLib} `{Base58Lib}.
Context `{Json : TronJson} `{TronTransport W} `{ErrorTexts} `{Clock W} `{ObservationRepository W}.

(** Block [number] can be read, and the answer about its transactions has a
    [Transfer] event of value zero, of whatever contract and between whomever. *)
Definition has_zero_transfer (number : Z) (w : W) : Prop :=
  exists block w1 body infos w2 info k log,
    source_block number w = (Ok block, w1)
    /\ block_transactions number w1 = (Ok (body, infos), w2)
    /\ info ∈ infos /\ ti_log info !! k = Some log /\ is_transfer_event log
    /\ hex_text (le_data log) (repeat x00 32).

(** Whatever fails in the readings of a transaction is an answer that cannot be
    parsed. *)
Lemma readings_unparseable config info block head watch evidence e :
  readings config info block head watch evidence = Err e -> exists detail, e = TronUnparseable detail.
Proof.
  unfold readings. destruct (parse_transfers info) as [ts|pe]; cbn; [|intros [= <-]; by eexists].
  induction (filter _ ts) as [|t rest IH]; cbn [collect]; [done|].
  destruct (to_observation _ _ _ _ _ _ _) as [o|oe]; cbn; [|intros [= <-]; by eexists].
  destruct (collect _ rest) as [os|ce]; cbn; [done|intros [= <-]; by apply IH].
Qed.

Lemma block_with_zero_transfer config head watch number w :
  has_zero_transfer number w ->
  exists detail, (block_readings config head watch number w).1 = Err (TronUnparseable detail).
Proof.
  intros (block & w1 & body & infos & w2 & info & k & log & Hs & Hb & Hinfo & Hk & Hlog & Hzero).
  unfold block_readings, mbind, eff_bind. rewrite Hs, Hb. cbn beta iota.
  destruct (collect _ infos) as [found|e] eqn:Hc.
  - exfalso. apply collect_Ok in Hc. apply list_elem_of_lookup in Hinfo as [i Hi].
    destruct (Forall2_lookup_l _ _ _ _ _ Hc Hi) as (ts & _ & Hr).
    destruct (zero_value_undecodable info k log Hk Hlog Hzero) as [e He]. unfold readings in Hr. by rewrite He in Hr.
  - apply collect_Err in Hc as (? & other & ? & _ & Hr & _). apply readings_unparseable in Hr as [detail ->]. by exists detail.
Qed.

Lemma scan_with_zero_transfer config watch cursor limit w head w1 from :
  tc_lane config = BlockRange -> 1 <= tc_max_blocks_per_scan config <= U32_MAX ->
  heads w = (Ok head, w1) -> first_block config cursor head from -> from <= hd_solid_head head ->
  has_zero_transfer from w1 -> exists detail, (scan config watch cursor limit w).1 = Err (ScanUnparseable detail).
Proof.
  intros Hlane Hmax Hh Hfirst Hsolid Hzero. apply scan_from_first in Hfirst as Hfrom.
  pose proof (scan_from_range _ _ _ _ Hfrom) as Hrange.
  unfold scan. destruct (_ || _); [by eexists|]. rewrite Hlane. unfold eff_map_err.
  enough (exists detail, (scan_blocks config watch cursor limit w).1 = Err (TronUnparseable detail)) as [detail He].
  { destruct (scan_blocks config watch cursor limit w) as [r w']. cbn in He. subst r. by eexists. }
  unfold scan_blocks, mbind, eff_bind. rewrite Hh. unfold lift. rewrite Hfrom. cbn beta iota.
  destruct (Z.ltb_spec (hd_solid_head head) from); [lia|].
  set (stop := Z.min _ _). assert (from <= stop) as Hstop.
  { unfold stop, i64_saturating_add, i64_saturating_sub, saturate, I64_MIN, I64_MAX, U32_MAX in *. lia. }
  assert (seqZ from (stop - from + 1) = from :: seqZ (Z.succ from) (stop - from)) as ->.
  { rewrite seqZ_cons by lia. f_equal. f_equal. lia. }
  cbn [scan_loop]. unfold mbind, eff_bind.
  destruct (block_with_zero_transfer config head watch from w1 Hzero) as [detail He].
  destruct (block_readings config head watch from w1) as [r w2]. cbn in He. subst r. by eexists.
Qed.

(** The next block of [watch], by the stored cursor and the source's heads, is
    solidified and has such an event. *)
Definition next_block_has_zero_transfer (config : TronSourceConfig) (self : ObservationWorker)
    (watch : CollectorWatch) (w w2 : W) (cursor : option CursorPosition) : Prop :=
  exists head w3 from,
    find_cursor (cs_id (ow_source self)) CursorScan (cw_collector_address_id watch) w = (Ok cursor, w2)
    /\ heads w2 = (Ok head, w3) /\ first_block config cursor head from /\ from <= hd_solid_head head
    /\ has_zero_transfer from w3.

(** C40: One worthless transfer stops the block lane.  Whatever the source's
    configuration, the stored cursor and the world: if the block a collector's
    scan has to read next carries a [Transfer] event of value zero, of any
    contract and between any two addresses, then the batch that comes to that
    collector ends with a permanent error, in the world its failed scan leaves:
    nothing is taken in for the collector, its cursor is not moved, and the
    collectors after it are not read.  As nothing is assumed of the world but
    what the stored cursor and the chain say, every later batch that finds that
    cursor and that block again ends in the same way. *)
Theorem zero_value_transfer_stops_the_lane config self lease w pre watch post w0 outcome w1 cursor w2 :
  let source := ow_source self in
  let step := observe_collector (Scanner := tron_scanner config) self lease (pre ++ watch :: post) in
  tc_lane config = BlockRange -> 1 <= tc_max_blocks_per_scan config <= U32_MAX ->
  watched_collectors (cs_chain source) (cs_network source) (cs_chain_environment source) w
    = (Ok (pre ++ watch :: post), w0) ->
  for_each step pre (mkBatchOutcome 0 true) w0 = (Ok outcome, w1) ->
  next_block_has_zero_transfer config self watch w1 w2 cursor ->
  exists e detail w', scan config watch cursor (ow_batch_limit self) w2 = (Err e, w')
    /\ observer_run_batch (Scanner := tron_scanner config) self lease w = (Err (Permanent detail), w').
Proof.
  intros source step Hlane Hmax Hw Hpre (head & w3 & from & Hcur & Hh & Hfirst & Hsolid & Hzero).
  destruct (scan_with_zero_transfer config watch cursor (ow_batch_limit self) w2 head w3 from) as [d He]; [done..|].
  destruct (scan config watch cursor (ow_batch_limit self) w2) as [r w'] eqn:Hs. cbn in He. subst r.
  eexists _, _, w'. split; [done|]. unfold observer_run_batch, mbind, eff_bind, eff_map_err. fold source. rewrite Hw.
  eapply for_each_fails; [exact Hpre|]. unfold step, observe_collector, mbind, eff_bind, eff_map_err.
  rewrite Hcur. cbn beta iota. cbn [map_err]. cbn [scanner_scan tron_scanner]. rewrite Hs. reflexivity.
Qed.
End stuck.

(** ** A chain with such a block

    Block five, the next after the stored cursor, holds one transaction whose
    only log is a transfer of [amount]. *)

Import ReferenceInstances.

#[local] Instance lane_texts : ErrorTexts := {|
  parse_error_text _ := "parse"; address_error_text _ := "address"; observation_error_text _ := "cursor";
  chain_error_text _ := "chain" |}.
#[local] Instance lane_transport : TronTransport unit := {|
  transport_post path body := mret (path +:+ "/" +:+
    match body with JObject [(_, JNumber n)] => n | JObject [(_, JString s)] => s | _ => "6" end);
  transport_get path := mret path |}.
#[local] Instance lane_clock : Clock unit := {| clock_now w := (0, w) |}.
#[local] Instance lane_repository : ObservationRepository unit := {|
  find_source _ := mret None;
  watched_collectors _ _ _ := mret [sample_watch];
  find_cursor _ _ _ := mret (Some sample_cursor);
  record_observations _ _ rows _ := mret (mkIntakeReport (len_u32 rows) 0 0 true) |}.

Definition lane_source : ChainSource := {|
  cs_id := 1; cs_chain := "tron"; cs_network := "mainnet"; cs_chain_environment := Mainnet;
  cs_source_key := "nodes"; cs_provider_group := "own"; cs_kind := OwnNode; cs_db_principal := "observer";
  cs_state := SourceActive |}.
Definition lane_worker : ObservationWorker := {|
  ow_service := mkObservationService "1" "1"; ow_source := lane_source; ow_component := "observer";
  ow_batch_limit := 10 |}.
Definition lane_lease : ComponentLease := mkComponentLease "observer" "host" 2 60.
Definition lane_batch (amount : Z) : result WorkerError BatchOutcome * unit :=
  observer_run_batch (Scanner := @tron_scanner unit _ _ _ _ (sample_json amount) _ _ sample_config) lane_worker lane_lease tt.

(** A transfer of value zero ends the batch; the same chain with an amount of
    one is read to its end. *)
Lemma zero_value_transfer_stops_the_lane_witness :
  (exists detail, lane_batch 0 = (Err (Permanent detail), tt)) /\ lane_batch 1 = (Ok (mkBatchOutcome 0 true), tt).
Proof.
  split; [|vm_compute; reflexivity].
  destruct (zero_value_transfer_stops_the_lane (Json := sample_json 0) sample_config lane_worker lane_lease tt
    [] sample_watch [] tt (mkBatchOutcome 0 true) tt (Some sample_cursor) tt)
    as (e & detail & [] & _ & Hrun); [reflexivity|vm_compute; split; congruence|reflexivity..| |by exists detail].
  exists (mkHeadState 6 6), tt, 5. split_and!; [reflexivity|vm_compute; reflexivity|by exists 4|cbn; lia|].
  eexists _, tt, _, _, tt, (sample_info [0]), 0%nat, (sample_log 0).
  split_and!; [vm_compute; reflexivity|vm_compute; reflexivity|left|reflexivity| |vm_compute; reflexivity].
  eexists _, _, _. split; vm_compute; reflexivity.
Defined.
