(* ===== verification/TronOwnership.v ===== *)
(** * Proof of collector ownership

    [gateway-tron/src/ownership.rs]: whoever registers a collector address
    signs a statement with the key of that address; the signer is recovered
    and compared with the address.  Signature recovery is a parameter. *)

From Stdlib Require Import Ascii String Strings.Byte.
From S2P Require Import Prelude RustStd Externals Chain TronAddress WebhookSign.

Local Open Scope Z_scope.

(** "\x19TRON Signed Message:\n" *)
Definition TRON_MESSAGE_PREFIX : list byte := x19 :: as_bytes "TRON Signed Message:" ++ [x0a].
Definition OWNERSHIP_PROOF_TTL : Z := duration_hours 24.

Inductive OwnershipError :=
  | OwnAddress | OwnSignature | Unrecoverable | WrongSigner | OwnExpired.

(** [alloy_primitives::Signature]. *)
Class SignatureLib := {
  Signature : Type;
  signature_from_raw : list byte -> option Signature;
  recover_address : Signature -> list byte -> option (list byte);
  recover_address_length s d a : recover_address s d = Some a -> length a = 20%nat;
}.

Section ownership.
Context `{HashLib} `{Base58Lib} `{UuidLib} `{TimeLib} `{SignatureLib}.

Definition newline : string := String "010" "".

Definition ownership_statement (merchant_id : Z) (address : AddressKey) (issued_at : Z)
    : result OwnershipError string :=
  address ← map_err (fun _ => OwnAddress) (to_base58 address);
  issued ← ok_or (odt_format_rfc3339 issued_at) OwnExpired;
  Ok ("Self-hosted payment gateway: collector ownership" +:+ newline
      +:+ "merchant: " +:+ uuid_to_string merchant_id +:+ newline
      +:+ "address: " +:+ address +:+ newline +:+ "issued: " +:+ issued).

Definition message_payload (message : string) : list byte :=
  TRON_MESSAGE_PREFIX ++ as_bytes (dec_unsigned (str_len message)) ++ as_bytes message.
Definition message_digest (message : string) : list byte := keccak256 (message_payload message).

Definition recover_signer (message signature_hex : string) : result OwnershipError AddressKey :=
  let digest := message_digest message in
  let trimmed := trim signature_hex in
  raw ← map_err (fun _ => OwnSignature) (decode_hex (default trimmed (strip_prefix "0x" trimmed)));
  if negb (length raw =? 65)%nat then Err OwnSignature
  else
    signature ← ok_or (signature_from_raw raw) OwnSignature;
    signer ← ok_or (recover_address signature digest) Unrecoverable;
    map_err (fun _ => Unrecoverable) (from_evm_bytes signer).

Definition verify_ownership (merchant_id : Z) (address : AddressKey) (issued_at : Z)
    (signature_hex : string) (now : Z) : result OwnershipError unit :=
  let latest_issue := odt_checked_add now (duration_minutes 5) in
  let expiry := odt_checked_add issued_at OWNERSHIP_PROOF_TTL in
  if match latest_issue with Some latest => latest <? issued_at | None => true end
     || match expiry with Some expiry => expiry <? now | None => true end
  then Err OwnExpired
  else
    statement ← ownership_statement merchant_id address issued_at;
    signer ← recover_signer statement signature_hex;
    if bool_decide (AddressKey_as_bytes signer = AddressKey_as_bytes address) then Ok tt
    else Err WrongSigner.
End ownership.

(** * Lemmas *)

(** Two texts of equal length in front determine both. *)
Lemma str_app_inj_length a b x y :
  String.length a = String.length b -> a +:+ x = b +:+ y -> a = b /\ x = y.
Proof.
  revert b. induction a as [|c a IH]; intros [|d b] Hl Heq; try done.
  injection Hl as Hl. rewrite !str_app_cons in Heq. injection Heq as -> Heq.
  destruct (IH b Hl Heq) as [-> ->]. done.
Qed.

(** Text without a separator in front of it. *)
Lemma str_separated_inj (sep : ascii) (p : ascii -> bool) a b x y :
  p sep = false -> str_forallb p a = true -> str_forallb p b = true ->
  a +:+ String sep "" +:+ x = b +:+ String sep "" +:+ y -> a = b /\ x = y.
Proof.
  intros Hsep. revert b. induction a as [|c a IH]; intros [|d b] Ha Hb Heq; rewrite ?str_app_cons in Heq.
  - injection Heq as Heq. done.
  - injection Heq as <- _. cbn in Hb. apply andb_prop in Hb as [? _]. congruence.
  - injection Heq as -> _. cbn in Ha. apply andb_prop in Ha as [? _]. congruence.
  - injection Heq as -> Heq. cbn in Ha, Hb. apply andb_prop in Ha as [_ Ha], Hb as [_ Hb].
    destruct (IH b Ha Hb Heq) as [-> ->]. done.
Qed.

Section ownership_properties.
Context `{HashLib} `{Base58Lib} `{UuidLib} `{TimeLib} `{SignatureLib}.

(** A statement names its merchant and its address unambiguously. *)
Lemma ownership_statement_inj m1 m2 k1 k2 t1 t2 s :
  is_uuid m1 -> is_uuid m2 ->
  ownership_statement m1 k1 t1 = Ok s -> ownership_statement m2 k2 t2 = Ok s -> m1 = m2 /\ k1 = k2.
Proof.
  unfold ownership_statement. unfold_res. intros Hm1 Hm2.
  destruct (to_base58 k1) as [a1|] eqn:Ha1; [|done]. destruct (odt_format_rfc3339 t1) as [i1|]; [|done].
  destruct (to_base58 k2) as [a2|] eqn:Ha2; [|done]. destruct (odt_format_rfc3339 t2) as [i2|]; [|done].
  intros [= <-] Heq. injection Heq as Heq.
  apply str_app_inj_length in Heq as [_ Heq]; [|done].
  apply str_app_inj_length in Heq as [Hu Heq]; [|by rewrite !uuid_to_string_length].
  apply str_app_inj_length in Heq as [_ Heq]; [|done].
  apply str_app_inj_length in Heq as [_ Heq]; [|done].
  assert (Henc : forall k a, to_base58 k = Ok a ->
    exists l, a = bs58_encode l /\ take TRON_ADDRESS_BYTES l = AddressKey_as_bytes k).
  { intros k a Ha. unfold to_base58 in Ha. cbv zeta in Ha.
    destruct (Nat.eqb_spec (length (AddressKey_as_bytes k)) TRON_ADDRESS_BYTES) as [Hl|]; [|done].
    cbn [negb] in Ha. destruct (negb _); [done|]. injection Ha as <-. eexists. split; [done|].
    by rewrite take_app_length'. }
  destruct (Henc _ _ Ha1) as (l1 & -> & Hl1), (Henc _ _ Ha2) as (l2 & -> & Hl2).
  apply (str_separated_inj "010" not_blank) in Heq as [He _];
    [|done|apply bs58_encode_not_blank..].
  split; [symmetry; by apply uuid_to_string_inj|].
  assert (l1 = l2) as E.
  { pose proof (bs58_decode_encode l1) as D1. rewrite <- He, bs58_decode_encode in D1. congruence. }
  destruct k1, k2. simpl in *. subst. done.
Qed.

Lemma statement_head m k t s : ownership_statement m k t = Ok s -> exists rest, s = String "S" rest.
Proof.
  unfold ownership_statement. unfold_res. destruct (to_base58 k); [|done].
  destruct (odt_format_rfc3339 t); [|done]. intros [= <-]. rewrite str_app_cons. by eexists.
Qed.

(** The payload of a statement determines it: its text starts with a letter,
    so the decimal length in front of it ends where it starts. *)
Lemma message_payload_inj a b x y :
  message_payload (String "S" a) = message_payload (String "S" b) ->
  x = String "S" a -> y = String "S" b -> x = y.
Proof.
  intros Heq -> ->. unfold message_payload in Heq. apply app_inv_head in Heq.
  change (as_bytes (String "S" a)) with (as_bytes (String "S" "") ++ as_bytes a) in Heq.
  change (as_bytes (String "S" b)) with (as_bytes (String "S" "") ++ as_bytes b) in Heq.
  apply (separated_inj "S" is_ascii_digit) in Heq as [_ Heq%as_bytes_inj];
    [by subst|done|apply dec_unsigned_digits..].
Qed.

(** C37: An accepted ownership proof is fresh (issued no more than five
    minutes ahead of the clock and no more than a day before it) and signed
    by the address itself over the statement of this merchant, address and
    moment; and a proof's digest cannot serve another merchant or address
    unless the two payloads themselves collide under Keccak. *)
Theorem ownership_proof_binds_merchant_and_address m k issued sig now :
  is_instant issued -> is_instant now ->
  verify_ownership m k issued sig now = Ok tt ->
  now - OWNERSHIP_PROOF_TTL <= issued <= now + duration_minutes 5
  /\ exists statement, ownership_statement m k issued = Ok statement
       /\ recover_signer statement sig = Ok k
       /\ forall m' k' issued' statement',
            is_uuid m -> is_uuid m' -> ownership_statement m' k' issued' = Ok statement' ->
            message_digest statement' = message_digest statement ->
            (m' = m /\ k' = k)
            \/ collision keccak256 (message_payload statement') (message_payload statement).
Proof.
  intros Hi Hn Hv. unfold verify_ownership in Hv. cbv zeta in Hv.
  rewrite !odt_checked_add_law in Hv by done.
  destruct (_ || _) eqn:Hfresh; [done|]. apply orb_false_elim in Hfresh as [Hl He].
  destruct (checked _ _ (now + _)) as [latest|] eqn:E1; [|done].
  destruct (checked _ _ (issued + _)) as [expiry|] eqn:E2; [|done].
  apply checked_Some in E1 as [-> _], E2 as [-> _]. bool_to_prop. split; [lia|].
  destruct (ownership_statement m k issued) as [statement|] eqn:Hs; [|done]. cbn [mbind result_bind] in Hv.
  destruct (recover_signer statement sig) as [signer|] eqn:Hr; [|done]. cbn [mbind result_bind] in Hv.
  case_bool_decide as Hk; [|done]. exists statement. split; [done|].
  split; [destruct signer, k; simpl in *; congruence|].
  intros m' k' issued' statement' Hm Hm' Hs' Hd.
  destruct (decide (message_payload statement' = message_payload statement)) as [Hp|Hp].
  - left. destruct (statement_head _ _ _ _ Hs) as [a Ha], (statement_head _ _ _ _ Hs') as [b Hb].
    assert (statement' = statement) as E.
    { apply (message_payload_inj b a); [|done..]. by rewrite <- Ha, <- Hb. }
    rewrite E in Hs'. by eapply ownership_statement_inj.
  - right. by split.
Qed.
End ownership_properties.

Import ReferenceInstances.

(** A recovery that always answers the twenty bytes the signature starts with. *)
#[refine, local] Instance signature_reference : SignatureLib := {|
  Signature := list byte; signature_from_raw raw := Some raw;
  recover_address s _ := if (length (take 20 s) =? 20)%nat then Some (take 20 s) else None |}.
Proof. intros s d a. destruct (Nat.eqb_spec (length (take 20 s)) 20); congruence. Defined.

Lemma ownership_proof_binds_merchant_and_address_witness :
  exists statement, ownership_statement 1 sample_tron_key 0 = Ok statement.
Proof.
  destruct (ownership_proof_binds_merchant_and_address 1 sample_tron_key 0
    (hex_of_bytes (repeat x07 65)) 0) as (_ & statement & Hs & _).
  - split; vm_compute; congruence.
  - split; vm_compute; congruence.
  - vm_compute. reflexivity.
  - exists statement. exact Hs.
Defined.
