(* ===== verification/Oversight.v ===== *)
(** * Oversight

    [gateway-application/src/health.rs] and [reconciliation.rs]: the state
    each component publishes, and the run that re-reads what was observed,
    made canonical, allocated and fulfilled, reports where they disagree, and
    closes the rails of the assets whose money does not add up. *)

From Stdlib Require Import Ascii String Strings.Byte.
From S2P Require Import Prelude RustStd Externals Effects Money Observations Operations.

Local Open Scope Z_scope.

(** ** Health *)

Inductive ComponentState :=
  | CompOk | CompDegraded | CompUnavailable | CompDiverged | CompStopped.
#[export] Instance ComponentState_eq_dec : EqDecision ComponentState.
Proof. solve_decision. Defined.
(** The derived order: from healthy to worst. *)
Definition ComponentState_rank (s : ComponentState) : Z :=
  match s with
  | CompOk => 0 | CompDegraded => 1 | CompUnavailable => 2 | CompDiverged => 3 | CompStopped => 4
  end.
Definition ComponentState_as_str (s : ComponentState) : string :=
  match s with
  | CompOk => "ok" | CompDegraded => "degraded" | CompUnavailable => "unavailable"
  | CompDiverged => "diverged" | CompStopped => "stopped"
  end.

Inductive HealthError :=
  | UnknownState (text : string)
  | HealthRepositoryError (error : RepositoryError).
Definition HealthError_to_string (e : HealthError) : string :=
  match e with
  | UnknownState text => String.append "unknown component state: " text
  | HealthRepositoryError error => RepositoryError_to_string error
  end.
Definition HealthError_is_transient (e : HealthError) : bool :=
  match e with HealthRepositoryError error => RepositoryError_is_transient error | UnknownState _ => false end.

Definition ComponentState_parse (value : string) : result HealthError ComponentState :=
  if bool_decide (value = "ok") then Ok CompOk
  else if bool_decide (value = "degraded") then Ok CompDegraded
  else if bool_decide (value = "unavailable") then Ok CompUnavailable
  else if bool_decide (value = "diverged") then Ok CompDiverged
  else if bool_decide (value = "stopped") then Ok CompStopped
  else Err (UnknownState value).
Definition is_healthy (s : ComponentState) : bool := bool_decide (s = CompOk).

Record ComponentStatus := mkComponentStatus {
  cm_component : string;
  cm_state : ComponentState;
  cm_detail : option string;
  cm_since : Z;
  cm_updated_at : Z;
}.

Class HealthRepository (W : Type) := {
  publish_component_state : string -> ComponentState -> option string -> Z -> eff W RepositoryError bool;
  component_statuses : eff W RepositoryError (list ComponentStatus);
}.

Section health.
Context {W : Type} `{Clock W} `{HealthRepository W}.

Definition health_publish (component : string) (state : ComponentState) (detail : option string)
    : eff W HealthError bool :=
  now ← read_clock;
  eff_map_err HealthRepositoryError (publish_component_state component state detail now).
Definition statuses : eff W HealthError (list ComponentStatus) :=
  eff_map_err HealthRepositoryError component_statuses.
(** The worst state first, the one that lasts longest first among equals. *)
Definition by_severity (left right : ComponentStatus) : comparison :=
  match ComponentState_rank (cm_state right) ?= ComponentState_rank (cm_state left) with
  | Eq => cm_since left ?= cm_since right
  | c => c
  end.
Definition worst : eff W HealthError (option ComponentStatus) :=
  found ← statuses; mret (head (sort_by by_severity found)).
End health.

(** ** Findings *)

Definition COMPONENT : string := "reconciler".
Definition HARD_STOP_REASON : string := "reconciliation_money_discrepancy".

Inductive ReconciliationKind := Incremental | Daily.
Definition ReconciliationKind_as_str (k : ReconciliationKind) : string :=
  match k with Incremental => "incremental" | Daily => "daily" end.

Inductive DiscrepancyKind :=
  | ObservedNotCanonical
  | AllocationExceedsTransfer
  | SettledNotFulfilled
  | FulfilledNotSettled
  | UnmatchedInboundAging
  | AllocatedOnInvalidatedTransfer
  | ObserverBehind
  | HeldPaymentAging.
#[export] Instance DiscrepancyKind_eq_dec : EqDecision DiscrepancyKind.
Proof. solve_decision. Defined.
Definition DiscrepancyKind_as_str (k : DiscrepancyKind) : string :=
  match k with
  | ObservedNotCanonical => "observed_not_canonical"
  | AllocationExceedsTransfer => "allocation_exceeds_transfer"
  | SettledNotFulfilled => "settled_not_fulfilled"
  | FulfilledNotSettled => "fulfilled_not_settled"
  | UnmatchedInboundAging => "unmatched_inbound_aging"
  | AllocatedOnInvalidatedTransfer => "allocated_on_invalidated_transfer"
  | ObserverBehind => "observer_behind"
  | HeldPaymentAging => "held_payment_aging"
  end.
Definition affects_money (k : DiscrepancyKind) : bool :=
  match k with
  | AllocationExceedsTransfer | SettledNotFulfilled | FulfilledNotSettled
  | AllocatedOnInvalidatedTransfer => true
  | _ => false
  end.

Inductive ReconciliationError :=
  | UnknownDiscrepancy (text : string)
  | RcHealth (error : HealthError)
  | RcRepository (error : RepositoryError).
Definition ReconciliationError_is_transient (e : ReconciliationError) : bool :=
  match e with
  | RcRepository error => RepositoryError_is_transient error
  | RcHealth error => HealthError_is_transient error
  | UnknownDiscrepancy _ => false
  end.

Definition DiscrepancyKind_parse (value : string) : result ReconciliationError DiscrepancyKind :=
  if bool_decide (value = "observed_not_canonical") then Ok ObservedNotCanonical
  else if bool_decide (value = "allocation_exceeds_transfer") then Ok AllocationExceedsTransfer
  else if bool_decide (value = "settled_not_fulfilled") then Ok SettledNotFulfilled
  else if bool_decide (value = "fulfilled_not_settled") then Ok FulfilledNotSettled
  else if bool_decide (value = "unmatched_inbound_aging") then Ok UnmatchedInboundAging
  else if bool_decide (value = "allocated_on_invalidated_transfer") then Ok AllocatedOnInvalidatedTransfer
  else if bool_decide (value = "observer_behind") then Ok ObserverBehind
  else if bool_decide (value = "held_payment_aging") then Ok HeldPaymentAging
  else Err (UnknownDiscrepancy value).

Record Discrepancy := mkDiscrepancy {
  dy_kind : DiscrepancyKind;
  dy_transfer_id : option Z;
  dy_payment_intent_id : option Z;
  dy_asset_id : option Z;
  dy_detail : json;
}.

Record ReconciliationWindow := mkReconciliationWindow {
  rw_lookback : Z;
  rw_canonicalization_grace : Z;
  rw_unmatched_grace : Z;
  rw_held_grace : Z;
  rw_max_cursor_lag_blocks : Z;      (* i64 *)
}.
Definition ReconciliationWindow_default : ReconciliationWindow := {|
  rw_lookback := duration_hours 25; rw_canonicalization_grace := duration_minutes 30;
  rw_unmatched_grace := duration_hours 6; rw_held_grace := duration_hours 24;
  rw_max_cursor_lag_blocks := 1200 |}.

Inductive RunStatus := RunOk | RunDrift | RunHardStop.
#[export] Instance RunStatus_eq_dec : EqDecision RunStatus.
Proof. solve_decision. Defined.
Definition RunStatus_as_str (s : RunStatus) : string :=
  match s with RunOk => "ok" | RunDrift => "drift" | RunHardStop => "hard_stop" end.

Record ScanFindings := mkScanFindings {
  sf_transfers_examined : Z;         (* u32 *)
  sf_intents_examined : Z;           (* u32 *)
  sf_discrepancies : list Discrepancy;
}.

Record RunRecord := mkRunRecord {
  rn_kind : ReconciliationKind;
  rn_window_start : Z;
  rn_window_end : Z;
  rn_findings : ScanFindings;
  rn_status : RunStatus;
  rn_started_at : Z;
  rn_finished_at : Z;
}.

Record ReconciliationReport := mkReconciliationReport {
  rp_run_id : Z;
  rp_kind : ReconciliationKind;
  rp_transfers_examined : Z;
  rp_intents_examined : Z;
  rp_discrepancies : list Discrepancy;
  rp_money_discrepancies : Z;
  rp_status : RunStatus;
  rp_stopped_assets : list Z;
}.

Class ReconciliationRepository (W : Type) := {
  reconciliation_scan : Z -> Z -> ReconciliationWindow -> eff W RepositoryError ScanFindings;
  record_run : RunRecord -> eff W RepositoryError Z;
}.

(** ** The run *)

Definition money_findings (discrepancies : list Discrepancy) : list Discrepancy :=
  List.filter (fun discrepancy => affects_money (dy_kind discrepancy)) discrepancies.

Section service.
Context {W : Type} `{Clock W} `{HealthRepository W} `{OperationsRepository W} `{ReconciliationRepository W}.

Definition publish (state : ComponentState) (detail : option string) : eff W ReconciliationError unit :=
  now ← read_clock;
  _ ← eff_map_err RcRepository (publish_component_state COMPONENT state detail now);
  mret tt.

(** The status of a run, by what it found. *)
Definition run_status (discrepancies : list Discrepancy) : RunStatus :=
  if 0 <? Z.min U32_MAX (Z.of_nat (length (money_findings discrepancies))) then RunHardStop
  else if bool_decide (length discrepancies = 0%nat) then RunOk else RunDrift.

(** One step of the loop that closes the rails. *)
Definition stop_rail (finished_at : Z) (stopped_assets : list Z) (discrepancy : Discrepancy)
    : eff W ReconciliationError (list Z) :=
  match dy_asset_id discrepancy with
  | None => mret stopped_assets
  | Some asset_id =>
      if negb (affects_money (dy_kind discrepancy)) || bool_decide (asset_id ∈ stopped_assets)
      then mret stopped_assets
      else
        _ ← eff_map_err RcRepository (repo_open_rail_stop asset_id HARD_STOP_REASON
              (Some (DiscrepancyKind_as_str (dy_kind discrepancy))) COMPONENT finished_at);
        mret (stopped_assets ++ [asset_id])
  end.

Definition run_once (window : ReconciliationWindow) (kind : ReconciliationKind)
    : eff W ReconciliationError ReconciliationReport :=
  started_at ← read_clock;
  let window_end := started_at in
  let window_start := window_end - rw_lookback window in
  scanned ← attempt (reconciliation_scan window_start window_end window);
  match scanned with
  | Err error =>
      _ ← publish CompUnavailable (Some "scan failed");
      lift (Err (RcRepository error))
  | Ok findings =>
      let money_discrepancies := Z.min U32_MAX (Z.of_nat (length (money_findings (sf_discrepancies findings)))) in
      let status := run_status (sf_discrepancies findings) in
      finished_at ← read_clock;
      run_id ← eff_map_err RcRepository (record_run {|
        rn_kind := kind; rn_window_start := window_start; rn_window_end := window_end;
        rn_findings := findings; rn_status := status; rn_started_at := started_at;
        rn_finished_at := finished_at |});
      stopped_assets ← (if bool_decide (status = RunHardStop)
                        then for_each (stop_rail finished_at) (sf_discrepancies findings) []
                        else mret []);
      _ ← publish (match status with
                   | RunOk => CompOk | RunDrift => CompDegraded | RunHardStop => CompStopped
                   end)
            (if bool_decide (status = RunOk) then None else Some "see reconciliation discrepancies");
      mret {| rp_run_id := run_id; rp_kind := kind;
              rp_transfers_examined := sf_transfers_examined findings;
              rp_intents_examined := sf_intents_examined findings;
              rp_discrepancies := sf_discrepancies findings;
              rp_money_discrepancies := money_discrepancies;
              rp_status := status; rp_stopped_assets := stopped_assets |}
  end.
End service.
