(* ===== verification/StorageOversight.v ===== *)
(** * Oversight in PostgreSQL

    [gateway-storage/src/oversight.rs]: publishing a component's state with
    its history of transitions, the eight checks of a reconciliation scan, and
    the transaction that stores a run with its findings.

    A [LIMIT] without an order keeps any rows; the model keeps the first of
    some order, on which no theorem depends. *)

From Stdlib Require Import Ascii String Strings.Byte.
From stdpp Require Import gmap.
From S2P Require Import Prelude RustStd Externals Effects Money Chain Observations Settlement.
From S2P Require Import SettlementService Database StorageSettlement Operations StorageOperations Outbox Oversight.
From S2P Require Import StorageObservations.

Local Open Scope Z_scope.

Definition FINDINGS_PER_CHECK : Z := 500.
Definition limited {A} (rows : list A) : list A := take (Z.to_nat FINDINGS_PER_CHECK) rows.
(** [$1 <= t AND t < $2] *)
Definition in_window (window_start window_end t : Z) : bool := (window_start <=? t) && (t <? window_end).

(** ** Health *)

Definition upsert_health (component : string) (state : ComponentState) (detail : option string) (now : Z)
    : statement unit := fun db =>
  _ ← check_constraint "component_health_component_check" (in_range 1 120 (char_length component));
  let since := match component_health db !! component with
               | Some row => if bool_decide (hr_state row = ComponentState_as_str state) then hr_since row else now
               | None => now
               end in
  Ok (tt, on_health <[component := mkHealthRow (ComponentState_as_str state) detail since now]> db).
Definition insert_health_event (id : Z) (row : HealthEventRow) : statement unit := fun db =>
  _ ← unique_key "component_health_events_pkey" (is_row (component_health_events db) id);
  Ok (tt, on_health_events <[id := row]> db).

(** A row of [component_statuses]. *)
Definition ComponentStatus_of (entry : string * HealthRow) : result RepositoryError ComponentStatus :=
  let '(component, row) := entry in
  state ← map_err (fun error => corrupt (HealthError_to_string error)) (ComponentState_parse (hr_state row));
  Ok {| cm_component := component; cm_state := state; cm_detail := hr_detail row;
        cm_since := hr_since row; cm_updated_at := hr_updated_at row |}.

(** ** The checks *)

Definition found (kind : DiscrepancyKind) (transfer_id payment_intent_id asset_id : option Z) (detail : json)
    : Discrepancy := mkDiscrepancy kind transfer_id payment_intent_id asset_id detail.

(** An accepted, successful reading of the window whose event has no
    canonical transfer. *)
Definition is_uncanonical (window_start window_end : Z) (db : Database) (row : ObservationRow) : bool :=
  in_window window_start window_end (ob_observed_at row) && is_some (ob_asset_id row)
  && bool_decide (ob_execution_status row = "success")
  && is_none (find_where (fun transfer => bool_decide (tr_event transfer = ob_event row)) (chain_transfers db)).
(** [GROUP BY tx_hash, event_index, asset_id] *)
Definition observation_group (row : ObservationRow) : string * Z * option Z :=
  let '(_, _, _, tx_hash, event_index) := ob_event row in (tx_hash, event_index, ob_asset_id row).
Definition uncanonical_rows (window_start window_end older_than : Z) (db : Database)
    : list (string * Z * option Z * Z) :=
  let rows := List.filter (is_uncanonical window_start window_end db) (snd <$> map_to_list (chain_observations db)) in
  limited (omap (fun group =>
    first_seen ← min_by_key (fun t => t)
      (ob_observed_at <$> filter (fun row => observation_group row = group) rows);
    if first_seen <? older_than then Some (group, first_seen) else None)
    (remove_dups (observation_group <$> rows))).
Definition uncanonical_finding (row : string * Z * option Z * Z) : Discrepancy :=
  let '(tx_hash, event_index, asset_id, first_seen) := row in
  found ObservedNotCanonical None None asset_id
    (JObject [("event_index", JNumber (dec_signed event_index));
              ("first_seen", JNumber (dec_signed (unix_timestamp first_seen)));
              ("tx_hash", JString tx_hash)]).

Section checks.
Context `{U256Lib}.

Definition exceeding_rows (db : Database) : list Discrepancy :=
  limited (omap (fun '(transfer_id, processing) =>
    transfer ← chain_transfers db !! transfer_id;
    if tr_amount_raw transfer <? pr_allocated_raw processing then
      Some (found AllocationExceedsTransfer (Some transfer_id) None (Some (tr_asset_id transfer))
        (JObject [("allocated_raw", JString (numeric_text (pr_allocated_raw processing)));
                  ("amount_raw", JString (numeric_text (tr_amount_raw transfer)))]))
    else None) (map_to_list (chain_transfer_processing db))).

Definition unfulfilled_rows (window_start window_end : Z) (db : Database) : list Discrepancy :=
  limited (omap (fun '((intent, transfer_id), decision) =>
    transfer ← chain_transfers db !! transfer_id;
    let status := fr_status <$> payment_fulfillments db !! intent in
    if bool_decide (dr_outcome decision = "settled") && in_window window_start window_end (dr_decided_at decision)
       && bool_decide (status ∈ [None; Some "failed"])
    then Some (found SettledNotFulfilled (Some transfer_id) (Some intent) (Some (tr_asset_id transfer))
                 (JObject [("fulfilment_status", JString (default "missing" status))]))
    else None) (map_to_list (payment_settlement_decisions db))).

Definition is_settled (intent : Z) (db : Database) : bool :=
  bool_decide (map_Exists (fun key decision => fst key = intent /\ dr_outcome decision = "settled")
    (payment_settlement_decisions db)).
(** [LATERAL (.. ORDER BY created_at DESC LIMIT 1)]: the asset of the newest
    quote. *)
Definition latest_asset (intent : Z) (db : Database) : option Z :=
  qr_asset_id <$> head (sort_by (fun a b => qr_created_at b ?= qr_created_at a)
    (filter (fun quote => qr_payment_intent_id quote = intent) (snd <$> map_to_list (payment_quotes db)))).
Definition unsettled_rows (window_start window_end : Z) (db : Database) : list Discrepancy :=
  limited (omap (fun '(intent, fulfilment) =>
    if in_window window_start window_end (fr_claimed_at fulfilment) && negb (is_settled intent db)
    then Some (found FulfilledNotSettled None (Some intent) (latest_asset intent db) (JObject []))
    else None) (map_to_list (payment_fulfillments db))).

Definition invalidated_rows (db : Database) : list Discrepancy :=
  limited (omap (fun '((_, transfer_id), allocation) =>
    state ← chain_transfer_state_current db !! transfer_id;
    transfer ← chain_transfers db !! transfer_id;
    if bool_decide (st_state state = "invalidated")
    then Some (found AllocatedOnInvalidatedTransfer (Some transfer_id) (Some (ar_payment_intent_id allocation))
                 (Some (tr_asset_id transfer)) (JObject []))
    else None) (map_to_list (payment_allocations db))).

Definition aging_rows (kind : DiscrepancyKind) (state : string) (older_than : Z) (db : Database)
    : list Discrepancy :=
  limited (omap (fun '(transfer_id, processing) =>
    transfer ← chain_transfers db !! transfer_id;
    if bool_decide (pr_processing_state processing = state) && (pr_updated_at processing <? older_than)
    then Some (found kind (Some transfer_id) None (Some (tr_asset_id transfer))
                 (JObject [("amount_raw", JString (numeric_text (tr_amount_raw transfer)));
                           ("waiting_since", JNumber (dec_signed (unix_timestamp (pr_updated_at processing))))]))
    else None) (map_to_list (chain_transfer_processing db))).

(** The head a source itself reported, and how far a cursor of it is behind;
    [cursor_value::BIGINT] and the difference can be out of range. *)
Definition reported_head (source_id : Z) (db : Database) : option Z :=
  max_Z (omap (fun row => if ob_source_id row =? source_id then ob_source_head row else None)
           (snd <$> map_to_list (chain_observations db))).
Definition behind_row (max_lag_blocks : Z) (db : Database) (entry : Z * string * Z * CursorRow)
    : result SqlError (option Discrepancy) :=
  let '(source_id, _, _, cursor) := entry in
  match chain_sources db !! source_id, reported_head source_id db with
  | Some source, Some source_head =>
      if bool_decide (cu_cursor_kind cursor = "block") && negb (bool_decide (cu_cursor_value cursor = ""))
         && all_digits (cu_cursor_value cursor)
      then
        value ← ok_or (checked I64_MIN I64_MAX (digits_value 0 (cu_cursor_value cursor))) (SqlViolation "22003" "");
        lag ← ok_or (checked I64_MIN I64_MAX (source_head - value)) (SqlViolation "22003" "");
        Ok (if max_lag_blocks <? lag then
              Some (found ObserverBehind None None None
                (JObject [("cursor_value", JString (cu_cursor_value cursor));
                          ("source_head", JNumber (dec_signed source_head));
                          ("source_key", JString (so_source_key source))]))
            else None)
      else Ok None
  | _, _ => Ok None
  end.
Definition behind_rows (max_lag_blocks : Z) : statement (list Discrepancy) := fun db =>
  rows ← collect (behind_row max_lag_blocks db) (map_to_list (chain_cursors db));
  Ok (limited (omap id rows), db).

(** ** Storing a run *)

Definition insert_run (id : Z) (row : RunRow) : statement unit := fun db =>
  _ ← check_constraint "reconciliation_runs_check" (ru_window_start row <? ru_window_end row);
  _ ← unique_key "reconciliation_runs_pkey" (is_row (reconciliation_runs db) id);
  Ok (tt, on_runs <[id := row]> db).
Definition insert_discrepancy (id : Z) (row : DiscrepancyRow) : statement unit := fun db =>
  _ ← check_constraint "reconciliation_discrepancies_detail_check" (json_is_object (dc_detail row));
  _ ← unique_key "reconciliation_discrepancies_pkey" (is_row (reconciliation_discrepancies db) id);
  _ ← foreign_key "reconciliation_discrepancies_run_id_fkey" (is_row (reconciliation_runs db) (dc_run_id row));
  _ ← foreign_key "reconciliation_discrepancies_transfer_id_fkey"
        (is_row_or_null (chain_transfers db) (dc_transfer_id row));
  _ ← foreign_key "reconciliation_discrepancies_payment_intent_id_fkey"
        (is_row_or_null (payment_intents db) (dc_payment_intent_id row));
  _ ← foreign_key "reconciliation_discrepancies_asset_id_fkey"
        (is_row_or_null (chain_assets db) (dc_asset_id row));
  Ok (tt, on_discrepancies <[id := row]> db).
Definition i32_or_max (n : Z) : Z := Z.min I32_MAX n.
Definition run_row (record : RunRecord) : RunRow := {|
  ru_kind := ReconciliationKind_as_str (rn_kind record);
  ru_window_start := rn_window_start record; ru_window_end := rn_window_end record;
  ru_transfers_examined := i32_or_max (sf_transfers_examined (rn_findings record));
  ru_intents_examined := i32_or_max (sf_intents_examined (rn_findings record));
  ru_discrepancy_count := i32_or_max (Z.of_nat (length (sf_discrepancies (rn_findings record))));
  ru_money_discrepancy_count :=
    i32_or_max (Z.of_nat (length (money_findings (sf_discrepancies (rn_findings record)))));
  ru_status := RunStatus_as_str (rn_status record);
  ru_started_at := rn_started_at record; ru_finished_at := Some (rn_finished_at record) |}.
Definition discrepancy_row (run_id finished_at : Z) (discrepancy : Discrepancy) : DiscrepancyRow := {|
  dc_run_id := run_id; dc_kind := DiscrepancyKind_as_str (dy_kind discrepancy);
  dc_money_affected := affects_money (dy_kind discrepancy);
  dc_transfer_id := dy_transfer_id discrepancy; dc_payment_intent_id := dy_payment_intent_id discrepancy;
  dc_asset_id := dy_asset_id discrepancy; dc_detail := dy_detail discrepancy; dc_created_at := finished_at |}.
End checks.

Section repository.
Context {R : Type} `{Postgres R} `{U256Lib}.

(** ** [HealthRepository] *)

Definition pg_publish_component_state (component : string) (state : ComponentState) (detail : option string)
    (now : Z) : storage (R := R) bool :=
  _ ← eff_map_err unavailable begin_transaction;
  previous ← exec (select (fun db => hr_state <$> component_health db !! component));
  let changed := negb (bool_decide (previous = Some (ComponentState_as_str state))) in
  _ ← exec (upsert_health component state detail now);
  _ ← (if changed then
         id ← new_uuid;
         exec (insert_health_event id {|
           he_component := component; he_previous_state := previous;
           he_new_state := ComponentState_as_str state; he_detail := detail; he_created_at := now |})
       else mret tt);
  _ ← eff_map_err unavailable commit;
  mret changed.
Definition pg_component_statuses : storage (R := R) (list ComponentStatus) :=
  rows ← pool_fetch (fun db => sort_by (fun a b => String.compare (fst a) (fst b)) (map_to_list (component_health db)));
  lift (collect ComponentStatus_of rows).

(** ** [ReconciliationRepository] *)

Definition count_rows (f : Database -> nat) : storage (R := R) Z :=
  count ← pool_fetch (fun db => Z.of_nat (f db));
  mret (Z.min U32_MAX count).

Definition observed_not_canonical (window_start window_end : Z) (window : ReconciliationWindow)
    : storage (R := R) (list Discrepancy) :=
  rows ← pool_fetch (uncanonical_rows window_start window_end (window_end - rw_canonicalization_grace window));
  mret (uncanonical_finding <$> rows).
Definition allocation_exceeds_transfer : storage (R := R) (list Discrepancy) := pool_fetch exceeding_rows.
Definition settled_not_fulfilled (window_start window_end : Z) : storage (R := R) (list Discrepancy) :=
  pool_fetch (unfulfilled_rows window_start window_end).
Definition fulfilled_not_settled (window_start window_end : Z) : storage (R := R) (list Discrepancy) :=
  pool_fetch (unsettled_rows window_start window_end).
Definition allocated_on_invalidated : storage (R := R) (list Discrepancy) := pool_fetch invalidated_rows.
Definition aging (kind : DiscrepancyKind) (older_than : Z) : storage (R := R) (list Discrepancy) :=
  state ← lift (match kind with
                | UnmatchedInboundAging => Ok "unmatched"
                | HeldPaymentAging => Ok "held"
                | other => Err (corrupt (String.append (DiscrepancyKind_as_str other) " is not an ageing check"))
                end);
  pool_fetch (aging_rows kind state older_than).
Definition observer_behind (max_lag_blocks : Z) : storage (R := R) (list Discrepancy) :=
  eff_map_err unavailable (run_pool (behind_rows max_lag_blocks)).

Definition pg_scan (window_start window_end : Z) (window : ReconciliationWindow)
    : storage (R := R) ScanFindings :=
  transfers_examined ← count_rows (fun db =>
    size (filter (fun '(_, transfer) => in_window window_start window_end (tr_canonicalized_at transfer) = true)
            (chain_transfers db)));
  intents_examined ← count_rows (fun db =>
    size (filter (fun '(_, intent) => in_window window_start window_end (ir_created_at intent) = true)
            (payment_intents db)));
  uncanonical ← observed_not_canonical window_start window_end window;
  exceeding ← allocation_exceeds_transfer;
  unfulfilled ← settled_not_fulfilled window_start window_end;
  unsettled ← fulfilled_not_settled window_start window_end;
  invalidated ← allocated_on_invalidated;
  unmatched ← aging UnmatchedInboundAging (window_end - rw_unmatched_grace window);
  held ← aging HeldPaymentAging (window_end - rw_held_grace window);
  behind ← observer_behind (rw_max_cursor_lag_blocks window);
  mret {| sf_transfers_examined := transfers_examined; sf_intents_examined := intents_examined;
          sf_discrepancies := uncanonical ++ exceeding ++ unfulfilled ++ unsettled ++ invalidated
                                ++ unmatched ++ held ++ behind |}.

Definition store_discrepancy (run_id finished_at : Z) (_ : unit) (discrepancy : Discrepancy)
    : storage (R := R) unit :=
  id ← new_uuid;
  exec (insert_discrepancy id (discrepancy_row run_id finished_at discrepancy)).
Definition pg_record_run (record : RunRecord) : storage (R := R) Z :=
  run_id ← new_uuid;
  _ ← eff_map_err unavailable begin_transaction;
  _ ← exec (insert_run run_id (run_row record));
  _ ← for_each (store_discrepancy run_id (rn_finished_at record)) (sf_discrepancies (rn_findings record)) tt;
  _ ← eff_map_err unavailable commit;
  mret run_id.

#[export] Instance postgres_health : HealthRepository (Session R) := {|
  publish_component_state := pg_publish_component_state;
  component_statuses := pg_component_statuses |}.
#[export] Instance postgres_reconciliation : ReconciliationRepository (Session R) := {|
  reconciliation_scan := pg_scan;
  record_run := pg_record_run |}.
End repository.
