(* ===== verification/OversightBooks.v ===== *)
(** * Reconciliation over the books

    What a reconciliation run finds, against an independent statement of what
    it should find; what it does about it; and what it says of books that the
    gateway itself has kept. *)

From Stdlib Require Import Ascii String Strings.Byte.
From stdpp Require Import gmap.
From S2P Require Import Prelude RustStd Externals Effects Money Chain Observations Settlement SettlementService.
From S2P Require Import Database StorageSettlement SettlementBooks Operations StorageOperations OperationsBooks.
From S2P Require Import DecisionBooks StorageObservations StorageVerification EvidenceBooks EvidenceTruth.
From S2P Require Import Oversight StorageOversight.

Local Open Scope Z_scope.

(** ** What money that does not add up is *)

Inductive money_discrepancy `{U256Lib} (db : Database) (window_start window_end : Z) : Discrepancy -> Prop :=
  | more_than_arrived t processing transfer detail :
      chain_transfer_processing db !! t = Some processing -> chain_transfers db !! t = Some transfer ->
      tr_amount_raw transfer < pr_allocated_raw processing ->
      detail = JObject [("allocated_raw", JString (numeric_text (pr_allocated_raw processing)));
                        ("amount_raw", JString (numeric_text (tr_amount_raw transfer)))] ->
      money_discrepancy db window_start window_end
        (mkDiscrepancy AllocationExceedsTransfer (Some t) None (Some (tr_asset_id transfer)) detail)
  | settled_and_not_fulfilled i t decision transfer detail :
      payment_settlement_decisions db !! (i, t) = Some decision -> dr_outcome decision = "settled" ->
      window_start <= dr_decided_at decision < window_end -> chain_transfers db !! t = Some transfer ->
      (forall fulfilment, payment_fulfillments db !! i = Some fulfilment -> fr_status fulfilment = "failed") ->
      detail = JObject [("fulfilment_status",
        JString (match payment_fulfillments db !! i with Some _ => "failed" | None => "missing" end))] ->
      money_discrepancy db window_start window_end
        (mkDiscrepancy SettledNotFulfilled (Some t) (Some i) (Some (tr_asset_id transfer)) detail)
  | fulfilled_and_not_settled i fulfilment :
      payment_fulfillments db !! i = Some fulfilment -> window_start <= fr_claimed_at fulfilment < window_end ->
      (forall t decision, payment_settlement_decisions db !! (i, t) = Some decision -> dr_outcome decision <> "settled") ->
      money_discrepancy db window_start window_end
        (mkDiscrepancy FulfilledNotSettled None (Some i) (latest_asset i db) (JObject []))
  | allocated_and_invalidated a t allocation state transfer :
      payment_allocations db !! (a, t) = Some allocation ->
      chain_transfer_state_current db !! t = Some state -> st_state state = "invalidated" ->
      chain_transfers db !! t = Some transfer ->
      money_discrepancy db window_start window_end
        (mkDiscrepancy AllocatedOnInvalidatedTransfer (Some t) (Some (ar_payment_intent_id allocation))
           (Some (tr_asset_id transfer)) (JObject [])).

(** A limited query: sound, and complete below the limit. *)
Lemma elem_of_limited_omap {A B} (f : A -> option B) l y :
  y ∈ limited (omap f l) -> exists x, x ∈ l /\ f x = Some y.
Proof.
  intros (i & Hi & _)%elem_of_take. apply list_elem_of_lookup_2, list_elem_of_omap in Hi. done.
Qed.
Lemma limited_omap_complete {A B} (f : A -> option B) l x y :
  x ∈ l -> f x = Some y -> y ∈ limited (omap f l) \/ length (limited (omap f l)) = Z.to_nat FINDINGS_PER_CHECK.
Proof.
  intros Hx Hf. assert (y ∈ omap f l) as Hy by (apply list_elem_of_omap; by exists x). unfold limited.
  destruct (decide (length (omap f l) <= Z.to_nat FINDINGS_PER_CHECK)%nat).
  - left. by rewrite take_ge.
  - right. rewrite length_take. lia.
Qed.

Lemma sublist_filter_length {A} (P : A -> Prop) `{forall x, Decision (P x)} l1 l2 :
  l1 `sublist_of` l2 -> Forall P l1 -> (length l1 <= length (filter P l2))%nat.
Proof.
  induction 1 as [|x l1 l2 _ IH|x l1 l2 _ IH]; intros HP; [done|..].
  - apply Forall_cons in HP as [Hx HP]. rewrite filter_cons_True by done. cbn. apply IH in HP. lia.
  - rewrite filter_cons. apply IH in HP. case_decide; cbn; lia.
Qed.

Lemma length_omap_le {A B} (f : A -> option B) l : (length (omap f l) <= length l)%nat.
Proof. induction l as [|x l IH]; [done|]. cbn. destruct (f x); cbn; lia. Qed.

Lemma in_window_spec ws we t : in_window ws we t = true <-> ws <= t < we.
Proof. unfold in_window. rewrite andb_true_iff, Z.leb_le, Z.ltb_lt. done. Qed.

Lemma is_settled_spec i db :
  is_settled i db = false <-> forall t decision, payment_settlement_decisions db !! (i, t) = Some decision ->
    dr_outcome decision <> "settled".
Proof.
  unfold is_settled. rewrite bool_decide_eq_false. split.
  - intros Hn t d Hd Ho. apply Hn. exists (i, t), d. by split_and!.
  - intros Hall ([i' t] & d & Hd & Hi & Ho). cbn in Hi. subst i'. by eapply Hall.
Qed.

Section checks.
Context `{U256Lib}.
Variables (db : Database) (ws we : Z).

Lemma exceeding_sound d : d ∈ exceeding_rows db -> money_discrepancy db ws we d.
Proof.
  intros ([t p] & Hp & Hf)%elem_of_limited_omap. apply elem_of_map_to_list in Hp.
  apply bind_Some in Hf as (transfer & Ht & Hf). destruct (Z.ltb_spec (tr_amount_raw transfer) (pr_allocated_raw p)); [|done].
  injection Hf as <-. by eapply more_than_arrived.
Qed.
Lemma unfulfilled_sound d : d ∈ unfulfilled_rows ws we db -> money_discrepancy db ws we d.
Proof.
  intros ([[i t] decision] & Hp & Hf)%elem_of_limited_omap. apply elem_of_map_to_list in Hp.
  apply bind_Some in Hf as (transfer & Ht & Hf). cbv zeta in Hf. case_match eqn:Hc; [|done]. injection Hf as <-.
  apply andb_true_iff in Hc as [[Ho Hw]%andb_true_iff Hs]. apply in_window_spec in Hw. bool_to_prop.
  eapply settled_and_not_fulfilled; [done..| |].
  - intros f Hf. rewrite Hf in Hs. cbn in Hs. set_solver.
  - destruct (payment_fulfillments db !! i) as [f|]; cbn in *; [|done].
    assert (fr_status f = "failed") as -> by set_solver. done.
Qed.
Lemma unsettled_sound d : d ∈ unsettled_rows ws we db -> money_discrepancy db ws we d.
Proof.
  intros ([i f] & Hp & Hf)%elem_of_limited_omap. apply elem_of_map_to_list in Hp. case_match eqn:Hc; [|done].
  injection Hf as <-. apply andb_true_iff in Hc as [Hw%in_window_spec Hs%negb_true_iff].
  pose proof (proj1 (is_settled_spec _ _) Hs). by eapply fulfilled_and_not_settled.
Qed.
Lemma invalidated_sound d : d ∈ invalidated_rows db -> money_discrepancy db ws we d.
Proof.
  intros ([[a t] al] & Hp & Hf)%elem_of_limited_omap. apply elem_of_map_to_list in Hp.
  apply bind_Some in Hf as (state & Hs & Hf). apply bind_Some in Hf as (transfer & Ht & Hf).
  case_bool_decide; [|done]. injection Hf as <-. by eapply allocated_and_invalidated.
Qed.

(** The four checks, one after another. *)
Definition money_rows : list Discrepancy :=
  exceeding_rows db ++ unfulfilled_rows ws we db ++ unsettled_rows ws we db ++ invalidated_rows db.

Lemma money_rows_complete d :
  money_discrepancy db ws we d ->
  exists rows, (rows = exceeding_rows db \/ rows = unfulfilled_rows ws we db \/ rows = unsettled_rows ws we db
      \/ rows = invalidated_rows db)
    /\ (forall d', d' ∈ rows -> dy_kind d' = dy_kind d)
    /\ (d ∈ rows \/ length rows = Z.to_nat FINDINGS_PER_CHECK).
Proof.
  intros [t p transfer detail Hp Ht Hlt ->|i t decision transfer detail Hd Ho Hw Ht Hf ->|i f Hf Hw Hs
    |a t al state transfer Ha Hst Hi Ht].
  - eexists. split_and!; [by left|..].
    + intros d' ([t' p'] & _ & Hf)%elem_of_limited_omap. apply bind_Some in Hf as (tr & _ & Hf).
      case_match; [by injection Hf as <-|done].
    + apply (limited_omap_complete _ _ (t, p)); [by apply elem_of_map_to_list|]. rewrite Ht. cbn.
      destruct (Z.ltb_spec (tr_amount_raw transfer) (pr_allocated_raw p)); [done|lia].
  - eexists. split_and!; [by right; left|..].
    + intros d' ([[i' t'] p'] & _ & Hf')%elem_of_limited_omap. apply bind_Some in Hf' as (tr & _ & Hf').
      cbv zeta in Hf'. case_match; [by injection Hf' as <-|done].
    + apply (limited_omap_complete _ _ ((i, t), decision)); [by apply elem_of_map_to_list|]. rewrite Ht. cbn.
      rewrite Ho. rewrite (proj2 (in_window_spec _ _ _) Hw). cbn.
      destruct (payment_fulfillments db !! i) as [f|] eqn:Hfi; cbn; [|done]. by rewrite (Hf f eq_refl).
  - eexists. split_and!; [by right; right; left|..].
    + intros d' ([i' f'] & _ & Hf')%elem_of_limited_omap. case_match; [by injection Hf' as <-|done].
    + apply (limited_omap_complete _ _ (i, f)); [by apply elem_of_map_to_list|].
      by rewrite (proj2 (in_window_spec _ _ _) Hw), (proj2 (is_settled_spec _ _) Hs).
  - eexists. split_and!; [by right; right; right|..].
    + intros d' ([[a' t'] al'] & _ & Hf')%elem_of_limited_omap. apply bind_Some in Hf' as (st & _ & Hf').
      apply bind_Some in Hf' as (tr & _ & Hf'). case_match; [by injection Hf' as <-|done].
    + apply (limited_omap_complete _ _ ((a, t), al)); [by apply elem_of_map_to_list|]. rewrite Hst. cbn.
      rewrite Ht. cbn. by rewrite Hi.
Qed.
End checks.

(** ** What a run does *)

Definition rail_closed (asset : Z) (db : Database) : Prop :=
  exists id row, rail_stops db !! id = Some row /\ is_open_stop asset row = true.

(** Stops were opened for [assets], by reconciliation, and none was removed. *)
Definition stopped (assets : list Z) (db db' : Database) : Prop :=
  exists table, db' = on_rail_stops (fun _ => table) db /\ rail_stops db ⊆ table
    /\ (forall asset, asset ∈ assets -> rail_closed asset db')
    /\ forall id row, table !! id = Some row -> rail_stops db !! id = Some row
         \/ (rs_asset_id row ∈ assets /\ rs_reason_code row = HARD_STOP_REASON /\ rs_opened_by row = COMPONENT).

Lemma stopped_refl db : stopped [] db db.
Proof. exists (rail_stops db). split_and!; [by destruct db|done|set_solver|by left]. Qed.
Lemma stopped_snoc assets asset db1 db2 db3 :
  stopped assets db1 db2 -> stopped [asset] db2 db3 -> stopped (assets ++ [asset]) db1 db3.
Proof.
  intros (t2 & -> & Hsub & Hcl & Hnew) (t3 & -> & Hsub' & Hcl' & Hnew'). exists t3. cbn in *.
  split_and!; [done|by etransitivity| |].
  - intros a [Ha|Ha]%elem_of_app; [|by apply Hcl'].
    destruct (Hcl a Ha) as (id & row & Hr & Ho). exists id, row. split; [|done]. cbn in *. by eapply lookup_weaken.
  - intros id row Hr. destruct (Hnew' id row Hr) as [Hr2|(Ha & ? & ?)].
    + destruct (Hnew id row Hr2) as [?|(? & ? & ?)]; [by left|right]. split_and!; [set_solver|done..].
    + right. split_and!; [set_solver|done..].
Qed.

(** The run stored with each of its findings. *)
Definition recorded (run_id : Z) (record : RunRecord) (db db' : Database) : Prop :=
  reconciliation_runs db !! run_id = None
  /\ exists table, db' = on_discrepancies (fun _ => table) (on_runs <[run_id := run_row record]> db)
     /\ reconciliation_discrepancies db ⊆ table
     /\ forall d, d ∈ sf_discrepancies (rn_findings record) ->
          exists id, table !! id = Some (discrepancy_row run_id (rn_finished_at record) d).

(** A published state. *)
Definition published (state : ComponentState) (db db' : Database) : Prop :=
  exists row events, hr_state row = ComponentState_as_str state
    /\ db' = on_health_events (fun _ => events) (on_health <[COMPONENT := row]> db).

Section runs.
Context {R : Type} `{Postgres R} `{U256Lib} `{HashLib} `{UuidLib} `{TimeLib} `{TimeSerde}.

Lemma open_rail_stop_Ok asset detail t (s : Session R) stop s' :
  pg_open_rail_stop asset HARD_STOP_REASON detail COMPONENT t s = (Ok stop, s') ->
  stopped [asset] (committed s) (committed s').
Proof.
  intros Hrun. apply eff_bind_Ok in Hrun as (id & s1 & Hid & Hrun).
  assert (committed s1 = committed s) as E1.
  { unfold new_uuid in Hid. destruct (now_v7 (runtime s)). by simplify_eq. }
  apply eff_bind_Ok in Hrun as (inserted & s2 & (now & Hst)%(pool_Ok _ (fun _ => insert_rail_stop _ _)) & Hrun). rewrite E1 in Hst.
  unfold insert_rail_stop in Hst. apply res_bind_Ok in Hst as (? & _ & Hst).
  destruct (_ || _) eqn:Hexists.
  - simplify_eq. apply eff_bind_Ok in Hrun as (found & s3 & Hf & [Hs ->]%lift_Ok). apply ok_or_Ok in Hs as ->.
    destruct (pool_fetch_reads (fun db => RailStop_from <$> find_where (is_open_stop asset) (rail_stops db)) s2)
      as [Hc Hf']. unfold pg_find_open_rail_stop in Hf. rewrite Hf in Hc, Hf'. cbn in *.
    specialize (Hf' _ eq_refl). symmetry in Hf'. apply fmap_Some in Hf' as ([sid row] & Hw & _).
    apply find_where_Some in Hw as [Hr Ho]. rewrite Hc.
    exists (rail_stops (committed s)). split_and!; [by destruct (committed s)|done| |by left].
    intros a ->%list_elem_of_singleton. by exists sid, row.
  - apply orb_false_iff in Hexists as [Hnone%is_row_false _]. apply res_bind_Ok in Hst as (? & _ & Hst).
    injection Hst as <- Hdb. apply mret_Ok in Hrun as [_ ->]. rewrite <- Hdb. eexists. split; [reflexivity|].
    split_and!; [by apply insert_subseteq| |].
    + intros a ->%list_elem_of_singleton. eexists id, _. cbn. rewrite lookup_insert_eq. split; [done|].
      unfold is_open_stop. cbn. by rewrite Z.eqb_refl.
    + intros id' row Hr. apply lookup_insert_Some in Hr as [[<- <-]|[_ Hr]]; [right|by left]. cbn. set_solver.
Qed.

Lemma record_run_transacts record :
  transacts (fun db run_id db' => recorded run_id record db db') (pg_record_run (R := R) record).
Proof.
  intros db0 db now. apply ends_bind_uuid. intros run_id. apply ends_begin. intros now'.
  apply ends_bind_exec. intros [] db1 Hst.
  assert (reconciliation_runs db0 !! run_id = None /\ db1 = on_runs <[run_id := run_row record]> db0) as [Hnone ->].
  { unfold insert_run in Hst. apply res_bind_Ok in Hst as (? & _ & Hst).
    apply res_bind_Ok in Hst as (? & Hu & Hst). unfold unique_key in Hu. apply guard_err_Ok in Hu.
    split; [by apply is_row_false|by simplify_eq]. }
  eapply (ends_bind _ _ _ _ _ (fun _ db' => recorded run_id record db0 db'));
    [|intros [] db2 Hrec; by apply ends_commit].
  eapply within_weaken; [apply (within_for_each_seen _ (fun seen db' =>
    exists table, db' = on_discrepancies (fun _ => table) (on_runs <[run_id := run_row record]> db0)
      /\ reconciliation_discrepancies db0 ⊆ table
      /\ forall d, d ∈ seen -> exists id, table !! id = Some (discrepancy_row run_id (rn_finished_at record) d)))|].
  - intros seen d rest [] db' _ (table & -> & Hsub & Hseen). apply within_bind_uuid. intros id.
    apply within_exec. intros [] db2 Hins. unfold insert_discrepancy in Hins. cbn in Hins.
    apply res_bind_Ok in Hins as (? & _ & Hins). apply res_bind_Ok in Hins as (? & Hu & Hins).
    apply guard_err_Ok, is_row_false in Hu. cbn in Hu.
    repeat (apply res_bind_Ok in Hins as (? & _ & Hins)). simplify_eq.
    exists (<[id := discrepancy_row run_id (rn_finished_at record) d]> table). split_and!; [done| |].
    + etransitivity; [done|]. by apply insert_subseteq.
    + intros d' [Hd'| ->%list_elem_of_singleton]%elem_of_app; [|exists id; by rewrite lookup_insert_eq].
      destruct (Hseen d' Hd') as [id' Hid']. exists id'. rewrite lookup_insert_ne; [done|]. congruence.
  - exists (reconciliation_discrepancies db0). split_and!; [by destruct db0|done|set_solver].
  - intros [] db2 (table & -> & Hsub & Hall). split; [done|]. by exists table.
Qed.

Lemma publish_transacts state detail t :
  transacts (fun db _ db' => published state db db') (pg_publish_component_state (R := R) COMPONENT state detail t).
Proof.
  intros db0 db now. apply ends_begin. intros now'. apply ends_bind_exec. intros previous db1 [= <- <-].
  apply ends_bind_exec. intros [] db1 Hst. unfold upsert_health in Hst. apply res_bind_Ok in Hst as (? & _ & Hst).
  injection Hst as <-. match goal with |- ends _ (on_health (insert _ ?r) _) _ _ _ => set (row := r) end.
  eapply (ends_bind _ _ _ _ _ (fun _ db' => published state db0 db')); [|intros [] db2 Hp; by apply ends_commit].
  assert (forall events, published state db0 (on_health_events (fun _ => events) (on_health <[COMPONENT := row]> db0)))
    as Hpub by (intros events; by exists row, events).
  case_bool_decide; cbn [negb].
  - apply within_ret. destruct db0. apply Hpub.
  - apply within_bind_uuid. intros id. apply within_exec. intros [] db2 Hins. unfold insert_health_event in Hins.
    apply res_bind_Ok in Hins as (? & _ & Hins). simplify_eq. apply Hpub.
Qed.

(** What a successful call did to the committed state. *)
Lemma transacts_Ok {E A} (T : Database -> A -> Database -> Prop) (m : eff (Session R) E A) s a s' :
  transacts T m -> m s = (Ok a, s') -> T (committed s) a (committed s').
Proof. intros Ht Hm. specialize (Ht _ _ _ s eq_refl eq_refl eq_refl). by rewrite Hm in Ht. Qed.

Lemma read_Ok {A} (f : Database -> A) (s : Session R) a s' :
  run_pool (select f) s = (Ok a, s') -> a = f (committed s) /\ committed s' = committed s.
Proof.
  intros Hf. apply (transacts_Ok _ _ _ _ _ (transacts_pool (fun _ => select f))) in Hf as (now & [= <- <-]). done.
Qed.

Lemma behind_rows_Ok lag db rows db' :
  behind_rows lag db = Ok (rows, db') -> db' = db /\ forall d, d ∈ rows -> dy_kind d = ObserverBehind.
Proof.
  unfold behind_rows. intros (found & Hc & [= <- <-])%res_bind_Ok. split; [done|].
  intros d ([d'|] & Hd & [= ->])%elem_of_limited_omap. apply collect_Ok in Hc.
  apply list_elem_of_lookup in Hd as [i Hi]. destruct (Forall2_lookup_r _ _ _ _ _ Hc Hi) as ([[[x y] z] cursor] & _ & Hrow).
  unfold behind_row in Hrow. destruct (chain_sources db !! x), (reported_head x db); try done.
  destruct (_ && _); [|done]. repeat (apply res_bind_Ok in Hrow as (? & _ & Hrow)).
  destruct (_ <? _); by simplify_eq.
Qed.

(** A scan reads the committed state and nothing else. *)
Lemma scan_Ok ws we window (s : Session R) findings s' :
  pg_scan ws we window s = (Ok findings, s') ->
  committed s' = committed s
  /\ exists others1 others2, sf_discrepancies findings = others1 ++ money_rows (committed s) ws we ++ others2
     /\ forall d, d ∈ others1 ++ others2 -> affects_money (dy_kind d) = false.
Proof.
  intros Hrun. unfold pg_scan, count_rows, observed_not_canonical, allocation_exceeds_transfer, settled_not_fulfilled,
    fulfilled_not_settled, allocated_on_invalidated, aging, observer_behind in Hrun.
  inv_eff Hrun. inv_eff Hm. inv_eff Hm0. inv_eff Hm1. inv_eff Hm6. inv_eff Hm7.
  repeat match goal with Hf : run_pool (select _) _ = (Ok _, _) |- _ => apply read_Ok in Hf as [-> Hf] end.
  apply (transacts_Ok _ _ _ _ _ (transacts_pool (fun _ => behind_rows (rw_max_cursor_lag_blocks window))))
    in Hm8 as (now & [Hc Hb]%behind_rows_Ok).
  rewrite Hc, ?Hm7, ?Hm6, ?Hm5, ?Hm4, ?Hm3, ?Hm2, ?Hm1, ?Hm0, ?Hm.
  match goal with E : committed _ = committed s |- _ => rewrite E end.
  split; [done|]. cbn [sf_discrepancies]. unfold money_rows. set (db := committed s).
  exists (uncanonical_finding <$> uncanonical_rows ws we (we - rw_canonicalization_grace window) db),
    (aging_rows UnmatchedInboundAging "unmatched" (we - rw_unmatched_grace window) db
     ++ aging_rows HeldPaymentAging "held" (we - rw_held_grace window) db ++ v8).
  split; [by rewrite <- !app_assoc|].
  intros d [([[[x y] z] w'] & -> & _)%list_elem_of_fmap|[Hd|[Hd|Hd]%elem_of_app]%elem_of_app]%elem_of_app; [done|..].
  - apply elem_of_limited_omap in Hd as ([t p] & _ & Hf). apply bind_Some in Hf as (tr & _ & Hf).
    case_match; [by injection Hf as <-|done].
  - apply elem_of_limited_omap in Hd as ([t p] & _ & Hf). apply bind_Some in Hf as (tr & _ & Hf).
    case_match; [by injection Hf as <-|done].
  - by rewrite (Hb d Hd).
Qed.

(** The assets that money findings name. *)
Definition named_by (discrepancies : list Discrepancy) (asset : Z) : Prop :=
  exists d, d ∈ discrepancies /\ affects_money (dy_kind d) = true /\ dy_asset_id d = Some asset.

Lemma stop_rails_Ok t discrepancies (s : Session R) assets s' :
  for_each (stop_rail t) discrepancies [] s = (Ok assets, s') ->
  stopped assets (committed s) (committed s') /\ NoDup assets
  /\ forall asset, asset ∈ assets <-> named_by discrepancies asset.
Proof.
  intros Hrun. eapply (for_each_inv _ (fun seen assets w => stopped assets (committed s) (committed w)
    /\ NoDup assets /\ forall asset, asset ∈ assets <-> named_by seen asset)); [..|exact Hrun].
  2: { split_and!; [apply stopped_refl|apply NoDup_nil_2|]. intros a. split; [set_solver|by intros (d & ? & _); set_solver]. }
  intros seen d acc w acc' w' (Hst & Hnd & Hiff) _ Hstep.
  assert (forall a, named_by (seen ++ [d]) a <->
    named_by seen a \/ (affects_money (dy_kind d) = true /\ dy_asset_id d = Some a)) as Hsnoc.
  { intros a. split.
    - intros (d' & [Hd'| ->%list_elem_of_singleton]%elem_of_app & Hm & Ha); [left; by exists d'|by right].
    - intros [(d' & Hd' & ?)|?]; [exists d'|exists d]; (split; [|done]); apply elem_of_app; [by left|right; set_solver]. }
  unfold stop_rail in Hstep. destruct (dy_asset_id d) as [asset|] eqn:Hasset.
  2: { apply mret_Ok in Hstep as [-> ->]. split_and!; [done..|]. intros a. rewrite Hiff, Hsnoc. naive_solver. }
  destruct (negb (affects_money (dy_kind d)) || bool_decide (asset ∈ acc)) eqn:Hskip.
  { apply mret_Ok in Hstep as [-> ->]. split_and!; [done..|]. intros a. rewrite Hsnoc, <- Hiff.
    apply orb_true_iff in Hskip as [Hm%negb_true_iff|Hin]; bool_to_prop; naive_solver congruence. }
  apply orb_false_iff in Hskip as [Hm%negb_false_iff Hnin]. bool_to_prop.
  apply eff_bind_Ok in Hstep as (stop & w1 & Hopen%eff_map_err_Ok & [-> ->]%mret_Ok).
  apply open_rail_stop_Ok in Hopen. split_and!.
  - by eapply stopped_snoc.
  - apply NoDup_app. split_and!; [done| |apply NoDup_singleton]. intros a Ha ->%list_elem_of_singleton. done.
  - intros a. rewrite elem_of_app, list_elem_of_singleton, Hsnoc, <- Hiff. naive_solver.
Qed.

(** Nothing but the reports of oversight changed. *)
Definition oversaw (db db' : Database) : Prop :=
  exists health events runs discrepancies stops,
    db' = on_health (fun _ => health) (on_health_events (fun _ => events) (on_runs (fun _ => runs)
            (on_discrepancies (fun _ => discrepancies) (on_rail_stops (fun _ => stops) db)))).

Definition state_of (status : RunStatus) : ComponentState :=
  match status with RunOk => CompOk | RunDrift => CompDegraded | RunHardStop => CompStopped end.

(** A run, taken apart. *)
Lemma run_once_Ok window kind (s : Session R) report s' :
  run_once window kind s = (Ok report, s') ->
  let started_at := (clock_now s).1 in
  let findings := rp_discrepancies report in
  exists record (s1 s2 s3 : Session R),
    rn_window_start record = started_at - rw_lookback window /\ rn_window_end record = started_at
    /\ sf_discrepancies (rn_findings record) = findings /\ rn_status record = rp_status report
    /\ rp_status report = run_status findings
    /\ pg_scan (started_at - rw_lookback window) started_at window (clock_now s).2 = (Ok (rn_findings record), s1)
    /\ recorded (rp_run_id report) record (committed s1) (committed s2)
    /\ (if bool_decide (rp_status report = RunHardStop)
        then stopped (rp_stopped_assets report) (committed s2) (committed s3) /\ NoDup (rp_stopped_assets report)
             /\ forall asset, asset ∈ rp_stopped_assets report <-> named_by findings asset
        else rp_stopped_assets report = [] /\ committed s3 = committed s2)
    /\ published (state_of (rp_status report)) (committed s3) (committed s').
Proof.
  intros Hrun started_at findings. unfold run_once in Hrun. apply eff_bind_Ok in Hrun as (t & w & Hclock & Hrun).
  assert (t = (clock_now s).1 /\ w = (clock_now s).2) as [-> ->].
  { unfold read_clock in Hclock. destruct (clock_now s). by simplify_eq. }
  apply eff_bind_Ok in Hrun as ([found|e] & s1 & Hscan & Hrun);
    apply (proj1 (attempt_Ok _ _ _ _)) in Hscan.
  2: { by apply eff_bind_Ok in Hrun as (? & ? & _ & [[=] _]%lift_Ok). }
  apply eff_bind_Ok in Hrun as (finished & s1' & Hfin & Hrun).
  assert (committed s1' = committed s1) as E1.
  { pose proof (clock_same (E := ReconciliationError) s1) as Hc. by rewrite Hfin in Hc. }
  apply eff_bind_Ok in Hrun as (run_id & s2 & Hrec%eff_map_err_Ok & Hrun).
  apply (transacts_Ok _ _ _ _ _ (record_run_transacts _)) in Hrec. cbv beta in Hrec. rewrite E1 in Hrec.
  apply eff_bind_Ok in Hrun as (assets & s3 & Hstop & Hrun).
  apply eff_bind_Ok in Hrun as ([] & s4 & Hpub & [-> ->]%mret_Ok).
  eexists _, s1, s2, s3. cbn [rp_discrepancies rp_status rp_run_id rp_stopped_assets] in *.
  split_and!; try exact Hrec; try exact Hscan; try reflexivity.
  - destruct (bool_decide _); [by eapply stop_rails_Ok|]. by apply mret_Ok in Hstop as [-> ->].
  - unfold publish in Hpub. apply eff_bind_Ok in Hpub as (t' & s5 & Hc' & Hpub).
    assert (committed s5 = committed s3) as E5.
    { pose proof (clock_same (E := ReconciliationError) s3) as Hc. by rewrite Hc' in Hc. }
    apply eff_bind_Ok in Hpub as (changed & s6 & Hp%eff_map_err_Ok & [_ ->]%mret_Ok).
    apply (transacts_Ok _ _ _ _ _ (publish_transacts _ _ _)) in Hp. cbv beta in Hp. by rewrite E5 in Hp.
Qed.

Lemma money_discrepancy_money db ws we d : money_discrepancy db ws we d -> affects_money (dy_kind d) = true.
Proof. by intros []. Qed.

Lemma money_rows_sound db ws we d : d ∈ money_rows db ws we -> money_discrepancy db ws we d.
Proof.
  intros [Hd|[Hd|[Hd|Hd]%elem_of_app]%elem_of_app]%elem_of_app.
  - by eapply exceeding_sound.
  - by eapply unfulfilled_sound.
  - by eapply unsettled_sound.
  - by eapply invalidated_sound.
Qed.

(** The findings of a run about money: all of them true, and all there are
    below the limit of a check. *)
Lemma findings_sound window ws we (s : Session R) findings s' d :
  pg_scan ws we window s = (Ok findings, s') -> d ∈ sf_discrepancies findings ->
  affects_money (dy_kind d) = true -> money_discrepancy (committed s) ws we d.
Proof.
  intros (_ & others1 & others2 & -> & Hothers)%scan_Ok Hd Hm.
  apply elem_of_app in Hd as [Hd|[Hd|Hd]%elem_of_app].
  - rewrite Hothers in Hm by (apply elem_of_app; by left). done.
  - by apply money_rows_sound.
  - rewrite Hothers in Hm by (apply elem_of_app; by right). done.
Qed.

Lemma findings_complete window ws we (s : Session R) findings s' d :
  pg_scan ws we window s = (Ok findings, s') -> money_discrepancy (committed s) ws we d ->
  d ∈ sf_discrepancies findings
  \/ FINDINGS_PER_CHECK <= Z.of_nat (length (filter (fun d' => dy_kind d' = dy_kind d) (sf_discrepancies findings))).
Proof.
  intros (_ & others1 & others2 & -> & _)%scan_Ok (rows & Hrows & Hkind & Hd)%money_rows_complete.
  assert (rows `sublist_of` money_rows (committed s) ws we) as Hsub.
  { unfold money_rows. destruct Hrows as [-> | [-> | [-> | ->]]].
    - by apply sublist_inserts_r.
    - apply sublist_inserts_l. by apply sublist_inserts_r.
    - do 2 apply sublist_inserts_l. by apply sublist_inserts_r.
    - by do 3 apply sublist_inserts_l. }
  destruct Hd as [Hd|Hlen].
  - left. apply elem_of_app. right. apply elem_of_app. left. eapply elem_of_submseteq; [exact Hd|].
    by apply sublist_submseteq.
  - right. transitivity (Z.of_nat (length rows)); [rewrite Hlen; done|]. apply Nat2Z.inj_le.
    transitivity (length (filter (fun d' => dy_kind d' = dy_kind d) (money_rows (committed s) ws we))).
    + apply sublist_filter_length; [done|]. by apply Forall_forall.
    + rewrite !filter_app, !length_app. lia.
Qed.

Lemma run_status_hard discrepancies :
  run_status discrepancies = RunHardStop <-> exists d, d ∈ discrepancies /\ affects_money (dy_kind d) = true.
Proof.
  assert (forall d, d ∈ money_findings discrepancies <-> d ∈ discrepancies /\ affects_money (dy_kind d) = true) as Hin.
  { intros d. unfold money_findings. rewrite !list_elem_of_In. apply filter_In. }
  unfold run_status, U32_MAX. split.
  - destruct (money_findings discrepancies) as [|d l]; cbn; [by case_bool_decide|]. intros _. exists d. apply Hin. by left.
  - intros (d & Hd). apply Hin in Hd. destruct (money_findings discrepancies) as [|d' l]; [by apply elem_of_nil in Hd|].
    by rewrite (proj2 (Z.ltb_lt _ _)) by (cbn [length]; lia).
Qed.

(** The tables after a run. *)
Lemma run_once_tables window kind (s : Session R) report s' :
  run_once window kind s = (Ok report, s') ->
  oversaw (committed s) (committed s')
  /\ (forall asset, named_by (rp_discrepancies report) asset -> rail_closed asset (committed s'))
  /\ (forall id row, rail_stops (committed s') !! id = Some row -> rail_stops (committed s) !! id = Some row
        \/ (named_by (rp_discrepancies report) (rs_asset_id row)
            /\ rs_reason_code row = HARD_STOP_REASON /\ rs_opened_by row = COMPONENT))
  /\ (exists row, component_health (committed s') !! COMPONENT = Some row
        /\ hr_state row = ComponentState_as_str (state_of (rp_status report)))
  /\ (exists row, reconciliation_runs (committed s') !! rp_run_id report = Some row
        /\ ru_status row = RunStatus_as_str (rp_status report))
  /\ rail_stops (committed s) ⊆ rail_stops (committed s').
Proof.
  intros Hrun. apply run_once_Ok in Hrun as (record & s1 & s2 & s3 & _ & _ & Hf & Hs & Hst & Hscan
    & (Hnone & table & E2 & _ & _) & Hstop & (row & events & Hrow & E4)).
  apply scan_Ok in Hscan as [E1 _]. assert (committed (clock_now s).2 = committed s) as E0.
  { pose proof (clock_same (E := ReconciliationError) s) as Hc. unfold read_clock in Hc. by destruct (clock_now s). }
  rewrite E0 in E1. rewrite E1 in E2.
  assert (exists stops, committed s3 = on_rail_stops (fun _ => stops) (committed s2)
    /\ rail_stops (committed s2) ⊆ stops
    /\ (forall asset, named_by (rp_discrepancies report) asset -> rail_closed asset (committed s3))
    /\ forall id row, stops !! id = Some row -> rail_stops (committed s2) !! id = Some row
        \/ (named_by (rp_discrepancies report) (rs_asset_id row)
            /\ rs_reason_code row = HARD_STOP_REASON /\ rs_opened_by row = COMPONENT)) as (stops & E3 & Hsub & Hcl & Hnew).
  { case_bool_decide as Hhard.
    - destruct Hstop as ((stops & E3 & Hsub & Hcl & Hnew) & _ & Hiff). exists stops. split_and!; [done..| |].
      + intros asset Hn. by apply Hcl, Hiff.
      + intros id r Hr. destruct (Hnew id r Hr) as [?|(Ha & ? & ?)]; [by left|right]. split_and!; [by apply Hiff|done..].
    - destruct Hstop as [_ E3]. exists (rail_stops (committed s2)). rewrite E3.
      split_and!; [by destruct (committed s2)|done| |by left].
      intros asset (d & Hd & Hm & _). exfalso. apply Hhard. rewrite Hst. apply run_status_hard. by exists d. }
  rewrite E4, E3, E2. cbn. rewrite E2 in Hsub, Hnew. cbn in Hsub, Hnew. split_and!.
  - exists (<[COMPONENT := row]> (component_health (committed s))), events,
      (<[rp_run_id report := run_row record]> (reconciliation_runs (committed s))), table, stops. reflexivity.
  - intros asset Hn. destruct (Hcl asset Hn) as (id & r & Hr & Ho). rewrite E3 in Hr. by exists id, r.
  - exact Hnew.
  - exists row. by rewrite lookup_insert_eq.
  - eexists. rewrite lookup_insert_eq. split; [done|]. cbn. by rewrite Hs.
  - done.
Qed.

(** C21: Reconciliation tells the truth about money and acts on it.  A run
    that succeeds reports of the database it read exactly the places where an
    allocation exceeds its transfer, a settled payment has no fulfilment, a
    fulfilment has no settled decision, or an allocation stands on an
    invalidated transfer, up to the limit of a check; it ends in a hard stop
    exactly if there is one; the rail of every asset a finding names is then
    closed, no other rail is, and no stop is lifted; the run and the
    reconciler's state are on record, and no other table has changed. *)
Theorem money_discrepancy_closes_its_rail window kind (s : Session R) report s' :
  run_once window kind s = (Ok report, s') ->
  let window_end := (clock_now s).1 in let window_start := window_end - rw_lookback window in
  let found := rp_discrepancies report in
  (forall d, d ∈ found -> affects_money (dy_kind d) = true ->
     money_discrepancy (committed s) window_start window_end d)
  /\ (forall d, money_discrepancy (committed s) window_start window_end d -> d ∈ found
        \/ FINDINGS_PER_CHECK <= Z.of_nat (length (filter (fun d' => dy_kind d' = dy_kind d) found)))
  /\ (rp_status report = RunHardStop <-> exists d, money_discrepancy (committed s) window_start window_end d)
  /\ (forall asset, named_by found asset -> rail_closed asset (committed s'))
  /\ rail_stops (committed s) ⊆ rail_stops (committed s')
  /\ (forall id row, rail_stops (committed s') !! id = Some row -> rail_stops (committed s) !! id = Some row
        \/ (named_by found (rs_asset_id row) /\ rs_reason_code row = HARD_STOP_REASON /\ rs_opened_by row = COMPONENT))
  /\ (exists row, component_health (committed s') !! COMPONENT = Some row
        /\ hr_state row = ComponentState_as_str (state_of (rp_status report)))
  /\ (exists row, reconciliation_runs (committed s') !! rp_run_id report = Some row
        /\ ru_status row = RunStatus_as_str (rp_status report))
  /\ oversaw (committed s) (committed s').
Proof.
  intros Hrun window_end window_start found.
  destruct (run_once_tables _ _ _ _ _ Hrun) as (Hsaw & Hcl & Hnew & Hhealth & Hstored & Hsub).
  apply run_once_Ok in Hrun as (record & s1 & s2 & s3 & _ & _ & Hf & _ & Hst & Hscan & _).
  assert (committed (clock_now s).2 = committed s) as E0.
  { pose proof (clock_same (E := ReconciliationError) s) as Hc. unfold read_clock in Hc. by destruct (clock_now s). }
  pose proof (fun d => findings_sound _ _ _ _ _ _ d Hscan) as Hsound.
  pose proof (fun d => findings_complete _ _ _ _ _ _ d Hscan) as Hcomplete.
  rewrite Hf, E0 in Hsound, Hcomplete. fold found window_end window_start in Hsound, Hcomplete.
  split_and!; [done..| |done|done|done|done|done|done]. rewrite Hst. split.
  - intros (d & Hd & Hm)%run_status_hard. exists d. by apply Hsound.
  - intros (d & Hd). apply run_status_hard. pose proof (money_discrepancy_money _ _ _ _ Hd) as Hm.
    destruct (Hcomplete d Hd) as [?|Hlen]; [by exists d|]. unfold FINDINGS_PER_CHECK in Hlen.
    destruct (filter _ found) as [|d' l] eqn:Hfil; [cbn in Hlen; lia|].
    assert (d' ∈ filter (fun d' => dy_kind d' = dy_kind d) found) as [Hk Hin]%list_elem_of_filter
      by (rewrite Hfil; by left). exists d'. by rewrite Hk.
Qed.
End runs.

(** ** Books the gateway has kept *)

Section kept_books.
Context {R : Type} `{Postgres R} `{U256Lib} `{HashLib} `{UuidLib} `{TimeLib} `{TimeSerde}.
Context (self : OperationsService).

(** The alarms such books can raise: the fulfilment of an overpaid order, and
    an allocation from a transfer that was found invalid afterwards. *)
Definition overpaid_alarm (db : Database) (d : Discrepancy) : Prop :=
  dy_kind d = FulfilledNotSettled
  /\ exists i t decision, dy_payment_intent_id d = Some i
     /\ payment_settlement_decisions db !! (i, t) = Some decision /\ dr_outcome decision = "overpaid".
Definition invalidated_alarm (db : Database) (d : Discrepancy) : Prop :=
  dy_kind d = AllocatedOnInvalidatedTransfer
  /\ exists a t allocation state, dy_transfer_id d = Some t
     /\ payment_allocations db !! (a, t) = Some allocation
     /\ chain_transfer_state_current db !! t = Some state /\ st_state state = "invalidated".

Lemma kept_discrepancy db ws we d :
  balanced db -> agreed db -> money_discrepancy db ws we d -> overpaid_alarm db d \/ invalidated_alarm db d.
Proof.
  intros B A [t p transfer detail Hp Ht Hlt _|i t decision transfer detail Hd Ho _ _ Hf _|i f Hf _ Hs
    |a t al state transfer Hal Hst Hi Ht].
  - destruct (bal_total _ B t p Hp) as (_ & transfer' & Ht' & Hle). rewrite Ht in Ht'. injection Ht' as <-. lia.
  - destruct (agr_covered _ A i t decision Hd) as [(f & Hfi & Hne) _]; [by rewrite Ho|]. by apply Hf in Hfi.
  - left. split; [done|]. destruct (agr_fulfilled _ A i) as (t & decision & Hd & Hc); [by eexists|].
    exists i, t, decision. split_and!; [done..|]. specialize (Hs t decision Hd). unfold covers in Hc.
    apply orb_true_iff in Hc as [Hc|Hc]; bool_to_prop; done.
  - right. split; [done|]. by exists a, t, al, state.
Qed.

(** C20: Books the gateway has kept raise two of the four money alarms at
    most.  After any settlement passes and operator calls on books that
    balance, agree with their decisions and rest on the operators' keys, no
    run of reconciliation finds more allocated than arrived or a settled order
    without its fulfilment.  What it finds about money is the fulfilment of an
    overpaid order, which has no decision called settled, or an allocation
    from a transfer whose state is 'invalidated'.  With no overpaid order and
    no such transfer there is no hard stop and no rail is closed. *)
Theorem kept_books_raise_no_other_alarm window kind (s0 s : Session R) report s' :
  accounted self (committed s0) -> rtc (gateway_step self) s0 s ->
  run_once window kind s = (Ok report, s') ->
  (forall d, d ∈ rp_discrepancies report -> affects_money (dy_kind d) = true ->
     overpaid_alarm (committed s) d \/ invalidated_alarm (committed s) d)
  /\ ((forall key decision, payment_settlement_decisions (committed s) !! key = Some decision ->
         dr_outcome decision <> "overpaid") ->
      (forall a t allocation state, payment_allocations (committed s) !! (a, t) = Some allocation ->
         chain_transfer_state_current (committed s) !! t = Some state -> st_state state <> "invalidated") ->
      rp_status report <> RunHardStop /\ rail_stops (committed s') = rail_stops (committed s)).
Proof.
  intros A Hsteps Hrun. apply gateway_steps_accounted in Hsteps as [G Ag]; [|done].
  pose proof (gov_balanced _ _ G) as B.
  assert (committed (clock_now s).2 = committed s) as E0.
  { pose proof (clock_same (E := ReconciliationError) s) as Hc. unfold read_clock in Hc. by destruct (clock_now s). }
  destruct (run_once_tables _ _ _ _ _ Hrun) as (_ & _ & Hnew & _ & _ & Hsub).
  apply run_once_Ok in Hrun as (record & s1 & s2 & s3 & _ & _ & Hf & _ & Hst & Hscan & _).
  assert (forall d, d ∈ rp_discrepancies report -> affects_money (dy_kind d) = true ->
    overpaid_alarm (committed s) d \/ invalidated_alarm (committed s) d) as Hall.
  { intros d Hd Hm. eapply kept_discrepancy; [done..|]. rewrite <- E0. eapply findings_sound; [exact Hscan| |done].
    by rewrite Hf. }
  split; [done|]. intros Hno Hvalid.
  assert (forall d, d ∈ rp_discrepancies report -> affects_money (dy_kind d) = true -> False) as Hnone.
  { intros d Hd Hm. destruct (Hall d Hd Hm) as [(_ & i & t & decision & _ & Hdec & Ho)
      |(_ & a & t & al & state & _ & Hal & Hcur & Hi)]; [by eapply Hno|by eapply Hvalid]. }
  split.
  - rewrite Hst. intros (d & Hd & Hm)%run_status_hard. by eapply Hnone.
  - apply map_eq. intros id. destruct (rail_stops (committed s') !! id) as [row|] eqn:Hr.
    + destruct (Hnew id row Hr) as [?|((d & Hd & Hm & _) & _)]; [done|]. exfalso. by eapply Hnone.
    + destruct (rail_stops (committed s) !! id) eqn:Hs; [|done]. by rewrite (lookup_weaken _ _ _ _ Hs Hsub) in Hr.
Qed.

(** A settlement that reports an overpayment leaves its order fulfilled, and
    decided as overpaid only. *)
Lemma overpaid_order lease command (s : Session R) s1 :
  accounted self (committed s) -> pg_settle lease command s = (Ok RecOverpaid, s1) ->
  let i := sc_payment_intent_id command in
  is_Some (payment_fulfillments (committed s1) !! i)
  /\ forall t decision, payment_settlement_decisions (committed s1) !! (i, t) = Some decision ->
       dr_outcome decision <> "settled".
Proof.
  intros [G A] Hrun i. pose proof (gov_balanced _ _ G) as B.
  pose proof (pg_settle_run _ _ _ _ _ B Hrun) as Hcase. cbn in Hcase.
  pose proof (pg_settle_balanced _ _ _ _ _ B Hrun) as Hb.
  apply (transacts_Ok _ _ _ _ _ (pg_settle_decides lease command)) in Hrun as [(( row & Ho & Ed) & _ & [Hcl _]) _].
  assert (payment_fulfillments (committed s) !! i = None) as Hnone.
  { apply is_row_false. pose proof (bal_announced _ B i) as Ha.
    inversion Hcase as [|? ? _ Hr|outcome amount t ? _ Hcr Hcred]; simplify_eq; [by destruct Hr|].
    assert (covers outcome = true) as Hcov.
    { match goal with E : credit_record outcome = _ |- _ => unfold credit_record in E end. unfold covers.
      destruct (bool_decide (outcome = "overpaid")); [by rewrite orb_true_r|]. by destruct (bool_decide (outcome = _)). }
    rewrite Hcov in Hcred. destruct (credited_paid _ _ _ _ _ _ B Hb Hcred) as (_ & Hzero & _).
    fold i in Hzero. rewrite Hzero in Ha. by destruct (is_row _ _). }
  destruct (claimed_fulfillments _ _ _ A Hcl) as (_ & (f & Hf & _) & _). split; [by eexists|].
  intros t decision Hd Hset. rewrite Ed in Hd.
  apply lookup_insert_Some in Hd as [[_ <-]|[_ Hd]]; [congruence|].
  destruct (agr_covered _ A _ _ _ Hd) as [(f' & Hf' & _) _]; [by rewrite Hset|]. fold i in Hf'. congruence.
Qed.

(** C22: An overpayment closes its rail.  When a settlement has recorded an
    overpaid order, a reconciliation run on the tables as the settlement
    left them, while the fulfilment is in the run's window (and few enough
    are on record for one check), reports the
    fulfilment as not settled, ends in a hard stop, and closes the rail of
    the asset the order was quoted in, although the books balance. *)
Theorem overpayment_closes_the_rail lease command window kind (s s1 s2 : Session R) report s3 asset :
  accounted self (committed s) -> pg_settle lease command s = (Ok RecOverpaid, s1) ->
  committed s2 = committed s1 ->
  let i := sc_payment_intent_id command in
  latest_asset i (committed s2) = Some asset ->
  (forall fulfilment, payment_fulfillments (committed s2) !! i = Some fulfilment ->
     (clock_now s2).1 - rw_lookback window <= fr_claimed_at fulfilment < (clock_now s2).1) ->
  Z.of_nat (size (payment_fulfillments (committed s2))) < FINDINGS_PER_CHECK ->
  run_once window kind s2 = (Ok report, s3) ->
  balanced (committed s2)
  /\ mkDiscrepancy FulfilledNotSettled None (Some i) (Some asset) (JObject []) ∈ rp_discrepancies report
  /\ rp_status report = RunHardStop /\ rail_closed asset (committed s3).
Proof.
  intros A Hset E2 i Hasset Hwin Hsize Hrun. destruct (overpaid_order _ _ _ _ A Hset) as [[f Hf] Hns].
  pose proof (pg_settle_balanced _ _ _ _ _ (gov_balanced _ _ (proj1 A)) Hset) as B1.
  split; [by rewrite E2|]. fold i in Hf, Hns. rewrite <- E2 in Hf, Hns.
  assert (committed (clock_now s2).2 = committed s2) as E0.
  { pose proof (clock_same (E := ReconciliationError) s2) as Hc. unfold read_clock in Hc. by destruct (clock_now s2). }
  destruct (run_once_tables _ _ _ _ _ Hrun) as (_ & Hcl & _).
  apply run_once_Ok in Hrun as (record & w1 & w2 & w3 & _ & _ & Hff & _ & Hst & Hscan & _).
  assert (mkDiscrepancy FulfilledNotSettled None (Some i) (Some asset) (JObject []) ∈ rp_discrepancies report) as Hin.
  { apply scan_Ok in Hscan as (_ & others1 & others2 & Hrows & _). rewrite E0, Hff in Hrows. rewrite Hrows.
    unfold money_rows. apply elem_of_app. right. apply elem_of_app. left.
    do 2 (apply elem_of_app; right). apply elem_of_app. left. unfold unsettled_rows.
    match goal with |- _ ∈ limited (omap ?g ?l) =>
      destruct (limited_omap_complete g l (i, f) (mkDiscrepancy FulfilledNotSettled None (Some i) (Some asset) (JObject [])))
        as [?|Hlen]; [..|done|] end.
    - by apply elem_of_map_to_list.
    - rewrite (proj2 (in_window_spec _ _ _) (Hwin f Hf)), (proj2 (is_settled_spec _ _) Hns). cbn. by rewrite Hasset.
    - exfalso. unfold limited in Hlen. rewrite length_take in Hlen. pose proof (length_omap_le (fun '(intent, fulfilment) =>
        if in_window ((clock_now s2).1 - rw_lookback window) (clock_now s2).1 (fr_claimed_at fulfilment)
           && negb (is_settled intent (committed s2))
        then Some (found FulfilledNotSettled None (Some intent) (latest_asset intent (committed s2)) (JObject []))
        else None) (map_to_list (payment_fulfillments (committed s2)))) as Hle.
      rewrite length_map_to_list in Hle. unfold FINDINGS_PER_CHECK in *. lia. }
  split_and!; [done| |].
  - rewrite Hst. apply run_status_hard. by eexists.
  - apply Hcl. by eexists.
Qed.
End kept_books.

(** ** One order, paid exactly or too much *)

Import ReferenceInstances.

(** A server whose clock moves on. *)
#[local] Instance ticking_postgres : Postgres Z := {|
  next_fault r := (None, r); commit_fate r := (Committed, r); database_now r := (100, r);
  now_utc r := (r, r + 1); now_v7 r := (r, r + 1); random_uuid r := (r, r + 1);
  sql_error_text e := match e with SqlOther d => d | _ => "error" end; session_user := "gateway" |}.

Definition arrived (amount : Z) : TransferRow := mkTransferRow 1 7 ("tron", "nile", "testnet", "abcdef01", 0)
  10 "block" 50 (repeat x01 20) (repeat x03 20) "TFrom" (repeat x02 20) "T" amount 6 None "policy" "v1" 0.
Definition walk_event (id : Z) (previous : option string) (state : string) : StateEventRow :=
  mkStateEventRow id previous state "verifier" (Some "block") (Some 30) (Some "policy v1") 0.
Definition paid_with (amount : Z) : Database :=
  on_state_events (fun _ => {[ (1, 1) := walk_event 1 None "canonical";
                               (1, 2) := walk_event 2 (Some "canonical") "confirmed";
                               (1, 3) := walk_event 3 (Some "confirmed") "finalized" ]})
    (on_transfers (fun _ => {[1 := arrived amount]}) sample_database).
Definition paid_session (amount : Z) : Session Z := mkSession (paid_with amount) (paid_with amount) 0 100.
Definition overpaid_command : SettlementCommand := {|
  sc_transfer_id := 1; sc_attempt_id := 1; sc_payment_intent_id := 1; sc_merchant_id := 1;
  sc_fiat_amount_minor := 50; sc_match_strategy := ByMemo; sc_outcome := Overpaid (mkRawAmount 1000) (mkRawAmount 500);
  sc_policy_version := "v1"; sc_independent_groups := 2; sc_had_own_node := true;
  sc_finality_state := Finalized; sc_risk := Skipped; sc_risk_evaluation_id := None;
  sc_attestation_ids := [1; 2] |}.
Definition after_settlement : Session Z := (settle_pending sample_lease 10 (paid_session 1000)).2.
Definition after_overpayment : Session Z := (pg_settle sample_lease overpaid_command (paid_session 1500)).2.

Lemma paid_balanced amount : 0 <= amount -> balanced (paid_with amount).
Proof.
  intros Ha. destruct sample_balanced as [B1 B2 B3 B4 B5 B6 B7]. split; [| |exact B3|exact B4|exact B5|exact B6|exact B7].
  2: { intros a t al Hal. change (payment_allocations _) with (∅ : gmap (Z * Z) AllocationRow) in Hal. by rewrite lookup_empty in Hal. }
  intros t row Hrow. destruct (B1 t row Hrow) as [Htot _]. split; [exact Htot|].
  change (chain_transfer_processing _) with ({[1 := sample_processing]} : gmap Z ProcessingRow) in Hrow.
  apply lookup_singleton_Some in Hrow as [<- <-]. exists (arrived amount). by split.
Qed.
Lemma paid_accounted amount : 0 <= amount -> accounted OperationsService_new (paid_with amount).
Proof.
  intros Ha. split; split; [by apply paid_balanced|..].
  - intros a t al Hal. change (payment_allocations _) with (∅ : gmap (Z * Z) AllocationRow) in Hal. by rewrite lookup_empty in Hal.
  - intros k key row x Hrow. change (manual_resolution_requests _) with (∅ : gmap (Z * string) ResolutionRow) in Hrow.
    by rewrite lookup_empty in Hrow.
  - intros i t row Hrow. change (payment_settlement_decisions _) with (∅ : gmap (Z * Z) DecisionRow) in Hrow.
    by rewrite lookup_empty in Hrow.
  - intros i Hi. change (payment_fulfillments _) with (∅ : gmap Z FulfillmentRow) in Hi.
    rewrite lookup_empty in Hi. by destruct Hi.
Qed.

Lemma money_discrepancy_closes_its_rail_witness :
  exists report s', run_once ReconciliationWindow_default Daily after_overpayment = (Ok report, s')
    /\ rp_status report = RunHardStop /\ rail_closed 1 (committed s').
Proof.
  destruct (run_once ReconciliationWindow_default Daily after_overpayment) as [[report|e] s'] eqn:Hrun;
    [|vm_compute in Hrun; discriminate Hrun].
  exists report, s'. split; [done|].
  pose proof (money_discrepancy_closes_its_rail ReconciliationWindow_default Daily after_overpayment report s' Hrun)
    as (_ & _ & _ & Hclosed & _). cbv zeta in Hclosed.
  assert (rp_discrepancies report = [mkDiscrepancy FulfilledNotSettled None (Some 1) (Some 1) (JObject [])]
    /\ rp_status report = RunHardStop) as [Hd Hs].
  { vm_compute in Hrun. injection Hrun as <- _. split; reflexivity. }
  split; [exact Hs|]. apply Hclosed. rewrite Hd. eexists. split; [apply list_elem_of_singleton; reflexivity|]. clear.
  split; reflexivity.
Defined.

Lemma overpayment_closes_the_rail_witness :
  exists report s', run_once ReconciliationWindow_default Daily after_overpayment = (Ok report, s')
    /\ balanced (committed after_overpayment) /\ rail_closed 1 (committed s').
Proof.
  destruct (run_once ReconciliationWindow_default Daily after_overpayment) as [[report|e] s'] eqn:Hrun;
    [|vm_compute in Hrun; discriminate Hrun].
  exists report, s'. split; [done|].
  assert (pg_settle sample_lease overpaid_command (paid_session 1500) = (Ok RecOverpaid, after_overpayment)) as Hset
    by (vm_compute; reflexivity).
  assert (exists f, payment_fulfillments (committed after_overpayment) !! 1 = Some f /\ fr_claimed_at f = 100
    /\ (clock_now after_overpayment).1 = 107) as (f & Hf & Hc & Ht) by (eexists; vm_compute; split_and!; reflexivity).
  destruct (overpayment_closes_the_rail OperationsService_new sample_lease overpaid_command
    ReconciliationWindow_default Daily (paid_session 1500) after_overpayment after_overpayment report s' 1
    (paid_accounted 1500 ltac:(lia)) Hset eq_refl) as (Hb & _ & _ & Hclosed).
  - vm_compute. reflexivity.
  - intros f' Hf'. change (sc_payment_intent_id overpaid_command) with 1 in Hf'. rewrite Hf in Hf'. injection Hf' as <-.
    rewrite Hc, Ht. split; [vm_compute; intros [=]|lia].
  - vm_compute. reflexivity.
  - exact Hrun.
  - split; [exact Hb|exact Hclosed].
Defined.

Lemma kept_books_raise_no_other_alarm_witness :
  exists report s', run_once ReconciliationWindow_default Daily after_settlement = (Ok report, s')
    /\ size (payment_fulfillments (committed after_settlement)) = 1%nat
    /\ rp_status report <> RunHardStop /\ rail_stops (committed s') = rail_stops (committed after_settlement).
Proof.
  destruct (run_once ReconciliationWindow_default Daily after_settlement) as [[report|e] s'] eqn:Hrun;
    [|vm_compute in Hrun; discriminate Hrun].
  exists report, s'. split; [done|]. split; [vm_compute; reflexivity|].
  destruct (kept_books_raise_no_other_alarm OperationsService_new ReconciliationWindow_default Daily
    (paid_session 1000) after_settlement report s' (paid_accounted 1000 ltac:(lia))
    (rtc_once _ _ (step_settlement OperationsService_new sample_lease 10 (paid_session 1000)))
    Hrun) as [_ Hquiet].
  apply Hquiet; clear.
  2: { intros a t allocation state _ Hcur.
    assert (chain_transfer_state_current (committed after_settlement) = {[1 := mkStateRow "finalized" 3 0]}) as E
      by (vm_compute; reflexivity).
    rewrite E in Hcur. clear E. apply lookup_singleton_Some in Hcur as [_ <-]. discriminate. }
  intros key decision Hd.
  assert (forallb (fun row => negb (String.eqb (dr_outcome row.2) "overpaid"))
    (map_to_list (payment_settlement_decisions (committed after_settlement))) = true) as Hall by (vm_compute; reflexivity).
  revert Hd Hall. generalize (payment_settlement_decisions (committed after_settlement)). clear. intros decisions Hd Hall Ho.
  rewrite forallb_forall in Hall. specialize (Hall (key, decision)).
  rewrite <- list_elem_of_In, elem_of_map_to_list in Hall. specialize (Hall Hd). cbn in Hall. by rewrite Ho in Hall.
Defined.
