(* ===== verification/RateLimit.v ===== *)
(** * Request budgets ([gateway-http/src/rate_limit.rs])

    The token buckets behind the limits per merchant and per client address.
    An [Instant] is its nanoseconds; the map of buckets is a [gmap]; [u128]
    arithmetic is written out with its saturation and its wrap-around. *)

From Stdlib Require Import Ascii String.
From stdpp Require Import gmap strings.
From S2P Require Import Prelude RustStd.

Local Open Scope Z_scope.

Definition MAX_TRACKED_KEYS : Z := 100000.
Definition TOKEN : Z := 1000000.

Definition U128_MAX : Z := 2 ^ 128 - 1.
Definition u128_saturating_add (a b : Z) : Z := saturate 0 U128_MAX (a + b).
Definition u128_saturating_sub (a b : Z) : Z := saturate 0 U128_MAX (a - b).
Definition u128_saturating_mul (a b : Z) : Z := saturate 0 U128_MAX (a * b).
(** [*] on [u128] in a release build. *)
Definition u128_mul (a b : Z) : Z := (a * b) mod 2 ^ 128.
Definition div_ceil (a b : Z) : Z := if a mod b =? 0 then a / b else a / b + 1.
(** [now.saturating_duration_since(since).as_millis()] *)
Definition elapsed_millis (since now : Z) : Z := Z.max 0 (now - since) / 1000000.

Record Budget := mkBudget {
  bu_limit : Z;                              (* u32 *)
  bu_buckets : gmap string (Z * Z);          (* units, and the instant they were counted at *)
}.

Module Budget.

Definition per_minute (limit : Z) : Budget := mkBudget limit ∅.

Definition capacity (self : Budget) : Z := u128_mul (bu_limit self) TOKEN.

Definition refilled (self : Budget) (units since now : Z) : Z :=
  Z.min (u128_saturating_add units
           (u128_mul (u128_saturating_mul (elapsed_millis since now) (bu_limit self)) TOKEN / 60000))
    (capacity self).

Definition wait_seconds (self : Budget) (units : Z) : Z :=
  let missing := u128_saturating_sub TOKEN units in
  let per_minute := u128_mul (bu_limit self) TOKEN in
  let seconds := div_ceil (u128_mul missing 60) per_minute in
  Z.max (default U64_MAX (u64_try_from seconds)) 1.

(** The buckets that [retain] leaves: those that have not refilled. *)
Definition retained (self : Budget) (now : Z) : gmap string (Z * Z) :=
  filter (fun entry => refilled self entry.2.1 entry.2.2 now < capacity self) (bu_buckets self).
Definition tracked (self : Budget) (key : string) (now : Z) : gmap string (Z * Z) :=
  if (MAX_TRACKED_KEYS <=? Z.of_nat (size (bu_buckets self))) && bool_decide (bu_buckets self !! key = None)
  then retained self now
  else bu_buckets self.

Definition take (self : Budget) (key : string) (now : Z) : result Z unit * Budget :=
  if bu_limit self =? 0 then (Ok tt, self)
  else
    let buckets := tracked self key now in
    let '(units, at_) := default (capacity self, now) (buckets !! key) in
    let available := refilled self units at_ now in
    let keep units := mkBudget (bu_limit self) (<[key := (units, now)]> buckets) in
    if TOKEN <=? available then (Ok tt, keep (available - TOKEN))
    else (Err (wait_seconds self available), keep available).

Definition has_token (self : Budget) (key : string) (now : Z) : result Z unit :=
  if bu_limit self =? 0 then Ok tt
  else
    match bu_buckets self !! key with
    | None => Ok tt
    | Some (units, at_) =>
        let available := refilled self units at_ now in
        if TOKEN <=? available then Ok tt else Err (wait_seconds self available)
    end.

End Budget.
Import Budget.

(** ** Arithmetic stays in range *)

Definition is_instant (t : Z) : Prop := 0 <= t < 2 ^ 63 * 1000000000.
(** What a bucket gains in [d] nanoseconds, before the ceiling. *)
Definition gain (self : Budget) (d : Z) : Z := d / 1000000 * bu_limit self * TOKEN / 60000.

Record wf (self : Budget) (t : Z) : Prop := {
  wf_limit : 0 < bu_limit self <= U32_MAX;
  wf_bucket key units at_ : bu_buckets self !! key = Some (units, at_) ->
    0 <= units <= bu_limit self * TOKEN /\ 0 <= at_ <= t;
}.

Lemma capacity_eq self t : wf self t -> capacity self = bu_limit self * TOKEN.
Proof.
  intros [Hl _]. unfold capacity, u128_mul. apply Z.mod_small. unfold U32_MAX, TOKEN in *. lia.
Qed.

Lemma refilled_eq self t units since now :
  wf self t -> 0 <= units <= bu_limit self * TOKEN -> 0 <= since <= now -> is_instant now ->
  refilled self units since now = Z.min (units + gain self (now - since)) (bu_limit self * TOKEN).
Proof.
  intros W Hu Hs Hn. unfold refilled. rewrite (capacity_eq _ _ W). destruct W as [Hl _].
  unfold elapsed_millis. rewrite Z.max_r by lia. unfold gain, is_instant in *.
  set (ms := (now - since) / 1000000).
  assert (0 <= ms < 2 ^ 63 * 1000) as Hms.
  { unfold ms. split; [apply Z.div_pos; lia|apply Z.div_lt_upper_bound; lia]. }
  assert (0 <= ms * bu_limit self <= 2 ^ 63 * 1000 * U32_MAX) as Hp by (unfold U32_MAX in *; nia).
  unfold u128_saturating_mul, saturate. rewrite (Z.max_r 0), (Z.min_r U128_MAX)
    by (unfold U128_MAX, U32_MAX in *; lia).
  unfold u128_mul. rewrite Z.mod_small by (unfold U32_MAX, TOKEN in *; lia).
  assert (0 <= ms * bu_limit self * TOKEN / 60000 <= 2 ^ 110) as Hg.
  { split; [apply Z.div_pos; unfold TOKEN; lia|]. apply Z.div_le_upper_bound; unfold U32_MAX, TOKEN in *; lia. }
  unfold u128_saturating_add, saturate. unfold U128_MAX, U32_MAX, TOKEN in *. lia.
Qed.

Lemma gain_nonneg self d : 0 <= bu_limit self -> 0 <= d -> 0 <= gain self d.
Proof.
  intros. unfold gain. apply Z.div_pos; [|lia]. assert (0 <= d / 1000000) by (apply Z.div_pos; lia). unfold TOKEN. nia.
Qed.

(** Rounding never adds: two stretches gain no more than the whole. *)
Lemma div_superadditive a b c : 0 < c -> a / c + b / c <= (a + b) / c.
Proof.
  intros Hc. apply Z.div_le_lower_bound; [done|].
  pose proof (Z.mul_div_le a c Hc). pose proof (Z.mul_div_le b c Hc). lia.
Qed.
Lemma gain_add self d e : 0 <= bu_limit self -> gain self d + gain self e <= gain self (d + e).
Proof.
  intros Hl. unfold gain. etransitivity; [apply div_superadditive; lia|].
  apply Z.div_le_mono; [lia|]. pose proof (div_superadditive d e 1000000 ltac:(lia)). unfold TOKEN in *. nia.
Qed.
Lemma gain_mono self d e : 0 <= bu_limit self -> d <= e -> gain self d <= gain self e.
Proof.
  intros Hl Hd. unfold gain. apply Z.div_le_mono; [lia|].
  assert (d / 1000000 <= e / 1000000) by (apply Z.div_le_mono; lia). unfold TOKEN in *. nia.
Qed.

(** ** One call *)

(** The bucket a key is served from: a key that is not tracked has a full
    one. *)
Definition bucket (self : Budget) (key : string) (now : Z) : Z * Z :=
  default (bu_limit self * TOKEN, now) (bu_buckets self !! key).
(** What the key can take from at [now]. *)
Definition available (self : Budget) (key : string) (now : Z) : Z :=
  let '(units, at_) := bucket self key now in
  Z.min (units + gain self (now - at_)) (bu_limit self * TOKEN).

Lemma wf_later self t t' : wf self t -> t <= t' -> wf self t'.
Proof. intros [Hl Hb] Ht. split; [done|]. intros key u a Hk. destruct (Hb _ _ _ Hk). lia. Qed.

Lemma bucket_wf self t key now : wf self t -> 0 <= t <= now ->
  0 <= (bucket self key now).1 <= bu_limit self * TOKEN /\ 0 <= (bucket self key now).2 <= now.
Proof.
  intros [Hl Hb] Ht. unfold bucket. destruct (bu_buckets self !! key) as [[u a]|] eqn:Hk; cbn.
  - destruct (Hb _ _ _ Hk). lia.
  - unfold TOKEN. lia.
Qed.

Lemma available_range self t key now : wf self t -> 0 <= t <= now ->
  0 <= available self key now <= bu_limit self * TOKEN.
Proof.
  intros W Ht. destruct (bucket_wf _ _ key _ W Ht) as [Hu Ha]. unfold available. destruct (bucket self key now) as [u a].
  cbn in *. pose proof (gain_nonneg self (now - a) ltac:(destruct W; lia) ltac:(lia)). lia.
Qed.

Lemma tracked_key self key now : tracked self key now !! key = bu_buckets self !! key.
Proof.
  unfold tracked. destruct (_ <=? _); [|done]. cbn. case_bool_decide as Hn; [|done]. rewrite Hn.
  unfold retained. apply map_lookup_filter_None. by left.
Qed.

(** A call changes the caller's bucket, and drops only buckets that had
    refilled. *)
Lemma tracked_other self t key other now : wf self t -> 0 <= t <= now -> is_instant now ->
  tracked self key now !! other = bu_buckets self !! other
  \/ tracked self key now !! other = None /\ available self other now = bu_limit self * TOKEN.
Proof.
  intros W Ht Hn. unfold tracked. destruct (_ && _); [|by left]. unfold retained.
  destruct (bu_buckets self !! other) as [[u a]|] eqn:Ho; [|left; apply map_lookup_filter_None; by left].
  destruct (wf_bucket _ _ W _ _ _ Ho) as [Hu Ha].
  destruct (decide (refilled self u a now < capacity self)) as [Hlt|Hge].
  - left. by apply map_lookup_filter_Some.
  - right. split; [apply map_lookup_filter_None; right; intros x Hx; by simplify_eq|].
    unfold available, bucket. rewrite Ho. cbn. rewrite (refilled_eq _ _ _ _ _ W Hu) in Hge by (done || lia).
    rewrite (capacity_eq _ _ W) in Hge. lia.
Qed.

Lemma take_spec self t key now : wf self t -> 0 <= t <= now -> is_instant now ->
  let taken := if TOKEN <=? available self key now then TOKEN else 0 in
  take self key now
  = (if TOKEN <=? available self key now then Ok tt else Err (wait_seconds self (available self key now)),
     mkBudget (bu_limit self) (<[key := (available self key now - taken, now)]> (tracked self key now))).
Proof.
  intros W Ht Hn taken. unfold take, taken. destruct (wf_limit _ _ W) as [Hl _].
  destruct (Z.eqb_spec (bu_limit self) 0) as [?|_]; [lia|]. rewrite tracked_key, (capacity_eq _ _ W).
  change (default (bu_limit self * TOKEN, now) (bu_buckets self !! key)) with (bucket self key now).
  destruct (bucket_wf _ _ key _ W Ht) as [Hu Ha]. unfold available. destruct (bucket self key now) as [u a]. cbn in Hu, Ha.
  rewrite (refilled_eq _ _ _ _ _ W Hu) by (done || lia). cbv zeta.
  generalize (Z.min (u + gain self (now - a)) (bu_limit self * TOKEN)). intros x. destruct (TOKEN <=? x); [done|]. by rewrite Z.sub_0_r.
Qed.

Lemma take_wf self t key now : wf self t -> 0 <= t <= now -> is_instant now -> wf (take self key now).2 now.
Proof.
  intros W Ht Hn. rewrite (take_spec _ _ _ _ W Ht Hn). pose proof (available_range _ _ key _ W Ht) as Hr.
  split; [apply W|]. cbn [snd bu_limit bu_buckets]. intros k u a Hk.
  apply lookup_insert_Some in Hk as [[<- [= <- <-]]|[Hne Hk]].
  - destruct (Z.leb_spec TOKEN (available self key now)); unfold TOKEN in *; lia.
  - destruct (tracked_other _ _ key k _ W Ht Hn) as [E|[E _]]; rewrite E in Hk; [|done].
    destruct (wf_bucket _ _ W _ _ _ Hk). lia.
Qed.

(** Waiting adds what the time is worth, and no more. *)
Lemma available_later self t key now later : wf self t -> 0 <= t <= now -> now <= later ->
  available self key now <= available self key later.
Proof.
  intros W Ht Hl. unfold available, bucket. destruct (bu_buckets self !! key) as [[u a]|] eqn:Hk; cbn.
  - pose proof (gain_mono self (now - a) (later - a) ltac:(destruct W; lia) ltac:(lia)). lia.
  - rewrite !Z.sub_diag. lia.
Qed.

(** ** Over time *)

(** A sequence of calls, in the order they hold the lock: which were
    granted, and the budget after them. *)
Fixpoint takes (self : Budget) (calls : list (string * Z)) : list (string * bool) * Budget :=
  match calls with
  | [] => ([], self)
  | (key, now) :: calls =>
      let '(answer, self) := take self key now in
      let '(outcomes, self) := takes self calls in
      ((key, match answer with Ok _ => true | Err _ => false end) :: outcomes, self)
  end.
Definition granted (key : string) (outcomes : list (string * bool)) : Z :=
  Z.of_nat (length (filter (fun outcome => outcome.1 = key /\ outcome.2 = true) outcomes)).

(** The instants never go back, and lie in a window. *)
Fixpoint in_order (t0 t1 : Z) (calls : list (string * Z)) : Prop :=
  match calls with
  | [] => True
  | (_, now) :: calls => t0 <= now <= t1 /\ in_order now t1 calls
  end.

(** What a key can still be granted up to [t1], in units. *)
Definition worth (self : Budget) (key : string) (t t1 : Z) : Z :=
  let '(units, at_) := bucket self key t in units + gain self (t1 - at_).

Lemma granted_cons key k (b : bool) outcomes :
  granted key ((k, b) :: outcomes) = (if bool_decide (k = key) && b then 1 else 0) + granted key outcomes.
Proof.
  unfold granted. rewrite filter_cons. destruct b; case_bool_decide as Hk; case_decide as Hd; cbn in *;
    try lia; exfalso; naive_solver.
Qed.

Lemma take_worth self t key k now t1 : wf self t -> 0 <= t <= now -> now <= t1 -> is_instant now ->
  TOKEN * granted key [(k, match (take self k now).1 with Ok _ => true | Err _ => false end)]
  + worth (take self k now).2 key now t1 <= worth self key t t1.
Proof.
  intros W Ht Hn1 Hn. rewrite granted_cons. rewrite (take_spec _ _ _ _ W Ht Hn). cbn [fst snd].
  change (granted key []) with 0. assert (0 <= bu_limit self) as Hl by (destruct W; lia).
  destruct (decide (k = key)) as [->|Hne].
  - rewrite bool_decide_true by done. unfold worth, bucket at 1. cbn [bu_buckets]. rewrite lookup_insert_eq. cbn [default].
    enough (available self key now + gain self (t1 - now) <= (let '(units, at_) := bucket self key t in units + gain self (t1 - at_))).
    { change (gain (mkBudget _ _)) with (gain self). destruct (TOKEN <=? available self key now); cbn; lia. }
    unfold available, bucket. destruct (bu_buckets self !! key) as [[u a]|]; cbn.
    + pose proof (gain_add self (now - a) (t1 - now) Hl). replace (now - a + (t1 - now)) with (t1 - a) in * by lia. lia.
    + rewrite Z.sub_diag. pose proof (gain_mono self (t1 - now) (t1 - t) Hl ltac:(lia)). lia.
  - rewrite bool_decide_false by done. cbn [andb]. unfold worth, bucket. cbn [bu_buckets bu_limit].
    rewrite lookup_insert_ne by done. change (gain (mkBudget _ _)) with (gain self).
    destruct (tracked_other _ _ k key _ W Ht Hn) as [->|[-> Hfull]].
    + destruct (bu_buckets self !! key) as [[u a]|]; cbn; [lia|].
      pose proof (gain_mono self (t1 - now) (t1 - t) Hl ltac:(lia)). lia.
    + cbn. unfold available, bucket in Hfull. destruct (bu_buckets self !! key) as [[u a]|]; cbn in *.
      * pose proof (gain_add self (now - a) (t1 - now) Hl). replace (now - a + (t1 - now)) with (t1 - a) in * by lia. lia.
      * pose proof (gain_mono self (t1 - now) (t1 - t) Hl ltac:(lia)). lia.
Qed.

Lemma worth_nonneg self t key t1 : wf self t -> 0 <= t <= t1 -> 0 <= worth self key t t1.
Proof.
  intros W Ht. destruct (bucket_wf self t key t W ltac:(lia)) as [Hu Ha]. unfold worth. destruct (bucket self key t) as [u a].
  cbn in Hu, Ha. pose proof (gain_nonneg self (t1 - a) ltac:(destruct W; lia) ltac:(lia)). lia.
Qed.

Lemma takes_worth calls : forall self t key t1, wf self t -> 0 <= t <= t1 -> is_instant t1 -> in_order t t1 calls ->
  TOKEN * granted key (takes self calls).1 <= worth self key t t1.
Proof.
  induction calls as [|[k now] calls IH]; intros self t key t1 W Ht Hn1; cbn [takes in_order].
  { intros _. by apply worth_nonneg. }
  intros [Hnow Hord]. assert (is_instant now) as Hn by (unfold is_instant in *; lia).
  pose proof (take_worth self t key k now t1 W ltac:(lia) ltac:(lia) Hn) as Hw.
  pose proof (take_wf self t k now W ltac:(lia) Hn) as W'. destruct (take self k now) as [answer self']. cbn [fst snd] in *.
  specialize (IH self' now key t1 W' ltac:(lia) Hn1 Hord). destruct (takes self' calls) as [outcomes self'']. cbn [fst] in *.
  rewrite granted_cons in Hw |- *. change (granted key []) with 0 in Hw. lia.
Qed.

(** A budget rations each key.  Whatever calls are made and however
    often buckets are dropped to save memory, in any stretch of time a key is
    granted at most its limit at once and the limit per minute after that,
    counted in whole milliseconds. *)
Theorem budget_rations self t0 t1 key calls :
  wf self t0 -> 0 <= t0 <= t1 -> is_instant t1 -> in_order t0 t1 calls ->
  granted key (takes self calls).1 <= bu_limit self + (t1 - t0) / 1000000 * bu_limit self / 60000.
Proof.
  intros W Ht Hn1 Hord. assert (0 < bu_limit self) as Hl by (destruct W; lia).
  enough (TOKEN * granted key (takes self calls).1 <= bu_limit self * TOKEN + gain self (t1 - t0)) as Hg.
  { unfold gain in Hg. set (m := (t1 - t0) / 1000000 * bu_limit self) in *.
    enough (granted key (takes self calls).1 - bu_limit self <= m / 60000) by lia.
    apply Z.div_le_lower_bound; [lia|]. pose proof (Z.mul_div_le (m * TOKEN) 60000 ltac:(lia)). clearbody m.
    set (q := m * TOKEN / 60000) in *. clearbody q. unfold TOKEN in *. nia. }
  revert self t0 W Ht Hl Hord. induction calls as [|[k now] calls IH]; intros self t0 W Ht Hl; cbn [takes in_order].
  { intros _. cbn [fst]. change (granted key []) with 0. pose proof (gain_nonneg self (t1 - t0) ltac:(lia) ltac:(lia)).
    unfold TOKEN in *. lia. }
  intros [Hnow Hord]. assert (is_instant now) as Hn by (unfold is_instant in *; lia).
  pose proof (take_wf self t0 k now W ltac:(lia) Hn) as W'.
  pose proof (takes_worth calls (take self k now).2 now key t1 W' ltac:(lia) Hn1 Hord) as Hw.
  specialize (IH (take self k now).2 now W' ltac:(lia)). pose proof (available_range self t0 key now W ltac:(lia)) as Hr.
  rewrite (take_spec self t0 k now W ltac:(lia) Hn) in Hw, IH |- *. cbn [fst snd bu_limit] in *.
  change (gain (mkBudget _ _)) with (gain self) in IH. specialize (IH Hl Hord).
  pose proof (gain_mono self (t1 - now) (t1 - t0) ltac:(lia) ltac:(lia)).
  destruct (takes (mkBudget _ _) calls) as [outcomes self']. cbn [fst] in *. rewrite granted_cons.
  case_bool_decide as Hk; [subst k|cbn; lia]. unfold worth, bucket in Hw. cbn [bu_buckets] in Hw. rewrite lookup_insert_eq in Hw.
  cbn in Hw. change (gain (mkBudget _ _)) with (gain self) in Hw.
  destruct (TOKEN <=? available self key now); cbn; lia.
Qed.

(** ** Refusals *)

Lemma div_ceil_spec a b : 0 < b -> forall n, div_ceil a b <= n <-> a <= n * b.
Proof.
  intros Hb n. unfold div_ceil. pose proof (Z.div_mod a b ltac:(lia)) as Hd. pose proof (Z.mod_pos_bound a b Hb).
  destruct (Z.eqb_spec (a mod b) 0); nia.
Qed.

Lemma wait_seconds_eq self t units : wf self t -> 0 <= units < TOKEN ->
  wait_seconds self units = div_ceil ((TOKEN - units) * 60) (bu_limit self * TOKEN)
  /\ 1 <= wait_seconds self units <= 60.
Proof.
  intros W Hu. pose proof (capacity_eq _ _ W) as Hc. unfold capacity in Hc. destruct W as [Hl _].
  unfold wait_seconds. rewrite Hc. unfold u128_saturating_sub, saturate.
  rewrite (Z.min_r U128_MAX (TOKEN - units)), (Z.max_r 0 (TOKEN - units)) by (unfold U128_MAX, TOKEN in *; lia).
  unfold u128_mul. rewrite Z.mod_small by (unfold TOKEN in *; lia).
  assert (1 <= div_ceil ((TOKEN - units) * 60) (bu_limit self * TOKEN) <= 60) as Hr.
  { split; [|apply div_ceil_spec; unfold TOKEN in *; nia].
    destruct (Z.le_gt_cases 1 (div_ceil ((TOKEN - units) * 60) (bu_limit self * TOKEN))) as [|Hlt]; [done|].
    assert (div_ceil ((TOKEN - units) * 60) (bu_limit self * TOKEN) <= 0) as H0 by lia.
    apply div_ceil_spec in H0; unfold TOKEN in *; lia. }
  unfold u64_try_from, checked, in_range. rewrite (proj2 (Z.leb_le _ _)), (proj2 (Z.leb_le _ _)) by (unfold U64_MAX; lia).
  cbn. lia.
Qed.

Lemma has_token_spec self t key now : wf self t -> 0 <= t <= now -> is_instant now ->
  has_token self key now
  = if TOKEN <=? available self key now then Ok tt else Err (wait_seconds self (available self key now)).
Proof.
  intros W Ht Hn. unfold has_token. destruct (wf_limit _ _ W) as [Hl _].
  destruct (Z.eqb_spec (bu_limit self) 0) as [?|_]; [lia|]. unfold available, bucket.
  destruct (bu_buckets self !! key) as [[u a]|] eqn:Hk; cbn.
  - destruct (wf_bucket _ _ W _ _ _ Hk) as [Hu Ha]. rewrite (refilled_eq _ _ _ _ _ W Hu) by (done || lia). done.
  - pose proof (gain_nonneg self (now - now) ltac:(lia) ltac:(lia)). rewrite Z.min_r by lia.
    destruct (Z.leb_spec TOKEN (bu_limit self * TOKEN)) as [_|Hc]; [done|]. unfold TOKEN in Hc. lia.
Qed.

(** The wait named is enough to gain what is missing, and a second less is
    not. *)
Lemma wait_enough self t x d : wf self t -> 0 <= x < TOKEN -> wait_seconds self x * 1000000000 <= d ->
  TOKEN - x <= gain self d.
Proof.
  intros W Hx Hd. destruct (wait_seconds_eq self t x W Hx) as [Hw _]. set (seconds := wait_seconds self x) in *.
  assert (0 < bu_limit self) as Hl by (destruct W; lia).
  unfold gain. apply Z.div_le_lower_bound; [lia|].
  assert (seconds * 1000 <= d / 1000000) by (apply Z.div_le_lower_bound; lia).
  assert ((TOKEN - x) * 60 <= seconds * (bu_limit self * TOKEN)) by (apply div_ceil_spec; unfold TOKEN in *; lia).
  unfold TOKEN in *. nia.
Qed.

Lemma wait_needed self t x d : wf self t -> 0 <= x < TOKEN -> d <= (wait_seconds self x - 1) * 1000000000 ->
  gain self d < TOKEN - x.
Proof.
  intros W Hx Hd. destruct (wait_seconds_eq self t x W Hx) as [Hw _]. set (seconds := wait_seconds self x) in *.
  assert (0 < bu_limit self) as Hl by (destruct W; lia).
  unfold gain. apply Z.div_lt_upper_bound; [lia|].
  assert (d / 1000000 <= (seconds - 1) * 1000) by (apply Z.lt_succ_r, Z.div_lt_upper_bound; lia).
  assert (~ (TOKEN - x) * 60 <= (seconds - 1) * (bu_limit self * TOKEN)).
  { intros Hc. apply div_ceil_spec in Hc; [lia|unfold TOKEN in *; lia]. }
  unfold TOKEN in *. nia.
Qed.

(** Cutting a stretch in two loses less than a second is worth. *)
Lemma gain_split self d e : 0 < bu_limit self -> gain self (d + e) <= gain self d + gain self (e + 1000000000).
Proof.
  intros Hl. unfold gain.
  assert ((d + e) / 1000000 <= d / 1000000 + (e + 1000000000) / 1000000 - 999).
  { replace (e + 1000000000) with (e + 1000 * 1000000) by lia. rewrite Z.div_add by lia.
    pose proof (Z.div_mod d 1000000 ltac:(lia)). pose proof (Z.mod_pos_bound d 1000000 ltac:(lia)).
    pose proof (Z.div_mod e 1000000 ltac:(lia)). pose proof (Z.mod_pos_bound e 1000000 ltac:(lia)).
    apply Z.lt_succ_r, Z.div_lt_upper_bound; lia. }
  set (a := d / 1000000) in *. set (b := (e + 1000000000) / 1000000) in *. unfold TOKEN.
  etransitivity; [apply (Z.div_le_mono _ ((a + b - 999) * bu_limit self * 1000000)); nia|].
  pose proof (Z.div_mod (a * bu_limit self * 1000000) 60000 ltac:(lia)).
  pose proof (Z.mod_pos_bound (a * bu_limit self * 1000000) 60000 ltac:(lia)).
  pose proof (Z.div_mod (b * bu_limit self * 1000000) 60000 ltac:(lia)).
  pose proof (Z.mod_pos_bound (b * bu_limit self * 1000000) 60000 ltac:(lia)).
  apply Z.lt_succ_r, Z.div_lt_upper_bound; lia.
Qed.

(** C19: The wait a refusal names can be relied on.  It is between one and
    sixty seconds.  After a refused [take] it is exact: when that time has
    passed the next call is served, and a whole second before it, the call
    would still be refused.  After a refusal by [has_token], which counts
    nothing into the bucket, a call that waits as told is served too, and two
    whole seconds earlier it would still be refused. *)
Theorem retry_after_is_exact self t key now seconds :
  wf self t -> 0 <= t <= now -> is_instant now ->
  (forall self', take self key now = (Err seconds, self') ->
     1 <= seconds <= 60
     /\ forall later, now <= later -> is_instant later ->
        (now + seconds * 1000000000 <= later ->
           has_token self' key later = Ok tt /\ (take self' key later).1 = Ok tt)
        /\ (later <= now + (seconds - 1) * 1000000000 ->
           has_token self' key later <> Ok tt /\ (take self' key later).1 <> Ok tt))
  /\ (has_token self key now = Err seconds ->
     1 <= seconds <= 60
     /\ forall later, now <= later -> is_instant later ->
        (now + seconds * 1000000000 <= later ->
           has_token self key later = Ok tt /\ (take self key later).1 = Ok tt)
        /\ (later <= now + (seconds - 2) * 1000000000 ->
           has_token self key later <> Ok tt /\ (take self key later).1 <> Ok tt)).
Proof.
  intros W Ht Hn. pose proof (available_range self t key now W Ht) as Hr.
  assert (0 < bu_limit self) as Hl by (destruct W; lia).
  assert (TOKEN <= bu_limit self * TOKEN) as Hc by (unfold TOKEN; lia).
  split.
  - intros self' Htake. pose proof (take_wf self t key now W Ht Hn) as W'. rewrite Htake in W'. cbn in W'.
    rewrite (take_spec _ _ _ _ W Ht Hn) in Htake.
    destruct (Z.leb_spec TOKEN (available self key now)) as [?|Hlt]; [done|]. injection Htake as Hs Hself.
    destruct (wait_seconds_eq self t (available self key now) W ltac:(lia)) as [_ Hrange]. rewrite Hs in Hrange.
    split; [done|]. intros later Hlater Hin.
    rewrite (has_token_spec _ _ _ _ W') by (done || lia). rewrite (take_spec _ _ _ _ W') by (done || lia). cbn [fst].
    assert (available self' key later = Z.min (available self key now + gain self (later - now)) (bu_limit self * TOKEN)) as ->.
    { rewrite <- Hself. unfold available at 1. unfold bucket. cbn [bu_buckets bu_limit]. rewrite lookup_insert_eq. cbn.
      by rewrite Z.sub_0_r. }
    split; intros Hd.
    + pose proof (wait_enough self t (available self key now) (later - now) W ltac:(lia) ltac:(lia)).
      rewrite (proj2 (Z.leb_le _ _)) by lia. done.
    + pose proof (wait_needed self t (available self key now) (later - now) W ltac:(lia) ltac:(lia)).
      rewrite (proj2 (Z.leb_gt _ _)) by lia. done.
  - intros Href. rewrite (has_token_spec _ _ _ _ W Ht Hn) in Href.
    destruct (Z.leb_spec TOKEN (available self key now)) as [?|Hlt]; [done|]. injection Href as Hs.
    destruct (wait_seconds_eq self t (available self key now) W ltac:(lia)) as [_ Hrange]. rewrite Hs in Hrange.
    split; [done|]. intros later Hlater Hin.
    rewrite (has_token_spec _ _ _ _ W) by (done || lia). rewrite (take_spec _ _ _ _ W) by (done || lia). cbn [fst].
    assert (exists units at_, (forall n, available self key n = Z.min (units + gain self (n - at_)) (bu_limit self * TOKEN)))
      as (units & at_ & Hav).
    { unfold available, bucket in *. destruct (bu_buckets self !! key) as [[u a]|]; cbn in *; [by exists u, a|].
      pose proof (gain_nonneg self (now - now) ltac:(lia) ltac:(lia)). lia. }
    assert (available self key now = units + gain self (now - at_)) as Hx by (rewrite Hav in *; lia).
    rewrite (Hav later). split; intros Hd.
    + pose proof (wait_enough self t (available self key now) (later - now) W ltac:(lia) ltac:(lia)).
      pose proof (gain_add self (now - at_) (later - now) ltac:(lia)) as Ha.
      replace (now - at_ + (later - now)) with (later - at_) in Ha by lia.
      rewrite (proj2 (Z.leb_le _ _)) by lia. done.
    + pose proof (wait_needed self t (available self key now) (later - now + 1000000000) W ltac:(lia) ltac:(lia)).
      pose proof (gain_split self (now - at_) (later - now) Hl) as Ha.
      replace (now - at_ + (later - now)) with (later - at_) in Ha by lia.
      rewrite (proj2 (Z.leb_gt _ _)) by lia. done.
Qed.

(** Calls of one key, each less than a millisecond after the one before. *)
Fixpoint hammering (key : string) (t : Z) (calls : list (string * Z)) : Prop :=
  match calls with
  | [] => True
  | (k, now) :: calls => k = key /\ t <= now < t + 1000000 /\ is_instant now /\ hammering key now calls
  end.

(** A caller that retries more than once per millisecond is never served
    again: every call, refused or not, restarts the count of whole
    milliseconds, so nothing is ever added to its bucket. *)
Theorem hammering_is_never_served calls : forall self key t units,
  wf self t -> bu_buckets self !! key = Some (units, t) -> units < TOKEN -> hammering key t calls ->
  granted key (takes self calls).1 = 0.
Proof.
  induction calls as [|[k now] calls IH]; intros self key t units W Hk Hu; cbn [takes hammering]; [done|].
  intros (-> & Hnow & Hn & Hrest). destruct (wf_bucket _ _ W _ _ _ Hk) as [Hu0 Ht].
  pose proof (take_wf self t key now W ltac:(lia) Hn) as W'. rewrite (take_spec self t key now W ltac:(lia) Hn) in W' |- *.
  assert (available self key now = units) as E.
  { unfold available, bucket. rewrite Hk. change (default _ (Some _)) with (units, t). cbv iota beta. unfold gain.
    rewrite (Z.div_small (now - t)), !Z.mul_0_l, Z.div_0_l by lia. lia. }
  rewrite E in *. rewrite (proj2 (Z.leb_gt _ _)) in * by lia. cbn [fst snd] in *. rewrite Z.sub_0_r in *.
  specialize (IH _ key now units W' ltac:(cbn; apply lookup_insert_eq) Hu Hrest).
  destruct (takes (mkBudget _ _) calls) as [outcomes self']. cbn [fst] in *. rewrite granted_cons, IH. by rewrite andb_false_r.
Qed.

(** A new budget is well formed, and has every token of every key. *)
Lemma per_minute_wf limit t : 0 < limit <= U32_MAX -> wf (per_minute limit) t.
Proof. intros Hl. split; [done|]. intros key u a Hk. cbn in Hk. by rewrite lookup_empty in Hk. Qed.

Lemma takes_wf calls : forall self t t1, wf self t -> 0 <= t <= t1 -> is_instant t1 -> in_order t t1 calls ->
  wf (takes self calls).2 t1.
Proof.
  induction calls as [|[k now] calls IH]; intros self t t1 W Ht Hn1; cbn [takes in_order].
  { intros _. apply (wf_later _ t); [done|lia]. }
  intros [Hnow Hord]. assert (is_instant now) as Hn by (unfold is_instant in *; lia).
  pose proof (take_wf self t k now W ltac:(lia) Hn) as W'. destruct (take self k now) as [answer self']. cbn [snd] in W'.
  specialize (IH self' now t1 W' ltac:(lia) Hn1 Hord). by destruct (takes self' calls).
Qed.

(** ** The budget of three of the unit tests *)

Definition burst : list (string * Z) :=
  [("m"%string, 0); ("m"%string, 0); ("other"%string, 0); ("m"%string, 0); ("m"%string, 0)].

Lemma retry_after_is_exact_witness :
  let spent := (takes (per_minute 3) burst).2 in
  (exists spent', take spent "m" 1000000 = (Err 20, spent')
    /\ (take spent' "m" (1000000 + 20 * 1000000000)).1 = Ok tt
    /\ (take spent' "m" (1000000 + 19 * 1000000000)).1 <> Ok tt)
  /\ has_token spent "m" 1000000 = Err 20 /\ has_token spent "m" (1000000 + 20 * 1000000000) = Ok tt.
Proof.
  assert (wf (takes (per_minute 3) burst).2 0) as W
    by (apply (takes_wf _ _ 0); [apply per_minute_wf; unfold U32_MAX; lia|lia|unfold is_instant; lia|cbn; lia]).
  cbv zeta. set (spent := (takes (per_minute 3) burst).2) in *.
  assert (take spent "m" 1000000 = (Err 20, (take spent "m" 1000000).2)) as Ht by (vm_compute; reflexivity).
  assert (has_token spent "m" 1000000 = Err 20) as Hh by (vm_compute; reflexivity).
  destruct (retry_after_is_exact spent 0 "m" 1000000 20 W ltac:(lia) ltac:(unfold is_instant; lia)) as [Htake Hhas].
  destruct (Htake _ Ht) as [_ Hl]. destruct (Hhas Hh) as [_ Hl'].
  assert (forall later, 0 <= later <= 1000000000000 -> is_instant later) as Hin by (unfold is_instant; lia).
  split; [exists (take spent "m" 1000000).2; split; [exact Ht|split]|split; [exact Hh|]].
  - exact (proj2 (proj1 (Hl (1000000 + 20 * 1000000000) ltac:(lia) ltac:(apply Hin; lia)) ltac:(lia))).
  - exact (proj2 (proj2 (Hl (1000000 + 19 * 1000000000) ltac:(lia) ltac:(apply Hin; lia)) ltac:(lia))).
  - exact (proj1 (proj1 (Hl' (1000000 + 20 * 1000000000) ltac:(lia) ltac:(apply Hin; lia)) ltac:(lia))).
Defined.
