(* ===== verification/Http.v ===== *)
(** * The HTTP API ([gateway-http/src]: auth.rs, error.rs, rate_limit.rs,
    lib.rs and handlers)

    A request as the framework hands it to the code: its route with the
    parameters of the path, a lookup in its headers, its peer, its body.
    Decoding of bodies and of header text, and the answers of the framework's
    own rejections, are parameters.  A middleware takes the rest of the stack
    as [next]; a handler calls a service and builds the answer.  The routes
    that change state are here, with the two reads that belong to them. *)

From Stdlib Require Import Ascii String Strings.Byte.
From stdpp Require Import gmap strings.
From S2P Require Import Prelude RustStd Externals Effects RustNet Money PaymentIntent Quote Price Settlement Observations Operations Merchant RateLimit.

Local Open Scope string_scope.
Local Open Scope Z_scope.

(** ** Texts of the errors *)

Definition QuoteError_to_string (e : QuoteError) : string :=
  match e with
  | UnknownPrice => "price is unknown"
  | UnknownPolicy => "quote policy is unknown"
  | UnknownRailHealth => "rail health is unknown"
  | StalePrice => "price is stale or future-dated"
  | StalePolicy => "quote policy is stale or future-dated"
  | StaleRailHealth => "rail health is stale or future-dated"
  | UnhealthyRail => "rail is not healthy enough for a new quote"
  | InvalidPriceSources => "price sources must name at least two distinct provider groups"
  | InvalidCollectorAddress => "collector address must contain between 1 and 200 characters"
  | InvalidPolicy => "quote policy is invalid"
  | QuoteMoney error => MoneyError_to_string error
  end.
Definition ServiceError_to_string (e : ServiceError) : string :=
  match e with
  | SvcInvalidIdempotencyKey => "idempotency key must contain 16 to 128 URL-safe characters"
  | SvcNotFound => "payment intent was not found"
  | InvalidCancellationReason => "the cancellation reason must be at most 500 characters"
  | SvcMoney error => MoneyError_to_string error
  | SvcPaymentIntent error => PaymentIntentError_to_string error
  | SvcRepository error => RepositoryError_to_string error
  | SvcInternal detail => String.append "internal error: " detail
  end.
Definition QuoteServiceError_to_string (e : QuoteServiceError) : string :=
  match e with
  | QsInvalidIdempotencyKey => "idempotency key must contain 16 to 128 URL-safe characters"
  | PaymentIntentNotFound => "payment intent was not found"
  | InvalidExpiryBatchLimit => "expiry batch limit must be between 1 and 10000"
  | RailStopped reason => String.append "this rail is closed: " reason
  | CapacityExhausted => "every address for this merchant holds its maximum of open reservations"
  | QsQuote error => QuoteError_to_string error
  | QsRepository error => RepositoryError_to_string error
  end.

Inductive ApiError :=
  | Unauthorized
  | InvalidJson
  | ApiService (e : ServiceError)
  | ApiQuote (e : QuoteServiceError)
  | ApiRepository (e : RepositoryError)
  | ApiOperations (e : OperationsError)
  | ApiPaymentIntentNotFound
  | CheckoutNotFound
  | RateLimited (retry_after_seconds : Z)
  | Internal (detail : string).
Definition ApiError_to_string (e : ApiError) : string :=
  match e with
  | Unauthorized => "authentication failed"
  | InvalidJson => "request body does not match the endpoint schema"
  | ApiService error => ServiceError_to_string error
  | ApiQuote error => QuoteServiceError_to_string error
  | ApiRepository error => RepositoryError_to_string error
  | ApiOperations error => OperationsError_to_string error
  | ApiPaymentIntentNotFound => "payment intent not found"
  | CheckoutNotFound => "payment page not found"
  | RateLimited seconds =>
      String.append "too many requests; retry after " (String.append (dec_unsigned seconds) " seconds")
  | Internal detail => String.append "internal error: " detail
  end.

(** ** Answers *)

Record PriceSnapshotResponse := mkPriceSnapshotResponse {
  psr_snapshot_id : Z;
  psr_rate_numerator : string;
  psr_rate_denominator : string;
  psr_source_group_count : Z;
  psr_deviation_bps : Z;
  psr_observed_at : Z;
}.
Record RailStopResponse := mkRailStopResponse {
  rsr_id : Z;
  rsr_asset_id : Z;
  rsr_reason_code : string;
  rsr_detail : option string;
  rsr_opened_by : string;
  rsr_opened_at : Z;
}.
Record ManualResolutionResponse := mkManualResolutionResponse {
  mrr_id : Z;
  mrr_action : ManualResolutionAction;
  mrr_transfer_id : Z;
  mrr_payment_intent_id : option Z;
  mrr_attempt_id : option Z;
  mrr_merchant_id : option Z;
  mrr_allocated_raw : option string;
  mrr_remainder_raw : option string;
  mrr_replayed : bool;
}.
Record RedeliveryResponse := mkRedeliveryResponse {
  rdr_id : Z;
  rdr_event_id : Z;
  rdr_merchant_id : Z;
  rdr_endpoint_id : option Z;
  rdr_previous_state : string;
  rdr_previous_attempts : Z;
  rdr_requested_at : Z;
  rdr_replayed : bool;
}.
Record HonorProposalResponse := mkHonorProposalResponse {
  hpr_id : Z;
  hpr_status : string;
  hpr_transfer_id : Z;
  hpr_payment_intent_id : Z;
  hpr_attempt_id : Z;
  hpr_merchant_id : Z;
  hpr_allocate_raw : string;
  hpr_threshold_raw : string;
  hpr_reason : string;
  hpr_evidence : json;
  hpr_proposed_by_key_id : Z;
  hpr_proposed_by_label : string;
  hpr_created_at : Z;
  hpr_expires_at : Z;
  hpr_decided_by_key_id : option Z;
  hpr_decided_by_label : option string;
  hpr_decision_reason : option string;
  hpr_decided_at : option Z;
  hpr_resolution_id : option Z;
  hpr_replayed : bool;
}.
Record ListResponse (T : Type) := mkListResponse { ls_items : list T; ls_next_before : option Z }.
Arguments mkListResponse {T}.
Arguments ls_items {T}.
Arguments ls_next_before {T}.

(** What an answer carries; [Json] serializes it. *)
Inductive ResponseBody :=
  | BodyEmpty
  | BodyError (code message : string)
  | BodyIntent (intent : PaymentIntent)
  | BodyQuote (quote : IssuedQuote)
  | BodyPrice (price : PriceSnapshotResponse)
  | BodyAccepted (id : Z)
  | BodyRailStop (stop : RailStopResponse)
  | BodyResolution (resolution : ManualResolutionResponse)
  | BodyRedelivery (redelivery : RedeliveryResponse)
  | BodyProposal (proposal : HonorProposalResponse)
  | BodyProposals (proposals : ListResponse HonorProposalResponse).
Record Response := mkResponse {
  rs_status : Z;
  rs_headers : list (string * string);
  rs_body : ResponseBody;
}.
Definition no_headers (status : Z) (body : ResponseBody) : Response := mkResponse status [] body.

(** [handlers::status_for] *)
Definition status_for (error : OperationsError) : Z * string :=
  match error with
  | MissingScope _ => (403, "missing_scope")
  | RiskProviderNotAllowed => (403, "risk_provider_not_allowed")
  | OpNoReadings | ReasonRequired | InvalidPageLimit | InvalidIdempotencyKey | InvalidManualResolution
  | OpRedelivery (RedInvalidIdempotencyKey | RedReasonRequired) => (400, "invalid_request")
  | ManualResolutionNotFound => (404, "manual_resolution_not_found")
  | ManualResolutionConflict => (409, "manual_resolution_conflict")
  | DualControlRequired => (409, "dual_control_required")
  | SameOperator => (403, "dual_control_same_operator")
  | HonorProposalNotFound => (404, "honor_proposal_not_found")
  | HonorProposalNotPending => (409, "honor_proposal_not_pending")
  | HonorProposalExpired => (409, "honor_proposal_expired")
  | ExportRangeInvalid => (400, "export_range_invalid")
  | ExportTooLarge => (422, "export_too_large")
  | InvalidRiskEvaluation => (422, "invalid_risk_evaluation")
  | NoPricePolicy => (409, "no_price_policy")
  | NoOpenRailStop => (409, "no_open_rail_stop")
  | OpPrice _ => (422, "price_not_agreed")
  | UnknownScope _ | SnapshotNotRecorded => (500, "internal_error")
  | OpRepository IdempotencyConflict | OpRedelivery RedIdempotencyConflict => (409, "idempotency_conflict")
  | OpRedelivery EventNotFound => (404, "webhook_event_not_found")
  | OpRedelivery EndpointNotFound => (404, "webhook_endpoint_not_found")
  | OpRedelivery StillQueued => (409, "webhook_event_still_queued")
  | OpRedelivery NotAWebhook => (409, "not_a_webhook_event")
  | OpRepository _ | OpRedelivery (RedRepository _) => (503, "storage_unavailable")
  end.

Definition CAPACITY_RETRY_AFTER_SECONDS : Z := 60.
Definition retry_after (e : ApiError) : option Z :=
  match e with
  | RateLimited seconds => Some seconds
  | ApiQuote CapacityExhausted => Some CAPACITY_RETRY_AFTER_SECONDS
  | _ => None
  end.
(** Status, code and message: one flat table. *)
Definition error_row (e : ApiError) : Z * string * string :=
  let error_message := ApiError_to_string e in
  match e with
  | RateLimited _ => (429, "rate_limited", error_message)
  | ApiQuote CapacityExhausted => (503, "quote_capacity_exhausted", error_message)
  | Unauthorized => (401, "authentication_failed", "a valid merchant API key is required")
  | InvalidJson => (400, "invalid_request", error_message)
  | ApiService SvcInvalidIdempotencyKey | ApiQuote QsInvalidIdempotencyKey =>
      (400, "invalid_idempotency_key", error_message)
  | ApiService SvcNotFound | ApiQuote PaymentIntentNotFound | ApiPaymentIntentNotFound =>
      (404, "payment_intent_not_found", error_message)
  | ApiService (SvcRepository IdempotencyConflict) | ApiQuote (QsRepository IdempotencyConflict)
  | ApiRepository IdempotencyConflict => (409, "idempotency_conflict", error_message)
  | ApiService (SvcRepository DuplicateReference) | ApiRepository DuplicateReference =>
      (409, "payment_intent_reference_conflict", error_message)
  | ApiService (SvcMoney _ | SvcPaymentIntent _ | InvalidCancellationReason) =>
      (422, "invalid_request", error_message)
  | ApiService (SvcRepository PaymentIntentNotCancellable) =>
      (409, "payment_intent_not_cancellable", error_message)
  | ApiQuote (QsRepository PaymentIntentNotQuotable) => (409, "payment_intent_not_quotable", error_message)
  | ApiQuote (QsQuote _ | QsRepository (CollectorUnavailable | AmountSlotsExhausted)) =>
      (503, "quote_unavailable", "a safe quote cannot be issued right now")
  | ApiQuote (RailStopped _) => (503, "rail_stopped", error_message)
  | CheckoutNotFound => (404, "checkout_not_found", error_message)
  | Internal _ => (500, "internal_error", "the request could not be completed")
  | ApiOperations operations =>
      let '(status, code) := status_for operations in (status, code, error_message)
  | ApiService _ | ApiQuote _ | ApiRepository _ =>
      (500, "internal_error", "the request could not be completed")
  end.
Definition into_response (e : ApiError) : Response :=
  let '(status, code, message) := error_row e in
  {| rs_status := status;
     rs_headers := match retry_after e with
                   | Some seconds => [("retry-after", dec_unsigned seconds)]
                   | None => []
                   end;
     rs_body := BodyError code message |}.

(** ** Requests *)

Record MerchantAuth := mkMerchantAuth { ma_credential : ApiCredential }.
Record OperatorAuth := mkOperatorAuth { oa_credential : OperatorCredential }.

(** The routes of [payment_intent_routes] and [operator_routes]; a parameter
    of the path is [None] where it is not a UUID. *)
Inductive MerchantRoute :=
  | CreateIntent
  | GetIntent (intent_id : option Z)
  | CreateQuote (intent_id : option Z)
  | CancelIntent (intent_id : option Z).
Inductive OperatorRoute :=
  | PriceSnapshots
  | RailHealthRoute
  | RailStops
  | ClearRailStopRoute (asset_id : option Z)
  | RiskEvaluations (transfer_id : option Z)
  | ManualResolutions
  | RedeliverEvent (event_id : option Z)
  | ProposeHonor
  | PendingHonors
  | ApproveHonor (proposal_id : option Z)
  | RejectHonor (proposal_id : option Z).
Inductive Route := ToMerchant (route : MerchantRoute) | ToOperator (route : OperatorRoute).

Record Request := mkRequest {
  rq_route : Route;
  rq_is_get : bool;                               (* request.method() == Method::GET *)
  rq_header : string -> option (list byte);       (* headers().get(name) *)
  rq_peer : option SocketAddr;                    (* ConnectInfo *)
  rq_merchant : option MerchantAuth;              (* extensions *)
  rq_operator : option OperatorAuth;
  rq_query : string;
  rq_body : list byte;
}.
Definition with_merchant (auth : MerchantAuth) (rq : Request) : Request :=
  mkRequest (rq_route rq) (rq_is_get rq) (rq_header rq) (rq_peer rq) (Some auth) (rq_operator rq) (rq_query rq) (rq_body rq).
Definition with_operator (auth : OperatorAuth) (rq : Request) : Request :=
  mkRequest (rq_route rq) (rq_is_get rq) (rq_header rq) (rq_peer rq) (rq_merchant rq) (Some auth) (rq_query rq) (rq_body rq).

(** *** Bodies *)

Record IssueQuoteBody := mkIssueQuoteBody { iq_asset_id : Z }.
Record CancelPaymentIntent := mkCancelPaymentIntent { cn_reason : option string }.
Record PriceReadingBody := mkPriceReadingBody {
  prb_source_key : string;
  prb_provider_group : string;
  prb_rate_numerator : string;
  prb_rate_denominator : string;
  prb_observed_at : Z;
}.
Record PriceSubmission := mkPriceSubmission {
  ps_asset_id : Z;
  ps_fiat_currency : string;
  ps_readings : list PriceReadingBody;
}.
Record RailHealthBody := mkRailHealthBody { rh_asset_id : Z; rh_health : RailHealth; rh_detail : option string }.
Record OpenRailStopBody := mkOpenRailStopBody {
  or_asset_id : Z;
  or_reason_code : string;
  or_detail : option string;
}.
Record ClearRailStopBody := mkClearRailStopBody { cl_reason : string }.
Record RiskEvaluationBody := mkRiskEvaluationBody {
  re_provider : string;
  re_decision : RiskDecision;
  re_score : option Z;
  re_reasons : option json;
  re_evaluated_at : Z;
}.
Record ManualResolutionBody := mkManualResolutionBody {
  mb_action : ManualResolutionAction;
  mb_transfer_id : Z;
  mb_payment_intent_id : option Z;
  mb_attempt_id : option Z;
  mb_allocate_raw : option string;
  mb_remainder_raw : option string;
  mb_disposition : option RemainderDisposition;
  mb_external_reference : option string;
  mb_reason : string;
}.
Record RedeliveryBody := mkRedeliveryBody { yb_endpoint_id : option Z; yb_reason : string }.
Record ProposeHonorBody := mkProposeHonorBody {
  pb_transfer_id : Z;
  pb_payment_intent_id : Z;
  pb_attempt_id : Z;
  pb_allocate_raw : string;
  pb_reason : string;
}.
Record DecisionBody := mkDecisionBody { db_reason : string }.
Record PageQuery := mkPageQuery { qy_limit : option Z; qy_before : option Z }.

(** serde's decoder of a type: the value, or [None] where the body is
    rejected. *)
Class FromJson (T : Type) := json_of : Request -> option T.

(** The framework (axum, http) and the decoders it calls: the text of a header
    value, the JSON body of each route, the optional body and the query with
    the answer the framework gives itself, and its answers to a path parameter
    that is not a UUID and to a missing extension. *)
Class Framework := {
  to_str : list byte -> option string;
  #[global] decode_create :: FromJson CreatePaymentIntent;
  #[global] decode_quote :: FromJson IssueQuoteBody;
  #[global] decode_price :: FromJson PriceSubmission;
  #[global] decode_rail_health :: FromJson RailHealthBody;
  #[global] decode_open_stop :: FromJson OpenRailStopBody;
  #[global] decode_clear_stop :: FromJson ClearRailStopBody;
  #[global] decode_risk :: FromJson RiskEvaluationBody;
  #[global] decode_resolution :: FromJson ManualResolutionBody;
  #[global] decode_redelivery :: FromJson RedeliveryBody;
  #[global] decode_propose :: FromJson ProposeHonorBody;
  #[global] decode_decision :: FromJson DecisionBody;
  decode_cancel : Request -> result Response (option CancelPaymentIntent);
  decode_page : Request -> result Response PageQuery;
  path_rejection : Response;
  missing_extension : Response;
}.

(** ** The world of a request

    The services' world, the budgets behind their locks, and the monotonic
    clock: [elapse] is how far it moved since it was last read, and it never
    moves back. *)

Record RateLimitConfig := mkRateLimitConfig {
  merchant_writes_per_minute : Z;
  merchant_reads_per_minute : Z;
  auth_failures_per_minute : Z;
  checkout_reads_per_minute : Z;
  client_ip_header : option string;
}.
Definition RateLimitConfig_default : RateLimitConfig := mkRateLimitConfig 600 3000 30 600 None.
Record RateLimits := mkRateLimits {
  rt_config : RateLimitConfig;
  rt_merchant_writes : Budget;
  rt_merchant_reads : Budget;
  rt_auth_failures : Budget;
  rt_checkout_reads : Budget;
}.
Definition RateLimits_new (config : RateLimitConfig) : RateLimits := {|
  rt_config := config;
  rt_merchant_writes := Budget.per_minute (merchant_writes_per_minute config);
  rt_merchant_reads := Budget.per_minute (merchant_reads_per_minute config);
  rt_auth_failures := Budget.per_minute (auth_failures_per_minute config);
  rt_checkout_reads := Budget.per_minute (checkout_reads_per_minute config) |}.

Record HttpWorld (W : Type) := mkHttpWorld { hw_world : W; hw_limits : RateLimits; hw_instant : Z }.
Arguments mkHttpWorld {W}.
Arguments hw_world {W}.
Arguments hw_limits {W}.
Arguments hw_instant {W}.
Class Monotonic (W : Type) := { elapse : W -> Z * W }.

(** Which budget a middleware takes from. *)
Inductive BudgetName := MerchantWrites | MerchantReads | AuthFailures | CheckoutReads.
Definition budget_of (name : BudgetName) (limits : RateLimits) : Budget :=
  match name with
  | MerchantWrites => rt_merchant_writes limits
  | MerchantReads => rt_merchant_reads limits
  | AuthFailures => rt_auth_failures limits
  | CheckoutReads => rt_checkout_reads limits
  end.
Definition set_budget (name : BudgetName) (budget : Budget) (limits : RateLimits) : RateLimits :=
  let '(mkRateLimits config writes reads failures checkout) := limits in
  match name with
  | MerchantWrites => mkRateLimits config budget reads failures checkout
  | MerchantReads => mkRateLimits config writes budget failures checkout
  | AuthFailures => mkRateLimits config writes reads budget checkout
  | CheckoutReads => mkRateLimits config writes reads failures budget
  end.

(** [value.rsplit(',').next()]: what follows the last comma. *)
Fixpoint after_last_comma (acc s : string) : string :=
  match s with
  | EmptyString => acc
  | String c s => if Ascii.eqb c "," then after_last_comma s s else after_last_comma acc s
  end.

Section api.
Context {W : Type} `{Monotonic W} `{Framework}.

Abbreviation api := (eff (HttpWorld W) ApiError).
Definition Next : Type := Request -> HttpWorld W -> Response * HttpWorld W.

(** A service call, in the world of the request. *)
Definition in_world {E A} (m : eff W E A) : eff (HttpWorld W) E A := fun w =>
  let '(r, world) := m (hw_world w) in (r, mkHttpWorld world (hw_limits w) (hw_instant w)).
Definition service {E A} (f : E -> ApiError) (m : eff W E A) : api A := eff_map_err f (in_world m).
Definition run (next : Next) (rq : Request) : api Response := fun w =>
  let '(response, w) := next rq w in (Ok response, w).
(** What the framework makes of the result of a handler or a middleware. *)
Definition respond (m : api Response) : HttpWorld W -> Response * HttpWorld W := fun w =>
  match m w with
  | (Ok response, w) => (response, w)
  | (Err error, w) => (into_response error, w)
  end.
(** [middleware::from_fn_with_state] *)
Definition layer (middleware : Next -> Request -> api Response) (next : Next) : Next :=
  fun rq => respond (middleware next rq).

(** [Instant::now] *)
Definition Instant_now {E} : eff (HttpWorld W) E Z := fun w =>
  let '(moved, world) := elapse (hw_world w) in
  let now := hw_instant w + Z.max 0 moved in
  (Ok now, mkHttpWorld world (hw_limits w) now).

(** ** Budgets *)

Definition client (limits : RateLimits) (rq : Request) : option IpAddr :=
  match client_ip_header (rt_config limits) with
  | Some header =>
      value ← rq_header rq header;
      value ← to_str value;
      parse_ip (trim (after_last_comma value value))
  | None => SocketAddr_ip <$> rq_peer rq
  end.

Definition charge (name : BudgetName) (key : string) (now : Z) : api unit := fun w =>
  let '(taken, budget) := Budget.take (budget_of name (hw_limits w)) key now in
  (map_err RateLimited taken,
   mkHttpWorld (hw_world w) (set_budget name budget (hw_limits w)) (hw_instant w)).
Definition check (name : BudgetName) (key : string) (now : Z) : api unit := fun w =>
  (map_err RateLimited (Budget.has_token (budget_of name (hw_limits w)) key now), w).
Definition take_from (name : BudgetName) (key : string) : api unit := now ← Instant_now; charge name key now.
Definition has_token_in (name : BudgetName) (key : string) : api unit := now ← Instant_now; check name key now.
Definition limits_of {E} : eff (HttpWorld W) E RateLimits := fun w => (Ok (hw_limits w), w).

Definition limit_auth_failures (next : Next) (rq : Request) : api Response :=
  limits ← limits_of;
  let client := IpAddr_to_string <$> client limits rq in
  _ ← match client with
      | Some client => has_token_in AuthFailures client
      | None => mret tt
      end;
  response ← run next rq;
  _ ← match client with
      | Some client =>
          if rs_status response =? 401
          then _ ← attempt (take_from AuthFailures client); mret tt
          else mret tt
      | None => mret tt
      end;
  mret response.

Context `{UuidLib}.
Definition limit_merchant (next : Next) (rq : Request) : api Response :=
  _ ← match rq_merchant rq with
      | Some auth =>
          take_from (if rq_is_get rq then MerchantReads else MerchantWrites)
            (uuid_to_string (ap_merchant_id (ma_credential auth)))
      | None => mret tt
      end;
  run next rq.

Definition limit_checkout (next : Next) (rq : Request) : api Response :=
  limits ← limits_of;
  _ ← match client limits rq with
      | Some client => take_from CheckoutReads (IpAddr_to_string client)
      | None => mret tt
      end;
  run next rq.

(** ** Authentication *)

Definition bearer (rq : Request) : result ApiError string :=
  header ← ok_or (value ← rq_header rq "authorization"; to_str value) Unauthorized;
  ok_or (value ← strip_prefix "Bearer " header;
         if in_range 32 256 (str_len value) then Some value else None) Unauthorized.

Context `{HashLib} `{PaymentIntentRepository W}.
Definition authenticate (next : Next) (rq : Request) : api Response :=
  secret ← lift (bearer rq);
  let secret_hash := sha256 (as_bytes secret) in
  credential ← service ApiRepository (authenticate_api_key secret_hash);
  credential ← lift (ok_or credential Unauthorized);
  run next (with_merchant (mkMerchantAuth credential) rq).

Context `{OperationsRepository W}.
Definition authenticate_operator (next : Next) (rq : Request) : api Response :=
  secret ← lift (bearer rq);
  let secret_hash := sha256 (as_bytes secret) in
  credential ← service ApiRepository (authenticate_operator_key secret_hash);
  credential ← lift (ok_or credential Unauthorized);
  run next (with_operator (mkOperatorAuth credential) rq).

(** ** Handlers *)

Definition extension {A} (o : option A) (handler : A -> api Response) : api Response :=
  match o with Some auth => handler auth | None => mret missing_extension end.
Definition path (o : option Z) (handler : Z -> api Response) : api Response :=
  match o with Some id => handler id | None => mret path_rejection end.
Definition extracted {A} (r : result Response A) (handler : A -> api Response) : api Response :=
  match r with Ok a => handler a | Err rejection => mret rejection end.
Definition json_body (T : Type) `{FromJson T} (rq : Request) : api T := lift (ok_or (json_of rq) InvalidJson).
Definition header_text (name : string) (rq : Request) : option string := value ← rq_header rq name; to_str value.
Definition replayed_header (replayed : bool) : list (string * string) :=
  [("idempotent-replayed", if replayed then "true" else "false")].
Definition created_unless (replayed : bool) : Z := if replayed then 200 else 201.

Context `{JsonLib} `{U256Lib} `{TimeLib} `{Clock W} `{UuidSource W} `{QuoteRepository W}.

(** *** payment_intents.rs and quotes.rs *)

Definition http_create (rq : Request) : api Response :=
  extension (rq_merchant rq) (fun auth =>
  input ← json_body CreatePaymentIntent rq;
  idempotency_key ← lift (ok_or (header_text "idempotency-key" rq) (ApiService SvcInvalidIdempotencyKey));
  result ← service ApiService (create (ap_merchant_id (ma_credential auth)) (ap_key_id (ma_credential auth))
    idempotency_key input);
  mret {| rs_status := created_unless (cp_replayed result);
          rs_headers := replayed_header (cp_replayed result);
          rs_body := BodyIntent (cp_intent result) |}).

Definition http_get_by_id (intent_id : option Z) (rq : Request) : api Response :=
  extension (rq_merchant rq) (fun auth =>
  path intent_id (fun intent_id =>
  intent ← service ApiService (get (ap_merchant_id (ma_credential auth)) intent_id);
  mret (no_headers 200 (BodyIntent intent)))).

Definition http_cancel (intent_id : option Z) (rq : Request) : api Response :=
  extension (rq_merchant rq) (fun auth =>
  path intent_id (fun intent_id =>
  extracted (decode_cancel rq) (fun payload =>
  idempotency_key ← lift (ok_or (header_text "idempotency-key" rq) (ApiService SvcInvalidIdempotencyKey));
  let input := default (mkCancelPaymentIntent None) payload in
  result ← service ApiService (cancel (ap_merchant_id (ma_credential auth)) (ap_key_id (ma_credential auth))
    idempotency_key intent_id (cn_reason input));
  mret {| rs_status := 200; rs_headers := replayed_header (cp_replayed result);
          rs_body := BodyIntent (cp_intent result) |}))).

Record AppState := mkAppState { st_quotes : QuoteService; st_operations : OperationsService }.
Context (state : AppState).

Definition http_quote (intent_id : option Z) (rq : Request) : api Response :=
  extension (rq_merchant rq) (fun auth =>
  path intent_id (fun intent_id =>
  body ← json_body IssueQuoteBody rq;
  idempotency_key ← lift (ok_or (header_text "idempotency-key" rq) (ApiQuote QsInvalidIdempotencyKey));
  result ← service ApiQuote (issue (st_quotes state) (ap_merchant_id (ma_credential auth))
    (ap_key_id (ma_credential auth)) idempotency_key (mkIssueQuote intent_id (iq_asset_id body)));
  mret {| rs_status := created_unless (ir_replayed result);
          rs_headers := replayed_header (ir_replayed result);
          rs_body := BodyQuote (ir_quote result) |})).

(** *** operator.rs *)

Definition parse_rate (value : string) : result ApiError RawAmount :=
  map_err (fun _ => InvalidJson) (RawAmount_from_str value).
Definition price_reading (reading : PriceReadingBody) : result ApiError PriceReading :=
  numerator ← parse_rate (prb_rate_numerator reading);
  denominator ← parse_rate (prb_rate_denominator reading);
  Ok {| pr_source_key := prb_source_key reading; pr_provider_group := prb_provider_group reading;
        pr_rate_numerator := numerator; pr_rate_denominator := denominator;
        pr_observed_at := prb_observed_at reading |}.
Definition http_submit_price (rq : Request) : api Response :=
  extension (rq_operator rq) (fun auth =>
  body ← json_body PriceSubmission rq;
  currency ← lift (map_err (fun _ => InvalidJson) (CurrencyCode_new (ps_fiat_currency body)));
  readings ← lift (collect price_reading (ps_readings body));
  recorded ← service ApiOperations (submit_price (oa_credential auth) (ps_asset_id body) currency readings);
  mret (no_headers 201 (BodyPrice {|
    psr_snapshot_id := rp_snapshot_id recorded; psr_rate_numerator := rp_rate_numerator recorded;
    psr_rate_denominator := rp_rate_denominator recorded; psr_source_group_count := rp_group_count recorded;
    psr_deviation_bps := rp_deviation_bps recorded; psr_observed_at := rp_observed_at recorded |}))).

Definition http_submit_rail_health (rq : Request) : api Response :=
  extension (rq_operator rq) (fun auth =>
  body ← json_body RailHealthBody rq;
  id ← service ApiOperations (submit_rail_health (oa_credential auth) (rh_asset_id body) (rh_health body)
    (rh_detail body));
  mret (no_headers 201 (BodyAccepted id))).

Definition http_open_rail_stop (rq : Request) : api Response :=
  extension (rq_operator rq) (fun auth =>
  body ← json_body OpenRailStopBody rq;
  stop ← service ApiOperations (open_rail_stop (oa_credential auth) (or_asset_id body) (or_reason_code body)
    (or_detail body));
  mret (no_headers 201 (BodyRailStop {|
    rsr_id := rl_id stop; rsr_asset_id := rl_asset_id stop; rsr_reason_code := rl_reason_code stop;
    rsr_detail := rl_detail stop; rsr_opened_by := rl_opened_by stop; rsr_opened_at := rl_opened_at stop |}))).

Definition http_clear_rail_stop (asset_id : option Z) (rq : Request) : api Response :=
  extension (rq_operator rq) (fun auth =>
  path asset_id (fun asset_id =>
  body ← json_body ClearRailStopBody rq;
  _ ← service ApiOperations (clear_rail_stop (oa_credential auth) asset_id (cl_reason body));
  mret (no_headers 204 BodyEmpty))).

Definition screening_reasons (reasons : option json) : result ApiError json :=
  match reasons with
  | Some (JObject fields) => Ok (JObject fields)
  | None => Ok (JObject [])
  | Some _ => Err InvalidJson
  end.
Definition http_submit_risk_evaluation (transfer_id : option Z) (rq : Request) : api Response :=
  extension (rq_operator rq) (fun auth =>
  path transfer_id (fun transfer_id =>
  body ← json_body RiskEvaluationBody rq;
  reasons ← lift (screening_reasons (re_reasons body));
  id ← service ApiOperations (submit_risk_evaluation (oa_credential auth) {|
    rb_transfer_id := transfer_id; rb_provider := re_provider body; rb_decision := re_decision body;
    rb_score := re_score body; rb_reasons := reasons; rb_evaluated_at := re_evaluated_at body |});
  mret (no_headers 201 (BodyAccepted id)))).

Definition parse_optional (value : option string) : result ApiError (option RawAmount) :=
  match value with
  | None => Ok None
  | Some v => a ← map_err (fun _ => InvalidJson) (RawAmount_from_str v); Ok (Some a)
  end.
Definition ManualResolutionResponse_from (result : ManualResolutionResult) : ManualResolutionResponse := {|
  mrr_id := mz_id result; mrr_action := mz_action result; mrr_transfer_id := mz_transfer_id result;
  mrr_payment_intent_id := mz_payment_intent_id result; mrr_attempt_id := mz_attempt_id result;
  mrr_merchant_id := mz_merchant_id result;
  mrr_allocated_raw := RawAmount_to_string <$> mz_allocated_raw result;
  mrr_remainder_raw := RawAmount_to_string <$> mz_remainder_raw result;
  mrr_replayed := mz_replayed result |}.
Definition http_resolve_manual (rq : Request) : api Response :=
  extension (rq_operator rq) (fun auth =>
  key ← lift (ok_or (header_text "idempotency-key" rq) InvalidJson);
  body ← json_body ManualResolutionBody rq;
  allocate ← lift (parse_optional (mb_allocate_raw body));
  remainder ← lift (parse_optional (mb_remainder_raw body));
  result ← service ApiOperations (resolve_manual (st_operations state) (oa_credential auth) key {|
    ma_action := mb_action body; ma_transfer_id := mb_transfer_id body;
    ma_payment_intent_id := mb_payment_intent_id body; ma_attempt_id := mb_attempt_id body;
    ma_allocate_raw := allocate; ma_remainder_raw := remainder; ma_disposition := mb_disposition body;
    ma_external_reference := mb_external_reference body; ma_reason := mb_reason body |});
  mret (no_headers (created_unless (mz_replayed result)) (BodyResolution (ManualResolutionResponse_from result)))).

Definition idempotency_key (rq : Request) : result ApiError string :=
  ok_or (header_text "idempotency-key" rq) InvalidJson.

Context `{RedeliveryRepository W}.
Definition http_redeliver_webhook (event_id : option Z) (rq : Request) : api Response :=
  extension (rq_operator rq) (fun auth =>
  path event_id (fun event_id =>
  key ← lift (idempotency_key rq);
  body ← json_body RedeliveryBody rq;
  result ← service ApiOperations (redeliver_webhook (oa_credential auth) key {|
    wr_event_id := event_id; wr_endpoint_id := yb_endpoint_id body; wr_reason := yb_reason body |});
  mret (no_headers (created_unless (rv_replayed result)) (BodyRedelivery {|
    rdr_id := rv_id result; rdr_event_id := rv_event_id result; rdr_merchant_id := rv_merchant_id result;
    rdr_endpoint_id := rv_endpoint_id result; rdr_previous_state := rv_previous_state result;
    rdr_previous_attempts := rv_previous_attempts result; rdr_requested_at := rv_requested_at result;
    rdr_replayed := rv_replayed result |})))).

(** *** honor_proposals.rs *)

Context `{HonorProposalRepository W}.
Definition HonorProposalResponse_from (v : HonorProposal) : HonorProposalResponse := {|
  hpr_id := hp_id v; hpr_status := ProposalStatus_as_str (hp_status v);
  hpr_transfer_id := hp_transfer_id v; hpr_payment_intent_id := hp_payment_intent_id v;
  hpr_attempt_id := hp_attempt_id v; hpr_merchant_id := hp_merchant_id v;
  hpr_allocate_raw := RawAmount_to_string (hp_allocate_raw v);
  hpr_threshold_raw := RawAmount_to_string (hp_threshold_raw v); hpr_reason := hp_reason v;
  hpr_evidence := hp_evidence v; hpr_proposed_by_key_id := hp_proposed_by_key_id v;
  hpr_proposed_by_label := hp_proposed_by_label v; hpr_created_at := hp_created_at v;
  hpr_expires_at := hp_expires_at v; hpr_decided_by_key_id := hp_decided_by_key_id v;
  hpr_decided_by_label := hp_decided_by_label v; hpr_decision_reason := hp_decision_reason v;
  hpr_decided_at := hp_decided_at v; hpr_resolution_id := hp_resolution_id v;
  hpr_replayed := hp_replayed v |}.
Definition http_propose (rq : Request) : api Response :=
  extension (rq_operator rq) (fun auth =>
  key ← lift (idempotency_key rq);
  body ← json_body ProposeHonorBody rq;
  allocate ← lift (map_err (fun _ => InvalidJson) (RawAmount_from_str (pb_allocate_raw body)));
  proposal ← service ApiOperations (propose_honor (st_operations state) (oa_credential auth) key {|
    ma_action := Honor; ma_transfer_id := pb_transfer_id body;
    ma_payment_intent_id := Some (pb_payment_intent_id body); ma_attempt_id := Some (pb_attempt_id body);
    ma_allocate_raw := Some allocate; ma_remainder_raw := None; ma_disposition := None;
    ma_external_reference := None; ma_reason := pb_reason body |});
  mret (no_headers (created_unless (hp_replayed proposal)) (BodyProposal (HonorProposalResponse_from proposal)))).

Definition http_pending (rq : Request) : api Response :=
  extension (rq_operator rq) (fun auth =>
  extracted (decode_page rq) (fun query =>
  page ← service ApiOperations (pending_honor_proposals (oa_credential auth) (qy_limit query) (qy_before query));
  mret (no_headers 200 (BodyProposals
    (mkListResponse (HonorProposalResponse_from <$> pg_items page) (pg_next_before page)))))).

Definition http_approve (proposal_id : option Z) (rq : Request) : api Response :=
  extension (rq_operator rq) (fun auth =>
  path proposal_id (fun proposal_id =>
  key ← lift (idempotency_key rq);
  body ← json_body DecisionBody rq;
  result ← service ApiOperations (approve_honor (oa_credential auth) proposal_id key (db_reason body));
  mret (no_headers (created_unless (mz_replayed result)) (BodyResolution (ManualResolutionResponse_from result))))).

Definition http_reject (proposal_id : option Z) (rq : Request) : api Response :=
  extension (rq_operator rq) (fun auth =>
  path proposal_id (fun proposal_id =>
  key ← lift (idempotency_key rq);
  body ← json_body DecisionBody rq;
  proposal ← service ApiOperations (reject_honor (oa_credential auth) proposal_id key (db_reason body));
  mret (no_headers 200 (BodyProposal (HonorProposalResponse_from proposal))))).

(** ** The router *)

Definition payment_intent_routes (route : MerchantRoute) : Next := fun rq =>
  respond (match route with
           | CreateIntent => http_create rq
           | GetIntent intent_id => http_get_by_id intent_id rq
           | CreateQuote intent_id => http_quote intent_id rq
           | CancelIntent intent_id => http_cancel intent_id rq
           end).
Definition operator_routes (route : OperatorRoute) : Next := fun rq =>
  respond (match route with
           | PriceSnapshots => http_submit_price rq
           | RailHealthRoute => http_submit_rail_health rq
           | RailStops => http_open_rail_stop rq
           | ClearRailStopRoute asset_id => http_clear_rail_stop asset_id rq
           | RiskEvaluations transfer_id => http_submit_risk_evaluation transfer_id rq
           | ManualResolutions => http_resolve_manual rq
           | RedeliverEvent event_id => http_redeliver_webhook event_id rq
           | ProposeHonor => http_propose rq
           | PendingHonors => http_pending rq
           | ApproveHonor proposal_id => http_approve proposal_id rq
           | RejectHonor proposal_id => http_reject proposal_id rq
           end).
(** The layer added last runs first. *)
Definition router : Next := fun rq =>
  match rq_route rq with
  | ToMerchant route =>
      layer limit_auth_failures (layer authenticate (layer limit_merchant (payment_intent_routes route))) rq
  | ToOperator route =>
      layer limit_auth_failures (layer authenticate_operator (operator_routes route)) rq
  end.
End api.
