(* ===== verification/HttpBooks.v ===== *)
(** * What the HTTP API lets through

    Failed authentications are rationed per client address; a request
    changes the database only behind a live key of the right kind, a merchant
    reaches only its own orders and moves no money, and an operator without
    the admin scope decides nothing; any sequence of requests keeps the
    books. *)

From Stdlib Require Import Ascii String Strings.Byte.
From stdpp Require Import gmap strings relations.
From S2P Require Import Prelude RustStd Externals Effects RustNet Money Chain PaymentIntent Quote Price Settlement Observations.
From S2P Require Import Database StorageSettlement SettlementBooks Operations StorageOperations OperationsBooks.
From S2P Require Import Merchant StorageMerchant MerchantBooks StorageOutbox OutboxBooks RateLimit Http.

Local Open Scope string_scope.
Local Open Scope Z_scope.

(** ** Budgets that a call leaves alone *)

Section rationing.
Context {W : Type} `{Monotonic W} `{Framework} `{UuidLib} `{HashLib} `{PaymentIntentRepository W}.
Context `{OperationsRepository W} `{JsonLib} `{U256Lib} `{TimeLib} `{Clock W} `{UuidSource W}.
Context `{QuoteRepository W} `{RedeliveryRepository W} `{HonorProposalRepository W}.
Context (state : AppState).

(** The budget of failures and the configuration stay, and the monotonic
    clock does not go back. *)
Definition onward (w w' : HttpWorld W) : Prop :=
  rt_config (hw_limits w') = rt_config (hw_limits w)
  /\ rt_auth_failures (hw_limits w') = rt_auth_failures (hw_limits w)
  /\ hw_instant w <= hw_instant w'.
Abbreviation moves m := (forall w, onward w (m w).2).

Lemma onward_trans w1 w2 w3 : onward w1 w2 -> onward w2 w3 -> onward w1 w3.
Proof. intros (A1 & A2 & A3) (B1 & B2 & B3). unfold onward. rewrite B1, B2. split_and!; [done..|lia]. Qed.

Lemma moves_ret {E A} (a : A) : moves (mret a : eff (HttpWorld W) E A).
Proof. intros w. unfold onward. cbn. split_and!; [done..|lia]. Qed.
Lemma moves_lift {E A} (r : result E A) : moves (lift r : eff (HttpWorld W) E A).
Proof. intros w. unfold onward. cbn. split_and!; [done..|lia]. Qed.
Lemma moves_bind {E A B} (m : eff (HttpWorld W) E A) (k : A -> eff (HttpWorld W) E B) :
  moves m -> (forall a, moves (k a)) -> moves (mbind k m).
Proof.
  intros Hm Hk w. unfold mbind, eff_bind. specialize (Hm w). destruct (m w) as [[a|e] w1]; [|done].
  eapply onward_trans; [exact Hm|apply Hk].
Qed.
Lemma moves_service {E A} (f : E -> ApiError) (m : eff W E A) : moves (service f m).
Proof.
  intros w. unfold service, eff_map_err, in_world. destruct (m (hw_world w)) as [r world].
  unfold onward. cbn. split_and!; [done..|lia].
Qed.
Lemma moves_now {E} : moves (Instant_now (E := E)).
Proof.
  intros w. unfold Instant_now. destruct (elapse (hw_world w)) as [d world]. unfold onward. cbn.
  split_and!; [done..|lia].
Qed.
Lemma moves_charge name key now : name <> AuthFailures -> moves (charge name key now).
Proof.
  intros Hn w. unfold charge. destruct (Budget.take _ _ _) as [r b]. unfold onward. cbn.
  destruct (hw_limits w), name; cbn; try done; split_and!; (done || lia).
Qed.
Lemma moves_run (next : Next) rq : (forall rq w, onward w (next rq w).2) -> moves (run next rq).
Proof. intros Hn w. unfold run. specialize (Hn rq w). by destruct (next rq w). Qed.
Lemma moves_respond m : moves m -> forall w, onward w (respond m w).2.
Proof. intros Hm w. unfold respond. specialize (Hm w). by destruct (m w) as [[r|e] w1]. Qed.

(** Takes a handler apart: extractors, then the service, then the answer. *)
Ltac handler_step :=
  match goal with
  | |- context [extension ?o _] => unfold extension; destruct o; [|apply moves_ret]
  | |- context [path ?o _] => unfold path; destruct o; [|apply moves_ret]
  | |- context [extracted ?o _] => unfold extracted; destruct o; [|apply moves_ret]
  | |- forall w, onward w (mbind _ _ w).2 => apply moves_bind; [|intros ?]
  | |- forall w, onward w (json_body _ _ w).2 => apply moves_lift
  | |- forall w, onward w (lift _ w).2 => apply moves_lift
  | |- forall w, onward w (service _ _ w).2 => apply moves_service
  | |- forall w, onward w (mret _ w).2 => apply moves_ret
  end.

Lemma merchant_routes_onward route rq w : onward w (payment_intent_routes state route rq w).2.
Proof.
  apply moves_respond. clear w.
  destruct route; [unfold http_create|unfold http_get_by_id|unfold http_quote|unfold http_cancel]; repeat handler_step.
Qed.
Lemma operator_routes_onward route rq w : onward w (operator_routes state route rq w).2.
Proof.
  apply moves_respond. clear w. destruct route;
    [unfold http_submit_price|unfold http_submit_rail_health|unfold http_open_rail_stop
    |unfold http_clear_rail_stop|unfold http_submit_risk_evaluation|unfold http_resolve_manual
    |unfold http_redeliver_webhook|unfold http_propose|unfold http_pending|unfold http_approve
    |unfold http_reject]; repeat handler_step.
Qed.

Lemma limit_merchant_onward next : (forall rq w, onward w (next rq w).2) ->
  forall rq w, onward w (layer limit_merchant next rq w).2.
Proof.
  intros Hn rq. apply moves_respond, moves_bind; [|intros ?; by apply moves_run].
  destruct (rq_merchant rq); [|apply moves_ret]. unfold take_from. apply moves_bind; [apply moves_now|].
  intros now. apply moves_charge. by destruct (rq_is_get rq).
Qed.
Lemma authenticate_onward next : (forall rq w, onward w (next rq w).2) ->
  forall rq w, onward w (layer authenticate next rq w).2.
Proof.
  intros Hn rq. apply moves_respond. unfold authenticate. repeat (handler_step; try by apply moves_run).
Qed.
Lemma authenticate_operator_onward next : (forall rq w, onward w (next rq w).2) ->
  forall rq w, onward w (layer authenticate_operator next rq w).2.
Proof.
  intros Hn rq. apply moves_respond. unfold authenticate_operator. repeat (handler_step; try by apply moves_run).
Qed.

(** ** One request against the budget of failures *)

Definition caller (limits : RateLimits) (rq : Request) : option string := IpAddr_to_string <$> client limits rq.
Definition failed (key : string) (limits : RateLimits) (rq : Request) (response : Response) : bool :=
  (rs_status response =? 401) && bool_decide (caller limits rq = Some key).

(** What a request did to the budget: at most one call on it, between the
    two instants, and a granted one for every failed authentication. *)
Definition charged (rq : Request) (w : HttpWorld W) (response : Response) (w' : HttpWorld W) : Prop :=
  rt_config (hw_limits w') = rt_config (hw_limits w) /\ hw_instant w <= hw_instant w'
  /\ (wf (rt_auth_failures (hw_limits w)) (hw_instant w) -> 0 <= hw_instant w -> is_instant (hw_instant w') ->
      exists calls,
        in_order (hw_instant w) (hw_instant w') calls
        /\ rt_auth_failures (hw_limits w') = (takes (rt_auth_failures (hw_limits w)) calls).2
        /\ forall key, (if failed key (hw_limits w) rq response then 1 else 0)
             <= granted key (takes (rt_auth_failures (hw_limits w)) calls).1).

Lemma uncharged rq w response w' :
  onward w w' -> (forall key, failed key (hw_limits w) rq response = false) -> charged rq w response w'.
Proof.
  intros (Hc & Hb & Hi) Hf. split_and!; [done..|]. intros _ _ _. exists []. cbn. split_and!; [done..|].
  intros key. by rewrite Hf.
Qed.

(** A token that was there is there later, and the charge takes it. *)
Lemma charge_granted budget t key now later :
  wf budget t -> 0 <= t <= now -> now <= later -> is_instant later ->
  Budget.has_token budget key now = Ok tt -> (Budget.take budget key later).1 = Ok tt.
Proof.
  intros B Ht Hl Hn Hhas. assert (is_instant now) by (unfold is_instant in *; lia).
  rewrite (has_token_spec _ t) in Hhas by done. rewrite (take_spec _ t) by (done || lia). cbn [fst].
  pose proof (available_later budget t key now later B Ht Hl).
  destruct (Z.leb_spec TOKEN (available budget key now)); [|done]. by rewrite (proj2 (Z.leb_le _ _)) by lia.
Qed.

Lemma failures_charged next rq w response w' :
  (forall rq w, onward w (next rq w).2) ->
  layer limit_auth_failures next rq w = (response, w') -> charged rq w response w'.
Proof.
  intros Hn Hrun. unfold layer, respond, limit_auth_failures in Hrun.
  unfold limits_of, mbind, eff_bind in Hrun. cbv beta iota in Hrun. fold (caller (hw_limits w) rq) in Hrun.
  destruct (caller (hw_limits w) rq) as [c|] eqn:Hc; cbn beta iota in Hrun.
  2: { unfold run in Hrun. cbn in Hrun. pose proof (Hn rq w) as Ho. destruct (next rq w) as [r w1]. injection Hrun as <- <-.
       apply uncharged; [done|]. intros key. unfold failed. rewrite Hc. by rewrite andb_false_r. }
  unfold has_token_in, Instant_now, check, mbind, eff_bind in Hrun.
  destruct (elapse (hw_world w)) as [d1 world1]. cbn beta iota in Hrun. cbn [hw_limits budget_of] in Hrun.
  set (now := hw_instant w + Z.max 0 d1) in *. set (w1 := mkHttpWorld world1 (hw_limits w) now) in *.
  assert (hw_instant w <= now) as Hnow by (unfold now; lia).
  assert (onward w w1) as Ho1 by done.
  destruct (Budget.has_token (rt_auth_failures (hw_limits w)) c now) as [[]|s] eqn:Hhas; cbn beta iota in Hrun.
  2: { injection Hrun as <- <-. apply uncharged; [done|]. done. }
  unfold run in Hrun. pose proof (Hn rq w1) as Ho2. destruct (next rq w1) as [r w2]. cbn beta iota in Hrun. cbn in Ho2.
  pose proof (onward_trans _ _ _ Ho1 Ho2) as Ho. destruct (rs_status r =? 401) eqn:Hst.
  2: { injection Hrun as <- <-. apply uncharged; [done|]. intros key. unfold failed. by rewrite Hst. }
  unfold attempt, take_from, Instant_now, charge, mbind, eff_bind in Hrun.
  destruct (elapse (hw_world w2)) as [d2 world2]. cbn beta iota in Hrun. cbn [hw_limits budget_of hw_world hw_instant] in Hrun.
  set (later := hw_instant w2 + Z.max 0 d2) in *. destruct Ho as (E1 & E2 & E3). rewrite E2 in Hrun.
  assert (now <= hw_instant w2) by apply Ho2.
  destruct (Budget.take (rt_auth_failures (hw_limits w)) c later) as [answer b] eqn:Ht. cbn beta iota in Hrun.
  injection Hrun as <- <-. split_and!; cbn [hw_limits hw_instant].
  - by destruct (hw_limits w2).
  - lia.
  - intros B H0' Hin. pose proof (charge_granted _ _ c now later B ltac:(lia) ltac:(lia) Hin Hhas) as Hg. rewrite Ht in Hg. cbn in Hg.
    subst answer. exists [(c, later)]. cbn [takes in_order]. rewrite Ht. split_and!; [lia..|done|by destruct (hw_limits w2)|].
    intros key. cbn [fst]. rewrite granted_cons. change (granted key []) with 0. unfold failed. rewrite Hc.
    rewrite Hst, (bool_decide_ext (Some c = Some key) (c = key)) by naive_solver.
    destruct (bool_decide (c = key)); cbn; lia.
Qed.

(** ** Requests one after another *)

Fixpoint serve (requests : list Request) (w : HttpWorld W) : list Response * HttpWorld W :=
  match requests with
  | [] => ([], w)
  | rq :: requests =>
      let '(response, w) := router state rq w in
      let '(responses, w) := serve requests w in
      (response :: responses, w)
  end.
(** How often an address was answered that its authentication failed. *)
Definition failures (key : string) (limits : RateLimits) (requests : list Request) (responses : list Response) : Z :=
  Z.of_nat (length (filter (fun exchange => failed key limits exchange.1 exchange.2 = true) (zip requests responses))).

Lemma router_charged rq w response w' :
  router state rq w = (response, w') -> charged rq w response w'.
Proof.
  unfold router. destruct (rq_route rq); apply failures_charged; intros rq' w1.
  - apply authenticate_onward, limit_merchant_onward, merchant_routes_onward.
  - apply authenticate_operator_onward, operator_routes_onward.
Qed.

Lemma failures_cons key limits rq requests response responses :
  failures key limits (rq :: requests) (response :: responses)
  = (if failed key limits rq response then 1 else 0) + failures key limits requests responses.
Proof.
  unfold failures. cbn [zip zip_with]. rewrite filter_cons. cbn [fst snd].
  destruct (failed key limits rq response); case_decide as Hd; cbn; try lia; by exfalso; apply Hd.
Qed.
Lemma takes_app calls1 calls2 budget key :
  granted key (takes budget (calls1 ++ calls2)).1
    = granted key (takes budget calls1).1 + granted key (takes (takes budget calls1).2 calls2).1
  /\ (takes budget (calls1 ++ calls2)).2 = (takes (takes budget calls1).2 calls2).2.
Proof.
  revert budget. induction calls1 as [|[k now] calls1 IH]; intros budget; cbn [takes app]; [done|].
  destruct (Budget.take budget k now) as [answer budget']. specialize (IH budget').
  destruct (takes budget' (calls1 ++ calls2)), (takes budget' calls1). cbn in *. rewrite !granted_cons. lia || (destruct IH as [-> ->]; split; [lia|done]).
Qed.
Lemma in_order_app t0 t t1 calls1 calls2 :
  in_order t0 t calls1 -> in_order t t1 calls2 -> t0 <= t <= t1 -> in_order t0 t1 (calls1 ++ calls2).
Proof.
  revert t0. induction calls1 as [|[k now] calls1 IH]; intros t0; cbn [in_order app].
  - intros _. destruct calls2 as [|[k now] calls2]; [done|]. cbn. intros [? ?] ?. split; [lia|done].
  - intros [? Ho] Ho2 Ht. split; [lia|]. apply IH; [done..|lia].
Qed.

Lemma serve_later requests : forall w, hw_instant w <= hw_instant (serve requests w).2.
Proof.
  induction requests as [|rq requests IH]; intros w; cbn [serve]; [cbn; lia|].
  destruct (router state rq w) as [response w1] eqn:Hr. apply router_charged in Hr as (_ & Hi & _).
  specialize (IH w1). destruct (serve requests w1). cbn in *. lia.
Qed.

Lemma caller_config limits limits' rq : rt_config limits' = rt_config limits -> caller limits' rq = caller limits rq.
Proof. intros E. unfold caller, client. by rewrite E. Qed.

Lemma serve_charged requests : forall w responses w',
  wf (rt_auth_failures (hw_limits w)) (hw_instant w) -> 0 <= hw_instant w -> serve requests w = (responses, w') ->
  is_instant (hw_instant w') ->
  rt_config (hw_limits w') = rt_config (hw_limits w)
  /\ exists calls, in_order (hw_instant w) (hw_instant w') calls
    /\ rt_auth_failures (hw_limits w') = (takes (rt_auth_failures (hw_limits w)) calls).2
    /\ forall key, failures key (hw_limits w) requests responses
         <= granted key (takes (rt_auth_failures (hw_limits w)) calls).1.
Proof.
  induction requests as [|rq requests IH]; intros w responses w' B Hw; cbn [serve].
  { intros [= <- <-] _. split; [done|]. exists []. by split. }
  destruct (router state rq w) as [response w1] eqn:Hr. pose proof (serve_later requests w1) as Hl.
  destruct (serve requests w1) as [responses' w2] eqn:Hs. intros [= <- <-] Hin. cbn in Hl.
  apply router_charged in Hr as (Hc & Hi & Hch).
  destruct (Hch B Hw ltac:(unfold is_instant in *; lia)) as (calls1 & Ho1 & Hb1 & Hg1).
  assert (is_instant (hw_instant w1)) as Hin1 by (unfold is_instant in *; lia).
  pose proof (takes_wf calls1 _ _ (hw_instant w1) B (conj Hw Hi) Hin1 Ho1) as B1. rewrite <- Hb1 in B1.
  destruct (IH w1 responses' w2 B1 ltac:(lia) Hs Hin) as (Hc2 & calls2 & Ho2 & Hb2 & Hg2).
  split; [by rewrite Hc2|]. exists (calls1 ++ calls2)%list.
  split; [apply (in_order_app _ (hw_instant w1)); [done..|lia]|].
  split; [by rewrite (proj2 (takes_app _ _ _ "")), <- Hb1|]. intros key.
  rewrite (proj1 (takes_app _ _ _ key)), <- Hb1, failures_cons. specialize (Hg1 key). specialize (Hg2 key).
  enough (failures key (hw_limits w1) requests responses' = failures key (hw_limits w) requests responses') by lia.
  unfold failures. do 3 f_equal. apply list_filter_iff. intros [rq' r']. cbn. unfold failed.
  by rewrite (caller_config _ _ rq' Hc).
Qed.

(** A request of an address without a token is refused before anything else
    is asked of the world than the time. *)
Lemma refused_unseen rq w key moved world seconds :
  caller (hw_limits w) rq = Some key -> elapse (hw_world w) = (moved, world) ->
  let now := hw_instant w + Z.max 0 moved in
  Budget.has_token (rt_auth_failures (hw_limits w)) key now = Err seconds ->
  router state rq w = (into_response (RateLimited seconds), mkHttpWorld world (hw_limits w) now).
Proof.
  intros Hc He now Hno.
  enough (forall next, layer limit_auth_failures next rq w
    = (into_response (RateLimited seconds), mkHttpWorld world (hw_limits w) now)) as Hl
    by (unfold router; destruct (rq_route rq); apply Hl).
  intros next. unfold layer, respond, limit_auth_failures, limits_of, mbind, eff_bind. cbv beta iota.
  fold (caller (hw_limits w) rq). rewrite Hc. unfold has_token_in, Instant_now, check, mbind, eff_bind. rewrite He.
  cbn beta iota. cbn [hw_limits budget_of]. fold now. by rewrite Hno.
Qed.

(** An address that has had its allowance has no token left: one more would
    have been granted above it. *)
Lemma allowance_spent budget t0 t1 now key calls :
  wf budget t0 -> 0 <= t0 -> in_order t0 t1 calls -> t0 <= t1 <= now -> is_instant now ->
  bu_limit budget + (now - t0) / 1000000 * bu_limit budget / 60000 <= granted key (takes budget calls).1 ->
  exists seconds, Budget.has_token (takes budget calls).2 key now = Err seconds /\ 1 <= seconds <= 60.
Proof.
  intros B H0' Ho Ht Hin Hspent. assert (is_instant t1) as Hin1 by (unfold is_instant in *; lia).
  pose proof (takes_wf calls _ _ t1 B (conj H0' (proj1 Ht)) Hin1 Ho) as B1.
  destruct (Budget.has_token (takes budget calls).2 key now) as [[]|seconds] eqn:Hhas.
  - exfalso. pose proof (charge_granted _ t1 key now now B1 ltac:(lia) ltac:(lia) Hin Hhas) as Hg.
    assert (in_order t0 now (calls ++ [(key, now)])) as Ho'.
    { apply (in_order_app _ t1); [done|cbn; lia|lia]. }
    apply (budget_rations budget t0 now key _ B ltac:(lia) Hin) in Ho'. rewrite (proj1 (takes_app _ _ _ key)) in Ho'.
    cbn [takes] in Ho'. destruct (Budget.take (takes budget calls).2 key now) as [answer b]. cbn in Hg. subst answer.
    cbn [fst] in Ho'. rewrite granted_cons, bool_decide_true in Ho' by done. change (granted key []) with 0 in Ho'.
    cbn in Ho'. lia.
  - exists seconds. split; [done|]. rewrite (has_token_spec _ t1) in Hhas by (done || lia).
    pose proof (available_range _ t1 key now B1 ltac:(lia)).
    destruct (Z.leb_spec TOKEN (available (takes budget calls).2 key now)); [done|]. injection Hhas as <-.
    apply (wait_seconds_eq _ t1); [done|lia].
Qed.

(** C18: Guessing keys is rationed.  Whatever requests follow each other, of
    all clients and on merchant and operator routes, the failed
    authentications answered to one client address in any stretch of time are
    at most the configured number at once and that number per minute after
    that.  Once an address has had that many, every further request of it is
    answered 429 with the seconds to wait before its key is looked up: the
    services' world is read for the time and nothing else, and no budget
    changes. *)
Theorem failed_logins_are_rationed requests w responses w' key :
  let budget := rt_auth_failures (hw_limits w) in
  let allowance t := bu_limit budget + (t - hw_instant w) / 1000000 * bu_limit budget / 60000 in
  wf budget (hw_instant w) -> 0 <= hw_instant w -> serve requests w = (responses, w') -> is_instant (hw_instant w') ->
  failures key (hw_limits w) requests responses <= allowance (hw_instant w')
  /\ forall rq moved world, caller (hw_limits w) rq = Some key -> elapse (hw_world w') = (moved, world) ->
     let now := hw_instant w' + Z.max 0 moved in
     is_instant now -> allowance now <= failures key (hw_limits w) requests responses ->
     exists seconds, 1 <= seconds <= 60
       /\ router state rq w' = (into_response (RateLimited seconds), mkHttpWorld world (hw_limits w') now).
Proof.
  intros budget allowance B Hw Hs Hin. pose proof (serve_later requests w) as Hl. rewrite Hs in Hl. cbn in Hl.
  destruct (serve_charged _ _ _ _ B Hw Hs Hin) as (Hc & calls & Ho & Hb & Hg). specialize (Hg key).
  fold budget in Hb, Hg. split.
  - apply (budget_rations _ _ _ key _ B (conj Hw Hl) Hin) in Ho. unfold allowance. lia.
  - intros rq moved world Hrq He now Hnow Hspent.
    destruct (allowance_spent budget _ _ now key calls B Hw Ho ltac:(lia) Hnow) as (seconds & Hno & Hrange);
      [unfold allowance in Hspent; lia|].
    exists seconds. split; [done|]. eapply refused_unseen; [by rewrite (caller_config _ _ rq Hc)|done|].
    by rewrite Hb.
Qed.
End rationing.

(** ** Requests on the books *)

(** The monotonic clock of a server. *)
Class Ticker (R : Type) := { tick : R -> Z * R }.
#[export] Instance session_monotonic {R} `{Ticker R} : Monotonic (Session R) := {|
  elapse s := let '(moved, r) := tick (runtime s) in
    (moved, mkSession (committed s) (working s) (transaction_now s) r) |}.

(** A redelivery announces nothing new. *)
Lemma redeliver_aside `{UuidLib} actor key hash request now db result db' :
  redeliver_step actor key hash request now db result db' -> aside db db'.
Proof.
  intros [(row & _ & _ & _ & ->)|(event & merchant & st & row & _ & He & _ & _ & _ & _ & _ & _ & _ & _ & [trail ->])];
    [apply aside_refl|]. split_and!; try done. intros type aggregate. unfold announcements. cbn.
  set (P := fun '(_, e) => de_event_type e = type /\ de_aggregate_id e = aggregate).
  destruct (decide (P (wr_event_id request, event))) as [Hp|Hp].
  - rewrite map_filter_insert_True by exact Hp. apply map_size_insert_Some. exists event. by apply map_lookup_filter_Some.
  - rewrite map_filter_insert_False by exact Hp. f_equal. apply map_eq. intros k. apply option_eq. intros e.
    rewrite !map_lookup_filter_Some, lookup_delete_Some. split; [naive_solver|]. intros [Hk Hpk]. split; [|done].
    split; [|done]. intros <-. rewrite He in Hk. by injection Hk as <-.
Qed.

Section doors.
Context {R : Type} `{Postgres R} `{Ticker R} `{Framework} `{UuidLib} `{HashLib} `{JsonLib} `{U256Lib} `{TimeLib}.
Context `{TimeSerde} `{Base58Lib} (state : AppState).

Abbreviation stands I := (fun w : HttpWorld (Session R) => I (committed (hw_world w))).
Abbreviation keeps I m := (holds (stands I) m (fun _ => True)).

Lemma stands_service {E A} (I : Database -> Prop) (f : E -> ApiError) (m : eff (Session R) E A) :
  holds (fun s : Session R => I (committed s)) m (fun _ => True) -> keeps I (service f m).
Proof.
  intros Hm w Hw. unfold service, eff_map_err, in_world. specialize (Hm (hw_world w) Hw).
  destruct (m (hw_world w)) as [r s]. split; [apply Hm|done].
Qed.
Lemma stands_now {E} (I : Database -> Prop) : keeps I (Instant_now (E := E)).
Proof. intros w Hw. unfold Instant_now, elapse, session_monotonic. by destruct (tick _). Qed.
Lemma stands_charge (I : Database -> Prop) name key now : keeps I (charge name key now).
Proof. intros w Hw. unfold charge. by destruct (Budget.take _ _ _). Qed.
Lemma stands_take (I : Database -> Prop) name key : keeps I (take_from name key).
Proof. eapply holds_bind; [apply stands_now|]. intros now _. apply stands_charge. Qed.
Lemma stands_has_token (I : Database -> Prop) name key : keeps I (has_token_in name key).
Proof. eapply holds_bind; [apply stands_now|]. intros now _ w Hw. by split. Qed.
Lemma stands_run (I : Database -> Prop) (next : Next) rq : (forall w, stands I w -> stands I (next rq w).2) ->
  keeps I (run next rq).
Proof. intros Hn w Hw. unfold run. specialize (Hn w Hw). by destruct (next rq w). Qed.
Lemma stands_respond (I : Database -> Prop) m : keeps I m -> forall w, stands I w -> stands I (respond m w).2.
Proof. intros Hm w Hw. unfold respond. destruct (Hm w Hw) as [Hi _]. by destruct (m w) as [[r|e] w1]. Qed.

(** Takes a handler apart up to its service call. *)
Ltac handler_step :=
  match goal with
  | |- context [extension ?o _] => unfold extension; destruct o; [|by apply holds_ret]
  | |- context [path ?o _] => unfold path; destruct o; [|by apply holds_ret]
  | |- context [extracted ?o _] => unfold extracted; destruct o; [|by apply holds_ret]
  | |- holds _ (mbind _ (lift _)) _ => eapply holds_bind; [apply holds_lift|]; intros ? _
  | |- holds _ (mbind _ (json_body _ _)) _ => eapply holds_bind; [apply holds_lift|]; intros ? _
  | |- holds _ (mbind _ (service _ _)) _ =>
      eapply holds_bind; [apply stands_service|intros ? _; by apply holds_ret]
  end.

(** Takes a service call apart: guards, then the clock. *)
Ltac call_step :=
  match goal with
  | |- holds _ (mbind _ (lift _)) _ => eapply holds_bind; [apply holds_lift|]; intros ? _
  | |- holds _ (mbind _ read_clock) _ => eapply holds_bind; [apply holds_system_clock|]; intros ? _
  end.

(** What the calls for one merchant keep, its requests keep. *)
Lemma merchant_routes_keep (I : Database -> Prop) m route rq w :
  (forall intent route key hash db result db', pi_status intent = RequiresQuote -> pi_merchant_id intent = m ->
     create_step intent route key hash db result db' -> I db -> I db') ->
  (forall i route key hash db result db', cancel_step m i route key hash db result db' -> I db -> I db') ->
  (forall plan route key hash db result db', plan_merchant_id plan = m ->
     issue_step plan route key hash db result db' -> I db -> I db') ->
  (forall auth, rq_merchant rq = Some auth -> ap_merchant_id (ma_credential auth) = m) ->
  stands I w -> stands I (payment_intent_routes state route rq w).2.
Proof.
  intros Ic Ix Iq Hm. apply stands_respond.
  destruct route; [unfold http_create|unfold http_get_by_id|unfold http_quote|unfold http_cancel];
    repeat handler_step; rewrite (Hm _ eq_refl).
  - by apply create_holds.
  - eapply holds_bind; [apply holds_map_err, keeps_find_by_id|]. intros row _.
    by eapply holds_weaken; [apply holds_lift|].
  - by apply issue_holds.
  - by apply cancel_holds.
Qed.

Lemma redeliver_keeps (I : Database -> Prop) credential key request :
  (forall db db', aside db db' -> I db -> I db') ->
  holds (fun s : Session R => I (committed s)) (redeliver_webhook credential key request) (fun _ => True).
Proof.
  intros Ia. unfold redeliver_webhook. repeat call_step. apply holds_map_err.
  eapply transacts_holds; [apply pg_redeliver_transacts|]. intros db r db' Hi Hs.
  by eapply Ia; [eapply redeliver_aside|].
Qed.
Lemma pending_keeps (I : Database -> Prop) credential limit before :
  holds (fun s : Session R => I (committed s)) (pending_honor_proposals credential limit before) (fun _ => True).
Proof.
  unfold pending_honor_proposals, call. repeat call_step. eapply holds_bind; [apply holds_map_err|].
  { eapply holds_bind; [apply keeps_read|]. intros rows _. apply holds_pure. }
  intros items _. by apply holds_ret.
Qed.

(** What the operators' calls keep, their requests keep. *)
Lemma operator_routes_keep (I : Database -> Prop) route rq w :
  (forall s s' : Session R, gateway_step (st_operations state) s s' -> I (committed s) -> I (committed s')) ->
  (forall db db', aside db db' -> I db -> I db') ->
  stands I w -> stands I (operator_routes state route rq w).2.
Proof.
  intros Ig Ia. apply stands_respond.
  assert (forall A (m : eff (Session R) OperationsError A),
    (forall s, gateway_step (st_operations state) s (m s).2) ->
    holds (fun s => I (committed s)) m (fun _ => True)) as Hg by (intros A m Hm s Hs; split; [by eapply Ig|done]).
  destruct route;
    [unfold http_submit_price|unfold http_submit_rail_health|unfold http_open_rail_stop
    |unfold http_clear_rail_stop|unfold http_submit_risk_evaluation|unfold http_resolve_manual
    |unfold http_redeliver_webhook|unfold http_propose|unfold http_pending|unfold http_approve
    |unfold http_reject]; repeat handler_step.
  - apply Hg. intros s. apply step_price.
  - apply Hg. intros s. apply step_rail_health.
  - apply Hg. intros s. apply step_open_stop.
  - apply Hg. intros s. apply step_clear_stop.
  - apply Hg. intros s. apply step_risk.
  - apply Hg. intros s. apply step_resolve.
  - by apply redeliver_keeps.
  - apply Hg. intros s. apply step_propose.
  - apply pending_keeps.
  - apply Hg. intros s. apply step_approve.
  - apply Hg. intros s. apply step_reject.
Qed.

(** *** The layers *)

Lemma auth_failures_run next rq w :
  let w' := (layer limit_auth_failures next rq w).2 in
  committed (hw_world w') = committed (hw_world w)
  \/ exists w1, committed (hw_world w1) = committed (hw_world w)
       /\ committed (hw_world w') = committed (hw_world (next rq w1).2).
Proof.
  cbv zeta. unfold layer, respond, limit_auth_failures, limits_of, mbind, eff_bind. cbv beta iota.
  set (key := IpAddr_to_string <$> client (hw_limits w) rq).
  assert (forall c w', stands (fun db => db = committed (hw_world w)) w' ->
    stands (fun db => db = committed (hw_world w)) (has_token_in c (default "" key) w').2) as Hcheck.
  { intros c w' Hw'. by apply (stands_has_token (fun db => db = committed (hw_world w))). }
  assert (forall (w1 : HttpWorld (Session R)) c k,
    committed (hw_world (take_from c k w1).2) = committed (hw_world w1)) as Htake.
  { intros w1 c k. apply (stands_take (fun db => db = committed (hw_world w1)) c k w1 eq_refl). }
  destruct key as [c|]; cbn [default] in *.
  - specialize (Hcheck AuthFailures w eq_refl). cbn in Hcheck.
    destruct (has_token_in AuthFailures c w) as [[u|e] w1]; cbn beta iota in *; [|by left].
    right. exists w1. split; [done|]. unfold run. destruct (next rq w1) as [r w2]. cbn beta iota.
    destruct (rs_status r =? 401); cbn; [|done]. unfold attempt. specialize (Htake w2 AuthFailures c).
    destruct (take_from AuthFailures c w2) as [taken w3]. done.
  - right. exists w. split; [done|]. unfold run. cbn. by destruct (next rq w) as [r w2].
Qed.

Lemma limit_merchant_keep (I : Database -> Prop) next rq w :
  (forall w, stands I w -> stands I (next rq w).2) -> stands I w -> stands I (layer limit_merchant next rq w).2.
Proof.
  intros Hn. apply stands_respond. eapply holds_bind; [|intros ? _; by apply stands_run].
  destruct (rq_merchant rq); [apply stands_take|by apply holds_ret].
Qed.

(** *** Keys *)

Definition live_key (hash : list byte) (m : Z) (db : Database) : Prop :=
  exists id key merchant, merchant_api_keys db !! id = Some key /\ mk_merchant_id key = m
    /\ mk_secret_hash key = hash /\ mk_revoked_at key = None
    /\ merchants db !! m = Some merchant /\ mr_status merchant = "active".
Definition live_operator_key (hash : list byte) (key : OperatorKeyRow) (db : Database) : Prop :=
  exists id, operator_api_keys db !! id = Some key /\ ok_secret_hash key = hash /\ ok_revoked_at key = None.

(** A look at a key writes when it was used, if it is live, and nothing
    else. *)
Lemma api_key_used hash now db (r : option (Z * Z)) db' : use_api_key hash now db = Ok (r, db') ->
  match r with
  | None => db' = db
  | Some (m, _) => live_key hash m db /\ exists table, db' = on_merchant_keys (fun _ => table) db
  end.
Proof.
  unfold use_api_key. destruct (find_where _ _) as [[id key]|] eqn:Hf; intros [= <- <-]; [|done].
  apply find_where_Some in Hf as [Hk Hp]. apply andb_true_iff in Hp as [Hp Hm]. apply andb_true_iff in Hp as [Hh Hr].
  bool_to_prop. destruct (mk_revoked_at key) eqn:Hrev; [done|]. split.
  - destruct (merchants db !! mk_merchant_id key) as [merchant|] eqn:Hmer; [|done]. bool_to_prop. by exists id, key, merchant.
  - by eexists.
Qed.
Lemma operator_key_used hash now db (r : option OperatorKeyColumns) db' : use_operator_key hash now db = Ok (r, db') ->
  match r with
  | None => db' = db
  | Some columns => (exists key, live_operator_key hash key db /\ oy_scopes columns = ok_scopes key)
      /\ exists table, db' = on_operator_keys (fun _ => table) db
  end.
Proof.
  unfold use_operator_key. destruct (find_where _ _) as [[id key]|] eqn:Hf; intros [= <- <-]; [|done].
  apply find_where_Some in Hf as [Hk Hp]. apply andb_true_iff in Hp as [Hh Hr].
  bool_to_prop. destruct (ok_revoked_at key) eqn:Hrev; [done|]. split; [|by eexists]. exists key. split; [|done]. by exists id.
Qed.

Lemma authenticate_run next rq w :
  let db := committed (hw_world w) in let db' := committed (hw_world (layer authenticate next rq w).2) in
  db' = db
  \/ exists secret m table, bearer rq = Ok secret /\ live_key (sha256 (as_bytes secret)) m db
     /\ (db' = on_merchant_keys (fun _ => table) db
         \/ exists w1 credential, ap_merchant_id credential = m
            /\ committed (hw_world w1) = on_merchant_keys (fun _ => table) db
            /\ db' = committed (hw_world (next (with_merchant (mkMerchantAuth credential) rq) w1).2)).
Proof.
  cbv zeta. unfold layer, respond, authenticate, mbind, eff_bind, lift. cbv beta iota.
  destruct (bearer rq) as [secret|e]; [|by left]. set (hash := sha256 (as_bytes secret)).
  pose proof (transacts_map_err unavailable _ _ (transacts_pool (fun now => use_api_key hash now))
    _ _ _ (hw_world w) eq_refl eq_refl eq_refl) as Ht. cbv beta in Ht.
  unfold service, in_world, authenticate_api_key, postgres_payment_intents, pg_authenticate_api_key.
  unfold mbind, eff_bind. unfold eff_map_err in *.
  destruct (run_pool_at (fun now => use_api_key hash now) (hw_world w)) as [[row|e] s1]; cbn in Ht |- *.
  - destruct Ht as [now Ht%api_key_used]. destruct row as [[m id]|]; cbn; [|by left].
    destruct Ht as [Hl [table E]]. right. exists secret, m, table. split_and!; [done..|]. right.
    exists (mkHttpWorld s1 (hw_limits w) (hw_instant w)), (mkApiCredential m id). split_and!; [done..|].
    unfold run. by destruct (next _ _).
  - destruct Ht as [->|(row & now & Ht%api_key_used)]; [by left|]. destruct row as [[m id]|]; [|by left].
    destruct Ht as [Hl [table E]]. right. exists secret, m, table. split_and!; [done..|by left].
Qed.

(** An operator key with the admin scope. *)
Definition is_admin (key : OperatorKeyRow) : Prop := "admin" ∈ ok_scopes key.

Lemma authenticate_operator_run next rq w :
  let db := committed (hw_world w) in let db' := committed (hw_world (layer authenticate_operator next rq w).2) in
  db' = db
  \/ exists secret key table, bearer rq = Ok secret /\ live_operator_key (sha256 (as_bytes secret)) key db
     /\ (db' = on_operator_keys (fun _ => table) db
         \/ exists w1 credential, (allows credential ScopeAdmin = true -> is_admin key)
            /\ committed (hw_world w1) = on_operator_keys (fun _ => table) db
            /\ db' = committed (hw_world (next (with_operator (mkOperatorAuth credential) rq) w1).2)).
Proof.
  cbv zeta. unfold layer, respond, authenticate_operator, mbind, eff_bind, lift. cbv beta iota.
  destruct (bearer rq) as [secret|e]; [|by left]. set (hash := sha256 (as_bytes secret)).
  pose proof (transacts_map_err unavailable _ _ (transacts_pool (fun now => use_operator_key hash now))
    _ _ _ (hw_world w) eq_refl eq_refl eq_refl) as Ht. cbv beta in Ht.
  unfold service, in_world, authenticate_operator_key, postgres_operations, pg_authenticate_operator_key.
  unfold mbind, eff_bind. unfold eff_map_err in *.
  destruct (run_pool_at (fun now => use_operator_key hash now) (hw_world w)) as [[row|e] s1]; cbn in Ht |- *.
  - destruct Ht as [now Ht%operator_key_used]. destruct row as [columns|]; cbn; [|by left].
    destruct Ht as [(key & Hl & Hsc) [table E]]. right. exists secret, key, table. split_and!; [done..|].
    unfold lift. destruct (collect _ _) as [scopes|e] eqn:Hcol; cbn; [|by left]. right.
    exists (mkHttpWorld s1 (hw_limits w) (hw_instant w)), (mkOperatorCredential (oy_id columns) (oy_label columns) scopes).
    split_and!; [|done|unfold run; by destruct (next _ _)].
    intros Ha. unfold allows in Ha. bool_to_prop. cbn in Ha. unfold is_admin. rewrite <- Hsc.
    apply collect_Ok in Hcol. apply list_elem_of_lookup in Ha as [i Hi].
    destruct (Forall2_lookup_r _ _ _ _ _ Hcol Hi) as (text & Ht & Hp%map_err_Ok).
    apply parse_table_Ok in Hp. assert (text = "admin") as -> by (set_solver). by apply list_elem_of_lookup_2 in Ht.
  - destruct Ht as [->|(row & now & Ht%operator_key_used)]; [by left|]. destruct row as [columns|]; [|by left].
    destruct Ht as [(key & Hl & _) [table E]]. right. exists secret, key, table. split_and!; [done..|by left].
Qed.

(** *** What a key reaches *)

(** Only orders of merchant [m] changed, and no money moved. *)
Definition own_orders_only (m : Z) (db db' : Database) : Prop :=
  (forall i, payment_intents db' !! i = payment_intents db !! i
     \/ (exists row', payment_intents db' !! i = Some row' /\ ir_merchant_id row' = m)
        /\ forall row, payment_intents db !! i = Some row -> ir_merchant_id row = m)
  /\ payment_allocations db' = payment_allocations db /\ payment_fulfillments db' = payment_fulfillments db
  /\ chain_transfers db' = chain_transfers db /\ chain_transfer_processing db' = chain_transfer_processing db.

Lemma own_orders_same m db db' :
  payment_intents db' = payment_intents db -> payment_allocations db' = payment_allocations db ->
  payment_fulfillments db' = payment_fulfillments db -> chain_transfers db' = chain_transfers db ->
  chain_transfer_processing db' = chain_transfer_processing db -> own_orders_only m db db'.
Proof. intros E E1 E2 E3 E4. split_and!; [intros i; left; by rewrite E|done..]. Qed.

Lemma own_orders_write m i row' db0 db db' :
  payment_intents db' = <[i := row']> (payment_intents db) -> ir_merchant_id row' = m ->
  (forall row, payment_intents db !! i = Some row -> ir_merchant_id row = m) ->
  payment_allocations db' = payment_allocations db -> payment_fulfillments db' = payment_fulfillments db ->
  chain_transfers db' = chain_transfers db -> chain_transfer_processing db' = chain_transfer_processing db ->
  own_orders_only m db0 db -> own_orders_only m db0 db'.
Proof.
  intros E Hm Hrow E1 E2 E3 E4 (Ho & F1 & F2 & F3 & F4).
  split_and!; [|by rewrite E1|by rewrite E2|by rewrite E3|by rewrite E4]. intros j. rewrite E.
  destruct (decide (i = j)) as [<-|Hne]; [|rewrite lookup_insert_ne by done; apply Ho].
  right. rewrite lookup_insert_eq. split; [by exists row'|]. intros row Hr.
  destruct (Ho i) as [Heq|[_ Hown]]; [|by apply Hown]. apply Hrow. by rewrite Heq.
Qed.

Lemma own_orders_create db0 intent route key hash db result db' :
  create_step intent route key hash db result db' ->
  own_orders_only (pi_merchant_id intent) db0 db -> own_orders_only (pi_merchant_id intent) db0 db'.
Proof.
  intros [(_ & _ & Hnew & _ & record & _ & _ & [trail ->])|(p & _ & _ & ->)]; [|done].
  eapply (own_orders_write _ (pi_id intent) (stored intent)); try done. intros row Hr. congruence.
Qed.
Lemma own_orders_cancel db0 m i route key hash db result db' :
  cancel_step m i route key hash db result db' -> own_orders_only m db0 db -> own_orders_only m db0 db'.
Proof.
  intros [[_ ->]|[(p & _ & _ & ->)|(p & row & record & version & now & trail & db1 & _ & _ & Hi & _ & _ & _ & _ & _ & Hq & ->)]];
    [done..|]. apply intent_row_Some in Hi as (row' & [= <-] & Hi & Hm).
  apply queued_same_money in Hq as (E1 & E2 & _ & E4 & _ & E6 & E7).
  eapply (own_orders_write _ i (intent_with "cancelled" version now row)); try done. intros r Hr. congruence.
Qed.
Lemma own_orders_issue db0 plan route key hash db result db' :
  issue_step plan route key hash db result db' ->
  own_orders_only (plan_merchant_id plan) db0 db -> own_orders_only (plan_merchant_id plan) db0 db'.
Proof.
  intros [(q & resource & row & _ & _ & _ & _ & ->)
    |(q & row & intent & amount & token & lease_id & record & version & _ & _ & (Hi & Hm & _) & _ & _ & _ & _ & [trail ->] & _)];
    [done|]. eapply (own_orders_write _ (plan_payment_intent_id plan)); [reflexivity|done| |done..].
  intros r Hr. congruence.
Qed.

(** Without the admin scope a call that asks for it does nothing. *)
Lemma denied_keeps {A} (I : Database -> Prop) credential (k : unit -> eff (Session R) OperationsError A) :
  allows credential ScopeAdmin = false ->
  holds (fun s : Session R => I (committed s)) (mbind k (lift (require credential ScopeAdmin))) (fun _ => True).
Proof.
  intros Ha s Hs. unfold mbind, eff_bind, lift, require. rewrite Ha. by split.
Qed.

Lemma other_operator_keeps (I : Database -> Prop) credential route rq w :
  allows credential ScopeAdmin = false -> (forall db db', aside db db' -> I db -> I db') ->
  stands I w -> stands I (operator_routes state route (with_operator (mkOperatorAuth credential) rq) w).2.
Proof.
  intros Ha Ia. apply stands_respond.
  destruct (evidence_services_keep (R := R) I Ia) as (Hprice & Hhealth & Hopen & Hclear & Hrisk).
  destruct route;
    [unfold http_submit_price|unfold http_submit_rail_health|unfold http_open_rail_stop
    |unfold http_clear_rail_stop|unfold http_submit_risk_evaluation|unfold http_resolve_manual
    |unfold http_redeliver_webhook|unfold http_propose|unfold http_pending|unfold http_approve
    |unfold http_reject]; cbn [rq_operator with_operator extension oa_credential]; repeat handler_step;
    [apply Hprice|apply Hhealth|apply Hopen|apply Hclear|apply Hrisk|unfold resolve_manual|by apply redeliver_keeps
    |unfold propose_honor|apply pending_keeps|unfold approve_honor|unfold reject_honor]; by apply denied_keeps.
Qed.

(** C16: A request changes the database only behind a live key of its own
    door.  On a merchant route that is an unrevoked key of an active merchant,
    only that merchant's orders change, and no transfer, allocation or
    fulfilment does; on an operator route it is an unrevoked operator key, and
    unless the key has the admin scope neither money nor any decision about it
    changes. *)
Theorem keys_open_their_own_door rq w :
  let db := committed (hw_world w) in let db' := committed (hw_world (router state rq w).2) in
  db' = db
  \/ exists secret, bearer rq = Ok secret
     /\ match rq_route rq with
        | ToMerchant _ => exists m, live_key (sha256 (as_bytes secret)) m db /\ own_orders_only m db db'
        | ToOperator _ => exists key, live_operator_key (sha256 (as_bytes secret)) key db
            /\ (is_admin key \/ aside db db')
        end.
Proof.
  cbv zeta. unfold router. destruct (rq_route rq) as [route|route].
  - destruct (auth_failures_run (layer authenticate (layer limit_merchant (payment_intent_routes state route))) rq w)
      as [E|(w1 & E1 & ->)]; [by left|].
    destruct (authenticate_run (layer limit_merchant (payment_intent_routes state route)) rq w1)
      as [->|(secret & m & table & Hb & Hl & Hrest)]; [by left|]. rewrite E1 in *. right. exists secret. split; [done|].
    exists m. split; [done|]. destruct Hrest as [->|(w2 & credential & Hm & E2 & ->)]; [by apply own_orders_same|].
    apply (limit_merchant_keep (own_orders_only m (committed (hw_world w)))).
    + intros w3. apply (merchant_routes_keep _ m).
      * intros intent r k hash db result db' _ <-. apply own_orders_create.
      * intros i r k hash db result db'. apply own_orders_cancel.
      * intros plan r k hash db result db' <-. apply own_orders_issue.
      * by intros auth [= <-].
    + rewrite E2. by apply own_orders_same.
  - destruct (auth_failures_run (layer authenticate_operator (operator_routes state route)) rq w)
      as [E|(w1 & E1 & ->)]; [by left|].
    destruct (authenticate_operator_run (operator_routes state route) rq w1)
      as [->|(secret & key & table & Hb & Hl & Hrest)]; [by left|]. rewrite E1 in *. right. exists secret. split; [done|].
    exists key. split; [done|]. destruct Hrest as [->|(w2 & credential & Hadm & E2 & ->)]; [by right|].
    destruct (allows credential ScopeAdmin) eqn:Ha; [left; by apply Hadm|right].
    apply (other_operator_keeps (aside (committed (hw_world w)))); [done| |by rewrite E2].
    intros db db' Hs Hi. by eapply aside_trans.
Qed.

Lemma router_keeps (I : Database -> Prop) rq w :
  (forall intent route key hash db result db', pi_status intent = RequiresQuote ->
     create_step intent route key hash db result db' -> I db -> I db') ->
  (forall m i route key hash db result db', cancel_step m i route key hash db result db' -> I db -> I db') ->
  (forall plan route key hash db result db', issue_step plan route key hash db result db' -> I db -> I db') ->
  (forall s s' : Session R, gateway_step (st_operations state) s s' -> I (committed s) -> I (committed s')) ->
  (forall db db', aside db db' -> I db -> I db') ->
  stands I w -> stands I (router state rq w).2.
Proof.
  intros Ic Ix Iq Ig Ia Hw. cbv beta in *. unfold router. destruct (rq_route rq) as [route|route].
  - destruct (auth_failures_run (layer authenticate (layer limit_merchant (payment_intent_routes state route))) rq w)
      as [->|(w1 & E1 & ->)]; [done|]. rewrite <- E1 in Hw.
    destruct (authenticate_run (layer limit_merchant (payment_intent_routes state route)) rq w1)
      as [->|(secret & m & table & _ & _ & Hrest)]; [done|].
    assert (I (on_merchant_keys (fun _ => table) (committed (hw_world w1)))) as Hu by (by eapply Ia, Hw).
    destruct Hrest as [->|(w2 & credential & Hm & E2 & ->)]; [done|]. rewrite <- E2 in Hu.
    apply limit_merchant_keep; [|done]. intros w3. apply (merchant_routes_keep _ m); [| | |by intros auth [= <-]].
    + intros intent r k hash db result db' Hst _. by apply Ic.
    + intros i r k hash db result db'. apply Ix.
    + intros plan r k hash db result db' _. apply Iq.
  - destruct (auth_failures_run (layer authenticate_operator (operator_routes state route)) rq w)
      as [->|(w1 & E1 & ->)]; [done|]. rewrite <- E1 in Hw.
    destruct (authenticate_operator_run (operator_routes state route) rq w1)
      as [->|(secret & key & table & _ & _ & Hrest)]; [done|].
    assert (I (on_operator_keys (fun _ => table) (committed (hw_world w1)))) as Hu by (by eapply Ia, Hw).
    destruct Hrest as [->|(w2 & credential & _ & E2 & ->)]; [done|]. rewrite <- E2 in Hu.
    by apply operator_routes_keep.
Qed.

(** C17: Requests keep the books.  Whatever requests merchants and operators
    send, one after another and with whatever failures, the books stay
    balanced, every allocation on an operator's word rests on the decisions
    the threshold asks for, what was allocated stays allocated, and an order
    stays the order it was and only moves along the allowed statuses. *)
Theorem requests_keep_the_books requests w responses w' :
  let threshold := as_u256 (dual_control_min_raw (os_honor_policy (st_operations state))) in
  let db := committed (hw_world w) in let db' := committed (hw_world w') in
  governed threshold db -> orderly db -> serve state requests w = (responses, w') ->
  governed threshold db' /\ orderly db' /\ payment_allocations db ⊆ payment_allocations db'
  /\ forall i row, payment_intents db !! i = Some row ->
     exists row', payment_intents db' !! i = Some row' /\ same_intent row row'
       /\ rtc intent_move (ir_status row) (ir_status row').
Proof.
  cbv zeta. set (db0 := committed (hw_world w)). intros G O Hs.
  assert (forall rqs w1, stands (shop_state (st_operations state) db0) w1 ->
    stands (shop_state (st_operations state) db0) (serve state rqs w1).2) as Hkeep.
  { clear. intros rqs. induction rqs as [|rq rqs IH]; intros w1 Hw; cbn [serve]; [done|].
    assert (stands (shop_state (st_operations state) db0) (router state rq w1).2) as Hr.
    { apply router_keeps; [..|done].
      - intros intent route key hash db result db'. apply shop_state_create.
      - intros m i route key hash db result db'. apply shop_state_cancel.
      - intros plan route key hash db result db'. apply shop_state_issue.
      - intros s s'. apply shop_state_gateway.
      - intros db db'. apply shop_state_aside. }
    destruct (router state rq w1) as [response w2]. specialize (IH w2 Hr). by destruct (serve state rqs w2). }
  assert (shop_state (st_operations state) db0 db0) as Hstart by (split_and!; [done..|apply carried_refl|done]).
  specialize (Hkeep requests w Hstart). rewrite Hs in Hkeep. destruct Hkeep as (G' & O' & C & _).
  split_and!; [done..|apply C|]. intros i row Hi. exact (car_intent _ _ C i row Hi).
Qed.
End doors.

(** ** Two clients *)

Import ReferenceInstances.

#[local] Instance quiet_server : Postgres Z := {|
  next_fault r := (None, r); commit_fate r := (Committed, r); database_now r := (100, r);
  now_utc r := (100, r); now_v7 r := (r, r + 1); random_uuid r := (r, r + 1);
  sql_error_text e := match e with SqlOther d => d | _ => "error" end; session_user := "gateway" |}.
(** Every reading of the monotonic clock is a second later. *)
#[local] Instance second_hand : Ticker Z := {| tick r := (1000000000, r) |}.
(** The bodies the sample requests have. *)
Definition decoded {T} (text : string) (value : T) : FromJson T :=
  fun rq => if bool_decide (rq_body rq = as_bytes text) then Some value else None.
#[local] Instance sample_framework : Framework := {|
  to_str bytes := Some (String.string_of_list_byte bytes);
  decode_create := decoded "{create}" (order_of "order-3");
  decode_quote := decoded "{quote}" (mkIssueQuoteBody 1);
  decode_price _ := None;
  decode_rail_health := decoded "{health}" (mkRailHealthBody 1 Healthy None);
  decode_open_stop := decoded "{stop}" (mkOpenRailStopBody 1 "incident" None);
  decode_clear_stop := decoded "{clear}" (mkClearRailStopBody "resolved");
  decode_risk _ := None; decode_resolution _ := None;
  decode_redelivery := decoded "{redeliver}" (mkRedeliveryBody None "asked for");
  decode_propose := decoded "{propose}" (mkProposeHonorBody 1 1 1 "5" "late");
  decode_decision := decoded "{decide}" (mkDecisionBody "checked");
  decode_cancel _ := Ok None; decode_page _ := Ok (mkPageQuery None None);
  path_rejection := no_headers 400 BodyEmpty; missing_extension := no_headers 500 BodyEmpty |}.

Definition api_secret : string := "0123456789abcdef0123456789abcdef".
Definition keyed_database : Database :=
  on_merchant_keys (fun _ => {[10 := mkMerchantKeyRow 1 (sha256 (as_bytes api_secret)) None None]})
    (committed opened_session).
Definition app : AppState := mkAppState quote_service OperationsService_new.
Definition strict_limits : RateLimits := RateLimits_new (mkRateLimitConfig 600 3000 2 600 None).
Definition http_world : HttpWorld (Session Z) :=
  mkHttpWorld (mkSession keyed_database keyed_database 0 1000) strict_limits 0.

Definition request_of (route : Route) (headers : list (string * string)) (body : string) : Request := {|
  rq_route := route; rq_is_get := false;
  rq_header name := (fun found => as_bytes found.2.2) <$> list_find (fun entry => entry.1 = name) headers;
  rq_peer := Some (SockV4 (Ipv4 203 0 113 9) 4711); rq_merchant := None; rq_operator := None;
  rq_query := ""; rq_body := as_bytes body |}.
Definition merchant_request (route : MerchantRoute) (key body : string) : Request := request_of (ToMerchant route)
  [("authorization", String.append "Bearer " api_secret); ("idempotency-key", key)] body.
Definition create_request : Request := merchant_request CreateIntent "create-order-0003" "{create}".
Definition quote_request : Request := merchant_request (CreateQuote (Some 1)) "quote-order-00001" "{quote}".
Definition cancel_request : Request := merchant_request (CancelIntent (Some 1)) "cancel-order-0001" "".
Definition guess : Request := request_of (ToOperator ManualResolutions) [("authorization", "Bearer guess")] "".

Definition attack : list Request := [guess; guess; guess].
Definition after_attack : HttpWorld (Session Z) := (serve app attack http_world).2.

(** Two guesses are answered, the third is refused, and so is the merchant's
    own request from that address, and its key is not looked up. *)
Lemma failed_logins_are_rationed_witness :
  rs_status <$> (serve app attack http_world).1 = [401; 401; 429]
  /\ failures "203.0.113.9" strict_limits attack (serve app attack http_world).1
     <= 2 + (hw_instant after_attack - 0) / 1000000 * 2 / 60000
  /\ exists seconds, 1 <= seconds <= 60
     /\ (router app cancel_request after_attack).1 = into_response (RateLimited seconds)
     /\ hw_world (router app cancel_request after_attack).2 = (elapse (hw_world after_attack)).2.
Proof.
  split; [vm_compute; reflexivity|].
  destruct (failed_logins_are_rationed app attack http_world (serve app attack http_world).1 after_attack "203.0.113.9")
    as [Hle Hmore].
  - apply per_minute_wf. unfold U32_MAX. cbn. lia.
  - cbn. lia.
  - apply surjective_pairing.
  - split; vm_compute; [discriminate|reflexivity].
  - split; [exact Hle|].
    destruct (Hmore cancel_request (elapse (hw_world after_attack)).1 (elapse (hw_world after_attack)).2)
      as (seconds & Hrange & Hr).
    + vm_compute. reflexivity.
    + apply surjective_pairing.
    + split; vm_compute; [discriminate|reflexivity].
    + vm_compute. discriminate.
    + exists seconds. split; [exact Hrange|]. rewrite Hr. exact (conj eq_refl eq_refl).
Defined.

Lemma keyed_state : governed (as_u256 (dual_control_min_raw (os_honor_policy (st_operations app)))) keyed_database
  /\ orderly keyed_database.
Proof.
  assert (forall f db, aside db (on_merchant_keys f db)) as Hkeys by done.
  destruct (shop_state_aside OperationsService_new shop_database _ keyed_database (Hkeys _ _) opened_state) as (G & O & _).
  exact (conj G O).
Qed.

(** An order is created, another is quoted and then cancelled. *)
Definition orders : list Request := [create_request; quote_request; cancel_request].

Lemma requests_keep_the_books_witness :
  rs_status <$> (serve app orders http_world).1 = [201; 201; 200]
  /\ exists row row', payment_intents keyed_database !! 1 = Some row /\ ir_status row = "requires_quote"
    /\ payment_intents (committed (hw_world (serve app orders http_world).2)) !! 1 = Some row'
    /\ ir_status row' = "cancelled" /\ same_intent row row'.
Proof.
  split; [vm_compute; reflexivity|]. destruct keyed_state as [G O].
  destruct (requests_keep_the_books app orders http_world (serve app orders http_world).1
    (serve app orders http_world).2 G O ltac:(apply surjective_pairing)) as (_ & _ & _ & Hall).
  destruct (payment_intents keyed_database !! 1) as [row|] eqn:H1; [|vm_compute in H1; discriminate H1].
  destruct (Hall 1 row H1) as (row' & H2 & Hs & _). exists row, row'. split_and!; [done| |done| |done].
  - vm_compute in H1. injection H1 as <-. reflexivity.
  - vm_compute in H2. injection H2 as <-. reflexivity.
Defined.
